(* ===== verification/_CoqProject ===== *)
-Q . S2P
Prelude.v
Arith64.v
Store.v
HashFns.v
Hashmap.v
Mutex.v
Stdio.v
CMem.v
LibcString.v
StrTo.v
Base85.v
Tss.v
Threads.v
ThreadInfo.v
Aes.v
Sha2.v
Vector.v
MinHeap.v
Deadlines.v
SmartPtr.v
DList.v
Port.v
BST.v
MapTree.v
Handles.v
PhysMem.v
PageTable.v
Slab.v
Sorting.v
Fat.v
Gpt.v
FsServer.v
LockFreeQueue.v
Scheduler.v
VmMap.v
RedBlackTree.v
