(* ===== verification/Prelude.v ===== *)
(** * A verification library for the kush operating system

    kush-os is a small operating system: a microkernel in C++ (src/kernel) with
    address spaces, threads, message ports and handles, and a C user space, of
    which the libc (src/user/lib/libc), the support library of the drivers and
    the file system server carry the logic that is not device code.  This library models the parts
    below as executable functions and step relations over explicit state and
    proves what makes them correct.  Names of definitions are those of the
    source; where a name is taken, the method of class X is [X_method] or has a
    letter in front.

    ** Conventions

    Prelude (this file): machine integers are [Z] with the wrap of their width
    written out; [res] is the outcome of a call: [Ok], [Panic] (the code stops
    on purpose) or [Stuck] (undefined behaviour: a null or dead pointer, an
    access outside an object, or fuel used up).  A theorem that a call is [Ok]
    therefore excludes all of these.  [st] is the state monad over [res].  A hash
    function, the allocator, a server or the clock that the code calls and that
    is not part of it is an argument of the definitions that use it.

    ** The kernel (src/kernel/src)

    - SmartPtr.v (runtime/SmartPointers.h): SharedPtr and WeakPtr over a memory of
      information blocks and objects, each constructor, assignment, destructor
      and [lock] one operation.  Every program of such operations is safe and
      counts exactly ([smart_pointers_safe]), but for the implicit copy of a weak
      pointer, which the handle tables use ([handle_slot_dangles]).
    - Handles.v (handle/Manager.h): handles as words of index, epoch and type in
      the layouts of i386 and amd64; the tables refine a map from handles to live
      objects until an epoch wraps, and the number of reuses at which it does is
      exact.
    - Vector.v (runtime/Vector.h, sched/PeerList.cpp), MinHeap.v
      (runtime/MinHeap.h), Deadlines.v (sched/Scheduler.cpp, Deadline.h): the
      vector with its storage, the heap on it as a priority queue, and on that
      the deadlines of a core, their expiry and the programming of the timer.
    - DList.v (runtime/List.h, Queue.h): the doubly linked list over a memory of
      elements refines a sequence and leaks nothing.
    - Port.v (ipc/Port.cpp, Port.h, blockOn and unblock of sched/Thread.cpp, the
      list of unblocked threads of sched/Scheduler.cpp): sending, receiving and
      the protocol by which a receiver blocks and is woken, as interleaved steps
      of any number of senders, one receiver and the scheduler ([pstep]), and the
      coarser steps of a single processor ([cstep]).  First-in first-out delivery
      holds in every interleaving; waking up is proved for one processor, with
      the executions in which a wake-up is lost.
    - Scheduler.v (sched/Scheduler.cpp, Oclock.cpp, IdleWorker.cpp, SleepDeadline.h
      and sched/Thread.cpp): a core with its 32 run queues, the list of unblocked
      threads, quantum accounting, deadlines and interrupt level.  Threads,
      the timer and the scheduler interrupt act in any order ([event]), and a
      thread that blocks or sleeps goes on later where its call left off
      ([continue]).  No runnable thread is ever lost ([no_thread_lost]), the
      search and the scheduler interrupt choose by level and order, and time is
      charged exactly.
    - LockFreeQueue.v (runtime/LockFreeQueue.h): the ring of the unblocked list
      and the run queues, one step per access to its counters and cells, for any
      number of producers and consumers: order, progress, safety, and refinement
      of a bounded list for calls that do not overlap, which is what Scheduler.v
      takes a queue to be.
    - PhysMem.v (mem/PhysRegion.cpp, PhysicalAllocator.cpp): bitmaps of free
      pages, chains of regions and the allocator, from the memory map of the
      boot loader to any sequence of allocations and frees.
    - Slab.v (mem/SlabAllocator.h): slabs of objects with bitmaps in a linked list;
      no object is handed out twice, and the destructor destroys what is live; an
      object outside the first slab can never be freed.
    - BST.v (runtime/BinarySearchTree.h): the search tree with its parent
      pointers, including the iteration that follows them.  MapTree.v
      (vm/MapTree.h and the placement of vm/Map.cpp): the tree of the regions of
      an address space, first-fit placement.
    - PageTable.v (kernel/arch/x86_64/src/vm/PTEHandler.cpp): the four-level page
      tables of all address spaces in one physical memory; they refine a map from
      address space and page to translation, with the upper half shared.
    - VmMap.v (vm/Map.cpp, MapEntry.cpp): address spaces and VM objects, on
      MapTree.v, PhysMem.v and the interface [PTEHandler] with its laws
      [PTELaws], which stand for vm/IPTEHandler.h.  Regions stay apart under any
      sequence of operations; a page fault ends with a fresh page at the address
      that faulted and no page has two owners.
    - RedBlackTree.v (runtime/RedBlackTree.h, the page tree of vm/MapEntry.h): the
      tree of the pages of a VM object at the level of nodes, pointers and
      rotations; it stays balanced and is the finite map that VmMap.v uses.
    - Aes.v, Sha2.v (crypto/aes.c, sha2.c): the block cipher with its modes and
      the four hash functions; Arith64.v (kernel/arch/x86_64/src/math.c): 64-bit
      arithmetic for 32-bit code.

    ** User space (src/user/lib)

    - Hashmap.v, HashFns.v (libc/src/struct/hashmap.c): the robin-hood hash map at
      the level of buckets and probe distances; it refines a finite map.  Store.v
      states this as an interface, [KVOps] with [KVLaws], against which its three clients
      are proved: Stdio.v (libc/src/file: descriptors, streams, the debug stream
      and the file server), Tss.v (thread-specific storage) and ThreadInfo.v (the
      table of threads).
    - Mutex.v (threads/c11_mutex.c) and Threads.v (threads/c11_threads.c): mutexes
      and the life cycle of a thread as interleaved atomic accesses.
    - CMem.v, LibcString.v (libc/src/string), StrTo.v (strtol and its relatives,
      character classes): functions over a memory of bytes in which an access
      outside the allocated blocks is [Stuck].
    - Sorting.v (libc/src/stdlib/qsort.c, heapsort.c, bsearch.c): the introsort with
      its fall-back, heapsort and binary search over an array of opaque elements,
      and the word-wise exchange of their bytes.
    - Base85.v (libdriver/src/serialize/base85.c): encoder and decoder.

    ** The file system server (src/user/drivers/filesystem/src)

    - Gpt.v (partition/GPT.cpp): the partition table of a disk is read as it was
      written.
    - Fat.v (fs/fat, util/String.cpp): FAT32 volumes over a disk that answers each
      request with bytes or with an error: cluster chains with the cached
      allocation table, directories with long names, reading files.
    - FsServer.v (FilesystemRegistry.cpp, auto/Automount.cpp, rpc/MessageLoop.cpp,
      rpc/LegacyIo.cpp, util/Path.cpp, main.cpp): mounting, and the packets that
      open, read and close files.  From the sectors of the disk to the replies,
      the server behaves as the tree of files that the volume describes.

    ** What the theorems show

    Refinement: the hash map, thread-specific storage, handles, the heap, the
    list, the lock-free queue, the page tables, the page tree, the file system
    server, the hash functions and the integer parsers compute what an abstract
    map, queue, sequence, tree, digest or grammar gives, for every sequence of
    calls.
    Invariants and safety: no page, region, message or object is handed out,
    delivered or freed twice; mutual exclusion; no use after free, under the
    hypotheses named in the statements.  Termination: every loop is a fixpoint on
    fuel computed from the state, and the theorems show that the call is [Ok],
    so the fuel is enough: the loops of the heap take at most its length, the
    probe loops of the hash map at most the number of buckets, placement one
    round per region, chaining of regions one round per page, string loops the
    length of the string; the loops of the scheduler over its queues take their
    length, at most 63, and its search is repeated at most five times, as in the
    code; a cluster chain has at most as many clusters as the table has entries.
    Round trips: handles, base85, AES, partition tables, directories.  Error behaviour:
    what the code does where it departs from its documentation, each with the
    execution that shows it.

    ** Not modelled

    Tasks, signal flags, interrupt handlers, the system calls, the stack pool and
    the hash table of the kernel, the page tables of the 32-bit port, and formatted
    output, merge sort and option parsing of the libc.  Removal from the red-black
    tree, which nothing calls, is left out, and so are the parsing of the
    configuration of the file system server and its two threads running at once.
    Scheduler.v has one core and lets interrupts come between operations, and the
    timer also inside a search.  Handles and owners of VM objects, TLB
    shoot-down, logging and locks that guard a whole operation have no state in
    the models.  Left out for good are third-party code (ACPICA, dlmalloc, bzip2,
    gdtoa), device drivers and assembly, whose behaviour is not in the sources. *)

From Stdlib Require Export ZArith Lia.
From stdpp Require Export prelude list gmap.

(** ** Machine integers

    A C integer of width [w] is a [Z]: an unsigned value lies in [[0, 2^w)], a
    signed one in [[-2^(w-1), 2^(w-1))].  Every operation of the code that can
    leave that range is followed by the wrap of its result type. *)

Declare Scope mach_scope.
Delimit Scope mach_scope with mach.
Open Scope Z_scope.

Definition wrap (w z : Z) : Z := z mod 2 ^ w.
Definition swrap (w z : Z) : Z := (z + 2 ^ (w - 1)) mod 2 ^ w - 2 ^ (w - 1).

Definition u8 (z : Z) : Z := wrap 8 z.
Definition u16 (z : Z) : Z := wrap 16 z.
Definition u32 (z : Z) : Z := wrap 32 z.
Definition u64 (z : Z) : Z := wrap 64 z.
Definition s8 (z : Z) : Z := swrap 8 z.
Definition s32 (z : Z) : Z := swrap 32 z.
Definition s64 (z : Z) : Z := swrap 64 z.

Definition is_u (w z : Z) : Prop := 0 <= z < 2 ^ w.
Definition is_s (w z : Z) : Prop := - 2 ^ (w - 1) <= z < 2 ^ (w - 1).

Notation "x '<<' n" := (Z.shiftl x n) (at level 50, left associativity) : mach_scope.
Notation "x '>>' n" := (Z.shiftr x n) (at level 50, left associativity) : mach_scope.
Notation "x '.&' y" := (Z.land x y) (at level 50, left associativity) : mach_scope.
Notation "x '.|' y" := (Z.lor x y) (at level 50, left associativity) : mach_scope.
Notation "x '.^' y" := (Z.lxor x y) (at level 50, left associativity) : mach_scope.

(** The C truth value of a comparison and the C negation [!x]. *)
Definition cbool (b : bool) : Z := if b then 1 else 0.
Definition lognot (z : Z) : Z := cbool (z =? 0).

(** ** Outcomes

    A C function that can fail other than by its return value yields an [res]:
    [Ok] with the value and the new state, [Panic] when the code stops the
    program on purpose ([panic], [abort], [REQUIRE]), [Stuck] when it would run
    into undefined behaviour (an access outside an object, a signed overflow)
    or when the fuel of the model is used up.  A theorem that a call is [Ok]
    excludes all of these. *)
Inductive res (A : Type) : Type :=
| Ok (a : A)
| Panic
| Stuck.
Arguments Ok {A} _.
Arguments Panic {A}.
Arguments Stuck {A}.

#[export] Instance res_ret : MRet res := fun A a => Ok a.
#[export] Instance res_bind : MBind res := fun A B f m =>
  match m with Ok a => f a | Panic => Panic | Stuck => Stuck end.
#[export] Instance res_fmap : FMap res := fun A B f m =>
  match m with Ok a => Ok (f a) | Panic => Panic | Stuck => Stuck end.

(** An access that must be in range. *)
Definition res_of {A} (o : option A) : res A :=
  match o with Some a => Ok a | None => Stuck end.

(** The kernel's [REQUIRE] (kernel/include/log.h). *)
Definition REQUIRE (c : bool) : res () := if c then Ok () else Panic.

(** [a[i]] and [a[i] = x] of an array held as a list, at a [Z] index. *)
Definition aget {A} (l : list A) (i : Z) : res A :=
  if 0 <=? i then res_of (l !! Z.to_nat i) else Stuck.
Definition aset {A} (l : list A) (i : Z) (x : A) : res (list A) :=
  if (0 <=? i) && (i <? Z.of_nat (length l)) then Ok (<[Z.to_nat i := x]> l) else Stuck.

(** A computation that also changes a state [W]. *)
Definition st (W A : Type) : Type := W -> res (A * W).
#[export] Instance st_ret {W} : MRet (st W) := fun A a w => Ok (a, w).
#[export] Instance st_bind {W} : MBind (st W) := fun A B f m w =>
  match m w with Ok (a, w) => f a w | Panic => Panic | Stuck => Stuck end.
Definition sget {W} : st W W := fun w => Ok (w, w).
Definition sput {W} (w : W) : st W () := fun _ => Ok ((), w).
Definition smod {W} (f : W -> W) : st W () := fun w => Ok ((), f w).
Definition slift {W A} (r : res A) : st W A := fun w => a ← r; Ok (a, w).
Definition sabort {W A} : st W A := fun _ => Panic.
Definition sstuck {W A} : st W A := fun _ => Stuck.

(** ** Tactics *)

(** Case analysis on the first [if] or [match] of the goal, remembering the
    equation. *)
Ltac case_if :=
  match goal with
  | |- context [if ?b then _ else _] => let E := fresh "E" in destruct b eqn:E
  end.

(** Closes goals of linear arithmetic that mention boolean comparisons and
    powers of two with literal exponents. *)
Ltac pow_norm :=
  repeat match goal with
  | |- context [Z.pow 2 ?k] =>
      match isZcst k with true => let v := eval vm_compute in (Z.pow 2 k) in
                                  change (Z.pow 2 k) with v end
  | H : context [Z.pow 2 ?k] |- _ =>
      match isZcst k with true => let v := eval vm_compute in (Z.pow 2 k) in
                                  change (Z.pow 2 k) with v in H end
  end.
Ltac mlia := unfold is_u, is_s in *; pow_norm; lia.

(** Decides a comparison in the goal. *)
Ltac blia :=
  match goal with
  | |- (_ <? _) = true => apply Z.ltb_lt; lia
  | |- (_ <? _) = false => apply Z.ltb_ge; lia
  | |- (_ <=? _) = true => apply Z.leb_le; lia
  | |- (_ <=? _) = false => apply Z.leb_gt; lia
  | |- (_ =? _) = true => apply Z.eqb_eq; lia
  | |- (_ =? _) = false => apply Z.eqb_neq; lia
  | |- true = _ => symmetry; blia
  | |- false = _ => symmetry; blia
  end.

(** ** Rewrite database for bits *)

Create Rewrite HintDb bits.
#[export] Hint Rewrite Z.lor_spec Z.land_spec Z.lxor_spec Z.lnot_spec Z.ldiff_spec
  Z.testbit_0_l : bits.
#[export] Hint Rewrite Z.shiftl_spec Z.shiftr_spec Z.mod_pow2_bits_low
  Z.mod_pow2_bits_high using lia : bits.

(** ** Facts on machine integers *)

Lemma wrap_range w z : 0 <= w -> is_u w (wrap w z).
Proof. intros. apply Z.mod_pos_bound. lia. Qed.

Lemma wrap_small w z : is_u w z -> wrap w z = z.
Proof. apply Z.mod_small. Qed.

Lemma wrap_wrap w z : 0 <= w -> wrap w (wrap w z) = wrap w z.
Proof. intros. by apply wrap_small, wrap_range. Qed.

Lemma swrap_range w z : 1 <= w -> is_s w (swrap w z).
Proof.
  intros. unfold is_s, swrap.
  assert (2 ^ w = 2 * 2 ^ (w - 1)) as E by (rewrite <- Z.pow_succ_r by lia; f_equal; lia).
  pose proof (Z.mod_pos_bound (z + 2 ^ (w - 1)) (2 ^ w)). lia.
Qed.

Lemma swrap_small w z : 1 <= w -> is_s w z -> swrap w z = z.
Proof.
  unfold is_s, swrap. intros.
  assert (2 ^ w = 2 * 2 ^ (w - 1)) as E by (rewrite <- Z.pow_succ_r by lia; f_equal; lia).
  rewrite Z.mod_small; lia.
Qed.

(** Converting a signed value to unsigned and back is the identity, and the
    signed view depends only on the residue. *)
Lemma swrap_wrap w z : 0 <= w -> swrap w (wrap w z) = swrap w z.
Proof. intros. unfold swrap, wrap. by rewrite Zplus_mod_idemp_l. Qed.

Lemma wrap_swrap w z : 1 <= w -> wrap w (swrap w z) = wrap w z.
Proof.
  intros. unfold swrap, wrap. rewrite Zminus_mod_idemp_l. f_equal. lia.
Qed.

Lemma wrap_add_l w x y : wrap w (wrap w x + y) = wrap w (x + y).
Proof. apply Zplus_mod_idemp_l. Qed.
Lemma wrap_add_r w x y : wrap w (x + wrap w y) = wrap w (x + y).
Proof. apply Zplus_mod_idemp_r. Qed.
Lemma wrap_mul_l w x y : wrap w (wrap w x * y) = wrap w (x * y).
Proof. apply Zmult_mod_idemp_l. Qed.
Lemma wrap_mul_r w x y : wrap w (x * wrap w y) = wrap w (x * y).
Proof. apply Zmult_mod_idemp_r. Qed.

(** Bits of a value above its width are clear. *)
Lemma testbit_above w z i : is_u w z -> 0 <= w <= i -> Z.testbit z i = false.
Proof.
  intros H ?. rewrite <- (wrap_small w z H). apply Z.mod_pow2_bits_high. lia.
Qed.

Lemma testbit_wrap w z i :
  0 <= w -> 0 <= i -> Z.testbit (wrap w z) i = (i <? w) && Z.testbit z i.
Proof.
  intros. unfold wrap. destruct (Z.ltb_spec i w).
  - rewrite Z.mod_pow2_bits_low by lia. done.
  - rewrite Z.mod_pow2_bits_high by lia. done.
Qed.

(** A signed view extends bit [w - 1] upwards. *)
Lemma testbit_swrap w z i :
  1 <= w -> 0 <= i -> Z.testbit (swrap w z) i = Z.testbit z (Z.min i (w - 1)).
Proof.
  intros Hw Hi.
  assert (forall j, 0 <= j < w -> Z.testbit (swrap w z) j = Z.testbit z j) as Hlow.
  { intros j ?. rewrite <- (Z.mod_pow2_bits_low (swrap w z) w) by lia.
    change (Z.testbit (wrap w (swrap w z)) j = Z.testbit z j).
    rewrite wrap_swrap, testbit_wrap by lia. by destruct (Z.ltb_spec j w); [|lia]. }
  destruct (Z.le_gt_cases w i); [|rewrite Hlow by lia; f_equal; lia].
  rewrite Z.min_r by lia. rewrite <- Hlow by lia.
  pose proof (swrap_range w z Hw) as R. unfold is_s in R.
  assert (forall j, w - 1 <= j -> Z.testbit (swrap w z) j = (swrap w z <? 0)) as Hs.
  { intros j ?. assert (2 ^ (w - 1) <= 2 ^ j) by (apply Z.pow_le_mono_r; lia).
    rewrite Z.testbit_odd, Z.shiftr_div_pow2 by lia.
    destruct (Z.ltb_spec (swrap w z) 0).
    - replace (swrap w z / 2 ^ j) with (-1); [done|].
      apply (Z.div_unique _ _ _ (swrap w z + 2 ^ j)); lia.
    - by rewrite Z.div_small by lia. }
  by rewrite !Hs by lia.
Qed.

(** Proves an equation between machine words bit by bit: every operator is
    pushed down to bits of the variables, with a case split on each position
    that is not known to lie inside a word. *)
Ltac bit_sign i :=
  tryif (first [assert (0 <= i) by lia | assert (i < 0) by lia]) then fail
  else destruct (Z.lt_ge_cases i 0).
Ltac bit_at_least w i :=
  tryif (first [assert (w <= i) by lia | assert (i < w) by lia]) then fail
  else destruct (Z.lt_ge_cases i w).
Ltac bit_step :=
  match goal with
  | |- context [Z.testbit _ ?i] => rewrite (Z.testbit_neg_r _ i) by lia
  | |- context [Z.testbit (Z.lor ?a ?b) ?i] => rewrite (Z.lor_spec a b i)
  | |- context [Z.testbit (Z.land ?a ?b) ?i] => rewrite (Z.land_spec a b i)
  | |- context [Z.testbit (Z.lxor ?a ?b) ?i] => rewrite (Z.lxor_spec a b i)
  | |- context [Z.testbit (Z.shiftl ?a ?n) ?i] => rewrite (Z.shiftl_spec a n i) by lia
  | |- context [Z.testbit (Z.shiftr ?a ?n) ?i] => rewrite (Z.shiftr_spec a n i) by lia
  | |- context [Z.testbit (wrap ?w ?a) ?i] =>
      rewrite (testbit_wrap w a i) by lia;
      first [replace (i <? w) with true by lia | replace (i <? w) with false by lia
            |destruct (Z.ltb_spec i w)]
  | |- context [Z.testbit (swrap ?w ?a) ?i] =>
      rewrite (testbit_swrap w a i) by lia;
      first [rewrite (Z.min_l i (w - 1)) by lia | rewrite (Z.min_r i (w - 1)) by lia
            |destruct (Z.le_gt_cases i (w - 1))]
  | |- context [Z.testbit 0 ?i] => rewrite (Z.testbit_0_l i)
  | H : is_u ?w ?a |- context [Z.testbit ?a ?i] =>
      rewrite (testbit_above w a i) by (exact H || lia)
  | |- context [Z.testbit _ ?i] => bit_sign i
  | H : is_u ?w ?a |- context [Z.testbit ?a ?i] => bit_at_least w i
  end;
  rewrite ?andb_true_l, ?andb_false_l, ?andb_true_r, ?andb_false_r,
    ?orb_false_l, ?orb_false_r, ?xorb_false_l, ?xorb_false_r.
Ltac bitblast :=
  apply Z.bits_inj'; intros ?i ?Hi; repeat bit_step;
  try (reflexivity || (f_equal; lia) || (exfalso; lia)).

(** [x & (2^k - 1)] is the remainder modulo [2^k]: the mask of a power-of-two
    sized table. *)
Lemma land_mask x k : 0 <= k -> Z.land x (2 ^ k - 1) = x mod 2 ^ k.
Proof. intros. rewrite <- Z.land_ones, Z.ones_equiv by done. f_equal; lia. Qed.

(** Closure of the unsigned range under bit operations. *)
Lemma is_u_lor w x y : 0 <= w -> is_u w x -> is_u w y -> is_u w (Z.lor x y).
Proof.
  intros Hw Hx Hy. rewrite <- (wrap_small w x Hx), <- (wrap_small w y Hy).
  replace (Z.lor _ _) with (wrap w (Z.lor x y)) by bitblast. by apply wrap_range.
Qed.
Lemma is_u_land w x y : 0 <= w -> is_u w x -> is_u w (Z.land x y).
Proof.
  intros Hw Hx. rewrite <- (wrap_small w x Hx).
  replace (Z.land _ _) with (wrap w (Z.land x y)) by bitblast. by apply wrap_range.
Qed.
Lemma is_u_lxor w x y : 0 <= w -> is_u w x -> is_u w y -> is_u w (Z.lxor x y).
Proof.
  intros Hw Hx Hy. rewrite <- (wrap_small w x Hx), <- (wrap_small w y Hy).
  replace (Z.lxor _ _) with (wrap w (Z.lxor x y)) by bitblast. by apply wrap_range.
Qed.
Lemma is_u_shiftr w x n : 0 <= w -> 0 <= n -> is_u w x -> is_u w (Z.shiftr x n).
Proof.
  intros Hw Hn Hx. rewrite <- (wrap_small w x Hx).
  replace (Z.shiftr _ _) with (wrap w (Z.shiftr (wrap w x) n)) by bitblast.
  by apply wrap_range.
Qed.

Create HintDb mach.
#[export] Hint Resolve wrap_range is_u_lor is_u_land is_u_lxor is_u_shiftr : mach.
#[export] Hint Extern 2 (is_u _ _) => assumption : mach.
#[export] Hint Extern 5 (_ <= _) => lia : mach.
#[export] Hint Extern 5 (is_u _ _) => mlia : mach.

(** A disjunction of values whose bits do not overlap is their sum. *)
Lemma lor_add_disjoint hi lo k :
  0 <= k -> is_u k lo -> Z.lor (hi * 2 ^ k) lo = hi * 2 ^ k + lo.
Proof.
  intros Hk Hlo. rewrite Z.add_nocarry_lxor, Z.lxor_lor; [done| |];
    apply Z.bits_inj'; intros i Hi; autorewrite with bits;
    rewrite <- Z.shiftl_mul_pow2, Z.shiftl_spec by lia;
    (destruct (Z.ltb_spec i k);
     [rewrite Z.testbit_neg_r by lia | rewrite (testbit_above k lo) by (done || lia)]);
    by rewrite ?andb_false_r, ?andb_false_l.
Qed.

(** ** Facts on lists *)

Lemma list_insert_lookup_total {A} `{Inhabited A} (l : list A) (i j : nat) (x : A) :
  (i < length l)%nat -> <[i:=x]> l !!! j = if decide (i = j) then x else l !!! j.
Proof.
  intros. case_decide; subst.
  - by rewrite list_lookup_total_insert_eq.
  - by rewrite list_lookup_total_insert_ne.
Qed.

Lemma aget_ok {A} `{Inhabited A} (l : list A) i :
  0 <= i < Z.of_nat (length l) -> aget l i = Ok (l !!! Z.to_nat i).
Proof.
  intros. unfold aget. replace (0 <=? i) with true by lia.
  rewrite (list_lookup_lookup_total_lt l) by lia. done.
Qed.

Lemma aset_ok {A} (l : list A) i x :
  0 <= i < Z.of_nat (length l) -> aset l i x = Ok (<[Z.to_nat i := x]> l).
Proof. intros. unfold aset. by replace (_ && _) with true by lia. Qed.
