(* ===== verification/Arith64.v ===== *)
(** * 64-bit arithmetic support of the kernel (kernel/arch/x86_64/src/math.c)

    The compiler emits calls to these routines for 64-bit shifts, divisions and
    bit counts.  A [uint64_t] is a [Z] in [[0, 2^64)], an [int64_t] a [Z] in
    [[-2^63, 2^63)]; the union [_arith64_word] is the record of its two 32-bit
    halves.  The theorems relate each routine to the operation on [Z] it stands
    for: shifts to multiplication and division by powers of two, the leading
    and trailing zero counts to the binary logarithm and the 2-adic valuation,
    the restoring long division to [Z.div] and [Z.modulo]. *)

From S2P Require Import Prelude.
Local Open Scope mach_scope.

(** ** Words as two halves *)

(** [_arith64_word]: [u32] view; the [s32.hi] view of a half is [s32]. *)
Record _arith64_word := Word64 { w_lo : Z; w_hi : Z }.

Definition hi (n : Z) : Z := u32 (n >> 32).
Definition lo (n : Z) : Z := u32 n.

Definition word_of (n : Z) : _arith64_word := Word64 (lo (u64 n)) (hi (u64 n)).
Definition word_u64 (w : _arith64_word) : Z := w_lo w + w_hi w * 2 ^ 32.
Definition word_s64 (w : _arith64_word) : Z := s64 (word_u64 w).

(** The macro [negate(a, b)] at its two types: [a] an [int64_t] and [a] a
    [uint64_t].  Signed overflow wraps, which only concerns [LLINT_MIN]. *)
Definition negate_s64 (a b : Z) : Z :=
  s64 ((a .^ (cbool (0 <=? b) - 1)) + cbool (b <? 0)).
Definition negate_u64 (a b : Z) : Z :=
  u64 ((a .^ u64 (cbool (0 <=? b) - 1)) + cbool (b <? 0)).

Definition __absvdi2 (a : Z) : Z := negate_s64 a a.

(** ** Shifts *)

Definition __ashldi3 (a b : Z) : Z :=
  let w := word_of a in
  let b := b .& 63 in
  if 32 <=? b then word_s64 (Word64 0 (u32 (w_lo w << (b - 32))))
  else if negb (b =? 0) then
    word_s64 (Word64 (u32 (w_lo w << b)) ((w_lo w >> (32 - b)) .| u32 (w_hi w << b)))
  else word_s64 w.

Definition __ashrdi3 (a b : Z) : Z :=
  let w := word_of a in
  let b := b .& 63 in
  if 32 <=? b then
    word_s64 (Word64 (u32 (s32 (w_hi w) >> (b - 32))) (u32 (s32 (w_hi w) >> 31)))
  else if negb (b =? 0) then
    word_s64 (Word64 (u32 (w_hi w << (32 - b)) .| (w_lo w >> b)) (u32 (s32 (w_hi w) >> b)))
  else word_s64 w.

Definition __lshrdi3 (a b : Z) : Z :=
  let w := word_of a in
  let b := b .& 63 in
  if 32 <=? b then word_u64 (Word64 (w_hi w >> (b - 32)) 0)
  else if negb (b =? 0) then
    word_u64 (Word64 (u32 (w_hi w << (32 - b)) .| (w_lo w >> b)) (w_hi w >> b))
  else word_u64 w.

(** ** Bit counts *)

(** One line [b = !(a & mask) << s; n += b; a <<= b;] of [__clzsi2] and
    [__clzdi2] ([width] is that of [a]), and its mirror image in [__ctz?i2]. *)
Definition clz_step (width mask s : Z) (st : Z * Z) : Z * Z :=
  let '(n, a) := st in
  let b := lognot (a .& mask) << s in
  (n + b, wrap width (a << b)).

Definition ctz_step (mask s : Z) (st : Z * Z) : Z * Z :=
  let '(n, a) := st in
  let b := lognot (a .& mask) << s in
  (n + b, a >> b).

Definition __clzsi2 (a : Z) : Z :=
  let st := (0, a) in
  let st := clz_step 32 0xffff0000 4 st in
  let st := clz_step 32 0xff000000 3 st in
  let st := clz_step 32 0xf0000000 2 st in
  let st := clz_step 32 0xc0000000 1 st in
  fst st + lognot (snd st .& 0x80000000).

Definition __clzdi2 (a : Z) : Z :=
  let st := (0, a) in
  let st := clz_step 64 0xffffffff00000000 5 st in
  let st := clz_step 64 0xffff000000000000 4 st in
  let st := clz_step 64 0xff00000000000000 3 st in
  let st := clz_step 64 0xf000000000000000 2 st in
  let st := clz_step 64 0xc000000000000000 1 st in
  fst st + lognot (snd st .& 0x8000000000000000).

Definition __ctzsi2 (a : Z) : Z :=
  let st := (0, a) in
  let st := ctz_step 0x0000ffff 4 st in
  let st := ctz_step 0x000000ff 3 st in
  let st := ctz_step 0x0000000f 2 st in
  let st := ctz_step 0x00000003 1 st in
  fst st + lognot (snd st .& 0x00000001).

Definition __ctzdi2 (a : Z) : Z :=
  let st := (0, a) in
  let st := ctz_step 0x00000000ffffffff 5 st in
  let st := ctz_step 0x000000000000ffff 4 st in
  let st := ctz_step 0x00000000000000ff 3 st in
  let st := ctz_step 0x000000000000000f 2 st in
  let st := ctz_step 0x0000000000000003 1 st in
  fst st + lognot (snd st .& 0x0000000000000001).

Definition __ffsdi2 (a : Z) : Z := if negb (a =? 0) then __ctzdi2 a + 1 else 0.

Definition __popcountsi2 (a : Z) : Z :=
  let a := u32 (a - ((a >> 1) .& 0x55555555)) in
  let a := u32 (((a >> 2) .& 0x33333333) + (a .& 0x33333333)) in
  let a := u32 (a + (a >> 4)) .& 0x0F0F0F0F in
  let a := u32 (a + (a >> 16)) in
  u32 (a + (a >> 8)) .& 63.

Definition __popcountdi2 (a : Z) : Z :=
  let a := u64 (a - ((a >> 1) .& 0x5555555555555555)) in
  let a := u64 (((a >> 2) .& 0x3333333333333333) + (a .& 0x3333333333333333)) in
  let a := u64 (a + (a >> 4)) .& 0x0F0F0F0F0F0F0F0F in
  let a := u64 (a + (a >> 32)) in
  let a := u64 (a + (a >> 16)) in
  u64 (a + (a >> 8)) .& 127.

(** ** Division *)

(** State of the long division loop: [a], [rem] and [wrap]. *)
Record divstate := DivState { d_a : Z; d_rem : Z; d_wrap : Z }.

(** One iteration of [while (bits-- > 0)]. *)
Definition div_step (b : Z) (s : divstate) : divstate :=
  let rem := u64 (d_rem s << 1) .| (d_a s >> 63) in
  let a := u64 (d_a s << 1) .| (d_wrap s .& 1) in
  let wrap := u64 (s64 (u64 (b - rem - 1)) >> 63) in
  DivState a (u64 (rem - (b .& wrap))) wrap.

Fixpoint div_loop (bits : nat) (b : Z) (s : divstate) : divstate :=
  match bits with
  | O => s
  | S bits => div_loop bits b (div_step b s)
  end.

(** Quotient and remainder, or [None] when the routine raises the divide
    exception. *)
Definition __divmoddi4 (a b : Z) : option (Z * Z) :=
  if a <? b then Some (0, a)
  else if (hi b =? 0) && (b =? 0) then None
  else if (hi b =? 0) && (b =? 1) then Some (a, 0)
  else if (hi b =? 0) && (hi a =? 0) then Some (lo a / lo b, lo a mod lo b)
  else
    let bits := __clzdi2 b - __clzdi2 a + 1 in
    let s := div_loop (Z.to_nat bits) b (DivState (u64 (a << (64 - bits))) (a >> bits) 0) in
    Some (u64 (d_a s << 1) .| (d_wrap s .& 1), d_rem s).

Definition __udivdi3 (a b : Z) : option Z := fst <$> __divmoddi4 a b.
Definition __umoddi3 (a b : Z) : option Z := snd <$> __divmoddi4 a b.

Definition __divdi3 (a b : Z) : option Z :=
  q ← fst <$> __divmoddi4 (u64 (negate_s64 a a)) (u64 (negate_s64 b b));
  Some (s64 (negate_u64 q (a .^ b))).
Definition __moddi3 (a b : Z) : option Z :=
  r ← snd <$> __divmoddi4 (u64 (negate_s64 a a)) (u64 (negate_s64 b b));
  Some (s64 (negate_u64 r a)).

(** ** Facts on halves *)

Lemma word_u64_lor w : is_u 32 (w_lo w) -> word_u64 w = (w_hi w << 32) .| w_lo w.
Proof.
  intros. rewrite Z.shiftl_mul_pow2, lor_add_disjoint by (done || lia).
  unfold word_u64. lia.
Qed.

Ltac word_unfold :=
  unfold word_s64, word_of, hi, lo, u64, u32, s32, s64 in *; cbn [w_lo w_hi] in *.

Lemma land63 b : 0 <= b .& 63 < 64.
Proof. change 63 with (2 ^ 6 - 1). rewrite land_mask by lia. apply Z.mod_pos_bound. lia. Qed.

(** ** Shifts are multiplication and division by powers of two *)

Ltac word_range :=
  cbn [w_lo w_hi word_of]; unfold lo, hi, u64, u32, s32 in *; eauto 8 with mach.

Lemma ashldi3_spec a b : is_s 64 a -> __ashldi3 a b = s64 (a << (b .& 63)).
Proof.
  intros Ha. unfold __ashldi3. pose proof (land63 b). set (k := b .& 63) in *.
  unfold s64. rewrite <- (swrap_wrap 64 (a << k)) by lia.
  destruct (32 <=? k) eqn:?; [|destruct (negb (k =? 0)) eqn:?].
  all: unfold word_s64, s64; f_equal; rewrite word_u64_lor by word_range.
  all: word_unfold; bitblast.
Qed.

(** An [int64_t] is its own sign extension. *)
Lemma s64_shiftr a k : is_s 64 a -> 0 <= k -> a >> k = s64 (u64 (s64 (u64 a) >> k)).
Proof.
  intros Ha Hk. unfold s64, u64. rewrite !swrap_wrap, (swrap_small 64 a) by (done || lia).
  symmetry. apply swrap_small; [lia|]. unfold is_s in *.
  rewrite Z.shiftr_div_pow2 by lia. pose proof (Z.pow_pos_nonneg 2 k). split.
  - apply Z.div_le_lower_bound; nia.
  - apply Z.div_lt_upper_bound; nia.
Qed.

Lemma ashrdi3_spec a b : is_s 64 a -> __ashrdi3 a b = a >> (b .& 63).
Proof.
  intros Ha. unfold __ashrdi3. pose proof (land63 b). set (k := b .& 63) in *.
  rewrite (s64_shiftr a k) by (done || lia).
  destruct (32 <=? k) eqn:?; [|destruct (negb (k =? 0)) eqn:?].
  all: unfold word_s64, s64; f_equal; rewrite word_u64_lor by word_range.
  all: word_unfold; bitblast.
Qed.

Lemma lshrdi3_spec a b : is_u 64 a -> __lshrdi3 a b = a >> (b .& 63).
Proof.
  intros Ha. unfold __lshrdi3. pose proof (land63 b). set (k := b .& 63) in *.
  destruct (32 <=? k) eqn:?; [|destruct (negb (k =? 0)) eqn:?].
  all: rewrite word_u64_lor by word_range; word_unfold; bitblast.
Qed.

(** ** Leading and trailing zeros *)

(** The top [s] bits of a [w]-bit word are clear exactly when the word is below
    [2^(w-s)]. *)
Lemma land_high_mask w s a :
  0 <= s <= w -> is_u w a -> a .& (Z.ones s << (w - s)) = (a >> (w - s)) << (w - s).
Proof.
  intros Hs Ha. apply Z.bits_inj'; intros i Hi.
  rewrite Z.land_spec, !Z.shiftl_spec by lia.
  destruct (Z.lt_ge_cases i (w - s)).
  - by rewrite !(Z.testbit_neg_r _ (i - (w - s))), andb_false_r by lia.
  - rewrite Z.shiftr_spec by lia. destruct (Z.lt_ge_cases i w).
    + rewrite Z.ones_spec_low, andb_true_r by lia. f_equal; lia.
    + rewrite !(testbit_above w a) by (done || lia). done.
Qed.

Lemma land_high_mask_0 w s a :
  0 <= s <= w -> is_u w a -> (a .& (Z.ones s << (w - s)) =? 0) = (a <? 2 ^ (w - s)).
Proof.
  intros Hs Ha. rewrite land_high_mask, Z.shiftl_mul_pow2, Z.shiftr_div_pow2 by (done || lia).
  pose proof (Z.pow_pos_nonneg 2 (w - s)). destruct Ha.
  pose proof (Z.div_pos a (2 ^ (w - s))). destruct (Z.ltb_spec a (2 ^ (w - s))).
  - by rewrite Z.div_small.
  - assert (1 <= a / 2 ^ (w - s)) by (apply Z.div_le_lower_bound; lia). nia.
Qed.

(** [n] counts the zeros already shifted out; the word keeps one of its top
    [s] bits set. *)
Definition clz_inv (w s total : Z) (st : Z * Z) : Prop :=
  2 ^ (w - s) <= snd st < 2 ^ w /\ fst st + (w - 1 - Z.log2 (snd st)) = total.

Lemma clz_step_inv w k total st mask :
  0 <= k -> 2 * 2 ^ k <= w -> mask = Z.ones (2 ^ k) << (w - 2 ^ k) ->
  clz_inv w (2 * 2 ^ k) total st -> clz_inv w (2 ^ k) total (clz_step w mask k st).
Proof.
  destruct st as [n a]. intros Hk Hw -> [Ha Hn]. cbn [fst snd] in *.
  assert (1 <= 2 ^ k) by (apply (Z.pow_le_mono_r 2 0 k); lia).
  unfold clz_step, lognot. rewrite land_high_mask_0
    by (unfold is_u; pose proof (Z.pow_pos_nonneg 2 (w - 2 * 2 ^ k)); lia).
  unfold clz_inv; cbn [fst snd].
  set (s := 2 ^ k) in *. set (p := 2 ^ (w - 2 * s)) in *. set (q := 2 ^ s).
  assert (0 < p /\ 2 <= q) as [? ?]
    by (split; [apply Z.pow_pos_nonneg|apply (Z.pow_le_mono_r 2 1)]; lia).
  assert (2 ^ (w - s) = p * q) as -> by (subst p q; rewrite <- Z.pow_add_r by lia; f_equal; lia).
  assert (2 ^ w = p * q * q) as E
    by (subst p q; rewrite <- !Z.pow_add_r by lia; f_equal; lia).
  rewrite E in *. destruct (Z.ltb_spec a (p * q)); cbn [cbool].
  - rewrite (Z.shiftl_mul_pow2 1), Z.mul_1_l by lia. change (2 ^ k) with s.
    rewrite Z.shiftl_mul_pow2 by lia. change (2 ^ s) with q.
    rewrite wrap_small by (unfold is_u; rewrite E; nia).
    replace (Z.log2 (a * q)) with (s + Z.log2 a) by (symmetry; apply Z.log2_mul_pow2; lia).
    nia.
  - rewrite Z.shiftl_0_l, Z.shiftl_0_r, wrap_small by (unfold is_u; rewrite E; lia). nia.
Qed.

Lemma clz_finish w total st mask :
  2 <= w -> mask = Z.ones 1 << (w - 1) -> clz_inv w 2 total st ->
  fst st + lognot (snd st .& mask) = total.
Proof.
  destruct st as [n a]. unfold clz_inv. cbn [fst snd]. intros Hw -> [Ha Hn].
  assert (0 < 2 ^ (w - 2)) by (apply Z.pow_pos_nonneg; lia).
  unfold lognot. rewrite land_high_mask_0 by (unfold is_u; lia).
  destruct (Z.ltb_spec a (2 ^ (w - 1))); cbn [cbool].
  - enough (Z.log2 a = w - 2) by lia. apply Z.log2_unique; [lia|].
    replace (Z.succ (w - 2)) with (w - 1); lia.
  - enough (Z.log2 a = w - 1) by lia. apply Z.log2_unique; [lia|].
    replace (Z.succ (w - 1)) with w; lia.
Qed.

Lemma clzdi2_spec a : 0 < a < 2 ^ 64 -> __clzdi2 a = 63 - Z.log2 a.
Proof.
  intros Ha. unfold __clzdi2.
  apply (clz_finish 64); [lia|reflexivity|].
  apply (clz_step_inv 64 1); [lia..|reflexivity|].
  apply (clz_step_inv 64 2); [lia..|reflexivity|].
  apply (clz_step_inv 64 3); [lia..|reflexivity|].
  apply (clz_step_inv 64 4); [lia..|reflexivity|].
  apply (clz_step_inv 64 5); [lia..|reflexivity|].
  unfold clz_inv. cbn [fst snd]. mlia.
Qed.

Lemma clzsi2_spec a : 0 < a < 2 ^ 32 -> __clzsi2 a = 31 - Z.log2 a.
Proof.
  intros Ha. unfold __clzsi2.
  apply (clz_finish 32); [lia|reflexivity|].
  apply (clz_step_inv 32 1); [lia..|reflexivity|].
  apply (clz_step_inv 32 2); [lia..|reflexivity|].
  apply (clz_step_inv 32 3); [lia..|reflexivity|].
  apply (clz_step_inv 32 4); [lia..|reflexivity|].
  unfold clz_inv. cbn [fst snd]. mlia.
Qed.

(** [orig] is the current word with [n] zeros appended, and one of its low
    [s] bits is set. *)
Definition ctz_inv (s orig : Z) (st : Z * Z) : Prop :=
  0 <= fst st /\ orig = snd st * 2 ^ fst st /\ snd st mod 2 ^ s <> 0.

Lemma ctz_step_inv k orig st mask :
  0 <= k -> mask = 2 ^ (2 ^ k) - 1 ->
  ctz_inv (2 * 2 ^ k) orig st -> ctz_inv (2 ^ k) orig (ctz_step mask k st).
Proof.
  destruct st as [n a]. intros Hk ->. unfold ctz_inv, ctz_step, lognot; cbn [fst snd].
  intros (Hn & Ho & Ha).
  assert (1 <= 2 ^ k) by (apply (Z.pow_le_mono_r 2 0 k); lia).
  rewrite land_mask by lia. rewrite (Z.shiftl_mul_pow2 _ k) by lia.
  set (s := 2 ^ k) in *. assert (0 < 2 ^ s) by (apply Z.pow_pos_nonneg; lia).
  destruct (Z.eqb_spec (a mod 2 ^ s) 0) as [E|E]; cbn [cbool].
  - rewrite Z.mul_1_l, Z.shiftr_div_pow2, Z.pow_add_r by lia.
    assert (a = 2 ^ s * (a / 2 ^ s)) as Ea by (pose proof (Z_div_mod_eq_full a (2 ^ s)); lia).
    split; [lia|]. split; [rewrite Ea in Ho; nia|]. intros Z0. apply Ha.
    replace (2 * s) with (s + s) by lia. rewrite Z.pow_add_r by lia.
    rewrite Ea, Z.mul_mod_distr_l, Z0 by lia. lia.
  - rewrite Z.mul_0_l, Z.shiftr_0_r, Z.add_0_r. auto.
Qed.

Lemma ctz_finish orig st :
  ctz_inv 2 orig st ->
  let r := fst st + lognot (snd st .& 1) in
  0 <= r /\ orig = (orig >> r) * 2 ^ r /\ Z.odd (orig >> r) = true.
Proof.
  destruct st as [n a]. unfold ctz_inv, lognot. cbn [fst snd]. intros (Hn & -> & Ha).
  replace (a .& 1) with (a mod 2) by (symmetry; apply (land_mask a 1); lia).
  pose proof (Z.pow_pos_nonneg 2 n). pose proof (Z_div_mod_eq_full a 2).
  pose proof (Z.mod_pos_bound a 2). rewrite Zmod_odd in *.
  destruct (Z.odd a) eqn:O; cbn [cbool Z.eqb].
  - rewrite Z.add_0_r, Z.shiftr_div_pow2, Z.div_mul by lia. auto.
  - rewrite Z.shiftr_div_pow2, Z.pow_add_r by lia. change (2 ^ 1) with 2.
    assert (exists h, a = h * 2) as [h ->] by (exists (a / 2); lia).
    replace (h * 2 * 2 ^ n) with (h * (2 ^ n * 2)) by lia.
    rewrite Z.div_mul by lia. split; [lia|]. split; [lia|].
    apply not_false_iff_true. intros O2. apply Ha. change (2 ^ 2) with (2 * 2).
    rewrite (Z.mul_comm h), Z.mul_mod_distr_l, Zmod_odd, O2; lia.
Qed.

Lemma ctzdi2_correct a :
  0 < a < 2 ^ 64 ->
  0 <= __ctzdi2 a /\ a = (a >> __ctzdi2 a) * 2 ^ __ctzdi2 a /\ Z.odd (a >> __ctzdi2 a) = true.
Proof.
  intros Ha. unfold __ctzdi2. apply ctz_finish.
  apply (ctz_step_inv 1); [lia|reflexivity|].
  apply (ctz_step_inv 2); [lia|reflexivity|].
  apply (ctz_step_inv 3); [lia|reflexivity|].
  apply (ctz_step_inv 4); [lia|reflexivity|].
  apply (ctz_step_inv 5); [lia|reflexivity|].
  unfold ctz_inv. cbn [fst snd]. rewrite Z.mod_small by (change (2 * 2 ^ 5) with 64; lia). lia.
Qed.

(** ** The long division *)

(** With [r] numerator bits left, [q] is the quotient of the bits consumed so
    far; its lowest bit is still in [wrap], the others have been shifted into
    [a] behind the bits that remain. *)
Definition div_inv (num b r q : Z) (s : divstate) : Prop :=
  0 <= r <= 63 /\ 0 <= q < 2 ^ (63 - r) /\
  num >> r = q * b + d_rem s /\ 0 <= d_rem s < b /\
  d_a s = (num mod 2 ^ r) * 2 ^ (64 - r) + q / 2 /\
  d_wrap s = (if Z.odd q then 2 ^ 64 - 1 else 0).

Lemma wrap_and_1 q : (if Z.odd q then 2 ^ 64 - 1 else 0) .& 1 = q mod 2.
Proof. rewrite Zmod_odd. by destruct (Z.odd q). Qed.

(** A low bit put into an even value, and [x << 1] with the bit [c] put in. *)
Lemma lor_low_bit x c : 0 <= c < 2 -> (2 * x) .| c = 2 * x + c.
Proof. intros. rewrite (Z.mul_comm 2 x). apply (lor_add_disjoint x c 1); [lia|done]. Qed.

Lemma shl1_lor x c : 0 <= x < 2 ^ 63 -> 0 <= c < 2 -> u64 (x << 1) .| c = 2 * x + c.
Proof.
  intros. rewrite <- lor_low_bit by done. f_equal.
  unfold u64. rewrite Z.shiftl_mul_pow2, wrap_small by mlia. lia.
Qed.

(** The comparison through the sign bit: all ones when [b <= rem], zero
    otherwise. *)
Lemma wrap_cmp b rem :
  0 <= b < 2 ^ 64 -> - 2 ^ 63 <= b - rem - 1 < 2 ^ 63 ->
  u64 (s64 (u64 (b - rem - 1)) >> 63) = if b <=? rem then 2 ^ 64 - 1 else 0.
Proof.
  intros Hb Hr. unfold s64, u64. rewrite swrap_wrap, swrap_small by (done || lia).
  rewrite Z.shiftr_div_pow2 by lia. destruct (Z.leb_spec b rem).
  - replace ((b - rem - 1) / 2 ^ 63) with (-1); [done|].
    apply (Z.div_unique _ _ _ (b - rem - 1 + 2 ^ 63)); lia.
  - rewrite Z.div_small by lia. done.
Qed.

Lemma shiftr_split num r : 0 <= r -> num >> r = 2 * (num >> (r + 1)) + (num >> r) mod 2.
Proof.
  intros. rewrite <- Z.shiftr_shiftr by lia.
  rewrite (Z.shiftr_div_pow2 _ 1) by lia. change (2 ^ 1) with 2.
  pose proof (Z_div_mod_eq_full (num >> r) 2). lia.
Qed.

Lemma mod_pow2_split num r :
  0 <= r -> num mod 2 ^ (r + 1) = ((num >> r) mod 2) * 2 ^ r + num mod 2 ^ r.
Proof.
  intros. rewrite Z.shiftr_div_pow2, Z.pow_add_r by lia. change (2 ^ 1) with 2.
  rewrite Z.rem_mul_r by (try apply Z.pow_nonzero; lia). ring.
Qed.

(** Shifting the numerator: its top bit leaves at the left, the quotient bits
    behind it stay intact. *)
Lemma div_shift_a num r q :
  0 <= r <= 62 -> 0 <= q < 2 ^ (62 - r) ->
  let a := num mod 2 ^ (r + 1) * 2 ^ (63 - r) + q / 2 in
  a >> 63 = (num >> r) mod 2 /\
  u64 (a << 1) = 2 * (num mod 2 ^ r * 2 ^ (63 - r) + q / 2).
Proof.
  intros Hr Hq a. set (c := (num >> r) mod 2).
  assert (0 <= c < 2) as Hc by (apply Z.mod_pos_bound; lia).
  set (low := num mod 2 ^ r * 2 ^ (63 - r) + q / 2).
  assert (0 < 2 ^ r) by (apply Z.pow_pos_nonneg; lia).
  pose proof (Z.mod_pos_bound num (2 ^ r)).
  assert (2 ^ 63 = 2 ^ r * 2 ^ (63 - r)) as E63 by (rewrite <- Z.pow_add_r by lia; f_equal; lia).
  assert (2 ^ (63 - r) = 2 * 2 ^ (62 - r)) by (rewrite <- Z.pow_succ_r by lia; f_equal; lia).
  assert (0 <= q / 2 <= q) by (split; [apply Z.div_pos|apply Z.div_le_upper_bound]; lia).
  assert (0 <= low < 2 ^ 63) as Hlow by (subst low; nia).
  assert (a = c * 2 ^ 63 + low) as ->.
  { subst a low. rewrite mod_pow2_split by lia. fold c. nia. }
  split.
  - rewrite Z.shiftr_div_pow2 by lia. symmetry. apply (Z.div_unique _ _ _ low); lia.
  - rewrite Z.shiftl_mul_pow2 by lia. unfold u64, wrap. symmetry.
    apply (Z.mod_unique _ _ c); lia.
Qed.

(** The new partial remainder stays within reach of the signed comparison. *)
Lemma div_rem_range num b r q rem0 :
  is_u 64 (num >> r) -> (b < 2 ^ 63 \/ b <= num >> r) -> 0 <= q -> 0 <= rem0 < b ->
  num >> r = 2 * (q * b + rem0) + (num >> r) mod 2 ->
  let rem := 2 * rem0 + (num >> r) mod 2 in
  0 <= rem < 2 * b /\ rem < 2 ^ 64 /\ - 2 ^ 63 <= b - rem - 1 < 2 ^ 63.
Proof.
  intros Hn Hcmp Hq H0 Hsp rem. unfold is_u in Hn.
  pose proof (Z.mod_pos_bound (num >> r) 2) as Hc. assert (0 <= q * b) by nia.
  assert (0 <= rem < 2 * b /\ rem <= num >> r) by lia.
  split; [lia|]. split; [lia|]. destruct (Z.lt_ge_cases b (2 ^ 63)); [lia|].
  destruct Hcmp; [lia|]. assert (q = 0) by nia. subst q. lia.
Qed.

Lemma div_step_inv num b r q s :
  is_u 64 num -> 2 <= b < 2 ^ 64 -> 0 <= r ->
  (b < 2 ^ 63 \/ b <= num >> r) ->
  div_inv num b (r + 1) q s ->
  exists q', div_inv num b r q' (div_step b s).
Proof.
  intros Hnum Hb Hr Hcmp (Hr' & Hq & Hrem & Hlt & Ha & Hw).
  replace (63 - (r + 1)) with (62 - r) in Hq by lia.
  replace (64 - (r + 1)) with (63 - r) in Ha by lia.
  pose proof (shiftr_split num r Hr) as Hsp. rewrite Hrem in Hsp.
  destruct (div_shift_a num r q ltac:(lia) Hq) as [Ehi Elo]. rewrite <- Ha in Ehi, Elo.
  destruct (div_rem_range num b r q (d_rem s)) as (Hrb & Hr64 & Hcm); [eauto with mach|lia..|].
  pose proof (Z.mod_pos_bound (num >> r) 2) as Hc. set (c := (num >> r) mod 2) in *.
  set (rem := 2 * d_rem s + c) in *.
  assert (2 ^ (63 - r) = 2 * 2 ^ (62 - r)) as E62 by (rewrite <- Z.pow_succ_r by lia; f_equal; lia).
  assert (num mod 2 ^ r * 2 ^ (64 - r) + q
          = 2 * (num mod 2 ^ r * 2 ^ (63 - r) + q / 2) + q mod 2) as Enew.
  { replace (64 - r) with (Z.succ (63 - r)) by lia. rewrite Z.pow_succ_r by lia.
    pose proof (Z_div_mod_eq_full q 2). lia. }
  unfold div_step. rewrite Ehi, (shl1_lor (d_rem s) c) by lia. fold rem.
  rewrite Elo, Hw, wrap_and_1, lor_low_bit, <- Enew by (apply Z.mod_pos_bound; lia).
  rewrite wrap_cmp by lia. exists (2 * q + (if b <=? rem then 1 else 0)).
  unfold div_inv; cbn [d_a d_rem d_wrap].
  destruct (Z.leb_spec b rem).
  - replace (b .& (2 ^ 64 - 1)) with b
      by (rewrite land_mask by lia; symmetry; apply Z.mod_small; lia).
    unfold u64. rewrite wrap_small by (unfold is_u; lia).
    replace (Z.odd (2 * q + 1)) with true by (symmetry; rewrite Z.odd_odd; done).
    replace ((2 * q + 1) / 2) with q by (apply (Z.div_unique _ _ _ 1); lia).
    repeat split; subst rem; try lia; done.
  - rewrite Z.land_0_r, Z.sub_0_r, Z.add_0_r. unfold u64. rewrite wrap_small by (unfold is_u; lia).
    replace (Z.odd (2 * q)) with false by (symmetry; rewrite Z.odd_even; done).
    replace (2 * q / 2) with q by (rewrite Z.mul_comm, Z.div_mul; lia).
    repeat split; subst rem; try lia; done.
Qed.

Lemma div_loop_inv num b (n : nat) q s :
  is_u 64 num -> 2 <= b < 2 ^ 64 -> (b < 2 ^ 63 \/ (n <= 1)%nat /\ b <= num) ->
  div_inv num b (Z.of_nat n) q s -> exists q', div_inv num b 0 q' (div_loop n b s).
Proof.
  intros Hnum Hb. revert q s. induction n as [|n IH]; intros q s Hsmall Hinv.
  { by exists q. }
  replace (Z.of_nat (S n)) with (Z.of_nat n + 1) in Hinv by lia.
  destruct (div_step_inv num b (Z.of_nat n) q s) as [q' Hq']; [done..|lia| |done|].
  - destruct Hsmall as [?|[Hn ?]]; [by left|right].
    replace (Z.of_nat n) with 0 by lia. by rewrite Z.shiftr_0_r.
  - cbn [div_loop]. eapply IH; [|done]. destruct Hsmall as [?|[??]]; [by left|right; lia].
Qed.

Lemma div_inv_start num b :
  is_u 64 num -> 2 <= b <= num ->
  let k := Z.log2 num - Z.log2 b + 1 in
  div_inv num b k 0 (DivState (u64 (num << (64 - k))) (num >> k) 0).
Proof.
  intros [Hn Hn'] Hb k. pose proof (Z.log2_spec num). pose proof (Z.log2_spec b).
  assert (Z.log2 b <= Z.log2 num) by (apply Z.log2_le_mono; lia).
  assert (1 <= Z.log2 b) by (apply (Z.log2_le_mono 2); lia).
  assert (Z.log2 num < 64) by (apply Z.log2_lt_pow2; lia).
  unfold div_inv. cbn [d_a d_rem d_wrap]. rewrite Z.shiftr_div_pow2 by lia.
  assert (0 < 2 ^ k) by (apply Z.pow_pos_nonneg; lia).
  repeat split; try lia; try (apply Z.pow_pos_nonneg; lia).
  - apply Z.div_pos; lia.
  - apply Z.div_lt_upper_bound; [lia|]. apply Z.lt_le_trans with (2 ^ Z.succ (Z.log2 num)); [lia|].
    replace (Z.succ (Z.log2 num)) with (k + Z.log2 b) by lia. rewrite Z.pow_add_r by lia. nia.
  - unfold u64, wrap. rewrite Z.shiftl_mul_pow2 by lia.
    replace (2 ^ 64) with (2 ^ k * 2 ^ (64 - k)) by (rewrite <- Z.pow_add_r by lia; f_equal; lia).
    rewrite Z.mul_mod_distr_r by (try apply Z.pow_nonzero; lia).
    change (0 / 2) with 0. by rewrite Z.add_0_r.
Qed.

Lemma hi_zero n : is_u 64 n -> (hi n =? 0) = (n <? 2 ^ 32).
Proof.
  intros [? ?]. unfold hi, u32. rewrite Z.shiftr_div_pow2 by lia.
  rewrite wrap_small
    by (split; [apply Z.div_pos|apply Z.div_lt_upper_bound]; mlia).
  destruct (Z.ltb_spec n (2 ^ 32)).
  - by rewrite Z.div_small.
  - apply Z.eqb_neq. assert (1 <= n / 2 ^ 32) by (apply Z.div_le_lower_bound; lia). lia.
Qed.

(** The routine computes Euclidean division, and traps exactly on a zero
    divisor. *)
Lemma divmoddi4_correct a b :
  is_u 64 a -> is_u 64 b ->
  __divmoddi4 a b = if b =? 0 then None else Some (a / b, a mod b).
Proof.
  intros Ha Hb. unfold __divmoddi4. rewrite !hi_zero by done. unfold is_u in *.
  destruct (Z.ltb_spec a b) as [?|Hab].
  { rewrite Z.div_small, Z.mod_small by lia. by destruct (Z.eqb_spec b 0); [lia|]. }
  destruct (Z.eqb_spec b 0) as [->|Hb0]; [done|]. rewrite andb_false_r.
  destruct (Z.eqb_spec b 1) as [->|Hb1].
  { change (1 <? 2 ^ 32) with true. cbn [andb]. by rewrite Z.div_1_r, Z.mod_1_r. }
  rewrite andb_false_r. destruct (_ && _) eqn:Hsm.
  { unfold lo, u32. rewrite !wrap_small by mlia. done. }
  set (k := Z.log2 a - Z.log2 b + 1).
  rewrite !clzdi2_spec by lia. replace (63 - Z.log2 b - (63 - Z.log2 a) + 1) with k by lia.
  assert (Z.log2 b <= Z.log2 a) by (apply Z.log2_le_mono; lia).
  destruct (div_loop_inv a b (Z.to_nat k) 0 (DivState (u64 (a << (64 - k))) (a >> k) 0))
    as (q & _ & Hq & Hrem & Hlt & Ea & Ew); [done|lia| | |].
  - destruct (Z.lt_ge_cases b (2 ^ 63)); [by left|right].
    assert (Z.log2 b = 63 /\ Z.log2 a = 63) by (split; apply Z.log2_unique; lia). lia.
  - rewrite Z2Nat.id by lia. apply div_inv_start; [done|lia].
  - rewrite Z.shiftr_0_r in Hrem. rewrite Ea, Ew, wrap_and_1, Z.mod_1_r, Z.mul_0_l, Z.add_0_l.
    pose proof (Z_div_mod_eq_full q 2). pose proof (Z.mod_pos_bound q 2).
    rewrite shl1_lor, <- Z_div_mod_eq_full by mlia.
    set (s := div_loop _ _ _) in *.
    do 2 f_equal; [apply (Z.div_unique _ _ _ (d_rem s))|apply (Z.mod_unique _ _ q)]; lia.
Qed.

(** ** Signed division *)

Lemma lxor_m1 a : a .^ (-1) = - a - 1.
Proof. rewrite Z.lxor_m1_r. unfold Z.lnot. lia. Qed.

Lemma negate_s64_abs a : is_s 64 a -> u64 (negate_s64 a a) = Z.abs a.
Proof.
  intros Ha. unfold negate_s64, u64, s64. rewrite wrap_swrap by lia. unfold is_s in Ha.
  destruct (Z.leb_spec 0 a); destruct (Z.ltb_spec a 0); try lia; cbn [cbool Z.sub Z.opp Z.add].
  - rewrite Z.lxor_0_r, wrap_small by mlia. lia.
  - rewrite lxor_m1, wrap_small by mlia. lia.
Qed.

Lemma negate_u64_spec n b :
  is_u 64 n -> s64 (negate_u64 n b) = s64 (if b <? 0 then - n else n).
Proof.
  intros Hn. unfold negate_u64, s64, u64. rewrite swrap_wrap by lia.
  destruct (Z.leb_spec 0 b); destruct (Z.ltb_spec b 0); try lia.
  - change (wrap 64 (cbool true - 1)) with 0. change (cbool false) with 0.
    by rewrite Z.lxor_0_r, Z.add_0_r.
  - change (wrap 64 (cbool false - 1)) with (Z.ones 64). change (cbool true) with 1.
    replace (n .^ Z.ones 64) with (wrap 64 (- n - 1)).
    + unfold swrap. rewrite <- Z.add_assoc. unfold wrap. rewrite Zplus_mod_idemp_l. do 2 f_equal. lia.
    + rewrite <- lxor_m1. change (Z.ones 64) with (wrap 64 (-1)).
      rewrite <- (wrap_small 64 n Hn) at 2. bitblast.
Qed.

Lemma quot_abs a b : b <> 0 -> Z.quot a b = if Z.lxor a b <? 0 then - (Z.abs a / Z.abs b) else Z.abs a / Z.abs b.
Proof.
  intros. rewrite <- (Z.quot_div_nonneg (Z.abs a) (Z.abs b)) by lia.
  assert ((a .^ b <? 0) = negb (Bool.eqb (a <? 0) (b <? 0))) as ->.
  { pose proof (Z.lxor_nonneg a b).
    destruct (Z.ltb_spec a 0), (Z.ltb_spec b 0), (Z.ltb_spec (a .^ b) 0); cbn; lia. }
  destruct (Z.ltb_spec a 0), (Z.ltb_spec b 0); cbn [Bool.eqb negb];
    rewrite ?(Z.abs_neq a), ?(Z.abs_neq b), ?(Z.abs_eq a), ?(Z.abs_eq b) by lia;
    rewrite ?Z.quot_opp_l, ?Z.quot_opp_r by lia; lia.
Qed.

Lemma rem_abs a b : b <> 0 -> Z.rem a b = if a <? 0 then - (Z.abs a mod Z.abs b) else Z.abs a mod Z.abs b.
Proof.
  intros. rewrite <- (Z.rem_mod_nonneg (Z.abs a) (Z.abs b)) by lia.
  rewrite Z.rem_abs_r by lia. destruct (Z.ltb_spec a 0).
  - rewrite Z.abs_neq, Z.rem_opp_l by lia. lia.
  - by rewrite Z.abs_eq by lia.
Qed.

Lemma abs_u64 a : is_s 64 a -> is_u 64 (Z.abs a).
Proof. mlia. Qed.
#[local] Hint Resolve abs_u64 : mach.

Lemma divdi3_spec a b :
  is_s 64 a -> is_s 64 b ->
  __divdi3 a b = if b =? 0 then None else Some (s64 (Z.quot a b)).
Proof.
  intros Ha Hb. unfold __divdi3.
  rewrite !negate_s64_abs, divmoddi4_correct by eauto with mach.
  replace (Z.abs b =? 0) with (b =? 0) by lia. destruct (Z.eqb_spec b 0); [done|]. cbn.
  rewrite negate_u64_spec, quot_abs; [done..|].
  pose proof (abs_u64 a Ha). pose proof (Z.div_pos (Z.abs a) (Z.abs b)).
  assert (Z.abs a / Z.abs b <= Z.abs a) by (apply Z.div_le_upper_bound; nia). unfold is_u in *. lia.
Qed.

Lemma moddi3_spec a b :
  is_s 64 a -> is_s 64 b ->
  __moddi3 a b = if b =? 0 then None else Some (Z.rem a b).
Proof.
  intros Ha Hb. unfold __moddi3.
  rewrite !negate_s64_abs, divmoddi4_correct by eauto with mach.
  replace (Z.abs b =? 0) with (b =? 0) by lia. destruct (Z.eqb_spec b 0); [done|]. cbn.
  pose proof (Z.mod_pos_bound (Z.abs a) (Z.abs b)).
  pose proof (abs_u64 b Hb).
  rewrite negate_u64_spec, <- rem_abs by (done || unfold is_u in *; lia).
  f_equal. apply swrap_small; [lia|]. rewrite rem_abs by done. case_if; mlia.
Qed.

(** ** The properties *)

(** The 64-bit shifts assembled from 32-bit halves are the shifts of the whole
    number by the count modulo 64: left with wrap-around, right with the sign,
    right with zeroes. *)
Theorem arith64_shifts a u b :
  is_s 64 a -> is_u 64 u ->
  __ashldi3 a b = s64 (a << (b .& 63)) /\
  __ashrdi3 a b = a / 2 ^ (b .& 63) /\
  __lshrdi3 u b = u / 2 ^ (b .& 63).
Proof.
  intros Ha Hu. pose proof (land63 b). rewrite <- !Z.shiftr_div_pow2 by lia.
  by rewrite ashldi3_spec, ashrdi3_spec, lshrdi3_spec.
Qed.

(** C30: unsigned division and remainder are exact for every pair of 64-bit
    operands, on the 32-bit fast path and in the shift-and-subtract loop, and
    trap exactly when the divisor is zero. *)
Theorem arith64_unsigned_division a b :
  is_u 64 a -> is_u 64 b ->
  __udivdi3 a b = (if b =? 0 then None else Some (a / b)) /\
  __umoddi3 a b = (if b =? 0 then None else Some (a mod b)).
Proof.
  intros Ha Hb. unfold __udivdi3, __umoddi3. rewrite divmoddi4_correct by done. by destruct (b =? 0).
Qed.

(** Signed division truncates towards zero and the remainder has the sign of
    the numerator; the one quotient that does not fit, that of the smallest
    number by minus one, wraps around. *)
Theorem arith64_signed_division a b :
  is_s 64 a -> is_s 64 b ->
  __divdi3 a b = (if b =? 0 then None else Some (s64 (Z.quot a b))) /\
  __moddi3 a b = (if b =? 0 then None else Some (Z.rem a b)) /\
  (a <> - 2 ^ 63 \/ b <> -1 -> s64 (Z.quot a b) = Z.quot a b).
Proof.
  intros Ha Hb. split_and!; [by apply divdi3_spec|by apply moddi3_spec|]. intros Hne.
  apply swrap_small; [lia|]. change (- 2 ^ 63 <= Z.quot a b < 2 ^ 63).
  change (- 2 ^ 63 <= a < 2 ^ 63) in Ha. destruct (Z.eq_dec b 0) as [->|Hb0]; [by rewrite Z.quot_0_r_ext by done|].
  destruct (Z.eq_dec b (-1)) as [->|Hb1].
  { change (-1) with (- (1)). rewrite Z.quot_opp_r, Z.quot_1_r by done. lia. }
  destruct (Z.eq_dec b 1) as [->|Hb2]; [by rewrite Z.quot_1_r|].
  pose proof (Z.quot_abs a b Hb0) as Habs.
  assert (Z.quot (Z.abs a) (Z.abs b) <= Z.abs a / 2).
  { rewrite Z.quot_div_nonneg by lia. apply Z.div_le_compat_l; lia. }
  assert (Z.abs a / 2 <= 2 ^ 62) by (apply Z.div_le_upper_bound; mlia). mlia.
Qed.

(** Counting leading and trailing zeroes: for every non-zero operand the
    leading count is 63 (or 31) less the position of the highest set bit, the
    trailing count is the exact power of two in the operand, and [__ffsdi2] is
    one more, with zero for zero. *)
Theorem arith64_bit_counts a x :
  0 < a < 2 ^ 64 -> 0 < x < 2 ^ 32 ->
  __clzdi2 a = 63 - Z.log2 a /\ __clzsi2 x = 31 - Z.log2 x /\
  __ffsdi2 a = __ctzdi2 a + 1 /\ __ffsdi2 0 = 0 /\
  Z.testbit a (__ctzdi2 a) = true /\ (forall i, 0 <= i < __ctzdi2 a -> Z.testbit a i = false).
Proof.
  intros Ha Hx. destruct (ctzdi2_correct a Ha) as (H0 & Hm & Ho).
  split_and!; [by apply clzdi2_spec|by apply clzsi2_spec| |done| |].
  - unfold __ffsdi2. by replace (a =? 0) with false by blia.
  - rewrite <- Z.bit0_odd, Z.shiftr_spec in Ho by lia. by rewrite Z.add_0_l in Ho.
  - intros i Hi. rewrite Hm, <- Z.shiftl_mul_pow2, Z.shiftl_spec by lia. apply Z.testbit_neg_r. lia.
Qed.

(** *** Witnesses *)

Lemma arith64_shifts_witness :
  __ashldi3 (-3) 62 = s64 (-3 << 62) /\ __ashrdi3 (-3) 1 = -2 /\ __lshrdi3 (2 ^ 63) 33 = 2 ^ 30.
Proof.
  destruct (arith64_shifts (-3) (2 ^ 63) 62) as (H1 & _ & _); [mlia..|].
  destruct (arith64_shifts (-3) (2 ^ 63) 1) as (_ & H2 & _); [mlia..|].
  destruct (arith64_shifts (-3) (2 ^ 63) 33) as (_ & _ & H3); [mlia..|].
  split_and!; [exact H1|exact H2|exact H3].
Defined.
Lemma arith64_unsigned_division_witness :
  __udivdi3 (2 ^ 64 - 1) (2 ^ 33 + 1) = Some (2 ^ 31 - 1) /\ __umoddi3 (2 ^ 64 - 1) (2 ^ 33 + 1) = Some 6442450944.
Proof. apply (arith64_unsigned_division (2 ^ 64 - 1) (2 ^ 33 + 1)); mlia. Defined.
Lemma arith64_signed_division_witness :
  __divdi3 (-7) 2 = Some (-3) /\ __moddi3 (-7) 2 = Some (-1).
Proof.
  destruct (arith64_signed_division (-7) 2) as (H1 & H2 & _); [mlia..|]. split; [exact H1|exact H2].
Defined.
Lemma arith64_bit_counts_witness : __clzdi2 40 = 58 /\ __clzsi2 40 = 26 /\ __ffsdi2 40 = 4.
Proof.
  destruct (arith64_bit_counts 40 40) as (H1 & H2 & H3 & _); [lia..|]. split_and!; [exact H1|exact H2|exact H3].
Defined.
