(* ===== verification/Store.v ===== *)
(** * The interface of a keyed store

    The libc keeps its tables (file descriptors, thread-local slots, threads)
    in a hash map of items that carry their own key.  This file states what
    those clients rely on: [KVOps] is the set of operations they call, [KVLaws]
    what each promises in terms of a finite map from keys to items.  The hash
    map discharges the laws (Hashmap.v); the clients are proved against them. *)

From S2P Require Import Prelude.

(** The operations; an allocating one takes the outcomes of its [malloc]s. *)
Class KVOps (A : Type) := {
  kv : Type;
  kv_new : Z -> (nat -> bool) -> res (option kv);
  kv_set : kv -> A -> (nat -> bool) -> res (option A * kv);
  kv_get : kv -> A -> res (option A);
  kv_delete : kv -> A -> (nat -> bool) -> res (option A * kv);
  kv_oom : kv -> bool
}.

(** [room] bounds the number of items up to which the laws are promised. *)
Class KVLaws {A : Type} (ops : KVOps A) {K : Type} `{Countable K}
    (key : A -> K) (ok : A -> Prop) (room : nat) := {
  kv_rep : kv -> gmap K A -> Prop;
  kv_new_law : forall cap (mok : nat -> bool), 0 <= cap <= Z.of_nat room ->
    if mok 0%nat && mok 1%nat then exists m, kv_new cap mok = Ok (Some m) /\ kv_rep m ∅
    else kv_new cap mok = Ok None;
  kv_get_law : forall m M a, kv_rep m M -> ok a -> kv_get m a = Ok (M !! key a);
  kv_set_law : forall m M a (mok : nat -> bool), kv_rep m M -> ok a -> (size M <= room)%nat ->
    exists (oom : bool) m', kv_set m a mok = Ok (if oom then None else M !! key a, m') /\
      kv_rep m' (if oom then M else <[key a := a]> M) /\ kv_oom m' = oom /\
      (mok 0%nat && mok 1%nat = true -> oom = false);
  kv_delete_law : forall m M a (mok : nat -> bool), kv_rep m M -> ok a ->
    exists m', kv_delete m a mok = Ok (M !! key a, m') /\ kv_rep m' (delete (key a) M)
}.

Section Traces.
Context {A : Type} {ops : KVOps A} {K : Type} `{Countable K}.

(** A sequence of calls on one store. *)
Inductive kvop := KSet (a : A) | KGet (a : A) | KDelete (a : A).

Definition kvop_item (o : kvop) : A :=
  match o with KSet a | KGet a | KDelete a => a end.

Definition all_mallocs : nat -> bool := fun _ => true.

Fixpoint kv_run (m : kv) (l : list kvop) : res (list (option A) * kv) :=
  match l with
  | [] => Ok ([], m)
  | o :: l =>
      '(r, m) ← match o with
                | KSet a => kv_set m a all_mallocs
                | KGet a => r ← kv_get m a; Ok (r, m)
                | KDelete a => kv_delete m a all_mallocs
                end;
      '(rs, m) ← kv_run m l;
      Ok (r :: rs, m)
  end.

(** The same sequence on a finite map. *)
Fixpoint map_run (key : A -> K) (M : gmap K A) (l : list kvop) : list (option A) * gmap K A :=
  match l with
  | [] => ([], M)
  | o :: l =>
      let r := M !! key (kvop_item o) in
      let M := match o with
               | KSet a => <[key a := a]> M
               | KGet _ => M
               | KDelete a => delete (key a) M
               end in
      let '(rs, M) := map_run key M l in
      (r :: rs, M)
  end.

Context {key : A -> K} {ok : A -> Prop} {room : nat} {laws : KVLaws ops key ok room}.

Lemma size_insert_le (M : gmap K A) k a : (size (<[k := a]> M) <= S (size M))%nat.
Proof.
  destruct (M !! k) eqn:E; [rewrite map_size_insert_Some by eauto; lia|].
  by rewrite map_size_insert_None.
Qed.
Lemma size_delete_le (M : gmap K A) k : (size (delete k M) <= size M)%nat.
Proof.
  destruct (M !! k) eqn:E; [rewrite map_size_delete_Some by eauto; lia|].
  by rewrite map_size_delete_None.
Qed.

Lemma kv_run_ok l : forall m M,
  kv_rep m M -> Forall (fun o => ok (kvop_item o)) l -> (size M + length l <= room)%nat ->
  exists m', kv_run m l = Ok ((map_run key M l).1, m') /\ kv_rep m' (map_run key M l).2.
Proof.
  induction l as [|o l IH]; intros m M Hm Hok Hsz; [by exists m|].
  inversion Hok as [|? ? Ho Hl]; subst; cbn [length] in Hsz. destruct o as [a|a|a]; cbn [kv_run map_run kvop_item] in *.
  - destruct (kv_set_law m M a all_mallocs Hm Ho ltac:(lia)) as (oom & m1 & -> & H1 & _ & Hoom).
    rewrite Hoom in * by done. cbn [mbind res_bind].
    pose proof (size_insert_le M (key a) a).
    destruct (IH m1 _ H1 Hl ltac:(lia)) as (m' & -> & H'). exists m'.
    destruct (map_run key _ l). done.
  - rewrite (kv_get_law m M a Hm Ho). cbn [mbind res_bind].
    destruct (IH m _ Hm Hl ltac:(lia)) as (m' & -> & H'). exists m'. by destruct (map_run key _ l).
  - destruct (kv_delete_law m M a all_mallocs Hm Ho) as (m1 & -> & H1). cbn [mbind res_bind].
    pose proof (size_delete_le M (key a)).
    destruct (IH m1 _ H1 Hl ltac:(lia)) as (m' & -> & H'). exists m'. by destruct (map_run key _ l).
Qed.

End Traces.
Arguments kvop : clear implicits.
