(* ===== verification/HashFns.v ===== *)
(** * The hash functions of the libc hash map (user/lib/libc/src/struct/hashmap.c)

    [SIP64] is SipHash-2-4 and [MM86128] MurmurHash3_x86_128, over a byte list.
    The machine is little-endian, so reading a 32- or 64-bit word from memory
    and [U8TO64_LE] agree. *)

From S2P Require Import Prelude.
Local Open Scope mach_scope.

(** The [n] lowest bytes of a word in memory order. *)
Fixpoint le_bytes (n : nat) (z : Z) : list Z :=
  match n with
  | O => []
  | S n => u8 z :: le_bytes n (z >> 8)
  end.

(** The word whose bytes in memory order are [l]. *)
Fixpoint le_word (l : list Z) : Z :=
  match l with
  | [] => 0
  | b :: l => b .| (le_word l << 8)
  end.

(** ** SipHash *)

Definition ROTL (x b : Z) : Z := u64 (x << b) .| (x >> (64 - b)).

Record sipstate := Sip { v0 : Z; v1 : Z; v2 : Z; v3 : Z }.

Definition SIPROUND (s : sipstate) : sipstate :=
  let '(Sip v0 v1 v2 v3) := s in
  let v0 := u64 (v0 + v1) in let v1 := ROTL v1 13 in
  let v1 := v1 .^ v0 in let v0 := ROTL v0 32 in
  let v2 := u64 (v2 + v3) in let v3 := ROTL v3 16 in
  let v3 := v3 .^ v2 in
  let v0 := u64 (v0 + v3) in let v3 := ROTL v3 21 in
  let v3 := v3 .^ v0 in
  let v2 := u64 (v2 + v1) in let v1 := ROTL v1 17 in
  let v1 := v1 .^ v2 in let v2 := ROTL v2 32 in
  Sip v0 v1 v2 v3.

(** Absorbing one word: [v3 ^= m; SIPROUND; SIPROUND; v0 ^= m]. *)
Definition sip_block (m : Z) (s : sipstate) : sipstate :=
  let s := Sip (v0 s) (v1 s) (v2 s) (v3 s .^ m) in
  let s := SIPROUND (SIPROUND s) in
  Sip (v0 s .^ m) (v1 s) (v2 s) (v3 s).

(** The loop over whole words; the bytes left over are returned. *)
Fixpoint sip_blocks (inp : list Z) (s : sipstate) : sipstate * list Z :=
  match inp with
  | a :: b :: c :: d :: e :: f :: g :: h :: inp =>
      sip_blocks inp (sip_block (le_word [a; b; c; d; e; f; g; h]) s)
  | _ => (s, inp)
  end.

(** The [switch (rest)]: the bytes left over below the length byte. *)
Fixpoint sip_tail (b shift : Z) (rest : list Z) : Z :=
  match rest with
  | [] => b
  | x :: rest => sip_tail b (shift + 8) rest .| (x << shift)
  end.

Definition SIP64 (inp : list Z) (seed0 seed1 : Z) : Z :=
  let k0 := le_word (le_bytes 8 seed0) in
  let k1 := le_word (le_bytes 8 seed1) in
  let s := Sip (0x736f6d6570736575 .^ k0) (0x646f72616e646f6d .^ k1)
               (0x6c7967656e657261 .^ k0) (0x7465646279746573 .^ k1) in
  let '(s, rest) := sip_blocks inp s in
  let b := sip_tail (u64 (Z.of_nat (length inp) << 56)) 0 rest in
  let s := sip_block b s in
  let s := Sip (v0 s) (v1 s) (v2 s .^ 0xff) (v3 s) in
  let s := SIPROUND (SIPROUND (SIPROUND (SIPROUND s))) in
  let b := v0 s .^ v1 s .^ v2 s .^ v3 s in
  le_word (le_bytes 8 b).

Definition hashmap_sip (data : list Z) (seed0 seed1 : Z) : Z := SIP64 data seed0 seed1.

(** ** MurmurHash3 *)

Definition ROTL32 (x r : Z) : Z := u32 (x << r) .| (x >> (32 - r)).
Definition FMIX32 (h : Z) : Z :=
  let h := h .^ (h >> 16) in let h := u32 (h * 0x85ebca6b) in
  let h := h .^ (h >> 13) in let h := u32 (h * 0xc2b2ae35) in
  h .^ (h >> 16).

Definition mm_c1 : Z := 0x239b961b.
Definition mm_c2 : Z := 0xab0e9789.
Definition mm_c3 : Z := 0x38b34ae5.
Definition mm_c4 : Z := 0xa1e38b93.

Record mmstate := MM { h1 : Z; h2 : Z; h3 : Z; h4 : Z }.

(** [k *= ca; k = ROTL32(k, r); k *= cb] *)
Definition mm_k (k ca r cb : Z) : Z := u32 (ROTL32 (u32 (k * ca)) r * cb).

Definition mm_block (k1 k2 k3 k4 : Z) (s : mmstate) : mmstate :=
  let '(MM h1 h2 h3 h4) := s in
  let h1 := h1 .^ mm_k k1 mm_c1 15 mm_c2 in
  let h1 := u32 (u32 (ROTL32 h1 19 + h2) * 5 + 0x561ccd1b) in
  let h2 := h2 .^ mm_k k2 mm_c2 16 mm_c3 in
  let h2 := u32 (u32 (ROTL32 h2 17 + h3) * 5 + 0x0bcaa747) in
  let h3 := h3 .^ mm_k k3 mm_c3 17 mm_c4 in
  let h3 := u32 (u32 (ROTL32 h3 15 + h4) * 5 + 0x96cd1c35) in
  let h4 := h4 .^ mm_k k4 mm_c4 18 mm_c1 in
  let h4 := u32 (u32 (ROTL32 h4 13 + h1) * 5 + 0x32ac3b17) in
  MM h1 h2 h3 h4.

Fixpoint mm_blocks (nblocks : nat) (data : list Z) (s : mmstate) : mmstate * list Z :=
  match nblocks with
  | O => (s, data)
  | S nblocks =>
      mm_blocks nblocks (drop 16 data)
        (mm_block (le_word (take 4 data)) (le_word (take 4 (drop 4 data)))
                  (le_word (take 4 (drop 8 data))) (le_word (take 4 (drop 12 data))) s)
  end.

(** The [switch (len & 15)] on the bytes left over; a group of four bytes is
    mixed in when one of them is there. *)
Definition mm_tail (tail : list Z) (s : mmstate) : mmstate :=
  let '(MM h1 h2 h3 h4) := s in
  let n := Z.of_nat (length tail) in
  let h4 := if 13 <=? n then h4 .^ mm_k (le_word (drop 12 tail)) mm_c4 18 mm_c1 else h4 in
  let h3 := if 9 <=? n then h3 .^ mm_k (le_word (take 4 (drop 8 tail))) mm_c3 17 mm_c4 else h3 in
  let h2 := if 5 <=? n then h2 .^ mm_k (le_word (take 4 (drop 4 tail))) mm_c2 16 mm_c3 else h2 in
  let h1 := if 1 <=? n then h1 .^ mm_k (le_word (take 4 tail)) mm_c1 15 mm_c2 else h1 in
  MM h1 h2 h3 h4.

(** [h1 += h2; h1 += h3; h1 += h4; h2 += h1; h3 += h1; h4 += h1] *)
Definition mm_mix (s : mmstate) : mmstate :=
  let '(MM h1 h2 h3 h4) := s in
  let h1 := u32 (u32 (u32 (h1 + h2) + h3) + h4) in
  MM h1 (u32 (h2 + h1)) (u32 (h3 + h1)) (u32 (h4 + h1)).

Definition MM86128 (key : list Z) (seed : Z) : mmstate :=
  let len := u32 (Z.of_nat (length key)) in
  let '(s, tail) := mm_blocks (length key / 16) key (MM seed seed seed seed) in
  let s := mm_tail tail s in
  let s := mm_mix (MM (h1 s .^ len) (h2 s .^ len) (h3 s .^ len) (h4 s .^ len)) in
  mm_mix (MM (FMIX32 (h1 s)) (FMIX32 (h2 s)) (FMIX32 (h3 s)) (FMIX32 (h4 s))).

(** The seed is converted to [uint32_t], the result is the first half of the
    digest. *)
Definition hashmap_murmur (data : list Z) (seed0 seed1 : Z) : Z :=
  let s := MM86128 data (u32 seed0) in
  h1 s .| (h2 s << 32).

(** ** Reference vectors *)

(** The vector of the SipHash paper: key [00 .. 0f], message [00 .. 0e]. *)
Example sip_reference_vector :
  hashmap_sip (seqZ 0 15) 0x0706050403020100 0x0f0e0d0c0b0a0908 = 0xa129ca6149be45e5.
Proof. vm_compute. reflexivity. Qed.

(** The published x86-128 digest of the pangram, seed 0. *)
Example murmur_reference_vector :
  MM86128 [84; 104; 101; 32; 113; 117; 105; 99; 107; 32; 98; 114; 111; 119; 110; 32; 102; 111; 120; 32; 106; 117; 109; 112; 115; 32; 111; 118; 101; 114; 32; 116; 104; 101; 32; 108; 97; 122; 121; 32; 100; 111; 103] 0
  = MM 0x2f1583c3 0xecee2c67 0x5d7bf66c 0xe5e91d2c.
Proof. vm_compute. reflexivity. Qed.
