(* ===== verification/Hashmap.v ===== *)
(** * The libc hash map (user/lib/libc/src/struct/hashmap.c)

    An open-addressed table with Robin Hood probing.  A bucket holds the 48-bit
    hash, the distance [dib] of the bucket from the home slot of its item plus
    one (zero when the bucket is empty), and a copy of the item; items are
    values of a type [A], [zero_item] is an item made of zero bytes.  [hash]
    and [compare] are the callbacks of the map ([compare] already applied to
    the map's [udata]).  Each allocating call takes [mok], which says whether
    its n-th call of [malloc] succeeds. *)

From S2P Require Import Prelude Store.
Local Open Scope mach_scope.

Section Definitions.
Context {A : Type}.

Record bucket := Bucket { b_hash : Z; b_dib : Z; b_item : A }.

Record hashmap := Hashmap {
  h_oom : bool;
  h_elsize : Z;
  h_cap : Z;
  h_seed0 : Z;
  h_seed1 : Z;
  h_bucketsz : Z;
  h_nbuckets : Z;
  h_count : Z;
  h_mask : Z;
  h_growat : Z;
  h_shrinkat : Z;
  h_buckets : list bucket
}.

Context (zero_item : A) (hash : A -> Z -> Z -> Z) (compare : A -> A -> Z).

Definition set_oom (b : bool) (m : hashmap) : hashmap :=
  Hashmap b (h_elsize m) (h_cap m) (h_seed0 m) (h_seed1 m) (h_bucketsz m)
    (h_nbuckets m) (h_count m) (h_mask m) (h_growat m) (h_shrinkat m) (h_buckets m).
Definition set_buckets (count : Z) (bs : list bucket) (m : hashmap) : hashmap :=
  Hashmap (h_oom m) (h_elsize m) (h_cap m) (h_seed0 m) (h_seed1 m) (h_bucketsz m)
    (h_nbuckets m) count (h_mask m) (h_growat m) (h_shrinkat m) bs.

(** [dib] is a 16-bit field. *)
Definition set_dib (d : Z) (b : bucket) : bucket := Bucket (b_hash b) (u16 d) (b_item b).

(** A bucket of zero bytes, as [memset] leaves it. *)
Definition zero_bucket : bucket := Bucket 0 0 zero_item.

Definition get_hash (m : hashmap) (key : A) : Z :=
  (u64 (u64 (hash key (h_seed0 m) (h_seed1 m)) << 16)) >> 16.

(** ** Construction *)

(** [while (ncap < cap) ncap *= 2] on an [int]: overflow is undefined. *)
Fixpoint ncap_loop (fuel : nat) (ncap cap : Z) : res Z :=
  match fuel with
  | O => Stuck
  | S fuel =>
      if ncap <? cap then
        if ncap * 2 <? 2 ^ 31 then ncap_loop fuel (ncap * 2) cap else Stuck
      else Ok ncap
  end.

(** [while (bucketsz & (sizeof(uintptr_t)-1)) bucketsz++] *)
Fixpoint bucketsz_loop (fuel : nat) (sz : Z) : Z :=
  match fuel with
  | O => sz
  | S fuel => if negb (sz .& 7 =? 0) then bucketsz_loop fuel (u64 (sz + 1)) else sz
  end.

Definition hashmap_new (elsize cap seed0 seed1 : Z) (mok : nat -> bool) : res (option hashmap) :=
  cap ← (if cap <? 16 then Ok 16 else ncap_loop 32 16 cap);
  let bucketsz := bucketsz_loop 8 (u64 (8 + elsize)) in
  if negb (mok 0%nat) then Ok None
  else if negb (mok 1%nat) then Ok None
  else Ok (Some (Hashmap false elsize cap seed0 seed1 bucketsz cap 0 (cap - 1)
                   (cap / 2) (cap / 10) (replicate (Z.to_nat cap) zero_bucket))).

(** [nbuckets*0.75] and [nbuckets*0.10] truncated to [size_t].  The product of
    a power of two and a double is exact; [0.10] is the double
    [7205759403792794 * 2^-56]. *)
Definition times_0_75 (n : Z) : Z := n * 3 / 4.
Definition times_0_10 (n : Z) : Z := n * 7205759403792794 / 2 ^ 56.

(** [memset(buckets, 0, bucketsz*n)] *)
Definition memset_buckets (n : Z) (bs : list bucket) : res (list bucket) :=
  if n <=? Z.of_nat (length bs) then
    Ok (replicate (Z.to_nat n) zero_bucket ++ drop (Z.to_nat n) bs)
  else Stuck.

Definition hashmap_clear (m : hashmap) (update_cap : bool) (mok : nat -> bool) : res hashmap :=
  let cap := if update_cap then h_nbuckets m else h_cap m in
  let bs := if update_cap then h_buckets m
            else if negb (h_nbuckets m =? h_cap m) then
              if mok 0%nat then replicate (Z.to_nat (h_cap m)) zero_bucket else h_buckets m
            else h_buckets m in
  let nbuckets := if update_cap then h_nbuckets m else h_cap m in
  bs ← memset_buckets nbuckets bs;
  Ok (Hashmap (h_oom m) (h_elsize m) cap (h_seed0 m) (h_seed1 m) (h_bucketsz m)
        nbuckets 0 (nbuckets - 1) (times_0_75 nbuckets) (times_0_10 nbuckets) bs).

(** ** Resizing *)

(** The inner loop of [resize]: [entry] is put into the first free bucket,
    taking the place of every bucket closer to its home on the way. *)
Fixpoint resize_probe (fuel : nat) (mask : Z) (bs : list bucket) (entry : bucket) (j : Z)
    : res (list bucket) :=
  match fuel with
  | O => Stuck
  | S fuel =>
      b ← aget bs j;
      if b_dib b =? 0 then aset bs j entry
      else if b_dib b <? b_dib entry then
        bs ← aset bs j entry;
        resize_probe fuel mask bs (set_dib (b_dib b + 1) b) (u64 (j + 1) .& mask)
      else resize_probe fuel mask bs (set_dib (b_dib entry + 1) entry) (u64 (j + 1) .& mask)
  end.

(** The outer loop, over the buckets of the old table. *)
Fixpoint resize_loop (old : list bucket) (mask : Z) (bs : list bucket) : res (list bucket) :=
  match old with
  | [] => Ok bs
  | entry :: old =>
      if b_dib entry =? 0 then resize_loop old mask bs
      else
        bs ← resize_probe (length bs) mask bs (set_dib 1 entry) (b_hash entry .& mask);
        resize_loop old mask bs
  end.

Definition resize (m : hashmap) (new_cap : Z) (mok : nat -> bool) : res (bool * hashmap) :=
  map2 ← hashmap_new (h_elsize m) new_cap (h_seed1 m) (h_seed1 m) mok;
  match map2 with
  | None => Ok (false, m)
  | Some map2 =>
      bs ← resize_loop (take (Z.to_nat (h_nbuckets m)) (h_buckets m)) (h_mask map2) (h_buckets map2);
      Ok (true, Hashmap (h_oom m) (h_elsize m) (h_cap m) (h_seed0 m) (h_seed1 m) (h_bucketsz m)
                  (h_nbuckets map2) (h_count m) (h_mask map2) (h_growat map2) (h_shrinkat map2) bs)
  end.

(** ** Insertion *)

(** The probe loop of [hashmap_set]; the result is the table and the item that
    was replaced, if any. *)
Fixpoint set_loop (fuel : nat) (mask : Z) (bs : list bucket) (entry : bucket) (i : Z)
    : res (list bucket * option A) :=
  match fuel with
  | O => Stuck
  | S fuel =>
      b ← aget bs i;
      if b_dib b =? 0 then bs ← aset bs i entry; Ok (bs, None)
      else if (b_hash entry =? b_hash b) && (compare (b_item entry) (b_item b) =? 0) then
        bs ← aset bs i (Bucket (b_hash b) (b_dib b) (b_item entry));
        Ok (bs, Some (b_item b))
      else if b_dib b <? b_dib entry then
        bs ← aset bs i entry;
        set_loop fuel mask bs (set_dib (b_dib b + 1) b) (u64 (i + 1) .& mask)
      else set_loop fuel mask bs (set_dib (b_dib entry + 1) entry) (u64 (i + 1) .& mask)
  end.

(** [item] is [None] for a null pointer.  The result is the replaced item, and
    the new map. *)
Definition hashmap_set (m : hashmap) (item : option A) (mok : nat -> bool)
    : res (option A * hashmap) :=
  match item with
  | None => Panic
  | Some item =>
      let m := set_oom false m in
      '(ok, m) ← (if h_count m =? h_growat m then resize m (u64 (h_nbuckets m * 2)) mok
                  else Ok (true, m));
      if negb ok then Ok (None, set_oom true m)
      else
        let h := get_hash m item in
        '(bs, old) ← set_loop (length (h_buckets m)) (h_mask m) (h_buckets m)
                       (Bucket h 1 item) (h .& h_mask m);
        match old with
        | None => Ok (None, set_buckets (u64 (h_count m + 1)) bs m)
        | Some old => Ok (Some old, set_buckets (h_count m) bs m)
        end
  end.

(** ** Lookup and removal *)

(** The probe loop shared by [hashmap_get] and [hashmap_delete]: the index of
    the bucket that holds [key], or [None] at the first empty bucket. *)
Fixpoint find_loop (fuel : nat) (mask : Z) (bs : list bucket) (h : Z) (key : A) (i : Z)
    : res (option Z) :=
  match fuel with
  | O => Stuck
  | S fuel =>
      b ← aget bs i;
      if b_dib b =? 0 then Ok None
      else if (b_hash b =? h) && (compare key (b_item b) =? 0) then Ok (Some i)
      else find_loop fuel mask bs h key (u64 (i + 1) .& mask)
  end.

Definition hashmap_get (m : hashmap) (key : option A) : res (option A) :=
  match key with
  | None => Panic
  | Some key =>
      let h := get_hash m key in
      i ← find_loop (length (h_buckets m)) (h_mask m) (h_buckets m) h key (h .& h_mask m);
      match i with
      | None => Ok None
      | Some i => b ← aget (h_buckets m) i; Ok (Some (b_item b))
      end
  end.

Definition hashmap_probe (m : hashmap) (position : Z) : res (option A) :=
  b ← aget (h_buckets m) (position .& h_mask m);
  if b_dib b =? 0 then Ok None else Ok (Some (b_item b)).

(** The backward shift: [i] is the index of [prev]. *)
Fixpoint shift_loop (fuel : nat) (mask : Z) (bs : list bucket) (i : Z) : res (list bucket) :=
  match fuel with
  | O => Stuck
  | S fuel =>
      let i' := u64 (i + 1) .& mask in
      prev ← aget bs i;
      b ← aget bs i';
      if b_dib b <=? 1 then aset bs i (set_dib 0 prev)
      else
        bs ← aset bs i (set_dib (b_dib b - 1) b);
        shift_loop fuel mask bs i'
  end.

Definition hashmap_delete (m : hashmap) (key : option A) (mok : nat -> bool)
    : res (option A * hashmap) :=
  match key with
  | None => Panic
  | Some key =>
      let m := set_oom false m in
      let h := get_hash m key in
      i ← find_loop (length (h_buckets m)) (h_mask m) (h_buckets m) h key (h .& h_mask m);
      match i with
      | None => Ok (None, m)
      | Some i =>
          b ← aget (h_buckets m) i;
          bs ← aset (h_buckets m) i (set_dib 0 b);
          bs ← shift_loop (length bs) (h_mask m) bs i;
          let m := set_buckets (u64 (h_count m - 1)) bs m in
          m ← (if (h_cap m <? h_nbuckets m) && (h_count m <=? h_shrinkat m)
               then snd <$> resize m (h_nbuckets m / 2) mok
               else Ok m);
          Ok (Some (b_item b), m)
      end
  end.

Definition hashmap_count (m : hashmap) : Z := h_count m.

Definition hashmap_oom (m : hashmap) : bool := h_oom m.

(** [iter] returns whether to go on and threads its [udata]. *)
Fixpoint scan_loop {S} (iter : A -> S -> bool * S) (bs : list bucket) (s : S) : bool * S :=
  match bs with
  | [] => (true, s)
  | b :: bs =>
      if b_dib b =? 0 then scan_loop iter bs s
      else let '(go, s) := iter (b_item b) s in
           if go then scan_loop iter bs s else (false, s)
  end.

Definition hashmap_scan {S} (m : hashmap) (iter : A -> S -> bool * S) (s : S) : bool * S :=
  scan_loop iter (take (Z.to_nat (h_nbuckets m)) (h_buckets m)) s.

End Definitions.
Arguments bucket : clear implicits.
Arguments hashmap : clear implicits.

(** ** Invariant

    [key] projects the part of an item that [hash] and [compare] look at, [ok]
    the items the map is used with.  [compare] is only ever called on items of
    equal hash, so its law is only needed there. *)

Section Invariant.
Context {A : Type} (zero_item : A) (hash : A -> Z -> Z -> Z) (compare : A -> A -> Z).
Context {K : Type} `{Countable K} (key : A -> K) (ok : A -> Prop) (s0 s1 : Z).

Definition h48 (a : A) : Z := hash a s0 s1 mod 2 ^ 48.

Class CallbackLaws : Prop := {
  hash_law : forall a b, ok a -> ok b -> key a = key b -> h48 a = h48 b;
  compare_law : forall a b, ok a -> ok b -> h48 a = h48 b -> (compare a b = 0 <-> key a = key b)
}.
Context {laws : CallbackLaws}.

#[local] Instance bucket_inhabited : Inhabited (bucket A) := populate (zero_bucket zero_item).
#[local] Instance bucket_item_inhabited : Inhabited A := populate zero_item.

(** The bucket at any integer position of a table of [n] buckets, taken
    cyclically. *)
Definition bat (n : Z) (l : list (bucket A)) (x : Z) : bucket A := l !!! Z.to_nat (x mod n).
Definition occ (b : bucket A) : Prop := b_dib b <> 0.

Record table_ok (n : Z) (l : list (bucket A)) : Prop := {
  t_len : 0 < n <= Z.of_nat (length l);
  t_dib : forall x, 0 <= b_dib (bat n l x) <= n;
  t_home : forall x, occ (bat n l x) ->
    (b_hash (bat n l x) + b_dib (bat n l x) - 1) mod n = x mod n;
  t_item : forall x, occ (bat n l x) ->
    b_hash (bat n l x) = h48 (b_item (bat n l x)) /\ ok (b_item (bat n l x));
  t_robin : forall x, b_dib (bat n l (x + 1)) <= b_dib (bat n l x) + 1;
  t_uniq : forall x y, occ (bat n l x) -> occ (bat n l y) ->
    key (b_item (bat n l x)) = key (b_item (bat n l y)) -> x mod n = y mod n
}.

(** The finite map a table stands for. *)
Definition represents (n : Z) (l : list (bucket A)) (M : gmap K A) : Prop :=
  forall k a, M !! k = Some a <->
    exists x, occ (bat n l x) /\ b_item (bat n l x) = a /\ key a = k.

(** An entry on its way to position [i]. *)
Record in_flight (n : Z) (l : list (bucket A)) (e : bucket A) (i : Z) : Prop := {
  f_dib : 1 <= b_dib e;
  f_home : (b_hash e + b_dib e - 1) mod n = i mod n;
  f_item : b_hash e = h48 (b_item e) /\ ok (b_item e);
  f_robin : b_dib e <= b_dib (bat n l (i - 1)) + 1;
  f_passed : forall t, 1 <= t < b_dib e -> key (b_item (bat n l (i - t))) <> key (b_item e)
}.

(** *** Cyclic positions *)

Lemma bat_mod n l x y : x mod n = y mod n -> bat n l x = bat n l y.
Proof. intros E. unfold bat. by rewrite E. Qed.

Lemma mod_eq_sub n x y : 0 < n -> x mod n = y mod n -> exists q, x = y + q * n.
Proof.
  intros. exists (x / n - y / n).
  pose proof (Z_div_mod_eq_full x n). pose proof (Z_div_mod_eq_full y n). nia.
Qed.

Lemma mod_add_mult n x q : 0 < n -> (x + q * n) mod n = x mod n.
Proof. intros. apply Z_mod_plus_full. Qed.

(** Positions less than a full turn apart are different. *)
Lemma mod_near_ne n x d : 0 < d < n -> (x + d) mod n <> x mod n.
Proof.
  intros Hd E. destruct (mod_eq_sub n (x + d) x) as [q Hq]; [lia|done|].
  assert (d = q * n) by lia. destruct (Z.le_gt_cases q 0); nia.
Qed.

Lemma bat_insert n l i x b :
  0 < n <= Z.of_nat (length l) ->
  bat n (<[Z.to_nat (i mod n) := b]> l) x
  = if decide (i mod n = x mod n) then b else bat n l x.
Proof.
  intros. unfold bat. pose proof (Z.mod_pos_bound i n). pose proof (Z.mod_pos_bound x n).
  rewrite list_insert_lookup_total by lia.
  destruct (decide (i mod n = x mod n)), (decide (_ = Z.to_nat (x mod n))); auto; lia.
Qed.

Lemma aget_bat n l i : 0 < n <= Z.of_nat (length l) -> aget l (i mod n) = Ok (bat n l i).
Proof. intros. pose proof (Z.mod_pos_bound i n). by rewrite aget_ok by lia. Qed.

Lemma next_index n i :
  (exists k, 0 <= k <= 48 /\ n = 2 ^ k) -> u64 (i mod n + 1) .& (n - 1) = (i + 1) mod n.
Proof.
  intros (k & Hk & ->). assert (0 < 2 ^ k) by (apply Z.pow_pos_nonneg; lia).
  pose proof (Z.mod_pos_bound i (2 ^ k)).
  assert (2 ^ k <= 2 ^ 48) by (apply Z.pow_le_mono_r; lia).
  unfold u64. rewrite wrap_small, land_mask by mlia. by rewrite Zplus_mod_idemp_l.
Qed.

(** *** The Robin Hood order *)

Lemma robin_chain n l x t :
  table_ok n l -> 0 <= t -> b_dib (bat n l (x + t)) <= b_dib (bat n l x) + t.
Proof.
  intros Hok Ht. revert t Ht. apply natlike_ind; [by rewrite !Z.add_0_r|].
  intros t Ht IH. pose proof (t_robin n l Hok (x + t)).
  replace (x + Z.succ t) with (x + t + 1) by lia. lia.
Qed.

(** Two items of equal key have the same home, so their positions differ by
    the difference of their distances. *)
Lemma same_home n x dx y dy h :
  0 < n -> (h + dx - 1) mod n = x mod n -> (h + dy - 1) mod n = y mod n ->
  y mod n = (x + (dy - dx)) mod n.
Proof.
  intros ? Hx Hy. rewrite <- Hy.
  replace (h + dy - 1) with (h + dx - 1 + (dy - dx)) by lia.
  rewrite <- (Zplus_mod_idemp_l x), <- Hx, Zplus_mod_idemp_l. done.
Qed.

(** No bucket holds the key of an entry in flight once the entry meets a bucket
    nearer to its own home: behind [i] it was compared, and beyond [i] the
    Robin Hood order forbids it. *)
Lemma in_flight_fresh n l e i :
  table_ok n l -> in_flight n l e i -> b_dib (bat n l i) < b_dib e ->
  forall y, occ (bat n l y) -> key (b_item (bat n l y)) <> key (b_item e).
Proof.
  intros Hok Hfl Hlt y Hy Hk. pose proof (t_len n l Hok) as Hn.
  destruct (t_item n l Hok y Hy) as [Hhy Hoky], (f_item _ _ _ _ Hfl) as [Hhe Hoke].
  assert (b_hash (bat n l y) = b_hash e) as Hh by (rewrite Hhy, Hhe; by apply hash_law).
  pose proof (t_home n l Hok y Hy) as Hhome. rewrite Hh in Hhome.
  pose proof (same_home n i _ y _ _ ltac:(lia) (f_home _ _ _ _ Hfl) Hhome) as Hpos.
  pose proof (bat_mod n l _ _ Hpos) as Hb.
  set (dy := b_dib (bat n l y)) in *. pose proof (t_dib n l Hok y). fold dy in H0.
  destruct (Z.lt_ge_cases dy (b_dib e)).
  - apply (f_passed _ _ _ _ Hfl (b_dib e - dy)).
    + unfold occ in Hy. fold dy in Hy. lia.
    + rewrite <- Hk. do 2 f_equal. rewrite Hb. f_equal. lia.
  - pose proof (robin_chain n l i (dy - b_dib e) Hok ltac:(lia)) as Hc.
    rewrite <- Hb in Hc. fold dy in Hc. lia.
Qed.

Lemma in_flight_behind n l e i t :
  table_ok n l -> in_flight n l e i -> 1 <= t < b_dib e -> occ (bat n l (i - t)).
Proof.
  intros Hok Hfl Ht. pose proof (robin_chain n l (i - t) (t - 1) Hok ltac:(lia)) as Hc.
  replace (i - t + (t - 1)) with (i - 1) in Hc by lia.
  pose proof (f_robin _ _ _ _ Hfl). unfold occ. lia.
Qed.

(** An entry never travels past an empty bucket, which bounds its distance. *)
Lemma in_flight_dib n l e i D :
  table_ok n l -> in_flight n l e i -> 0 <= D < n -> b_dib (bat n l (i + D)) = 0 ->
  b_dib e <= n - D.
Proof.
  intros Hok Hfl HD Hz. destruct (Z.le_gt_cases (b_dib e) (n - D)); [done|exfalso].
  pose proof (t_len n l Hok).
  apply (in_flight_behind n l e i (n - D) Hok Hfl ltac:(lia)).
  rewrite <- Hz. f_equal. apply bat_mod.
  rewrite <- (mod_add_mult n (i - (n - D)) 1) by lia. f_equal. lia.
Qed.

(** Decides whether two cyclic positions are the same and simplifies the
    bucket read after a write. *)
Ltac bat_case :=
  rewrite bat_insert by assumption;
  match goal with |- context [decide (?i mod ?n = ?x mod ?n)] =>
    destruct (decide (i mod n = x mod n)) as [?Epos|?Epos] end.
Ltac bat_case_in H :=
  rewrite bat_insert in H by assumption;
  match type of H with context [decide (?i mod ?n = ?x mod ?n)] =>
    destruct (decide (i mod n = x mod n)) as [?Epos|?Epos] end.

(** Placing an entry at [i] keeps the table invariant. *)
Lemma place_table_ok n l e i :
  table_ok n l -> in_flight n l e i -> b_dib (bat n l i) < b_dib e <= n ->
  table_ok n (<[Z.to_nat (i mod n) := e]> l).
Proof.
  intros Hok Hfl Hd. pose proof (t_len n l Hok) as Hn.
  pose proof (in_flight_fresh n l e i Hok Hfl ltac:(lia)) as Hfresh.
  pose proof (f_dib _ _ _ _ Hfl).
  split.
  - by rewrite length_insert.
  - intros x. bat_case; [lia|apply Hok].
  - intros x. bat_case; [|apply Hok]. intros _. rewrite <- Epos. apply Hfl.
  - intros x. bat_case; [|apply Hok]. intros _. apply Hfl.
  - intros x. bat_case; bat_case; try lia.
    + rewrite (bat_mod n l x (i - 1)); [apply Hfl|].
      rewrite <- (Zminus_mod_idemp_l i), Epos, Zminus_mod_idemp_l. f_equal; lia.
    + pose proof (t_robin n l Hok x). rewrite (bat_mod n l x i) in * by done. lia.
    + apply Hok.
  - intros x y. bat_case; bat_case.
    + congruence.
    + intros _ Hy Hk. by destruct (Hfresh y Hy).
    + intros Hx _ Hk. by destruct (Hfresh x Hx).
    + apply Hok.
Qed.

(** The map after placing [e] at [i]: the evicted item is gone, [e] is in. *)
Definition evict (b : bucket A) (M : gmap K A) : gmap K A :=
  if b_dib b =? 0 then M else delete (key (b_item b)) M.

Lemma place_represents n l e i M :
  table_ok n l -> represents n l M -> in_flight n l e i -> b_dib (bat n l i) < b_dib e ->
  represents n (<[Z.to_nat (i mod n) := e]> l)
    (<[key (b_item e) := b_item e]> (evict (bat n l i) M)).
Proof.
  intros Hok Hrep Hfl Hd. pose proof (t_len n l Hok) as Hn.
  pose proof (in_flight_fresh n l e i Hok Hfl Hd) as Hfresh. pose proof (f_dib _ _ _ _ Hfl).
  assert (forall k a, evict (bat n l i) M !! k = Some a <->
            exists x, x mod n <> i mod n /\ occ (bat n l x) /\ b_item (bat n l x) = a /\ key a = k)
    as Hev.
  { intros k a. unfold evict. destruct (Z.eqb_spec (b_dib (bat n l i)) 0) as [E|E].
    - rewrite (Hrep k a). split; intros (x & Hx); exists x; [|naive_solver].
      split; [|done]. intros Hxi. apply (proj1 Hx). by rewrite (bat_mod n l x i).
    - rewrite lookup_delete_Some, (Hrep k a). split.
      + intros (Hne & x & Hx). exists x. split; [|done]. intros Hxi. apply Hne.
        rewrite (bat_mod n l x i) in Hx by done. naive_solver.
      + intros (x & Hne & Hx & <- & <-). split; [|naive_solver].
        intros Hk. by apply Hne, (t_uniq n l Hok). }
  intros k a. rewrite lookup_insert_Some, Hev. split.
  - intros [[<- <-]|[Hne (x & Hxi & Hx & Ha & Hk)]].
    + exists i. bat_case; [|done]. unfold occ. repeat split; lia.
    + exists x. bat_case; [congruence|]. auto.
  - intros (x & Hx & Ha & Hk). bat_case_in Hx; bat_case_in Ha; try congruence; [left|right].
    + subst. auto.
    + split; [|exists x; auto]. subst. intros E. by apply (Hfresh x).
Qed.

Lemma in_flight_lookup n l e i M :
  table_ok n l -> represents n l M -> in_flight n l e i -> b_dib (bat n l i) < b_dib e ->
  M !! key (b_item e) = None.
Proof.
  intros Hok Hrep Hfl Hd. apply eq_None_not_Some. intros [a Ha].
  apply Hrep in Ha as (x & Hx & <- & Hk). by apply (in_flight_fresh n l e i Hok Hfl Hd x Hx).
Qed.

Lemma set_dib_small d (b : bucket A) : 0 <= d < 2 ^ 16 -> set_dib d b = Bucket (b_hash b) d (b_item b).
Proof. intros. unfold set_dib, u16. by rewrite wrap_small. Qed.

(** The evicted bucket continues at the next position. *)
Lemma evicted_in_flight n l e i :
  table_ok n l -> in_flight n l e i -> b_dib (bat n l i) < b_dib e ->
  occ (bat n l i) -> 2 <= n <= 2 ^ 15 ->
  in_flight n (<[Z.to_nat (i mod n) := e]> l)
    (set_dib (b_dib (bat n l i) + 1) (bat n l i)) (i + 1).
Proof.
  intros Hok Hfl Hd Hocc Hn2. pose proof (t_len n l Hok) as Hn.
  pose proof (t_dib n l Hok i). unfold occ in Hocc.
  assert (set_dib (b_dib (bat n l i) + 1) (bat n l i) =
          Bucket (b_hash (bat n l i)) (b_dib (bat n l i) + 1) (b_item (bat n l i))) as ->
    by (apply set_dib_small; lia).
  split; cbn [b_dib b_hash b_item].
  - lia.
  - pose proof (t_home n l Hok i Hocc) as Hh.
    replace (_ + _ - 1) with (b_hash (bat n l i) + b_dib (bat n l i) - 1 + 1) by lia.
    by rewrite <- Zplus_mod_idemp_l, Hh, Zplus_mod_idemp_l.
  - by apply Hok.
  - replace (i + 1 - 1) with i by lia. bat_case; [lia|done].
  - intros t Ht. bat_case.
    + intros E. by apply (in_flight_fresh n l e i Hok Hfl Hd i Hocc).
    + assert (1 <= t - 1) by (destruct (Z.eq_dec t 1); [subst; by replace (i + 1 - 1) with i in Epos by lia|lia]).
      pose proof (robin_chain n l (i - (t - 1)) (t - 1) Hok ltac:(lia)) as Hc.
      replace (i - (t - 1) + (t - 1)) with i in Hc by lia.
      replace (i + 1 - t) with (i - (t - 1)) in * by lia.
      intros Hk. apply (t_uniq n l Hok) in Hk; [congruence|unfold occ; lia|done].
Qed.

(** An entry that stays in flight moves on. *)
Lemma advance_in_flight n l e i :
  in_flight n l e i -> b_dib e <= b_dib (bat n l i) -> b_dib e + 1 < 2 ^ 16 ->
  key (b_item (bat n l i)) <> key (b_item e) ->
  in_flight n l (set_dib (b_dib e + 1) e) (i + 1).
Proof.
  intros Hfl Hd Hlt Hne. pose proof (f_dib _ _ _ _ Hfl).
  rewrite set_dib_small by lia.
  split; cbn [b_dib b_hash b_item].
  - lia.
  - pose proof (f_home _ _ _ _ Hfl) as Hh.
    replace (b_hash e + _ - 1) with (b_hash e + b_dib e - 1 + 1) by lia.
    by rewrite <- Zplus_mod_idemp_l, Hh, Zplus_mod_idemp_l.
  - apply Hfl.
  - replace (i + 1 - 1) with i by lia. lia.
  - intros t Ht. destruct (Z.eq_dec t 1) as [->|].
    + by replace (i + 1 - 1) with i by lia.
    + replace (i + 1 - t) with (i - (t - 1)) by lia. apply (f_passed _ _ _ _ Hfl). lia.
Qed.

(** *** The probe loops *)

Definition pow2_size (n : Z) : Prop := exists k, 4 <= k <= 15 /\ n = 2 ^ k.

Lemma pow2_size_bounds n : pow2_size n -> 16 <= n <= 2 ^ 15.
Proof.
  intros (k & Hk & ->). split.
  - change 16 with (2 ^ 4). apply Z.pow_le_mono_r; lia.
  - apply Z.pow_le_mono_r; lia.
Qed.

Lemma pow2_next n i : pow2_size n -> u64 (i mod n + 1) .& (n - 1) = (i + 1) mod n.
Proof. intros (k & Hk & ->). apply next_index. exists k. lia. Qed.

Lemma aset_bat n (l : list (bucket A)) i b :
  0 < n <= Z.of_nat (length l) -> aset l (i mod n) b = Ok (<[Z.to_nat (i mod n) := b]> l).
Proof. intros. pose proof (Z.mod_pos_bound i n). by rewrite aset_ok by lia. Qed.

(** The test of the loop finds exactly the bucket of equal key. *)
Lemma match_iff_key n l x a h :
  table_ok n l -> occ (bat n l x) -> ok a -> h = h48 a ->
  (h = b_hash (bat n l x) /\ compare a (b_item (bat n l x)) = 0
   <-> key (b_item (bat n l x)) = key a).
Proof.
  intros Hok Hx Ha ->. destruct (t_item n l Hok x Hx) as [-> Hi]. split.
  - intros [Hh Hc]. symmetry. by apply compare_law.
  - intros Hk. split; [by apply hash_law|]. apply compare_law; auto. by apply hash_law.
Qed.

Lemma replace_ok n l e i M :
  table_ok n l -> represents n l M -> occ (bat n l i) -> ok (b_item e) ->
  key (b_item (bat n l i)) = key (b_item e) ->
  let l' := <[Z.to_nat (i mod n) := Bucket (b_hash (bat n l i)) (b_dib (bat n l i)) (b_item e)]> l in
  table_ok n l' /\ represents n l' (<[key (b_item e) := b_item e]> M).
Proof.
  intros Hok Hrep Hocc Hoke Hk l'. pose proof (t_len n l Hok) as Hn.
  assert (forall x, bat n l' x = if decide (i mod n = x mod n)
            then Bucket (b_hash (bat n l x)) (b_dib (bat n l x)) (b_item e) else bat n l x) as Hb.
  { intros x. subst l'. bat_case; [|done]. by rewrite (bat_mod n l i x). }
  assert (forall x, b_dib (bat n l' x) = b_dib (bat n l x)) as Hdib.
  { intros x. rewrite Hb. by case_decide. }
  assert (forall x, key (b_item (bat n l' x)) = key (b_item (bat n l x))) as Hkey.
  { intros x. rewrite Hb. case_decide as E; [|done]. cbn [b_item].
    by rewrite <- Hk, (bat_mod n l i x). }
  split; [split|].
  - subst l'. by rewrite length_insert.
  - intros x. rewrite Hdib. apply Hok.
  - intros x. unfold occ. rewrite Hdib, Hb. case_decide; cbn [b_hash]; apply Hok.
  - intros x Hx. unfold occ in Hx. rewrite Hdib in Hx. rewrite Hb. case_decide as E; [|by apply Hok].
    cbn [b_hash b_item]. split; [|done]. destruct (t_item n l Hok x Hx) as [-> ?].
    apply hash_law; [done..|]. by rewrite <- Hk, (bat_mod n l i x).
  - intros x. rewrite !Hdib. apply Hok.
  - intros x y. unfold occ. rewrite !Hdib, !Hkey. apply Hok.
  - intros k a. rewrite lookup_insert_Some. split.
    + intros [[<- <-]|[Hne (x & Hx & Ha & Hka)%Hrep]].
      * exists i. unfold occ. rewrite Hdib, Hb. case_decide; [|done]. done.
      * exists x. unfold occ. rewrite Hdib, Hb. case_decide as E; [|done].
        destruct Hne. by rewrite <- Hka, <- Ha, <- Hk, (bat_mod n l i x).
    + intros (x & Hx & Ha & Hka). unfold occ in Hx. rewrite Hdib in Hx. rewrite Hb in Ha.
      case_decide as E; cbn [b_item] in Ha; [left; by subst|right]. split.
      * intros Hke. apply E. apply (t_uniq n l Hok); [done..|]. congruence.
      * apply Hrep. by exists x.
Qed.

(** What happens to table and map at an empty bucket ... *)
Lemma place_empty_ok n l e i M :
  table_ok n l -> represents n l M -> in_flight n l e i -> b_dib (bat n l i) = 0 ->
  b_dib e <= n ->
  let l' := <[Z.to_nat (i mod n) := e]> l in
  M !! key (b_item e) = None /\ table_ok n l' /\
  represents n l' (<[key (b_item e) := b_item e]> M) /\ length l' = length l.
Proof.
  intros Hok Hrep Hfl E0 Hd l'. pose proof (f_dib _ _ _ _ Hfl).
  split; [eapply in_flight_lookup; (done || lia)|].
  split; [apply place_table_ok; (done || lia)|]. split; [|by apply length_insert].
  replace M with (evict (bat n l i) M) by (unfold evict; by rewrite E0).
  apply place_represents; (done || lia).
Qed.

(** ... and when the entry takes the place of a bucket nearer to its home:
    the pair of table and entry in flight still stands for the same map. *)
Lemma swap_ok n l e i M :
  table_ok n l -> represents n l M -> in_flight n l e i ->
  b_dib (bat n l i) < b_dib e <= n -> occ (bat n l i) -> 2 <= n <= 2 ^ 15 ->
  let b := bat n l i in
  let l' := <[Z.to_nat (i mod n) := e]> l in
  exists M', M !! key (b_item e) = None /\ M' !! key (b_item b) = None /\
    <[key (b_item b) := b_item b]> M' = <[key (b_item e) := b_item e]> M /\
    table_ok n l' /\ represents n l' M' /\ in_flight n l' (set_dib (b_dib b + 1) b) (i + 1) /\
    length l' = length l.
Proof.
  intros Hok Hrep Hfl Hd Hocc Hn b l'.
  pose proof (in_flight_fresh n l e i Hok Hfl ltac:(lia) i Hocc) as Hk. fold b in Hk.
  exists (<[key (b_item e) := b_item e]> (delete (key (b_item b)) M)).
  split_and!.
  - eapply in_flight_lookup; (done || lia).
  - by rewrite lookup_insert_ne, lookup_delete_eq.
  - rewrite insert_insert_ne, insert_delete_eq by done. f_equal.
    apply insert_id, Hrep. by exists i.
  - by apply place_table_ok.
  - replace (delete _ M) with (evict b M)
      by (unfold evict; by destruct (Z.eqb_spec (b_dib b) 0)).
    apply place_represents; (done || lia).
  - apply evicted_in_flight; (done || lia).
  - apply length_insert.
Qed.

Lemma bat_insert_ahead n l e i D :
  0 < n <= Z.of_nat (length l) -> 0 <= D < n - 1 ->
  bat n (<[Z.to_nat (i mod n) := e]> l) (i + 1 + D) = bat n l (i + 1 + D).
Proof.
  intros Hn HD. bat_case; [|done].
  replace (i + 1 + D) with (i + (1 + D)) in Epos by lia.
  exfalso. eapply (mod_near_ne n i (1 + D)); [lia|done].
Qed.

Ltac probe_setup n :=
  match goal with
  | Hok : table_ok n ?l, Hfl : in_flight n ?l ?e ?i, HD : Z.of_nat ?D < n, Hz : _ = 0,
    Hfuel : (?D < ?fuel)%nat |- _ =>
      destruct fuel as [|fuel]; [lia|];
      pose proof (t_len n l Hok); pose proof (f_dib _ _ _ _ Hfl);
      pose proof (in_flight_dib n l e i (Z.of_nat D) Hok Hfl (conj (Nat2Z.is_nonneg _) HD) Hz);
      pose proof (t_dib n l Hok i)
  end.

(** With an empty bucket [D] steps ahead, [D + 1] iterations suffice. *)
Lemma set_loop_ok n (D : nat) : pow2_size n ->
  forall fuel l e i M,
  table_ok n l -> represents n l M -> in_flight n l e i ->
  Z.of_nat D < n -> b_dib (bat n l (i + Z.of_nat D)) = 0 -> (D < fuel)%nat ->
  exists l', set_loop compare fuel (n - 1) l e (i mod n) = Ok (l', M !! key (b_item e)) /\
    table_ok n l' /\ represents n l' (<[key (b_item e) := b_item e]> M) /\ length l' = length l.
Proof.
  intros Hp. pose proof (pow2_size_bounds n Hp) as Hb.
  induction D as [|D IH]; intros fuel l e i M Hok Hrep Hfl HD Hz Hfuel; probe_setup n;
    cbn [set_loop]; rewrite (aget_bat n) by done; cbn [mbind res_bind];
    (destruct (Z.eqb_spec (b_dib (bat n l i)) 0) as [E0|E0];
     [destruct (place_empty_ok n l e i M) as (-> & ?); [done..|lia|];
      rewrite (aset_bat n) by done; by eexists|]).
  { by rewrite Z.add_0_r in Hz. }
  destruct (f_item _ _ _ _ Hfl) as [Hhe Hoke].
  pose proof (match_iff_key n l i (b_item e) (b_hash e) Hok E0 Hoke Hhe) as Hmatch.
  destruct (_ && _) eqn:Hcmp.
  { assert (key (b_item (bat n l i)) = key (b_item e)) as Hk by (apply Hmatch; lia).
    rewrite (aset_bat n) by done. cbn. eexists. split.
    - do 2 f_equal. symmetry. apply Hrep. by exists i.
    - rewrite length_insert. by destruct (replace_ok n l e i M). }
  rewrite (pow2_next n i Hp).
  destruct (Z.ltb_spec (b_dib (bat n l i)) (b_dib e)).
  - destruct (swap_ok n l e i M) as (M' & -> & HM' & <- & Ht & Hr & Hf & Hlen); [done..|lia|done|lia|].
    rewrite (aset_bat n) by done. cbn [mbind res_bind].
    rewrite <- Hlen, <- HM'.
    apply (IH fuel _ (set_dib (b_dib (bat n l i) + 1) (bat n l i)) (i + 1) M'); [done..|lia| |lia].
    rewrite bat_insert_ahead by lia. rewrite <- Hz. do 2 f_equal. lia.
  - apply (IH fuel l (set_dib (b_dib e + 1) e) (i + 1) M); [done|done| |lia| |lia].
    + apply advance_in_flight; [done|lia..|]. intros Hk. apply Hmatch in Hk. lia.
    + rewrite <- Hz. do 2 f_equal. lia.
Qed.

(** Without the comparison, for an item that is not in the table. *)
Lemma resize_probe_ok n (D : nat) : pow2_size n ->
  forall fuel l e i M,
  table_ok n l -> represents n l M -> in_flight n l e i -> M !! key (b_item e) = None ->
  Z.of_nat D < n -> b_dib (bat n l (i + Z.of_nat D)) = 0 -> (D < fuel)%nat ->
  exists l', resize_probe fuel (n - 1) l e (i mod n) = Ok l' /\
    table_ok n l' /\ represents n l' (<[key (b_item e) := b_item e]> M) /\ length l' = length l.
Proof.
  intros Hp. pose proof (pow2_size_bounds n Hp) as Hb.
  induction D as [|D IH]; intros fuel l e i M Hok Hrep Hfl Hnone HD Hz Hfuel; probe_setup n;
    cbn [resize_probe]; rewrite (aget_bat n) by done; cbn [mbind res_bind];
    (destruct (Z.eqb_spec (b_dib (bat n l i)) 0) as [E0|E0];
     [destruct (place_empty_ok n l e i M) as (_ & ?); [done..|lia|];
      rewrite (aset_bat n) by done; by eexists|]).
  { by rewrite Z.add_0_r in Hz. }
  rewrite (pow2_next n i Hp).
  destruct (Z.ltb_spec (b_dib (bat n l i)) (b_dib e)).
  - destruct (swap_ok n l e i M) as (M' & _ & HM' & <- & Ht & Hr & Hf & Hlen); [done..|lia|done|lia|].
    rewrite (aset_bat n) by done. cbn [mbind res_bind].
    rewrite <- Hlen.
    apply (IH fuel _ (set_dib (b_dib (bat n l i) + 1) (bat n l i)) (i + 1) M'); [done..|lia| |lia].
    rewrite bat_insert_ahead by lia. rewrite <- Hz. do 2 f_equal. lia.
  - apply (IH fuel l (set_dib (b_dib e + 1) e) (i + 1) M); [done|done| |done|lia| |lia].
    + apply advance_in_flight; [done|lia..|]. intros Hk. cbn in Hnone. rewrite <- Hk in Hnone.
      assert (M !! key (b_item (bat n l i)) = Some (b_item (bat n l i))) by (apply Hrep; by exists i).
      congruence.
    + rewrite <- Hz. do 2 f_equal. lia.
Qed.

(** A table with fewer items than buckets has an empty bucket, and any position
    sees one ahead. *)
Lemma empty_ahead n l M i :
  table_ok n l -> represents n l M -> Z.of_nat (size M) < n ->
  exists D : nat, Z.of_nat D < n /\ b_dib (bat n l (i + Z.of_nat D)) = 0.
Proof.
  intros Hok Hrep Hsz. pose proof (t_len n l Hok) as Hn.
  set (js := seq 0 (Z.to_nat n)).
  destruct (decide (Exists (fun j => b_dib (bat n l (Z.of_nat j)) = 0) js)) as [HE|HE].
  - apply Exists_exists in HE as (j & _ & Hz).
    pose proof (Z.mod_pos_bound (Z.of_nat j - i) n).
    exists (Z.to_nat ((Z.of_nat j - i) mod n)). split; [lia|].
    rewrite Z2Nat.id, <- Hz by lia. f_equal. apply bat_mod.
    rewrite Zplus_mod_idemp_r. f_equal. lia.
  - exfalso. assert (forall j, (j < Z.to_nat n)%nat -> occ (bat n l (Z.of_nat j))) as Hocc.
    { intros j Hj Hz. apply HE, Exists_exists. exists j. split; [|done]. apply elem_of_seq. lia. }
    set (kof := fun j => key (b_item (bat n l (Z.of_nat j)))).
    assert (NoDup (kof <$> js)) as Hnd.
    { apply NoDup_fmap_2_strong; [|apply NoDup_seq].
      intros j j' Hj%elem_of_seq Hj'%elem_of_seq Hk.
      apply (t_uniq n l Hok) in Hk; [|apply Hocc; lia..].
      rewrite !Z.mod_small in Hk by lia. lia. }
    assert (list_to_set (kof <$> js) ⊆ dom M) as Hsub%subseteq_size.
    { intros k. rewrite elem_of_list_to_set, list_elem_of_fmap. intros (j & -> & Hj%elem_of_seq).
      apply elem_of_dom. exists (b_item (bat n l (Z.of_nat j))). apply Hrep.
      exists (Z.of_nat j). split; [apply Hocc; lia|done]. }
    rewrite size_list_to_set, length_fmap, size_dom in Hsub by done.
    unfold js in Hsub. rewrite length_seq in Hsub. lia.
Qed.

(** A probe that reaches an empty bucket has shown the key absent. *)
Lemma empty_absent n l M a j :
  table_ok n l -> represents n l M -> ok a -> 0 <= j ->
  (forall t, 0 <= t < j -> key (b_item (bat n l (h48 a + t))) <> key a) ->
  b_dib (bat n l (h48 a + j)) = 0 -> M !! key a = None.
Proof.
  intros Hok Hrep Ha Hj Hpast E0. apply eq_None_not_Some. intros [a' (y & Hy & <- & Hk)%Hrep].
  destruct (t_item n l Hok y Hy) as [Hhy Hoky]. rewrite (hash_law _ a Hoky Ha Hk) in Hhy.
  pose proof (t_home n l Hok y Hy) as Hh. rewrite Hhy in Hh.
  set (dy := b_dib (bat n l y)) in *. pose proof (t_dib n l Hok y) as Hdy. fold dy in Hdy.
  unfold occ in Hy. fold dy in Hy.
  replace (h48 a + dy - 1) with (h48 a + (dy - 1)) in Hh by lia.
  pose proof (bat_mod n l _ _ Hh) as Hb. destruct (Z.lt_ge_cases (dy - 1) j).
  - apply (Hpast (dy - 1)); [lia|by rewrite Hb].
  - pose proof (robin_chain n l (h48 a + j) (dy - 1 - j) Hok ltac:(lia)) as Hc.
    replace (h48 a + j + (dy - 1 - j)) with (h48 a + (dy - 1)) in Hc by lia.
    rewrite Hb in Hc. fold dy in Hc. lia.
Qed.

Lemma find_loop_ok n (D : nat) a : pow2_size n -> ok a ->
  forall fuel l M j,
  table_ok n l -> represents n l M -> 0 <= j ->
  (forall t, 0 <= t < j -> key (b_item (bat n l (h48 a + t))) <> key a) ->
  b_dib (bat n l (h48 a + j + Z.of_nat D)) = 0 -> (D < fuel)%nat ->
  (find_loop compare fuel (n - 1) l (h48 a) a ((h48 a + j) mod n) = Ok None /\ M !! key a = None) \/
  exists x, find_loop compare fuel (n - 1) l (h48 a) a ((h48 a + j) mod n) = Ok (Some (x mod n)) /\
    occ (bat n l x) /\ key (b_item (bat n l x)) = key a.
Proof.
  intros Hp Ha.
  induction D as [|D IH]; intros fuel l M j Hok Hrep Hj Hpast Hz Hfuel;
    (destruct fuel as [|fuel]; [lia|]); pose proof (t_len n l Hok) as Hn;
    cbn [find_loop]; rewrite (aget_bat n) by done; cbn [mbind res_bind];
    set (i := h48 a + j) in *;
    (destruct (Z.eqb_spec (b_dib (bat n l i)) 0) as [E0|E0];
     [left; split; [done|by eapply empty_absent]|]).
  { by rewrite Z.add_0_r in Hz. }
  pose proof (match_iff_key n l i a (h48 a) Hok E0 Ha eq_refl) as Hmatch.
  destruct (_ && _) eqn:Hcmp.
  - right. exists i. split; [done|]. split; [done|]. apply Hmatch. lia.
  - rewrite (pow2_next n i Hp). replace (i + 1) with (h48 a + (j + 1)) by lia.
    apply IH; [done..|lia| | |lia].
    + intros t Ht. destruct (Z.eq_dec t j) as [->|]; [|apply Hpast; lia].
      intros Hk. apply Hmatch in Hk. lia.
    + rewrite <- Hz. do 2 f_equal. lia.
Qed.

(** *** The backward shift *)

(** The table with the bucket at [i] disregarded. *)
Record hole_ok (n : Z) (l : list (bucket A)) (i : Z) (M : gmap K A) : Prop := {
  o_len : 0 < n <= Z.of_nat (length l);
  o_dib : forall x, 0 <= b_dib (bat n l x) <= n;
  o_home : forall x, x mod n <> i mod n -> occ (bat n l x) ->
    (b_hash (bat n l x) + b_dib (bat n l x) - 1) mod n = x mod n;
  o_item : forall x, x mod n <> i mod n -> occ (bat n l x) ->
    b_hash (bat n l x) = h48 (b_item (bat n l x)) /\ ok (b_item (bat n l x));
  o_robin : forall x, x mod n <> i mod n -> (x + 1) mod n <> i mod n ->
    b_dib (bat n l (x + 1)) <= b_dib (bat n l x) + 1;
  o_skip : b_dib (bat n l (i + 1)) <= b_dib (bat n l (i - 1)) + 2;
  o_uniq : forall x y, x mod n <> i mod n -> y mod n <> i mod n ->
    occ (bat n l x) -> occ (bat n l y) ->
    key (b_item (bat n l x)) = key (b_item (bat n l y)) -> x mod n = y mod n;
  o_rep : forall k a, M !! k = Some a <->
    exists x, x mod n <> i mod n /\ occ (bat n l x) /\ b_item (bat n l x) = a /\ key a = k
}.

(** Clearing the bucket of an item opens a hole. *)
Lemma hole_open n l i M :
  table_ok n l -> represents n l M -> occ (bat n l i) -> 2 < n ->
  hole_ok n (<[Z.to_nat (i mod n) := set_dib 0 (bat n l i)]> l) i
    (delete (key (b_item (bat n l i))) M).
Proof.
  intros Hok Hrep Hocc Hn2. pose proof (t_len n l Hok) as Hn.
  split.
  - by rewrite length_insert.
  - intros x. bat_case; [change (b_dib (set_dib 0 _)) with 0; lia|apply Hok].
  - intros x Hx. bat_case; [congruence|apply Hok].
  - intros x Hx. bat_case; [congruence|apply Hok].
  - intros x Hx Hx'. bat_case; [congruence|]. bat_case; [congruence|apply Hok].
  - pose proof (t_robin n l Hok i) as H1. pose proof (t_robin n l Hok (i - 1)) as H2.
    replace (i - 1 + 1) with i in H2 by lia.
    bat_case; [by destruct (mod_near_ne n i 1); [lia|]|].
    bat_case; [destruct (mod_near_ne n (i - 1) 1); [lia|]; by replace (i - 1 + 1) with i by lia|]. lia.
  - intros x y Hx Hy. bat_case; [congruence|]. bat_case; [congruence|]. apply Hok.
  - intros k a. rewrite lookup_delete_Some, (Hrep k a). split.
    + intros (Hne & x & Hx & Ha & Hk). exists x.
      assert (x mod n <> i mod n) as Hxi.
      { intros E. apply Hne. by rewrite <- Hk, <- Ha, (bat_mod n l x i). }
      bat_case; [congruence|]. auto.
    + intros (x & Hxi & Hx & Ha & Hk). bat_case_in Hx; [congruence|]. bat_case_in Ha; [congruence|].
      split; [|by exists x]. subst. intros E. by apply Hxi, (t_uniq n l Hok).
Qed.

(** An entry one step further closes it. *)
Lemma hole_close n l i M :
  hole_ok n l i M -> b_dib (bat n l (i + 1)) <= 1 -> 2 < n ->
  let l' := <[Z.to_nat (i mod n) := set_dib 0 (bat n l i)]> l in
  table_ok n l' /\ represents n l' M.
Proof.
  intros Ho Hd Hn2 l'. pose proof (o_len _ _ _ _ Ho) as Hn.
  assert (forall x, x mod n = i mod n -> b_dib (bat n l' x) = 0) as Hzero.
  { intros x Hx. subst l'. bat_case; [done|congruence]. }
  assert (forall x, occ (bat n l' x) -> x mod n <> i mod n) as Hocc.
  { intros x Hx E. apply Hx. by apply Hzero. }
  assert (forall x, x mod n <> i mod n -> bat n l' x = bat n l x) as Hb.
  { intros x Hx. subst l'. bat_case; [congruence|done]. }
  split; [split|].
  - subst l'. by rewrite length_insert.
  - intros x. destruct (decide (x mod n = i mod n)) as [E|E].
    + rewrite Hzero by done. lia.
    + rewrite Hb by done. apply Ho.
  - intros x Hx. pose proof (Hocc x Hx). rewrite Hb in * by done. by apply Ho.
  - intros x Hx. pose proof (Hocc x Hx). rewrite Hb in * by done. by apply Ho.
  - intros x. destruct (decide ((x + 1) mod n = i mod n)) as [E1|E1].
    { rewrite Hzero by done. destruct (decide (x mod n = i mod n)) as [E|E].
      - rewrite Hzero by done. lia.
      - rewrite Hb by done. pose proof (o_dib _ _ _ _ Ho x). lia. }
    rewrite (Hb (x + 1)) by done. destruct (decide (x mod n = i mod n)) as [E|E].
    + rewrite Hzero by done.
      rewrite (bat_mod n l (x + 1) (i + 1)); [lia|].
      by rewrite <- (Zplus_mod_idemp_l x), E, Zplus_mod_idemp_l.
    + rewrite Hb by done. by apply Ho.
  - intros x y Hx Hy. pose proof (Hocc x Hx). pose proof (Hocc y Hy).
    rewrite !Hb in * by done. by apply Ho.
  - intros k a. rewrite (o_rep _ _ _ _ Ho k a). split; intros (x & Hx).
    + destruct Hx as (Hxi & Hx). exists x. by rewrite Hb.
    + exists x. destruct Hx as (Hx & Ha). pose proof (Hocc x Hx). rewrite Hb in * by done. auto.
Qed.

Lemma mod_succ_ne n i : 1 < n -> (i + 1) mod n <> i mod n.
Proof. intros. apply mod_near_ne. lia. Qed.

Lemma mod_add_inj n x y c : (x + c) mod n = (y + c) mod n -> x mod n = y mod n.
Proof.
  intros E. replace x with (x + c - c) by lia. replace y with (y + c - c) by lia.
  by rewrite <- Zminus_mod_idemp_l, E, Zminus_mod_idemp_l.
Qed.

(** Moving the next bucket back moves the hole forward. *)
Lemma hole_shift n l i M :
  hole_ok n l i M -> 1 < b_dib (bat n l (i + 1)) -> 2 < n <= 2 ^ 15 ->
  hole_ok n (<[Z.to_nat (i mod n) := set_dib (b_dib (bat n l (i + 1)) - 1) (bat n l (i + 1))]> l)
    (i + 1) M.
Proof.
  intros Ho Hd Hn2. pose proof (o_len _ _ _ _ Ho) as Hn.
  pose proof (o_dib _ _ _ _ Ho (i + 1)) as Hdb. pose proof (mod_succ_ne n i ltac:(lia)) as Hne.
  set (b := bat n l (i + 1)) in *. rewrite set_dib_small by lia.
  assert (occ b) as Hocc by (unfold occ; lia).
  set (b' := Bucket _ _ _). set (l' := <[_ := b']> l).
  assert (forall x, bat n l' x = if decide (i mod n = x mod n) then b' else bat n l x) as Hb
    by (intros x; by apply bat_insert).
  split.
  - subst l'. by rewrite length_insert.
  - intros x. rewrite Hb. case_decide; [cbn; lia|apply Ho].
  - intros x Hx. rewrite Hb. case_decide as E; [|by apply Ho]. intros _. cbn [b_hash b_dib b'].
    apply (mod_add_inj n _ _ 1).
    replace (b_hash b + (b_dib b - 1) - 1 + 1) with (b_hash b + b_dib b - 1) by lia.
    rewrite <- (Zplus_mod_idemp_l x), <- E, Zplus_mod_idemp_l. by apply Ho.
  - intros x Hx. rewrite Hb. case_decide as E; [|by apply Ho]. intros _. by apply (o_item _ _ _ _ Ho).
  - intros x Hx Hx'. rewrite !Hb.
    destruct (decide (i mod n = x mod n)) as [E|E].
    { destruct Hx'. by rewrite <- (Zplus_mod_idemp_l x), <- E, Zplus_mod_idemp_l. }
    case_decide as E'; [|by apply Ho]. cbn [b_dib b']. pose proof (o_skip _ _ _ _ Ho) as Hs.
    rewrite (bat_mod n l x (i - 1)); [fold b in Hs; lia|].
    apply (mod_add_inj n _ _ 1). rewrite <- E'. f_equal. lia.
  - rewrite !Hb. replace (i + 1 - 1) with i by lia.
    destruct (decide (i mod n = i mod n)); [|done]. cbn [b_dib b'].
    destruct (decide (i mod n = (i + 1 + 1) mod n)) as [E|E]; [cbn; lia|].
    pose proof (o_robin _ _ _ _ Ho (i + 1) Hne ltac:(congruence)) as Hr. fold b in Hr. lia.
  - intros x y Hx Hy. rewrite !Hb.
    destruct (decide (i mod n = x mod n)) as [E|E], (decide (i mod n = y mod n)) as [E'|E'];
      intros H1 H2 Hk; [congruence| | |by apply Ho].
    + destruct Hy. symmetry. by apply (o_uniq _ _ _ _ Ho).
    + destruct Hx. by apply (o_uniq _ _ _ _ Ho).
  - intros k a. rewrite (o_rep _ _ _ _ Ho k a). split; intros (x & Hx & Hox & Ha & Hk).
    + destruct (decide (x mod n = (i + 1) mod n)) as [E|E].
      * exists i. rewrite Hb. destruct (decide (i mod n = i mod n)); [|done].
        rewrite (bat_mod n l x (i + 1)) in Ha by done. repeat split; [done|unfold occ; cbn; lia|done|done].
      * exists x. rewrite Hb. destruct (decide (i mod n = x mod n)); [congruence|]. auto.
    + rewrite Hb in Hox, Ha. destruct (decide (i mod n = x mod n)) as [E|E].
      * exists (i + 1). auto.
      * exists x. auto.
Qed.

Lemma shift_loop_ok n (D : nat) : pow2_size n ->
  forall fuel l i M,
  hole_ok n l i M -> Z.of_nat D + 1 < n -> b_dib (bat n l (i + 1 + Z.of_nat D)) = 0 ->
  (D < fuel)%nat ->
  exists l', shift_loop fuel (n - 1) l (i mod n) = Ok l' /\
    table_ok n l' /\ represents n l' M /\ length l' = length l.
Proof.
  intros Hp. pose proof (pow2_size_bounds n Hp) as Hb.
  induction D as [|D IH]; intros fuel l i M Ho HD Hz Hfuel;
    (destruct fuel as [|fuel]; [lia|]); pose proof (o_len _ _ _ _ Ho) as Hn;
    cbn [shift_loop]; rewrite (pow2_next n i Hp), !(aget_bat n) by done; cbn [mbind res_bind];
    (destruct (Z.leb_spec (b_dib (bat n l (i + 1))) 1);
     [destruct (hole_close n l i M Ho) as [? ?]; [lia|lia|];
      rewrite (aset_bat n) by done; eexists; rewrite length_insert; auto|]).
  { rewrite Z.add_0_r in Hz. lia. }
  pose proof (hole_shift n l i M Ho ltac:(lia) ltac:(lia)) as Ho'.
  rewrite (aset_bat n) by done. cbn [mbind res_bind].
  destruct (IH fuel _ (i + 1) M Ho') as (l' & ? & ? & ? & Hlen); [lia| |lia|].
  - bat_case.
    + replace (i + 1 + 1 + Z.of_nat D) with (i + (Z.of_nat D + 2)) in Epos by lia.
      destruct (mod_near_ne n i (Z.of_nat D + 2)); [lia|done].
    + rewrite <- Hz. do 2 f_equal. lia.
  - exists l'. rewrite length_insert in Hlen. auto.
Qed.

(** *** Resizing *)

(** The items of a list of buckets added to a map. *)
Definition add_all (old : list (bucket A)) (M : gmap K A) : gmap K A :=
  foldl (fun M b => if b_dib b =? 0 then M else <[key (b_item b) := b_item b]> M) M old.

Lemma add_all_cons b old M :
  add_all (b :: old) M
  = add_all old (if b_dib b =? 0 then M else <[key (b_item b) := b_item b]> M).
Proof. done. Qed.

Definition keys_distinct (old : list (bucket A)) : Prop :=
  forall i j b b', old !! i = Some b -> old !! j = Some b' -> occ b -> occ b' ->
    key (b_item b) = key (b_item b') -> i = j.

Lemma keys_distinct_cons b old :
  keys_distinct (b :: old) ->
  keys_distinct old /\ (occ b -> forall b', b' ∈ old -> occ b' -> key (b_item b') <> key (b_item b)).
Proof.
  intros Hd. split.
  - intros i j x y Hi Hj Hx Hy Hk. specialize (Hd (S i) (S j) x y Hi Hj Hx Hy Hk). lia.
  - intros Hb b' [i Hi]%list_elem_of_lookup Hb' Hk.
    specialize (Hd (S i) O b' b Hi eq_refl Hb' Hb Hk). lia.
Qed.

Lemma add_all_dom old M : dom M ⊆ dom (add_all old M).
Proof.
  revert M. induction old as [|b old IH]; intros M; rewrite ?add_all_cons; [done|].
  case_if; [apply IH|]. etrans; [|apply IH]. rewrite dom_insert. set_solver.
Qed.

Lemma add_all_lookup old M k a :
  keys_distinct old -> (forall b, b ∈ old -> occ b -> M !! key (b_item b) = None) ->
  add_all old M !! k = Some a <->
  M !! k = Some a \/ exists b, b ∈ old /\ occ b /\ b_item b = a /\ key a = k.
Proof.
  revert M. induction old as [|b old IH]; intros M Hd Hfr.
  { split; [auto|]. intros [?|(b & Hb & _)]; [done|]. by apply elem_of_nil in Hb. }
  apply keys_distinct_cons in Hd as [Hd Hhd]. rewrite add_all_cons.
  destruct (Z.eqb_spec (b_dib b) 0) as [E|E].
  - rewrite IH; [|done|intros; apply Hfr; [by constructor|done]]. split.
    + intros [?|(b' & ? & ?)]; [by left|right; exists b'; split; [by constructor|done]].
    + intros [?|(b' & [->|?]%elem_of_cons & ? & ?)]; [by left|done|right; exists b'; done].
  - rewrite IH, lookup_insert_Some; [|done|].
    + split.
      * intros [[[<- <-]|[? ?]]|(b' & ? & ?)]; [right; exists b; split; [constructor|done]|by left|right; exists b'; split; [by constructor|done]].
      * intros [HM|(b' & [->|?]%elem_of_cons & Hb' & <- & <-)].
        -- left. right. split; [|done]. intros <-. rewrite Hfr in HM; [done|constructor|done].
        -- left. by left.
        -- right. exists b'. done.
    + intros b' Hb' Ho. rewrite lookup_insert_ne; [apply Hfr; [by constructor|done]|].
      intros Hk. by apply (Hhd E b' Hb' Ho).
Qed.

Lemma start_in_flight n l (e : bucket A) :
  table_ok n l -> b_dib e = 1 -> b_hash e = h48 (b_item e) -> ok (b_item e) ->
  in_flight n l e (b_hash e).
Proof.
  intros Hok Hd Hh Ho. pose proof (t_dib n l Hok (b_hash e - 1)).
  split; rewrite ?Hd; [lia|f_equal; lia|done|lia|intros; lia].
Qed.

Lemma pow2_mask n x : pow2_size n -> x .& (n - 1) = x mod n.
Proof. intros (k & Hk & ->). apply land_mask. lia. Qed.

Lemma resize_loop_ok n : pow2_size n -> forall old l M,
  table_ok n l -> represents n l M -> keys_distinct old ->
  (forall b, b ∈ old -> occ b -> b_hash b = h48 (b_item b) /\ ok (b_item b)) ->
  (forall b, b ∈ old -> occ b -> M !! key (b_item b) = None) ->
  Z.of_nat (size (add_all old M)) < n ->
  exists l', resize_loop old (n - 1) l = Ok l' /\ table_ok n l' /\
    represents n l' (add_all old M) /\ length l' = length l.
Proof.
  intros Hp. induction old as [|b old IH]; intros l M Hok Hrep Hd Hit Hfr Hsz.
  { by exists l. }
  apply keys_distinct_cons in Hd as [Hd Hhd]. cbn [resize_loop]. rewrite add_all_cons in *.
  pose proof (t_len n l Hok) as Hn.
  destruct (Z.eqb_spec (b_dib b) 0) as [E|E].
  { apply IH; try done; intros b' ?; [apply Hit|apply Hfr]; by constructor. }
  destruct (Hit b) as [Hh Hob]; [constructor|done|].
  rewrite (pow2_mask n _ Hp).
  assert (Z.of_nat (size M) < n) as HszM.
  { enough (size M <= size (<[key (b_item b):=b_item b]> M) <= size (add_all old (<[key (b_item b):=b_item b]> M)))%nat
      by lia.
    rewrite <- !size_dom. split; apply subseteq_size; [|apply add_all_dom].
    rewrite dom_insert. set_solver. }
  destruct (empty_ahead n l M (b_hash b) Hok Hrep HszM) as (D & HD & Hz).
  destruct (resize_probe_ok n D Hp (length l) l (set_dib 1 b) (b_hash b) M)
    as (l' & -> & Hok' & Hrep' & Hlen); [done|done| |apply (Hfr b); [constructor|done]|done|done|lia|].
  { by apply (start_in_flight n l (set_dib 1 b)). }
  cbn [mbind res_bind]. rewrite <- Hlen. apply IH; [done..| | |done].
  - intros b' ?. apply Hit. by constructor.
  - intros b' Hb' Ho. cbn [b_item set_dib]. rewrite lookup_insert_ne.
    + apply Hfr; [by constructor|done].
    + intros Hk. by apply (Hhd E b' Hb' Ho).
Qed.

Lemma take_bat n l (j : nat) b :
  0 < n <= Z.of_nat (length l) ->
  take (Z.to_nat n) l !! j = Some b <-> (j < Z.to_nat n)%nat /\ bat n l (Z.of_nat j) = b.
Proof.
  intros Hn. rewrite lookup_take_Some. unfold bat. split; intros [H1 H2].
  - split; [done|]. rewrite Z.mod_small, Nat2Z.id by lia. by apply list_lookup_total_correct.
  - split; [|done]. rewrite Z.mod_small, Nat2Z.id in H2 by lia. subst b.
    apply list_lookup_lookup_total_lt. lia.
Qed.

Lemma take_elem n l b :
  0 < n <= Z.of_nat (length l) ->
  b ∈ take (Z.to_nat n) l <-> exists x, bat n l x = b.
Proof.
  intros Hn. rewrite list_elem_of_lookup. split.
  - intros (j & Hj%take_bat); [|done]. exists (Z.of_nat j). apply Hj.
  - intros (x & Hx). pose proof (Z.mod_pos_bound x n).
    exists (Z.to_nat (x mod n)). apply take_bat; [done|]. split; [lia|].
    rewrite Z2Nat.id by lia. rewrite <- Hx. apply bat_mod. apply Z.mod_mod. lia.
Qed.

(** The occupied buckets of a table list the map it stands for. *)
Lemma table_items n l M :
  table_ok n l -> represents n l M ->
  keys_distinct (take (Z.to_nat n) l) /\
  (forall b, b ∈ take (Z.to_nat n) l -> occ b -> b_hash b = h48 (b_item b) /\ ok (b_item b)) /\
  add_all (take (Z.to_nat n) l) ∅ = M.
Proof.
  intros Hok Hrep. pose proof (t_len n l Hok) as Hn.
  assert (keys_distinct (take (Z.to_nat n) l)) as Hd.
  { intros i j b b' [Hi <-]%take_bat [Hj <-]%take_bat Hb Hb' Hk; [|done..].
    apply (t_uniq n l Hok) in Hk; [|done..]. rewrite !Z.mod_small in Hk by lia. lia. }
  split; [done|]. split.
  { intros b [x <-]%take_elem; [|done]. apply Hok. }
  apply map_eq. intros k. apply option_eq. intros a.
  rewrite add_all_lookup by (done || intros; apply lookup_empty).
  rewrite lookup_empty, (Hrep k a). split.
  - intros [?|(b & [x <-]%take_elem & Hb)]; [done|by exists x|done].
  - intros (x & Hx). right. exists (bat n l x). split; [apply take_elem; [done|by exists x]|done].
Qed.

(** A freshly zeroed table is the empty map. *)
Lemma zero_table_ok n l :
  0 < n <= Z.of_nat (length l) -> (forall x, bat n l x = zero_bucket zero_item) ->
  table_ok n l /\ represents n l ∅.
Proof.
  intros Hn Hz. assert (forall x, ~ occ (bat n l x)) as Ho by (intros x; rewrite Hz; by intros []).
  split; [split|].
  - done.
  - intros x. rewrite Hz. cbn. lia.
  - intros x Hx. by destruct (Ho x).
  - intros x Hx. by destruct (Ho x).
  - intros x. rewrite !Hz. cbn. lia.
  - intros x y Hx. by destruct (Ho x).
  - intros k a. rewrite lookup_empty. split; [done|]. intros (x & Hx & _). by destruct (Ho x).
Qed.

Lemma bat_replicate n l x :
  0 < n -> bat n (replicate (Z.to_nat n) (zero_bucket zero_item) ++ l) x = zero_bucket zero_item.
Proof.
  intros. unfold bat. pose proof (Z.mod_pos_bound x n).
  rewrite lookup_total_app_l by (rewrite length_replicate; lia).
  apply lookup_total_replicate_2. lia.
Qed.

(** *** The map and its operations *)

Record map_ok (m : hashmap A) (M : gmap K A) : Prop := {
  m_pow : pow2_size (h_nbuckets m);
  m_cap : pow2_size (h_cap m) /\ h_cap m <= h_nbuckets m;
  m_mask : h_mask m = h_nbuckets m - 1;
  m_seeds : h_seed0 m = s0 /\ h_seed1 m = s1;
  m_table : table_ok (h_nbuckets m) (h_buckets m);
  m_rep : represents (h_nbuckets m) (h_buckets m) M;
  m_count : h_count m = Z.of_nat (size M);
  m_grow : h_count m <= h_growat m /\ 4 * h_growat m <= 3 * h_nbuckets m;
  m_grow_lo : h_nbuckets m <= 2 * h_growat m + 1;
  m_shrink : 4 * h_shrinkat m <= h_nbuckets m
}.

Lemma ncap_loop_ok fuel j cap :
  4 <= j <= 15 -> cap <= 2 ^ 15 -> (Z.to_nat (16 - j) <= fuel)%nat ->
  exists k, j <= k <= 15 /\ ncap_loop fuel (2 ^ j) cap = Ok (2 ^ k) /\ cap <= 2 ^ k.
Proof.
  revert j. induction fuel as [|fuel IH]; intros j Hj Hc Hf; [lia|]. cbn [ncap_loop].
  destruct (Z.ltb_spec (2 ^ j) cap); [|exists j; split_and!; (done || lia)].
  assert (j < 15) by (apply (Z.pow_lt_mono_r_iff 2); lia).
  replace (2 ^ j * 2) with (2 ^ (j + 1)) by (rewrite Z.pow_add_r by lia; lia).
  assert (2 ^ (j + 1) <= 2 ^ 15) by (apply Z.pow_le_mono_r; lia).
  replace (2 ^ (j + 1) <? 2 ^ 31) with true by lia.
  destruct (IH (j + 1)) as (k & Hk & -> & ?); [lia|lia|lia|]. exists k. split_and!; (done || lia).
Qed.

Lemma ncap_loop_pow2 n : pow2_size n -> (if n <? 16 then Ok 16 else ncap_loop 32 16 n) = Ok n.
Proof.
  intros (k & Hk & ->).
  assert (k = 4 \/ k = 5 \/ k = 6 \/ k = 7 \/ k = 8 \/ k = 9 \/ k = 10 \/ k = 11 \/ k = 12 \/
          k = 13 \/ k = 14 \/ k = 15) as Hd by lia.
  destruct_or! Hd; subst k; vm_compute; reflexivity.
Qed.

Lemma fresh_map_ok n el c sz oom :
  pow2_size n -> pow2_size c -> c <= n ->
  map_ok (Hashmap oom el c s0 s1 sz n 0 (n - 1) (n / 2) (n / 10)
            (replicate (Z.to_nat n) (zero_bucket zero_item))) ∅.
Proof.
  intros Hp Hc Hle. pose proof (pow2_size_bounds n Hp).
  pose proof (Z_div_mod_eq_full n 2). pose proof (Z_div_mod_eq_full n 10).
  pose proof (Z.mod_pos_bound n 2). pose proof (Z.mod_pos_bound n 10).
  destruct (zero_table_ok n (replicate (Z.to_nat n) (zero_bucket zero_item))) as [Ht Hr].
  { rewrite length_replicate. lia. }
  { intros x. pose proof (bat_replicate n [] x ltac:(lia)) as E. by rewrite app_nil_r in E. }
  split; cbn; auto; lia.
Qed.

(** Rehashing keeps the map; it fails only when an allocation does. *)
Lemma resize_ok m M n mok :
  pow2_size (h_nbuckets m) -> table_ok (h_nbuckets m) (h_buckets m) ->
  represents (h_nbuckets m) (h_buckets m) M -> pow2_size n -> Z.of_nat (size M) < n ->
  exists l, resize zero_item m n mok =
    (if mok 0%nat && mok 1%nat then
       Ok (true, Hashmap (h_oom m) (h_elsize m) (h_cap m) (h_seed0 m) (h_seed1 m) (h_bucketsz m)
                   n (h_count m) (n - 1) (n / 2) (n / 10) l)
     else Ok (false, m)) /\
    (mok 0%nat && mok 1%nat = true -> table_ok n l /\ represents n l M).
Proof.
  intros Hp Hok Hrep Hpn Hsz. pose proof (pow2_size_bounds n Hpn) as Hb.
  destruct (table_items _ _ _ Hok Hrep) as (Hd & Hit & Hadd).
  set (zl := replicate (Z.to_nat n) (zero_bucket zero_item)).
  destruct (zero_table_ok n zl) as [Ht0 Hr0].
  { subst zl. rewrite length_replicate. lia. }
  { intros x. pose proof (bat_replicate n [] x ltac:(lia)) as E. by rewrite app_nil_r in E. }
  destruct (resize_loop_ok n Hpn _ zl ∅ Ht0 Hr0 Hd Hit) as (l & Hl & Htl & Hrl & Hlen).
  { intros. apply lookup_empty. }
  { by rewrite Hadd. }
  rewrite Hadd in Hrl. exists l. split; [|done].
  unfold resize, hashmap_new. rewrite ncap_loop_pow2 by done. cbn [mbind res_bind].
  destruct (mok 0%nat), (mok 1%nat); try done. cbn [negb andb mbind res_bind h_mask h_buckets h_nbuckets h_growat h_shrinkat].
  fold zl. by rewrite Hl.
Qed.

Lemma get_hash_h48 m M a : map_ok m M -> get_hash hash m a = h48 a.
Proof.
  intros Hm. destruct (m_seeds _ _ Hm) as [E0 E1]. unfold get_hash, h48. rewrite E0, E1.
  change (hash a s0 s1 mod 2 ^ 48) with (wrap 48 (hash a s0 s1)). unfold u64. bitblast.
Qed.

Lemma size_lt m M : map_ok m M -> Z.of_nat (size M) < h_nbuckets m.
Proof.
  intros Hm. pose proof (m_count _ _ Hm). pose proof (m_grow _ _ Hm).
  pose proof (pow2_size_bounds _ (m_pow _ _ Hm)). lia.
Qed.

(** Looking a key up in a table in good order. *)
Lemma find_ok m M a :
  map_ok m M -> ok a ->
  let n := h_nbuckets m in
  let r := find_loop compare (length (h_buckets m)) (h_mask m) (h_buckets m)
             (get_hash hash m a) a (get_hash hash m a .& h_mask m) in
  (r = Ok None /\ M !! key a = None) \/
  exists x, r = Ok (Some (x mod n)) /\ occ (bat n (h_buckets m) x) /\
    key (b_item (bat n (h_buckets m) x)) = key a /\
    M !! key a = Some (b_item (bat n (h_buckets m) x)).
Proof.
  intros Hm Ha n r. subst r. pose proof (t_len _ _ (m_table _ _ Hm)) as Hn.
  rewrite (get_hash_h48 m M), (m_mask _ _ Hm), (pow2_mask _ _ (m_pow _ _ Hm)) by done.
  destruct (empty_ahead _ _ M (h48 a) (m_table _ _ Hm) (m_rep _ _ Hm) (size_lt _ _ Hm)) as (D & HD & Hz).
  destruct (find_loop_ok n D a (m_pow _ _ Hm) Ha (length (h_buckets m)) (h_buckets m) M 0)
    as [[Hf HM]|(x & Hf & Hx & Hk)];
    [apply Hm|apply Hm|lia|intros; lia|by rewrite Z.add_0_r|subst n; lia| |];
    rewrite Z.add_0_r in Hf; [by left|right].
  exists x. split_and!; [done..|]. apply (m_rep _ _ Hm). by exists x.
Qed.

(** [hashmap_get] returns what the map holds for the key. *)
Lemma hashmap_get_ok m M a :
  map_ok m M -> ok a -> hashmap_get hash compare m (Some a) = Ok (M !! key a).
Proof.
  intros Hm Ha. unfold hashmap_get.
  destruct (find_ok m M a Hm Ha) as [[-> ->]|(x & -> & Hx & Hk & ->)]; [done|].
  cbn [mbind res_bind]. rewrite (aget_bat (h_nbuckets m)) by apply (m_table _ _ Hm). done.
Qed.

Lemma map_ok_oom m M b : map_ok m M -> map_ok (set_oom b m) M.
Proof. intros []. by split. Qed.

Lemma fresh_grow n c :
  pow2_size n -> 4 * c <= n -> c <= n / 2 /\ 4 * (n / 2) <= 3 * n /\ 4 * (n / 10) <= n.
Proof.
  intros Hp ?. pose proof (pow2_size_bounds n Hp).
  pose proof (Z_div_mod_eq_full n 2). pose proof (Z_div_mod_eq_full n 10).
  pose proof (Z.mod_pos_bound n 2). pose proof (Z.mod_pos_bound n 10). lia.
Qed.

(** Making room before an insertion. *)
Lemma grow_ok m M mok :
  map_ok m M -> (h_count m = h_growat m -> h_nbuckets m <= 2 ^ 14) ->
  let full := h_count m =? h_growat m in
  exists m',
    (if full then resize zero_item m (u64 (h_nbuckets m * 2)) mok else Ok (true, m))
    = Ok (if full then mok 0%nat && mok 1%nat else true, m') /\
    map_ok m' M /\ h_oom m' = h_oom m /\
    (full = false \/ mok 0%nat && mok 1%nat = true -> h_count m' < h_growat m') /\
    (full = true -> mok 0%nat && mok 1%nat = false -> m' = m).
Proof.
  intros Hm Hbig full. pose proof (m_grow _ _ Hm). subst full.
  destruct (Z.eqb_spec (h_count m) (h_growat m)) as [E|E].
  2:{ exists m. split_and!; try done; lia. }
  destruct (m_pow _ _ Hm) as (k & Hk & Ek). pose proof (pow2_size_bounds _ (m_pow _ _ Hm)).
  assert (k <= 14) by (apply (Z.pow_le_mono_r_iff 2); lia).
  assert (u64 (h_nbuckets m * 2) = 2 ^ (k + 1)) as ->.
  { unfold u64. rewrite wrap_small by mlia. rewrite Ek, Z.pow_add_r by lia. lia. }
  assert (pow2_size (2 ^ (k + 1))) as Hp' by (exists (k + 1); lia).
  assert (2 ^ (k + 1) = 2 * h_nbuckets m) as En by (rewrite Ek, Z.pow_add_r by lia; lia).
  pose proof (m_count _ _ Hm).
  destruct (resize_ok m M (2 ^ (k + 1)) mok) as (l & -> & Hl); [apply Hm..|done|lia|].
  destruct (mok 0%nat && mok 1%nat) eqn:Hmok.
  2:{ exists m. split_and!; try done. intros [?|?]; done. }
  destruct (Hl eq_refl) as [Htl Hrl]. pose proof (Z_div_mod_eq_full (2 ^ (k + 1)) 2).
  pose proof (Z.mod_pos_bound (2 ^ (k + 1)) 2).
  eexists. split; [done|]. split_and!; cbn; try done; try lia.
  pose proof (m_cap _ _ Hm) as [? ?]. pose proof (m_seeds _ _ Hm).
  pose proof (Z_div_mod_eq_full (2 ^ (k + 1)) 10). pose proof (Z.mod_pos_bound (2 ^ (k + 1)) 10).
  split; cbn; try done; try lia. split; [done|lia].
Qed.

Lemma size_insert_old (M : gmap K A) k a :
  Z.of_nat (size (<[k := a]> M))
  = Z.of_nat (size M) + (match M !! k with None => 1 | Some _ => 0 end).
Proof.
  destruct (M !! k) as [old|] eqn:E.
  - rewrite map_size_insert_Some by eauto. lia.
  - rewrite map_size_insert_None by done. lia.
Qed.

(** [hashmap_set] adds or replaces the item and returns the one replaced; when
    the table is full and cannot grow it only records that memory ran out. *)
Lemma hashmap_set_ok m M a mok :
  map_ok m M -> ok a -> (h_count m = h_growat m -> h_nbuckets m <= 2 ^ 14) ->
  let oom := (h_count m =? h_growat m) && negb (mok 0%nat && mok 1%nat) in
  exists m', hashmap_set zero_item hash compare m (Some a) mok
      = Ok (if oom then None else M !! key a, m') /\
    map_ok m' (if oom then M else <[key a := a]> M) /\ h_oom m' = oom.
Proof.
  intros Hm Ha Hbig oom. unfold hashmap_set.
  destruct (grow_ok (set_oom false m) M mok (map_ok_oom _ _ _ Hm) Hbig)
    as (m' & Hgrow & Hm' & Hoom' & Hroom & Hsame).
  cbn [set_oom h_count h_growat h_nbuckets h_oom] in *. rewrite Hgrow. cbn [mbind res_bind].
  destruct oom eqn:Eo; subst oom.
  { apply andb_prop in Eo as [-> Emok%negb_true_iff]. rewrite Emok.
    eexists. split; [done|]. split; [by apply map_ok_oom|done]. }
  assert ((if h_count m =? h_growat m then mok 0%nat && mok 1%nat else true) = true) as ->.
  { destruct (h_count m =? h_growat m); [|done]. by apply negb_false_iff. }
  assert (h_count m' < h_growat m') as Hlt.
  { apply Hroom. destruct (h_count m =? h_growat m); [right; by apply negb_false_iff|by left]. }
  cbn [negb]. rewrite (get_hash_h48 m' M), (m_mask _ _ Hm'), (pow2_mask _ _ (m_pow _ _ Hm')) by done.
  pose proof (t_len _ _ (m_table _ _ Hm')) as Hn.
  destruct (empty_ahead _ _ M (h48 a) (m_table _ _ Hm') (m_rep _ _ Hm') (size_lt _ _ Hm')) as (D & HD & Hz).
  destruct (set_loop_ok _ D (m_pow _ _ Hm') (length (h_buckets m')) (h_buckets m')
    (Bucket (h48 a) 1 a) (h48 a) M) as (l & -> & Htl & Hrl & Hlen); [apply Hm'|apply Hm'| |done|done|lia|].
  { by apply (start_in_flight _ _ (Bucket (h48 a) 1 a)); [apply Hm'|..]. }
  cbn [mbind res_bind b_item] in *. pose proof (m_count _ _ Hm') as Hc.
  pose proof (size_insert_old M (key a) a) as Hsz.
  pose proof (pow2_size_bounds _ (m_pow _ _ Hm')). pose proof (m_grow _ _ Hm').
  destruct (M !! key a) as [old|]; (eexists; split; [done|]; split; [|done]);
    (split; cbn; try apply Hm'; try done); rewrite ?Hsz; unfold u64; rewrite ?wrap_small by mlia; lia.
Qed.

(** Giving memory back after a removal. *)
Lemma shrink_ok m M mok :
  map_ok m M ->
  exists m',
    (if (h_cap m <? h_nbuckets m) && (h_count m <=? h_shrinkat m)
     then snd <$> resize zero_item m (h_nbuckets m / 2) mok else Ok m) = Ok m' /\
    map_ok m' M /\ h_oom m' = h_oom m.
Proof.
  intros Hm. destruct (_ && _) eqn:E; [|by exists m].
  destruct (m_pow _ _ Hm) as (k & Hk & Ek), (m_cap _ _ Hm) as [(kc & Hkc & Ekc) Hle].
  assert (kc < k) by (apply (Z.pow_lt_mono_r_iff 2); lia).
  assert (h_nbuckets m = 2 ^ (k - 1) * 2) as En
    by (rewrite Ek; replace k with (k - 1 + 1) at 1 by lia; rewrite Z.pow_add_r; lia).
  rewrite En, Z.div_mul by lia.
  assert (pow2_size (2 ^ (k - 1))) as Hp by (exists (k - 1); lia).
  pose proof (m_shrink _ _ Hm). pose proof (m_count _ _ Hm). pose proof (m_grow _ _ Hm).
  pose proof (pow2_size_bounds _ Hp).
  destruct (resize_ok m M (2 ^ (k - 1)) mok) as (l & -> & Hl); [apply Hm..|done|lia|].
  destruct (mok 0%nat && mok 1%nat); [|by exists m].
  destruct (Hl eq_refl). eexists. split; [done|]. split; [|done].
  pose proof (fresh_grow (2 ^ (k - 1)) 0 Hp). assert (2 ^ kc <= 2 ^ (k - 1)) by (apply Z.pow_le_mono_r; lia).
  pose proof (Z_div_mod_eq_full (2 ^ (k - 1)) 2). pose proof (Z.mod_pos_bound (2 ^ (k - 1)) 2).
  split; cbn; try apply Hm; try done; try lia. split; [by exists kc|lia].
Qed.

(** [hashmap_delete] removes the key and returns the item it held. *)
Lemma hashmap_delete_ok m M a mok :
  map_ok m M -> ok a ->
  exists m', hashmap_delete zero_item hash compare m (Some a) mok = Ok (M !! key a, m') /\
    map_ok m' (delete (key a) M) /\ h_oom m' = false.
Proof.
  intros Hm0 Ha. pose proof (map_ok_oom _ _ false Hm0) as Hm. unfold hashmap_delete.
  set (m1 := set_oom false m) in *. assert (h_oom m1 = false) as Hoom by done. clearbody m1.
  pose proof (t_len _ _ (m_table _ _ Hm)) as Hn. pose proof (pow2_size_bounds _ (m_pow _ _ Hm)) as Hb.
  destruct (find_ok m1 M a Hm Ha) as [[-> HM]|(x & -> & Hx & Hk & HM)]; cbn [mbind res_bind].
  { rewrite HM. exists m1. split; [done|]. split; [|done]. by rewrite delete_id. }
  set (n := h_nbuckets m1) in *. set (l := h_buckets m1) in *.
  rewrite (aget_bat n) by done. cbn [mbind res_bind].
  rewrite (aset_bat n) by done. cbn [mbind res_bind]. rewrite length_insert.
  rewrite (m_mask _ _ Hm). fold n.
  pose proof (hole_open n l x M (m_table _ _ Hm) (m_rep _ _ Hm) Hx ltac:(lia)) as Hhole.
  destruct (empty_ahead _ _ M (x + 1) (m_table _ _ Hm) (m_rep _ _ Hm) (size_lt _ _ Hm)) as (D & HD & Hz).
  assert (Z.of_nat D + 1 < n) as HD1.
  { destruct (Z.eq_dec (Z.of_nat D) (n - 1)) as [E|]; [|lia]. destruct Hx. rewrite <- Hz. f_equal.
    apply bat_mod. rewrite E. replace (x + 1 + (n - 1)) with (x + 1 * n) by lia.
    rewrite mod_add_mult by lia. done. }
  destruct (shift_loop_ok n D (m_pow _ _ Hm) (length l) _ x _ Hhole) as (l' & -> & Htl & Hrl & Hlen).
  { done. }
  { rewrite bat_insert_ahead by lia. done. }
  { lia. }
  cbn [mbind res_bind]. rewrite Hk in Hrl. pose proof (m_count _ _ Hm) as Hc.
  pose proof (map_size_delete_Some (key a) M ltac:(eauto)) as Hsz.
  assert (0 < size M)%nat by (apply Nat.neq_0_lt_0; intros E%map_size_empty_inv; subst M; done).
  pose proof (m_grow _ _ Hm).
  destruct (shrink_ok (set_buckets (u64 (h_count m1 - 1)) l' m1) (delete (key a) M) mok) as (m' & Hs & Hm' & Ho).
  { split; cbn; try apply Hm; try done; unfold u64; rewrite ?wrap_small by mlia; lia. }
  rewrite Hs, HM. exists m'. split; [done|]. split; [done|]. by rewrite Ho.
Qed.

(** A new map is empty; its size is the requested one rounded up to a power of
    two. *)
Lemma hashmap_new_ok el cap mok :
  0 <= cap <= 2 ^ 15 ->
  if mok 0%nat && mok 1%nat then
    exists m, hashmap_new zero_item el cap s0 s1 mok = Ok (Some m) /\ map_ok m ∅ /\
      h_oom m = false /\ cap <= h_nbuckets m
  else hashmap_new zero_item el cap s0 s1 mok = Ok None.
Proof.
  intros Hc. unfold hashmap_new.
  assert (exists k, 4 <= k <= 15 /\ (if cap <? 16 then Ok 16 else ncap_loop 32 16 cap) = Ok (2 ^ k) /\ cap <= 2 ^ k)
    as (k & Hk & -> & Hle).
  { destruct (Z.ltb_spec cap 16); [exists 4; split_and!; (done || lia)|].
    apply (ncap_loop_ok 32 4 cap); lia. }
  assert (pow2_size (2 ^ k)) as Hp by by exists k.
  cbn [mbind res_bind]. destruct (mok 0%nat), (mok 1%nat); try done.
  eexists. split; [done|]. split; [|done]. apply fresh_map_ok; auto. lia.
Qed.

(** [hashmap_clear] empties the map, whether or not it can reallocate. *)
Lemma hashmap_clear_ok m M update_cap mok :
  map_ok m M ->
  exists m', hashmap_clear zero_item m update_cap mok = Ok m' /\ map_ok m' ∅ /\ hashmap_count m' = 0.
Proof.
  intros Hm. pose proof (t_len _ _ (m_table _ _ Hm)) as Hn. destruct (m_cap _ _ Hm) as [Hpc Hle].
  unfold hashmap_clear. set (nb := if update_cap then _ else _).
  assert (pow2_size nb /\ nb <= h_nbuckets m /\ h_cap m <= h_nbuckets m) as (Hp & Hnb & _)
    by (subst nb; destruct update_cap; split_and!; (done || apply Hm || lia)).
  pose proof (pow2_size_bounds _ Hp). pose proof (pow2_size_bounds _ Hpc).
  set (bs := if update_cap then h_buckets m else _).
  assert (nb <= Z.of_nat (length bs)) as Hlen.
  { subst bs nb. destruct update_cap; [lia|]. destruct (negb _); [|lia].
    destruct (mok 0%nat); [rewrite length_replicate|]; lia. }
  unfold memset_buckets. replace (nb <=? Z.of_nat (length bs)) with true by lia. cbn [mbind res_bind].
  eexists. split; [done|]. split; [|done].
  destruct (zero_table_ok nb (replicate (Z.to_nat nb) (zero_bucket zero_item) ++ drop (Z.to_nat nb) bs))
    as [Ht Hr].
  { rewrite length_app, length_replicate, length_drop. lia. }
  { intros x. apply bat_replicate. lia. }
  assert (0 <= times_0_75 nb /\ 4 * times_0_75 nb <= 3 * nb /\ 4 * times_0_10 nb <= nb /\
          nb <= 2 * times_0_75 nb + 1) as (? & ? & ? & ?).
  { unfold times_0_75, times_0_10.
    pose proof (Z_div_mod_eq_full (nb * 3) 4). pose proof (Z.mod_pos_bound (nb * 3) 4).
    pose proof (Z_div_mod_eq_full (nb * 7205759403792794) (2 ^ 56)).
    pose proof (Z.mod_pos_bound (nb * 7205759403792794) (2 ^ 56)). mlia. }
  split; cbn; try done; try apply Hm; try lia.
Qed.

(** [hashmap_scan] calls the iterator on each item exactly once. *)
Lemma hashmap_scan_ok m M :
  map_ok m M ->
  exists l, hashmap_scan m (fun a acc => (true, acc ++ [a])) [] = (true, l) /\
    l ≡ₚ (map_to_list M).*2.
Proof.
  intros Hm.
  assert (forall bs acc, scan_loop (fun (a : A) acc => (true, acc ++ [a])) bs acc
            = (true, acc ++ (b_item <$> filter occ bs))) as Hscan.
  { intros bs. induction bs as [|b bs IH]; intros acc; cbn [scan_loop]; [by rewrite filter_nil, app_nil_r|].
    destruct (Z.eqb_spec (b_dib b) 0) as [E|E].
    - rewrite IH, filter_cons_False; [done|]. by intros [].
    - rewrite IH, filter_cons_True, <- app_assoc by done. done. }
  unfold hashmap_scan. rewrite Hscan. eexists. split; [done|]. cbn [app].
  destruct (table_items _ _ _ (m_table _ _ Hm) (m_rep _ _ Hm)) as (Hd & _ & Hadd).
  rewrite <- Hadd. revert Hd. generalize (take (Z.to_nat (h_nbuckets m)) (h_buckets m)). clear.
  intros bs Hd.
  assert (forall M0 : gmap K A, (forall b, b ∈ bs -> occ b -> M0 !! key (b_item b) = None) ->
            (map_to_list (add_all bs M0)).*2 ≡ₚ (b_item <$> filter occ bs) ++ (map_to_list M0).*2) as Hall.
  { revert Hd. induction bs as [|b bs IH]; intros Hd M0 Hfr; [done|].
    apply keys_distinct_cons in Hd as [Hd Hhd]. rewrite add_all_cons.
    destruct (Z.eqb_spec (b_dib b) 0) as [E|E].
    - rewrite filter_cons_False by (by intros []). apply IH; [done|]. intros; apply Hfr; [by constructor|done].
    - rewrite filter_cons_True by done. rewrite IH; [|done|].
      + rewrite map_to_list_insert by (apply (Hfr b); [constructor|done]). cbn.
        by rewrite <- Permutation_middle.
      + intros b' Hb' Ho. rewrite lookup_insert_ne; [apply Hfr; [by constructor|done]|].
        intros Hk. by apply (Hhd E b' Hb' Ho). }
  rewrite Hall by (intros; apply lookup_empty). by rewrite map_to_list_empty, app_nil_r.
Qed.

End Invariant.

(** The libc's tables compare two items with [key(a) < key(b)], which is zero for
    different keys too.  It does as a test for equality only where the 48-bit
    hashes of the keys in use, here those below [n], differ. *)
Lemma less_callbacks {A : Type} (hash : A -> Z -> Z -> Z) (key : A -> Z) (mk : Z -> A) (s0 s1 n : Z) :
  (forall a, h48 hash s0 s1 a = h48 hash s0 s1 (mk (key a))) ->
  NoDup (map (fun k => h48 hash s0 s1 (mk k)) (seqZ 0 n)) ->
  CallbackLaws hash (fun a b => cbool (key a <? key b)) key (fun a => 0 <= key a < n) s0 s1.
Proof.
  intros Hh Hd. split; intros a b Ha Hb E.
  - by rewrite (Hh a), (Hh b), E.
  - rewrite (Hh a), (Hh b) in E. assert (key a = key b) as Ek.
    { assert (forall k, 0 <= k < n -> map (fun k => h48 hash s0 s1 (mk k)) (seqZ 0 n) !! Z.to_nat k
                = Some (h48 hash s0 s1 (mk k))) as Hl.
      { intros k Hk. apply list_lookup_fmap_Some. exists k. split; [done|]. apply lookup_seqZ. lia. }
      apply Z2Nat.inj; [lia..|]. eapply NoDup_lookup; [exact Hd|by apply Hl|]. rewrite E. by apply Hl. }
    rewrite Ek, Z.ltb_irrefl. split; reflexivity.
Qed.

(** ** The hash map as a keyed store *)

Definition hashmap_ops {A : Type} (zero_item : A) (hash : A -> Z -> Z -> Z) (compare : A -> A -> Z)
    (elsize s0 s1 : Z) : KVOps A := {|
  kv := hashmap A;
  kv_new cap mok := hashmap_new zero_item elsize cap s0 s1 mok;
  kv_set m a mok := hashmap_set zero_item hash compare m (Some a) mok;
  kv_get m a := hashmap_get hash compare m (Some a);
  kv_delete m a mok := hashmap_delete zero_item hash compare m (Some a) mok;
  kv_oom m := hashmap_oom m
|}.

(** The number of items the map is verified for: its table then has at most
    [2^15] buckets, which the 16-bit probe distances can describe. *)
Definition hashmap_room : nat := Z.to_nat 8192.

Section Laws.
Context {A : Type} (zero_item : A) (hash : A -> Z -> Z -> Z) (compare : A -> A -> Z).
Context {K : Type} `{Countable K} (key : A -> K) (ok : A -> Prop) (elsize s0 s1 : Z).
Context {laws : CallbackLaws hash compare key ok s0 s1}.

Lemma room_buckets m M :
  map_ok zero_item hash key ok s0 s1 m M -> (size M <= hashmap_room)%nat ->
  h_count m = h_growat m -> h_nbuckets m <= 2 ^ 14.
Proof.
  unfold hashmap_room. intros Hm Hsz E. pose proof (m_count _ _ _ _ _ _ _ _ Hm).
  pose proof (m_grow_lo _ _ _ _ _ _ _ _ Hm). destruct (m_pow _ _ _ _ _ _ _ _ Hm) as (k & Hk & Ek).
  destruct (decide (k = 15)) as [->|]; [exfalso; mlia|].
  rewrite Ek. apply Z.pow_le_mono_r; lia.
Qed.

#[export] Instance hashmap_laws :
  KVLaws (hashmap_ops zero_item hash compare elsize s0 s1) key ok hashmap_room.
Proof.
  refine (Build_KVLaws A (hashmap_ops zero_item hash compare elsize s0 s1) K _ _ key ok hashmap_room
            (map_ok zero_item hash key ok s0 s1) _ _ _ _).
  - intros cap mok Hc. pose proof (hashmap_new_ok zero_item hash key ok s0 s1 elsize cap mok) as E.
    unfold hashmap_room in Hc. specialize (E ltac:(lia)).
    destruct (mok 0%nat && mok 1%nat); [|done]. destruct E as (m & ? & ? & ?). by exists m.
  - intros m M a Hm Ha. cbn in *. by eapply hashmap_get_ok.
  - intros m M a mok Hm Ha Hsz. cbn in *.
    destruct (hashmap_set_ok zero_item hash compare key ok s0 s1 m M a mok Hm Ha) as (m' & E & Hm' & Ho).
    { by apply room_buckets with M. }
    eexists _, m'. split; [exact E|]. split_and!; [done..|]. intros Hmok. by rewrite Hmok, andb_false_r.
  - intros m M a mok Hm Ha. cbn in *.
    destruct (hashmap_delete_ok zero_item hash compare key ok s0 s1 m M a mok Hm Ha) as (m' & ? & ? & ?).
    by exists m'.
Defined.

End Laws.

(** ** The properties *)

Section Claims.
Context {A : Type} (zero_item : A) (hash : A -> Z -> Z -> Z) (compare : A -> A -> Z).
Context {K : Type} `{Countable K} (key : A -> K) (ok : A -> Prop) (s0 s1 : Z).


(** One insertion replaces the item of that key and returns the old one;
    when the table is full and its growth fails for lack of memory, the map is
    left as it was and [hashmap_oom] says so. *)
Theorem hashmap_set_spec m M a mok :
  CallbackLaws hash compare key ok s0 s1 ->
  map_ok zero_item hash key ok s0 s1 m M -> ok a -> Z.of_nat (size M) <= 8192 ->
  let oom := (h_count m =? h_growat m) && negb (mok 0%nat && mok 1%nat) in
  exists m', hashmap_set zero_item hash compare m (Some a) mok
      = Ok (if oom then None else M !! key a, m') /\
    map_ok zero_item hash key ok s0 s1 m' (if oom then M else <[key a := a]> M) /\
    hashmap_oom m' = oom.
Proof.
  intros laws Hm Ha Hsz. apply hashmap_set_ok; [done..|].
  apply (room_buckets zero_item hash key ok s0 s1 m M Hm). unfold hashmap_room. lia.
Qed.

(** Removal returns the item the key held and deletes exactly that key, by
    the backward shift and possibly a smaller table; whether that last
    allocation succeeds does not matter. *)
Theorem hashmap_delete_spec m M a mok :
  CallbackLaws hash compare key ok s0 s1 ->
  map_ok zero_item hash key ok s0 s1 m M -> ok a ->
  exists m', hashmap_delete zero_item hash compare m (Some a) mok = Ok (M !! key a, m') /\
    map_ok zero_item hash key ok s0 s1 m' (delete (key a) M) /\
    forall b, ok b -> hashmap_get hash compare m' (Some b) = Ok (delete (key a) M !! key b).
Proof.
  intros laws Hm Ha.
  destruct (hashmap_delete_ok zero_item hash compare key ok s0 s1 m M a mok Hm Ha) as (m' & E & Hm' & _).
  exists m'. split_and!; [done..|]. intros b Hb. by eapply hashmap_get_ok.
Qed.

(** [hashmap_scan] visits every item exactly once; after [hashmap_clear],
    with or without keeping the capacity, it visits none and lookups fail. *)
Theorem hashmap_scan_clear_spec m M update_cap mok :
  CallbackLaws hash compare key ok s0 s1 ->
  map_ok zero_item hash key ok s0 s1 m M ->
  (exists l, hashmap_scan m (fun a acc => (true, acc ++ [a])) [] = (true, l) /\
     l ≡ₚ (map_to_list M).*2) /\
  exists m', hashmap_clear zero_item m update_cap mok = Ok m' /\ hashmap_count m' = 0 /\
    hashmap_scan m' (fun a acc => (true, acc ++ [a])) [] = (true, []) /\
    forall a, ok a -> hashmap_get hash compare m' (Some a) = Ok None.
Proof.
  intros laws Hm. split; [by eapply hashmap_scan_ok|].
  destruct (hashmap_clear_ok zero_item hash key ok s0 s1 m M update_cap mok Hm) as (m' & E & Hm' & Hc).
  exists m'. split_and!; [done..| |].
  - destruct (hashmap_scan_ok zero_item hash key ok s0 s1 m' ∅ Hm') as (l & -> & Hl).
    rewrite map_to_list_empty in Hl. by apply Permutation_nil_r in Hl as ->.
  - intros a Ha. rewrite (hashmap_get_ok zero_item hash compare key ok s0 s1 m' ∅ a Hm' Ha).
    by rewrite lookup_empty.
Qed.

End Claims.

(** *** An instance: pairs keyed by their first component, with colliding homes *)

Definition pair_hash (a : Z * Z) (_ _ : Z) : Z := 16 * a.1.
Definition pair_compare (a b : Z * Z) : Z := a.1 - b.1.
Definition pair_ok (a : Z * Z) : Prop := 0 <= a.1 < 1000.

#[export] Instance pair_laws : CallbackLaws pair_hash pair_compare fst pair_ok 0 0.
Proof.
  split; unfold pair_hash, pair_compare, pair_ok, h48; intros [a1 a2] [b1 b2]; cbn; intros.
  - by subst.
  - lia.
Qed.

Definition pair_map : hashmap (Z * Z) :=
  match hashmap_new (0, 0) 16 0 0 0 all_mallocs with
  | Ok (Some m) =>
      match kv_run (ops := hashmap_ops (0, 0) pair_hash pair_compare 16 0 0) m
              [KSet (3, 30); KSet (5, 50); KSet (3, 31)] with
      | Ok (_, m) => m
      | _ => m
      end
  | _ => Hashmap false 0 0 0 0 0 0 0 0 0 0 []
  end.

Lemma pair_map_ok :
  map_ok (0, 0) pair_hash fst pair_ok 0 0 pair_map (<[3 := (3, 31)]> (<[5 := (5, 50)]> ∅)).
Proof.
  destruct (hashmap_new_ok (0, 0) pair_hash fst pair_ok 0 0 16 0 all_mallocs ltac:(lia)) as (m & Hm & Hrep & _).
  destruct (kv_run_ok (laws := hashmap_laws (0, 0) pair_hash pair_compare fst pair_ok 16 0 0)
    [KSet (3, 30); KSet (5, 50); KSet (3, 31)] m ∅ Hrep) as (m' & Hrun & Hrep').
  { repeat constructor; cbn; lia. }
  { rewrite map_size_empty. cbn. unfold hashmap_room. lia. }
  unfold pair_map. rewrite Hm, Hrun.
  replace (<[3 := _]> _) with (map_run fst (∅ : gmap Z (Z * Z)) [KSet (3, 30); KSet (5, 50); KSet (3, 31)]).2
    by (vm_compute; reflexivity).
  exact Hrep'.
Qed.


Lemma hashmap_set_spec_witness :
  exists m', hashmap_set (0, 0) pair_hash pair_compare pair_map (Some (5, 51)) all_mallocs
      = Ok (Some (5, 50), m') /\
    map_ok (0, 0) pair_hash fst pair_ok 0 0 m' (<[5 := (5, 51)]> (<[3 := (3, 31)]> (<[5 := (5, 50)]> ∅))) /\
    hashmap_oom m' = false.
Proof.
  destruct (hashmap_set_spec (0, 0) pair_hash pair_compare fst pair_ok 0 0 pair_map _ (5, 51) all_mallocs
              pair_laws pair_map_ok ltac:(unfold pair_ok; cbn; lia) ltac:(vm_compute; done)) as (m' & E1 & E2 & E3).
  exists m'. split_and!; [exact E1|exact E2|exact E3].
Defined.

Lemma hashmap_delete_spec_witness :
  exists m', hashmap_delete (0, 0) pair_hash pair_compare pair_map (Some (5, 0)) all_mallocs
      = Ok (Some (5, 50), m') /\
    hashmap_get pair_hash pair_compare m' (Some (5, 0)) = Ok None /\
    hashmap_get pair_hash pair_compare m' (Some (3, 0)) = Ok (Some (3, 31)).
Proof.
  destruct (hashmap_delete_spec (0, 0) pair_hash pair_compare fst pair_ok 0 0 pair_map _ (5, 0) all_mallocs
              pair_laws pair_map_ok ltac:(unfold pair_ok; cbn; lia)) as (m' & E & _ & Hget).
  exists m'. split_and!; [exact E|apply (Hget (5, 0)); unfold pair_ok; cbn; lia|apply (Hget (3, 0)); unfold pair_ok; cbn; lia].
Defined.

Lemma hashmap_scan_clear_spec_witness :
  exists m', hashmap_clear (0, 0) pair_map false all_mallocs = Ok m' /\ hashmap_count m' = 0 /\
    hashmap_get pair_hash pair_compare m' (Some (3, 0)) = Ok None.
Proof.
  destruct (hashmap_scan_clear_spec (0, 0) pair_hash pair_compare fst pair_ok 0 0 pair_map _ false all_mallocs
              pair_laws pair_map_ok) as (_ & m' & E & Hc & _ & Hget).
  exists m'. split_and!; [exact E|exact Hc|apply (Hget (3, 0)); unfold pair_ok; cbn; lia].
Defined.
