(* ===== verification/Mutex.v ===== *)
(** * The libc mutex (user/lib/libc/src/threads/c11_mutex.c)

    A mutex word taken with an atomic test-and-set, with an optional recursion
    count.  Threads run concurrently: every access to the mutex is one step,
    and the steps of any number of threads interleave freely.  [pc] says where
    in [mtx_lock], [mtx_trylock] or [mtx_unlock] a thread is; [held] counts the
    calls that returned with the lock less the calls of [mtx_unlock]. *)

From stdpp Require Import functions relations.
From S2P Require Import Prelude.

Definition thrd_error : Z := 0.
Definition thrd_success : Z := 1.
Definition thrd_busy : Z := 3.
Definition mtx_plain : Z := 1.
Definition mtx_recursive : Z := 16.

(** [thread] is the address of the owner's thread block, zero for [NULL]. *)
Record mtx_t := Mtx { flag : Z; recursive : bool; thread : Z; recursion : Z }.

Definition mtx_init (type : Z) : Z * option mtx_t :=
  if negb (type =? mtx_plain) && negb (type =? Z.lor mtx_plain mtx_recursive)
  then (thrd_error, None)
  else (thrd_success, Some (Mtx 0 (negb (Z.land type mtx_recursive =? 0)) 0 0)).

(** ** One access at a time *)

Inductive pc :=
| Idle                   (* outside the mutex functions *)
| LockTas                (* mtx_lock, at the test-and-set *)
| LockCount              (* mtx_lock, at [recursion++] *)
| LockOwner              (* mtx_lock, at [thread = me] *)
| LockLoad               (* mtx_lock, at the load of the owner *)
| LockSpin (owner : Z)   (* mtx_lock, in [while(owner != me)] *)
| LockAdd                (* mtx_lock, at the add to [recursion] *)
| TryTas                 (* mtx_trylock, at the test-and-set *)
| UnlockSub              (* mtx_unlock, at the first access *)
| UnlockOwner            (* mtx_unlock, at [thread = NULL] *)
| UnlockFlag.            (* mtx_unlock, at the release of the flag *)

Record thr := Thr { at_ : pc; held : Z }.

(** The next access of thread [me], which is inside a function of the mutex. *)
Definition mtx_access (me : Z) (t : thr) (m : mtx_t) : thr * mtx_t :=
  let taken := Mtx 1 (recursive m) (thread m) (recursion m) in
  match at_ t with
  | Idle => (t, m)
  | LockTas =>
      if flag m =? 0 then
        if recursive m then (Thr LockCount (held t), taken) else (Thr Idle (held t + 1), taken)
      else if recursive m then (Thr LockLoad (held t), taken) else (Thr LockTas (held t), taken)
  | LockCount =>
      (Thr LockOwner (held t), Mtx (flag m) (recursive m) (thread m) (s32 (recursion m + 1)))
  | LockOwner => (Thr Idle (held t + 1), Mtx (flag m) (recursive m) me (recursion m))
  | LockLoad => (Thr (LockSpin (thread m)) (held t), m)
  | LockSpin owner => (Thr (if negb (owner =? me) then LockSpin owner else LockAdd) (held t), m)
  | LockAdd =>
      (Thr Idle (held t + 1), Mtx (flag m) (recursive m) (thread m) (s32 (recursion m + 1)))
  | TryTas => (Thr Idle (if flag m =? 0 then held t + 1 else held t), taken)
  | UnlockSub =>
      if recursive m then
        let r := s32 (recursion m - 1) in
        (Thr (if r =? 0 then UnlockOwner else Idle) (held t), Mtx (flag m) (recursive m) (thread m) r)
      else (Thr Idle (held t), Mtx 0 (recursive m) (thread m) (recursion m))
  | UnlockOwner => (Thr UnlockFlag (held t), Mtx (flag m) (recursive m) 0 (recursion m))
  | UnlockFlag => (Thr Idle (held t), Mtx 0 (recursive m) (thread m) (recursion m))
  end.

(** ** Interleavings *)

Record state := State { mtx : mtx_t; threads : Z -> thr }.

(** [SCall]s enter a function: [mtx_lock] at any time (nested fewer than [2^31]
    times), [mtx_unlock] only with the lock held, [mtx_trylock] only on a plain
    mutex. *)
Inductive step : state -> state -> Prop :=
| SLock me s :
    me <> 0 -> at_ (threads s me) = Idle -> held (threads s me) < 2 ^ 31 - 2 ->
    step s (State (mtx s) (<[me := Thr LockTas (held (threads s me))]> (threads s)))
| STry me s :
    me <> 0 -> at_ (threads s me) = Idle -> recursive (mtx s) = false ->
    step s (State (mtx s) (<[me := Thr TryTas (held (threads s me))]> (threads s)))
| SUnlock me s :
    me <> 0 -> at_ (threads s me) = Idle -> 0 < held (threads s me) ->
    step s (State (mtx s) (<[me := Thr UnlockSub (held (threads s me) - 1)]> (threads s)))
| SAccess me s t' m' :
    at_ (threads s me) <> Idle -> mtx_access me (threads s me) (mtx s) = (t', m') ->
    step s (State m' (<[me := t']> (threads s))).

Definition initial (m : mtx_t) : state := State m (fun _ => Thr Idle 0).

Definition reachable (type : Z) (s : state) : Prop :=
  exists m, mtx_init type = (thrd_success, Some m) /\ rtc step (initial m) s.

(** ** The invariant *)

Definition owns (t : thr) : Prop :=
  0 < held t \/ match at_ t with LockCount | LockOwner | UnlockSub | UnlockOwner | UnlockFlag => True | _ => False end.

(** What the count and the owner field hold while a thread owns the mutex. *)
Definition owner_view (me : Z) (t : thr) (m : mtx_t) : Prop :=
  if recursive m then
    match at_ t with
    | LockCount => held t = 0 /\ thread m = 0 /\ recursion m = 0
    | LockOwner => held t = 0 /\ thread m = 0 /\ recursion m = 1
    | UnlockSub => thread m = me /\ recursion m = held t + 1
    | UnlockOwner => held t = 0 /\ thread m = me /\ recursion m = 0
    | UnlockFlag => held t = 0 /\ thread m = 0 /\ recursion m = 0
    | TryTas => False
    | LockSpin o => o = me /\ thread m = me /\ recursion m = held t
    | _ => thread m = me /\ recursion m = held t
    end
  else
    match at_ t with
    | UnlockSub => held t = 0
    | Idle | LockTas | TryTas => held t = 1
    | _ => False
    end.

Definition other_view (me : Z) (t : thr) (m : mtx_t) : Prop :=
  held t = 0 /\
  match at_ t with
  | Idle | LockTas => True
  | LockLoad => recursive m = true
  | LockSpin o => recursive m = true /\ o <> me
  | TryTas => recursive m = false
  | _ => False
  end.

Record inv (s : state) : Prop := {
  i_flag : flag (mtx s) = 0 \/ flag (mtx s) = 1;
  i_zero : threads s 0 = Thr Idle 0;
  i_held : forall t, 0 <= held (threads s t) < 2 ^ 31 - 1;
  i_lock : forall t, at_ (threads s t) <> Idle -> at_ (threads s t) <> UnlockSub -> held (threads s t) < 2 ^ 31 - 2;
  i_free : flag (mtx s) = 0 -> thread (mtx s) = 0 /\ recursion (mtx s) = 0 /\
             forall t, other_view t (threads s t) (mtx s);
  i_taken : flag (mtx s) <> 0 -> exists o, o <> 0 /\ owns (threads s o) /\
             owner_view o (threads s o) (mtx s) /\
             (recursive (mtx s) = false -> thread (mtx s) = 0 /\ recursion (mtx s) = 0) /\
             forall t, t <> o -> other_view t (threads s t) (mtx s)
}.

Lemma init_inv type m : mtx_init type = (thrd_success, Some m) -> inv (initial m).
Proof.
  unfold mtx_init. destruct (_ && _); [done|]. intros [= <-].
  split; cbn; try done; intros; mlia.
Qed.

(** The view of the other threads does not depend on the count and owner. *)
Lemma other_view_mtx me t m m' :
  recursive m' = recursive m -> other_view me t m -> other_view me t m'.
Proof. unfold other_view. by intros ->. Qed.

Ltac upd :=
  repeat match goal with
  | |- context [<[?a := _]> ?f ?b] =>
      destruct (decide (a = b)); [subst; rewrite fn_lookup_insert|rewrite fn_lookup_insert_ne by done]
  | H : context [<[?a := _]> ?f ?b] |- _ =>
      destruct (decide (a = b)); [subst; rewrite fn_lookup_insert in H|rewrite fn_lookup_insert_ne in H by done]
  end.

(** A step of the owner, or of a thread that takes the free mutex. *)
Lemma inv_owner s me t' m' :
  inv s -> me <> 0 -> flag m' = 1 -> recursive m' = recursive (mtx s) ->
  0 <= held t' < 2 ^ 31 - 1 -> (at_ t' <> Idle -> at_ t' <> UnlockSub -> held t' < 2 ^ 31 - 2) ->
  owns t' -> owner_view me t' m' ->
  (recursive m' = false -> thread m' = 0 /\ recursion m' = 0) ->
  (flag (mtx s) = 0 \/ owns (threads s me)) ->
  inv (State m' (<[me := t']> (threads s))).
Proof.
  intros I Hme Hf Hr Hh Hl Ho Hv Hp Hcase.
  assert (forall t, t <> me -> other_view t (threads s t) (mtx s)) as Hoth.
  { destruct (decide (flag (mtx s) = 0)) as [F|F]; [intros; by apply I|].
    destruct Hcase as [?|Hcase]; [done|]. destruct (i_taken _ I F) as (o & ? & ? & ? & ? & Hoth).
    assert (o = me) as ->; [|done]. destruct (decide (o = me)); [done|].
    specialize (Hoth me ltac:(done)). unfold owns, other_view in *. destruct Hoth as [? Hoth].
    destruct Hcase as [?|Hcase]; [lia|]. by destruct (at_ (threads s me)). }
  split; cbn.
  - by right.
  - rewrite fn_lookup_insert_ne by done. apply I.
  - intros t. upd; [done|apply I].
  - intros t. upd; [done|apply I].
  - by rewrite Hf.
  - intros _. exists me. rewrite fn_lookup_insert. split_and!; [done..|].
    intros t Ht. rewrite fn_lookup_insert_ne by done. eapply other_view_mtx; [done|by apply Hoth].
Qed.

(** A step of a thread that does not own the mutex and leaves it as it is. *)
Lemma inv_other s me t' :
  inv s -> me <> 0 -> other_view me (threads s me) (mtx s) -> other_view me t' (mtx s) ->
  inv (State (mtx s) (<[me := t']> (threads s))).
Proof.
  intros I Hme Hold Hnew. split; cbn.
  - apply I.
  - rewrite fn_lookup_insert_ne by done. apply I.
  - intros t. upd; [destruct Hnew; mlia|apply I].
  - intros t. upd; [destruct Hnew; mlia|apply I].
  - intros F. destruct (i_free _ I F) as (? & ? & ?). split_and!; try done. intros t. upd; [done|auto].
  - intros F. destruct (i_taken _ I F) as (o & ? & Ho & Hv & ? & Hoth).
    assert (o <> me).
    { intros ->. unfold owns, other_view in *. destruct Hold as [? Hold]. destruct Ho as [?|Ho]; [lia|].
      by destruct (at_ (threads s me)). }
    exists o. rewrite fn_lookup_insert_ne by done. split_and!; try done. intros t ?. upd; auto.
Qed.

(** The owner lets go. *)
Lemma inv_release s me m' :
  inv s -> me <> 0 -> owns (threads s me) -> flag m' = 0 -> recursive m' = recursive (mtx s) ->
  thread m' = 0 -> recursion m' = 0 ->
  inv (State m' (<[me := Thr Idle 0]> (threads s))).
Proof.
  intros I Hme Ho Hf Hr Ht Hc.
  assert (flag (mtx s) <> 0) as F.
  { intros F. destruct (i_free _ I F) as (_ & _ & Hoth). destruct (Hoth me) as [? Hat].
    destruct Ho as [?|Ho]; [lia|]. by destruct (at_ (threads s me)). }
  destruct (i_taken _ I F) as (o & ? & Hoo & ? & ? & Hoth).
  assert (o = me) as ->.
  { destruct (decide (o = me)); [done|]. destruct (Hoth me ltac:(done)) as [? Hat].
    destruct Ho as [?|Ho]; [lia|]. by destruct (at_ (threads s me)). }
  split; cbn.
  - by left.
  - rewrite fn_lookup_insert_ne by done. apply I.
  - intros t. upd; [cbn; mlia|apply I].
  - intros t. upd; [done|apply I].
  - intros _. split_and!; [done..|]. intros t. upd; [done|].
    eapply other_view_mtx; [done|]. by apply Hoth.
  - done.
Qed.

Lemma inv_cases s me :
  inv s -> other_view me (threads s me) (mtx s) \/
    (flag (mtx s) <> 0 /\ owns (threads s me) /\ owner_view me (threads s me) (mtx s) /\
     (recursive (mtx s) = false -> thread (mtx s) = 0 /\ recursion (mtx s) = 0)).
Proof.
  intros I. destruct (decide (flag (mtx s) = 0)) as [F|F].
  - left. by apply I.
  - destruct (i_taken _ I F) as (o & ? & ? & ? & ? & Hoth).
    destruct (decide (me = o)) as [->|]; [by right|left; auto].
Qed.

Lemma taken_id m : flag m = 1 -> Mtx 1 (recursive m) (thread m) (recursion m) = m.
Proof. destruct m; cbn. by intros ->. Qed.

Lemma access_other me s t' m' :
  inv s -> me <> 0 -> other_view me (threads s me) (mtx s) -> at_ (threads s me) <> Idle ->
  mtx_access me (threads s me) (mtx s) = (t', m') -> inv (State m' (<[me := t']> (threads s))).
Proof.
  intros I Hme Hoth Hi E. pose proof Hoth as [Hh Hat]. unfold mtx_access in E. rewrite Hh in E.
  pose proof (i_flag _ I) as Hf.
  destruct (at_ (threads s me)) eqn:Ep; try done.
  - destruct Hf as [F|F]; rewrite F in E; cbn in E.
    + destruct (i_free _ I F) as (Ht & Hr & _). rewrite Ht, Hr in E.
      destruct (recursive (mtx s)) eqn:Er; injection E as <- <-;
        (eapply (inv_owner s me _ _ I)); cbn; try done; try mlia; auto;
        unfold owns, owner_view; cbn; auto; lia.
    + rewrite taken_id in E by done.
      destruct (recursive (mtx s)) eqn:Er; injection E as <- <-; apply inv_other; done.
  - injection E as <- <-. apply inv_other; try done. split; [done|]. cbn. split; [done|].
    destruct Hf as [F|F].
    + destruct (i_free _ I F) as (-> & _). done.
    + destruct (i_taken _ I) as (o & ? & Ho & Hv & _ & Hot); [by rewrite F|].
      assert (o <> me).
      { intros ->. unfold owns in Ho. rewrite Ep in Ho. destruct Ho; [lia|done]. }
      unfold owner_view in Hv. rewrite Hat in Hv. destruct (at_ (threads s o)); naive_solver.
  - destruct Hat as [Er Hne]. rewrite (proj2 (Z.eqb_neq owner me)) in E by done.
    injection E as <- <-. apply inv_other; done.
  - destruct Hf as [F|F]; rewrite F in E; cbn in E; injection E as <- <-.
    + destruct (i_free _ I F) as (Ht & Hr & _). rewrite Ht, Hr, Hat.
      (eapply (inv_owner s me _ _ I)); cbn; try done; try mlia; auto;
        unfold owns, owner_view; cbn; auto; lia.
    + rewrite taken_id by done. apply inv_other; done.
Qed.

(** The count stays in the range of [int]. *)
Lemma s32_small z : - 2 ^ 31 <= z < 2 ^ 31 -> s32 z = z.
Proof. intros. apply swrap_small; [lia|done]. Qed.

Ltac owner_goal :=
  first [ done | congruence | mlia | (intros; mlia) | by right
        | (intros; congruence) | (intros; by split)
        | (unfold owns; cbn; first [left; lia | by right])
        | (unfold owner_view; cbn;
           repeat match goal with H : recursive _ = _ |- _ => rewrite H; clear H end;
           split_and?; first [done | congruence | lia]) ].

Lemma access_owner me s t' m' :
  inv s -> me <> 0 -> flag (mtx s) <> 0 -> owns (threads s me) ->
  owner_view me (threads s me) (mtx s) ->
  (recursive (mtx s) = false -> thread (mtx s) = 0 /\ recursion (mtx s) = 0) ->
  at_ (threads s me) <> Idle ->
  mtx_access me (threads s me) (mtx s) = (t', m') -> inv (State m' (<[me := t']> (threads s))).
Proof.
  intros I Hme Hf Ho Hv Hp Hi E. pose proof (i_flag _ I) as [F|F]; [done|].
  pose proof (i_held _ I me) as Hh. pose proof (i_lock _ I me Hi) as Hl.
  unfold mtx_access in E. unfold owner_view in Hv. rewrite F in E.
  rewrite taken_id in E by done.
  destruct (recursive (mtx s)) eqn:Er, (at_ (threads s me)) eqn:Ep; cbn in E; try done;
    repeat match goal with H : _ /\ _ |- _ => destruct H end.
  all: pose proof Ho as Hpos; unfold owns in Hpos; rewrite Ep in Hpos;
       try (destruct Hpos as [Hpos|[]]; []).
  all: try (specialize (Hl ltac:(done))).
  all: try match goal with H : recursion (mtx ?x) = _ |- _ => rewrite H in E end.
  all: rewrite ?s32_small in E by mlia.
  all: try (by injection E as <- <-; eapply inv_owner; cbn; eauto; owner_goal).
  - subst owner. rewrite Z.eqb_refl in E. injection E as <- <-.
    eapply inv_owner; cbn; eauto; owner_goal.
  - replace (held (threads s me) + 1 - 1) with (held (threads s me)) in E by lia.
    destruct (Z.eqb_spec (held (threads s me)) 0) as [Z0|Z0]; injection E as <- <-;
      eapply inv_owner; cbn; eauto; owner_goal.
  - injection E as <- <-. replace (held (threads s me)) with 0 by lia.
    apply inv_release; cbn; (done || congruence).
  - injection E as <- <-. replace (held (threads s me)) with 0 by lia.
    apply inv_release; cbn; (done || congruence || (by apply Hp)).
Qed.

Lemma step_inv s s' : inv s -> step s s' -> inv s'.
Proof.
  intros I Hs. destruct Hs as [me s Hme Hi Hh|me s Hme Hi Hr|me s Hme Hi Hh|me s t' m' Hi E].
  4:{ assert (me <> 0) by (intros ->; by rewrite (i_zero _ I) in Hi).
      destruct (inv_cases s me I) as [Ho|(F & Ho & Hv & Hp)]; [by eapply access_other|by eapply access_owner]. }
  all: pose proof (i_flag _ I); pose proof (i_held _ I me);
    destruct (inv_cases s me I) as [Ho|(F & Ho & Hv & Hp)];
    try (by destruct Ho; exfalso; lia);
    try (by apply inv_other; [done..|]; destruct Ho; split).
  all: pose proof Ho as Hpos; unfold owns in Hpos; rewrite Hi in Hpos;
    destruct Hpos as [Hpos|[]]; unfold owner_view in Hv; rewrite Hi in Hv.
  all: destruct (recursive (mtx s)) eqn:Er; try done;
    repeat match goal with H : _ /\ _ |- _ => destruct H end;
    eapply inv_owner; cbn; eauto; owner_goal.
Qed.

Lemma reachable_inv type s : reachable type s -> inv s.
Proof.
  intros (m & Hm & Hr). apply init_inv in Hm.
  induction Hr as [|? ? ? Hs _ IH]; [done|]. apply IH. by eapply step_inv.
Qed.

Lemma rtc_recursive s s' : rtc step s s' -> recursive (mtx s') = recursive (mtx s).
Proof.
  induction 1 as [|s s1 s' Hs _ IH]; [done|]. rewrite IH. clear IH.
  destruct Hs as [| | |me s t' m' _ E]; try done. cbn. unfold mtx_access in E.
  destruct (at_ (threads s me)); repeat case_match; by injection E as <- <-.
Qed.

(** A schedule, executed. *)
Inductive action := ALock (me : Z) | AUnlock (me : Z) | AStep (me : Z).

Definition is_idle (t : thr) : bool := match at_ t with Idle => true | _ => false end.

Definition act (a : action) (s : state) : option state :=
  match a with
  | ALock me =>
      if negb (me =? 0) && is_idle (threads s me) && (held (threads s me) <? 2 ^ 31 - 2)
      then Some (State (mtx s) (<[me := Thr LockTas (held (threads s me))]> (threads s))) else None
  | AUnlock me =>
      if negb (me =? 0) && is_idle (threads s me) && (0 <? held (threads s me))
      then Some (State (mtx s) (<[me := Thr UnlockSub (held (threads s me) - 1)]> (threads s))) else None
  | AStep me =>
      if is_idle (threads s me) then None
      else let '(t, m) := mtx_access me (threads s me) (mtx s) in Some (State m (<[me := t]> (threads s)))
  end.

Lemma act_step a s s' : act a s = Some s' -> step s s'.
Proof.
  destruct a as [me|me|me]; cbn; intros E.
  - destruct (_ && _) eqn:C; [|done]. injection E as <-. unfold is_idle in C.
    apply SLock; [lia| |lia]. destruct (at_ (threads s me)); (done || lia).
  - destruct (_ && _) eqn:C; [|done]. injection E as <-. unfold is_idle in C.
    apply SUnlock; [lia| |lia]. destruct (at_ (threads s me)); (done || lia).
  - unfold is_idle in E. destruct (mtx_access _ _ _) as [t m] eqn:A.
    destruct (at_ (threads s me)) eqn:P; try done; injection E as <-; (apply SAccess; [congruence|done]).
Qed.

Fixpoint acts (l : list action) (s : state) : option state :=
  match l with [] => Some s | a :: l => s ← act a s; acts l s end.

Lemma acts_rtc l : forall s s', acts l s = Some s' -> rtc step s s'.
Proof.
  induction l as [|a l IH]; cbn; intros s s' E; [by injection E as ->|].
  apply bind_Some in E as (s1 & E1 & E2). eapply rtc_l; [by apply act_step with a|auto].
Qed.

(** ** Calls that no other thread interferes with *)

(** A thread that is alone runs its call to the end; a call that still waits
    after [fuel] accesses waits for ever, since nobody else changes the mutex. *)
Fixpoint mtx_run (fuel : nat) (me : Z) (t : thr) (m : mtx_t) : res (thr * mtx_t) :=
  match at_ t with
  | Idle => Ok (t, m)
  | _ =>
      match fuel with
      | O => Stuck
      | S fuel => let '(t, m) := mtx_access me t m in mtx_run fuel me t m
      end
  end.

Definition mtx_lock (me : Z) (m : mtx_t) : res (Z * mtx_t) :=
  '(_, m) ← mtx_run 4 me (Thr LockTas 0) m; Ok (thrd_success, m).
Definition mtx_trylock (me : Z) (m : mtx_t) : res (Z * mtx_t) :=
  '(t, m) ← mtx_run 1 me (Thr TryTas 0) m;
  Ok (if held t =? 0 then thrd_busy else thrd_success, m).
Definition mtx_unlock (me : Z) (m : mtx_t) : res (Z * mtx_t) :=
  '(_, m) ← mtx_run 3 me (Thr UnlockSub 0) m; Ok (thrd_success, m).

(** [call_once]: the flag before and after, and whether the function runs. *)
Definition call_once (flag : Z) : Z * bool :=
  if flag =? 0 then (65, true) else (flag, false).

Lemma plain_lock_free me m :
  recursive m = false -> flag m = 0 ->
  mtx_lock me m = Ok (thrd_success, Mtx 1 false (thread m) (recursion m)).
Proof. destruct m as [f r th rc]; cbn. by intros -> ->. Qed.
Lemma plain_unlock me m :
  recursive m = false -> mtx_unlock me m = Ok (thrd_success, Mtx 0 false (thread m) (recursion m)).
Proof. destruct m as [f r th rc]; cbn. by intros ->. Qed.

(** ** The properties *)

(** C32: in every interleaving of any number of threads, at most one thread holds
    the mutex, plain or recursive, and while it is held its flag is set. *)
Theorem mutex_mutual_exclusion type s t u :
  reachable type s -> 0 < held (threads s t) -> 0 < held (threads s u) ->
  t = u /\ flag (mtx s) = 1.
Proof.
  intros I%reachable_inv Ht Hu.
  destruct (i_flag _ I) as [F|F].
  { destruct (i_free _ I F) as (_ & _ & Ho). destruct (Ho t). lia. }
  destruct (i_taken _ I) as (o & _ & _ & _ & _ & Ho); [by rewrite F|]. split; [|done].
  destruct (decide (t = o)), (decide (u = o)); try congruence;
    [destruct (Ho u)|destruct (Ho t)|destruct (Ho t)]; (done || lia).
Qed.

(** The bookkeeping of a recursive mutex is exact: between calls the thread
    that holds it is the one named in the mutex, and the recursion count is the
    number of [mtx_unlock]s it still owes; when nobody holds the mutex and nobody
    is inside a call, the mutex is free again. *)
Theorem recursive_mutex_count s t :
  reachable (Z.lor mtx_plain mtx_recursive) s ->
  (0 < held (threads s t) -> at_ (threads s t) = Idle ->
   thread (mtx s) = t /\ recursion (mtx s) = held (threads s t)) /\
  ((forall u, held (threads s u) = 0 /\ at_ (threads s u) = Idle) ->
   mtx s = Mtx 0 true 0 0).
Proof.
  intros Hr. pose proof (reachable_inv _ _ Hr) as I.
  assert (recursive (mtx s) = true) as Er.
  { destruct Hr as (m & Hm & Hr). injection Hm as <-. by rewrite (rtc_recursive _ _ Hr). }
  split.
  - intros Ht Hi. destruct (inv_cases s t I) as [[? _]|(_ & _ & Hv & _)]; [lia|].
    unfold owner_view in Hv. by rewrite Er, Hi in Hv.
  - intros Hidle. destruct (i_flag _ I) as [F|F].
    + destruct (i_free _ I F) as (? & ? & _). destruct (mtx s); cbn in *. congruence.
    + destruct (i_taken _ I) as (o & _ & [?|Ho] & _); [by rewrite F|..].
      * destruct (Hidle o). lia.
      * destruct (Hidle o) as [_ E]. by rewrite E in Ho.
Qed.

(** Once a thread is waiting in [mtx_lock] for a recursive mutex that another
    thread held when it looked, it never gets the mutex: the owner is read once,
    before the loop, so the wait goes on after the mutex has become free.  The
    run below ends with the mutex free and thread 2 still waiting for it. *)
Theorem recursive_mutex_lost_wakeup :
  exists s, reachable (Z.lor mtx_plain mtx_recursive) s /\ mtx s = Mtx 0 true 0 0 /\
    at_ (threads s 2) = LockSpin 1 /\
    forall s', rtc step s s' -> at_ (threads s' 2) = LockSpin 1 /\ held (threads s' 2) = 0.
Proof.
  assert (forall s s', rtc step s s' -> at_ (threads s 2) = LockSpin 1 -> held (threads s 2) = 0 ->
            at_ (threads s' 2) = LockSpin 1 /\ held (threads s' 2) = 0) as Hspin.
  { induction 1 as [|s s1 s' Hs _ IH]; [done|]. intros Hp Hh. apply IH; clear IH;
    destruct Hs as [me s ? Hi|me s ? Hi|me s ? Hi|me s t' m' Hi E]; cbn;
    destruct (decide (me = 2)) as [->|]; rewrite ?fn_lookup_insert, ?fn_lookup_insert_ne by done; try congruence;
    unfold mtx_access in E; rewrite Hp, Hh in E; by injection E as <- <-. }
  set (m0 := Mtx 0 true 0 0).
  destruct (acts [ALock 1; AStep 1; AStep 1; AStep 1; ALock 2; AStep 2; AStep 2;
                  AUnlock 1; AStep 1; AStep 1; AStep 1] (initial m0)) as [s|] eqn:Ha; [|by vm_compute in Ha].
  assert (mtx s = m0 /\ threads s 2 = Thr (LockSpin 1) 0) as [Hm H2].
  { vm_compute in Ha. injection Ha as <-. done. }
  apply acts_rtc in Ha as Hr.
  exists s. rewrite H2. split_and!; [by exists m0|done..|].
  intros s' Hr'. apply (Hspin s s' Hr'); by rewrite H2.
Qed.

(** A recursive mutex taken with [mtx_trylock] is not released by
    [mtx_unlock]: the count goes from zero to minus one, the flag stays set and
    the next [mtx_lock] by anyone waits for ever. *)
Theorem recursive_trylock_never_released me you :
  me <> 0 -> you <> 0 ->
  exists m1 m2, mtx_trylock me (Mtx 0 true 0 0) = Ok (thrd_success, m1) /\
    mtx_unlock me m1 = Ok (thrd_success, m2) /\ flag m2 = 1 /\ mtx_lock you m2 = Stuck.
Proof.
  intros Hm Hy. exists (Mtx 1 true 0 0), (Mtx 1 true 0 (-1)). split_and!; try done.
  unfold mtx_lock. cbn. by destruct you.
Qed.

(** *** Witnesses *)

Lemma two_lock_run :
  exists s, reachable mtx_plain s /\ held (threads s 1) = 1 /\ at_ (threads s 2) = LockTas.
Proof.
  destruct (acts [ALock 1; AStep 1; ALock 2; AStep 2] (initial (Mtx 0 false 0 0))) as [s|] eqn:Ha;
    [|by vm_compute in Ha].
  exists s. split; [eexists; split; [reflexivity|by apply acts_rtc in Ha]|].
  vm_compute in Ha. injection Ha as <-. done.
Qed.

Lemma mutex_mutual_exclusion_witness :
  exists s, reachable mtx_plain s /\ 0 < held (threads s 1) /\ flag (mtx s) = 1.
Proof.
  destruct two_lock_run as (s & Hr & Hh & _). exists s. split_and!; [exact Hr|lia|].
  apply (mutex_mutual_exclusion mtx_plain s 1 1 Hr); lia.
Defined.

Lemma recursive_mutex_count_witness :
  reachable (Z.lor mtx_plain mtx_recursive) (initial (Mtx 0 true 0 0)) /\
  mtx (initial (Mtx 0 true 0 0)) = Mtx 0 true 0 0.
Proof.
  assert (reachable (Z.lor mtx_plain mtx_recursive) (initial (Mtx 0 true 0 0))) as Hr
    by (eexists; split; [reflexivity|apply rtc_refl]).
  split; [exact Hr|]. apply (recursive_mutex_count _ 1 Hr). intros u. split; reflexivity.
Defined.

Lemma recursive_trylock_never_released_witness :
  exists m1 m2, mtx_trylock 1 (Mtx 0 true 0 0) = Ok (thrd_success, m1) /\
    mtx_unlock 1 m1 = Ok (thrd_success, m2) /\ flag m2 = 1 /\ mtx_lock 2 m2 = Stuck.
Proof. apply (recursive_trylock_never_released 1 2); discriminate. Defined.
