(* ===== verification/Stdio.v ===== *)
(** * File descriptors and streams (user/lib/libc/src/file)

    The libc of the system has no kernel file descriptors: a descriptor is a
    number that a hash map translates to a stream object, and every descriptor
    call is a stream call.  A stream is an object with a table of operations;
    the two kinds are the buffered debug output stream and the stream of a file
    on the file server, which is reached by RPC.

    A [stream_t] lives in the heap under its address, so the descriptor map and
    the callers share it; a function pointer is the function it points to.
    [KVOps] stands for the hash map (Store.v), [FileServer] for the file server
    on the other side of librpc. *)

From S2P Require Import Prelude Store Hashmap HashFns Mutex.

Definition EBADF : Z := 9.
Definition ENODEV : Z := 19.
Definition ENOENT : Z := 2.
Definition EIO : Z := 5.
Definition EOF : Z := -1.
Definition STDERR_FILENO : Z := 2.
Definition SEEK_SET : Z := 0.
Definition SEEK_CUR : Z := 1.
Definition SEEK_END : Z := 2.
Definition O_RDONLY : Z := 0.
Definition O_WRONLY : Z := 1.
Definition O_RDWR : Z := 2.
Definition FILE_OPEN_READ : Z := 1.
Definition FILE_OPEN_WRITE : Z := 2.
Definition FILE_OPEN_CREATE : Z := 256.
Definition kBufLength : Z := 200.

(** The functions a stream's operation table can point to. *)
Inductive fnptr :=
| F_DebugTell | F_DebugOutFlush | F_DebugOutPutc | F_DebugOutPurge
| F_RpcFileGetPos | F_RpcFileSeek | F_RpcFileFlushPurgeNoOp | F_RpcFileRead | F_RpcFileClose.

(** What follows the common header of a stream. *)
Inductive stream_body :=
| DebugOutStream (bytesWritten bufUsed : Z) (buf : list Z)
| RpcFileStream (remoteHandle position length : Z).

Record stream_t := Stream {
  st_fd : Z;
  st_lock : mtx_t;
  st_close : option fnptr;
  st_putc : option fnptr;
  st_flush : option fnptr;
  st_purge : option fnptr;
  st_seek : option fnptr;
  st_tell : option fnptr;
  st_write : option fnptr;
  st_read : option fnptr;
  st_body : stream_body
}.

Definition set_fd (fd : Z) (s : stream_t) : stream_t :=
  Stream fd (st_lock s) (st_close s) (st_putc s) (st_flush s) (st_purge s)
    (st_seek s) (st_tell s) (st_write s) (st_read s) (st_body s).
Definition set_lock (l : mtx_t) (s : stream_t) : stream_t :=
  Stream (st_fd s) l (st_close s) (st_putc s) (st_flush s) (st_purge s)
    (st_seek s) (st_tell s) (st_write s) (st_read s) (st_body s).
Definition set_body (b : stream_body) (s : stream_t) : stream_t :=
  Stream (st_fd s) (st_lock s) (st_close s) (st_putc s) (st_flush s) (st_purge s)
    (st_seek s) (st_tell s) (st_write s) (st_read s) b.

(** An entry of the descriptor map: the number and the address of the stream,
    zero for [NULL]. *)
Record fd_map_entry := FdEntry { fe_key : Z; fe_stream : Z }.

Definition _HashmapSlotHash (e : fd_map_entry) (seed0 seed1 : Z) : Z :=
  hashmap_sip (le_bytes 4 (u32 (fe_key e))) seed0 seed1.
Definition _HashmapSlotCompare (a b : fd_map_entry) : Z := cbool (fe_key a <? fe_key b).

(** The file server: each call returns its result and the server's new state.
    [FileRead] gives its return value and the bytes it stored. *)
Class FileServer (S : Type) := {
  FileOpen : list Z -> Z -> S -> (Z * Z * Z) * S;
  FileRead : Z -> Z -> Z -> S -> (Z * list Z) * S;
  FileClose : Z -> S -> Z * S
}.

Section Operations.
Context {kvops : KVOps fd_map_entry} {Srv : Type} {server : FileServer Srv}.

(** The state of the library: [errno], the heap of streams and the next address
    it hands out, the descriptor map's state, the lines given to [DbgOut] so
    far, and the file server.  [g_nextFd] is an [int]. *)
Record world := World {
  errno : Z;
  heap : gmap Z stream_t;
  heap_next : Z;
  g_nextFd : Z;
  g_lock : mtx_t;
  g_entries : option kv;
  dbg_out : list (list Z);
  remote : Srv;
  w_stderr : Z
}.

(** Assignments to one field. *)
Definition upd_errno (e : Z) (w : world) : world :=
  World e (heap w) (heap_next w) (g_nextFd w) (g_lock w) (g_entries w) (dbg_out w) (remote w) (w_stderr w).
Definition upd_heap (h : gmap Z stream_t) (n : Z) (w : world) : world :=
  World (errno w) h n (g_nextFd w) (g_lock w) (g_entries w) (dbg_out w) (remote w) (w_stderr w).
Definition upd_nextFd (n : Z) (w : world) : world :=
  World (errno w) (heap w) (heap_next w) n (g_lock w) (g_entries w) (dbg_out w) (remote w) (w_stderr w).
Definition upd_glock (l : mtx_t) (w : world) : world :=
  World (errno w) (heap w) (heap_next w) (g_nextFd w) l (g_entries w) (dbg_out w) (remote w) (w_stderr w).
Definition upd_entries (e : option kv) (w : world) : world :=
  World (errno w) (heap w) (heap_next w) (g_nextFd w) (g_lock w) e (dbg_out w) (remote w) (w_stderr w).
Definition upd_dbg (line : list Z) (w : world) : world :=
  World (errno w) (heap w) (heap_next w) (g_nextFd w) (g_lock w) (g_entries w) (dbg_out w ++ [line]) (remote w) (w_stderr w).
Definition upd_remote (r : Srv) (w : world) : world :=
  World (errno w) (heap w) (heap_next w) (g_nextFd w) (g_lock w) (g_entries w) (dbg_out w) r (w_stderr w).
Definition upd_stderr (p : Z) (w : world) : world :=
  World (errno w) (heap w) (heap_next w) (g_nextFd w) (g_lock w) (g_entries w) (dbg_out w) (remote w) p.

Definition set_errno (e : Z) : st world () := smod (upd_errno e).
Definition set_heap (h : gmap Z stream_t) : st world () := smod (fun w => upd_heap h (heap_next w) w).
Definition set_nextFd (n : Z) : st world () := smod (upd_nextFd n).
Definition set_glock (l : mtx_t) : st world () := smod (upd_glock l).
Definition set_entries (e : option kv) : st world () := smod (upd_entries e).
Definition set_remote (r : Srv) : st world () := smod (upd_remote r).
Definition set_stderr (p : Z) : st world () := smod (upd_stderr p).
Definition DbgOut (line : list Z) : st world () := smod (upd_dbg line).

(** [calloc] gives an address that was never used before, or [NULL]; using an
    address that is not allocated is undefined. *)
Definition calloc (ok : bool) (s : stream_t) : st world Z :=
  if negb ok then mret 0
  else
    w ← sget;
    _ ← sput (upd_heap (<[heap_next w := s]> (heap w)) (heap_next w + 1) w);
    mret (heap_next w).
Definition free (p : Z) : st world () :=
  w ← sget;
  match heap w !! p with Some _ => set_heap (delete p (heap w)) | None => sstuck end.
Definition deref (p : Z) : st world stream_t :=
  w ← sget; slift (res_of (heap w !! p)).
Definition update (p : Z) (s : stream_t) : st world () :=
  w ← sget;
  match heap w !! p with Some _ => set_heap (<[p := s]> (heap w)) | None => sstuck end.

(** The calling thread. *)
Context (me : Z).

(** ** The descriptor map (fd/map.c) *)

Definition lock_map : st world () :=
  w ← sget;
  '(err, l) ← slift (mtx_lock me (g_lock w));
  _ ← set_glock l;
  if negb (err =? thrd_success) then sabort else mret ().
Definition unlock_map : st world () :=
  w ← sget;
  '(_, l) ← slift (mtx_unlock me (g_lock w));
  set_glock l.
Definition entries : st world kv := w ← sget; slift (res_of (g_entries w)).

Definition InitFdToStreamMap (mok : nat -> bool) : st world () :=
  _ ← set_nextFd (STDERR_FILENO + 1);
  let '(err, l) := mtx_init mtx_plain in
  _ ← (match l with Some l => set_glock l | None => mret () end);
  if negb (err =? thrd_success) then sabort
  else
    m ← slift (kv_new 0 mok);
    _ ← set_entries m;
    match m with None => sabort | Some _ => mret () end.

Definition RegisterFdStream (stream : Z) (allocateFd : bool) (mok : nat -> bool) : st world Z :=
  _ ← (if allocateFd then
         w ← sget;
         let num := s32 (g_nextFd w + 1) in
         _ ← set_nextFd num;
         if num <=? 0 then sabort
         else s ← deref stream; update stream (set_fd num s)
       else mret ());
  _ ← lock_map;
  s ← deref stream;
  m ← entries;
  '(ret, m) ← slift (kv_set m (FdEntry (st_fd s) stream) mok);
  _ ← set_entries (Some m);
  _ ← unlock_map;
  mret (if bool_decide (is_Some ret) || kv_oom m then -1 else 0).

Definition UnregisterFdStream (stream : Z) (mok : nat -> bool) : st world Z :=
  s ← deref stream;
  if st_fd s <? 0 then mret (-1)
  else
    _ ← lock_map;
    m ← entries;
    '(original, m) ← slift (kv_delete m (FdEntry (st_fd s) 0) mok);
    _ ← set_entries (Some m);
    _ ← unlock_map;
    mret (match original with None => 0 | Some _ => -1 end).

Definition ConvertFdToStream (fd : Z) : st world Z :=
  _ ← lock_map;
  m ← entries;
  found ← slift (kv_get m (FdEntry fd 0));
  _ ← unlock_map;
  mret (match found with Some e => fe_stream e | None => 0 end).

(** ** The debug output stream (default_streams.c) *)

Definition DebugTell (p : Z) : st world (Z * Z) :=
  s ← deref p;
  match st_body s with
  | DebugOutStream bytesWritten _ _ => mret (0, s64 bytesWritten)
  | _ => sstuck
  end.

(** [memset(buf, 0, n)] *)
Definition clear_prefix (n : Z) (buf : list Z) : list Z :=
  replicate (Z.to_nat n) 0 ++ drop (Z.to_nat n) buf.

Definition DebugOutFlush (p : Z) : st world Z :=
  s ← deref p;
  match st_body s with
  | DebugOutStream bytesWritten bufUsed buf =>
      if negb (bufUsed =? 0) then
        if Z.of_nat (length buf) <? bufUsed then sstuck
        else
          _ ← DbgOut (take (Z.to_nat bufUsed) buf);
          _ ← update p (set_body (DebugOutStream bytesWritten 0 (clear_prefix bufUsed buf)) s);
          mret 0
      else mret 0
  | _ => sstuck
  end.

Definition DebugOutPutc (p : Z) (c : Z) : st world Z :=
  s ← deref p;
  '(err, l) ← slift (mtx_lock me (st_lock s));
  _ ← update p (set_lock l s);
  if negb (err =? thrd_success) then mret EOF
  else
    s ← deref p;
    match st_body s with
    | DebugOutStream bytesWritten bufUsed buf =>
        _ ← update p (set_body (DebugOutStream (u64 (bytesWritten + 1)) bufUsed buf) s);
        _ ← (if bufUsed =? kBufLength then DebugOutFlush p else mret 0);
        _ ← (if c =? 10 then DebugOutFlush p
             else
               s ← deref p;
               match st_body s with
               | DebugOutStream bytesWritten bufUsed buf =>
                   buf ← slift (aset buf bufUsed c);
                   _ ← update p (set_body (DebugOutStream bytesWritten (u64 (bufUsed + 1)) buf) s);
                   mret 0
               | _ => sstuck
               end);
        s ← deref p;
        '(_, l) ← slift (mtx_unlock me (st_lock s));
        _ ← update p (set_lock l s);
        mret c
    | _ => sstuck
    end.

Definition DebugOutPurge (p : Z) : st world Z :=
  s ← deref p;
  match st_body s with
  | DebugOutStream bytesWritten bufUsed buf =>
      if negb (bufUsed =? 0) then
        if Z.of_nat (length buf) <? bufUsed then sstuck
        else
          _ ← update p (set_body (DebugOutStream bytesWritten 0 (clear_prefix bufUsed buf)) s);
          mret 0
      else mret 0
  | _ => sstuck
  end.

Definition zero_mtx : mtx_t := Mtx 0 false 0 0.

Definition __stdstream_init (ok : bool) (mok : nat -> bool) : st world () :=
  p ← calloc ok (Stream STDERR_FILENO zero_mtx None (Some F_DebugOutPutc) (Some F_DebugOutFlush)
                   (Some F_DebugOutPurge) None (Some F_DebugTell) None None
                   (DebugOutStream 0 0 (replicate (Z.to_nat kBufLength) 0)));
  if p =? 0 then sabort
  else
    err ← RegisterFdStream p false mok;
    if negb (err =? 0) then sabort else set_stderr p.

(** ** Files on the file server (rpc_file_streams.c) *)

Definition RpcFileGetPos (p : Z) : st world (Z * Z) :=
  s ← deref p;
  match st_body s with
  | RpcFileStream _ position _ => mret (0, s64 position)
  | _ => sstuck
  end.

(** [off] is a signed [long]; in the comparisons with the unsigned [length] it
    is converted to [uint64_t]. *)
Definition RpcFileSeek (p : Z) (off whence : Z) : st world Z :=
  s ← deref p;
  match st_body s with
  | RpcFileStream h position length =>
      let set pos := (_ ← update p (set_body (RpcFileStream h pos length) s); mret 0) in
      if whence =? SEEK_SET then
        if u64 off <? length then set (u64 off) else set length
      else if whence =? SEEK_CUR then
        if length <? u64 off then set length else set (u64 (position + off))
      else if whence =? SEEK_END then
        if u64 off <? length then set (u64 (length - off)) else set 0
      else mret (-1)
  | _ => sstuck
  end.

Definition RpcFileFlushPurgeNoOp (p : Z) : st world Z := mret 0.

Definition RpcFileRead (p : Z) (toRead : Z) : st world (Z * list Z) :=
  s ← deref p;
  match st_body s with
  | RpcFileStream h position length =>
      w ← sget;
      let '((err, data), r) := FileRead h position toRead (remote w) in
      _ ← set_remote r;
      _ ← (if 0 <? err then update p (set_body (RpcFileStream h (u64 (position + err)) length) s)
           else mret ());
      mret (err, data)
  | _ => sstuck
  end.

Definition RpcFileClose (p : Z) : st world Z :=
  s ← deref p;
  match st_body s with
  | RpcFileStream h _ _ =>
      w ← sget;
      let '(err, r) := FileClose h (remote w) in
      _ ← set_remote r;
      mret err
  | _ => sstuck
  end.

(** [memchr(mode, c, strlen(mode))] *)
Definition in_mode (c : Z) (mode : list Z) : bool := bool_decide (c ∈ mode).

Definition open_flags (mode : list Z) : Z * bool :=
  let '(flags, seekToEnd) :=
    if in_mode 114 mode then (FILE_OPEN_READ, false)
    else if in_mode 119 mode then (Z.lor FILE_OPEN_WRITE FILE_OPEN_CREATE, false)
    else if in_mode 97 mode then (Z.lor FILE_OPEN_WRITE FILE_OPEN_CREATE, true)
    else (0, false) in
  (if in_mode 43 mode then Z.lor flags (Z.lor FILE_OPEN_READ FILE_OPEN_WRITE) else flags, seekToEnd).

(** The result of [calloc] is used unchecked. *)
Definition __libc_rpc_file_open (path mode : list Z) (ok : bool) : st world Z :=
  let '(flags, seekToEnd) := open_flags mode in
  w ← sget;
  let '((err, handle, length), r) := FileOpen path flags (remote w) in
  _ ← set_remote r;
  if negb (err =? 0) then mret 0
  else
    p ← calloc ok (Stream 0 zero_mtx (Some F_RpcFileClose) None (Some F_RpcFileFlushPurgeNoOp)
                     (Some F_RpcFileFlushPurgeNoOp) (Some F_RpcFileSeek) (Some F_RpcFileGetPos) None
                     (Some F_RpcFileRead)
                     (RpcFileStream handle (if seekToEnd then length else 0) length));
    if p =? 0 then sstuck else mret p.

(** ** Calls through the operation table *)

Definition call_close (f : fnptr) (p : Z) : st world Z :=
  match f with F_RpcFileClose => RpcFileClose p | _ => sstuck end.
Definition call_putc (f : fnptr) (p c : Z) : st world Z :=
  match f with F_DebugOutPutc => DebugOutPutc p (s8 c) | _ => sstuck end.
Definition call_flush (f : fnptr) (p : Z) : st world Z :=
  match f with
  | F_DebugOutFlush => DebugOutFlush p
  | F_DebugOutPurge => DebugOutPurge p
  | F_RpcFileFlushPurgeNoOp => RpcFileFlushPurgeNoOp p
  | _ => sstuck
  end.
Definition call_seek (f : fnptr) (p off whence : Z) : st world Z :=
  match f with F_RpcFileSeek => RpcFileSeek p off whence | _ => sstuck end.
Definition call_tell (f : fnptr) (p : Z) : st world (Z * Z) :=
  match f with F_RpcFileGetPos => RpcFileGetPos p | F_DebugTell => DebugTell p | _ => sstuck end.
Definition call_read (f : fnptr) (p n : Z) : st world (Z * list Z) :=
  match f with F_RpcFileRead => RpcFileRead p n | _ => sstuck end.
(** No stream of the library has a [write] operation. *)
Definition call_write (f : fnptr) (p : Z) (data : list Z) : st world Z := sstuck.

Definition no_device {A} (a : A) : st world A := _ ← set_errno ENODEV; mret a.

(** ** The stream calls (fopen.c, fclose.c, fread.c, fwrite.c, fseek.c, fflush.c) *)

Definition fopen (path mode : list Z) (ok : bool) (mok : nat -> bool) : st world Z :=
  file ← __libc_rpc_file_open path mode ok;
  if negb (file =? 0) then
    err ← RegisterFdStream file true mok;
    if negb (err =? 0) then sabort else mret file
  else
    _ ← set_errno ENOENT;
    mret 0.

Definition fileno (p : Z) : st world Z := s ← deref p; mret (st_fd s).
Definition fdopen (filedes : Z) (mode : list Z) : st world Z := ConvertFdToStream filedes.

Definition fclose (p : Z) (mok : nat -> bool) : st world Z :=
  _ ← UnregisterFdStream p mok;
  s ← deref p;
  err ← (match st_close s with Some f => call_close f p | None => mret 0 end);
  _ ← free p;
  mret err.

(** The result is a [size_t]. *)
Definition fread (size nitems : Z) (p : Z) : st world (Z * list Z) :=
  s ← deref p;
  match st_read s with
  | Some f => '(n, data) ← call_read f p (u64 (size * nitems)); mret (u64 n, data)
  | None => no_device (u64 (-1), [])
  end.

(** A character that was never stored has no value. *)
Definition fgetc (p : Z) : st world Z :=
  s ← deref p;
  match st_read s with
  | Some f =>
      '(n, data) ← call_read f p 1;
      if 0 <? n then mret EOF
      else match data with ch :: _ => mret (s8 ch) | [] => sstuck end
  | None => no_device EOF
  end.
Definition getc (p : Z) : st world Z := fgetc p.

Definition fputc (ch p : Z) : st world Z :=
  s ← deref p;
  match st_putc s, st_write s with
  | Some f, _ => call_putc f p ch
  | None, Some f => call_write f p [u8 ch]
  | None, None => no_device (-1)
  end.
Definition putc (ch p : Z) : st world Z := fputc ch p.

(** The string is its characters before the terminator. *)
Fixpoint fputs_loop (str : list Z) (p i : Z) : st world Z :=
  match str with
  | [] => mret i
  | c :: str =>
      err ← fputc c p;
      if err <? 0 then mret err else fputs_loop str p (i + 1)
  end.
Definition fputs (str : list Z) (p : Z) : st world Z := fputs_loop str p 0.

Definition fwrite (data : list Z) (size nitems : Z) (p : Z) : st world Z :=
  s ← deref p;
  match st_write s with
  | Some f => n ← call_write f p (take (Z.to_nat (u64 (size * nitems))) data); mret (u64 n)
  | None => no_device (u64 (-1))
  end.

Definition fseek (p off whence : Z) : st world Z :=
  s ← deref p;
  match st_seek s with Some f => call_seek f p off whence | None => no_device (-1) end.
Definition fseeko (p off whence : Z) : st world Z :=
  s ← deref p;
  match st_seek s with Some f => call_seek f p off whence | None => no_device (-1) end.
Definition ftell (p : Z) : st world Z :=
  s ← deref p;
  match st_tell s with
  | Some f => '(err, ret) ← call_tell f p; mret (if 0 <=? err then ret else err)
  | None => no_device (-1)
  end.
Definition ftello (p : Z) : st world Z :=
  s ← deref p;
  match st_tell s with
  | Some f => '(err, ret) ← call_tell f p; mret (if 0 <=? err then ret else err)
  | None => no_device (-1)
  end.

(** The operation pointers are called unchecked. *)
Definition fflush (p : Z) : st world Z :=
  if p =? 0 then mret (-1)
  else
    s ← deref p;
    match st_flush s with Some f => call_flush f p | None => sstuck end.
Definition fpurge (p : Z) : st world Z :=
  s ← deref p;
  match st_purge s with Some f => call_flush f p | None => sstuck end.

(** ** The descriptor calls (fd/) *)

Definition bad_fd {A} (a : A) : st world A := _ ← set_errno EBADF; mret a.

Definition close (filedes : Z) (mok : nat -> bool) : st world Z :=
  fp ← ConvertFdToStream filedes;
  if fp =? 0 then bad_fd (-1) else fclose fp mok.

Definition open_mode (oflag : Z) : list Z :=
  if negb (Z.land oflag O_RDWR =? 0) then [119; 43]
  else if negb (Z.land oflag O_RDONLY =? 0) then [114; 32]
  else if negb (Z.land oflag O_WRONLY =? 0) then [119; 32]
  else [32; 32].

Definition open (path : list Z) (oflag : Z) (ok : bool) (mok : nat -> bool) : st world Z :=
  f ← fopen path (open_mode oflag) ok mok;
  if f =? 0 then _ ← set_errno ENOENT; mret (-1)
  else fileno f.

Definition read (filedes nbyte : Z) : st world (Z * list Z) :=
  fp ← ConvertFdToStream filedes;
  if fp =? 0 then bad_fd (-1, [])
  else
    s ← deref fp;
    match st_read s with Some f => call_read f fp nbyte | None => no_device (-1, []) end.

Definition write (filedes : Z) (buf : list Z) : st world Z :=
  fp ← ConvertFdToStream filedes;
  if fp =? 0 then bad_fd (-1)
  else
    s ← deref fp;
    match st_write s with Some f => call_write f fp buf | None => no_device (-1) end.

Definition lseek (filedes offset whence : Z) : st world Z :=
  fp ← ConvertFdToStream filedes;
  if fp =? 0 then bad_fd (-1) else fseeko fp offset whence.

Definition fstat (filedes : Z) : st world Z :=
  fp ← ConvertFdToStream filedes;
  if fp =? 0 then bad_fd (-1) else _ ← set_errno EIO; mret (-1).

(** The vectored calls print a message on [stderr] and fail. *)
Definition readv (filedes : Z) (name : list Z) : st world Z :=
  fp ← ConvertFdToStream filedes;
  if fp =? 0 then bad_fd (-1)
  else w ← sget; _ ← fputs (name ++ [32; 117; 110; 105; 109; 112; 108; 101; 109; 101; 110; 116; 101; 100; 10]) (w_stderr w); mret (-1).
Definition writev (filedes : Z) (name : list Z) : st world Z :=
  fp ← ConvertFdToStream filedes;
  if fp =? 0 then bad_fd (-1)
  else w ← sget; _ ← fputs (name ++ [32; 117; 110; 105; 109; 112; 108; 101; 109; 101; 110; 116; 101; 100; 10]) (w_stderr w); mret (-1).

End Operations.

(** ** What the descriptor map promises *)

#[local] Arguments RegisterFdStream : simpl never.
#[local] Arguments UnregisterFdStream : simpl never.
#[local] Arguments ConvertFdToStream : simpl never.
#[local] Arguments fopen : simpl never.
#[local] Arguments fclose : simpl never.
#[local] Arguments DebugOutFlush : simpl never.
#[local] Arguments DebugOutPutc : simpl never.
#[local] Arguments fputc : simpl never.

Section Proofs.
Context {kvops : KVOps fd_map_entry} {Srv : Type} {server : FileServer Srv}.
Context {room : nat} {fd_max : Z}.
Definition fd_ok (n : Z) (e : fd_map_entry) : Prop := 0 <= fe_key e < n.
Context {laws : KVLaws kvops fe_key (fd_ok fd_max) room} (me : Z).

(** [M] is the descriptor table: every entry leads to a live stream that knows
    its number; numbers handed out later are larger than every number in use. *)
Record fd_inv (w : world (Srv := Srv)) (M : gmap Z fd_map_entry) : Prop := {
  fi_lock : g_lock w = zero_mtx;
  fi_entries : exists m, g_entries w = Some m /\ kv_rep m M;
  fi_next : 0 <= g_nextFd w;
  fi_key : forall k e, M !! k = Some e -> fe_key e = k /\ k <= g_nextFd w /\ fe_stream e <> 0 /\
             exists s, heap w !! fe_stream e = Some s /\ st_fd s = k;
  fi_heap : forall p s, heap w !! p = Some s -> 0 < p < heap_next w;
  fi_heap_next : 0 < heap_next w
}.

(** The number-to-address view of the table. *)
Definition stream_of (M : gmap Z fd_map_entry) (fd : Z) : Z :=
  match M !! fd with Some e => fe_stream e | None => 0 end.

Lemma lock_map_ok (w : world (Srv := Srv)) : g_lock w = zero_mtx ->
  lock_map me w = Ok ((), upd_glock (Mtx 1 false 0 0) w).
Proof. intros E. unfold lock_map, sget, mbind, st_bind, slift. by rewrite E. Qed.

Lemma unlock_map_ok (w : world (Srv := Srv)) : g_lock w = Mtx 1 false 0 0 ->
  unlock_map me w = Ok ((), upd_glock zero_mtx w).
Proof. intros E. unfold unlock_map, sget, mbind, st_bind, slift. by rewrite E. Qed.

Lemma upd_glock_id (w : world (Srv := Srv)) : g_lock w = zero_mtx -> upd_glock zero_mtx w = w.
Proof. destruct w; cbn. by intros ->. Qed.

(** Running a bind. *)
Lemma st_bind_ok {W A B} (m : st W A) (f : A -> st W B) w a w' :
  m w = Ok (a, w') -> (x ← m; f x) w = f a w'.
Proof. intros E. unfold mbind, st_bind. by rewrite E. Qed.

Lemma ConvertFdToStream_ok (w : world (Srv := Srv)) M fd :
  fd_inv w M -> 0 <= fd < fd_max -> ConvertFdToStream me fd w = Ok (stream_of M fd, w).
Proof.
  intros [Hl (m & Hm & Hrep) ? ? ? ?] Hfd. unfold ConvertFdToStream.
  erewrite st_bind_ok by by apply lock_map_ok.
  unfold entries. unfold mbind, st_bind, sget, slift at 1 2. cbn. rewrite Hm. cbn.
  unfold slift. rewrite (kv_get_law m M (FdEntry fd 0) Hrep Hfd). cbn.
  unfold stream_of. destruct w; cbn in *. by subst.
Qed.

(** Symbolic execution: unfolds the monad and the field assignments. *)
Ltac sx :=
  unfold set_errno, set_heap, set_nextFd, set_glock, set_entries, set_remote, set_stderr, DbgOut,
    no_device, bad_fd, free, deref, update, lock_map, unlock_map, entries in *;
  unfold mbind, st_bind, mret, st_ret, sget, sput, smod, slift, sstuck, sabort in *; cbn.

Lemma RegisterFdStream_ok (w : world (Srv := Srv)) M p s (allocateFd : bool) mok :
  fd_inv w M -> heap w !! p = Some s -> (size M <= room)%nat ->
  let fd := if allocateFd then g_nextFd w + 1 else st_fd s in
  0 <= fd < Z.min fd_max (2 ^ 31) -> fd <= g_nextFd w + 1 ->
  exists (m' : kv) (oom : bool),
    RegisterFdStream me p allocateFd mok w =
      Ok (if bool_decide (is_Some (M !! fd)) || oom then -1 else 0,
          upd_entries (Some m') (upd_heap (<[p := set_fd fd s]> (heap w)) (heap_next w)
            (upd_nextFd (if allocateFd then fd else g_nextFd w) w))) /\
    kv_rep m' (if oom then M else <[fd := FdEntry fd p]> M) /\
    (mok 0%nat && mok 1%nat = true -> oom = false).
Proof.
  intros [Hl (m & Hm & Hrep) Hn Hk Hh Hhn] Hp Hsz fd Hfd Hle.
  destruct (kv_set_law m M (FdEntry fd p) mok Hrep) as (oom & m' & Hset & Hrep' & Hoom & Hmok); [unfold fd_ok; cbn; lia|done|].
  exists m', oom. split; [|done]. unfold RegisterFdStream.
  assert (set_fd (st_fd s) s = s) as Hid by by destruct s.
  destruct allocateFd; subst fd.
  - assert (s32 (g_nextFd w + 1) = g_nextFd w + 1) as Hs32 by (apply s32_small; mlia).
    sx. rewrite Hs32. replace (g_nextFd w + 1 <=? 0) with false by lia.
    sx. rewrite Hp. sx. rewrite Hp. sx. rewrite Hl. sx. rewrite lookup_insert_eq. sx. rewrite Hm. sx.
    cbn in Hset. rewrite Hset. sx. rewrite Hoom. destruct w, oom; cbn in *; subst; rewrite ?orb_true_r; done.
  - sx. rewrite Hl. sx. rewrite Hp. sx. rewrite Hm. sx. cbn in Hset. rewrite Hset. sx. rewrite Hoom, Hid.
    rewrite (insert_id (heap w)) by done. destruct w, oom; cbn in *; subst; rewrite ?orb_true_r; done.
Qed.

Lemma UnregisterFdStream_ok (w : world (Srv := Srv)) M p s mok :
  fd_inv w M -> heap w !! p = Some s -> 0 <= st_fd s < fd_max ->
  exists m' : kv,
    UnregisterFdStream me p mok w =
      Ok (if bool_decide (is_Some (M !! st_fd s)) then -1 else 0, upd_entries (Some m') w) /\
    kv_rep m' (delete (st_fd s) M).
Proof.
  intros [Hl (m & Hm & Hrep) Hn Hk Hh Hhn] Hp Hfd.
  destruct (kv_delete_law m M (FdEntry (st_fd s) 0) mok Hrep) as (m' & Hdel & Hrep'); [done|].
  exists m'. split; [|done]. unfold UnregisterFdStream. sx. rewrite Hp. sx.
  replace (st_fd s <? 0) with false by lia. sx. rewrite Hl. sx. rewrite Hm. sx. rewrite Hdel. sx.
  destruct w; cbn in *; subst. by destruct (M !! st_fd s).
Qed.

(** The stream that opening a file creates. *)
Definition rpc_stream (fd handle position length : Z) : stream_t :=
  Stream fd zero_mtx (Some F_RpcFileClose) None (Some F_RpcFileFlushPurgeNoOp)
    (Some F_RpcFileFlushPurgeNoOp) (Some F_RpcFileSeek) (Some F_RpcFileGetPos) None
    (Some F_RpcFileRead) (RpcFileStream handle position length).

Lemma fd_inv_fresh (w : world (Srv := Srv)) M :
  fd_inv w M -> M !! (g_nextFd w + 1) = None.
Proof.
  intros I. destruct (M !! (g_nextFd w + 1)) as [e|] eqn:E; [|done].
  destruct (fi_key _ _ I _ _ E). lia.
Qed.

(** The table after opening a file as descriptor [g_nextFd w + 1]. *)
Definition opened (m : kv) (r : Srv) (s : stream_t) (w : world (Srv := Srv)) : world (Srv := Srv) :=
  upd_entries (Some m) (upd_heap (<[heap_next w := s]> (heap w)) (heap_next w + 1)
    (upd_nextFd (g_nextFd w + 1) (upd_remote r w))).

Lemma opened_inv (w : world (Srv := Srv)) M m r s :
  fd_inv w M -> st_fd s = g_nextFd w + 1 ->
  kv_rep m (<[g_nextFd w + 1 := FdEntry (g_nextFd w + 1) (heap_next w)]> M) ->
  fd_inv (opened m r s w) (<[g_nextFd w + 1 := FdEntry (g_nextFd w + 1) (heap_next w)]> M).
Proof.
  intros I Hs Hrep. destruct I as [Hl _ Hn Hk Hh Hhn]. split; cbn; try lia; eauto.
  - intros k e. destruct (decide (k = g_nextFd w + 1)) as [->|Hne].
    + rewrite lookup_insert_eq. intros [= <-]. cbn. split_and!; try lia. exists s.
      by rewrite lookup_insert_eq.
    + rewrite lookup_insert_ne by done. intros E. destruct (Hk _ _ E) as (? & ? & ? & s' & Hs' & ?).
      split_and!; try done; try lia. exists s'. split; [|done]. rewrite lookup_insert_ne; [done|].
      apply Hh in Hs'. lia.
  - intros p s'. destruct (decide (p = heap_next w)) as [->|]; [lia|].
    rewrite lookup_insert_ne by done. intros E. apply Hh in E. lia.
Qed.

Lemma fopen_ok (w : world (Srv := Srv)) M path mode handle length r :
  fd_inv w M -> (size M <= room)%nat -> g_nextFd w + 1 < Z.min fd_max (2 ^ 31) ->
  FileOpen path (open_flags mode).1 (remote w) = ((0, handle, length), r) ->
  let fd := g_nextFd w + 1 in
  exists m, fopen me path mode true all_mallocs w =
    Ok (heap_next w, opened m r (rpc_stream fd handle (if (open_flags mode).2 then length else 0) length) w) /\
    kv_rep m (<[fd := FdEntry fd (heap_next w)]> M).
Proof.
  intros I Hsz Hfd Hopen fd. pose proof I as [Hl (m & Hm & Hrep) Hn Hk Hh Hhn].
  unfold fopen, __libc_rpc_file_open, calloc. destruct (open_flags mode) as [flags toend] eqn:Ef. cbn in Hopen.
  set (w1 := upd_heap (<[heap_next w := rpc_stream 0 handle (if toend then length else 0) length]> (heap w))
               (heap_next w + 1) (upd_remote r w)).
  assert (fd_inv w1 M) as I1.
  { split; cbn; try done; [by exists m| | |lia].
    - intros k e E. destruct (Hk _ _ E) as (? & ? & ? & s' & Hs' & ?). split_and!; try done.
      exists s'. split; [|done]. rewrite lookup_insert_ne; [done|]. apply Hh in Hs'. lia.
    - intros p s'. destruct (decide (p = heap_next w)) as [->|]; [lia|].
      rewrite lookup_insert_ne by done. intros E. apply Hh in E. lia. }
  destruct (RegisterFdStream_ok w1 M (heap_next w) (rpc_stream 0 handle (if toend then length else 0) length)
              true all_mallocs I1) as (m' & oom & Hreg & Hrep' & Hoom);
    [cbn; by rewrite lookup_insert_eq|done|cbn; lia|cbn; lia|].
  rewrite Hoom in * by done. cbn in Hreg.
  exists m'. split; [|done].
  sx. rewrite Hopen. sx. replace (heap_next w =? 0) with false by lia. sx.
  replace (heap_next w =? 0) with false by lia. sx. subst w1. unfold rpc_stream in *.
  rewrite Hreg. cbn in *.
  rewrite (fd_inv_fresh _ _ I). sx. unfold opened. cbn. by rewrite insert_insert_eq.
Qed.

Lemma stream_of_some M fd e : M !! fd = Some e -> stream_of M fd = fe_stream e.
Proof. unfold stream_of. by intros ->. Qed.

Lemma read_ok (w : world (Srv := Srv)) M fd e h pos len n k data r :
  fd_inv w M -> 0 <= fd < fd_max -> M !! fd = Some e ->
  heap w !! fe_stream e = Some (rpc_stream fd h pos len) ->
  FileRead h pos n (remote w) = ((k, data), r) ->
  read me fd n w = Ok ((k, data),
    upd_heap (<[fe_stream e := rpc_stream fd h (if 0 <? k then u64 (pos + k) else pos) len]> (heap w))
      (heap_next w) (upd_remote r w)).
Proof.
  intros I Hfd He Hs Hr. destruct (fi_key _ _ I _ _ He) as (_ & _ & Hnz & _).
  unfold read. erewrite st_bind_ok by by apply ConvertFdToStream_ok. rewrite (stream_of_some _ _ _ He).
  replace (fe_stream e =? 0) with false by lia. sx. rewrite Hs. sx. unfold RpcFileRead. sx. rewrite Hs. sx.
  rewrite Hr. sx. destruct (0 <? k).
  - sx. rewrite Hs. done.
  - rewrite (insert_id (heap w)) by done. by destruct w.
Qed.

(** A call on a descriptor that is not open fails with [EBADF]. *)
Lemma read_closed (w : world (Srv := Srv)) M fd n :
  fd_inv w M -> 0 <= fd < fd_max -> M !! fd = None ->
  read me fd n w = Ok ((-1, []), upd_errno EBADF w).
Proof.
  intros I Hfd He. unfold read. erewrite st_bind_ok by by apply ConvertFdToStream_ok.
  unfold stream_of. by rewrite He.
Qed.

Lemma close_ok (w : world (Srv := Srv)) M fd e h pos len err r mok :
  fd_inv w M -> 0 <= fd < fd_max -> M !! fd = Some e ->
  heap w !! fe_stream e = Some (rpc_stream fd h pos len) ->
  FileClose h (remote w) = (err, r) ->
  exists w', close me fd mok w = Ok (err, w') /\ fd_inv w' (delete fd M) /\
    heap w' = delete (fe_stream e) (heap w) /\ remote w' = r.
Proof.
  intros I Hfd He Hs Hc. destruct (fi_key _ _ I _ _ He) as (_ & _ & Hnz & _).
  destruct (UnregisterFdStream_ok w M (fe_stream e) _ mok I Hs) as (m' & Hun & Hrep'); [done|].
  cbn in Hrep'. unfold close. erewrite st_bind_ok by by apply ConvertFdToStream_ok.
  rewrite (stream_of_some _ _ _ He). replace (fe_stream e =? 0) with false by lia.
  unfold fclose. sx. rewrite Hun. sx. rewrite Hs. sx. unfold RpcFileClose. sx. rewrite Hs. sx. rewrite Hc. sx.
  rewrite Hs. sx. eexists. split; [done|]. cbn. split_and!; try done.
  destruct I as [Hl _ Hn Hk Hh Hhn]. split; cbn; try done; [by exists m'| |].
  - intros k e' E. apply lookup_delete_Some in E as [Hne E].
    destruct (Hk _ _ E) as (? & ? & ? & s & Hs' & ?). split_and!; try done. exists s. split; [|done].
    rewrite lookup_delete_ne; [done|]. intros Hp. rewrite Hp, Hs' in Hs. injection Hs as ->. done.
  - intros p s. intros E. apply lookup_delete_Some in E as [_ E]. eauto.
Qed.

(** The table of descriptors does not notice a change of one stream's body. *)
Lemma fd_inv_body (w : world (Srv := Srv)) M p s s' r :
  fd_inv w M -> heap w !! p = Some s -> st_fd s' = st_fd s ->
  fd_inv (upd_heap (<[p := s']> (heap w)) (heap_next w) (upd_remote r w)) M.
Proof.
  intros [Hl He Hn Hk Hh Hhn] Hp Hfd. split; cbn; try done.
  - intros k e E. destruct (Hk _ _ E) as (? & ? & ? & s0 & Hs0 & ?). split_and!; try done.
    destruct (decide (p = fe_stream e)) as [->|].
    + exists s'. rewrite lookup_insert_eq. split; [done|]. congruence.
    + exists s0. by rewrite lookup_insert_ne.
  - intros q s0. destruct (decide (p = q)) as [->|]; [intros _; eauto|]. rewrite lookup_insert_ne by done. eauto.
Qed.

(** ** The debug stream *)

(** What one character does to the lines sent and the pending buffer. *)
Definition debug_char (c : Z) (x : list (list Z) * list Z) : list (list Z) * list Z :=
  let '(out, pending) := x in
  let '(out, pending) :=
    if Z.of_nat (length pending) =? kBufLength then (out ++ [pending], []) else (out, pending) in
  if c =? 10 then match pending with [] => (out, []) | _ => (out ++ [pending], []) end
  else (out, pending ++ [c]).

(** The stream [p] is the debug stream, idle, with [pending] in its buffer. *)
Record debug_ok (w : world (Srv := Srv)) (p n : Z) (pending : list Z) : Prop := {
  do_pending : Z.of_nat (length pending) <= kBufLength;
  do_stream : exists rest,
    Z.of_nat (length pending) + Z.of_nat (length rest) = kBufLength /\
    heap w !! p = Some (Stream STDERR_FILENO zero_mtx None (Some F_DebugOutPutc) (Some F_DebugOutFlush)
                    (Some F_DebugOutPurge) None (Some F_DebugTell) None None
                    (DebugOutStream n (Z.of_nat (length pending)) (pending ++ rest)))
}.

Lemma DebugOutFlush_ok (w : world (Srv := Srv)) p s n pending rest :
  heap w !! p = Some s -> st_body s = DebugOutStream n (Z.of_nat (length pending)) (pending ++ rest) ->
  exists rest' w', DebugOutFlush p w = Ok (0, w') /\ length rest' = (length pending + length rest)%nat /\
    heap w' = <[p := set_body (DebugOutStream n 0 rest') s]> (heap w) /\
    dbg_out w' = match pending with [] => dbg_out w | _ => dbg_out w ++ [pending] end /\
    w' = upd_heap (heap w') (heap_next w) (match pending with [] => w | _ => upd_dbg pending w end).
Proof.
  intros Hs Hb. unfold DebugOutFlush. sx. rewrite Hs. sx. rewrite Hb.
  destruct pending as [|c pending].
  - cbn. exists rest, w. split_and!; try done; cbn.
    + rewrite insert_id; [done|]. rewrite Hs. f_equal. destruct s; cbn in *. by subst.
    + by destruct w.
  - set (buf := c :: pending) in *. assert (0 < Z.of_nat (length buf)) by (subst buf; cbn [length]; lia). clearbody buf.
    replace (Z.of_nat (length buf) =? 0) with false by lia. cbn [negb].
    replace (Z.of_nat (length (buf ++ rest)) <? Z.of_nat (length buf)) with false
      by (symmetry; apply Z.ltb_ge; rewrite length_app, Nat2Z.inj_add; lia).
    sx. rewrite Hs. sx.
    eexists (clear_prefix _ _), _. split; [done|].
    rewrite Nat2Z.id. split_and!; try done; cbn.
    + unfold clear_prefix. rewrite length_app, length_replicate, length_drop, Nat2Z.id, length_app. lia.
    + unfold upd_dbg, upd_heap. cbn. by rewrite take_app_length.
    + unfold upd_dbg, upd_heap. cbn. by rewrite take_app_length.
Qed.

(** Everything but the stream at [p] and the lines sent is unchanged. *)
Definition debug_frame (p : Z) (w w' : world (Srv := Srv)) : Prop :=
  w' = World (errno w) (heap w') (heap_next w) (g_nextFd w) (g_lock w) (g_entries w) (dbg_out w')
         (remote w) (w_stderr w) /\
  forall q, q <> p -> heap w' !! q = heap w !! q.

Lemma debug_frame_refl p w : debug_frame p w w.
Proof. split; [by destruct w|done]. Qed.
Lemma debug_frame_trans p w1 w2 w3 : debug_frame p w1 w2 -> debug_frame p w2 w3 -> debug_frame p w1 w3.
Proof.
  intros [E1 H1] [E2 H2]. split; [rewrite E2, E1; done|]. intros q Hq. by rewrite H2, H1.
Qed.
Lemma debug_frame_heap p w s : debug_frame p w (upd_heap (<[p := s]> (heap w)) (heap_next w) w).
Proof. split; [done|]. intros q Hq. cbn. by rewrite lookup_insert_ne. Qed.
Lemma debug_frame_dbg p w l : debug_frame p w (upd_dbg l w).
Proof. by split. Qed.

Definition debug_stream (l : mtx_t) (n used : Z) (buf : list Z) : stream_t :=
  Stream STDERR_FILENO l None (Some F_DebugOutPutc) (Some F_DebugOutFlush)
    (Some F_DebugOutPurge) None (Some F_DebugTell) None None (DebugOutStream n used buf).

Lemma flush_frame (w : world (Srv := Srv)) p l n pending rest :
  heap w !! p = Some (debug_stream l n (Z.of_nat (length pending)) (pending ++ rest)) ->
  exists rest' w', DebugOutFlush p w = Ok (0, w') /\ length rest' = (length pending + length rest)%nat /\
    heap w' !! p = Some (debug_stream l n 0 rest') /\
    dbg_out w' = match pending with [] => dbg_out w | _ => dbg_out w ++ [pending] end /\
    debug_frame p w w'.
Proof.
  intros Hs. destruct (DebugOutFlush_ok w p _ n pending rest Hs eq_refl) as (rest' & w' & H1 & H2 & H3 & H4 & H5).
  exists rest', w'. split_and!; try done.
  - by rewrite H3, lookup_insert_eq.
  - split; [rewrite H5; by destruct pending|]. intros q Hq. by rewrite H3, lookup_insert_ne.
Qed.

(** The store of a character into a buffer with room for it. *)
Lemma putc_store (w : world (Srv := Srv)) p l n pending rest c :
  heap w !! p = Some (debug_stream l n (Z.of_nat (length pending)) (pending ++ rest)) ->
  (0 < length rest)%nat -> Z.of_nat (length pending) <= kBufLength ->
  exists rest', length rest = Datatypes.S (length rest') /\
  (s ← deref p;
   match st_body s with
   | DebugOutStream bytesWritten bufUsed buf =>
       buf ← slift (aset buf bufUsed c);
       _ ← update p (set_body (DebugOutStream bytesWritten (u64 (bufUsed + 1)) buf) s);
       mret 0
   | _ => sstuck
   end) w
  = Ok (0, upd_heap (<[p := debug_stream l n (Z.of_nat (length (pending ++ [c]))) ((pending ++ [c]) ++ rest')]>
             (heap w)) (heap_next w) w).
Proof.
  unfold kBufLength. intros Hs Hr Hp. destruct rest as [|x rest']; [cbn in Hr; lia|]. exists rest'. split; [done|].
  sx. rewrite Hs. sx. rewrite aset_ok by (rewrite length_app; cbn [length]; lia).
  cbn. rewrite Hs. cbn. unfold u64. rewrite wrap_small by mlia.
  replace (Z.of_nat (length (pending ++ [c]))) with (Z.of_nat (length pending) + 1)
    by (rewrite length_app; cbn; lia).
  rewrite Nat2Z.id, <- app_assoc. rewrite insert_app_r_alt, Nat.sub_diag by lia. done.
Qed.

Lemma DebugOutPutc_ok (w : world (Srv := Srv)) p n pending c :
  debug_ok w p n pending ->
  exists w', DebugOutPutc me p c w = Ok (c, w') /\
    let x := debug_char c (dbg_out w, pending) in
    debug_ok w' p (u64 (n + 1)) x.2 /\ dbg_out w' = x.1 /\ debug_frame p w w'.
Proof.
  intros [Hp (rest & Hlen & Hs)]. unfold kBufLength in *.
  set (held := Mtx 1 false 0 0).
  set (w1 := upd_heap (<[p := debug_stream held (u64 (n + 1)) (Z.of_nat (length pending)) (pending ++ rest)]>
               (heap w)) (heap_next w) w).
  (* the buffer is flushed when it is full *)
  assert (exists pend' rest' w2,
    (if Z.of_nat (length pending) =? 200 then DebugOutFlush p else mret 0) w1 = Ok (0, w2) /\
    (dbg_out w2, pend') = (if Z.of_nat (length pending) =? 200 then (dbg_out w ++ [pending], []) else (dbg_out w, pending)) /\
    (length pend' + length rest' = 200)%nat /\ (0 < length rest')%nat /\
    heap w2 !! p = Some (debug_stream held (u64 (n + 1)) (Z.of_nat (length pend')) (pend' ++ rest')) /\
    debug_frame p w w2) as (pend' & rest' & w2 & Hw2 & Hpend' & Hlen' & Hrest' & Hs2 & Hf2).
  { assert (debug_frame p w w1) as Hf1 by apply debug_frame_heap.
    destruct (Z.eqb_spec (Z.of_nat (length pending)) 200) as [E|E].
    - destruct (flush_frame w1 p held (u64 (n + 1)) pending rest) as (rest' & w2 & H1 & H2 & H3 & H4 & H5);
        [by subst w1; cbn; rewrite lookup_insert_eq|].
      exists [], rest', w2. split_and!; try done; cbn; try lia.
      + rewrite H4. destruct pending; [done|]. done.
      + by eapply debug_frame_trans.
    - exists pending, rest, w1. split_and!; try done; try lia. cbn. by rewrite lookup_insert_eq. }
  (* then the character is stored or ends the line *)
  assert (exists pend3 rest3 w3,
    (if c =? 10 then DebugOutFlush p else
       s ← deref p;
       match st_body s with
       | DebugOutStream bytesWritten bufUsed buf =>
           buf ← slift (aset buf bufUsed c);
           _ ← update p (set_body (DebugOutStream bytesWritten (u64 (bufUsed + 1)) buf) s);
           mret 0
       | _ => sstuck
       end) w2 = Ok (0, w3) /\
    (dbg_out w3, pend3) = debug_char c (dbg_out w, pending) /\
    (length pend3 + length rest3 = 200)%nat /\
    heap w3 !! p = Some (debug_stream held (u64 (n + 1)) (Z.of_nat (length pend3)) (pend3 ++ rest3)) /\
    debug_frame p w w3) as (pend3 & rest3 & w3 & Hw3 & Hpend3 & Hlen3 & Hs3 & Hf3).
  { unfold debug_char, kBufLength. rewrite <- Hpend'. destruct (c =? 10).
    - destruct (flush_frame w2 p held (u64 (n + 1)) pend' rest' Hs2) as (rest3 & w3 & H1 & H2 & H3 & H4 & H5).
      exists [], rest3, w3. split_and!; try done; cbn; try lia.
      + rewrite H4. by destruct pend'.
      + by eapply debug_frame_trans.
    - destruct (putc_store w2 p held (u64 (n + 1)) pend' rest' c Hs2 Hrest') as (rest3 & H1 & H2);
        [unfold kBufLength; lia|].
      exists (pend' ++ [c]), rest3. eexists. split; [exact H2|]. split_and!; try done.
      + rewrite length_app. cbn. lia.
      + cbn. by rewrite lookup_insert_eq.
      + eapply debug_frame_trans; [done|apply debug_frame_heap]. }
  exists (upd_heap (<[p := debug_stream zero_mtx (u64 (n + 1)) (Z.of_nat (length pend3)) (pend3 ++ rest3)]>
            (heap w3)) (heap_next w3) w3).
  rewrite <- Hpend3. cbn. split; [|split_and!].
  - unfold DebugOutPutc. sx. rewrite Hs. sx. rewrite Hs. sx. rewrite lookup_insert_eq. sx.
    rewrite lookup_insert_eq. sx. rewrite insert_insert_eq. unfold kBufLength.
    change (upd_heap _ _ (upd_heap _ _ w)) with w1. rewrite Hw2, Hw3, Hs3. cbn. by rewrite Hs3.
  - split; [unfold kBufLength; lia|]. exists rest3. cbn. rewrite lookup_insert_eq. unfold kBufLength. split; [lia|done].
  - done.
  - eapply debug_frame_trans; [done|apply debug_frame_heap].
Qed.

(** A whole string of characters below 128. *)
Lemma fputs_loop_ok p str : Forall (fun c => 0 <= c < 128) str -> forall (w : world (Srv := Srv)) n pending i,
  debug_ok w p n pending -> is_u 64 n ->
  exists w', fputs_loop me str p i w = Ok (i + Z.of_nat (length str), w') /\
    let x := foldl (fun x c => debug_char c x) (dbg_out w, pending) str in
    debug_ok w' p (u64 (n + Z.of_nat (length str))) x.2 /\ dbg_out w' = x.1 /\ debug_frame p w w'.
Proof.
  induction 1 as [|c str Hc Hstr IH]; intros w n pending i Hd Hn.
  - exists w. cbn. unfold u64. rewrite !Z.add_0_r, wrap_small by done. split_and!; try done. apply debug_frame_refl.
  - destruct (DebugOutPutc_ok w p n pending c Hd) as (w1 & Hput & Hd1 & Ho1 & Hf1).
    assert (fputc me c p w = Ok (c, w1)) as Hfp.
    { unfold fputc. destruct Hd as [_ (rest & _ & Hs)]. sx. rewrite Hs. sx.
      unfold s8. rewrite swrap_small by mlia. done. }
    cbn [fputs_loop]. erewrite st_bind_ok by done. replace (c <? 0) with false by lia.
    destruct (IH w1 (u64 (n + 1)) _ (i + 1) Hd1) as (w' & Hr & Hd' & Ho' & Hf');
      [by apply wrap_range|].
    exists w'. split.
    { rewrite Hr. f_equal. f_equal. cbn [length]. lia. }
    cbn [foldl]. rewrite Ho1, <- surjective_pairing in *.
    split_and!; [|done|by eapply debug_frame_trans].
    replace (u64 (n + Z.of_nat (length (c :: str)))) with (u64 (u64 (n + 1) + Z.of_nat (length str))); [done|].
    unfold u64. rewrite wrap_add_l. f_equal. cbn [length]. lia.
Qed.

(** After its initialisation the map is empty. *)
Lemma InitFdToStreamMap_ok (w : world (Srv := Srv)) :
  heap w = ∅ -> 0 < heap_next w ->
  exists w', InitFdToStreamMap all_mallocs w = Ok ((), w') /\ fd_inv w' ∅ /\
    heap w' = ∅ /\ g_nextFd w' = 3 /\ remote w' = remote w.
Proof.
  intros Hh Hn. destruct (kv_new_law 0 all_mallocs ltac:(lia)) as (m & Hm & Hrep).
  unfold InitFdToStreamMap. sx. rewrite Hm. sx. eexists. split; [done|]. cbn. split_and!; try done.
  split; try done; [by exists m|intros p s; cbn; by rewrite Hh].
Qed.

(** ** The properties *)

(** Opening a file the server accepts hands out the next number, which no
    open descriptor has; the table gains exactly that descriptor, it leads to a
    new stream on the server's handle at position zero, and every stream that
    was there is untouched. When the server refuses, the call returns -1 with
    [ENOENT] and the table is as before. *)
Theorem open_spec (w : world (Srv := Srv)) M path oflag err handle length r :
  fd_inv w M -> (size M <= room)%nat -> g_nextFd w + 1 < Z.min fd_max (2 ^ 31) ->
  FileOpen path (open_flags (open_mode oflag)).1 (remote w) = ((err, handle, length), r) ->
  let fd := g_nextFd w + 1 in
  if err =? 0 then
    exists w' p, open me path oflag true all_mallocs w = Ok (fd, w') /\
      M !! fd = None /\ fd_inv w' (<[fd := FdEntry fd p]> M) /\
      heap w' = <[p := rpc_stream fd handle 0 length]> (heap w) /\ heap w !! p = None /\ remote w' = r
  else
    exists w', open me path oflag true all_mallocs w = Ok (-1, w') /\
      errno w' = ENOENT /\ fd_inv w' M /\ heap w' = heap w.
Proof.
  intros I Hsz Hfd Hopen fd. destruct (Z.eqb_spec err 0) as [->|Herr].
  - destruct (fopen_ok w M path (open_mode oflag) handle length r I Hsz Hfd Hopen) as (m & Hf & Hrep).
    fold fd in Hf, Hrep.
    assert ((open_flags (open_mode oflag)).2 = false) as E2.
    { unfold open_mode. repeat case_match; reflexivity. }
    rewrite E2 in Hf. exists (opened m r (rpc_stream fd handle 0 length) w), (heap_next w).
    split_and!; try done.
    + unfold open. erewrite st_bind_ok by done. destruct I as [_ _ _ _ _ ?].
      replace (heap_next w =? 0) with false by lia. unfold fileno. sx. by rewrite lookup_insert_eq.
    + by apply fd_inv_fresh.
    + by apply opened_inv.
    + destruct (heap w !! heap_next w) eqn:E; [|done]. apply (fi_heap _ _ I) in E. lia.
  - exists (upd_errno ENOENT (upd_remote r w)). split.
    + unfold open, fopen, __libc_rpc_file_open. destruct (open_flags _) as [flags toend]. cbn in Hopen.
      sx. rewrite Hopen. sx. replace (err =? 0) with false by lia. by destruct w.
    + destruct I. by split_and!.
Qed.

(** C38: a descriptor reads through to its file: the bytes are the server's at the
    stream's position and the position advances by their number, without any
    other stream changing; [close] closes the server's handle, frees the stream
    and removes the descriptor, after which every descriptor call on that number
    fails with [EBADF]. *)
Theorem read_close_spec (w : world (Srv := Srv)) M fd e h pos len n k data r1 cerr r2 :
  fd_inv w M -> 0 <= fd < fd_max -> M !! fd = Some e ->
  heap w !! fe_stream e = Some (rpc_stream fd h pos len) ->
  FileRead h pos n (remote w) = ((k, data), r1) -> FileClose h r1 = (cerr, r2) ->
  exists w1 w2, read me fd n w = Ok ((k, data), w1) /\ close me fd all_mallocs w1 = Ok (cerr, w2) /\
    heap w1 !! fe_stream e = Some (rpc_stream fd h (if 0 <? k then u64 (pos + k) else pos) len) /\
    (forall q, q <> fe_stream e -> heap w1 !! q = heap w !! q) /\
    heap w2 = delete (fe_stream e) (heap w) /\ fd_inv w2 (delete fd M) /\
    read me fd n w2 = Ok ((-1, []), upd_errno EBADF w2) /\
    write me fd data w2 = Ok (-1, upd_errno EBADF w2) /\
    lseek me fd 0 SEEK_SET w2 = Ok (-1, upd_errno EBADF w2) /\
    close me fd all_mallocs w2 = Ok (-1, upd_errno EBADF w2).
Proof.
  intros I Hfd He Hs Hr Hc. pose proof (read_ok w M fd e h pos len n k data r1 I Hfd He Hs Hr) as Hread.
  set (w1 := upd_heap _ _ _) in Hread.
  assert (fd_inv w1 M) as I1 by (eapply fd_inv_body; [done|exact Hs|done]).
  destruct (close_ok w1 M fd e h (if 0 <? k then u64 (pos + k) else pos) len cerr r2 all_mallocs I1 Hfd He)
    as (w2 & Hclose & I2 & Hh2 & _); [cbn; by rewrite lookup_insert_eq|done|].
  assert (delete fd M !! fd = None) as Hnone by apply lookup_delete_eq.
  exists w1, w2. split_and!; try done.
  - cbn. by rewrite lookup_insert_eq.
  - intros q Hq. cbn. by rewrite lookup_insert_ne.
  - rewrite Hh2. cbn. by rewrite delete_insert_eq.
  - by apply read_closed with (delete fd M).
  - unfold write. erewrite st_bind_ok by by apply ConvertFdToStream_ok. unfold stream_of. by rewrite Hnone.
  - unfold lseek. erewrite st_bind_ok by by apply ConvertFdToStream_ok. unfold stream_of. by rewrite Hnone.
  - unfold close. erewrite st_bind_ok by by apply ConvertFdToStream_ok. unfold stream_of. by rewrite Hnone.
Qed.

(** [UnregisterFdStream] removes the stream's descriptor, but its return value
    is the opposite of what its comment promises: -1 when the stream was
    registered and has been removed, 0 when it was never registered. *)
Theorem UnregisterFdStream_inverted (w : world (Srv := Srv)) M p s :
  fd_inv w M -> heap w !! p = Some s -> 0 <= st_fd s < fd_max ->
  exists w', UnregisterFdStream me p all_mallocs w
      = Ok (if bool_decide (is_Some (M !! st_fd s)) then -1 else 0, w') /\
    ConvertFdToStream me (st_fd s) w' = Ok (0, w').
Proof.
  intros I Hp Hfd. destruct (UnregisterFdStream_ok w M p s all_mallocs I Hp Hfd) as (m' & Hun & Hrep).
  eexists. split; [exact Hun|]. rewrite (ConvertFdToStream_ok _ (delete (st_fd s) M)).
  - unfold stream_of. by rewrite lookup_delete_eq.
  - destruct I as [Hl _ Hn Hk Hh Hhn]. split; cbn; try done; [by exists m'|].
    intros k e [_ E]%lookup_delete_Some. by apply Hk.
  - done.
Qed.

(** A line that may be sent. *)
Definition line_ok (line : list Z) : Prop := 0 < Z.of_nat (length line) <= kBufLength.

Lemma debug_char_step c out0 out1 pending :
  Z.of_nat (length pending) <= kBufLength ->
  exists o q, debug_char c (out1, pending) = (out1 ++ o, q) /\
    debug_char c (out0 ++ out1, pending) = (out0 ++ out1 ++ o, q) /\
    concat o ++ q = pending ++ filter (fun c => c <> 10) [c] /\
    Z.of_nat (length q) <= kBufLength /\ Forall line_ok o.
Proof.
  unfold debug_char, line_ok, kBufLength. intros Hp.
  destruct (Z.eqb_spec (Z.of_nat (length pending)) 200) as [E|E].
  - exists [pending]. rewrite <- !app_assoc.
    destruct (Z.eqb_spec c 10) as [->|Hc]; eexists; (split_and!; [done|done|..]).
    + rewrite filter_cons_False by lia. cbn. by rewrite !app_nil_r.
    + cbn; lia.
    + repeat constructor; lia.
    + rewrite filter_cons_True by lia. cbn. by rewrite app_nil_r.
    + cbn; lia.
    + repeat constructor; lia.
  - destruct (Z.eqb_spec c 10) as [->|Hc].
    + destruct pending as [|x pending]; [by exists [], []; rewrite !app_nil_r|].
      exists [x :: pending], []. rewrite <- !app_assoc. rewrite filter_cons_False by lia.
      split_and!; try done; [cbn; by rewrite !app_nil_r|]. repeat constructor; cbn [length] in *; lia.
    + exists [], (pending ++ [c]). rewrite !app_nil_r. rewrite filter_cons_True by lia.
      split_and!; try done. rewrite length_app. cbn. lia.
Qed.

Lemma debug_fold str : forall out0 out1 pending,
  Z.of_nat (length pending) <= kBufLength -> Forall line_ok out1 ->
  let x := foldl (fun x c => debug_char c x) (out1, pending) str in
  foldl (fun x c => debug_char c x) (out0 ++ out1, pending) str = (out0 ++ x.1, x.2) /\
  concat x.1 ++ x.2 = concat out1 ++ pending ++ filter (fun c => c <> 10) str /\
  Forall line_ok x.1.
Proof.
  induction str as [|c str IH]; intros out0 out1 pending Hp Hout; cbn [foldl].
  - by rewrite filter_nil, app_nil_r.
  - destruct (debug_char_step c out0 out1 pending Hp) as (o & q & E1 & E2 & Hc & Hq & Ho).
    rewrite E1, E2. destruct (IH out0 (out1 ++ o) q Hq) as (F1 & F2 & F3); [by apply Forall_app|].
    split; [done|]. split; [|done]. rewrite F2, concat_app, <- !app_assoc. f_equal.
    rewrite (app_assoc (concat o)), Hc, <- app_assoc. f_equal.
    change (c :: str) with ([c] ++ str). by rewrite filter_app.
Qed.

(** Writing a string of ASCII characters to the debug stream sends exactly the
    lines the line discipline prescribes: a line at each newline that ends a
    nonempty line and whenever 200 characters are pending; no character is lost
    or reordered, and no line is longer than the buffer. *)
Theorem debug_fputs_spec p str (w : world (Srv := Srv)) n pending :
  Forall (fun c => 0 <= c < 128) str -> debug_ok w p n pending -> is_u 64 n ->
  exists w' out pending', fputs me str p w = Ok (Z.of_nat (length str), w') /\
    foldl (fun x c => debug_char c x) ([], pending) str = (out, pending') /\
    dbg_out w' = dbg_out w ++ out /\
    debug_ok w' p (u64 (n + Z.of_nat (length str))) pending' /\
    concat out ++ pending' = pending ++ filter (fun c => c <> 10) str /\
    Forall line_ok out.
Proof.
  intros Hstr Hd Hn. destruct (fputs_loop_ok p str Hstr w n pending 0 Hd Hn) as (w' & Hput & Hd' & Ho & _).
  destruct (debug_fold str (dbg_out w) [] pending) as (F1 & F2 & F3); [apply Hd|done|].
  rewrite app_nil_r in F1. exists w'.
  destruct (foldl (fun x c => debug_char c x) ([], pending) str) as [out pending'] eqn:Ex.
  exists out, pending'. rewrite F1 in *. cbn in *. split_and!; done.
Qed.

(** A character outside ASCII is stored in the debug stream but reported as a
    failure, since its value as a [char] is negative: [fputs] stops after it and
    returns that negative value. *)
Theorem debug_fputs_non_ascii p c str (w : world (Srv := Srv)) n pending :
  128 <= c < 256 -> debug_ok w p n pending ->
  exists w', fputs me (c :: str) p w = Ok (c - 256, w') /\
    debug_ok w' p (u64 (n + 1)) (debug_char (c - 256) (dbg_out w, pending)).2.
Proof.
  intros Hc Hd. destruct (DebugOutPutc_ok w p n pending (c - 256) Hd) as (w1 & Hput & Hd1 & _).
  exists w1. split; [|done]. unfold fputs. cbn [fputs_loop].
  assert (fputc me c p w = Ok (c - 256, w1)) as Hfp.
  { unfold fputc. destruct Hd as [_ (rest & _ & Hs)]. sx. rewrite Hs. sx.
    replace (s8 c) with (c - 256); [done|]. unfold s8. rewrite <- (swrap_small 8 (c - 256)) by mlia.
    unfold swrap. f_equal. pow_norm. rewrite <- (Z_mod_plus_full (c - 256 + _) 1). f_equal. lia. }
  erewrite st_bind_ok by done. by replace (c - 256 <? 0) with true by lia.
Qed.

(** What [RpcFileSeek] does on every branch, for a file of length below
    [2^63]. [SEEK_SET] clamps to the length. [SEEK_CUR] adds a small offset
    without a check against the end of the file, and any negative offset, being
    compared as unsigned, moves to the end instead of backwards. [SEEK_END]
    counts a positive offset backwards and takes a negative one to the start. *)
Theorem RpcFileSeek_spec (w : world (Srv := Srv)) p fd h pos len off whence :
  heap w !! p = Some (rpc_stream fd h pos len) -> is_u 64 pos -> 0 <= len < 2 ^ 63 -> is_s 64 off ->
  RpcFileSeek p off whence w =
    if (0 <=? whence) && (whence <=? 2) then
      Ok (0, upd_heap (<[p := rpc_stream fd h
        (if whence =? SEEK_SET then if 0 <=? off then Z.min off len else len
         else if whence =? SEEK_CUR then if (0 <=? off) && (off <=? len) then u64 (pos + off) else len
         else if (0 <=? off) && (off <? len) then len - off else 0) len]> (heap w)) (heap_next w) w)
    else Ok (-1, w).
Proof.
  intros Hp Hpos Hlen Hoff. change (- 2 ^ 63 <= off < 2 ^ 63) in Hoff.
  assert (0 <= off -> u64 off = off) as Hpos' by (intros; apply wrap_small; mlia).
  assert (off < 0 -> u64 off = off + 2 ^ 64) as Hneg'.
  { intros. unfold u64, wrap. symmetry. apply (Z.mod_unique _ _ (-1)); mlia. }
  unfold RpcFileSeek, SEEK_SET, SEEK_CUR, SEEK_END. sx. rewrite Hp. cbn.
  destruct (Z.eqb_spec whence 0) as [->|]; [|destruct (Z.eqb_spec whence 1) as [->|];
    [|destruct (Z.eqb_spec whence 2) as [->|]]].
  - cbn. destruct (Z.leb_spec 0 off); [rewrite Hpos' by done|rewrite Hneg' by done].
    + destruct (Z.ltb_spec off len); rewrite Hp; [rewrite Z.min_l by lia|rewrite Z.min_r by lia]; done.
    + replace (off + 2 ^ 64 <? len) with false by mlia. by rewrite Hp.
  - cbn. destruct (Z.leb_spec 0 off); [rewrite Hpos' by done|rewrite Hneg' by done].
    + rewrite Z.ltb_antisym. destruct (off <=? len); cbn; by rewrite Hp.
    + replace (len <? off + 2 ^ 64) with true by mlia. cbn. by rewrite Hp.
  - cbn. destruct (Z.leb_spec 0 off); [rewrite Hpos' by done|rewrite Hneg' by done].
    + destruct (Z.ltb_spec off len); cbn; rewrite Hp; [|done].
      unfold u64. by rewrite wrap_small by mlia.
    + replace (off + 2 ^ 64 <? len) with false by mlia. cbn. by rewrite Hp.
  - replace ((0 <=? whence) && (whence <=? 2)) with false by lia. done.
Qed.

(** [fgetc] has its test the wrong way round: whenever the read delivers a
    byte it returns [EOF] (the byte is consumed), and when the read fails it
    returns a character that was never stored. *)
Theorem fgetc_inverted (w : world (Srv := Srv)) p fd h pos len k data r :
  heap w !! p = Some (rpc_stream fd h pos len) ->
  FileRead h pos 1 (remote w) = ((k, data), r) ->
  (0 < k -> exists w', fgetc p w = Ok (EOF, w') /\
     heap w' !! p = Some (rpc_stream fd h (u64 (pos + k)) len)) /\
  (k <= 0 -> data = [] -> fgetc p w = Stuck).
Proof.
  intros Hp Hr. unfold fgetc. sx. rewrite Hp. sx. unfold RpcFileRead. sx. rewrite Hp. sx. rewrite Hr. sx.
  split; intros Hk.
  - replace (0 <? k) with true by lia. sx. rewrite Hp. sx.
    replace (0 <? k) with true by lia. eexists. split; [done|]. cbn. by rewrite lookup_insert_eq.
  - intros ->. replace (0 <? k) with false by lia. sx. by replace (0 <? k) with false by lia.
Qed.

End Proofs.

(** A file opened with [O_RDONLY] is not opened for reading: the flag is zero,
    so the test for it never holds and no access at all is requested from the
    server; the other two access modes request what they say. *)
Theorem open_rdonly_requests_nothing :
  (open_flags (open_mode O_RDONLY)).1 = 0 /\
  (open_flags (open_mode O_WRONLY)).1 = Z.lor FILE_OPEN_WRITE FILE_OPEN_CREATE /\
  (open_flags (open_mode O_RDWR)).1 = Z.lor FILE_OPEN_READ (Z.lor FILE_OPEN_WRITE FILE_OPEN_CREATE).
Proof. done. Qed.

(** ** The hash map in place *)

Definition fd_ops : KVOps fd_map_entry :=
  hashmap_ops (FdEntry 0 0) _HashmapSlotHash _HashmapSlotCompare 16 0x46444553 0x59454554.

(** The comparison callback is not an equality test, so the table depends on the
    hashes of the descriptors being different; those of the first 32 are. *)
#[export] Instance fd_callbacks_32 :
  CallbackLaws _HashmapSlotHash _HashmapSlotCompare fe_key (fd_ok 32) 0x46444553 0x59454554.
Proof.
  apply (less_callbacks _HashmapSlotHash fe_key (fun k => FdEntry k 0)).
  { intros [k p]. unfold h48, _HashmapSlotHash. cbn [fe_key]. reflexivity. }
  apply (bool_decide_unpack _). vm_compute. done.
Qed.
#[export] Instance fd_laws : KVLaws fd_ops fe_key (fd_ok 32) hashmap_room :=
  hashmap_laws (FdEntry 0 0) _HashmapSlotHash _HashmapSlotCompare fe_key (fd_ok 32) 16 0x46444553 0x59454554.

(** A server with one file, [abc], under handle 7; its state counts the calls. *)
Definition abc_server : FileServer Z := {|
  FileOpen path flags s := ((0, 7, 3), s + 1);
  FileRead h pos n s :=
    let data := take (Z.to_nat n) (drop (Z.to_nat pos) [97; 98; 99]) in
    ((Z.of_nat (length data), data), s + 1);
  FileClose h s := (0, s + 1)
|}.

Definition empty_world : world (kvops := fd_ops) (Srv := Z) :=
  World 0 ∅ 1 0 zero_mtx None [] 0 0.

Lemma start_world :
  exists w : world (kvops := fd_ops) (Srv := Z), fd_inv (laws := fd_laws) w ∅ /\
    g_nextFd w = 3 /\ remote w = 0.
Proof.
  destruct (InitFdToStreamMap_ok (laws := fd_laws) empty_world) as (w & _ & I & _ & Hn & Hr);
    [reflexivity|reflexivity|]. by exists w.
Qed.

Lemma one_file_world :
  exists (w : world (kvops := fd_ops) (Srv := Z)) M e,
    fd_inv (laws := fd_laws) w M /\ M !! 4 = Some e /\
    heap w !! fe_stream e = Some (rpc_stream 4 7 0 3).
Proof.
  destruct start_world as (w & I & Hn & Hr).
  destruct (fopen_ok (server := abc_server) (laws := fd_laws) 1 w ∅ [102] [114] 7 3 1 I) as (m & _ & Hrep).
  { rewrite map_size_empty. unfold hashmap_room. lia. }
  { rewrite Hn. mlia. }
  { cbn. by rewrite Hr. }
  pose proof (opened_inv (laws := fd_laws) w ∅ m 1 (rpc_stream (g_nextFd w + 1) 7 0 3) I eq_refl Hrep) as I'.
  rewrite Hn in *. eexists _, _, (FdEntry 4 (heap_next w)). split; [exact I'|].
  rewrite lookup_insert_eq. split; [done|]. cbn. by rewrite lookup_insert_eq.
Qed.

Lemma open_spec_witness :
  exists w w' : world (kvops := fd_ops) (Srv := Z),
    fd_inv (laws := fd_laws) w ∅ /\
    open (server := abc_server) 1 [102] O_RDWR true all_mallocs w = Ok (4, w').
Proof.
  destruct start_world as (w & I & Hn & Hr).
  pose proof (open_spec (server := abc_server) (laws := fd_laws) 1 w ∅ [102] O_RDWR 0 7 3 1 I) as H.
  rewrite Hn, Hr in H. destruct H as (w' & p & H & _).
  - rewrite map_size_empty. unfold hashmap_room. lia.
  - mlia.
  - reflexivity.
  - exists w, w'. split; [exact I|exact H].
Defined.

Lemma read_close_spec_witness :
  exists w w1 w2 : world (kvops := fd_ops) (Srv := Z),
    read (server := abc_server) 1 4 2 w = Ok ((2, [97; 98]), w1) /\
    close (server := abc_server) 1 4 all_mallocs w1 = Ok (0, w2) /\
    read (server := abc_server) 1 4 2 w2 = Ok ((-1, []), upd_errno EBADF w2).
Proof.
  destruct one_file_world as (w & M & e & I & He & Hs).
  destruct (read_close_spec (server := abc_server) (laws := fd_laws) 1 w M 4 e 7 0 3 2 2 [97; 98]
              (remote w + 1) 0 (remote w + 2) I) as (w1 & w2 & H1 & H2 & _ & _ & _ & _ & H3 & _);
    [lia|exact He|exact Hs|reflexivity|cbn; f_equal; lia|].
  exists w, w1, w2. split_and!; [exact H1|exact H2|exact H3].
Defined.

Lemma UnregisterFdStream_inverted_witness :
  exists w w' : world (kvops := fd_ops) (Srv := Z), exists p,
    UnregisterFdStream 1 p all_mallocs w = Ok (-1, w').
Proof.
  destruct one_file_world as (w & M & e & I & He & Hs).
  destruct (UnregisterFdStream_inverted (laws := fd_laws) 1 w M (fe_stream e) (rpc_stream 4 7 0 3) I Hs)
    as (w' & H & _); [cbn; lia|].
  exists w, w', (fe_stream e). cbn [st_fd rpc_stream] in H. rewrite He in H. exact H.
Defined.

Definition debug_world : world (kvops := fd_ops) (Srv := Z) :=
  World 0 {[1 := debug_stream zero_mtx 0 0 (replicate 200 0)]} 2 3 zero_mtx None [] 0 1.

Lemma debug_world_ok : debug_ok debug_world 1 0 [].
Proof. split; [done|]. exists (replicate 200 0). by rewrite length_replicate. Qed.

Lemma debug_fputs_spec_witness :
  exists w', fputs 1 [104; 105; 10; 33] 1 debug_world = Ok (4, w') /\ dbg_out w' = [[104; 105]].
Proof.
  destruct (debug_fputs_spec 1 1 [104; 105; 10; 33] debug_world 0 []) as (w' & out & q & H1 & H2 & H3 & _);
    [repeat constructor; lia|exact debug_world_ok|mlia|].
  exists w'. split; [exact H1|]. rewrite H3. cbn in H2. injection H2 as <- <-. reflexivity.
Defined.

Lemma debug_fputs_non_ascii_witness :
  exists w', fputs 1 [195; 164; 33] 1 debug_world = Ok (-61, w').
Proof.
  destruct (debug_fputs_non_ascii 1 1 195 [164; 33] debug_world 0 []) as (w' & H & _);
    [lia|exact debug_world_ok|]. exists w'. exact H.
Defined.

Lemma RpcFileSeek_spec_witness :
  exists w : world (kvops := fd_ops) (Srv := Z), exists p,
    RpcFileSeek p (-1) SEEK_CUR w
    = Ok (0, upd_heap (<[p := rpc_stream 4 7 3 3]> (heap w)) (heap_next w) w).
Proof.
  destruct one_file_world as (w & M & e & I & He & Hs). exists w, (fe_stream e).
  apply (RpcFileSeek_spec w (fe_stream e) 4 7 0 3 (-1) SEEK_CUR Hs); mlia.
Defined.

Lemma fgetc_inverted_witness :
  exists w w' : world (kvops := fd_ops) (Srv := Z), exists p, fgetc (server := abc_server) p w = Ok (EOF, w').
Proof.
  destruct one_file_world as (w & M & e & I & He & Hs).
  destruct (fgetc_inverted (server := abc_server) w (fe_stream e) 4 7 0 3 1 [97] (remote w + 1) Hs)
    as [H _]; [reflexivity|]. destruct (H ltac:(lia)) as (w' & Hw & _).
  exists w, w', (fe_stream e). exact Hw.
Defined.
