(* ===== verification/CMem.v ===== *)
(** * Byte-addressed memory

    The memory the string functions work on: a finite map from addresses to
    bytes.  An access outside the map is undefined behaviour ([Stuck]).  A loop
    that walks through memory gets [mem_fuel m] iterations: it touches a new
    address each time, so it leaves the map before its fuel ends. *)

From S2P Require Import Prelude HashFns.

Notation mem := (gmap Z Z).

Definition ld (m : mem) (a : Z) : res Z := res_of (m !! a).
Definition sto (m : mem) (a v : Z) : res mem :=
  match m !! a with Some _ => Ok (<[a := u8 v]> m) | None => Stuck end.
Definition mem_fuel (m : mem) : nat := S (size m).

(** Reads and writes of [n] bytes at once, in memory order. *)
Fixpoint ldn (m : mem) (a : Z) (n : nat) : res (list Z) :=
  match n with
  | O => Ok []
  | S n => b ← ld m a; l ← ldn m (a + 1) n; Ok (b :: l)
  end.
Fixpoint ston (m : mem) (a : Z) (l : list Z) : res mem :=
  match l with
  | [] => Ok m
  | b :: l => m ← sto m a b; ston m (a + 1) l
  end.

(** A little-endian word. *)
Definition ldw (m : mem) (a : Z) (n : nat) : res Z := l ← ldn m a n; Ok (le_word l).

(** [l] stands at [a]. *)
Definition bytes_at (m : mem) (a : Z) (l : list Z) : Prop :=
  forall i x, l !! i = Some x -> m !! (a + Z.of_nat i) = Some x.

(** [n] bytes at [a] may be accessed. *)
Definition mapped (m : mem) (a n : Z) : Prop := forall i, 0 <= i < n -> is_Some (m !! (a + i)).

Definition byte (b : Z) : Prop := 0 <= b < 256.

(** A string: its characters, then a zero byte. *)
Definition cstr (m : mem) (a : Z) (s : list Z) : Prop :=
  bytes_at m a (s ++ [0]) /\ Forall (fun c => 0 < c < 256) s.

(** The memory after [l] was written at [a]. *)
Fixpoint mput (m : mem) (a : Z) (l : list Z) : mem :=
  match l with
  | [] => m
  | b :: l => mput (<[a := b]> m) (a + 1) l
  end.

(** Two ranges of addresses do not overlap. *)
Definition disjoint_ranges (a n b k : Z) : Prop := a + n <= b \/ b + k <= a.

(** ** Lemmas *)

Lemma bytes_at_cons m a b l : bytes_at m a (b :: l) <-> m !! a = Some b /\ bytes_at m (a + 1) l.
Proof.
  unfold bytes_at. split.
  - intros H. split.
    + specialize (H 0%nat b eq_refl). by rewrite Z.add_0_r in H.
    + intros i x Hx. specialize (H (S i) x Hx). by replace (a + 1 + Z.of_nat i) with (a + Z.of_nat (S i)) by lia.
  - intros [H0 H] [|i] x Hx; cbn in Hx.
    + injection Hx as <-. by rewrite Z.add_0_r.
    + replace (a + Z.of_nat (S i)) with (a + 1 + Z.of_nat i) by lia. by apply H.
Qed.

Lemma bytes_at_nil m a : bytes_at m a [].
Proof. by intros i x. Qed.

Lemma bytes_at_app m a l1 l2 :
  bytes_at m a (l1 ++ l2) <-> bytes_at m a l1 /\ bytes_at m (a + Z.of_nat (length l1)) l2.
Proof.
  revert a. induction l1 as [|b l1 IH]; intros a; cbn [app length].
  - rewrite Z.add_0_r. split; [intros; split; [apply bytes_at_nil|done]|by intros [_ ?]].
  - rewrite !bytes_at_cons, IH. replace (a + 1 + Z.of_nat (length l1)) with (a + Z.of_nat (S (length l1))) by lia.
    tauto.
Qed.

Lemma bytes_at_mapped m a l : bytes_at m a l -> mapped m a (Z.of_nat (length l)).
Proof.
  intros H i Hi. destruct (lookup_lt_is_Some_2 l (Z.to_nat i)) as [x Hx]; [lia|].
  exists x. specialize (H _ _ Hx). by rewrite Z2Nat.id in H by lia.
Qed.

(** A range of mapped addresses is no longer than the memory has bytes. *)
Lemma mapped_fuel m a n : mapped m a n -> (Z.to_nat n < mem_fuel m)%nat.
Proof.
  intros H. unfold mem_fuel. apply le_n_S.
  assert ((list_to_set (seqZ a n) : gset Z) ⊆ dom m) as Hsub.
  { intros x Hx. apply elem_of_list_to_set, elem_of_seqZ in Hx. apply elem_of_dom.
    replace x with (a + (x - a)) by lia. apply H. lia. }
  apply subseteq_size in Hsub. rewrite size_dom, size_list_to_set in Hsub by apply NoDup_seqZ.
  by rewrite length_seqZ in Hsub.
Qed.

Lemma bytes_at_fuel m a l : bytes_at m a l -> (length l < mem_fuel m)%nat.
Proof. intros H%bytes_at_mapped%mapped_fuel. lia. Qed.

Lemma mput_lookup m a l x :
  mput m a l !! x = if decide (a <= x < a + Z.of_nat (length l)) then l !! Z.to_nat (x - a) else m !! x.
Proof.
  revert m a. induction l as [|b l IH]; intros m a; cbn [mput length].
  - rewrite decide_False by lia. done.
  - rewrite IH. destruct (decide (x = a)) as [->|].
    + rewrite decide_False by lia. rewrite decide_True by lia. rewrite lookup_insert_eq.
      by rewrite Z.sub_diag.
    + destruct (decide (a + 1 <= x < a + 1 + Z.of_nat (length l))).
      * rewrite decide_True by lia. replace (Z.to_nat (x - a)) with (S (Z.to_nat (x - (a + 1)))) by lia. done.
      * rewrite decide_False by lia. by rewrite lookup_insert_ne by done.
Qed.

Lemma mput_app m a l1 l2 : mput m a (l1 ++ l2) = mput (mput m a l1) (a + Z.of_nat (length l1)) l2.
Proof.
  revert m a. induction l1 as [|b l1 IH]; intros m a; cbn [app mput length]; [by rewrite Z.add_0_r|].
  rewrite IH. f_equal. lia.
Qed.

Lemma mput_bytes_at m a l : bytes_at (mput m a l) a l.
Proof.
  intros i x Hx. apply lookup_lt_Some in Hx as Hi. rewrite mput_lookup, decide_True by lia.
  by replace (Z.to_nat (a + Z.of_nat i - a)) with i by lia.
Qed.

Lemma mput_bytes_at_ne m a l b k :
  bytes_at m b k -> disjoint_ranges a (Z.of_nat (length l)) b (Z.of_nat (length k)) ->
  bytes_at (mput m a l) b k.
Proof.
  intros H D i x Hx. apply lookup_lt_Some in Hx as Hi. unfold disjoint_ranges in D.
  rewrite mput_lookup, decide_False by lia. by apply H.
Qed.

Lemma mput_mapped m a l b n : mapped m b n -> mapped (mput m a l) b n.
Proof.
  intros H i Hi. rewrite mput_lookup. case_decide; [|by apply H].
  apply lookup_lt_is_Some_2. lia.
Qed.

(** Writes to disjoint ranges commute. *)
Lemma mput_comm m a l b k :
  disjoint_ranges a (Z.of_nat (length l)) b (Z.of_nat (length k)) ->
  mput (mput m a l) b k = mput (mput m b k) a l.
Proof.
  unfold disjoint_ranges. intros D. apply map_eq. intros x. rewrite !mput_lookup.
  repeat case_decide; (done || lia).
Qed.

Lemma mput_size m a l : mapped m a (Z.of_nat (length l)) -> size (mput m a l) = size m.
Proof.
  revert m a. induction l as [|b l IH]; intros m a H; cbn [mput]; [done|].
  assert (is_Some (m !! a)) as Ha.
  { specialize (H 0). rewrite Z.add_0_r in H. apply H. cbn [length]. lia. }
  rewrite IH; [by rewrite map_size_insert_Some|].
  intros i Hi. destruct (decide (a + 1 + i = a)) as [E|]; [lia|].
  rewrite lookup_insert_ne by lia. replace (a + 1 + i) with (a + (i + 1)) by lia. apply H. cbn [length]. lia.
Qed.

Lemma u8_byte b : byte b -> u8 b = b.
Proof. intros. by apply wrap_small. Qed.

Lemma ld_ok m a b : m !! a = Some b -> ld m a = Ok b.
Proof. unfold ld. by intros ->. Qed.

Lemma sto_ok m a v : is_Some (m !! a) -> byte v -> sto m a v = Ok (<[a := v]> m).
Proof. intros [x Hx] Hv. unfold sto. by rewrite Hx, u8_byte. Qed.

Lemma mapped_sub m a n b k : mapped m a n -> a <= b -> b + k <= a + n -> mapped m b k.
Proof. intros H ? ? i Hi. replace (b + i) with (a + (b - a + i)) by lia. apply H. lia. Qed.

Lemma mapped_hd m a n : mapped m a n -> 0 < n -> is_Some (m !! a).
Proof. intros H ?. specialize (H 0). rewrite Z.add_0_r in H. apply H. lia. Qed.

Lemma ldn_ok m a l : bytes_at m a l -> ldn m a (length l) = Ok l.
Proof.
  revert a. induction l as [|b l IH]; intros a H; [done|]. apply bytes_at_cons in H as [H0 H].
  cbn [length ldn]. rewrite (ld_ok _ _ _ H0). cbn. by rewrite IH.
Qed.

Lemma ston_ok m a l : mapped m a (Z.of_nat (length l)) -> Forall byte l -> ston m a l = Ok (mput m a l).
Proof.
  revert m a. induction l as [|b l IH]; intros m a H Hb; [done|]. inversion Hb; subst.
  cbn [ston mput]. rewrite sto_ok; [|by apply (mapped_hd _ _ _ H); cbn [length]; lia|done]. cbn.
  apply IH; [|done]. apply (mput_mapped m a [b]). eapply mapped_sub; [exact H|lia|cbn [length]; lia].
Qed.

(** The bytes of a mapped range. *)
Lemma mapped_bytes m a n : 0 <= n -> mapped m a n -> exists l, bytes_at m a l /\ Z.of_nat (length l) = n.
Proof.
  intros Hn. rewrite <- (Z2Nat.id n Hn). generalize (Z.to_nat n). clear n Hn. intros n. revert a.
  induction n as [|n IH]; intros a H; [exists []; by split; [apply bytes_at_nil|]|].
  destruct (mapped_hd _ _ _ H) as [x Hx]; [lia|].
  destruct (IH (a + 1)) as (l & Hl & Hn); [eapply mapped_sub; [exact H|lia|lia]|].
  exists (x :: l). rewrite bytes_at_cons. split; [done|]. cbn [length]. lia.
Qed.

(** A little-endian word by its first byte. *)
Lemma le_word_cons b l : byte b -> le_word (b :: l) = b + 256 * le_word l.
Proof.
  intros Hb. cbn [le_word]. rewrite Z.lor_comm, Z.shiftl_mul_pow2 by lia.
  rewrite lor_add_disjoint by (lia || exact Hb). change (2 ^ 8) with 256. lia.
Qed.

(** A word is the word of its bytes. *)
Lemma le_word_bytes n z : 0 <= z < 2 ^ (8 * Z.of_nat n) -> le_word (le_bytes n z) = z.
Proof.
  revert z. induction n as [|n IH]; intros z Hz; [cbn in Hz |- *; lia|]. cbn [le_bytes].
  assert (byte (u8 z)) by (unfold byte, u8, wrap; pow_norm; apply Z.mod_pos_bound; lia). rewrite le_word_cons by done.
  rewrite Z.shiftr_div_pow2 by lia. rewrite IH; [unfold u8, wrap; pow_norm; Z.div_mod_to_equations; lia|]. change (2 ^ 8) with 256.
  replace (8 * Z.of_nat (S n)) with (8 + 8 * Z.of_nat n) in Hz by lia. rewrite Z.pow_add_r in Hz by lia. change (2 ^ 8) with 256 in Hz.
  split; [apply Z.div_pos; lia|apply Z.div_lt_upper_bound; lia].
Qed.

Create HintDb cmem.
#[export] Hint Resolve bytes_at_nil mput_bytes_at mput_mapped bytes_at_mapped : cmem.
