(* ===== verification/LibcString.v ===== *)
(** * The libc string functions (user/lib/libc/src/string)

    Each function works on a byte memory (CMem.v); a pointer is an address and
    [NULL] is zero.  A function that writes returns its result and the memory.
    A plain [char] is compared for equality only, so characters are bytes. *)

From S2P Require Import Prelude HashFns CMem.
Local Open Scope mach_scope.

(** [i++] on an [int]. *)
Definition inc_int (i : Z) : res Z := if i + 1 <? 2 ^ 31 then Ok (i + 1) else Stuck.

(** ** Blocks of memory *)

Fixpoint memchr_loop (fuel : nat) (m : mem) (read value num i : Z) : res Z :=
  match fuel with
  | O => Stuck
  | S fuel =>
      if i <? num then
        b ← ld m (read + i);
        if b =? value then Ok (read + i)
        else i ← inc_int i; memchr_loop fuel m read value num i
      else Ok 0
  end.
Definition memchr (m : mem) (ptr value num : Z) : res Z :=
  memchr_loop (mem_fuel m) m ptr value num 0.

Fixpoint memcmp_loop (fuel : nat) (m : mem) (read1 read2 num i : Z) : res Z :=
  match fuel with
  | O => Stuck
  | S fuel =>
      if i <? num then
        b1 ← ld m (read1 + i);
        b2 ← ld m (read2 + i);
        if negb (b1 =? b2) then Ok (if b2 <? b1 then 1 else -1)
        else i ← inc_int i; memcmp_loop fuel m read1 read2 num i
      else Ok 0
  end.
Definition memcmp (m : mem) (ptr1 ptr2 num : Z) : res Z :=
  memcmp_loop (mem_fuel m) m ptr1 ptr2 num 0.

(** The loop over 32-bit words; the number of words copied is returned. *)
Fixpoint memcpy_words (fuel : nat) (m : mem) (dst src n i : Z) : res (Z * mem) :=
  match fuel with
  | O => Stuck
  | S fuel =>
      if i <? n then
        w ← ldn m src 4;
        m ← ston m dst w;
        i ← inc_int i;
        memcpy_words fuel m (dst + 4) (src + 4) n i
      else Ok (i, m)
  end.
Fixpoint memcpy_bytes (fuel : nat) (m : mem) (dst src num x : Z) : res mem :=
  match fuel with
  | O => Stuck
  | S fuel =>
      if x <? num then
        b ← ld m src;
        m ← sto m dst b;
        x ← inc_int x;
        memcpy_bytes fuel m (dst + 1) (src + 1) num x
      else Ok m
  end.
Definition memcpy (m : mem) (destination source num : Z) : res (Z * mem) :=
  '(i, m) ← memcpy_words (mem_fuel m) m destination source (num / 4) 0;
  if 2 ^ 31 <=? i * 4 then Stuck
  else
    m ← (if negb (i * 4 =? num)
         then memcpy_bytes (mem_fuel m) m (destination + 4 * i) (source + 4 * i) num (i * 4)
         else Ok m);
    Ok (destination, m).

(** [tmp] is the address of the stack buffer of [n] bytes. *)
Definition memmove (tmp : Z) (m : mem) (dest src n : Z) : res (Z * mem) :=
  '(_, m) ← memcpy m tmp src n;
  '(_, m) ← memcpy m dest tmp n;
  Ok (dest, m).

(** The two string instructions store [count / 4] zero words, then the zero
    bytes left over. *)
Fixpoint rep_stos (fuel : nat) (m : mem) (a width count : Z) : res mem :=
  match fuel with
  | O => Stuck
  | S fuel =>
      if count =? 0 then Ok m
      else m ← ston m a (replicate (Z.to_nat width) 0); rep_stos fuel m (a + width) width (count - 1)
  end.
Definition memclr (m : mem) (start count : Z) : res (Z * mem) :=
  if count =? 0 then Ok (start, m)
  else
    m ← rep_stos (mem_fuel m) m start 4 (count / 4);
    m ← rep_stos (mem_fuel m) m (start + count / 4 * 4) 1 (count - count / 4 * 4);
    Ok (start + count, m).

Fixpoint memset_loop (fuel : nat) (m : mem) (write value num i : Z) : res mem :=
  match fuel with
  | O => Stuck
  | S fuel =>
      if i <? num then
        m ← sto m (write + i) value;
        i ← inc_int i;
        memset_loop fuel m write value num i
      else Ok m
  end.
Definition memset (m : mem) (ptr value num : Z) : res (Z * mem) :=
  if value =? 0 then memclr m ptr num
  else m ← memset_loop (mem_fuel m) m ptr value num 0; Ok (ptr, m).

(** ** Lengths *)

Definition mask01 : Z := 0x0101010101010101.
Definition mask80 : Z := 0x8080808080808080.

(** [(va & vb) != 0] for the word at [lp]. *)
Definition has_zero (w : Z) : bool :=
  let va := u64 (w - mask01) in
  let vb := Z.land (u64 (Z.lnot w)) mask80 in
  negb (Z.land va vb =? 0).

(** The bytes of the first word from [p] on. *)
Fixpoint strlen_head (fuel : nat) (m : mem) (str p lp : Z) : res (option Z) :=
  match fuel with
  | O => Stuck
  | S fuel =>
      if p <? lp then
        b ← ld m p;
        if b =? 0 then Ok (Some (p - str)) else strlen_head fuel m str (p + 1) lp
      else Ok None
  end.

(** [testbyte(x)], ..., [testbyte(7)] *)
Fixpoint testbytes (n : nat) (m : mem) (str p x : Z) : res (option Z) :=
  match n with
  | O => Ok None
  | S n =>
      b ← ld m (p + x);
      if b =? 0 then Ok (Some (p - str + x)) else testbytes n m str p (x + 1)
  end.

Fixpoint strlen_words (fuel : nat) (m : mem) (str lp : Z) : res Z :=
  match fuel with
  | O => Stuck
  | S fuel =>
      w ← ldw m lp 8;
      r ← (if has_zero w then testbytes 8 m str lp 0 else Ok None);
      match r with
      | Some n => Ok n
      | None => strlen_words fuel m str (lp + 8)
      end
  end.

Definition strlen (m : mem) (str : Z) : res Z :=
  let lp := Z.land str (Z.lnot 7) in
  w ← ldw m lp 8;
  let lp := lp + 8 in
  r ← (if has_zero w then strlen_head 9 m str str lp else Ok None);
  match r with
  | Some n => Ok n
  | None => strlen_words (mem_fuel m) m str lp
  end.

Fixpoint strnlen_loop (fuel : nat) (m : mem) (s len maxlen : Z) : res Z :=
  match fuel with
  | O => Stuck
  | S fuel =>
      if len <? maxlen then
        b ← ld m s;
        if b =? 0 then Ok len else strnlen_loop fuel m (s + 1) (len + 1) maxlen
      else Ok len
  end.
Definition strnlen (m : mem) (s maxlen : Z) : res Z := strnlen_loop (mem_fuel m) m s 0 maxlen.

(** ** Copies *)

(** [for (; ( *to = *from) != 0; ++from, ++to);], the loop of [strcpy] and the
    second one of [strcat]. *)
Fixpoint copy_loop (fuel : nat) (m : mem) (to from : Z) : res mem :=
  match fuel with
  | O => Stuck
  | S fuel =>
      b ← ld m from;
      m ← sto m to b;
      if b =? 0 then Ok m else copy_loop fuel m (to + 1) (from + 1)
  end.
Definition strcpy (m : mem) (to from : Z) : res (Z * mem) :=
  m ← copy_loop (mem_fuel m) m to from; Ok (to, m).

(** [for (; *s; ++s);]: the address of the terminator. *)
Fixpoint end_loop (fuel : nat) (m : mem) (s : Z) : res Z :=
  match fuel with
  | O => Stuck
  | S fuel => b ← ld m s; if b =? 0 then Ok s else end_loop fuel m (s + 1)
  end.
Definition strcat (m : mem) (s append : Z) : res (Z * mem) :=
  e ← end_loop (mem_fuel m) m s;
  m ← copy_loop (mem_fuel m) m e append;
  Ok (s, m).

(** [do { if (!n--) return ret; } while (( *dest++ = *src++));] then
    [while (n--) *dest++ = 0;] *)
Fixpoint zero_fill (fuel : nat) (m : mem) (dest n : Z) : res mem :=
  match fuel with
  | O => Stuck
  | S fuel =>
      if n =? 0 then Ok m else m ← sto m dest 0; zero_fill fuel m (dest + 1) (n - 1)
  end.
Fixpoint strncpy_loop (fuel : nat) (m : mem) (dest src n : Z) : res mem :=
  match fuel with
  | O => Stuck
  | S fuel =>
      if n =? 0 then Ok m
      else
        b ← ld m src;
        m ← sto m dest b;
        if b =? 0 then zero_fill (mem_fuel m) m (dest + 1) (n - 1)
        else strncpy_loop fuel m (dest + 1) (src + 1) (n - 1)
  end.
Definition strncpy (m : mem) (dest src n : Z) : res (Z * mem) :=
  m ← strncpy_loop (mem_fuel m) m dest src n; Ok (dest, m).

(** The [do ... while] of [strncat]; the result is where the final zero goes. *)
Fixpoint strncat_loop (fuel : nat) (m : mem) (d s n : Z) : res (Z * mem) :=
  match fuel with
  | O => Stuck
  | S fuel =>
      b ← ld m s;
      m ← sto m d b;
      if b =? 0 then Ok (d, m)
      else
        let n := u64 (n - 1) in
        if negb (n =? 0) then strncat_loop fuel m (d + 1) (s + 1) n else Ok (d + 1, m)
  end.
Definition strncat (m : mem) (dst src n : Z) : res (Z * mem) :=
  if negb (n =? 0) then
    d ← end_loop (mem_fuel m) m dst;
    '(d, m) ← strncat_loop (mem_fuel m) m d src n;
    m ← sto m d 0;
    Ok (dst, m)
  else Ok (dst, m).

(** [while (--nleft != 0) if (( *dst++ = *src++) == 0) break;] *)
Fixpoint strlcpy_loop (fuel : nat) (m : mem) (dst src nleft : Z) : res (Z * Z * Z * mem) :=
  match fuel with
  | O => Stuck
  | S fuel =>
      let nleft := u64 (nleft - 1) in
      if negb (nleft =? 0) then
        b ← ld m src;
        m ← sto m dst b;
        if b =? 0 then Ok (dst + 1, src + 1, nleft, m)
        else strlcpy_loop fuel m (dst + 1) (src + 1) nleft
      else Ok (dst, src, nleft, m)
  end.
Definition strlcpy (m : mem) (dst src dsize : Z) : res (Z * mem) :=
  '(dst, s, nleft, m) ← (if negb (dsize =? 0) then strlcpy_loop (mem_fuel m) m dst src dsize
                         else Ok (dst, src, dsize, m));
  if nleft =? 0 then
    m ← (if negb (dsize =? 0) then sto m dst 0 else Ok m);
    e ← end_loop (mem_fuel m) m s;
    Ok (u64 (e + 1 - src - 1), m)
  else Ok (u64 (s - src - 1), m).

(** [while (n-- != 0 && *dst != 0) dst++;] *)
Fixpoint strlcat_end (fuel : nat) (m : mem) (dst n : Z) : res Z :=
  match fuel with
  | O => Stuck
  | S fuel =>
      if negb (n =? 0) then
        b ← ld m dst;
        if negb (b =? 0) then strlcat_end fuel m (dst + 1) (n - 1) else Ok dst
      else Ok dst
  end.
Fixpoint strlcat_copy (fuel : nat) (m : mem) (dst src n : Z) : res (Z * Z * mem) :=
  match fuel with
  | O => Stuck
  | S fuel =>
      b ← ld m src;
      if negb (b =? 0) then
        if negb (n =? 0) then
          m ← sto m dst b;
          strlcat_copy fuel m (dst + 1) (src + 1) (n - 1)
        else strlcat_copy fuel m dst (src + 1) n
      else Ok (dst, src, m)
  end.
Definition strlcat (m : mem) (dst src dsize : Z) : res (Z * mem) :=
  d ← strlcat_end (mem_fuel m) m dst dsize;
  let dlen := d - dst in
  let n := u64 (dsize - dlen) in
  if n =? 0 then
    l ← strlen m src;
    Ok (u64 (dlen + l), m)
  else
    '(d, s, m) ← strlcat_copy (mem_fuel m) m d src (n - 1);
    m ← sto m d 0;
    Ok (u64 (dlen + (s - src)), m).

(** ** Comparison and search *)

(** The result is the difference of the first bytes that differ. *)
Fixpoint strcmp_loop (fuel : nat) (m : mem) (s1 s2 : Z) : res Z :=
  match fuel with
  | O => Stuck
  | S fuel =>
      b1 ← ld m s1;
      b2 ← ld m s2;
      if b1 =? b2 then if b1 =? 0 then Ok 0 else strcmp_loop fuel m (s1 + 1) (s2 + 1)
      else Ok (b1 - b2)
  end.
Definition strcmp (m : mem) (s1 s2 : Z) : res Z := strcmp_loop (mem_fuel m) m s1 s2.
Definition strcoll (m : mem) (s1 s2 : Z) : res Z := strcmp m s1 s2.

Fixpoint strncmp_loop (fuel : nat) (m : mem) (s1 s2 n : Z) : res Z :=
  match fuel with
  | O => Stuck
  | S fuel =>
      if n =? 0 then Ok 0
      else
        b1 ← ld m s1;
        b2 ← ld m s2;
        if negb (b1 =? b2) then Ok (b1 - b2) else strncmp_loop fuel m (s1 + 1) (s2 + 1) (n - 1)
  end.
Definition strncmp (m : mem) (s1 s2 n : Z) : res Z := strncmp_loop (mem_fuel m) m s1 s2 n.

(** The table of strcasecmp.c: the upper case letters are mapped to lower case,
    every other byte to itself. *)
Definition charmap : list Z := seqZ 0 65 ++ seqZ 97 26 ++ seqZ 91 165.

Fixpoint strcasecmp_loop (fuel : nat) (m : mem) (us1 us2 : Z) : res Z :=
  match fuel with
  | O => Stuck
  | S fuel =>
      b1 ← ld m us1;
      b2 ← ld m us2;
      c1 ← aget charmap b1;
      c2 ← aget charmap b2;
      if c1 =? c2 then if b1 =? 0 then Ok 0 else strcasecmp_loop fuel m (us1 + 1) (us2 + 1)
      else Ok (c1 - c2)
  end.
Definition strcasecmp (m : mem) (s1 s2 : Z) : res Z := strcasecmp_loop (mem_fuel m) m s1 s2.

Fixpoint strncasecmp_loop (fuel : nat) (m : mem) (us1 us2 n : Z) : res Z :=
  match fuel with
  | O => Stuck
  | S fuel =>
      b1 ← ld m us1;
      b2 ← ld m us2;
      c1 ← aget charmap b1;
      c2 ← aget charmap b2;
      if negb (c1 =? c2) then Ok (c1 - c2)
      else if b1 =? 0 then Ok 0
      else
        let n := u64 (n - 1) in
        if negb (n =? 0) then strncasecmp_loop fuel m (us1 + 1) (us2 + 1) n else Ok 0
  end.
Definition strncasecmp (m : mem) (s1 s2 n : Z) : res Z :=
  if negb (n =? 0) then strncasecmp_loop (mem_fuel m) m s1 s2 n else Ok 0.

Fixpoint strchr_loop (fuel : nat) (m : mem) (p c : Z) : res Z :=
  match fuel with
  | O => Stuck
  | S fuel =>
      b ← ld m p;
      if b =? c then Ok p else if b =? 0 then Ok 0 else strchr_loop fuel m (p + 1) c
  end.
Definition strchr (m : mem) (p ch : Z) : res Z := strchr_loop (mem_fuel m) m p (u8 ch).

Fixpoint strrchr_loop (fuel : nat) (m : mem) (p c save : Z) : res Z :=
  match fuel with
  | O => Stuck
  | S fuel =>
      b ← ld m p;
      let save := if b =? c then p else save in
      if b =? 0 then Ok save else strrchr_loop fuel m (p + 1) c save
  end.
Definition strrchr (m : mem) (p ch : Z) : res Z := strrchr_loop (mem_fuel m) m p (u8 ch) 0.

Fixpoint strpbrk_inner (fuel : nat) (m : mem) (scanp c : Z) : res bool :=
  match fuel with
  | O => Stuck
  | S fuel =>
      sc ← ld m scanp;
      if sc =? 0 then Ok false
      else if sc =? c then Ok true else strpbrk_inner fuel m (scanp + 1) c
  end.
Fixpoint strpbrk_loop (fuel : nat) (m : mem) (s1 s2 : Z) : res Z :=
  match fuel with
  | O => Stuck
  | S fuel =>
      c ← ld m s1;
      if c =? 0 then Ok 0
      else
        hit ← strpbrk_inner (mem_fuel m) m s2 c;
        if hit : bool then Ok s1 else strpbrk_loop fuel m (s1 + 1) s2
  end.
Definition strpbrk (m : mem) (s1 s2 : Z) : res Z := strpbrk_loop (mem_fuel m) m s1 s2.

(** The inner [do] of [strnstr]: [None] when the search ends. *)
Fixpoint strnstr_scan (fuel : nat) (m : mem) (s c slen : Z) : res (option (Z * Z)) :=
  match fuel with
  | O => Stuck
  | S fuel =>
      if slen <? 1 then Ok None
      else
        sc ← ld m s;
        if sc =? 0 then Ok None
        else if negb (sc =? c) then strnstr_scan fuel m (s + 1) c (slen - 1)
        else Ok (Some (s + 1, slen - 1))
  end.
Fixpoint strnstr_loop (fuel : nat) (m : mem) (s find c len slen : Z) : res Z :=
  match fuel with
  | O => Stuck
  | S fuel =>
      r ← strnstr_scan (mem_fuel m) m s c slen;
      match r with
      | None => Ok 0
      | Some (s, slen) =>
          if slen <? len then Ok 0
          else
            d ← strncmp m s find len;
            if negb (d =? 0) then strnstr_loop fuel m s find c len slen else Ok (s - 1)
      end
  end.
Definition strnstr (m : mem) (s find slen : Z) : res Z :=
  c ← ld m find;
  if negb (c =? 0) then
    len ← strlen m (find + 1);
    strnstr_loop (mem_fuel m) m s (find + 1) c len slen
  else Ok s.

(** ** Functions made of the ones above *)

(** [dest] is the address the allocator returned, zero when it has no memory;
    the block is zeroed by [calloc]. *)
Definition strdup (m : mem) (dest in_ : Z) : res (Z * mem) :=
  len ← strlen m in_;
  if dest =? 0 then Ok (0, m)
  else
    m ← ston m dest (replicate (Z.to_nat (len + 1)) 0);
    '(_, m) ← memcpy m dest in_ len;
    Ok (dest, m).
Definition strndup (m : mem) (copy in_ maxlen : Z) : res (Z * mem) :=
  len ← strnlen m in_ maxlen;
  if negb (copy =? 0) then
    '(_, m) ← memcpy m copy in_ len;
    m ← sto m (copy + len) 0;
    Ok (copy, m)
  else Ok (copy, m).

Definition strxfrm (m : mem) (dst src n : Z) : res (Z * mem) :=
  if n =? 0 then l ← strlen m src; Ok (l, m) else strlcpy m dst src n.
Definition strxfrm_l (m : mem) (s1 s2 n : Z) : res (Z * mem) := strxfrm m s1 s2 n.

(** ** Scanning *)

Lemma cstr_cons m a c s : cstr m a (c :: s) <-> m !! a = Some c /\ 0 < c < 256 /\ cstr m (a + 1) s.
Proof. unfold cstr. rewrite <- app_comm_cons, bytes_at_cons, Forall_cons. tauto. Qed.
Lemma cstr_nil m a : cstr m a [] <-> m !! a = Some 0.
Proof.
  unfold cstr. cbn. rewrite bytes_at_cons. split; [tauto|]. intros. split; [|done].
  split; [done|apply bytes_at_nil].
Qed.
Lemma cstr_fuel m a s : cstr m a s -> (length s < mem_fuel m)%nat.
Proof. intros [H _]. apply bytes_at_fuel in H. rewrite length_app in H. cbn in H. lia. Qed.

(** One step of a loop that has just loaded a character of a string. *)
Ltac char_step H :=
  let H0 := fresh "H0" in let Hc := fresh "Hc" in let Hs := fresh "Hs" in
  apply cstr_cons in H as (H0 & Hc & Hs); rewrite (ld_ok _ _ _ H0); cbn [mbind res_bind].

Lemma end_loop_ok m s : forall a fuel,
  cstr m a s -> (length s < fuel)%nat -> end_loop fuel m a = Ok (a + Z.of_nat (length s)).
Proof.
  induction s as [|c s IH]; intros a [|fuel] H Hf; cbn [length] in Hf; try lia; cbn [end_loop].
  - apply cstr_nil in H. rewrite (ld_ok _ _ _ H). cbn. by rewrite Z.add_0_r.
  - char_step H. replace (c =? 0) with false by lia. rewrite IH by (done || lia). f_equal. cbn [length]. lia.
Qed.

Lemma strnlen_ok m s : forall a len maxlen fuel,
  cstr m a s -> (length s < fuel)%nat -> 0 <= len ->
  strnlen_loop fuel m a len maxlen = Ok (if len <? maxlen then Z.min (len + Z.of_nat (length s)) maxlen else len).
Proof.
  induction s as [|c s IH]; intros a len maxlen [|fuel] H Hf Hl; cbn [length] in *; try lia; cbn [strnlen_loop].
  - destruct (Z.ltb_spec len maxlen); [|done]. apply cstr_nil in H. rewrite (ld_ok _ _ _ H). cbn.
    f_equal. lia.
  - destruct (Z.ltb_spec len maxlen); [|done]. char_step H. replace (c =? 0) with false by lia.
    rewrite IH by (done || lia). f_equal. destruct (Z.ltb_spec (len + 1) maxlen); lia.
Qed.

(** ** Finding a zero byte in a word *)

Fixpoint ones (n : nat) : Z := match n with O => 0 | S n => 1 + 256 * ones n end.

Lemma zero_byte_bit l : Forall byte l -> 0 ∈ l ->
  exists i, (i < length l)%nat /\
    Z.testbit (le_word l - ones (length l)) (8 * Z.of_nat i + 7) = true /\
    Z.testbit (le_word l) (8 * Z.of_nat i + 7) = false.
Proof.
  induction l as [|b l IH]; intros Hb Hz; [by apply elem_of_nil in Hz|].
  apply Forall_cons in Hb as [Hb0 Hb].
  rewrite le_word_cons by done. cbn [length ones].
  assert (forall x k i, 0 <= x < 256 -> 0 <= i -> Z.testbit (x + 256 * k) (8 * (i + 1) + 7) = Z.testbit k (8 * i + 7)) as Hup.
  { intros x k i Hx Hi. replace (8 * (i + 1) + 7) with (8 * i + 7 + 8) by lia.
    rewrite <- Z.shiftr_spec by lia. rewrite Z.shiftr_div_pow2 by lia. change (2 ^ 8) with 256.
    rewrite Z.mul_comm, Z.div_add by lia. by rewrite Z.div_small by lia. }
  destruct (decide (b = 0)) as [->|Hne].
  - exists 0%nat. split; [lia|]. cbn [Z.of_nat].
    assert (forall x k, 0 <= x < 256 -> Z.testbit (x + 256 * k) 7 = Z.testbit x 7) as Hlow.
    { intros x k Hx. rewrite <- (Z.mod_pow2_bits_low _ 8) by lia. change (2 ^ 8) with 256.
      rewrite Z.mul_comm, Z_mod_plus_full. by rewrite Z.mod_small by lia. }
    change (8 * 0 + 7) with 7. split.
    + replace (0 + 256 * le_word l - (1 + 256 * ones (length l)))
        with (255 + 256 * (le_word l - ones (length l) - 1)) by lia. by rewrite Hlow by lia.
    + by rewrite Hlow by lia.
  - destruct IH as (i & Hi & H1 & H2); [done|apply elem_of_cons in Hz as [?|?]; [by subst|done]|].
    exists (S i). split; [lia|]. rewrite Nat2Z.inj_succ, <- Z.add_1_r. unfold byte in *.
    replace (b + 256 * le_word l - (1 + 256 * ones (length l)))
      with (b - 1 + 256 * (le_word l - ones (length l))) by lia.
    rewrite !Hup by lia. done.
Qed.

(** The word test never misses a zero byte. *)
Lemma has_zero_complete l : Forall byte l -> length l = 8%nat -> 0 ∈ l -> has_zero (le_word l) = true.
Proof.
  intros Hb Hl Hz. destruct (zero_byte_bit l Hb Hz) as (i & Hi & H1 & H2). rewrite Hl in *.
  change (ones 8) with mask01 in H1. unfold has_zero. apply negb_true_iff, Z.eqb_neq. intros E.
  apply (f_equal (fun z => Z.testbit z (8 * Z.of_nat i + 7))) in E. rewrite Z.testbit_0_l in E.
  rewrite !Z.land_spec in E. unfold u64 in E. rewrite !testbit_wrap, Z.lnot_spec in E by lia.
  rewrite H1, H2 in E. replace (8 * Z.of_nat i + 7 <? 64) with true in E by lia.
  assert (Z.testbit mask80 (8 * Z.of_nat i + 7) = true) as E80 by (do 8 (destruct i as [|i]; [done|]); lia).
  by rewrite E80 in E.
Qed.

(** ** [strlen] *)

(** Every cell of the memory holds a byte. *)
Definition mem_ok (m : mem) : Prop := forall a b, m !! a = Some b -> byte b.

Section Strlen.
Context (m : mem) (str e : Z) (Hmem : mem_ok m).
Context (Hnz : forall a, str <= a < e -> exists c, m !! a = Some c /\ c <> 0) (Hz : m !! e = Some 0).

Lemma strlen_head_ok fuel : forall p lp, str <= p <= e -> 0 <= lp - p < Z.of_nat fuel ->
  strlen_head fuel m str p lp = Ok (if e <? lp then Some (e - str) else None).
Proof using Hnz Hz.
  induction fuel as [|fuel IH]; intros p lp Hp Hf; cbn [strlen_head]; [lia|].
  destruct (Z.ltb_spec p lp).
  - destruct (decide (p = e)) as [->|Hne].
    + rewrite (ld_ok _ _ _ Hz). cbn. by replace (e <? lp) with true by lia.
    + destruct (Hnz p) as (c & Hc & Hc0); [lia|]. rewrite (ld_ok _ _ _ Hc). cbn.
      replace (c =? 0) with false by lia. apply IH; lia.
  - by replace (e <? lp) with false by lia.
Qed.

Lemma testbytes_ok n : forall p x, str <= p + x <= e -> mapped m (p + x) (Z.of_nat n) ->
  testbytes n m str p x = Ok (if e <? p + x + Z.of_nat n then Some (e - str) else None).
Proof using Hnz Hz.
  induction n as [|n IH]; intros p x Hp Hm; cbn [testbytes].
  - by replace (e <? p + x + Z.of_nat 0) with false by blia.
  - destruct (decide (p + x = e)) as [E|Hne].
    + rewrite E, (ld_ok _ _ _ Hz). cbn [mbind res_bind]. replace (0 =? 0) with true by done.
      replace (e <? e + Z.of_nat (S n)) with true by blia. do 2 f_equal. lia.
    + destruct (Hnz (p + x)) as (c & Hc & Hc0); [lia|]. rewrite (ld_ok _ _ _ Hc). cbn [mbind res_bind].
      replace (c =? 0) with false by lia. rewrite IH; [|lia|eapply mapped_sub; [exact Hm|lia|lia]].
      by replace (p + (x + 1) + Z.of_nat n) with (p + x + Z.of_nat (S n)) by lia.
Qed.

(** A word that holds the terminator passes the test. *)
Lemma word_hit lp l : bytes_at m lp l -> length l = 8%nat -> lp <= e < lp + 8 -> has_zero (le_word l) = true.
Proof using Hmem Hz.
  intros Hl Hlen He. apply has_zero_complete; [|done|].
  - apply Forall_lookup. intros i x Hx. apply Hl in Hx. by apply Hmem in Hx.
  - destruct (lookup_lt_is_Some_2 l (Z.to_nat (e - lp))) as [x Hx]; [lia|].
    apply list_elem_of_lookup. exists (Z.to_nat (e - lp)). rewrite Hx. apply Hl in Hx.
    replace (lp + Z.of_nat (Z.to_nat (e - lp))) with e in Hx by lia. congruence.
Qed.

Lemma ldw_ok lp : mapped m lp 8 -> exists l, bytes_at m lp l /\ length l = 8%nat /\ ldw m lp 8 = Ok (le_word l).
Proof using.
  intros H. apply mapped_bytes in H as (l & Hl & Hn); [|lia]. exists l. split_and!; [done|lia|].
  unfold ldw. replace 8%nat with (length l) by lia. by rewrite ldn_ok.
Qed.

Lemma strlen_words_ok fuel : forall lp, str <= lp <= e -> (e - lp) / 8 < Z.of_nat fuel ->
  (exists k, e < lp + 8 * k /\ mapped m lp (8 * k) /\ lp + 8 * (k - 1) <= e) ->
  strlen_words fuel m str lp = Ok (e - str).
Proof using Hmem Hnz Hz.
  induction fuel as [|fuel IH]; intros lp Hp Hf (k & Hk & Hm & Hk'); cbn [strlen_words].
  { assert (0 <= (e - lp) / 8) by (apply Z.div_pos; lia). lia. }
  assert (1 <= k) by lia.
  destruct (ldw_ok lp) as (l & Hl & Hlen & ->); [eapply mapped_sub; [exact Hm|lia|lia]|]. cbn [mbind res_bind].
  assert (testbytes 8 m str lp 0 = Ok (if e <? lp + 0 + 8 then Some (e - str) else None)) as Ht.
  { apply testbytes_ok; [lia|]. eapply mapped_sub; [exact Hm|lia|lia]. }
  rewrite Z.add_0_r in Ht. destruct (Z.ltb_spec e (lp + 8)).
  - rewrite (word_hit lp l Hl Hlen), Ht by lia. done.
  - assert ((if has_zero (le_word l) then testbytes 8 m str lp 0 else Ok None) = Ok None) as ->
      by (by destruct (has_zero _)). cbn [mbind res_bind].
    apply IH; [lia| |].
    + replace (e - lp) with (e - (lp + 8) + 1 * 8) in Hf by lia. rewrite Z.div_add in Hf by lia. lia.
    + exists (k - 1). split_and!; [lia| |lia]. eapply mapped_sub; [exact Hm|lia|lia].
Qed.

End Strlen.

(** The words that the scan of a string at [a] with terminator at [e] loads. *)
Definition words_mapped (m : mem) (a e : Z) : Prop :=
  mapped m (8 * (a / 8)) (8 * (e / 8 + 1) - 8 * (a / 8)).

Lemma align_down a : Z.land a (Z.lnot 7) = 8 * (a / 8).
Proof.
  change (Z.lnot 7) with (Z.lnot (Z.ones 3)). rewrite <- Z.ldiff_land, Z.ldiff_ones_r by lia.
  rewrite Z.shiftl_mul_pow2, Z.shiftr_div_pow2 by lia. change (2 ^ 3) with 8. lia.
Qed.

Lemma cstr_chars m a s : cstr m a s ->
  (forall x, a <= x < a + Z.of_nat (length s) -> exists c, m !! x = Some c /\ c <> 0) /\
  m !! (a + Z.of_nat (length s)) = Some 0.
Proof.
  revert a. induction s as [|c s IH]; intros a H.
  - apply cstr_nil in H. cbn. rewrite Z.add_0_r. split; [lia|done].
  - apply cstr_cons in H as (H0 & Hc & Hs). destruct (IH _ Hs) as [H1 H2]. cbn [length].
    replace (a + Z.of_nat (S (length s))) with (a + 1 + Z.of_nat (length s)) by lia. split; [|done].
    intros x Hx. destruct (decide (x = a)) as [->|]; [exists c; split; [done|lia]|]. apply H1. lia.
Qed.

Lemma strlen_ok m a s :
  mem_ok m -> cstr m a s -> words_mapped m a (a + Z.of_nat (length s)) ->
  strlen m a = Ok (Z.of_nat (length s)).
Proof.
  intros Hmem Hs Hm. destruct (cstr_chars m a s Hs) as [Hnz Hz].
  set (e := a + Z.of_nat (length s)) in *. unfold words_mapped in Hm.
  assert (a / 8 <= e / 8) by (apply Z.div_le_mono; lia).
  pose proof (Z.mod_pos_bound a 8). pose proof (Z.mod_pos_bound e 8).
  pose proof (Z_div_mod_eq_full a 8). pose proof (Z_div_mod_eq_full e 8).
  unfold strlen. rewrite align_down. set (lp := 8 * (a / 8)) in *.
  destruct (ldw_ok m lp) as (l & Hl & Hlen & ->); [eapply mapped_sub; [exact Hm|lia|lia]|].
  cbn [mbind res_bind].
  assert (strlen_head 9 m a a (lp + 8) = Ok (if e <? lp + 8 then Some (e - a) else None)) as Hh.
  { eapply strlen_head_ok; [exact Hnz|exact Hz|lia|lia]. }
  destruct (Z.ltb_spec e (lp + 8)) as [Hlt|Hge].
  - rewrite (word_hit m e Hmem Hz lp l Hl Hlen), Hh by lia. cbn. f_equal. lia.
  - assert ((if has_zero (le_word l) then strlen_head 9 m a a (lp + 8) else Ok None) = Ok None) as ->
      by (by destruct (has_zero _)). cbn [mbind res_bind].
    rewrite (strlen_words_ok m a e Hmem Hnz Hz); [f_equal; lia|lia| |].
    + assert ((e - (lp + 8)) / 8 <= Z.of_nat (length s)) by (apply Z.div_le_upper_bound; lia).
      apply cstr_fuel in Hs. lia.
    + exists (e / 8 - a / 8). split_and!; [lia| |lia]. eapply mapped_sub; [exact Hm|lia|lia].
Qed.

(** ** Block copies *)

Lemma inc_int_ok i : i + 1 < 2 ^ 31 -> inc_int i = Ok (i + 1).
Proof. intros. unfold inc_int. by replace (i + 1 <? 2 ^ 31) with true by mlia. Qed.

(** A source that stays as it is while the target is written. *)
Record copyable (m : mem) (dst src : Z) (l : list Z) : Prop := {
  cp_src : bytes_at m src l;
  cp_dst : mapped m dst (Z.of_nat (length l));
  cp_byte : Forall byte l;
  cp_disj : disjoint_ranges dst (Z.of_nat (length l)) src (Z.of_nat (length l))
}.

(** Copying a prefix leaves the rest copyable. *)
Lemma copyable_app m dst src l1 l2 :
  copyable m dst src (l1 ++ l2) ->
  bytes_at m src l1 /\ mapped m dst (Z.of_nat (length l1)) /\ Forall byte l1 /\
  copyable (mput m dst l1) (dst + Z.of_nat (length l1)) (src + Z.of_nat (length l1)) l2.
Proof.
  intros [Hs Hd Hb Hx]. apply bytes_at_app in Hs as [Hs1 Hs2]. apply Forall_app in Hb as [Hb1 Hb2].
  unfold disjoint_ranges in *. rewrite length_app in *. split_and!; try done.
  - eapply mapped_sub; [exact Hd|lia|lia].
  - split; try done.
    + apply mput_bytes_at_ne; [done|]. unfold disjoint_ranges. lia.
    + apply mput_mapped. eapply mapped_sub; [exact Hd|lia|lia].
    + unfold disjoint_ranges. lia.
Qed.

Lemma memcpy_words_ok fuel : forall m dst src l k i,
  copyable m dst src l -> length l = (4 * k)%nat -> (k < fuel)%nat -> 0 <= i ->
  i + Z.of_nat k < 2 ^ 31 ->
  memcpy_words fuel m dst src (i + Z.of_nat k) i = Ok (i + Z.of_nat k, mput m dst l).
Proof.
  induction fuel as [|fuel IH]; intros m dst src l k i Hc Hl Hf Hi Hk; [lia|]. cbn [memcpy_words].
  destruct k as [|k].
  - destruct l; [|done]. replace (i + Z.of_nat 0) with i by lia. by rewrite Z.ltb_irrefl.
  - replace (i <? i + Z.of_nat (S k)) with true by blia.
    rewrite <- (take_drop 4 l) in Hc. apply copyable_app in Hc as (Hs & Hd & Hb & Hc).
    assert (length (take 4 l) = 4%nat) as Hl4 by (rewrite length_take; lia).
    pose proof (ldn_ok _ _ _ Hs) as Hld. rewrite Hl4 in *. rewrite Hld. cbn [mbind res_bind].
    rewrite ston_ok by (by rewrite ?Hl4). cbn [mbind res_bind].
    rewrite inc_int_ok by lia. cbn [mbind res_bind].
    replace (i + Z.of_nat (S k)) with (i + 1 + Z.of_nat k) by lia. change (Z.of_nat 4) with 4 in *.
    rewrite (IH _ _ _ (drop 4 l) k (i + 1) Hc); [|rewrite length_drop; lia|lia..].
    do 2 f_equal. rewrite <- (take_drop 4 l) at 3. by rewrite mput_app, Hl4.
Qed.

Lemma memcpy_bytes_ok fuel : forall m dst src l x,
  copyable m dst src l -> (length l < fuel)%nat -> x + Z.of_nat (length l) < 2 ^ 31 ->
  memcpy_bytes fuel m dst src (x + Z.of_nat (length l)) x = Ok (mput m dst l).
Proof.
  induction fuel as [|fuel IH]; intros m dst src l x Hc Hf Hk; [lia|]. cbn [memcpy_bytes].
  destruct l as [|b l]; cbn [length] in *.
  - by replace (x <? x + Z.of_nat 0) with false by blia.
  - replace (x <? x + Z.of_nat (S (length l))) with true by blia.
    apply (copyable_app _ _ _ [b] l) in Hc as (Hs & Hd & Hb & Hc). cbn in Hd, Hc.
    apply bytes_at_cons in Hs as [Hs _]. inversion Hb; subst.
    rewrite (ld_ok _ _ _ Hs). cbn [mbind res_bind].
    rewrite sto_ok; [|by apply (mapped_hd _ _ _ Hd)|done]. cbn [mbind res_bind].
    rewrite inc_int_ok by lia. cbn [mbind res_bind].
    replace (x + Z.of_nat (S (length l))) with (x + 1 + Z.of_nat (length l)) by lia.
    change (Z.of_nat 1) with 1 in *.
    by rewrite (IH _ _ _ l (x + 1) Hc) by lia.
Qed.

Lemma memcpy_ok m dst src l :
  copyable m dst src l -> Z.of_nat (length l) < 2 ^ 31 ->
  memcpy m dst src (Z.of_nat (length l)) = Ok (dst, mput m dst l).
Proof.
  intros Hc Hl. unfold memcpy. set (k := (length l / 4)%nat).
  pose proof (Nat.div_mod_eq (length l) 4) as Hdm. fold k in Hdm.
  pose proof (Nat.mod_upper_bound (length l) 4).
  assert (Z.of_nat (length l) / 4 = 0 + Z.of_nat k) as -> by (subst k; rewrite Nat2Z.inj_div; lia).
  pose proof (bytes_at_fuel _ _ _ (cp_src _ _ _ _ Hc)) as Hfuel.
  rewrite <- (take_drop (4 * k) l) in Hc. pose proof Hc as Hc0.
  apply copyable_app in Hc as (Hs & Hd & Hb & Hc).
  assert (length (take (4 * k) l) = (4 * k)%nat) as Hl4 by (rewrite length_take; lia).
  rewrite (memcpy_words_ok _ m dst src (take (4 * k) l) k 0); [|..]; try done; try lia.
  2:{ split; try done. destruct Hc0 as [_ _ _ Hx]. rewrite take_drop in Hx. unfold disjoint_ranges in *.
      rewrite Hl4. lia. }
  cbn [mbind res_bind]. rewrite Hl4 in Hc.
  replace (2 ^ 31 <=? (0 + Z.of_nat k) * 4) with false by blia.
  assert (mput (mput m dst (take (4 * k) l)) (dst + Z.of_nat (4 * k)) (drop (4 * k) l) = mput m dst l) as Hput.
  { rewrite <- Hl4 at 2. by rewrite <- mput_app, take_drop. }
  destruct (Z.eqb_spec ((0 + Z.of_nat k) * 4) (Z.of_nat (length l))) as [E|E]; cbn [negb].
  - cbn [mbind res_bind]. rewrite <- Hput. rewrite drop_ge by lia. done.
  - replace (dst + 4 * (0 + Z.of_nat k)) with (dst + Z.of_nat (4 * k)) by lia.
    replace (src + 4 * (0 + Z.of_nat k)) with (src + Z.of_nat (4 * k)) by lia.
    assert (Z.of_nat (length l) = (0 + Z.of_nat k) * 4 + Z.of_nat (length (drop (4 * k) l))) as ->
      by (rewrite length_drop; lia).
    rewrite memcpy_bytes_ok; [by rewrite Hput|done| |rewrite length_drop; lia].
    rewrite length_drop. unfold mem_fuel in *. rewrite mput_size by done. lia.
Qed.

Lemma memmove_ok tmp m dest src l :
  bytes_at m src l -> Forall byte l -> Z.of_nat (length l) < 2 ^ 31 ->
  mapped m dest (Z.of_nat (length l)) -> mapped m tmp (Z.of_nat (length l)) ->
  disjoint_ranges tmp (Z.of_nat (length l)) src (Z.of_nat (length l)) ->
  disjoint_ranges tmp (Z.of_nat (length l)) dest (Z.of_nat (length l)) ->
  memmove tmp m dest src (Z.of_nat (length l)) = Ok (dest, mput (mput m tmp l) dest l).
Proof.
  intros Hs Hb Hl Hd Ht D1 D2. unfold memmove. rewrite memcpy_ok by done. cbn [mbind res_bind].
  rewrite memcpy_ok; [done| |done]. split; auto with cmem. unfold disjoint_ranges in *. lia.
Qed.

Lemma rep_stos_ok fuel : forall m a width k,
  0 < width -> mapped m a (width * Z.of_nat k) -> (k < fuel)%nat ->
  rep_stos fuel m a width (Z.of_nat k) = Ok (mput m a (replicate (Z.to_nat width * k) 0)).
Proof.
  induction fuel as [|fuel IH]; intros m a width k Hw Hm Hf; [lia|]. cbn [rep_stos]. destruct k as [|k].
  - by rewrite Nat.mul_0_r.
  - replace (Z.of_nat (S k) =? 0) with false by blia.
    rewrite ston_ok; [|rewrite length_replicate; eapply mapped_sub; [exact Hm|lia|lia]
                      |apply Forall_replicate; by unfold byte].
    cbn [mbind res_bind]. replace (Z.of_nat (S k) - 1) with (Z.of_nat k) by lia.
    rewrite IH; [|done| |lia].
    + f_equal. rewrite Nat.mul_succ_r, Nat.add_comm, replicate_add, mput_app, length_replicate.
      f_equal. lia.
    + apply mput_mapped. eapply mapped_sub; [exact Hm|lia|lia].
Qed.

Lemma memclr_ok m start n :
  mapped m start (Z.of_nat n) ->
  memclr m start (Z.of_nat n) = Ok (start + Z.of_nat n, mput m start (replicate n 0)).
Proof.
  intros Hm. unfold memclr. destruct (Z.eqb_spec (Z.of_nat n) 0) as [E|E].
  { destruct n; [|lia]. cbn. by rewrite Z.add_0_r. }
  pose proof (Nat.div_mod_eq n 4). pose proof (Nat.mod_upper_bound n 4).
  assert (Z.of_nat n / 4 = Z.of_nat (n / 4)) as -> by (rewrite Nat2Z.inj_div; lia).
  pose proof (mapped_fuel _ _ _ Hm) as Hf. rewrite Nat2Z.id in Hf.
  rewrite rep_stos_ok; [|lia|eapply mapped_sub; [exact Hm|lia|lia]|lia]. cbn [mbind res_bind].
  set (m1 := mput _ _ _). replace (Z.of_nat n - _) with (Z.of_nat (n mod 4)) by lia.
  assert (mapped m1 start (Z.of_nat n)) as Hm1 by by apply mput_mapped.
  pose proof (mapped_fuel _ _ _ Hm1) as Hf1. rewrite Nat2Z.id in Hf1.
  rewrite rep_stos_ok; [|lia|eapply mapped_sub; [exact Hm1|lia|lia]|lia]. cbn [mbind res_bind].
  do 2 f_equal. subst m1. replace (start + Z.of_nat (n / 4) * 4)
    with (start + Z.of_nat (length (replicate (Z.to_nat 4 * (n / 4)) 0))) by (rewrite length_replicate; lia).
  rewrite <- mput_app, <- replicate_add. f_equal. f_equal. lia.
Qed.

Lemma memset_loop_ok fuel : forall m a value k i,
  mapped m (a + i) (Z.of_nat k) -> (k < fuel)%nat -> 0 <= i -> i + Z.of_nat k < 2 ^ 31 ->
  memset_loop fuel m a value (i + Z.of_nat k) i = Ok (mput m (a + i) (replicate k (u8 value))).
Proof.
  induction fuel as [|fuel IH]; intros m a value k i Hm Hf Hi Hk; [lia|]. cbn [memset_loop]. destruct k as [|k].
  - by replace (i <? i + Z.of_nat 0) with false by blia.
  - replace (i <? i + Z.of_nat (S k)) with true by blia. destruct (mapped_hd _ _ _ Hm) as [x Hx]; [lia|].
    unfold sto. rewrite Hx. cbn [mbind res_bind]. rewrite inc_int_ok by lia. cbn [mbind res_bind].
    replace (i + Z.of_nat (S k)) with (i + 1 + Z.of_nat k) by lia. rewrite IH; [|..]; try lia.
    + cbn [replicate mput]. do 2 f_equal. lia.
    + apply (mput_mapped m (a + i) [u8 value]). eapply mapped_sub; [exact Hm|lia|lia].
Qed.

(** ** String copies *)

Lemma copy_loop_ok fuel : forall m to from s,
  copyable m to from (s ++ [0]) -> Forall (fun c => 0 < c < 256) s -> (length s < fuel)%nat ->
  copy_loop fuel m to from = Ok (mput m to (s ++ [0])).
Proof.
  induction fuel as [|fuel IH]; intros m to from s Hc Hs Hf; [lia|]. cbn [copy_loop].
  assert (exists b r, s ++ [0] = b :: r /\ (b = 0 /\ s = [] /\ r = [] \/ exists s', 0 < b < 256 /\ s = b :: s' /\ r = s' ++ [0]))
    as (b & r & E & Hcase).
  { destruct s as [|b s]; [by exists 0, []; auto|]. exists b, (s ++ [0]). split; [done|].
    apply Forall_cons in Hs as [? _]. eauto. }
  rewrite E in *. apply (copyable_app _ _ _ [b] r) in Hc as (Hs1 & Hd & Hb & Hc). cbn in Hd, Hc.
  apply bytes_at_cons in Hs1 as [Hld _]. apply Forall_cons in Hb as [Hb _].
  rewrite (ld_ok _ _ _ Hld). cbn [mbind res_bind].
  rewrite sto_ok; [|by apply (mapped_hd _ _ _ Hd)|done]. cbn [mbind res_bind].
  destruct Hcase as [(-> & -> & ->)|(s' & Hb0 & -> & ->)]; [done|].
  replace (b =? 0) with false by blia. apply Forall_cons in Hs as [_ Hs]. cbn [length] in Hf.
  change (Z.of_nat 1) with 1 in Hc. by rewrite (IH _ _ _ s' Hc Hs) by lia.
Qed.

Lemma strlcpy_loop_ok fuel : forall m dst src s n,
  cstr m src s -> 1 <= n < 2 ^ 64 ->
  let c := take (Z.to_nat (n - 1)) (s ++ [0]) in
  mapped m dst (Z.of_nat (length c)) ->
  disjoint_ranges dst (Z.of_nat (length c)) src (Z.of_nat (length (s ++ [0]))) ->
  (length c < fuel)%nat ->
  strlcpy_loop fuel m dst src n =
    Ok (dst + Z.of_nat (length c), src + Z.of_nat (length c),
        Z.max 0 (n - 1 - Z.of_nat (length s)), mput m dst c).
Proof.
  induction fuel as [|fuel IH]; intros m dst src s n Hs Hn c Hm Hd Hf; [lia|]. cbn [strlcpy_loop].
  unfold u64. rewrite wrap_small by mlia. destruct (Z.eqb_spec (n - 1) 0) as [E|E]; cbn [negb].
  { subst c. rewrite E in *. cbn. rewrite !Z.add_0_r, Z.max_l by lia. done. }
  assert (Z.to_nat (n - 1) = S (Z.to_nat (n - 1 - 1))) as En by lia.
  destruct s as [|b s].
  - subst c. rewrite En in *. cbn in *. rewrite take_nil in *. apply cstr_nil in Hs.
    rewrite (ld_ok _ _ _ Hs). cbn [mbind res_bind].
    rewrite sto_ok; [|by apply (mapped_hd _ _ _ Hm); cbn; lia|by unfold byte]. cbn.
    rewrite Z.max_r, Z.sub_0_r by lia. done.
  - subst c. rewrite En in *. cbn [app take length] in *. apply cstr_cons in Hs as (H0 & Hc & Hs).
    rewrite (ld_ok _ _ _ H0). cbn [mbind res_bind].
    rewrite sto_ok; [|by apply (mapped_hd _ _ _ Hm); lia|by unfold byte; lia]. cbn [mbind res_bind].
    replace (b =? 0) with false by blia. unfold disjoint_ranges in *.
    set (c := take (Z.to_nat (n - 1 - 1)) (s ++ [0])) in *.
    rewrite (IH (<[dst:=b]> m) (dst + 1) (src + 1) s (n - 1)).
    + fold c. cbn [mput].
      replace (dst + 1 + Z.of_nat (length c)) with (dst + Z.of_nat (S (length c))) by lia.
      replace (src + 1 + Z.of_nat (length c)) with (src + Z.of_nat (S (length c))) by lia.
      by replace (n - 1 - 1 - Z.of_nat (length s)) with (n - 1 - Z.of_nat (S (length s))) by lia.
    + destruct Hs as [Hs Hf']. split; [|done]. apply (mput_bytes_at_ne m dst [b]); [done|].
      unfold disjoint_ranges. rewrite length_app in *. cbn [length] in *.
      assert (length c <= length s + 1)%nat by (subst c; rewrite length_take, length_app; cbn; lia). lia.
    + lia.
    + fold c. apply (mput_mapped m dst [b]). eapply mapped_sub; [exact Hm|lia|lia].
    + fold c. unfold disjoint_ranges. lia.
    + fold c. lia.
Qed.

(** The part of [s] that fits into [dsize] bytes with its terminator. *)
Definition truncated (s : list Z) (dsize : Z) : list Z := take (Z.to_nat (dsize - 1)) s ++ [0].

Lemma cstr_drop m a s k :
  cstr m a s -> (k <= length s)%nat -> cstr m (a + Z.of_nat k) (drop k s).
Proof.
  revert a k. induction s as [|c s IH]; intros a k H Hk; cbn [length] in Hk.
  - replace k with 0%nat by lia. by rewrite Z.add_0_r.
  - destruct k as [|k]; [by rewrite Z.add_0_r|]. apply cstr_cons in H as (_ & _ & H).
    cbn [drop]. replace (a + Z.of_nat (S k)) with (a + 1 + Z.of_nat k) by lia. apply IH; [done|lia].
Qed.

Lemma cstr_put m a l b s :
  cstr m b s -> disjoint_ranges a (Z.of_nat (length l)) b (Z.of_nat (length (s ++ [0]))) ->
  cstr (mput m a l) b s.
Proof. intros [H Hs] D. split; [|done]. by apply mput_bytes_at_ne. Qed.

Lemma strlcpy_ok m dst src s dsize :
  cstr m src s -> Z.of_nat (length s) + 1 < 2 ^ 64 -> 0 < dsize < 2 ^ 64 ->
  let t := truncated s dsize in
  mapped m dst (Z.of_nat (length t)) ->
  disjoint_ranges dst (Z.of_nat (length t)) src (Z.of_nat (length s) + 1) ->
  strlcpy m dst src dsize = Ok (Z.of_nat (length s), mput m dst t).
Proof.
  intros Hs Hlen Hn t Hm Hd. unfold strlcpy. replace (dsize =? 0) with false by blia. cbn [negb].
  set (c := take (Z.to_nat (dsize - 1)) (s ++ [0])).
  assert (length t = Nat.min (Z.to_nat (dsize - 1)) (length s) + 1)%nat as Hlt
    by (subst t; unfold truncated; rewrite length_app, length_take; done).
  assert (length c = Nat.min (Z.to_nat (dsize - 1)) (length s + 1))%nat as Hlc
    by (subst c; rewrite length_take, length_app; done).
  unfold disjoint_ranges in *.
  rewrite (strlcpy_loop_ok _ m dst src s dsize Hs ltac:(lia)); fold c.
  2:{ eapply mapped_sub; [exact Hm|lia|lia]. }
  2:{ unfold disjoint_ranges. rewrite length_app. cbn. lia. }
  2:{ apply mapped_fuel in Hm. lia. }
  cbn [mbind res_bind]. destruct (Z.eqb_spec (Z.max 0 (dsize - 1 - Z.of_nat (length s))) 0) as [E|E].
  - assert (c = take (Z.to_nat (dsize - 1)) s) as Ec by (subst c; apply take_app_le; lia).
    assert (cstr (mput m dst c) (src + Z.of_nat (length c)) (drop (length c) s)) as Hs'.
    { apply cstr_drop; [|lia]. apply cstr_put; [done|]. unfold disjoint_ranges. rewrite length_app. cbn. lia. }
    assert (mapped (mput m dst c) dst (Z.of_nat (length t))) as Hm' by by apply mput_mapped.
    rewrite sto_ok; [|apply Hm'; lia|by unfold byte]. cbn [mbind res_bind].
    assert (<[dst + Z.of_nat (length c) := 0]> (mput m dst c) = mput m dst t) as ->.
    { subst t. unfold truncated. rewrite <- Ec, mput_app. done. }
    assert (cstr (mput m dst t) (src + Z.of_nat (length c)) (drop (length c) s)) as Hs''.
    { apply cstr_drop; [|lia]. apply cstr_put; [done|]. unfold disjoint_ranges. rewrite length_app. cbn. lia. }
    rewrite (end_loop_ok _ _ _ _ Hs'') by by apply (cstr_fuel _ _ _ Hs''). cbn [mbind res_bind].
    do 2 f_equal. rewrite length_drop. unfold u64. rewrite wrap_small by mlia. lia.
  - assert (c = s ++ [0]) as Ec by (subst c; apply take_ge; rewrite length_app; cbn; lia).
    do 2 f_equal.
    + unfold u64. rewrite wrap_small by (rewrite Hlc; mlia). lia.
    + rewrite Ec. subst t. unfold truncated. by rewrite take_ge by lia.
Qed.

Lemma strlcat_end_ok fuel : forall m a s n,
  cstr m a s -> 0 <= n -> (length s < fuel)%nat ->
  strlcat_end fuel m a n = Ok (a + Z.min n (Z.of_nat (length s))).
Proof.
  induction fuel as [|fuel IH]; intros m a s n Hs Hn Hf; [lia|]. cbn [strlcat_end].
  destruct (Z.eqb_spec n 0) as [->|E]; cbn [negb]; [f_equal; lia|]. destruct s as [|c s]; cbn [length] in *.
  - apply cstr_nil in Hs. rewrite (ld_ok _ _ _ Hs). cbn. f_equal. lia.
  - char_step Hs. replace (c =? 0) with false by blia. cbn [negb]. rewrite (IH _ _ s) by (done || lia). f_equal. lia.
Qed.

Lemma strlcat_copy_ok fuel : forall m dst src s n,
  cstr m src s -> 0 <= n ->
  let c := take (Z.to_nat n) s in
  mapped m dst (Z.of_nat (length c)) ->
  disjoint_ranges dst (Z.of_nat (length c)) src (Z.of_nat (length s) + 1) -> (length s < fuel)%nat ->
  strlcat_copy fuel m dst src n =
    Ok (dst + Z.of_nat (length c), src + Z.of_nat (length s), mput m dst c).
Proof.
  induction fuel as [|fuel IH]; intros m dst src s n Hs Hn c Hm Hd Hf; [lia|]. cbn [strlcat_copy].
  subst c. destruct s as [|b s].
  { apply cstr_nil in Hs. rewrite (ld_ok _ _ _ Hs), take_nil. cbn. by rewrite !Z.add_0_r. }
  cbn [length] in *. pose proof Hs as Hs0. apply cstr_cons in Hs as (H0 & Hc & Hs).
  rewrite (ld_ok _ _ _ H0). cbn [mbind res_bind]. replace (b =? 0) with false by blia. cbn [negb].
  unfold disjoint_ranges in *. destruct (Z.eqb_spec n 0) as [->|E]; cbn [negb].
  - rewrite (IH m dst (src + 1) s 0); [|done|lia|exact Hm|unfold disjoint_ranges; cbn [take length] in *; rewrite take_0 in *; cbn [length] in *; lia|lia].
    by replace (src + 1 + Z.of_nat (length s)) with (src + Z.of_nat (S (length s))) by lia.
  - assert (Z.to_nat n = S (Z.to_nat (n - 1))) as En by lia. rewrite En in *. cbn [take length mput] in *.
    rewrite sto_ok; [|by apply (mapped_hd _ _ _ Hm); lia|by unfold byte; lia]. cbn [mbind res_bind].
    set (c := take (Z.to_nat (n - 1)) s) in *.
    rewrite (IH (<[dst:=b]> m) (dst + 1) (src + 1) s (n - 1)); [fold c|..].
    + replace (src + 1 + Z.of_nat (length s)) with (src + Z.of_nat (S (length s))) by lia.
      by replace (dst + 1 + Z.of_nat (length c)) with (dst + Z.of_nat (S (length c))) by lia.
    + assert (length c <= length s)%nat by (subst c; rewrite length_take; lia).
      apply (cstr_put m dst [b]); [done|]. unfold disjoint_ranges. rewrite length_app. cbn [length]. lia.
    + lia.
    + fold c. apply (mput_mapped m dst [b]). eapply mapped_sub; [exact Hm|lia|lia].
    + fold c. unfold disjoint_ranges. lia.
    + lia.
Qed.

Lemma strlcat_ok m dst d src s dsize :
  mem_ok m -> cstr m dst d -> cstr m src s -> words_mapped m src (src + Z.of_nat (length s)) ->
  0 <= dsize < 2 ^ 64 -> Z.of_nat (length d) + Z.of_nat (length s) < 2 ^ 63 ->
  let t := truncated s (dsize - Z.of_nat (length d)) in
  let fits := Z.of_nat (length d) <? dsize in
  (fits = true -> mapped m dst (Z.of_nat (length d + length t)) /\
     disjoint_ranges dst (Z.of_nat (length d + length t)) src (Z.of_nat (length s) + 1)) ->
  strlcat m dst src dsize =
    Ok (u64 (Z.min dsize (Z.of_nat (length d)) + Z.of_nat (length s)),
        if fits then mput m (dst + Z.of_nat (length d)) t else m).
Proof.
  intros Hmem Hd Hs Hw Hn Hlen t fits Hfits. unfold strlcat.
  rewrite (strlcat_end_ok _ m dst d) by (done || lia || by apply (cstr_fuel _ _ _ Hd)). cbn [mbind res_bind].
  replace (dst + Z.min dsize (Z.of_nat (length d)) - dst) with (Z.min dsize (Z.of_nat (length d))) by lia.
  set (dlen := Z.min dsize (Z.of_nat (length d))) in *.
  assert (u64 (dsize - dlen) = dsize - dlen) as -> by (subst dlen; apply wrap_small; mlia). subst dlen fits.
  destruct (Z.ltb_spec (Z.of_nat (length d)) dsize) as [Hlt|Hge].
  - rewrite Z.min_r by lia. replace (dsize - Z.of_nat (length d) =? 0) with false by blia.
    destruct (Hfits eq_refl) as [Hm Hx]. set (room := dsize - Z.of_nat (length d)) in *.
    assert (length t = length (take (Z.to_nat (room - 1)) s) + 1)%nat as Hlt'
      by (subst t; unfold truncated; rewrite length_app; done).
    unfold disjoint_ranges in *.
    rewrite (strlcat_copy_ok _ m _ src s (room - 1)); [|done|lia| | |by apply (cstr_fuel _ _ _ Hs)].
    2:{ eapply mapped_sub; [exact Hm|lia|lia]. }
    2:{ unfold disjoint_ranges. lia. }
    cbn [mbind res_bind]. set (c := take (Z.to_nat (room - 1)) s) in *.
    assert (is_Some (mput m (dst + Z.of_nat (length d)) c !! (dst + Z.of_nat (length d) + Z.of_nat (length c)))) as Hlast.
    { replace (dst + Z.of_nat (length d) + Z.of_nat (length c)) with (dst + Z.of_nat (length d + length c)) by lia.
      apply (mput_mapped _ _ _ _ _ Hm). lia. }
    rewrite sto_ok by (done || by unfold byte).
    cbn [mbind res_bind]. do 2 f_equal; [f_equal; lia|]. subst t. unfold truncated. by rewrite mput_app.
  - rewrite Z.min_l by lia. replace (dsize - dsize =? 0) with true by blia.
    rewrite (strlen_ok m src s) by done. done.
Qed.

(** ** Comparison *)

(** Lexicographic order of byte strings. *)
Fixpoint lex (s1 s2 : list Z) : comparison :=
  match s1, s2 with
  | [], [] => Eq
  | [], _ => Lt
  | _, [] => Gt
  | a :: s1, b :: s2 => match a ?= b with Eq => lex s1 s2 | c => c end
  end.

Lemma lex_eq s1 s2 : lex s1 s2 = Eq <-> s1 = s2.
Proof.
  revert s2. induction s1 as [|a s1 IH]; intros [|b s2]; cbn; try done.
  destruct (Z.compare_spec a b) as [->|?|?]; [rewrite IH|..]; (split; [intros; try done; by f_equal|intros [=]; (done || lia)]).
Qed.

Lemma strcmp_loop_ok fuel : forall m a b s1 s2,
  cstr m a s1 -> cstr m b s2 -> (length s1 < fuel)%nat ->
  exists r, strcmp_loop fuel m a b = Ok r /\ (r ?= 0) = lex s1 s2 /\ -256 < r < 256.
Proof.
  induction fuel as [|fuel IH]; intros m a b s1 s2 H1 H2 Hf; [lia|]. cbn [strcmp_loop].
  assert (forall x s p, cstr m p s -> x = hd 0 s -> m !! p = Some x /\ 0 <= x < 256) as Hhd.
  { intros x [|c s] p H ->; cbn; [apply cstr_nil in H; split; [done|lia]|apply cstr_cons in H as (? & ? & _); split; [done|lia]]. }
  destruct (Hhd _ _ _ H1 eq_refl) as [L1 R1], (Hhd _ _ _ H2 eq_refl) as [L2 R2].
  rewrite (ld_ok _ _ _ L1). cbn [mbind res_bind]. rewrite (ld_ok _ _ _ L2). cbn [mbind res_bind].
  destruct (Z.eqb_spec (hd 0 s1) (hd 0 s2)) as [E|E].
  - destruct (Z.eqb_spec (hd 0 s1) 0) as [E0|E0].
    + exists 0. split; [done|]. split; [|lia]. destruct s1 as [|c s1], s2 as [|d s2]; cbn in *; try done;
      [apply cstr_cons in H2 as (_ & ? & _)|apply cstr_cons in H1 as (_ & ? & _)..]; lia.
    + destruct s1 as [|c s1], s2 as [|d s2]; cbn in *; try lia; subst.
      apply cstr_cons in H1 as (_ & _ & H1), H2 as (_ & _ & H2). rewrite Z.compare_refl. apply IH; (done || lia).
  - exists (hd 0 s1 - hd 0 s2). split; [done|]. split; [|lia].
    destruct s1 as [|c s1], s2 as [|d s2]; cbn in *; try lia.
    + apply cstr_cons in H2 as (_ & ? & _). apply Z.compare_lt_iff. lia.
    + apply cstr_cons in H1 as (_ & ? & _). apply Z.compare_gt_iff. lia.
    + destruct (Z.compare_spec c d) as [->|?|?]; [done|apply Z.compare_lt_iff; lia|apply Z.compare_gt_iff; lia].
Qed.

Lemma strncmp_loop_ok fuel : forall m a b l x y r1 r2 n,
  bytes_at m a (l ++ x :: r1) -> bytes_at m b (l ++ y :: r2) -> x <> y -> Z.of_nat (length l) < n ->
  (length l < fuel)%nat -> strncmp_loop fuel m a b n = Ok (x - y).
Proof.
  induction fuel as [|fuel IH]; intros m a b l x y r1 r2 n H1 H2 Hxy Hn Hf; [lia|]. cbn [strncmp_loop].
  replace (n =? 0) with false by blia. destruct l as [|c l]; cbn [app length] in *.
  - apply bytes_at_cons in H1 as [H1 _], H2 as [H2 _]. rewrite (ld_ok _ _ _ H1). cbn [mbind res_bind].
    rewrite (ld_ok _ _ _ H2). cbn [mbind res_bind]. by replace (x =? y) with false by blia.
  - apply bytes_at_cons in H1 as [H1 H1'], H2 as [H2 H2']. rewrite (ld_ok _ _ _ H1). cbn [mbind res_bind].
    rewrite (ld_ok _ _ _ H2). cbn [mbind res_bind]. rewrite Z.eqb_refl. cbn [negb].
    eapply IH; [exact H1'|exact H2'|done|lia|lia].
Qed.

(** ** Search *)

(** [i] is the position of the first, or last, [c] in [l]. *)
Definition first_at (c : Z) (l : list Z) (i : nat) : Prop :=
  l !! i = Some c /\ forall j, (j < i)%nat -> l !! j <> Some c.
Definition last_at (c : Z) (l : list Z) (i : nat) : Prop :=
  l !! i = Some c /\ forall j, (i < j)%nat -> l !! j <> Some c.

Lemma first_at_cons c b l i : b <> c -> first_at c l i -> first_at c (b :: l) (S i).
Proof. intros Hb [H1 H2]. split; [done|]. intros [|j] Hj; cbn; [congruence|apply H2; lia]. Qed.

Lemma strchr_loop_ok fuel : forall m a s c,
  cstr m a s -> (length s < fuel)%nat ->
  (exists i, strchr_loop fuel m a c = Ok (a + Z.of_nat i) /\ first_at c (s ++ [0]) i) \/
  (strchr_loop fuel m a c = Ok 0 /\ c ∉ s ++ [0]).
Proof.
  induction fuel as [|fuel IH]; intros m a s c Hs Hf; [lia|]. cbn [strchr_loop]. destruct s as [|b s]; cbn [length app] in *.
  - apply cstr_nil in Hs. rewrite (ld_ok _ _ _ Hs). cbn [mbind res_bind]. destruct (Z.eqb_spec 0 c) as [<-|E].
    + left. exists 0%nat. rewrite Z.add_0_r. split; [done|]. split; [done|lia].
    + right. split; [done|]. intros H%list_elem_of_singleton. congruence.
  - char_step Hs. destruct (Z.eqb_spec b c) as [<-|E].
    + left. exists 0%nat. rewrite Z.add_0_r. split; [done|]. split; [done|lia].
    + replace (b =? 0) with false by blia.
      destruct (IH m (a + 1) s c) as [(i & -> & Hi)|[-> Hn]]; [done|lia|..].
      * left. exists (S i). split; [f_equal; lia|]. by apply first_at_cons.
      * right. split; [done|]. apply not_elem_of_cons. split; [congruence|done].
Qed.

Lemma strrchr_loop_ok fuel : forall m a s c save,
  cstr m a s -> (length s < fuel)%nat ->
  (exists i, strrchr_loop fuel m a c save = Ok (a + Z.of_nat i) /\ last_at c (s ++ [0]) i) \/
  (strrchr_loop fuel m a c save = Ok save /\ c ∉ s ++ [0]).
Proof.
  induction fuel as [|fuel IH]; intros m a s c save Hs Hf; [lia|]. cbn [strrchr_loop]. destruct s as [|b s]; cbn [length app] in *.
  - apply cstr_nil in Hs. rewrite (ld_ok _ _ _ Hs). cbn [mbind res_bind]. destruct (Z.eqb_spec 0 c) as [<-|E].
    + left. exists 0%nat. rewrite Z.add_0_r. split; [done|]. split; [done|]. intros [|j] Hj; [lia|done].
    + right. split; [done|]. intros H%list_elem_of_singleton. congruence.
  - char_step Hs. replace (b =? 0) with false by blia.
    destruct (IH m (a + 1) s c (if b =? c then a else save)) as [(i & -> & Hi1 & Hi2)|[-> Hn]]; [done|lia|..].
    + left. exists (S i). split; [f_equal; lia|]. split; [done|]. intros [|j] Hj; [lia|]. apply Hi2. lia.
    + destruct (Z.eqb_spec b c) as [<-|E].
      * left. exists 0%nat. rewrite Z.add_0_r. split; [done|]. split; [done|]. intros [|j] Hj; [lia|]. cbn.
        intros Hl. apply Hn. by apply list_elem_of_lookup; exists j.
      * right. split; [done|]. apply not_elem_of_cons. split; [congruence|done].
Qed.

(** ** The properties *)

(** C36: the word-at-a-time [strlen] returns the length of every string, whatever
    its alignment, reading only whole words that hold a byte of the string. *)
Theorem strlen_spec m a s :
  mem_ok m -> cstr m a s -> words_mapped m a (a + Z.of_nat (length s)) ->
  strlen m a = Ok (Z.of_nat (length s)).
Proof. apply strlen_ok. Qed.

(** [memmove] leaves at [dest] the bytes that were at [src], even when the two
    overlap, and changes no other byte outside its own stack buffer. *)
Theorem memmove_spec tmp m dest src l :
  bytes_at m src l -> Forall byte l -> Z.of_nat (length l) < 2 ^ 31 ->
  mapped m dest (Z.of_nat (length l)) -> mapped m tmp (Z.of_nat (length l)) ->
  disjoint_ranges tmp (Z.of_nat (length l)) src (Z.of_nat (length l)) ->
  disjoint_ranges tmp (Z.of_nat (length l)) dest (Z.of_nat (length l)) ->
  exists m', memmove tmp m dest src (Z.of_nat (length l)) = Ok (dest, m') /\ bytes_at m' dest l /\
    forall a, ~ (dest <= a < dest + Z.of_nat (length l)) -> ~ (tmp <= a < tmp + Z.of_nat (length l)) ->
      m' !! a = m !! a.
Proof.
  intros. eexists. split; [by apply memmove_ok|]. split; [apply mput_bytes_at|].
  intros a Ha Hb. by rewrite !mput_lookup, !decide_False by lia.
Qed.

(** [strlcpy] leaves at [dst] the longest prefix of the string that fits into
    [dsize] bytes, always terminated; it writes nothing beyond that prefix and
    its terminator and returns the length of the whole source. *)
Theorem strlcpy_spec m dst src s dsize :
  cstr m src s -> Z.of_nat (length s) + 1 < 2 ^ 64 -> 0 < dsize < 2 ^ 64 ->
  let n := Z.min (dsize - 1) (Z.of_nat (length s)) in
  mapped m dst (n + 1) -> disjoint_ranges dst (n + 1) src (Z.of_nat (length s) + 1) ->
  exists m', strlcpy m dst src dsize = Ok (Z.of_nat (length s), m') /\
    cstr m' dst (take (Z.to_nat (dsize - 1)) s) /\ cstr m' src s /\
    forall a, ~ (dst <= a <= dst + n) -> m' !! a = m !! a.
Proof.
  intros Hs Hlen Hd n Hm Hx.
  assert (Z.of_nat (length (truncated s dsize)) = n + 1) as Ht
    by (unfold truncated; rewrite length_app, length_take; cbn; lia).
  exists (mput m dst (truncated s dsize)). split_and!.
  - by apply strlcpy_ok; rewrite ?Ht.
  - split; [apply mput_bytes_at|]. apply Forall_take, Hs.
  - apply cstr_put; [done|]. rewrite length_app, Ht. cbn. unfold disjoint_ranges in *. lia.
  - intros a Ha. by rewrite mput_lookup, decide_False by lia.
Qed.

(** [strlcat] appends as much of [src] as fits into a buffer of [dsize] bytes
    and terminates it; when the buffer has no terminator within [dsize] bytes it
    is left alone. It returns the length the result would have had. *)
Theorem strlcat_spec m dst d src s dsize :
  mem_ok m -> cstr m dst d -> cstr m src s -> words_mapped m src (src + Z.of_nat (length s)) ->
  Z.of_nat (length d) + Z.of_nat (length s) < 2 ^ 63 -> 0 <= dsize < 2 ^ 63 ->
  mapped m dst dsize -> disjoint_ranges dst dsize src (Z.of_nat (length s) + 1) ->
  exists m', strlcat m dst src dsize
      = Ok (Z.min dsize (Z.of_nat (length d)) + Z.of_nat (length s), m') /\
    (if Z.of_nat (length d) <? dsize
     then cstr m' dst (take (Z.to_nat (dsize - 1)) (d ++ s)) else m' = m) /\
    forall a, ~ (dst <= a < dst + dsize) -> m' !! a = m !! a.
Proof.
  intros Hmem Hd Hs Hw Hlen Hn Hm Hx. set (t := truncated s (dsize - Z.of_nat (length d))).
  assert (Z.of_nat (length d) < dsize -> Z.of_nat (length d + length t) <= dsize) as Ht
    by (subst t; unfold truncated; rewrite length_app, length_take; cbn; lia).
  eexists. split.
  { rewrite (strlcat_ok m dst d src s dsize); try done; [|lia|].
    - unfold u64. rewrite wrap_small by mlia. done.
    - intros Hf. apply Z.ltb_lt in Hf. fold t. unfold disjoint_ranges in *.
      split; [eapply mapped_sub; [exact Hm|lia|lia]|lia]. }
  fold t. destruct (Z.ltb_spec (Z.of_nat (length d)) dsize) as [Hlt|]; split; try done.
  - destruct Hd as [Hd1 Hd2], Hs as [_ Hs2]. split; [|apply Forall_take, Forall_app; by split].
    rewrite take_app_ge, <- app_assoc by lia. apply bytes_at_app. split.
    + apply bytes_at_app in Hd1 as [Hd1 _]. apply mput_bytes_at_ne; [done|]. unfold disjoint_ranges. lia.
    + replace (Z.to_nat (dsize - 1) - length d)%nat with (Z.to_nat (dsize - Z.of_nat (length d) - 1)) by lia.
      apply mput_bytes_at.
  - intros a Ha. by rewrite mput_lookup, decide_False by lia.
Qed.

(** The sign of [strcmp] is the lexicographic order of the two strings as
    unsigned bytes; it is zero exactly when they are equal. *)
Theorem strcmp_spec m a b s1 s2 :
  cstr m a s1 -> cstr m b s2 ->
  exists r, strcmp m a b = Ok r /\ (r ?= 0) = lex s1 s2 /\ (r = 0 <-> s1 = s2).
Proof.
  intros H1 H2. destruct (strcmp_loop_ok _ m a b s1 s2 H1 H2 (cstr_fuel _ _ _ H1)) as (r & Hr & Hl & _).
  exists r. split_and!; [done..|]. by rewrite <- lex_eq, <- Hl, Z.compare_eq_iff.
Qed.

(** [strncmp] does not stop at the end of the strings: two equal strings that
    are followed by different bytes compare as different once [n] reaches these
    bytes. *)
Theorem strncmp_past_terminator m a b s x y n :
  cstr m a s -> cstr m b s ->
  m !! (a + Z.of_nat (length s) + 1) = Some x -> m !! (b + Z.of_nat (length s) + 1) = Some y ->
  x <> y -> Z.of_nat (length s) + 2 <= n ->
  strncmp m a b n = Ok (x - y) /\ strcmp m a b = Ok 0.
Proof.
  intros Ha Hb Hx Hy Hxy Hn. split.
  - assert (forall p z, cstr m p s -> m !! (p + Z.of_nat (length s) + 1) = Some z -> bytes_at m p ((s ++ [0]) ++ [z])) as Hext.
    { intros p z [Hp _] Hz. apply bytes_at_app. split; [done|]. rewrite length_app. cbn [length].
      apply bytes_at_cons. split; [|apply bytes_at_nil].
      by replace (p + Z.of_nat (length s + 1)) with (p + Z.of_nat (length s) + 1) by lia. }
    apply Hext in Hx, Hy; [|done..].
    eapply strncmp_loop_ok; [exact Hx|exact Hy|done|rewrite length_app; cbn; lia|].
    apply bytes_at_fuel in Hx. rewrite length_app in Hx. cbn in Hx. lia.
  - destruct (strcmp_loop_ok _ m a b s s Ha Hb (cstr_fuel _ _ _ Ha)) as (r & Hr & Hl & _).
    rewrite (proj2 (lex_eq s s) eq_refl), Z.compare_eq_iff in Hl. by subst.
Qed.

(** [strchr] and [strrchr] find the first and the last occurrence of the
    character (the terminator counts) and return [NULL] when there is none. *)
Theorem strchr_strrchr_spec m a s ch :
  cstr m a s -> 0 < a ->
  let c := u8 ch in
  (if bool_decide (c ∈ s ++ [0]) then
     exists i j, strchr m a ch = Ok (a + Z.of_nat i) /\ first_at c (s ++ [0]) i /\
       strrchr m a ch = Ok (a + Z.of_nat j) /\ last_at c (s ++ [0]) j
   else strchr m a ch = Ok 0 /\ strrchr m a ch = Ok 0).
Proof.
  intros Hs Ha c. unfold strchr, strrchr. fold c. pose proof (cstr_fuel _ _ _ Hs) as Hf.
  destruct (strchr_loop_ok _ m a s c Hs Hf) as [(i & E1 & Hi)|[E1 N1]],
    (strrchr_loop_ok _ m a s c 0 Hs Hf) as [(j & E2 & Hj)|[E2 N2]];
    rewrite ?E1, ?E2; case_bool_decide as Hin; try done.
  - by exists i, j.
  - exfalso. apply Hin, list_elem_of_lookup. by exists i; destruct Hi.
  - exfalso. apply N2, list_elem_of_lookup. by exists i; destruct Hi.
  - exfalso. apply N1, list_elem_of_lookup. by exists j; destruct Hj.
Qed.

(** [memset] fills the block, but with value zero it returns the address after
    the block instead of the block: it passes on the result of [memclr]. *)
Theorem memset_spec m ptr value n :
  mapped m ptr (Z.of_nat n) -> Z.of_nat n < 2 ^ 31 ->
  memset m ptr value (Z.of_nat n)
  = Ok (if value =? 0 then ptr + Z.of_nat n else ptr, mput m ptr (replicate n (u8 value))).
Proof.
  intros Hm Hn. unfold memset. destruct (Z.eqb_spec value 0) as [->|E]; [by apply memclr_ok|].
  pose proof (mapped_fuel _ _ _ Hm) as Hf. rewrite Nat2Z.id in Hf.
  pose proof (memset_loop_ok (mem_fuel m) m ptr value n 0) as H. rewrite Z.add_0_r, Z.add_0_l in H.
  rewrite H by (done || lia). done.
Qed.

(** *** Witnesses *)

Definition str_mem : mem := mput ∅ 96 ([104; 105; 0; 104; 105; 0; 120] ++ replicate 25 7).

Lemma str_mem_at l1 l2 l3 a :
  [104; 105; 0; 104; 105; 0; 120] ++ replicate 25 7 = l1 ++ l2 ++ l3 -> a = 96 + Z.of_nat (length l1) ->
  bytes_at str_mem a l2.
Proof.
  intros E ->. unfold str_mem. rewrite E. pose proof (mput_bytes_at ∅ 96 (l1 ++ l2 ++ l3)) as H.
  apply bytes_at_app in H as [_ H]. by apply bytes_at_app in H as [H _].
Qed.

Lemma str_mem_ok : mem_ok str_mem.
Proof.
  intros a b. unfold str_mem. rewrite mput_lookup. case_decide; [|by rewrite lookup_empty].
  intros Hl. apply list_elem_of_lookup_2 in Hl.
  assert (Forall byte ([104; 105; 0; 104; 105; 0; 120] ++ replicate 25 7)) as F
    by (repeat constructor; by unfold byte).
  rewrite Forall_forall in F. by apply F.
Qed.

Lemma str_mem_mapped a n : 96 <= a -> 0 <= n -> a + n <= 128 -> mapped str_mem a n.
Proof.
  intros Ha Hn Hb. pose proof (mput_bytes_at ∅ 96 ([104; 105; 0; 104; 105; 0; 120] ++ replicate 25 7)) as H.
  apply bytes_at_mapped in H. eapply mapped_sub; [exact H|lia|cbn; lia].
Qed.

Lemma str_mem_hi : cstr str_mem 96 [104; 105] /\ cstr str_mem 99 [104; 105].
Proof.
  split; (split; [|repeat constructor; lia]).
  - by apply (str_mem_at [] _ ([104; 105; 0; 120] ++ replicate 25 7)).
  - by apply (str_mem_at [104; 105; 0] _ ([120] ++ replicate 25 7)).
Qed.

Lemma strlen_spec_witness : strlen str_mem 99 = Ok 2.
Proof. apply (strlen_spec str_mem 99 [104; 105] str_mem_ok (proj2 str_mem_hi)). by apply str_mem_mapped. Defined.

Lemma memmove_spec_witness :
  exists m', memmove 120 str_mem 97 96 3 = Ok (97, m') /\ bytes_at m' 97 [104; 105; 0].
Proof.
  destruct (memmove_spec 120 str_mem 97 96 [104; 105; 0]) as (m' & H1 & H2 & _).
  - by apply (str_mem_at [] _ ([104; 105; 0; 120] ++ replicate 25 7)).
  - repeat constructor; by unfold byte.
  - reflexivity.
  - by apply str_mem_mapped.
  - by apply str_mem_mapped.
  - right. cbn. lia.
  - right. cbn. lia.
  - exists m'. split; [exact H1|exact H2].
Defined.

Lemma strlcpy_spec_witness :
  exists m', strlcpy str_mem 110 96 2 = Ok (2, m') /\ cstr m' 110 [104].
Proof.
  destruct (strlcpy_spec str_mem 110 96 [104; 105] 2 (proj1 str_mem_hi)) as (m' & H1 & H2 & _);
    [reflexivity|mlia|by apply str_mem_mapped|right; cbn; lia|]. exists m'. split; [exact H1|exact H2].
Defined.

Lemma strlcat_spec_witness :
  exists m', strlcat str_mem 99 96 5 = Ok (4, m') /\ cstr m' 99 [104; 105; 104; 105].
Proof.
  destruct (strlcat_spec str_mem 99 [104; 105] 96 [104; 105] 5 str_mem_ok (proj2 str_mem_hi) (proj1 str_mem_hi))
    as (m' & H1 & H2 & _);
    [by apply str_mem_mapped|reflexivity|mlia|by apply str_mem_mapped|right; cbn; lia|].
  exists m'. split; [exact H1|exact H2].
Defined.

Lemma strcmp_spec_witness : exists r, strcmp str_mem 96 99 = Ok r /\ r = 0.
Proof.
  destruct (strcmp_spec str_mem 96 99 [104; 105] [104; 105] (proj1 str_mem_hi) (proj2 str_mem_hi)) as (r & H1 & _ & H2).
  exists r. split; [exact H1|]. by apply H2.
Defined.

Lemma strncmp_past_terminator_witness : strncmp str_mem 96 99 4 = Ok (104 - 120) /\ strcmp str_mem 96 99 = Ok 0.
Proof.
  apply (strncmp_past_terminator str_mem 96 99 [104; 105] 104 120 4 (proj1 str_mem_hi) (proj2 str_mem_hi));
    [reflexivity|reflexivity|discriminate|cbn; lia].
Defined.

Lemma strchr_strrchr_spec_witness :
  exists i j, strchr str_mem 96 105 = Ok (96 + Z.of_nat i) /\ first_at 105 [104; 105; 0] i /\
    strrchr str_mem 96 105 = Ok (96 + Z.of_nat j) /\ last_at 105 [104; 105; 0] j.
Proof. apply (strchr_strrchr_spec str_mem 96 [104; 105] 105 (proj1 str_mem_hi)). reflexivity. Defined.

Lemma memset_spec_witness :
  memset str_mem 96 0 8 = Ok (104, mput str_mem 96 (replicate 8 0)).
Proof. apply (memset_spec str_mem 96 0 8); [by apply str_mem_mapped|reflexivity]. Defined.
