(* ===== verification/StrTo.v ===== *)
(** * Numbers in strings (libc/src/string/strto*.c, libc/src/locale/is*.c)

    The character classes of the C locale, and the four conversions [strtol],
    [strtoll], [strtoul], [strtoull] with their callers [atoi], [atol] and
    [atoll].  [char] is signed and [long] has 64 bits, as on the targets. *)

From S2P Require Import Prelude HashFns CMem.

(** ** Character classes *)

Definition isspace (c : Z) : bool :=
  (c =? 32) || (c =? 12) || (c =? 10) || (c =? 13) || (c =? 9) || (c =? 11).
Definition isdigit (c : Z) : bool := (48 <=? c) && (c <=? 57).
Definition isupper (c : Z) : bool := (65 <=? c) && (c <=? 90).
Definition islower (c : Z) : bool := (97 <=? c) && (c <=? 122).
Definition isalpha (c : Z) : bool := isupper c || islower c.
Definition isalnum (c : Z) : bool := isalpha c || isdigit c.
Definition isascii (c : Z) : bool := (0 <=? c) && (c <=? 0x7f).
Definition isblank (c : Z) : bool := (c =? 32) || (c =? 9).
Definition iscntrl (c : Z) : bool := (u32 c <? 0x20) || (c =? 0x7f).
Definition isgraph (c : Z) : bool := (0x21 <=? c) && (c <=? 0x7e).
Definition isprint (c : Z) : bool := (0x20 <=? c) && (c <=? 0x7e).
Definition ispunct (c : Z) : bool := isprint c && negb (isspace c) && negb (isalnum c).
Definition isxdigit (c : Z) : bool :=
  ((48 <=? c) && (c <=? 57)) || ((97 <=? c) && (c <=? 102)) || ((65 <=? c) && (c <=? 70)).
Definition tolower (c : Z) : Z := if isupper c then 97 + (c - 65) else c.
Definition toupper (c : Z) : Z := if islower c then 65 + (c - 97) else c.

(** ** The conversions *)

Definition LONG_MAX : Z := 2 ^ 63 - 1.
Definition LONG_MIN : Z := - 2 ^ 63.
Definition ULONG_MAX : Z := 2 ^ 64 - 1.
Definition EINVAL : Z := 22.
Definition ERANGE : Z := 34.

(** [*s] as a [char]. *)
Definition ldc (m : mem) (s : Z) : res Z := b ← ld m s; Ok (s8 b).

(** [do { c = *s++; } while (isspace((unsigned char)c));] *)
Fixpoint skip_space (fuel : nat) (m : mem) (s : Z) : res (Z * Z) :=
  match fuel with
  | O => Stuck
  | S fuel =>
      c ← ldc m s;
      if isspace (u8 c) then skip_space fuel m (s + 1) else Ok (c, s + 1)
  end.

Definition read_sign (m : mem) (c s : Z) : res (bool * Z * Z) :=
  if c =? 45 then c ← ldc m s; Ok (true, c, s + 1)
  else if c =? 43 then c ← ldc m s; Ok (false, c, s + 1)
  else Ok (false, c, s).

(** The test for [0x] before a hexadecimal digit, evaluated from left to right. *)
Definition hex_prefix (m : mem) (base c s : Z) : res bool :=
  if ((base =? 0) || (base =? 16)) && (c =? 48) then
    x ← ldc m s;
    if (x =? 120) || (x =? 88) then h ← ldc m (s + 1); Ok (isxdigit h) else Ok false
  else Ok false.

Definition read_base (m : mem) (base c s : Z) : res (Z * Z * Z) :=
  hex ← hex_prefix m base c s;
  '(base, c, s) ← (if (hex : bool) then c ← ldc m (s + 1); Ok (16, c, s + 2) else Ok (base, c, s));
  Ok (if base =? 0 then if c =? 48 then 8 else 10 else base, c, s).

(** The value of a digit or a letter. *)
Definition digit_value (c : Z) : option Z :=
  if (48 <=? c) && (c <=? 57) then Some (c - 48)
  else if (65 <=? c) && (c <=? 90) then Some (c - (65 - 10))
  else if (97 <=? c) && (c <=? 122) then Some (c - (97 - 10))
  else None.

Fixpoint digit_loop (fuel : nat) (m : mem) (base cutoff cutlim any acc c s : Z) : res (Z * Z * Z) :=
  match fuel with
  | O => Stuck
  | S fuel =>
      match digit_value c with
      | None => Ok (any, acc, s)
      | Some c =>
          if base <=? c then Ok (any, acc, s)
          else
            let '(any, acc) :=
              if (any <? 0) || (cutoff <? acc) || ((acc =? cutoff) && (cutlim <? c)) then (-1, acc)
              else (1, u64 (u64 (acc * base) + c)) in
            c ← ldc m s;
            digit_loop fuel m base cutoff cutlim any acc c (s + 1)
      end
  end.

(** [if (endptr != NULL) *endptr = p;] *)
Definition store_end (m : mem) (endptr p : Z) : res mem :=
  if endptr =? 0 then Ok m else ston m endptr (le_bytes 8 p).

Section Convert.
(** The largest magnitude of a number of that sign, and what an overflow gives. *)
Context (limit clamp : bool -> Z).

(** The accumulator, the memory, and [errno] where it is set. *)
Definition strto (m : mem) (nptr endptr base : Z) : res (Z * mem * option Z) :=
  '(c, s) ← skip_space (mem_fuel m) m nptr;
  '(neg, c, s) ← read_sign m c s;
  '(base, c, s) ← read_base m base c s;
  '(any, acc, s) ← (if (base <? 2) || (36 <? base) then Ok (0, 0, s)
                    else digit_loop (mem_fuel m) m base (limit neg / base) (limit neg mod base) 0 0 c s);
  let '(acc, err) :=
    if any <? 0 then (clamp neg, Some ERANGE)
    else if any =? 0 then (acc, Some EINVAL)
    else (if (neg : bool) then u64 (- acc) else acc, None) in
  m ← store_end m endptr (if any =? 0 then nptr else s - 1);
  Ok (acc, m, err).
End Convert.

Definition long_limit (neg : bool) : Z :=
  if neg then u64 (u64 (- (LONG_MIN + LONG_MAX)) + LONG_MAX) else LONG_MAX.
Definition long_clamp (neg : bool) : Z := if neg then u64 LONG_MIN else LONG_MAX.

Definition strtol (m : mem) (nptr endptr base : Z) : res (Z * mem * option Z) :=
  '(acc, m, err) ← strto long_limit long_clamp m nptr endptr base; Ok (s64 acc, m, err).
Definition strtoll (m : mem) (nptr endptr base : Z) : res (Z * mem * option Z) :=
  '(acc, m, err) ← strto long_limit long_clamp m nptr endptr base; Ok (s64 acc, m, err).
Definition strtoul : mem -> Z -> Z -> Z -> res (Z * mem * option Z) :=
  strto (fun _ => ULONG_MAX) (fun _ => ULONG_MAX).
Definition strtoull : mem -> Z -> Z -> Z -> res (Z * mem * option Z) :=
  strto (fun _ => ULONG_MAX) (fun _ => ULONG_MAX).

Definition atoi (m : mem) (str : Z) : res (Z * mem * option Z) :=
  '(v, m, e) ← strtol m str 0 10; Ok (s32 v, m, e).
Definition atol (m : mem) (str : Z) : res (Z * mem * option Z) := strtol m str 0 10.
Definition atoll (m : mem) (str : Z) : res (Z * mem * option Z) := strtoll m str 0 10.

(** ** The grammar of a number *)

Definition hd0 (l : list Z) : Z := match l with b :: _ => b | [] => 0 end.

Fixpoint drop_space (l : list Z) : list Z :=
  match l with
  | b :: l' => if isspace b then drop_space l' else l
  | [] => []
  end.
Definition take_sign (l : list Z) : bool * list Z :=
  if hd0 l =? 45 then (true, drop 1 l) else if hd0 l =? 43 then (false, drop 1 l) else (false, l).
Definition take_radix (base : Z) (l : list Z) : Z * list Z :=
  if ((base =? 0) || (base =? 16)) && (hd0 l =? 48) &&
     ((hd0 (drop 1 l) =? 120) || (hd0 (drop 1 l) =? 88)) && isxdigit (hd0 (drop 2 l))
  then (16, drop 2 l)
  else (if base =? 0 then if hd0 l =? 48 then 8 else 10 else base, l).
Fixpoint take_digits (radix : Z) (l : list Z) : list Z * list Z :=
  match l with
  | [] => ([], [])
  | b :: l' =>
      match digit_value b with
      | Some d => if d <? radix then let '(ds, r) := take_digits radix l' in (d :: ds, r) else ([], l)
      | None => ([], l)
      end
  end.
Definition number (radix : Z) (ds : list Z) : Z := foldl (fun a d => a * radix + d) 0 ds.

(** The sign, the magnitude and what follows the number; [None] where no number
    starts the string. *)
Definition parse_number (base : Z) (s : list Z) : option (bool * Z * list Z) :=
  let '(neg, l) := take_sign (drop_space s) in
  let '(radix, l) := take_radix base l in
  if (radix <? 2) || (36 <? radix) then None
  else match take_digits radix l with
       | ([], _) => None
       | (ds, rest) => Some (neg, number radix ds, rest)
       end.

(** What C promises of the signed and of the unsigned conversions: the value,
    what is left of the string, and the error. *)
Definition strtol_ref (base : Z) (s : list Z) : Z * list Z * option Z :=
  match parse_number base s with
  | None => (0, s, Some EINVAL)
  | Some (neg, n, rest) =>
      let v := if (neg : bool) then - n else n in
      if v <? LONG_MIN then (LONG_MIN, rest, Some ERANGE)
      else if LONG_MAX <? v then (LONG_MAX, rest, Some ERANGE)
      else (v, rest, None)
  end.
Definition strtoul_ref (base : Z) (s : list Z) : Z * list Z * option Z :=
  match parse_number base s with
  | None => (0, s, Some EINVAL)
  | Some (neg, n, rest) =>
      if ULONG_MAX <? n then (ULONG_MAX, rest, Some ERANGE)
      else (u64 (if (neg : bool) then - n else n), rest, None)
  end.

(** ** Characters *)

Lemma s8_char b : 0 <= b < 256 -> s8 b = if b <? 128 then b else b - 256.
Proof.
  intros Hb. unfold s8, swrap. change (2 ^ (8 - 1)) with 128. change (2 ^ 8) with 256.
  destruct (Z.ltb_spec b 128).
  - rewrite Z.mod_small; lia.
  - replace (b + 128) with (b - 128 + 1 * 256) by lia. rewrite Z.mod_add, Z.mod_small; lia.
Qed.

Lemma s8_eqb b k : 0 <= b < 256 -> 0 <= k < 128 -> (s8 b =? k) = (b =? k).
Proof. intros Hb Hk. rewrite s8_char by done. case_if; [done|]. lia. Qed.

Lemma s8_digit_value b : 0 <= b < 256 -> digit_value (s8 b) = digit_value b.
Proof.
  intros Hb. rewrite s8_char by done. case_if; [done|]. unfold digit_value.
  repeat (rewrite (proj2 (andb_false_iff _ _)) by lia). done.
Qed.

Lemma s8_isxdigit b : 0 <= b < 256 -> isxdigit (s8 b) = isxdigit b.
Proof. intros Hb. rewrite s8_char by done. case_if; [done|]. unfold isxdigit. lia. Qed.

Lemma u8_s8 b : 0 <= b < 256 -> u8 (s8 b) = b.
Proof.
  intros Hb. rewrite s8_char by done. unfold u8, wrap. pow_norm. case_if; [apply Z.mod_small; lia|].
  replace (b - 256) with (b + (-1) * 256) by lia. rewrite Z.mod_add, Z.mod_small; lia.
Qed.

(** ** Reading *)

(** The string [l] with its terminator stands at [a]. *)
Definition text (m : mem) (a : Z) (l : list Z) : Prop :=
  bytes_at m a (l ++ [0]) /\ Forall (fun c => 0 < c < 256) l.

Lemma text_hd m a l : text m a l -> 0 <= hd0 l < 256.
Proof. intros [_ H]. destruct H; cbn; lia. Qed.

Lemma text_ldc m a l : text m a l -> ldc m a = Ok (s8 (hd0 l)).
Proof.
  intros [H _]. unfold ldc. destruct l; cbn [app] in H; apply bytes_at_cons in H as [H _]; by rewrite (ld_ok _ _ _ H).
Qed.

Lemma text_tail m a l : text m a l -> l <> [] -> text m (a + 1) (drop 1 l).
Proof.
  intros [H Hc] Hl. destruct l as [|b l]; [done|]. cbn [app drop] in *. apply bytes_at_cons in H as [_ H].
  split; [done|]. by inversion Hc.
Qed.

Lemma hd0_not_nil l k : hd0 l = k -> k <> 0 -> l <> [].
Proof. intros <- H ->. by apply H. Qed.

Lemma skip_space_ok fuel m a l :
  text m a l -> (length l < fuel)%nat ->
  exists k, skip_space fuel m a = Ok (s8 (hd0 (drop_space l)), a + Z.of_nat k + 1) /\
    text m (a + Z.of_nat k) (drop_space l) /\ length l = (k + length (drop_space l))%nat.
Proof.
  revert a l. induction fuel as [|fuel IH]; intros a l Ht Hf; [lia|]. cbn [skip_space].
  rewrite (text_ldc _ _ _ Ht). cbn [mbind res_bind]. rewrite u8_s8 by (by eapply text_hd).
  destruct l as [|b l]; cbn [hd0 drop_space].
  - exists O. rewrite Z.add_0_r. done.
  - destruct (isspace b).
    + destruct (IH (a + 1) l) as (k & E & Hk & Hl); [by apply (text_tail _ _ _ Ht)|cbn in Hf; lia|].
      exists (S k). replace (a + Z.of_nat (S k)) with (a + 1 + Z.of_nat k) by lia.
      split_and!; [done|done|cbn; lia].
    + exists O. rewrite Z.add_0_r. done.
Qed.

(** The cursor [(c, s)] of the code is at the front of [l]. *)
Definition cursor (m : mem) (c s : Z) (l : list Z) : Prop := c = s8 (hd0 l) /\ text m (s - 1) l.

Lemma cursor_next m c s l : cursor m c s l -> l <> [] -> ldc m s = Ok (s8 (hd0 (drop 1 l))) /\
  cursor m (s8 (hd0 (drop 1 l))) (s + 1) (drop 1 l).
Proof.
  intros [-> Ht] Hl. apply text_tail in Ht; [|done]. replace (s - 1 + 1) with s in Ht by lia.
  split; [by apply text_ldc|]. split; [done|]. by replace (s + 1 - 1) with s by lia.
Qed.

Lemma cursor_hd m c s l : cursor m c s l -> 0 <= hd0 l < 256.
Proof. intros [_ H]. by eapply text_hd. Qed.

Lemma read_sign_ok m c s l :
  cursor m c s l ->
  exists k c', read_sign m c s = Ok ((take_sign l).1, c', s + Z.of_nat k) /\
    cursor m c' (s + Z.of_nat k) (take_sign l).2 /\ length l = (k + length (take_sign l).2)%nat.
Proof.
  intros Hc. pose proof (cursor_hd _ _ _ _ Hc) as Hh. unfold read_sign, take_sign.
  rewrite (proj1 Hc), !s8_eqb by lia.
  destruct (Z.eqb_spec (hd0 l) 45); [|destruct (Z.eqb_spec (hd0 l) 43)]; cbn [fst snd].
  1,2: destruct (cursor_next _ _ _ _ Hc) as [-> Hn]; [by eapply hd0_not_nil|];
       exists 1%nat; eexists; split_and!; [reflexivity|exact Hn|
         destruct l; [done|]; rewrite skipn_cons, drop_0; cbn; lia].
  exists O. eexists. rewrite Z.add_0_r. split_and!; [reflexivity|by destruct Hc; subst|done].
Qed.

Lemma read_base_ok m base c s l :
  cursor m c s l ->
  exists k c', read_base m base c s = Ok ((take_radix base l).1, c', s + Z.of_nat k) /\
    cursor m c' (s + Z.of_nat k) (take_radix base l).2 /\ length l = (k + length (take_radix base l).2)%nat.
Proof.
  intros Hc. pose proof (cursor_hd _ _ _ _ Hc) as Hh. unfold read_base, hex_prefix, take_radix.
  assert (c =? 48 = (hd0 l =? 48)) as E48 by (rewrite (proj1 Hc); by apply s8_eqb).
  rewrite E48.
  destruct (((base =? 0) || (base =? 16)) && (hd0 l =? 48)) eqn:E0; cbn [andb mbind res_bind].
  2:{ exists O, c. rewrite Z.add_0_r, E48. cbn [fst snd]. done. }
  assert (hd0 l = 48) as E1 by lia.
  destruct (cursor_next _ _ _ _ Hc) as [-> Hn]; [by eapply hd0_not_nil|]. cbn [mbind res_bind].
  pose proof (cursor_hd _ _ _ _ Hn) as Hh1. rewrite !(s8_eqb (hd0 (drop 1 l))) by lia.
  destruct ((hd0 (drop 1 l) =? 120) || (hd0 (drop 1 l) =? 88)) eqn:E2; cbn [andb mbind res_bind].
  2:{ exists O, c. rewrite Z.add_0_r, E48. cbn [fst snd]. done. }
  destruct (cursor_next _ _ _ _ Hn) as [-> Hn2]; [eapply hd0_not_nil; [reflexivity|lia]|]. cbn [mbind res_bind].
  rewrite drop_drop in *. change (1 + 1)%nat with 2%nat in *.
  rewrite s8_isxdigit by (by eapply cursor_hd).
  destruct (isxdigit (hd0 (drop 2 l))); cbn [mbind res_bind].
  - exists 2%nat, (s8 (hd0 (drop 2 l))). change (Z.of_nat 2) with 2. cbn [fst snd Z.eqb].
    replace (s + 1 + 1) with (s + 2) in Hn2 by lia.
    split_and!; [done|exact Hn2|]. rewrite length_drop.
    destruct l as [|? [|? l]]; cbn in E1, E2; [lia|discriminate|cbn; lia].
  - exists O, c. rewrite Z.add_0_r, E48. cbn [fst snd]. done.
Qed.

(** ** The digits *)

Lemma digit_value_range c d : digit_value c = Some d -> 0 <= d < 36.
Proof.
  unfold digit_value. repeat case_if; intros [= <-]; lia.
Qed.

(** The test against [cutoff] and [cutlim] is the test against the limit. *)
Lemma cutoff_exact lim base acc d :
  2 <= base -> 0 <= lim -> 0 <= d < base ->
  (lim / base <? acc) || ((acc =? lim / base) && (lim mod base <? d)) = (lim <? acc * base + d).
Proof.
  intros Hb Hl Hd. pose proof (Z.div_mod lim base ltac:(lia)) as E.
  pose proof (Z.mod_pos_bound lim base ltac:(lia)) as Hr.
  revert E Hr. generalize (lim / base), (lim mod base). intros q r E Hr.
  destruct (Z.ltb_spec lim (acc * base + d)); [|].
  - apply orb_true_iff. destruct (Z.lt_trichotomy q acc) as [?|[->|?]]; [left; blia| |nia].
    right. rewrite Z.eqb_refl. cbn. apply Z.ltb_lt. nia.
  - apply orb_false_iff. split; [apply Z.ltb_ge; nia|].
    destruct (Z.eqb_spec acc q) as [->|]; [|done]. cbn. apply Z.ltb_ge. nia.
Qed.

(** The digits read so far make [n]; the code remembers it while it is in range. *)
Definition tracks (lim any acc n : Z) : Prop :=
  (any = -1 /\ lim < n) \/ ((any = 0 \/ any = 1) /\ acc = n /\ 0 <= n <= lim).

Lemma tracks_step lim base any acc n d :
  2 <= base <= 36 -> 0 <= lim < 2 ^ 64 -> 0 <= d < base -> tracks lim any acc n ->
  let r := if (any <? 0) || (lim / base <? acc) || ((acc =? lim / base) && (lim mod base <? d))
           then (-1, acc) else (1, u64 (u64 (acc * base) + d)) in
  tracks lim r.1 r.2 (n * base + d) /\ r.1 <> 0.
Proof.
  intros Hb Hl Hd HT r. subst r. rewrite <- orb_assoc, cutoff_exact by lia.
  destruct HT as [[-> Hn]|(Ha & -> & Hn)]; [cbn; split; [left; nia|lia]|].
  rewrite (proj2 (Z.ltb_ge any 0)) by lia. cbn [orb].
  destruct (Z.ltb_spec lim (n * base + d)); cbn [fst snd]; (split; [|lia]); [left; lia|right].
  assert (0 <= n * base) by nia.
  unfold u64. rewrite (wrap_small 64 (n * base)), wrap_small by (unfold is_u; lia). lia.
Qed.

Lemma digit_loop_ok fuel m base lim any acc n c s l :
  2 <= base <= 36 -> 0 <= lim < 2 ^ 64 -> cursor m c s l -> (length l < fuel)%nat -> tracks lim any acc n ->
  let '(ds, rest) := take_digits base l in
  exists any' acc', digit_loop fuel m base (lim / base) (lim mod base) any acc c s
      = Ok (any', acc', s + Z.of_nat (length ds)) /\
    tracks lim any' acc' (foldl (fun a d => a * base + d) n ds) /\
    length l = (length ds + length rest)%nat /\
    (if decide (ds = []) then any' = any else any' <> 0).
Proof.
  intros Hb Hl. revert any acc n c s l. induction fuel as [|fuel IH]; intros any acc n c s l Hc Hf HT; [lia|].
  cbn [digit_loop]. rewrite (proj1 Hc), s8_digit_value by (by eapply cursor_hd).
  assert (forall r, exists any' acc' : Z, Ok (any, acc, s) = Ok (any', acc', s + Z.of_nat (length (@nil Z))) /\
    tracks lim any' acc' n /\ length (r : list Z) = (0 + length r)%nat /\
    (if decide (@nil Z = []) then any' = any else any' <> 0)) as Hstop.
  { intros r. exists any, acc. cbn [length Z.of_nat]. rewrite Z.add_0_r. done. }
  destruct l as [|b l]; cbn [hd0 take_digits].
  { change (digit_value 0) with (@None Z). cbv iota. apply (Hstop []). }
  destruct (digit_value b) as [d|] eqn:Ed; [|apply (Hstop (b :: l))].
  pose proof (digit_value_range _ _ Ed) as Hd.
  destruct (Z.leb_spec base d); [rewrite (proj2 (Z.ltb_ge d base)) by lia; apply (Hstop (b :: l))|].
  rewrite (proj2 (Z.ltb_lt d base)) by lia.
  pose proof (tracks_step lim base any acc n d Hb Hl ltac:(lia) HT) as HT'.
  destruct (if _ || _ then _ else _) as [any1 acc1]. cbn [fst snd] in HT'. destruct HT' as [HT' Ha1].
  destruct (cursor_next _ _ _ _ Hc) as [-> Hn]; [done|]. cbn [mbind res_bind].
  cbn [drop] in *. rewrite drop_0 in *.
  specialize (IH any1 acc1 _ _ _ l Hn ltac:(cbn in Hf; lia) HT').
  destruct (take_digits base l) as [ds rest]. destruct IH as (any' & acc' & E & HT2 & Hlen & Ha).
  exists any', acc'. rewrite decide_False by done. cbn [length foldl].
  split_and!; [rewrite E; do 2 f_equal; lia|exact HT2|lia|]. destruct (decide (ds = [])); congruence.
Qed.

(** ** The conversions follow the grammar *)

Definition put_end (m : mem) (endptr p : Z) : mem := if endptr =? 0 then m else mput m endptr (le_bytes 8 p).

Lemma le_bytes_length n z : length (le_bytes n z) = n.
Proof. revert z. induction n; intros z; cbn; auto. Qed.

Lemma le_bytes_byte n z : Forall byte (le_bytes n z).
Proof.
  revert z. induction n as [|n IH]; intros z; cbn; constructor; [|done].
  unfold byte, u8, wrap. pow_norm. apply Z.mod_pos_bound. lia.
Qed.

Lemma store_end_ok m endptr p : endptr = 0 \/ mapped m endptr 8 -> store_end m endptr p = Ok (put_end m endptr p).
Proof.
  intros H. unfold store_end, put_end. destruct (Z.eqb_spec endptr 0); [done|].
  apply ston_ok; [rewrite le_bytes_length; tauto|apply le_bytes_byte].
Qed.

(** The outcome of [strto] by the parts of the string. *)
Lemma strto_ok limit clamp m nptr endptr base str :
  (forall neg, 0 <= limit neg < 2 ^ 64) ->
  cstr m nptr str -> endptr = 0 \/ mapped m endptr 8 ->
  strto limit clamp m nptr endptr base =
  match parse_number base str with
  | None => Ok (0, put_end m endptr nptr, Some EINVAL)
  | Some (neg, n, rest) =>
      let m' := put_end m endptr (nptr + Z.of_nat (length str - length rest)) in
      if limit neg <? n then Ok (clamp neg, m', Some ERANGE)
      else Ok (if (neg : bool) then u64 (- n) else n, m', None)
  end.
Proof.
  intros Hlim Hstr Hend. pose proof (bytes_at_fuel _ _ _ (proj1 Hstr)) as Hfuel. rewrite length_app in Hfuel.
  destruct (skip_space_ok (mem_fuel m) m nptr str Hstr ltac:(lia)) as (k1 & E1 & H1 & L1).
  unfold strto, parse_number. rewrite E1. cbn [mbind res_bind].
  destruct (read_sign_ok m (s8 (hd0 (drop_space str))) (nptr + Z.of_nat k1 + 1) (drop_space str))
    as (k2 & c2 & E2 & H2 & L2).
  { split; [done|]. by replace (nptr + Z.of_nat k1 + 1 - 1) with (nptr + Z.of_nat k1) by lia. }
  rewrite E2. cbn [mbind res_bind]. destruct (take_sign (drop_space str)) as [neg l2]. cbn [fst snd] in *.
  destruct (read_base_ok m base c2 _ l2 H2) as (k3 & c3 & E3 & H3 & L3).
  rewrite E3. cbn [mbind res_bind]. destruct (take_radix base l2) as [radix l3]. cbn [fst snd] in *.
  destruct ((radix <? 2) || (36 <? radix)) eqn:Er; cbn [mbind res_bind].
  { cbn [Z.ltb Z.eqb Z.compare]. rewrite store_end_ok by done. done. }
  pose proof (digit_loop_ok (mem_fuel m) m radix (limit neg) 0 0 0 c3 _ l3 ltac:(lia) (Hlim neg) H3
    ltac:(lia)) as HD.
  destruct (take_digits radix l3) as [ds rest]. destruct HD as (any & acc & E4 & HT & L4 & Hany).
  { right. split_and!; auto; try lia; apply Hlim. }
  rewrite E4. cbn [mbind res_bind].
  destruct ds as [|d ds]; cbn [decide] in Hany.
  { rewrite decide_True in Hany by done. subst any. cbn [Z.ltb Z.eqb Z.compare].
    rewrite store_end_ok by done. destruct HT as [[? _]|(_ & -> & _)]; [lia|done]. }
  rewrite decide_False in Hany by done. rewrite (proj2 (Z.eqb_neq any 0)) by done.
  fold (number radix (d :: ds)) in HT. set (n := number radix (d :: ds)) in *.
  replace (nptr + Z.of_nat k1 + 1 + Z.of_nat k2 + Z.of_nat k3 + Z.of_nat (length (d :: ds)) - 1)
    with (nptr + Z.of_nat (length str - length rest)) by lia.
  rewrite store_end_ok by done. destruct HT as [[-> Hn]|(Ha & -> & Hn)].
  - rewrite (proj2 (Z.ltb_lt _ n)) by done. done.
  - rewrite (proj2 (Z.ltb_ge any 0)), (proj2 (Z.ltb_ge _ n)) by lia. done.
Qed.

Lemma long_limit_range neg : 0 <= long_limit neg < 2 ^ 64.
Proof. destruct neg; vm_compute; split; congruence. Qed.

Lemma number_nonneg r ds a :
  0 <= r -> Forall (fun d => 0 <= d) ds -> 0 <= a -> 0 <= foldl (fun a d => a * r + d) a ds.
Proof.
  intros Hr Hd. revert a. induction Hd as [|x l Hx _ IH]; intros a Ha; [done|]. cbn. apply IH. nia.
Qed.

Lemma parse_number_nonneg base s neg n rest : parse_number base s = Some (neg, n, rest) -> 0 <= n.
Proof.
  unfold parse_number. destruct (take_sign _) as [ng l], (take_radix base l) as [r l'].
  destruct ((r <? 2) || (36 <? r)) eqn:Er; [done|].
  assert (Forall (fun d => 0 <= d) (take_digits r l').1) as Hd.
  { induction l' as [|b l' IH]; cbn [take_digits]; [constructor|]. destruct (digit_value b) eqn:Ed; [|constructor].
    case_if; [|constructor]. destruct (take_digits r l'). cbn [fst] in *.
    constructor; [by apply digit_value_range in Ed as [? _]|done]. }
  destruct (take_digits r l') as [[|d ds] rst]; [done|]. intros [= <- <- <-]. cbn [fst] in Hd.
  apply number_nonneg; [lia|done|lia].
Qed.

Lemma strtol_cases base s neg n (rest : list Z) :
  0 <= n ->
  let '(v, e) := if long_limit neg <? n then (s64 (long_clamp neg), Some ERANGE)
                 else (s64 (if (neg : bool) then u64 (- n) else n), None) in
  parse_number base s = Some (neg, n, rest) -> strtol_ref base s = (v, rest, e).
Proof.
  intros Hn. unfold strtol_ref.
  assert (long_limit true = 2 ^ 63) as Et by reflexivity.
  assert (long_limit false = LONG_MAX) as Ef by reflexivity.
  unfold LONG_MAX, LONG_MIN in *. pow_norm.
  destruct (Z.ltb_spec (long_limit neg) n); intros ->; destruct neg; rewrite ?Et, ?Ef in *.
  - by rewrite (proj2 (Z.ltb_lt (- n) _)) by lia.
  - by rewrite (proj2 (Z.ltb_ge n _)), (proj2 (Z.ltb_lt _ n)) by lia.
  - rewrite (proj2 (Z.ltb_ge (- n) _)), (proj2 (Z.ltb_ge _ (- n))) by lia.
    do 2 f_equal. unfold s64, u64. rewrite swrap_wrap by lia. symmetry. apply swrap_small; [lia|]. unfold is_s. cbn. lia.
  - rewrite (proj2 (Z.ltb_ge n _)), (proj2 (Z.ltb_ge _ n)) by lia.
    do 2 f_equal. symmetry. apply swrap_small; [lia|]. unfold is_s. cbn. lia.
Qed.

(** C33: [strtol] and [strtoll] return on every string, for every base: what the
    grammar of a number makes of it, clamped to the range of a [long] with
    [ERANGE], zero with [EINVAL] and the start of the string where there is no
    number or the base is not one; [*endptr] is set to what follows the number
    and nothing else in memory changes. *)
Theorem strtol_spec m nptr s endptr base :
  cstr m nptr s -> endptr = 0 \/ mapped m endptr 8 ->
  let '(v, rest, e) := strtol_ref base s in
  let m' := put_end m endptr (nptr + Z.of_nat (length s - length rest)) in
  strtol m nptr endptr base = Ok (v, m', e) /\ strtoll m nptr endptr base = Ok (v, m', e).
Proof.
  intros Hs He. unfold strtol, strtoll.
  rewrite (strto_ok long_limit long_clamp m nptr endptr base s) by (done || apply long_limit_range).
  destruct (parse_number base s) as [[[neg n] rest]|] eqn:E.
  - pose proof (strtol_cases base s neg n rest (parse_number_nonneg _ _ _ _ _ E)) as H.
    destruct (long_limit neg <? n); rewrite (H E); done.
  - unfold strtol_ref. rewrite E, Nat.sub_diag, Z.add_0_r. done.
Qed.

(** The text of a string literal, from address 100 on, and a pointer at 200. *)
Definition text_mem (s : list Z) : mem := mput (mput ∅ 100 (s ++ [0])) 200 (replicate 8 0).

Lemma strtol_spec_witness :
  exists m', strtol (text_mem [32; 45; 48; 120; 49; 70; 103]) 100 200 0 = Ok (-31, m', None) /\
    ldw m' 200 8 = Ok 106.
Proof.
  destruct (strtol_spec (text_mem [32; 45; 48; 120; 49; 70; 103]) 100 [32; 45; 48; 120; 49; 70; 103] 200 0)
    as [H _].
  - split.
    + apply mput_bytes_at_ne; [apply mput_bytes_at|]. unfold disjoint_ranges. right. vm_compute. congruence.
    + repeat constructor.
  - right. apply (bytes_at_mapped _ _ (replicate 8 0)), mput_bytes_at.
  - eexists. split; [exact H|vm_compute; reflexivity].
Defined.

(** [strtoul] and [strtoull] return on every string, for every base: the
    number modulo 2^64, negated for a minus sign, [ULONG_MAX] with [ERANGE]
    where its magnitude does not fit, zero with [EINVAL] where there is no
    number; [*endptr] is set to what follows the number. *)
Theorem strtoul_spec m nptr s endptr base :
  cstr m nptr s -> endptr = 0 \/ mapped m endptr 8 ->
  let '(v, rest, e) := strtoul_ref base s in
  let m' := put_end m endptr (nptr + Z.of_nat (length s - length rest)) in
  strtoul m nptr endptr base = Ok (v, m', e) /\ strtoull m nptr endptr base = Ok (v, m', e).
Proof.
  intros Hs He. unfold strtoul, strtoull, strtoul_ref.
  rewrite (strto_ok _ _ m nptr endptr base s) by (done || (intros; vm_compute; split; congruence)).
  destruct (parse_number base s) as [[[neg n] rest]|] eqn:E.
  - pose proof (parse_number_nonneg _ _ _ _ _ E). destruct (Z.ltb_spec ULONG_MAX n); [done|].
    destruct neg; [done|]. unfold u64. rewrite wrap_small; [done|]. unfold is_u, ULONG_MAX in *. lia.
  - rewrite Nat.sub_diag, Z.add_0_r. done.
Qed.

Lemma strtoul_spec_witness :
  strtoul (text_mem [45; 49]) 100 0 10 = Ok (2 ^ 64 - 1, text_mem [45; 49], None).
Proof.
  destruct (strtoul_spec (text_mem [45; 49]) 100 [45; 49] 0 10) as [H _].
  - split.
    + apply mput_bytes_at_ne; [apply mput_bytes_at|]. unfold disjoint_ranges. right. vm_compute. congruence.
    + repeat constructor.
  - by left.
  - exact H.
Defined.
