(* ===== verification/Base85.v ===== *)
(** * Binary data as text (libdriver/src/serialize/base85.c)

    The encoder and the decoder with which drivers put binary data into the
    string properties of the device tree.  [unsigned long] has 64 bits and the
    machine is little-endian, as on the targets. *)

From S2P Require Import Prelude HashFns CMem.

(** ** The code *)

Definition bintodigit : list Z :=
  [48; 49; 50; 51; 52; 53; 54; 55; 56; 57;
   65; 66; 67; 68; 69; 70; 71; 72; 73; 74; 75; 76; 77;
   78; 79; 80; 81; 82; 83; 84; 85; 86; 87; 88; 89; 90;
   97; 98; 99; 100; 101; 102; 103; 104; 105; 106; 107; 108; 109;
   110; 111; 112; 113; 114; 115; 116; 117; 118; 119; 120; 121; 122;
   33; 35; 36; 37; 38; 40; 41; 42; 43; 45; 59;
   60; 61; 62; 63; 64; 94; 95; 96; 123; 124; 125; 126].

Definition notadigit : Z := 85.

Definition digittobin : list Z :=
  [85; 85; 85; 85; 85; 85; 85; 85; 85; 85; 85; 85; 85; 85; 85; 85;
   85; 85; 85; 85; 85; 85; 85; 85; 85; 85; 85; 85; 85; 85; 85; 85;
   85; 62; 85; 63; 64; 65; 66; 85; 67; 68; 69; 70; 85; 71; 85; 85;
   0; 1; 2; 3; 4; 5; 6; 7; 8; 9; 85; 72; 73; 74; 75; 76;
   77; 10; 11; 12; 13; 14; 15; 16; 17; 18; 19; 20; 21; 22; 23; 24;
   25; 26; 27; 28; 29; 30; 31; 32; 33; 34; 35; 85; 85; 85; 78; 79;
   80; 36; 37; 38; 39; 40; 41; 42; 43; 44; 45; 46; 47; 48; 49; 50;
   51; 52; 53; 54; 55; 56; 57; 58; 59; 60; 61; 81; 82; 83; 84; 85] ++ replicate 128 85.

Definition pow85 : list Z := [85 * (85 * (85 * 85)); 85 * (85 * 85); 85 * 85; 85; 1].

(** The loop of [ultob85] over the powers that are left. *)
Fixpoint ultob85_loop (ps : list Z) (m : mem) (dest value : Z) : res mem :=
  match ps with
  | [] => Ok m
  | p :: ps =>
      let bin := u32 (value / p) in
      d ← aget bintodigit bin;
      m ← sto m dest d;
      ultob85_loop ps m (dest + 1) (u64 (value - u64 (bin * p)))
  end.
Definition ultob85 (m : mem) (dest value : Z) : res mem := ultob85_loop pow85 m dest value.

(** The bytes [d] of [value], filled from [src] and then with zeros. *)
Fixpoint betoul_loop (n : nat) (m : mem) (src sz i : Z) (d : list Z) : res (list Z) :=
  match n with
  | O => Ok d
  | S n =>
      b ← (if i <? sz then ld m (src + i) else Ok 0);
      d ← aset d (3 - i) b;
      betoul_loop n m src sz (i + 1) d
  end.
Definition betoul (m : mem) (src sz : Z) : res Z :=
  d ← betoul_loop 4 m src sz 0 (replicate 8 0); Ok (le_word d).

(** The quartets, from the last one to the first. *)
Fixpoint quartet_loop (n : nat) (m : mem) (dest s : Z) : res mem :=
  match n with
  | O => Ok m
  | S n =>
      v ← betoul m (s - 4) 4;
      m ← ultob85 m (dest - 5) v;
      quartet_loop n m (dest - 5) (s - 4)
  end.

Definition bintob85 (m : mem) (dest src size : Z) : res (Z * mem) :=
  let quartets := size / 4 in
  let s := src + 4 * quartets in
  let dest := dest + 5 * quartets in
  let remainder := size mod 4 in
  m ← (if remainder =? 0 then Ok m else v ← betoul m s remainder; ultob85 m dest v);
  let rslt := dest + (if remainder =? 0 then 0 else 5) in
  m ← sto m rslt 0;
  m ← quartet_loop (Z.to_nat quartets) m dest s;
  Ok (rslt, m).

(** The four low bytes of [value], the most significant one first. *)
Definition ultobe (m : mem) (dest value : Z) : res (Z * mem) :=
  let s := le_bytes 8 value in
  d0 ← aget s 3; d1 ← aget s 2; d2 ← aget s 1; d3 ← aget s 0;
  m ← ston m dest [d0; d1; d2; d3];
  Ok (dest + 4, m).

(** The five digits of a group: [None] with the number of digits read when
    another character comes first. *)
Fixpoint group_loop (ps : list Z) (m : mem) (s i value : Z) : res (Z + Z) :=
  match ps with
  | [] => Ok (inr value)
  | p :: ps =>
      c ← ld m s;
      bin ← aget digittobin c;
      if bin =? notadigit then Ok (inl i)
      else group_loop ps m (s + 1) (i + 1) (u64 (value + u64 (bin * p)))
  end.
Fixpoint b85tobin_loop (fuel : nat) (m : mem) (dest s : Z) : res (Z * mem) :=
  match fuel with
  | O => Stuck
  | S fuel =>
      g ← group_loop pow85 m s 0 0;
      match g with
      | inl i => Ok (if i =? 0 then dest else 0, m)
      | inr value =>
          '(dest, m) ← ultobe m dest value;
          b85tobin_loop fuel m dest (s + 5)
      end
  end.
Definition b85tobin (m : mem) (dest src : Z) : res (Z * mem) := b85tobin_loop (mem_fuel m) m dest src.

(** ** The format *)

Definition digit (v : Z) : Z := bintodigit !!! Z.to_nat v.
Definition enc4 (v : Z) : list Z :=
  map digit [v / 85 ^ 4; v / 85 ^ 3 mod 85; v / 85 ^ 2 mod 85; v / 85 mod 85; v mod 85].
Definition be4 (a b c d : Z) : Z := a * 2 ^ 24 + b * 2 ^ 16 + c * 2 ^ 8 + d.
Fixpoint encode (l : list Z) : list Z :=
  match l with
  | a :: b :: c :: d :: l => enc4 (be4 a b c d) ++ encode l
  | [a; b; c] => enc4 (be4 a b c 0)
  | [a; b] => enc4 (be4 a b 0 0)
  | [a] => enc4 (be4 a 0 0 0)
  | [] => []
  end.
(** The data with zeros up to a multiple of four bytes. *)
Definition padded (l : list Z) : list Z := l ++ replicate (Z.to_nat ((- Z.of_nat (length l)) mod 4)) 0.

(** What the decoder makes of a string: the bytes of the whole groups before the
    first character that is not a digit, and whether that one ends a group. *)
Definition digitval (c : Z) : Z := nth (Z.to_nat c) digittobin notadigit.
Definition isdigit85 (c : Z) : bool := negb (digitval c =? notadigit).
Definition be_bytes (v : Z) : list Z := [v / 2 ^ 24 mod 256; v / 2 ^ 16 mod 256; v / 2 ^ 8 mod 256; v mod 256].
Definition group_value (a b c d e : Z) : Z :=
  digitval a * 85 ^ 4 + digitval b * 85 ^ 3 + digitval c * 85 ^ 2 + digitval d * 85 + digitval e.
Fixpoint decode (l : list Z) : list Z * bool :=
  match l with
  | a :: b :: c :: d :: e :: l =>
      if isdigit85 a && isdigit85 b && isdigit85 c && isdigit85 d && isdigit85 e
      then let '(r, ok) := decode l in (be_bytes (group_value a b c d e) ++ r, ok)
      else ([], negb (isdigit85 a))
  | a :: _ => ([], negb (isdigit85 a))
  | [] => ([], true)
  end.

(** ** Digits *)

Ltac p85 :=
  change (85 ^ 4) with 52200625 in *; change (85 ^ 3) with 614125 in *; change (85 ^ 2) with 7225 in *;
  pow_norm.
Ltac dlia := p85; Z.to_euclidean_division_equations; lia.

Lemma digit_ok v : 0 <= v < 85 -> digitval (digit v) = v /\ 0 < digit v < 256.
Proof.
  intros Hv.
  assert (forallb (fun n => let v := Z.of_nat n in
    (digitval (digit v) =? v) && (0 <? digit v) && (digit v <? 256)) (seq 0 85) = true) as H by reflexivity.
  rewrite forallb_forall in H. specialize (H (Z.to_nat v)). rewrite Z2Nat.id in H by lia.
  specialize (H ltac:(apply in_seq; lia)).
  apply andb_true_iff in H as [[H1%Z.eqb_eq H2%Z.ltb_lt]%andb_true_iff H3%Z.ltb_lt]. auto.
Qed.

Lemma isdigit85_digit v : 0 <= v < 85 -> isdigit85 (digit v) = true.
Proof. intros Hv. unfold isdigit85, notadigit. destruct (digit_ok v Hv) as [-> _]. lia. Qed.

Lemma enc4_char v : 0 <= v < 2 ^ 32 -> Forall (fun c => 0 < c < 256) (enc4 v).
Proof.
  intros Hv. unfold enc4. cbn [map]. p85.
  repeat (apply Forall_cons; split; [apply (fun v H => proj2 (digit_ok v H)); dlia|]). apply List.Forall_nil.
Qed.

Lemma digittobin_ok c : 0 <= c < 256 -> aget digittobin c = Ok (digitval c).
Proof.
  intros Hc. rewrite aget_ok by (cbn [length digittobin app replicate]; lia). unfold digitval.
  rewrite nth_lookup, (list_lookup_lookup_total_lt digittobin); [done|].
  cbn [length digittobin app replicate]. lia.
Qed.

(** ** The encoder *)

Lemma ultob85_step p ps m dest value :
  0 < p -> 85 * p <= 2 ^ 33 -> 0 <= value < 85 * p -> is_Some (m !! dest) ->
  ultob85_loop (p :: ps) m dest value = ultob85_loop ps (<[dest := digit (value / p)]> m) (dest + 1) (value mod p).
Proof.
  intros Hp Hp' Hv Hm. cbn [ultob85_loop].
  assert (0 <= value / p < 85) as Hq
    by (split; [apply Z.div_pos; lia|apply Z.div_lt_upper_bound; lia]).
  unfold u32. rewrite wrap_small by (unfold is_u; pow_norm; lia).
  rewrite aget_ok by (cbn [length bintodigit]; lia). cbn [mbind res_bind]. fold (digit (value / p)).
  rewrite sto_ok; [|done|destruct (digit_ok _ Hq); unfold byte; lia]. cbn [mbind res_bind].
  assert (0 <= value / p * p <= value) by (pose proof (Z.mod_pos_bound value p ltac:(lia));
    pose proof (Z.div_mod value p ltac:(lia)); lia).
  unfold u64. rewrite (wrap_small 64 (value / p * p)), wrap_small by (unfold is_u; pow_norm; lia). f_equal.
  rewrite Z.mod_eq by lia. lia.
Qed.

Lemma ultob85_ok m dest v :
  0 <= v < 2 ^ 32 -> mapped m dest 5 -> ultob85 m dest v = Ok (mput m dest (enc4 v)).
Proof.
  intros Hv Hm. unfold ultob85, pow85.
  change (85 * (85 * (85 * 85))) with 52200625. change (85 * (85 * 85)) with 614125. change (85 * 85) with 7225.
  assert (forall l, mapped (mput m dest l) dest 5) as Hs by (intros; by apply mput_mapped).
  assert (forall a m', mapped m' dest 5 -> dest <= a < dest + 5 -> is_Some (m' !! a)) as Hi.
  { intros a m' H Ha. replace a with (dest + (a - dest)) by lia. apply H. lia. }
  rewrite ultob85_step; [|lia|dlia|dlia|apply Hi; [done|lia]].
  rewrite ultob85_step; [|lia|dlia|dlia|apply Hi; [by apply (Hs [_])|lia]].
  rewrite ultob85_step; [|lia|dlia|dlia|apply Hi; [by apply (Hs [_; _])|lia]].
  rewrite ultob85_step; [|lia|dlia|dlia|apply Hi; [by apply (Hs [_; _; _])|lia]].
  rewrite ultob85_step; [|lia|dlia|dlia|apply Hi; [by apply (Hs [_; _; _; _])|lia]].
  cbn [ultob85_loop]. unfold enc4. p85. cbn [map mput].
  assert (v mod 52200625 / 614125 = v / 614125 mod 85) as -> by dlia.
  assert (v mod 52200625 mod 614125 / 7225 = v / 7225 mod 85) as -> by dlia.
  assert (v mod 52200625 mod 614125 mod 7225 / 85 = v / 85 mod 85) as -> by dlia.
  assert (v mod 52200625 mod 614125 mod 7225 mod 85 / 1 = v mod 85) as -> by dlia.
  done.
Qed.

(** The value of up to four bytes. *)
Definition be_value (l : list Z) : Z := be4 (nth 0 l 0) (nth 1 l 0) (nth 2 l 0) (nth 3 l 0).

Lemma be_value_range l : Forall byte l -> 0 <= be_value l < 2 ^ 32.
Proof.
  intros H. assert (forall i, 0 <= nth i l 0 < 256) as Hi.
  { intros i. rewrite nth_lookup. destruct (l !! i) eqn:E; cbn; [|lia]. by eapply (Forall_lookup_1 byte). }
  unfold be_value, be4. pose proof (Hi 0%nat). pose proof (Hi 1%nat). pose proof (Hi 2%nat). pose proof (Hi 3%nat).
  pow_norm. lia.
Qed.

Lemma be4_le_word a b c d : byte a -> byte b -> byte c -> byte d -> le_word [d; c; b; a; 0; 0; 0; 0] = be4 a b c d.
Proof.
  intros. rewrite !le_word_cons by (done || (unfold byte; lia)).
  change (le_word []) with 0. unfold be4. pow_norm. lia.
Qed.

Lemma betoul_ok m src l :
  bytes_at m src l -> Forall byte l -> (length l <= 4)%nat ->
  betoul m src (Z.of_nat (length l)) = Ok (be_value l).
Proof.
  intros H Hb Hl.
  assert (forall i, (if Z.of_nat i <? Z.of_nat (length l) then ld m (src + Z.of_nat i) else Ok 0) = Ok (nth i l 0)) as Hld.
  { intros i. rewrite nth_lookup. destruct (l !! i) as [x|] eqn:E.
    - apply lookup_lt_Some in E as Hi. rewrite (proj2 (Z.ltb_lt _ _)) by lia. by apply ld_ok, H.
    - apply lookup_ge_None in E. by rewrite (proj2 (Z.ltb_ge _ _)) by lia. }
  assert (forall i, byte (nth i l 0)) as Hn.
  { intros i. rewrite nth_lookup. destruct (l !! i) eqn:E; cbn; [|unfold byte; lia].
    by eapply (Forall_lookup_1 byte). }
  unfold betoul. cbn [betoul_loop]. change (0 + 1) with 1. change (1 + 1) with 2. change (2 + 1) with 3.
  rewrite (Hld 0%nat : (if 0 <? _ then ld m (src + 0) else _) = _).
  rewrite (Hld 1%nat : (if 1 <? _ then ld m (src + 1) else _) = _).
  rewrite (Hld 2%nat : (if 2 <? _ then ld m (src + 2) else _) = _).
  rewrite (Hld 3%nat : (if 3 <? _ then ld m (src + 3) else _) = _).
  unfold be_value. rewrite <- be4_le_word by done. reflexivity.
Qed.

Lemma enc4_length v : length (enc4 v) = 5%nat.
Proof. reflexivity. Qed.

Lemma encode_short l : (0 < length l <= 4)%nat -> encode l = enc4 (be_value l).
Proof.
  destruct l as [|a [|b [|c [|d [|? l]]]]]; cbn [length]; intros; try lia; unfold be_value; cbn [encode nth];
    by rewrite ?app_nil_r.
Qed.

Lemma encode_app n l k : length l = (4 * n)%nat -> encode (l ++ k) = encode l ++ encode k.
Proof.
  revert l. induction n as [|n IH]; intros l Hl; [by destruct l|].
  destruct l as [|a [|b [|c [|d l]]]]; cbn [length] in Hl; try lia.
  cbn [app encode]. rewrite IH by lia. by rewrite app_assoc.
Qed.

Lemma encode_length n l : length l = (4 * n)%nat -> length (encode l) = (5 * n)%nat.
Proof.
  revert l. induction n as [|n IH]; intros l Hl; [by destruct l|].
  destruct l as [|a [|b [|c [|d l]]]]; cbn [length] in Hl; try lia.
  cbn [encode]. rewrite length_app, enc4_length, IH by lia. lia.
Qed.

(** One group: the value of the bytes at [s] written as digits at [dest]. *)
Lemma group_ok m dest s l :
  bytes_at m s l -> Forall byte l -> (0 < length l <= 4)%nat -> mapped m dest 5 ->
  exists v, betoul m s (Z.of_nat (length l)) = Ok v /\ ultob85 m dest v = Ok (mput m dest (encode l)).
Proof.
  intros H Hb Hl Hm. exists (be_value l). split; [apply betoul_ok; (done || lia)|].
  rewrite ultob85_ok by (done || by apply be_value_range). by rewrite encode_short.
Qed.

Lemma quartet_loop_ok n m dest s l :
  length l = (4 * n)%nat -> bytes_at m s l -> Forall byte l -> mapped m dest (Z.of_nat (5 * n)) ->
  disjoint_ranges dest (Z.of_nat (5 * n)) s (Z.of_nat (4 * n)) ->
  quartet_loop n m (dest + Z.of_nat (5 * n)) (s + Z.of_nat (4 * n)) = Ok (mput m dest (encode l)).
Proof.
  revert m l. induction n as [|n IH]; intros m l Hl Hs Hb Hm Hd; [by destruct l|].
  rewrite <- (take_drop (4 * n) l) in Hs, Hb |- *.
  assert (length (take (4 * n) l) = (4 * n)%nat) as Hl1 by (rewrite length_take; lia).
  assert (length (drop (4 * n) l) = 4%nat) as Hl2 by (rewrite length_drop; lia).
  set (l1 := take (4 * n) l) in *. set (l2 := drop (4 * n) l) in *. clearbody l1 l2.
  apply bytes_at_app in Hs as [Hs1 Hs2]. apply Forall_app in Hb as [Hb1 Hb2]. rewrite Hl1 in Hs2.
  cbn [quartet_loop].
  replace (s + Z.of_nat (4 * S n) - 4) with (s + Z.of_nat (4 * n)) by lia.
  replace (dest + Z.of_nat (5 * S n) - 5) with (dest + Z.of_nat (5 * n)) by lia.
  destruct (group_ok m (dest + Z.of_nat (5 * n)) (s + Z.of_nat (4 * n)) l2 Hs2 Hb2 ltac:(lia)) as (v & Ev & E).
  { eapply mapped_sub; [exact Hm|lia|lia]. }
  rewrite Hl2 in Ev. change (Z.of_nat 4) with 4 in Ev. rewrite Ev. cbn [mbind res_bind]. rewrite E. cbn [mbind res_bind].
  assert (length (encode l2) = 5%nat) as He2 by (by rewrite (encode_length 1)).
  unfold disjoint_ranges in Hd.
  rewrite (IH _ l1); [|done| |done| |unfold disjoint_ranges; lia].
  - rewrite (encode_app n) by done. rewrite mput_app, (encode_length n) by done. f_equal. apply mput_comm.
    rewrite He2, (encode_length n) by done. unfold disjoint_ranges. lia.
  - apply mput_bytes_at_ne; [done|]. rewrite He2, Hl1. unfold disjoint_ranges. lia.
  - apply mput_mapped. eapply mapped_sub; [exact Hm|lia|lia].
Qed.

Lemma quarter_Z n : Z.of_nat n / 4 = Z.of_nat (n / 4) /\ Z.of_nat n mod 4 = Z.of_nat (n mod 4).
Proof. by rewrite Nat2Z.inj_div, Nat2Z.inj_mod. Qed.

Lemma encode_total_length l :
  Z.of_nat (length (encode l)) = 5 * (Z.of_nat (length l) / 4) + if Z.of_nat (length l) mod 4 =? 0 then 0 else 5.
Proof.
  assert (length (take (4 * (length l / 4)) l) = (4 * (length l / 4))%nat) as H1.
  { rewrite length_take. pose proof (Nat.div_mod (length l) 4). lia. }
  assert (length (drop (4 * (length l / 4)) l) = (length l mod 4)%nat) as H2.
  { rewrite length_drop. pose proof (Nat.div_mod (length l) 4). lia. }
  rewrite <- (take_drop (4 * (length l / 4)) l) at 1. rewrite (encode_app (length l / 4)) by done.
  rewrite length_app, (encode_length (length l / 4)) by done.
  pose proof (Nat.mod_upper_bound (length l) 4). destruct (quarter_Z (length l)) as [-> ->].
  destruct (Z.eqb_spec (Z.of_nat (length l mod 4)) 0) as [E|E].
  - destruct (drop _ l); [cbn [encode length]; lia|cbn [length] in H2; lia].
  - rewrite encode_short, enc4_length by lia. lia.
Qed.

(** The encoder writes exactly the encoding and its terminator. *)
Lemma bintob85_ok m dest src l :
  bytes_at m src l -> Forall byte l ->
  mapped m dest (Z.of_nat (length (encode l)) + 1) ->
  disjoint_ranges dest (Z.of_nat (length (encode l)) + 1) src (Z.of_nat (length l)) ->
  bintob85 m dest src (Z.of_nat (length l))
  = Ok (dest + Z.of_nat (length (encode l)), mput m dest (encode l ++ [0])).
Proof.
  intros Hs Hb Hm Hd. unfold disjoint_ranges in Hd.
  pose proof (encode_total_length l) as HL. unfold bintob85.
  pose proof (Nat.div_mod (length l) 4 ltac:(lia)) as Hdm. pose proof (Nat.mod_upper_bound (length l) 4) as Hr.
  destruct (quarter_Z (length l)) as [Eq Er]. rewrite Eq, Er in *.
  set (n := (length l / 4)%nat) in *. set (r := (length l mod 4)%nat) in *. clearbody n r.
  replace (4 * Z.of_nat n) with (Z.of_nat (4 * n)) by lia.
  replace (5 * Z.of_nat n) with (Z.of_nat (5 * n)) in HL |- * by lia.
  rewrite <- (take_drop (4 * n) l) in Hs, Hb.
  assert (length (take (4 * n) l) = (4 * n)%nat) as Hl1 by (rewrite length_take; lia).
  assert (length (drop (4 * n) l) = r) as Hl2 by (rewrite length_drop; lia).
  assert (encode l = encode (take (4 * n) l) ++ encode (drop (4 * n) l)) as He
    by (rewrite <- (encode_app n), take_drop; done).
  set (l1 := take (4 * n) l) in *. set (l2 := drop (4 * n) l) in *. clearbody l1 l2.
  apply bytes_at_app in Hs as [Hs1 Hs2]. apply Forall_app in Hb as [Hb1 Hb2]. rewrite Hl1 in Hs2.
  pose proof (encode_length n l1 Hl1) as HL1.
  assert (Z.of_nat (length (encode l2)) = if Z.of_nat r =? 0 then 0 else 5) as HL2
    by (rewrite He, length_app in HL; lia).
  assert (exists m1, (if Z.of_nat r =? 0 then Ok m else
      v ← betoul m (src + Z.of_nat (4 * n)) (Z.of_nat r); ultob85 m (dest + Z.of_nat (5 * n)) v) = Ok m1 /\
      m1 = mput m (dest + Z.of_nat (5 * n)) (encode l2)) as (m1 & E1 & Em1).
  { destruct (Z.eqb_spec (Z.of_nat r) 0); [exists m; split; [done|]; by destruct l2; cbn in *; [|lia]|].
    destruct (group_ok m (dest + Z.of_nat (5 * n)) (src + Z.of_nat (4 * n)) l2) as (v & Ev & E); try done; [lia| |].
    { eapply mapped_sub; [exact Hm|lia|lia]. }
    rewrite Hl2 in Ev. rewrite Ev. cbn [mbind res_bind]. eauto. }
  rewrite E1. cbn [mbind res_bind]. rewrite <- HL2.
  assert (length (encode l2 ++ [0]) = (length (encode l2) + 1)%nat) as HL3 by (by rewrite length_app).
  rewrite sto_ok; [|subst m1; apply (mapped_hd _ _ 1); [apply mput_mapped; eapply mapped_sub; [exact Hm|lia|lia]|lia]
                   |unfold byte; lia]. cbn [mbind res_bind].
  replace (<[_ := 0]> m1) with (mput m (dest + Z.of_nat (5 * n)) (encode l2 ++ [0]))
    by (subst m1; rewrite mput_app; done).
  rewrite Nat2Z.id, (quartet_loop_ok n _ dest src l1); [|done| |done| |unfold disjoint_ranges; lia].
  - cbn [mbind res_bind]. rewrite He, <- app_assoc, (mput_app m dest), HL1, length_app, HL1.
    rewrite mput_comm by (rewrite HL1, HL3; unfold disjoint_ranges; lia).
    do 2 f_equal. lia.
  - apply mput_bytes_at_ne; [done|]. rewrite HL3, Hl1. unfold disjoint_ranges. lia.
  - apply mput_mapped. eapply mapped_sub; [exact Hm|lia|lia].
Qed.

(** ** The decoder *)

Lemma be_bytes_byte v : Forall byte (be_bytes v).
Proof. unfold be_bytes, byte. repeat (apply Forall_cons; split; [apply Z.mod_pos_bound; lia|]). apply List.Forall_nil. Qed.

Lemma ultobe_ok m dest v :
  mapped m dest 4 -> ultobe m dest v = Ok (dest + 4, mput m dest (be_bytes v)).
Proof.
  intros Hm. unfold ultobe.
  change (aget (le_bytes 8 v) 3) with (Ok (u8 (v >> 8 >> 8 >> 8)%mach)).
  change (aget (le_bytes 8 v) 2) with (Ok (u8 (v >> 8 >> 8)%mach)).
  change (aget (le_bytes 8 v) 1) with (Ok (u8 (v >> 8)%mach)).
  change (aget (le_bytes 8 v) 0) with (Ok (u8 v)). cbn [mbind res_bind].
  rewrite !Z.shiftr_shiftr, !Z.shiftr_div_pow2 by lia. change (8 + 8 + 8) with 24. change (8 + 8) with 16.
  change (ston m dest _) with (ston m dest (be_bytes v)). rewrite ston_ok; [done|done|apply be_bytes_byte].
Qed.

Lemma digitval_range c : 0 <= digitval c <= 85.
Proof.
  unfold digitval. rewrite nth_lookup. destruct (digittobin !! Z.to_nat c) as [x|] eqn:E; [|cbn; unfold notadigit; lia].
  assert (Forall (fun x => 0 <= x <= 85) digittobin) as H.
  { apply (Forall_app_2 _ (take 128 digittobin) (drop 128 digittobin)).
    - repeat (apply Forall_cons; split; [lia|]). apply List.Forall_nil.
    - change (drop 128 digittobin) with (replicate 128 85). apply Forall_replicate. lia. }
  exact (Forall_lookup_1 _ _ _ _ H E).
Qed.

Lemma group_step p ps m s i value c :
  0 < p < 2 ^ 32 -> 0 <= value < 2 ^ 40 -> m !! s = Some c -> 0 <= c < 256 ->
  group_loop (p :: ps) m s i value =
  if isdigit85 c then group_loop ps m (s + 1) (i + 1) (value + digitval c * p) else Ok (inl i).
Proof.
  intros Hp Hv Hm Hc. cbn [group_loop]. rewrite (ld_ok _ _ _ Hm). cbn [mbind res_bind].
  rewrite digittobin_ok by done. cbn [mbind res_bind]. unfold isdigit85.
  destruct (digitval c =? notadigit); cbn [negb]; [done|].
  pose proof (digitval_range c). assert (0 <= digitval c * p <= 85 * 2 ^ 32) by nia.
  f_equal. unfold u64. rewrite (wrap_small 64 (_ * _)), wrap_small by (unfold is_u; pow_norm; lia). done.
Qed.

(** One turn of the decoder: a group of digits, or where it stopped. *)
Ltac group_char H Hc l x :=
  destruct l as [|x l]; cbn [app] in H;
  [ apply bytes_at_cons in H as [H _];
    erewrite group_step; [|p85; lia|p85; lia|exact H|lia];
    change (isdigit85 0) with false; cbv iota; right; eexists; split; [reflexivity|]; cbn [decode]
  | let H1 := fresh "H" in
    apply bytes_at_cons in H as [H1 H]; apply Forall_cons in Hc as [? Hc];
    pose proof (digitval_range x);
    erewrite group_step; [|p85; lia|p85; lia|exact H1|lia];
    let E := fresh "E" in destruct (isdigit85 x) eqn:E; cbv iota;
    [|right; eexists; split; [reflexivity|]; cbn [decode]] ].

Lemma group_text m s l :
  bytes_at m s (l ++ [0]) -> Forall (fun c => 0 < c < 256) l ->
  (exists a b c d e l', l = a :: b :: c :: d :: e :: l' /\ Forall (fun x => isdigit85 x = true) [a; b; c; d; e] /\
     group_loop pow85 m s 0 0 = Ok (inr (group_value a b c d e))) \/
  (exists i, group_loop pow85 m s 0 0 = Ok (inl i) /\ decode l = ([], i =? 0)).
Proof.
  intros H Hc. unfold pow85.
  change (85 * (85 * (85 * 85))) with 52200625. change (85 * (85 * 85)) with 614125. change (85 * 85) with 7225.
  group_char H Hc l a; [done| |by destruct l as [|? [|? [|? [|? ?]]]]; rewrite E].
  group_char H Hc l b; [by rewrite E| |by destruct l as [|? [|? [|? ?]]]; rewrite E, ?E0].
  group_char H Hc l c; [by rewrite E| |by destruct l as [|? [|? ?]]; rewrite E, ?E0, ?E1].
  group_char H Hc l d; [by rewrite E| |by destruct l as [|? ?]; rewrite E, ?E0, ?E1, ?E2].
  group_char H Hc l e; [by rewrite E| |by rewrite E, ?E0, ?E1, ?E2, ?E3].
  left. exists a, b, c, d, e, l. split_and!; [done|by repeat constructor|].
  cbn [group_loop]. do 2 f_equal. unfold group_value. p85. lia.
Qed.

Lemma b85tobin_loop_ok fuel m dest s l :
  bytes_at m s (l ++ [0]) -> Forall (fun c => 0 < c < 256) l -> (length l < fuel)%nat ->
  let '(r, ok) := decode l in
  mapped m dest (Z.of_nat (length r)) ->
  disjoint_ranges dest (Z.of_nat (length r)) s (Z.of_nat (length l) + 1) ->
  b85tobin_loop fuel m dest s = Ok (if ok : bool then dest + Z.of_nat (length r) else 0, mput m dest r).
Proof.
  revert m dest s l. induction fuel as [|fuel IH]; intros m dest s l Hs Hc Hf; [lia|]. cbn [b85tobin_loop].
  destruct (group_text m s l Hs Hc) as [(a & b & c & d & e & l' & -> & Hd & E)|(i & E & ->)].
  - rewrite !Forall_cons in Hd. destruct Hd as (Ea & Eb & Ec & Ed & Ee & _).
    cbn [decode]. rewrite Ea, Eb, Ec, Ed, Ee. cbn [andb].
    cbn [app length] in *. do 5 apply bytes_at_cons in Hs as [_ Hs]. rewrite <- !Z.add_assoc in Hs.
    cbn [Z.add Pos.add Pos.succ] in Hs. do 5 apply Forall_cons in Hc as [_ Hc].
    set (v := group_value a b c d e). specialize (IH (mput m dest (be_bytes v)) (dest + 4) (s + 5) l').
    destruct (decode l') as [r ok]. rewrite length_app. cbn [be_bytes length] in *. intros Hm HD.
    unfold disjoint_ranges in HD. rewrite E. cbn [mbind res_bind].
    rewrite ultobe_ok by (eapply mapped_sub; [exact Hm|lia|lia]). cbn [mbind res_bind]. fold v.
    rewrite IH.
    + rewrite mput_app. change (length (be_bytes v)) with 4%nat. do 2 f_equal. destruct ok; lia.
    + apply mput_bytes_at_ne; [done|]. rewrite length_app. cbn [be_bytes length]. unfold disjoint_ranges. lia.
    + done.
    + lia.
    + apply mput_mapped. eapply mapped_sub; [exact Hm|lia|lia].
    + unfold disjoint_ranges. lia.
  - intros Hm HD. rewrite E. cbn [mbind res_bind length mput]. rewrite Z.add_0_r. done.
Qed.

(** ** Decoding an encoding *)

Lemma be4_bytes a b c d : byte a -> byte b -> byte c -> byte d -> be_bytes (be4 a b c d) = [a; b; c; d].
Proof. unfold byte. intros. unfold be_bytes, be4. f_equal; [dlia|f_equal; [dlia|f_equal; [dlia|f_equal; dlia]]]. Qed.

Lemma decode_enc4 v l :
  0 <= v < 2 ^ 32 -> decode (enc4 v ++ l) = (be_bytes v ++ (decode l).1, (decode l).2).
Proof.
  intros Hv. unfold enc4. cbn [map app decode].
  rewrite !isdigit85_digit by dlia. cbn [andb]. destruct (decode l) as [r ok]. cbn [fst snd].
  unfold group_value. rewrite !(fun v H => proj1 (digit_ok v H)) by dlia. do 3 f_equal. dlia.
Qed.

Lemma padded_cons4 a b c d l : padded (a :: b :: c :: d :: l) = a :: b :: c :: d :: padded l.
Proof.
  unfold padded. cbn [length app]. do 7 f_equal.
  replace (- Z.of_nat (S (S (S (S (length l)))))) with (- Z.of_nat (length l) + (-1) * 4) by lia.
  by rewrite Z.mod_add by lia.
Qed.

(** Induction on a list by four elements at a time. *)
Lemma list_ind4 (P : list Z -> Prop) :
  P [] -> (forall a, P [a]) -> (forall a b, P [a; b]) -> (forall a b c, P [a; b; c]) ->
  (forall a b c d l, P l -> P (a :: b :: c :: d :: l)) -> forall l, P l.
Proof.
  intros H0 H1 H2 H3 H4. fix IH 1.
  intros [|a [|b [|c [|d l]]]]; [exact H0|apply H1|apply H2|apply H3|apply H4, IH].
Qed.

Lemma decode_encode l : Forall byte l -> decode (encode l) = (padded l, true).
Proof.
  assert (byte 0) as B0 by (unfold byte; lia).
  assert (forall a b c d, byte a -> byte b -> byte c -> byte d -> 0 <= be4 a b c d < 2 ^ 32) as Hr
    by (unfold byte, be4; intros; pow_norm; lia).
  induction l as [|a|a b|a b c|a b c d l IH] using list_ind4; rewrite ?Forall_cons; [done|..]; intros HF.
  1-3: cbn [encode]; rewrite <- (app_nil_r (enc4 _)), decode_enc4 by (apply Hr; tauto);
       rewrite be4_bytes by tauto; reflexivity.
  cbn [encode]. rewrite decode_enc4 by (apply Hr; tauto). rewrite IH, be4_bytes by tauto.
  by rewrite padded_cons4.
Qed.

Lemma encode_chars l : Forall byte l -> Forall (fun c => 0 < c < 256) (encode l).
Proof.
  assert (byte 0) as B0 by (unfold byte; lia).
  assert (forall a b c d, byte a -> byte b -> byte c -> byte d -> 0 <= be4 a b c d < 2 ^ 32) as Hr
    by (unfold byte, be4; intros; pow_norm; lia).
  induction l as [|a|a b|a b c|a b c d l IH] using list_ind4; rewrite ?Forall_cons; intros HF; cbn [encode].
  1: apply List.Forall_nil.
  1-3: apply enc4_char, Hr; tauto.
  apply Forall_app. split; [apply enc4_char, Hr; tauto|apply IH; tauto].
Qed.

(** ** The theorems *)

(** C37: [bintob85] writes the encoding of the data and a terminator, nothing
    else, and returns the address of the terminator; [b85tobin] on that text
    writes the data back, with zeros up to a multiple of four bytes, and returns
    the end of what it wrote. *)
Theorem base85_round_trip m src l txt out :
  bytes_at m src l -> Forall byte l ->
  let n := Z.of_nat (length (encode l)) in
  let k := Z.of_nat (length (padded l)) in
  mapped m txt (n + 1) -> mapped m out k ->
  disjoint_ranges txt (n + 1) src (Z.of_nat (length l)) -> disjoint_ranges out k txt (n + 1) ->
  exists m1, bintob85 m txt src (Z.of_nat (length l)) = Ok (txt + n, m1) /\ cstr m1 txt (encode l) /\
    (forall a, ~ (txt <= a <= txt + n) -> m1 !! a = m !! a) /\
    exists m2, b85tobin m1 out txt = Ok (out + k, m2) /\ bytes_at m2 out (padded l) /\
      (forall a, ~ (out <= a < out + k) -> m2 !! a = m1 !! a).
Proof.
  intros Hs Hb n k Hm1 Hm2 D1 D2. exists (mput m txt (encode l ++ [0])).
  assert (Z.of_nat (length (encode l ++ [0])) = n + 1) as Hlen by (rewrite length_app; cbn [length]; lia).
  pose proof (encode_chars l Hb) as Hc.
  assert (bytes_at (mput m txt (encode l ++ [0])) txt (encode l ++ [0])) as Ht by apply mput_bytes_at.
  split; [by apply bintob85_ok|]. split; [by split|]. split.
  { intros a Ha. by rewrite mput_lookup, decide_False by lia. }
  exists (mput (mput m txt (encode l ++ [0])) out (padded l)). split_and!; [|apply mput_bytes_at|].
  - pose proof (b85tobin_loop_ok (mem_fuel (mput m txt (encode l ++ [0]))) _ out txt (encode l) Ht Hc) as H.
    rewrite decode_encode in H by done. apply H; [|by apply mput_mapped|done].
    apply bytes_at_fuel in Ht. rewrite length_app in Ht. cbn [length] in Ht. lia.
  - intros a Ha. by rewrite mput_lookup, decide_False by (subst k; lia).
Qed.

(** [b85tobin] returns on every string: it decodes the groups of five digits
    in front of the first other character and stores their bytes; the result is
    the end of those bytes, or [NULL] when that character is inside a group. *)
Theorem b85tobin_spec m dest src s :
  cstr m src s ->
  let '(r, ok) := decode s in
  mapped m dest (Z.of_nat (length r)) ->
  disjoint_ranges dest (Z.of_nat (length r)) src (Z.of_nat (length s) + 1) ->
  exists m', b85tobin m dest src = Ok (if ok : bool then dest + Z.of_nat (length r) else 0, m') /\
    bytes_at m' dest r /\
    forall a, ~ (dest <= a < dest + Z.of_nat (length r)) -> m' !! a = m !! a.
Proof.
  intros [Hs Hc]. unfold b85tobin. pose proof (bytes_at_fuel _ _ _ Hs) as Hf. rewrite length_app in Hf.
  pose proof (b85tobin_loop_ok (mem_fuel m) m dest src s Hs Hc ltac:(cbn in Hf; lia)) as H.
  destruct (decode s) as [r ok]. intros Hm HD. exists (mput m dest r).
  split_and!; [by apply H|apply mput_bytes_at|]. intros a Ha. by rewrite mput_lookup, decide_False by lia.
Qed.

Lemma base85_round_trip_witness :
  exists m1, bintob85 (mput (mput (mput ∅ 10 [1; 2; 3; 4; 5]) 100 (replicate 11 0)) 200 (replicate 8 0)) 100 10 5
    = Ok (110, m1) /\ exists m2, b85tobin m1 200 100 = Ok (208, m2) /\ bytes_at m2 200 [1; 2; 3; 4; 5; 0; 0; 0].
Proof.
  destruct (base85_round_trip (mput (mput (mput ∅ 10 [1; 2; 3; 4; 5]) 100 (replicate 11 0)) 200 (replicate 8 0))
    10 [1; 2; 3; 4; 5] 100 200) as (m1 & E1 & _ & _ & m2 & E2 & H & _).
  - apply mput_bytes_at_ne; [apply mput_bytes_at_ne; [apply mput_bytes_at|]|]; right; vm_compute; congruence.
  - repeat (apply Forall_cons; split; [unfold byte; lia|]). apply List.Forall_nil.
  - apply mput_mapped, (bytes_at_mapped _ _ (replicate 11 0)), mput_bytes_at.
  - apply (bytes_at_mapped _ _ (replicate 8 0)), mput_bytes_at.
  - right. vm_compute. congruence.
  - right. vm_compute. congruence.
  - exists m1. split; [exact E1|]. exists m2. split; [exact E2|exact H].
Defined.

(** Three digits and a blank are not a group. *)
Lemma b85tobin_spec_witness :
  exists m', b85tobin (mput ∅ 100 [65; 66; 67; 32; 0]) 10 100 = Ok (0, m').
Proof.
  destruct (b85tobin_spec (mput ∅ 100 [65; 66; 67; 32; 0]) 10 100 [65; 66; 67; 32]) as (m' & E & _).
  - split; [apply mput_bytes_at|repeat constructor].
  - intros i Hi. cbn in Hi. lia.
  - left. vm_compute. congruence.
  - exists m'. exact E.
Defined.

(** A group of the largest digits stands for more than 32 bits: the decoder
    takes it and drops the rest. *)
Example b85_group_truncated : decode [126; 126; 126; 126; 126] = (be_bytes (85 ^ 5 - 1 - 2 ^ 32), true).
Proof. reflexivity. Qed.
