(* ===== verification/Tss.v ===== *)
(** * Thread-specific storage (libc/src/threads/c11_threadlocal.c)

    The keys that the program has created and, for each thread, the values it
    stored under them.  Both tables are hash maps and are used through the
    interface of Store.v only.  The dynamically linked variant of the start-up
    code ([tls_dynamic.c]) is the one modelled. *)

From S2P Require Import Prelude Store HashFns Hashmap Mutex.

(** ** The code *)

Record tls_slot_info := SlotInfo { sl_key : Z; sl_dtor : Z }.
Record tss_entry_t := TssEntry { te_key : Z; te_value : Z }.

Definition _HashmapTlsSlotHash (e : tls_slot_info) (seed0 seed1 : Z) : Z :=
  hashmap_sip (le_bytes 8 (sl_key e)) seed0 seed1.
Definition _HashmapTlsSlotCompare (a b : tls_slot_info) : Z := cbool (sl_key a <? sl_key b).
Definition _HashmapTssHash (e : tss_entry_t) (seed0 seed1 : Z) : Z :=
  hashmap_sip (le_bytes 8 (te_key e)) seed0 seed1.
Definition _HashmapTssCompare (a b : tss_entry_t) : Z := cbool (te_key a <? te_key b).

Section Operations.
Context {slot_ops : KVOps tls_slot_info} {entry_ops : KVOps tss_entry_t}.

(** [gState], the map of each thread ([__libc_thread_tss], absent for [NULL]),
    and the complaints written to [stderr]. *)
Record tworld := TWorld {
  nextKey : Z;
  tlock : mtx_t;
  tentries : option (kv (KVOps := slot_ops));
  thread_tss : gmap Z (kv (KVOps := entry_ops));
  complaints : list (Z * Z)
}.

Definition set_nextKey (n : Z) : st tworld () :=
  smod (fun w => TWorld n (tlock w) (tentries w) (thread_tss w) (complaints w)).
Definition set_tlock (l : mtx_t) : st tworld () :=
  smod (fun w => TWorld (nextKey w) l (tentries w) (thread_tss w) (complaints w)).
Definition set_tentries (e : option (kv (KVOps := slot_ops))) : st tworld () :=
  smod (fun w => TWorld (nextKey w) (tlock w) e (thread_tss w) (complaints w)).
Definition set_thread_tss (t : gmap Z (kv (KVOps := entry_ops))) : st tworld () :=
  smod (fun w => TWorld (nextKey w) (tlock w) (tentries w) t (complaints w)).
Definition complain (key value : Z) : st tworld () :=
  smod (fun w => TWorld (nextKey w) (tlock w) (tentries w) (thread_tss w) (complaints w ++ [(key, value)])).

(** The calling thread. *)
Context (me : Z).

Definition __libc_tss_thread_init (mok : nat -> bool) : st tworld () :=
  m ← slift (kv_new 0 mok);
  match m with
  | None => sabort
  | Some m => w ← sget; set_thread_tss (<[me := m]> (thread_tss w))
  end.
Definition __libc_tss_thread_fini : st tworld () :=
  w ← sget; set_thread_tss (delete me (thread_tss w)).

Definition __libc_tss_init (mok mok' : nat -> bool) : st tworld () :=
  let '(err, l) := mtx_init mtx_plain in
  _ ← (match l with Some l => set_tlock l | None => mret () end);
  if negb (err =? thrd_success) then sabort
  else
    _ ← set_nextKey 1;
    m ← slift (kv_new 0 mok);
    _ ← set_tentries m;
    match m with None => sabort | Some _ => __libc_tss_thread_init mok' end.

Definition lock_tss : st tworld Z :=
  w ← sget; '(err, l) ← slift (mtx_lock me (tlock w)); _ ← set_tlock l; mret err.
Definition unlock_tss : st tworld () :=
  w ← sget; '(_, l) ← slift (mtx_unlock me (tlock w)); set_tlock l.

(** The key stored in [*outKey] and the result. *)
Definition tss_create (destructor : Z) (mok : nat -> bool) : st tworld (Z * Z) :=
  w ← sget;
  let key := nextKey w in
  _ ← set_nextKey (u64 (nextKey w + 1));
  err ← lock_tss;
  if negb (err =? thrd_success) then mret (key, thrd_error)
  else
    w ← sget;
    m ← slift (res_of (tentries w));
    '(ret, m) ← slift (kv_set m (SlotInfo key destructor) mok);
    _ ← set_tentries (Some m);
    let failed := bool_decide (is_Some ret) || kv_oom m in
    _ ← unlock_tss;
    mret (key, if failed then thrd_error else thrd_success).

Definition tss_get (key : Z) : st tworld Z :=
  w ← sget;
  match thread_tss w !! me with
  | None => mret 0
  | Some m =>
      found ← slift (kv_get m (TssEntry key 0));
      mret (match found with None => 0 | Some e => te_value e end)
  end.

Definition tss_set (key value : Z) (mok : nat -> bool) : st tworld Z :=
  err ← lock_tss;
  if negb (err =? thrd_success) then mret thrd_error
  else
    w ← sget;
    m ← slift (res_of (tentries w));
    (* the destructor of the query is not initialised, and not looked at *)
    item ← slift (kv_get m (SlotInfo key 0));
    match item with
    | None => _ ← unlock_tss; mret thrd_error
    | Some _ =>
        _ ← (match thread_tss w !! me with
             | Some t =>
                 '(_, t) ← slift (kv_set t (TssEntry key value) mok);
                 set_thread_tss (<[me := t]> (thread_tss w))
             | None => complain key value
             end);
        _ ← unlock_tss;
        mret thrd_success
    end.
End Operations.

(** ** The contract *)

(** The keys created so far and, per thread, what it stored. *)
Record tss_spec := TssSpec { sp_next : Z; sp_keys : gset Z; sp_values : gmap Z (gmap Z Z) }.

Inductive tss_op := TCreate (dtor : Z) | TGet (key : Z) | TSet (key value : Z) | TInit | TFini.

(** The call by thread [t]: its results and the new state. *)
Definition spec_step (t : Z) (o : tss_op) (s : tss_spec) : list Z * tss_spec :=
  match o with
  | TCreate _ => ([sp_next s; thrd_success], TssSpec (sp_next s + 1) ({[sp_next s]} ∪ sp_keys s) (sp_values s))
  | TGet k => ([default 0 (V ← sp_values s !! t; V !! k)], s)
  | TSet k v =>
      if decide (k ∈ sp_keys s)
      then ([thrd_success], TssSpec (sp_next s) (sp_keys s) (alter (<[k := v]>) t (sp_values s)))
      else ([thrd_error], s)
  | TInit => ([], TssSpec (sp_next s) (sp_keys s) (<[t := ∅]> (sp_values s)))
  | TFini => ([], TssSpec (sp_next s) (sp_keys s) (delete t (sp_values s)))
  end.
Fixpoint spec_run (l : list (Z * tss_op)) (s : tss_spec) : list (list Z) :=
  match l with
  | [] => []
  | (t, o) :: l => let '(r, s) := spec_step t o s in r :: spec_run l s
  end.

Section Runs.
Context {slot_ops : KVOps tls_slot_info} {entry_ops : KVOps tss_entry_t}.

(** The same call of the code, with memory to allocate from. *)
Definition tss_step (t : Z) (o : tss_op) : st tworld (list Z) :=
  match o with
  | TCreate d => '(k, r) ← tss_create t d all_mallocs; mret [k; r]
  | TGet k => v ← tss_get t k; mret [v]
  | TSet k v => r ← tss_set t k v all_mallocs; mret [r]
  | TInit => _ ← __libc_tss_thread_init t all_mallocs; mret []
  | TFini => _ ← __libc_tss_thread_fini t; mret []
  end.
Fixpoint tss_run (l : list (Z * tss_op)) : st tworld (list (list Z)) :=
  match l with
  | [] => mret []
  | (t, o) :: l => r ← tss_step t o; rs ← tss_run l; mret (r :: rs)
  end.
End Runs.

(** ** The code keeps the contract *)

Section Refinement.
Context {slot_ops : KVOps tls_slot_info} {entry_ops : KVOps tss_entry_t} {room : nat} {kmax : Z}.
Definition slot_ok (n : Z) (e : tls_slot_info) : Prop := 0 <= sl_key e < n.
Definition entry_ok (n : Z) (e : tss_entry_t) : Prop := 0 <= te_key e < n.
Context {slot_laws : KVLaws slot_ops sl_key (slot_ok kmax) room}.
Context {entry_laws : KVLaws entry_ops te_key (entry_ok kmax) room}.

(** What a thread's table holds. *)
Definition values_rep (t : kv (KVOps := entry_ops)) (V : gmap Z Z) : Prop :=
  exists M, kv_rep t M /\ V = te_value <$> M.

Record tss_sim (w : tworld) (s : tss_spec) : Prop := {
  ts_lock : tlock w = Mtx 0 false 0 0;
  ts_next : nextKey w = sp_next s /\ 0 <= sp_next s;
  ts_slots : exists m M, tentries w = Some m /\ kv_rep m M /\ dom M = sp_keys s;
  ts_keys : forall k, k ∈ sp_keys s -> 0 <= k < sp_next s;
  ts_values : map_relation (fun _ => values_rep) (fun _ _ => False) (fun _ _ => False) (thread_tss w) (sp_values s);
  ts_room : forall t V, sp_values s !! t = Some V -> dom V ⊆ sp_keys s
}.

(** The keys and the number of entries stay within what the tables promise. *)
Definition op_ok (o : tss_op) : Prop :=
  match o with TGet k | TSet k _ => 0 <= k < kmax | _ => True end.
Definition fits (s : tss_spec) : Prop := sp_next s < Z.min kmax (2 ^ 64 - 1) /\ sp_next s <= Z.of_nat room.

Lemma values_lookup w s t : tss_sim w s ->
  match thread_tss w !! t, sp_values s !! t with
  | Some m, Some V => values_rep m V
  | None, None => True
  | _, _ => False
  end.
Proof. intros [_ _ _ _ H _]. specialize (H t). by destruct (thread_tss w !! t), (sp_values s !! t). Qed.

Lemma map_relation_insert (m : gmap Z (kv (KVOps := entry_ops))) M t x X :
  map_relation (fun _ => values_rep) (fun _ _ => False) (fun _ _ => False) m M -> values_rep x X ->
  map_relation (fun _ => values_rep) (fun _ _ => False) (fun _ _ => False) (<[t := x]> m) (<[t := X]> M).
Proof.
  intros H Hx k. specialize (H k). destruct (decide (t = k)) as [->|].
  - by rewrite !lookup_insert_eq.
  - by rewrite !lookup_insert_ne.
Qed.

Ltac tx :=
  unfold lock_tss, unlock_tss, set_nextKey, set_tlock, set_tentries, set_thread_tss, complain in *;
  unfold mbind, st_bind, mret, st_ret, sget, sput, smod, slift, sabort in *; cbn.

(** A set of keys below [n] has at most [n] of them. *)
Lemma keys_size (K : gset Z) n : (forall k, k ∈ K -> 0 <= k < n) -> (size K <= Z.to_nat n)%nat.
Proof.
  intros H. transitivity (size (list_to_set (seqZ 0 n) : gset Z)).
  - apply subseteq_size. intros k Hk. apply elem_of_list_to_set, elem_of_seqZ. specialize (H k Hk). lia.
  - rewrite size_list_to_set by apply NoDup_seqZ. by rewrite length_seqZ.
Qed.

Lemma create_sim t d w s :
  tss_sim w s -> fits s ->
  exists w', tss_step t (TCreate d) w = Ok ((spec_step t (TCreate d) s).1, w') /\
    tss_sim w' (spec_step t (TCreate d) s).2.
Proof.
  intros [Hl [Hn Hn0] (m & M & Hm & Hrep & Hdom) Hk HV Hr] [Hf1 Hf2].
  destruct (kv_set_law m M (SlotInfo (nextKey w) d) all_mallocs Hrep) as (oom & m' & Hset & Hrep' & Hoom & Hno).
  { unfold slot_ok. cbn. lia. }
  { rewrite <- size_dom, Hdom. pose proof (keys_size (sp_keys s) (sp_next s) Hk). lia. }
  rewrite Hno in * by done. cbn [sl_key] in *.
  assert (M !! nextKey w = None) as Hnone.
  { apply not_elem_of_dom. rewrite Hdom. intros Hin%Hk. lia. }
  unfold tss_step, tss_create. tx. rewrite Hl. tx. rewrite Hm. tx. rewrite Hset. tx.
  rewrite Hnone, Hoom. eexists. split; [by rewrite Hn|].
  split; cbn; try done.
  - unfold u64. rewrite wrap_small by (unfold is_u; lia). split; [done|lia].
  - exists m', (<[nextKey w := SlotInfo (nextKey w) d]> M). split_and!; [done|done|].
    rewrite dom_insert_L, Hdom, Hn. done.
  - intros k [->%elem_of_singleton|Hin%Hk]%elem_of_union; lia.
  - intros t' V HV'. specialize (Hr t' V HV'). set_solver.
Qed.

Lemma get_sim t k w s :
  tss_sim w s -> 0 <= k < kmax ->
  tss_step t (TGet k) w = Ok ((spec_step t (TGet k) s).1, w).
Proof.
  intros S Hk. pose proof (values_lookup w s t S) as Hv. unfold tss_step, tss_get. tx.
  destruct (thread_tss w !! t) as [m|], (sp_values s !! t) as [V|]; try done.
  tx. destruct Hv as (M & Hrep & ->).
  rewrite (kv_get_law m M (TssEntry k 0) Hrep) by done. tx. cbn [te_key]. rewrite lookup_fmap.
  by destruct (M !! k).
Qed.

Lemma set_sim t k v w s :
  tss_sim w s -> fits s -> 0 <= k < kmax ->
  exists w', tss_step t (TSet k v) w = Ok ((spec_step t (TSet k v) s).1, w') /\
    tss_sim w' (spec_step t (TSet k v) s).2.
Proof.
  intros S [Hf1 Hf2] Hk. pose proof (values_lookup w s t S) as Hv.
  destruct S as [Hl [Hn Hn0] (m & M & Hm & Hrep & Hdom) Hkeys HV Hr].
  unfold tss_step, tss_set. tx. rewrite Hl. tx. rewrite Hm. tx.
  rewrite (kv_get_law m M (SlotInfo k 0) Hrep) by done. tx. cbn [sl_key].
  destruct (decide (k ∈ sp_keys s)) as [Hin|Hin]; rewrite <- Hdom in Hin.
  2:{ apply not_elem_of_dom in Hin. rewrite Hin. tx. eexists. split; [reflexivity|].
      split; cbn; eauto. }
  apply elem_of_dom in Hin as [i Hi]. rewrite Hi. tx.
  destruct (thread_tss w !! t) as [tm|] eqn:Et, (sp_values s !! t) as [V|] eqn:EV; try done.
  2:{ tx. eexists. split; [reflexivity|]. split; cbn; eauto.
      - intros k'. specialize (HV k'). destruct (decide (t = k')) as [->|].
        + rewrite lookup_alter_eq. by rewrite EV in HV |- *.
        + by rewrite lookup_alter_ne.
      - intros t' V'. destruct (decide (t = t')) as [->|]; [by rewrite lookup_alter_eq, EV|].
        rewrite lookup_alter_ne by done. apply Hr. }
  destruct Hv as (E & HE & ->).
  destruct (kv_set_law tm E (TssEntry k v) all_mallocs HE) as (oom & tm' & Hset & HE' & _ & Hno); [done| |].
  { rewrite <- (map_size_fmap te_value), <- size_dom. transitivity (size (sp_keys s)).
    - apply subseteq_size, (Hr t _ EV).
    - pose proof (keys_size _ _ Hkeys). lia. }
  rewrite Hno in * by done. tx. rewrite Hset. tx. eexists. split; [reflexivity|].
  assert (alter <[k := v]> t (sp_values s) = <[t := te_value <$> <[k := TssEntry k v]> E]> (sp_values s)) as Ea.
  { apply map_eq. intros t'. destruct (decide (t = t')) as [<-|].
    - rewrite lookup_alter_eq, lookup_insert_eq, EV. cbn. by rewrite fmap_insert.
    - by rewrite lookup_alter_ne, lookup_insert_ne. }
  rewrite Ea. split; cbn; eauto.
  - apply map_relation_insert; [done|]. eexists. split; [exact HE'|done].
  - intros t' V'. destruct (decide (t = t')) as [<-|].
    + rewrite lookup_insert_eq. intros [= <-]. rewrite fmap_insert, dom_insert_L.
      specialize (Hr t _ EV). assert (k ∈ sp_keys s) by (rewrite <- Hdom; apply elem_of_dom; eauto). set_solver.
    + rewrite lookup_insert_ne by done. apply Hr.
Qed.

Lemma init_sim t w s :
  tss_sim w s -> exists w', tss_step t TInit w = Ok ([], w') /\ tss_sim w' (spec_step t TInit s).2.
Proof.
  intros [Hl Hn Hs Hk HV Hr]. pose proof (kv_new_law 0 all_mallocs ltac:(lia)) as (m & Hm & Hrep).
  unfold tss_step, __libc_tss_thread_init. tx. rewrite Hm. tx. eexists. split; [reflexivity|].
  split; cbn; eauto.
  - apply map_relation_insert; [done|]. exists ∅. by rewrite fmap_empty.
  - intros t' V. destruct (decide (t = t')) as [<-|].
    + rewrite lookup_insert_eq. intros [= <-]. set_solver.
    + rewrite lookup_insert_ne by done. apply Hr.
Qed.

Lemma fini_sim t w s :
  tss_sim w s -> exists w', tss_step t TFini w = Ok ([], w') /\ tss_sim w' (spec_step t TFini s).2.
Proof.
  intros [Hl Hn Hs Hk HV Hr]. unfold tss_step, __libc_tss_thread_fini. tx. eexists. split; [reflexivity|].
  split; cbn; eauto.
  - intros k. specialize (HV k). destruct (decide (t = k)) as [<-|].
    + by rewrite !lookup_delete_eq.
    + by rewrite !lookup_delete_ne.
  - intros t' V [_ HV']%lookup_delete_Some. by apply (Hr t').
Qed.

Lemma step_sim t o w s :
  tss_sim w s -> fits s -> op_ok o ->
  exists w', tss_step t o w = Ok ((spec_step t o s).1, w') /\ tss_sim w' (spec_step t o s).2.
Proof.
  intros S F O. destruct o as [d|k|k v| |].
  - by apply create_sim.
  - exists w. split; [by apply get_sim|done].
  - by apply set_sim.
  - by apply init_sim.
  - by apply fini_sim.
Qed.

(** Start-up: one thread, no keys. *)
Lemma tss_init_sim t (w : tworld) :
  exists w', __libc_tss_init t all_mallocs all_mallocs (TWorld 0 (tlock w) None ∅ []) = Ok ((), w') /\
    tss_sim w' (TssSpec 1 ∅ {[t := ∅]}).
Proof.
  pose proof (kv_new_law (ops := slot_ops) 0 all_mallocs ltac:(lia)) as (m & Hm & Hrep).
  pose proof (kv_new_law (ops := entry_ops) 0 all_mallocs ltac:(lia)) as (e & He & Hrep').
  unfold __libc_tss_init, __libc_tss_thread_init. tx. rewrite Hm. tx. rewrite He. tx.
  eexists. split; [reflexivity|]. split; cbn.
  - done.
  - lia.
  - exists m, ∅. split_and!; [done|done|by rewrite dom_empty_L].
  - set_solver.
  - intros k. destruct (decide (t = k)) as [<-|].
    + rewrite lookup_insert_eq, lookup_singleton_eq. exists ∅. by rewrite fmap_empty.
    + by rewrite lookup_insert_ne, lookup_singleton_ne.
  - intros t' V [<- <-]%lookup_singleton_Some. set_solver.
Qed.

Definition creates (l : list (Z * tss_op)) : Z :=
  Z.of_nat (length (filter (fun o => match o.2 with TCreate _ => true | _ => false end = true) l)).

Lemma run_sim l : forall w s,
  tss_sim w s -> Forall (fun o => op_ok o.2) l ->
  sp_next s + creates l < Z.min kmax (2 ^ 64 - 1) -> sp_next s + creates l <= Z.of_nat room ->
  exists w', tss_run l w = Ok (spec_run l s, w').
Proof.
  induction l as [|[t o] l IH]; intros w s S Hok H1 H2; [by exists w|].
  apply Forall_cons in Hok as [Ho Hok]. cbn [snd] in Ho.
  destruct (step_sim t o w s S) as (w1 & E1 & S1); [|done|].
  { unfold creates in *. split; lia. }
  assert (sp_next (spec_step t o s).2 + creates l = sp_next s + creates ((t, o) :: l)) as Hc.
  { unfold creates. rewrite filter_cons. destruct o; cbn [snd spec_step]; repeat case_decide; cbn [snd sp_next length] in *; try done; lia. }
  cbn [tss_run spec_run]. unfold mbind, st_bind. rewrite E1.
  destruct (IH w1 _ S1 Hok ltac:(lia) ltac:(lia)) as (w2 & E2). rewrite E2.
  destruct (spec_step t o s). by exists w2.
Qed.

End Refinement.

(** ** The hash maps in place *)

Definition slot_hashmap : KVOps tls_slot_info :=
  hashmap_ops (SlotInfo 0 0) _HashmapTlsSlotHash _HashmapTlsSlotCompare 16 0x544c5320 0x534c4f54.
Definition entry_hashmap : KVOps tss_entry_t :=
  hashmap_ops (TssEntry 0 0) _HashmapTssHash _HashmapTssCompare 16 0x544c5320 0x454e5452.

#[export] Instance slot_callbacks :
  CallbackLaws _HashmapTlsSlotHash _HashmapTlsSlotCompare sl_key (slot_ok 16) 0x544c5320 0x534c4f54.
Proof.
  apply (less_callbacks _HashmapTlsSlotHash sl_key (fun k => SlotInfo k 0)).
  { intros [k d]. unfold h48, _HashmapTlsSlotHash. cbn [sl_key]. reflexivity. }
  apply (bool_decide_unpack _). vm_compute. done.
Qed.
#[export] Instance entry_callbacks :
  CallbackLaws _HashmapTssHash _HashmapTssCompare te_key (entry_ok 16) 0x544c5320 0x454e5452.
Proof.
  apply (less_callbacks _HashmapTssHash te_key (fun k => TssEntry k 0)).
  { intros [k d]. unfold h48, _HashmapTssHash. cbn [te_key]. reflexivity. }
  apply (bool_decide_unpack _). vm_compute. done.
Qed.
#[export] Instance slot_hashmap_laws : KVLaws slot_hashmap sl_key (slot_ok 16) hashmap_room :=
  hashmap_laws (SlotInfo 0 0) _HashmapTlsSlotHash _HashmapTlsSlotCompare sl_key (slot_ok 16) 16 0x544c5320 0x534c4f54.
#[export] Instance entry_hashmap_laws : KVLaws entry_hashmap te_key (entry_ok 16) hashmap_room :=
  hashmap_laws (TssEntry 0 0) _HashmapTssHash _HashmapTssCompare te_key (entry_ok 16) 16 0x544c5320 0x454e5452.

