(* ===== verification/Threads.v ===== *)
(** * The life of a thread (libc/src/threads/c11_threads.c, thread_info.h)

    A thread's information block is shared by the thread itself and by whoever
    holds its [thrd_t]: [thrd_create] hands out two references, [thrd_exit],
    [thrd_join_np] and [thrd_detach] each give one back, and the last one frees
    the block.  The functions are cut into their accesses to the block, which
    interleave in any order; an access to a freed block is [Stuck].  The time a
    thread spends in its own function is one step. *)

From S2P Require Import Prelude Mutex.

Definition thrd_timedout : Z := 2.
Definition thrd_nomem : Z := 4.

(** The fields of [uthread_t] that the functions look at; [size_t] counters. *)
Record uthread := Uthread {
  refCount : Z;
  detached : bool;
  isRunning : bool;
  isLaunching : bool;
  numJoining : Z;
  exitCode : Z
}.

Definition set_refCount (n : Z) (b : uthread) : uthread :=
  Uthread n (detached b) (isRunning b) (isLaunching b) (numJoining b) (exitCode b).
Definition set_detached (b : uthread) : uthread :=
  Uthread (refCount b) true (isRunning b) (isLaunching b) (numJoining b) (exitCode b).
Definition set_running (r : bool) (b : uthread) : uthread :=
  Uthread (refCount b) (detached b) r (isLaunching b) (numJoining b) (exitCode b).
Definition set_launching (l : bool) (b : uthread) : uthread :=
  Uthread (refCount b) (detached b) (isRunning b) l (numJoining b) (exitCode b).
Definition set_joining (n : Z) (b : uthread) : uthread :=
  Uthread (refCount b) (detached b) (isRunning b) (isLaunching b) n (exitCode b).
Definition set_exitCode (c : Z) (b : uthread) : uthread :=
  Uthread (refCount b) (detached b) (isRunning b) (isLaunching b) (numJoining b) c.

(** A new block, as [CreateThreadInfoBlock] fills it. *)
Definition new_block : uthread := Uthread 1 false false false 0 0.

(** The two counters of [thread_info.h], as the new value. *)
Definition TIBRetain (b : uthread) : uthread := set_refCount (u64 (refCount b + 1)) b.
Definition TIBRelease_sub (b : uthread) : uthread := set_refCount (u64 (refCount b - 1)) b.

(** [thrd_create]: whether its two allocations succeed, and the error of
    [ThreadCreateFlags]; the result, how many of the allocations are still
    live, and the block that the new thread starts with. *)
Definition thrd_create (info_ok stack_ok : bool) (err : Z) : Z * nat * option uthread :=
  if negb info_ok then (thrd_nomem, 0%nat, None)
  else if negb stack_ok then (thrd_nomem, 0%nat, None)
  else if negb (err =? 0) then (thrd_error, 0%nat, None)
  else (thrd_success, 2%nat, Some (set_launching true (TIBRetain new_block))).

(** Where the thread is: [__ThreadEntry], its function, [thrd_exit]. *)
Inductive tpc :=
| TRunning                 (* at the store of [isRunning] *)
| TLaunched                (* at the store of [isLaunching] *)
| TUser                    (* in the thread's function *)
| TCode (c : Z)            (* [thrd_exit], at the store of [exitCode] *)
| TStop (c : Z)            (* at the clearing of [isRunning] *)
| TRelease (c : Z)         (* at the decrement of the reference count *)
| TFree (c : Z)            (* in [__TIBFree] *)
| TEnd (c : Z).            (* destroyed *)

(** Where a holder of the [thrd_t] is: [thrd_join_np] or [thrd_detach]. *)
Inductive upc :=
| JDetached                (* at the load of [detached] *)
| JLaunching               (* at the load of [isLaunching] *)
| JRunning (l : bool)      (* at the load of [isRunning] *)
| JExited                  (* the thread has exited: at the load of [exitCode] *)
| JRegister                (* at the increment of [numJoining] *)
| JRetain                  (* at [TIBRetain] *)
| JHandle                  (* at the load of [handle] for [ThreadWait] *)
| JWait                    (* in [ThreadWait] *)
| JCode                    (* woken: at the load of [exitCode] *)
| DSwap                    (* [thrd_detach], at the compare-and-exchange *)
| URelease (r : Z) (c : option Z)  (* at the decrement, about to return [r] *)
| UFree (r : Z) (c : option Z)     (* in [__TIBFree] *)
| UDone (r : Z) (c : option Z).    (* returned [r], with the exit code it stored *)

Record tstate := TState { blk : option uthread; tp : tpc; users : list upc }.

(** An access to the block: the new block. *)
Definition access {A} (s : tstate) (f : uthread -> A) : res A :=
  match blk s with Some b => Ok (f b) | None => Stuck end.

(** [__TIBFree]: reads [auxInfo] and takes the block out of the table. *)
Definition __TIBFree (s : tstate) : res (option uthread) := _ ← access s id; Ok None.

(** One step of the thread; [c] is what its function returns. *)
Definition thread_step (c : Z) (s : tstate) : res tstate :=
  match tp s with
  | TRunning => b ← access s (set_running true); Ok (TState (Some b) TLaunched (users s))
  | TLaunched => b ← access s (set_launching false); Ok (TState (Some b) TUser (users s))
  | TUser => Ok (TState (blk s) (TCode c) (users s))
  | TCode c => b ← access s (set_exitCode c); Ok (TState (Some b) (TStop c) (users s))
  | TStop c => b ← access s (set_running false); Ok (TState (Some b) (TRelease c) (users s))
  | TRelease c =>
      b ← access s TIBRelease_sub;
      Ok (TState (Some b) (if refCount b =? 0 then TFree c else TEnd c) (users s))
  | TFree c => b ← __TIBFree s; Ok (TState b (TEnd c) (users s))
  | TEnd _ => Ok s
  end.

(** How long [thrd_join_np] waits, in microseconds, for a time of seconds and
    nanoseconds; [UINTPTR_MAX] is for ever. *)
Definition join_wait (howLong : option (Z * Z)) : Z :=
  match howLong with
  | None => 2 ^ 64 - 1
  | Some (sec, nsec) =>
      if (sec =? 0) && (nsec =? 0) then 0
      else u64 (u64 nsec / 1000 + u64 (u64 sec * 1000000))
  end.

(** One step of a holder at [u]; [w] is the result of [ThreadWait] if it is one:
    zero once the thread is destroyed, one for a timeout, negative for an error.
    A wait that is not over leaves the holder where it is. *)
Definition user_pc (u : upc) (w : Z) (s : tstate) : res (upc * option uthread) :=
  match u with
  | JDetached =>
      b ← access s id;
      Ok (if detached b then UDone thrd_error None else JLaunching, blk s)
  | JLaunching => b ← access s id; Ok (JRunning (isLaunching b), blk s)
  | JRunning l =>
      b ← access s id;
      Ok (if negb (isRunning b) && negb l then JExited else JRegister, blk s)
  | JExited => b ← access s id; Ok (URelease thrd_success (Some (exitCode b)), blk s)
  | JRegister =>
      b ← access s id;
      Ok (if numJoining b =? 0 then JHandle else JRetain, Some (set_joining (u64 (numJoining b + 1)) b))
  | JRetain => b ← access s TIBRetain; Ok (JHandle, Some b)
  | JHandle => _ ← access s id; Ok (JWait, blk s)
  | JWait =>
      if w <? 0 then Ok (URelease thrd_error None, blk s)
      else if w =? 1 then Ok (URelease thrd_timedout None, blk s)
      else match tp s with TEnd _ => Ok (JCode, blk s) | _ => Ok (JWait, blk s) end
  | JCode => b ← access s id; Ok (URelease thrd_success (Some (exitCode b)), blk s)
  | DSwap =>
      b ← access s id;
      if detached b then Ok (UDone thrd_error None, blk s)
      else Ok (URelease thrd_success None, Some (set_detached b))
  | URelease r c =>
      b ← access s TIBRelease_sub;
      Ok (if refCount b =? 0 then UFree r c else UDone r c, Some b)
  | UFree r c => b ← __TIBFree s; Ok (UDone r c, b)
  | UDone r c => Ok (UDone r c, blk s)
  end.

(** Who moves next: the thread, or the holder number [i]. *)
Inductive move := MThread (c : Z) | MUser (i : nat) (w : Z).

Definition do_move (a : move) (s : tstate) : res tstate :=
  match a with
  | MThread c => thread_step c s
  | MUser i w =>
      match users s !! i with
      | None => Ok s
      | Some u => '(u, b) ← user_pc u w s; Ok (TState b (tp s) (<[i := u]> (users s)))
      end
  end.
Fixpoint run (l : list move) (s : tstate) : res tstate :=
  match l with
  | [] => Ok s
  | a :: l => s ← do_move a s; run l s
  end.

(** The state when [thrd_create] has resumed the thread. *)
Definition started (us : list upc) : tstate := TState (thrd_create true true 0).2 TRunning us.

(** [thrd_join] turns every other result into an error. *)
Definition thrd_join (r : Z) : Z := if negb (r =? thrd_success) then thrd_error else r.

(** ** One holder *)

(** Does the thread, does the holder still own its reference? *)
Definition t_holds (t : tpc) : Z := match t with TFree _ | TEnd _ => 0 | _ => 1 end.
Definition u_holds (u : upc) : Z := match u with UFree _ _ | UDone _ _ => 0 | _ => 1 end.

Definition t_running (t : tpc) : bool :=
  match t with TLaunched | TUser | TCode _ | TStop _ => true | _ => false end.
Definition t_launching (t : tpc) : bool :=
  match t with TRunning | TLaunched => true | _ => false end.
(** The exit code, once it is stored; and once the thread counts as stopped. *)
Definition t_code (t : tpc) : option Z :=
  match t with TStop c | TRelease c | TFree c | TEnd c => Some c | _ => None end.
Definition t_stopped (t : tpc) : option Z :=
  match t with TRelease c | TFree c | TEnd c => Some c | _ => None end.

(** What the holder knows about the thread and the block at each place. *)
Definition knows (u : upc) (t : tpc) (b : uthread) : Prop :=
  match u with
  | JDetached => detached b = false /\ numJoining b = 0
  | JLaunching | JRegister => numJoining b = 0
  | JRunning l => numJoining b = 0 /\ (l = false -> t_launching t = false)
  | JExited => is_Some (t_stopped t)
  | JRetain => False
  | JHandle | JWait => True
  | JCode => match t with TEnd _ => True | _ => False end
  | DSwap => detached b = false
  | URelease _ _ | UFree _ _ | UDone _ _ => True
  end.
Definition knows_code (u : upc) (t : tpc) : Prop :=
  match u with
  | URelease r c | UFree r c | UDone r c =>
      match c with Some c => t_stopped t = Some c /\ r = thrd_success | None => True end
  | _ => True
  end.

Record alive (b : uthread) (t : tpc) (u : upc) : Prop := {
  al_refs : refCount b = t_holds t + u_holds u;
  al_last : match t, u with
            | TFree _, UFree _ _ => False
            | TFree _, UDone _ _ | TEnd _, UFree _ _ => True
            | TEnd _, UDone _ _ => False
            | TFree _, _ | _, UFree _ _ => False
            | _, _ => True
            end;
  al_run : isRunning b = t_running t;
  al_launch : isLaunching b = t_launching t;
  al_code : forall c, t_code t = Some c -> exitCode b = c;
  al_knows : knows u t b
}.

Definition one_holder (s : tstate) : Prop :=
  exists u, users s = [u] /\ knows_code u (tp s) /\
    match blk s with
    | Some b => alive b (tp s) u
    | None => (exists c, tp s = TEnd c) /\ u_holds u = 0 /\ (forall r c, u <> UFree r c)
    end.

Lemma started_one_holder u : u = JDetached \/ u = DSwap -> one_holder (started [u]).
Proof. intros [-> | ->]; eexists; (split; [reflexivity|]); cbn; (split; [done|]); split; done. Qed.

Lemma refs_dec n : 0 < n <= 2 -> u64 (n - 1) = n - 1.
Proof. intros. unfold u64. apply wrap_small. unfold is_u. lia. Qed.

(** Closes a state of the proof below once the step has been computed. *)
Ltac settle :=
  eexists; split; [reflexivity|]; eexists; split; [reflexivity|]; cbn in *;
  repeat split; cbn in *; intros; simplify_eq/=; eauto; try done; try tauto; try lia.

Lemma thread_step_one_holder c s : one_holder s -> exists s', thread_step c s = Ok s' /\ one_holder s'.
Proof.
  destruct s as [[b|] t us]; intros (u & Hu & Hk & H); cbn in *; subst us.
  2:{ destruct H as ([c0 ->] & H). eexists. split; [reflexivity|]. exists u. split_and!; cbn; eauto; apply H. }
  destruct H as [Hr Hl Hrun Hlau Hc Hkn]. destruct b as [n d r l j e]; cbn in *. subst n r l.
  destruct t as [| | |c0|c0|c0|c0|c0], u; try (exfalso; done).
  all: try (settle; fail).
  all: destruct c1 as [c1|]; cbn in Hk; [by destruct Hk|settle].
Qed.

Lemma user_step_one_holder i w s : one_holder s -> exists s', do_move (MUser i w) s = Ok s' /\ one_holder s'.
Proof.
  destruct s as [[b|] t us]; intros (u & Hu & Hk & H); cbn in *; subst us; destruct i as [|i]; cbn.
  4:{ eexists. split; [reflexivity|]. exists u. cbn. tauto. }
  2:{ eexists. split; [reflexivity|]. exists u. cbn. tauto. }
  2:{ destruct H as ([c0 ->] & H & H'). destruct u; cbn in H; try discriminate; [by edestruct H'|].
      eexists. split; [reflexivity|]. eexists. split; [reflexivity|]. cbn. eauto. }
  destruct H as [Hr Hl Hrun Hlau Hc Hkn]. destruct b as [n d r l j e]; cbn in *. subst n r l.
  destruct u; cbn in Hkn; destruct_and?; subst.
  all: destruct t as [| | |c0|c0|c0|c0|c0]; try (exfalso; done).
  all: try (settle; fail).
  all: try (destruct l; try (settle; fail)).
  all: try (assert (e = c0) as -> by (apply Hc; reflexivity); settle; fail).
  all: unfold user_pc; cbn [mbind res_bind]; destruct (w <? 0), (w =? 1); try (settle; fail).
Qed.

Lemma run_one_holder l s : one_holder s -> exists s', run l s = Ok s' /\ one_holder s'.
Proof.
  revert s. induction l as [|a l IH]; intros s H; [by exists s|].
  assert (exists s1, do_move a s = Ok s1 /\ one_holder s1) as (s1 & E & H1).
  { destruct a; [by apply thread_step_one_holder|by apply user_step_one_holder]. }
  cbn [run]. rewrite E. cbn [mbind res_bind]. by apply IH.
Qed.

(** C35: with one holder of the [thrd_t] that either joins the thread once or
    detaches it, no interleaving of the thread and the holder touches the block
    after it was freed; the block is freed exactly when both are through with
    it, and a join that succeeds returns the exit code of the thread. *)
Theorem thread_block_lifetime u l :
  u = JDetached \/ u = DSwap ->
  exists s v, run l (started [u]) = Ok s /\ users s = [v] /\
    (blk s = None <-> (exists c, tp s = TEnd c) /\ exists r c, v = UDone r c) /\
    (forall r c, v = UDone r (Some c) -> r = thrd_success /\ t_stopped (tp s) = Some c).
Proof.
  intros Hu. destruct (run_one_holder l _ (started_one_holder u Hu)) as (s & E & v & Hv & Hk & H).
  exists s, v. split; [done|]. split; [done|]. split.
  - destruct (blk s) as [b|].
    + split; [done|]. intros [[c Et] (r & c' & ->)]. destruct H as [_ Hl _ _ _ _]. by rewrite Et in Hl.
    + destruct H as (Ht & H0 & HF). split; [|done]. intros _. split; [done|].
      destruct v; try discriminate H0; [by edestruct HF|eauto].
  - intros r c ->. cbn in Hk. tauto.
Qed.

(** The thread returns 7 and the holder, waiting for it, gets 7. *)
Lemma thread_block_lifetime_witness :
  exists s v, run ([MThread 0; MUser 0 0; MUser 0 0; MThread 0; MUser 0 0; MThread 7; MUser 0 0; MUser 0 0]
      ++ replicate 4 (MThread 0) ++ replicate 4 (MUser 0 0)) (started [JDetached]) = Ok s /\
    users s = [v] /\ v = UDone thrd_success (Some 7) /\ blk s = None.
Proof.
  destruct (thread_block_lifetime JDetached
    ([MThread 0; MUser 0 0; MUser 0 0; MThread 0; MUser 0 0; MThread 7; MUser 0 0; MUser 0 0]
      ++ replicate 4 (MThread 0) ++ replicate 4 (MUser 0 0))) as (s & v & E & Hv & HN & _); [by left|].
  exists s, v. vm_compute in E. injection E as <-. cbn in Hv. injection Hv as <-.
  split; [vm_compute; reflexivity|]. split; [reflexivity|]. split; reflexivity.
Defined.

(** ** More than one wait *)

(** A timed join that runs out of time gives the holder's reference away: when
    the thread then exits, the block is freed, and the next join reads freed
    memory.  So does a join that is waiting when a second one arrives after the
    thread has exited, although the block counts the joining threads so that all
    of them can read the exit code. *)
Theorem thread_join_use_after_free :
  (* poll with a timeout, then the thread runs and exits *)
  (exists s, run (replicate 7 (MUser 0 1) ++ replicate 8 (MThread 0)) (started [JDetached; JDetached]) = Ok s /\
     users s = [UDone thrd_timedout None; JDetached] /\ do_move (MUser 1 0) s = Stuck) /\
  (* the first join waits, the thread exits, the second join returns *)
  (exists s, run (replicate 5 (MUser 0 0) ++ replicate 7 (MThread 7) ++ replicate 6 (MUser 1 0) ++ [MUser 0 0])
       (started [JDetached; JDetached]) = Ok s /\
     users s = [JCode; UDone thrd_success (Some 7)] /\ do_move (MUser 0 0) s = Stuck).
Proof. split; eexists; repeat split. Qed.
