(* ===== verification/ThreadInfo.v ===== *)
(** * The table of threads (libc/src/threads/thread_info.c)

    The information blocks of all threads, found by the thread's handle.  The
    table is a hash map, used through the interface of Store.v; the blocks are
    stored in its buckets and handed out by address. *)

From S2P Require Import Prelude Store HashFns Hashmap Mutex Threads.

(** A block with its key. *)
Record tib := Tib { handle : Z; block : uthread }.

Definition zero_block : uthread := Uthread 0 false false false 0 0.

Definition _HashmapThreadHash (t : tib) (seed0 seed1 : Z) : Z :=
  hashmap_sip (le_bytes 8 (handle t)) seed0 seed1.
Definition _HashmapThreadCompare (a b : tib) : Z := cbool (handle a <? handle b).

Section Table.
Context {tops : KVOps tib}.

Record uthread_state_t := ThreadTable { blocksLock : mtx_t; blocks : option kv }.

Definition __libc_thread_init (mok : nat -> bool) : st uthread_state_t () :=
  let '(err, l) := mtx_init mtx_plain in
  match l with
  | Some l => if negb (err =? thrd_success) then sabort else
      m ← slift (kv_new 0 mok); sput (ThreadTable l m)
  | None => sabort
  end.

Context (me : Z).

Definition lock_blocks : st uthread_state_t Z :=
  w ← sget; '(err, l) ← slift (mtx_lock me (blocksLock w)); _ ← sput (ThreadTable l (blocks w)); mret err.
Definition unlock_blocks : st uthread_state_t () :=
  w ← sget; '(_, l) ← slift (mtx_unlock me (blocksLock w)); sput (ThreadTable l (blocks w)).
Definition the_blocks : st uthread_state_t kv := w ← sget; slift (res_of (blocks w)).
Definition set_blocks (m : kv) : st uthread_state_t () := smod (fun w => ThreadTable (blocksLock w) (Some m)).

Definition GetThreadInfoBlock (h : Z) : st uthread_state_t (option tib) :=
  err ← lock_blocks;
  if negb (err =? thrd_success) then mret None
  else
    m ← the_blocks;
    found ← slift (kv_get m (Tib h zero_block));
    _ ← unlock_blocks;
    mret found.

Definition CreateThreadInfoBlock (h : Z) (mok : nat -> bool) : st uthread_state_t (option tib) :=
  err ← lock_blocks;
  if negb (err =? thrd_success) then mret None
  else
    m ← the_blocks;
    '(ret, m) ← slift (kv_set m (Tib h new_block) mok);
    _ ← set_blocks m;
    if bool_decide (is_Some ret) || negb (kv_oom m) then
      _ ← unlock_blocks;
      GetThreadInfoBlock h
    else sabort.

(** The part of [__TIBFree] that touches the table. *)
Definition remove_block (h : Z) (mok : nat -> bool) : st uthread_state_t () :=
  err ← lock_blocks;
  if negb (err =? thrd_success) then mret ()
  else
    m ← the_blocks;
    '(old, m) ← slift (kv_delete m (Tib h zero_block) mok);
    _ ← set_blocks m;
    if bool_decide (is_Some old) then unlock_blocks else sabort.

(** ** The table follows a finite map *)

Context {room : nat} {hmax : Z}.
Definition tib_ok (n : Z) (t : tib) : Prop := 0 <= handle t < n.
Context {tlaws : KVLaws tops handle (tib_ok hmax) room}.

Definition table_rep (w : uthread_state_t) (M : gmap Z tib) : Prop :=
  blocksLock w = Mtx 0 false 0 0 /\ exists m, blocks w = Some m /\ kv_rep m M.

Ltac bx :=
  unfold lock_blocks, unlock_blocks, the_blocks, set_blocks in *;
  unfold mbind, st_bind, mret, st_ret, sget, sput, smod, slift, sabort in *; cbn.

Lemma GetThreadInfoBlock_ok w M h :
  table_rep w M -> 0 <= h < hmax -> GetThreadInfoBlock h w = Ok (M !! h, w).
Proof.
  intros [Hl (m & Hm & Hrep)] Hh. destruct w as [l b]. cbn in *. subst. unfold GetThreadInfoBlock. bx.
  by rewrite (kv_get_law m M (Tib h zero_block) Hrep).
Qed.

(** A new block replaces one of the same handle; it fails, by an assertion, only
    when there is no memory. *)
Lemma CreateThreadInfoBlock_ok w M h :
  table_rep w M -> 0 <= h < hmax -> (size M <= room)%nat ->
  exists w', CreateThreadInfoBlock h all_mallocs w = Ok (Some (Tib h new_block), w') /\
    table_rep w' (<[h := Tib h new_block]> M).
Proof.
  intros [Hl (m & Hm & Hrep)] Hh Hsz. destruct w as [l b]. cbn in *. subst.
  destruct (kv_set_law m M (Tib h new_block) all_mallocs Hrep Hh Hsz) as (oom & m' & Hset & Hrep' & Hoom & Hno).
  rewrite Hno in * by done. cbn [handle] in *. exists (ThreadTable (Mtx 0 false 0 0) (Some m')).
  assert (table_rep (ThreadTable (Mtx 0 false 0 0) (Some m')) (<[h := Tib h new_block]> M)) as Ht
    by (split; [done|]; eauto).
  split; [|done]. unfold CreateThreadInfoBlock. bx. rewrite Hset. bx. rewrite Hoom, orb_true_r. bx.
  etransitivity; [exact (GetThreadInfoBlock_ok _ _ h Ht Hh)|]. by rewrite lookup_insert_eq.
Qed.

Lemma remove_block_ok w M h t mok :
  table_rep w M -> 0 <= h < hmax -> M !! h = Some t ->
  exists w', remove_block h mok w = Ok ((), w') /\ table_rep w' (delete h M).
Proof.
  intros [Hl (m & Hm & Hrep)] Hh Ht. destruct w as [l b]. cbn in *. subst.
  destruct (kv_delete_law m M (Tib h zero_block) mok Hrep Hh) as (m' & Hdel & Hrep').
  cbn [handle] in *. eexists. unfold remove_block. bx. rewrite Hdel. bx. rewrite Ht. bx.
  split; [reflexivity|]. split; [done|]. eauto.
Qed.
End Table.

(** ** Addresses into the table *)

Definition thread_hashmap : KVOps tib :=
  hashmap_ops (Tib 0 zero_block) _HashmapThreadHash _HashmapThreadCompare 88 0 0.

(** The table after threads with the handles [1 .. n] were created. *)
Definition table_of (n : nat) : res (hashmap tib) :=
  m ← hashmap_new (Tib 0 zero_block) 88 0 0 0 all_mallocs;
  m ← res_of m;
  '(_, m) ← kv_run (ops := thread_hashmap) m (map (fun i => KSet (Tib (Z.of_nat i) new_block)) (seq 1 n));
  Ok m.

(** The ninth thread makes the table grow: its buckets, in which the blocks
    of the eight others live, are replaced and freed, while the program still
    holds their addresses. *)
Theorem thread_blocks_move :
  exists m8 m9, table_of 8 = Ok m8 /\ table_of 9 = Ok m9 /\
    h_nbuckets m8 = 16 /\ h_nbuckets m9 = 32.
Proof.
  assert ((m ← table_of 8; Ok (h_nbuckets m)) = Ok 16) as H1 by (vm_compute; reflexivity).
  assert ((m ← table_of 9; Ok (h_nbuckets m)) = Ok 32) as H2 by (vm_compute; reflexivity).
  destruct (table_of 8) as [m8| |], (table_of 9) as [m9| |]; try discriminate.
  injection H1 as H1. injection H2 as H2. exists m8, m9. split_and!; done.
Qed.
