(* ===== verification/Aes.v ===== *)
(** * The block cipher of the kernel's random generator (kernel/src/crypto/aes.c)

    AES with a 256-bit key, as configured by aes.h.  A block is the list of its
    16 bytes; the C code views it as [state[i][j]] with [buf[4 * i + j]], so
    [i] is the column and [j] the row.  The inverse cipher and the CBC mode are
    in the source but switched off by aes.h; the counter mode is used. *)

From Stdlib Require Import Btauto.
From S2P Require Import Prelude.
Local Open Scope mach_scope.

Definition Nb : Z := 4.
Definition Nk : Z := 8.
Definition Nr : nat := 14.
Definition AES_BLOCKLEN : Z := 16.

Definition sbox : list Z :=
  [0x63; 0x7c; 0x77; 0x7b; 0xf2; 0x6b; 0x6f; 0xc5; 0x30; 0x01; 0x67; 0x2b; 0xfe; 0xd7; 0xab; 0x76;
   0xca; 0x82; 0xc9; 0x7d; 0xfa; 0x59; 0x47; 0xf0; 0xad; 0xd4; 0xa2; 0xaf; 0x9c; 0xa4; 0x72; 0xc0;
   0xb7; 0xfd; 0x93; 0x26; 0x36; 0x3f; 0xf7; 0xcc; 0x34; 0xa5; 0xe5; 0xf1; 0x71; 0xd8; 0x31; 0x15;
   0x04; 0xc7; 0x23; 0xc3; 0x18; 0x96; 0x05; 0x9a; 0x07; 0x12; 0x80; 0xe2; 0xeb; 0x27; 0xb2; 0x75;
   0x09; 0x83; 0x2c; 0x1a; 0x1b; 0x6e; 0x5a; 0xa0; 0x52; 0x3b; 0xd6; 0xb3; 0x29; 0xe3; 0x2f; 0x84;
   0x53; 0xd1; 0x00; 0xed; 0x20; 0xfc; 0xb1; 0x5b; 0x6a; 0xcb; 0xbe; 0x39; 0x4a; 0x4c; 0x58; 0xcf;
   0xd0; 0xef; 0xaa; 0xfb; 0x43; 0x4d; 0x33; 0x85; 0x45; 0xf9; 0x02; 0x7f; 0x50; 0x3c; 0x9f; 0xa8;
   0x51; 0xa3; 0x40; 0x8f; 0x92; 0x9d; 0x38; 0xf5; 0xbc; 0xb6; 0xda; 0x21; 0x10; 0xff; 0xf3; 0xd2;
   0xcd; 0x0c; 0x13; 0xec; 0x5f; 0x97; 0x44; 0x17; 0xc4; 0xa7; 0x7e; 0x3d; 0x64; 0x5d; 0x19; 0x73;
   0x60; 0x81; 0x4f; 0xdc; 0x22; 0x2a; 0x90; 0x88; 0x46; 0xee; 0xb8; 0x14; 0xde; 0x5e; 0x0b; 0xdb;
   0xe0; 0x32; 0x3a; 0x0a; 0x49; 0x06; 0x24; 0x5c; 0xc2; 0xd3; 0xac; 0x62; 0x91; 0x95; 0xe4; 0x79;
   0xe7; 0xc8; 0x37; 0x6d; 0x8d; 0xd5; 0x4e; 0xa9; 0x6c; 0x56; 0xf4; 0xea; 0x65; 0x7a; 0xae; 0x08;
   0xba; 0x78; 0x25; 0x2e; 0x1c; 0xa6; 0xb4; 0xc6; 0xe8; 0xdd; 0x74; 0x1f; 0x4b; 0xbd; 0x8b; 0x8a;
   0x70; 0x3e; 0xb5; 0x66; 0x48; 0x03; 0xf6; 0x0e; 0x61; 0x35; 0x57; 0xb9; 0x86; 0xc1; 0x1d; 0x9e;
   0xe1; 0xf8; 0x98; 0x11; 0x69; 0xd9; 0x8e; 0x94; 0x9b; 0x1e; 0x87; 0xe9; 0xce; 0x55; 0x28; 0xdf;
   0x8c; 0xa1; 0x89; 0x0d; 0xbf; 0xe6; 0x42; 0x68; 0x41; 0x99; 0x2d; 0x0f; 0xb0; 0x54; 0xbb; 0x16].

Definition rsbox : list Z :=
  [0x52; 0x09; 0x6a; 0xd5; 0x30; 0x36; 0xa5; 0x38; 0xbf; 0x40; 0xa3; 0x9e; 0x81; 0xf3; 0xd7; 0xfb;
   0x7c; 0xe3; 0x39; 0x82; 0x9b; 0x2f; 0xff; 0x87; 0x34; 0x8e; 0x43; 0x44; 0xc4; 0xde; 0xe9; 0xcb;
   0x54; 0x7b; 0x94; 0x32; 0xa6; 0xc2; 0x23; 0x3d; 0xee; 0x4c; 0x95; 0x0b; 0x42; 0xfa; 0xc3; 0x4e;
   0x08; 0x2e; 0xa1; 0x66; 0x28; 0xd9; 0x24; 0xb2; 0x76; 0x5b; 0xa2; 0x49; 0x6d; 0x8b; 0xd1; 0x25;
   0x72; 0xf8; 0xf6; 0x64; 0x86; 0x68; 0x98; 0x16; 0xd4; 0xa4; 0x5c; 0xcc; 0x5d; 0x65; 0xb6; 0x92;
   0x6c; 0x70; 0x48; 0x50; 0xfd; 0xed; 0xb9; 0xda; 0x5e; 0x15; 0x46; 0x57; 0xa7; 0x8d; 0x9d; 0x84;
   0x90; 0xd8; 0xab; 0x00; 0x8c; 0xbc; 0xd3; 0x0a; 0xf7; 0xe4; 0x58; 0x05; 0xb8; 0xb3; 0x45; 0x06;
   0xd0; 0x2c; 0x1e; 0x8f; 0xca; 0x3f; 0x0f; 0x02; 0xc1; 0xaf; 0xbd; 0x03; 0x01; 0x13; 0x8a; 0x6b;
   0x3a; 0x91; 0x11; 0x41; 0x4f; 0x67; 0xdc; 0xea; 0x97; 0xf2; 0xcf; 0xce; 0xf0; 0xb4; 0xe6; 0x73;
   0x96; 0xac; 0x74; 0x22; 0xe7; 0xad; 0x35; 0x85; 0xe2; 0xf9; 0x37; 0xe8; 0x1c; 0x75; 0xdf; 0x6e;
   0x47; 0xf1; 0x1a; 0x71; 0x1d; 0x29; 0xc5; 0x89; 0x6f; 0xb7; 0x62; 0x0e; 0xaa; 0x18; 0xbe; 0x1b;
   0xfc; 0x56; 0x3e; 0x4b; 0xc6; 0xd2; 0x79; 0x20; 0x9a; 0xdb; 0xc0; 0xfe; 0x78; 0xcd; 0x5a; 0xf4;
   0x1f; 0xdd; 0xa8; 0x33; 0x88; 0x07; 0xc7; 0x31; 0xb1; 0x12; 0x10; 0x59; 0x27; 0x80; 0xec; 0x5f;
   0x60; 0x51; 0x7f; 0xa9; 0x19; 0xb5; 0x4a; 0x0d; 0x2d; 0xe5; 0x7a; 0x9f; 0x93; 0xc9; 0x9c; 0xef;
   0xa0; 0xe0; 0x3b; 0x4d; 0xae; 0x2a; 0xf5; 0xb0; 0xc8; 0xeb; 0xbb; 0x3c; 0x83; 0x53; 0x99; 0x61;
   0x17; 0x2b; 0x04; 0x7e; 0xba; 0x77; 0xd6; 0x26; 0xe1; 0x69; 0x14; 0x63; 0x55; 0x21; 0x0c; 0x7d].

Definition Rcon : list Z :=
  [0x8d; 0x01; 0x02; 0x04; 0x08; 0x10; 0x20; 0x40; 0x80; 0x1b; 0x36].

Definition getSBoxValue (num : Z) : Z := sbox !!! Z.to_nat num.
Definition getSBoxInvert (num : Z) : Z := rsbox !!! Z.to_nat num.

(** ** Key schedule *)

(** The word at index [i] of the round keys. *)
Definition rk_word (rk : list Z) (i : Z) : list Z :=
  [rk !!! Z.to_nat (4 * i); rk !!! Z.to_nat (4 * i + 1); rk !!! Z.to_nat (4 * i + 2); rk !!! Z.to_nat (4 * i + 3)].

Definition RotWord (t : list Z) : list Z :=
  match t with [a; b; c; d] => [b; c; d; a] | _ => t end.
Definition SubWord (t : list Z) : list Z := map getSBoxValue t.
Definition xor_bytes (a b : list Z) : list Z := zip_with Z.lxor a b.

(** One turn of the second loop: word [i] from words [i - 1] and [i - Nk]; the
    keys so far are a list that grows by a word. *)
Definition key_step (i : Z) (rk : list Z) : list Z :=
  let tempa := rk_word rk (i - 1) in
  let tempa :=
    if i mod Nk =? 0 then
      match SubWord (RotWord tempa) with
      | a :: t => a .^ (Rcon !!! Z.to_nat (i / Nk)) :: t
      | [] => []
      end
    else tempa in
  let tempa := if i mod Nk =? 4 then SubWord tempa else tempa in
  rk ++ xor_bytes (rk_word rk (i - Nk)) tempa.

Fixpoint key_loop (n : nat) (i : Z) (rk : list Z) : list Z :=
  match n with
  | O => rk
  | S n => key_loop n (i + 1) (key_step i rk)
  end.

Definition KeyExpansion (key : list Z) : list Z :=
  key_loop (Z.to_nat (Nb * (Z.of_nat Nr + 1) - Nk)) Nk (take (Z.to_nat (4 * Nk)) key).

(** ** Rounds *)

Definition AddRoundKey (round : nat) (state rk : list Z) : list Z :=
  xor_bytes state (take 16 (drop (16 * round) rk)).

Definition SubBytes (state : list Z) : list Z := map getSBoxValue state.
Definition InvSubBytes (state : list Z) : list Z := map getSBoxInvert state.

(** The rows are rotated by their number: row [j] is made of the bytes at
    [4 * i + j]. *)
Definition ShiftRows (state : list Z) : list Z :=
  match state with
  | [a0; a1; a2; a3; b0; b1; b2; b3; c0; c1; c2; c3; d0; d1; d2; d3] =>
      [a0; b1; c2; d3; b0; c1; d2; a3; c0; d1; a2; b3; d0; a1; b2; c3]
  | _ => state
  end.
Definition InvShiftRows (state : list Z) : list Z :=
  match state with
  | [a0; a1; a2; a3; b0; b1; b2; b3; c0; c1; c2; c3; d0; d1; d2; d3] =>
      [a0; d1; c2; b3; b0; a1; d2; c3; c0; b1; a2; d3; d0; c1; b2; a3]
  | _ => state
  end.

Definition xtime (x : Z) : Z := u8 ((x << 1) .^ ((x >> 7) .& 1) * 0x1b).

(** One column of [MixColumns]; each byte is updated from the ones updated
    before it only through [t] and [Tmp]. *)
Definition mix_column (s0 s1 s2 s3 : Z) : list Z :=
  let t := s0 in
  let Tmp := s0 .^ s1 .^ s2 .^ s3 in
  let Tm := xtime (s0 .^ s1) in let r0 := s0 .^ (Tm .^ Tmp) in
  let Tm := xtime (s1 .^ s2) in let r1 := s1 .^ (Tm .^ Tmp) in
  let Tm := xtime (s2 .^ s3) in let r2 := s2 .^ (Tm .^ Tmp) in
  let Tm := xtime (s3 .^ t) in let r3 := s3 .^ (Tm .^ Tmp) in
  [r0; r1; r2; r3].

Definition Multiply (x y : Z) : Z :=
  u8 (((y .& 1) * x) .^ (((y >> 1) .& 1) * xtime x) .^ (((y >> 2) .& 1) * xtime (xtime x))
      .^ (((y >> 3) .& 1) * xtime (xtime (xtime x)))
      .^ (((y >> 4) .& 1) * xtime (xtime (xtime (xtime x))))).

Definition inv_mix_column (a b c d : Z) : list Z :=
  [Multiply a 0x0e .^ Multiply b 0x0b .^ Multiply c 0x0d .^ Multiply d 0x09;
   Multiply a 0x09 .^ Multiply b 0x0e .^ Multiply c 0x0b .^ Multiply d 0x0d;
   Multiply a 0x0d .^ Multiply b 0x09 .^ Multiply c 0x0e .^ Multiply d 0x0b;
   Multiply a 0x0b .^ Multiply b 0x0d .^ Multiply c 0x09 .^ Multiply d 0x0e].

(** The loop over the columns. *)
Fixpoint columns (f : Z -> Z -> Z -> Z -> list Z) (state : list Z) : list Z :=
  match state with
  | a :: b :: c :: d :: rest => f a b c d ++ columns f rest
  | _ => state
  end.
Definition MixColumns (state : list Z) : list Z := columns mix_column state.
Definition InvMixColumns (state : list Z) : list Z := columns inv_mix_column state.

(** Rounds [round .. Nr - 1] with [MixColumns], then the last one. *)
Fixpoint cipher_rounds (n round : nat) (state rk : list Z) : list Z :=
  let state := ShiftRows (SubBytes state) in
  match n with
  | O => state
  | S n => cipher_rounds n (S round) (AddRoundKey round (MixColumns state) rk) rk
  end.
Definition Cipher (state rk : list Z) : list Z :=
  let state := AddRoundKey 0 state rk in
  let state := cipher_rounds (Nr - 1) 1 state rk in
  AddRoundKey Nr state rk.

Fixpoint inv_rounds (round : nat) (state rk : list Z) : list Z :=
  let state := AddRoundKey round (InvSubBytes (InvShiftRows state)) rk in
  match round with
  | O => state
  | S round => inv_rounds round (InvMixColumns state) rk
  end.
Definition InvCipher (state rk : list Z) : list Z :=
  inv_rounds (Nr - 1) (AddRoundKey Nr state rk) rk.

(** ** Modes *)

Record AES_ctx := Ctx { RoundKey : list Z; Iv : list Z }.

Definition AES_init_ctx (ctx : AES_ctx) (key : list Z) : AES_ctx := Ctx (KeyExpansion key) (Iv ctx).
Definition AES_ctx_set_iv (ctx : AES_ctx) (iv : list Z) : AES_ctx := Ctx (RoundKey ctx) (take 16 iv).
Definition AES_init_ctx_iv (key iv : list Z) : AES_ctx := Ctx (KeyExpansion key) (take 16 iv).

Definition AES_ECB_encrypt (ctx : AES_ctx) (buf : list Z) : list Z := Cipher buf (RoundKey ctx).
Definition AES_ECB_decrypt (ctx : AES_ctx) (buf : list Z) : list Z := InvCipher buf (RoundKey ctx).

Definition XorWithIv (buf iv : list Z) : list Z := xor_bytes buf iv.

(** [length] is a multiple of the block length; [n] counts the blocks. *)
Fixpoint cbc_encrypt (n : nat) (rk iv buf : list Z) : list Z * list Z :=
  match n with
  | O => ([], iv)
  | S n =>
      let block := Cipher (XorWithIv (take 16 buf) iv) rk in
      let '(out, iv) := cbc_encrypt n rk block (drop 16 buf) in
      (block ++ out, iv)
  end.
Definition AES_CBC_encrypt_buffer (ctx : AES_ctx) (buf : list Z) : AES_ctx * list Z :=
  let '(out, iv) := cbc_encrypt (length buf / 16) (RoundKey ctx) (Iv ctx) buf in
  (Ctx (RoundKey ctx) iv, out).

Fixpoint cbc_decrypt (n : nat) (rk iv buf : list Z) : list Z * list Z :=
  match n with
  | O => ([], iv)
  | S n =>
      let storeNextIv := take 16 buf in
      let block := XorWithIv (InvCipher (take 16 buf) rk) iv in
      let '(out, iv) := cbc_decrypt n rk storeNextIv (drop 16 buf) in
      (block ++ out, iv)
  end.
Definition AES_CBC_decrypt_buffer (ctx : AES_ctx) (buf : list Z) : AES_ctx * list Z :=
  let '(out, iv) := cbc_decrypt (length buf / 16) (RoundKey ctx) (Iv ctx) buf in
  (Ctx (RoundKey ctx) iv, out).

(** Adding one to the counter, from the last byte; a byte of 255 carries. *)
Fixpoint inc_from_last (l : list Z) : list Z :=
  match l with
  | [] => []
  | b :: l => if b =? 255 then 0 :: inc_from_last l else u8 (b + 1) :: l
  end.
Definition iv_increment (iv : list Z) : list Z := rev (inc_from_last (rev iv)).

Fixpoint ctr_loop (rk buf : list Z) (bi : Z) (buffer iv : list Z) : list Z * list Z :=
  match buf with
  | [] => ([], iv)
  | x :: buf =>
      let '(buffer, iv, bi) :=
        if bi =? AES_BLOCKLEN then (Cipher iv rk, iv_increment iv, 0) else (buffer, iv, bi) in
      let '(out, iv) := ctr_loop rk buf (bi + 1) buffer iv in
      (x .^ (buffer !!! Z.to_nat bi) :: out, iv)
  end.
Definition AES_CTR_xcrypt_buffer (ctx : AES_ctx) (buf : list Z) : AES_ctx * list Z :=
  let '(out, iv) := ctr_loop (RoundKey ctx) buf AES_BLOCKLEN [] (Iv ctx) in
  (Ctx (RoundKey ctx) iv, out).

(** The example vector of FIPS-197 for a 256-bit key. *)
Example aes256_fips_vector :
  AES_ECB_encrypt (AES_init_ctx (Ctx [] []) (seqZ 0 32)) (map (fun i => 17 * i) (seqZ 0 16))
  = [0x8e; 0xa2; 0xb7; 0xca; 0x51; 0x67; 0x45; 0xbf; 0xea; 0xfc; 0x49; 0x90; 0x4b; 0x49; 0x60; 0x89].
Proof. vm_compute. reflexivity. Qed.

(** ** Each step has an inverse *)

Definition is_byte (b : Z) : Prop := is_u 8 b.
Definition block (l : list Z) : Prop := length l = 16%nat /\ Forall is_byte l.

(** A fact about bytes is checked on all of them. *)
Lemma byte_cases (P : Z -> bool) : forallb P (seqZ 0 256) = true -> forall b, is_byte b -> P b = true.
Proof.
  intros H b Hb. rewrite forallb_forall in H. apply H, list_elem_of_In, elem_of_seqZ.
  unfold is_byte, is_u in Hb. change (2 ^ 8) with 256 in Hb. lia.
Qed.

Lemma rsbox_sbox b : is_byte b -> getSBoxInvert (getSBoxValue b) = b /\ is_byte (getSBoxValue b).
Proof.
  intros Hb. assert (((getSBoxInvert (getSBoxValue b) =? b) && (0 <=? getSBoxValue b) && (getSBoxValue b <? 256)) = true)
    as H by (revert b Hb; apply byte_cases; vm_compute; reflexivity).
  split; [lia|]. unfold is_byte, is_u. change (2 ^ 8) with 256. lia.
Qed.

Lemma lxor_byte a b : is_byte a -> is_byte b -> is_byte (a .^ b).
Proof. intros. by apply is_u_lxor. Qed.

Lemma xtime_byte x : is_byte (xtime x).
Proof. apply wrap_range. lia. Qed.

(** Multiplication by [x] is linear. *)
Lemma xtime_alt x : is_byte x -> xtime x = u8 (x << 1) .^ (if Z.testbit x 7 then 0x1b else 0).
Proof.
  intros Hx. unfold xtime, u8. replace ((x >> 7) .& 1) with (Z.b2z (Z.testbit x 7)).
  - destruct (Z.testbit x 7); cbn [Z.b2z]; rewrite ?Z.mul_1_l, ?Z.mul_0_l, ?Z.lxor_0_r; [|done].
    rewrite <- (wrap_small 8 0x1b) at 2 by mlia. bitblast.
  - transitivity ((x >> 7) mod 2); [rewrite <- Z.bit0_mod, Z.shiftr_spec by lia; done|].
    symmetry. apply (Z.land_ones (x >> 7) 1). lia.
Qed.

(** Equations between exclusive ors, up to order and cancellation. *)
Ltac xor_solve := apply Z.bits_inj'; intros ?i _; rewrite ?Z.lxor_spec; btauto.

Lemma lxor_swap a b c d : (a .^ b) .^ (c .^ d) = (a .^ c) .^ (b .^ d).
Proof. xor_solve. Qed.

Lemma xtime_lxor x y : is_byte x -> is_byte y -> xtime (x .^ y) = xtime x .^ xtime y.
Proof.
  intros Hx Hy. rewrite !xtime_alt by auto using lxor_byte. rewrite lxor_swap. f_equal.
  - unfold u8. bitblast.
  - rewrite Z.lxor_spec. by destruct (Z.testbit x 7), (Z.testbit y 7).
Qed.

(** XOR of columns, byte by byte. *)
Definition lxor_col (p q : list Z) : list Z := zip_with Z.lxor p q.

Lemma mul_byte_lxor k x y : k = 0 \/ k = 1 -> (k * (x .^ y)) = (k * x) .^ (k * y).
Proof. intros [->| ->]; by rewrite ?Z.mul_0_l, ?Z.mul_1_l. Qed.

Lemma land1 y : y .& 1 = 0 \/ y .& 1 = 1.
Proof.
  assert (y .& 1 = y mod 2) as -> by (apply (Z.land_ones y 1); lia).
  pose proof (Z.mod_pos_bound y 2). lia.
Qed.

Lemma u8_lxor x y : u8 (x .^ y) = u8 x .^ u8 y.
Proof. unfold u8. bitblast. Qed.

Lemma Multiply_byte x y : is_byte (Multiply x y).
Proof. apply wrap_range. lia. Qed.

Lemma Multiply_lxor x x' y : is_byte x -> is_byte x' -> Multiply (x .^ x') y = Multiply x y .^ Multiply x' y.
Proof.
  intros Hx Hx'. unfold Multiply. rewrite <- u8_lxor. f_equal.
  rewrite !xtime_lxor by auto using xtime_byte, lxor_byte.
  rewrite !mul_byte_lxor by apply land1. xor_solve.
Qed.

(** Both column maps are linear. *)
Lemma mix_column_linear a b c d a' b' c' d' :
  Forall is_byte [a; b; c; d] -> Forall is_byte [a'; b'; c'; d'] ->
  mix_column (a .^ a') (b .^ b') (c .^ c') (d .^ d') = lxor_col (mix_column a b c d) (mix_column a' b' c' d').
Proof.
  rewrite !Forall_cons. intros (? & ? & ? & ? & _) (? & ? & ? & ? & _).
  unfold mix_column, lxor_col. cbn [zip_with].
  rewrite !xtime_lxor by auto using lxor_byte. by repeat (apply (f_equal2 cons); [xor_solve|]).
Qed.

Lemma inv_mix_column_linear a b c d a' b' c' d' :
  Forall is_byte [a; b; c; d] -> Forall is_byte [a'; b'; c'; d'] ->
  inv_mix_column (a .^ a') (b .^ b') (c .^ c') (d .^ d')
  = lxor_col (inv_mix_column a b c d) (inv_mix_column a' b' c' d').
Proof.
  rewrite !Forall_cons. intros (? & ? & ? & ? & _) (? & ? & ? & ? & _).
  unfold inv_mix_column, lxor_col. cbn [zip_with]. rewrite !Multiply_lxor by done.
  by repeat (apply (f_equal2 cons); [xor_solve|]).
Qed.

Definition mix_then_inv (a b c d : Z) : list Z :=
  match mix_column a b c d with
  | [a; b; c; d] => inv_mix_column a b c d
  | _ => []
  end.

(** The composition of the two maps on a column with one non-zero byte. *)
Lemma round_trip_basis b : is_byte b ->
  mix_then_inv b 0 0 0 = [b; 0; 0; 0] /\ mix_then_inv 0 b 0 0 = [0; b; 0; 0] /\
  mix_then_inv 0 0 b 0 = [0; 0; b; 0] /\ mix_then_inv 0 0 0 b = [0; 0; 0; b].
Proof.
  intros Hb. split_and!; (eapply bool_decide_eq_true; revert b Hb; apply byte_cases; vm_compute; reflexivity).
Qed.

Lemma mix_column_bytes a b c d : Forall is_byte [a; b; c; d] -> Forall is_byte (mix_column a b c d).
Proof.
  rewrite !Forall_cons. intros (? & ? & ? & ? & _). unfold mix_column.
  repeat constructor; repeat apply lxor_byte; auto using xtime_byte.
Qed.

Lemma mix_then_inv_linear a b c d a' b' c' d' :
  Forall is_byte [a; b; c; d] -> Forall is_byte [a'; b'; c'; d'] ->
  mix_then_inv (a .^ a') (b .^ b') (c .^ c') (d .^ d')
  = lxor_col (mix_then_inv a b c d) (mix_then_inv a' b' c' d').
Proof.
  intros H H'. unfold mix_then_inv. rewrite mix_column_linear by done.
  pose proof (mix_column_bytes _ _ _ _ H) as B. pose proof (mix_column_bytes _ _ _ _ H') as B'.
  unfold mix_column, lxor_col in *. cbn [zip_with]. by apply inv_mix_column_linear.
Qed.

Lemma inv_mix_column_mix a b c d :
  Forall is_byte [a; b; c; d] -> mix_then_inv a b c d = [a; b; c; d].
Proof.
  intros H. rewrite !Forall_cons in H. destruct H as (Ha & Hb & Hc & Hd & _).
  assert (is_byte 0) as H0 by (unfold is_byte; mlia).
  pose proof (proj1 (round_trip_basis a Ha)) as K0.
  pose proof (proj1 (proj2 (round_trip_basis b Hb))) as K1.
  pose proof (proj1 (proj2 (proj2 (round_trip_basis c Hc)))) as K2.
  pose proof (proj2 (proj2 (proj2 (round_trip_basis d Hd)))) as K3.
  pose proof (mix_then_inv_linear a 0 0 0 0 b 0 0 ltac:(auto) ltac:(auto)) as L1.
  pose proof (mix_then_inv_linear 0 0 c 0 0 0 0 d ltac:(auto) ltac:(auto)) as L2.
  rewrite K0, K1 in L1. rewrite K2, K3 in L2. rewrite !Z.lxor_0_l, !Z.lxor_0_r in *.
  pose proof (mix_then_inv_linear a b 0 0 0 0 c d ltac:(auto) ltac:(auto)) as L3.
  rewrite L1, L2 in L3. unfold lxor_col in L3. cbn [zip_with] in L3. rewrite !Z.lxor_0_l, !Z.lxor_0_r in L3. done.
Qed.

Lemma block_16 (P : list Z -> Prop) :
  (forall a0 a1 a2 a3 b0 b1 b2 b3 c0 c1 c2 c3 d0 d1 d2 d3,
     P [a0; a1; a2; a3; b0; b1; b2; b3; c0; c1; c2; c3; d0; d1; d2; d3]) ->
  forall s, length s = 16%nat -> P s.
Proof.
  intros H s Hs. do 16 (destruct s as [|? s]; [discriminate Hs|]). destruct s; [apply H|discriminate Hs].
Qed.

Lemma xor_bytes_involutive s k : length s = length k -> xor_bytes (xor_bytes s k) k = s.
Proof.
  revert k. induction s as [|a s IH]; intros [|b k] H; try done. cbn in *. rewrite IH by lia. f_equal.
  xor_solve.
Qed.

Lemma xor_bytes_block s k : block s -> block k -> block (xor_bytes s k).
Proof.
  intros [H1 H2] [K1 K2]. split; [unfold xor_bytes; rewrite length_zip_with; lia|].
  clear H1 K1. revert k K2. induction H2 as [|a s Ha Hs IH]; intros [|b k] K2; cbn; try constructor;
    inversion K2; subst; auto using lxor_byte.
Qed.

(** The round keys: fifteen blocks. *)
Definition round_keys (rk : list Z) : Prop := length rk = 240%nat /\ Forall is_byte rk.

Lemma round_key_block rk r : round_keys rk -> (r <= 14)%nat -> block (take 16 (drop (16 * r) rk)).
Proof.
  intros [H1 H2] Hr. split; [rewrite length_take, length_drop; lia|]. by apply Forall_take, Forall_drop.
Qed.

Lemma AddRoundKey_block r s rk : round_keys rk -> (r <= 14)%nat -> block s -> block (AddRoundKey r s rk).
Proof. intros. apply xor_bytes_block; [done|]. by apply round_key_block. Qed.

Lemma AddRoundKey_twice r s rk :
  round_keys rk -> (r <= 14)%nat -> block s -> AddRoundKey r (AddRoundKey r s rk) rk = s.
Proof.
  intros Hk Hr [Hs _]. apply xor_bytes_involutive. rewrite Hs. symmetry. by apply round_key_block.
Qed.

Lemma SubBytes_block s : block s -> block (SubBytes s).
Proof.
  intros [H1 H2]. split; [unfold SubBytes; by rewrite length_map|].
  unfold SubBytes. apply Forall_fmap. eapply Forall_impl; [exact H2|]. intros b Hb. by apply rsbox_sbox.
Qed.
Lemma InvSubBytes_SubBytes s : Forall is_byte s -> InvSubBytes (SubBytes s) = s.
Proof.
  induction 1 as [|b s Hb Hs IH]; [done|]. cbn. f_equal; [by apply rsbox_sbox|exact IH].
Qed.
Lemma ShiftRows_block s : block s -> block (ShiftRows s).
Proof.
  intros [H1 H2]. revert H2. apply (block_16 (fun s => Forall is_byte s -> block (ShiftRows s))); [|done].
  intros. rewrite !Forall_cons in *. split; [done|]. cbn. rewrite !Forall_cons. tauto.
Qed.
Lemma InvShiftRows_ShiftRows s : length s = 16%nat -> InvShiftRows (ShiftRows s) = s.
Proof. by apply (block_16 (fun s => InvShiftRows (ShiftRows s) = s)). Qed.

Lemma MixColumns_block s : block s -> block (MixColumns s).
Proof.
  intros [H1 H2]. revert H2. apply (block_16 (fun s => Forall is_byte s -> block (MixColumns s))); [|done].
  intros ? ? ? ? ? ? ? ? ? ? ? ? ? ? ? ? H. unfold MixColumns, block. cbn [columns]. split; [done|].
  rewrite !Forall_app, !Forall_cons in *. split_and!; try apply mix_column_bytes; rewrite ?Forall_cons; tauto.
Qed.
Lemma InvMixColumns_MixColumns s : block s -> InvMixColumns (MixColumns s) = s.
Proof.
  intros [H1 H2]. revert H2. apply (block_16 (fun s => Forall is_byte s -> InvMixColumns (MixColumns s) = s)); [|done].
  intros a0 a1 a2 a3 b0 b1 b2 b3 c0 c1 c2 c3 d0 d1 d2 d3 H. rewrite !Forall_cons in H.
  assert (forall a b c d rest, is_byte a /\ is_byte b /\ is_byte c /\ is_byte d ->
    columns inv_mix_column (mix_column a b c d ++ rest) = [a; b; c; d] ++ columns inv_mix_column rest) as Hcol.
  { intros a b c d rest Hb.
    rewrite <- (inv_mix_column_mix a b c d) by (rewrite !Forall_cons; tauto). reflexivity. }
  unfold InvMixColumns, MixColumns. cbn [columns].
  rewrite Hcol by tauto. rewrite Hcol by tauto. rewrite Hcol by tauto. rewrite Hcol by tauto. done.
Qed.

Lemma cipher_rounds_inv n : forall round s rk,
  round_keys rk -> block s -> (round + n = Nr)%nat -> (1 <= round)%nat ->
  inv_rounds (Nr - 1) (cipher_rounds n round s rk) rk = inv_rounds (round - 1) (ShiftRows (SubBytes s)) rk.
Proof.
  induction n as [|n IH]; intros round s rk Hk Hs Hn Hr; cbn [cipher_rounds].
  - do 2 f_equal. lia.
  - unfold Nr in Hn. pose proof (ShiftRows_block _ (SubBytes_block _ Hs)) as H1.
    pose proof (MixColumns_block _ H1) as H2.
    pose proof (AddRoundKey_block round _ rk Hk ltac:(lia) H2) as H3.
    rewrite IH by (done || unfold Nr; lia). destruct round as [|r]; [lia|].
    replace (S (S r) - 1)%nat with (S r) by lia. replace (S r - 1)%nat with r by lia. cbn [inv_rounds].
    rewrite InvShiftRows_ShiftRows by apply SubBytes_block, H3. rewrite InvSubBytes_SubBytes by apply H3.
    rewrite AddRoundKey_twice by (done || lia). by rewrite InvMixColumns_MixColumns.
Qed.

Lemma cipher_rounds_block rk n : forall r s,
  round_keys rk -> block s -> (r + n <= 14)%nat -> block (cipher_rounds n r s rk).
Proof.
  induction n as [|n IH]; intros r t Hk Ht Hr; cbn [cipher_rounds].
  - by apply ShiftRows_block, SubBytes_block.
  - apply IH; [done| |lia]. apply AddRoundKey_block; [done|lia|].
    by apply MixColumns_block, ShiftRows_block, SubBytes_block.
Qed.

Lemma InvCipher_Cipher s rk : round_keys rk -> block s -> InvCipher (Cipher s rk) rk = s.
Proof.
  intros Hk Hs. unfold InvCipher, Cipher. pose proof (AddRoundKey_block 0 s rk Hk ltac:(lia) Hs) as H0.
  rewrite AddRoundKey_twice; [|done|unfold Nr; lia|apply cipher_rounds_block; [done|done|unfold Nr; lia]].
  rewrite cipher_rounds_inv by (done || unfold Nr; lia). cbn [Nat.sub inv_rounds].
  rewrite InvShiftRows_ShiftRows by apply SubBytes_block, H0. rewrite InvSubBytes_SubBytes by apply H0.
  by rewrite AddRoundKey_twice by (done || lia).
Qed.

Lemma lookup_byte l i : Forall is_byte l -> is_byte (l !!! i).
Proof.
  intros H. destruct (l !! i) as [x|] eqn:E.
  - rewrite (list_lookup_total_correct _ _ _ E). by apply (Forall_lookup_1 _ _ _ _ H E).
  - rewrite list_lookup_total_alt, E. unfold is_byte. cbn. mlia.
Qed.

Lemma zip_bytes a b : Forall is_byte a -> Forall is_byte b -> Forall is_byte (xor_bytes a b).
Proof.
  intros H. revert b. induction H as [|x a Hx Ha IH]; intros [|y b] K; cbn; try constructor;
    inversion K; subst; auto using lxor_byte.
Qed.

Lemma sbox_bytes t : Forall is_byte t -> Forall is_byte (SubWord t).
Proof. intros H. apply Forall_fmap. eapply Forall_impl; [exact H|]. intros b Hb. by apply rsbox_sbox. Qed.

Lemma key_step_ok i rk :
  Forall is_byte rk -> Forall is_byte (key_step i rk) /\ length (key_step i rk) = (length rk + 4)%nat.
Proof.
  intros H. unfold key_step.
  assert (forall j, Forall is_byte (rk_word rk j)) as Hw by (intros; repeat constructor; by apply lookup_byte).
  set (t1 := if i mod Nk =? 0 then _ else _). set (t2 := if i mod Nk =? 4 then _ else _).
  assert (Forall is_byte t1 /\ length t1 = 4%nat) as [B1 L1].
  { subst t1. destruct (i mod Nk =? 0); [|split; [apply Hw|done]].
    specialize (Hw (i - 1)). unfold rk_word, RotWord in *. rewrite !Forall_cons in Hw.
    assert (Forall is_byte Rcon) as HR by (repeat constructor; unfold is_byte; mlia).
    cbn [SubWord map length]. split; [|done]. rewrite !Forall_cons.
    split_and!; [|apply rsbox_sbox; tauto|apply rsbox_sbox; tauto|apply rsbox_sbox; tauto|by constructor].
    apply lxor_byte; [apply rsbox_sbox; tauto|by apply lookup_byte]. }
  assert (Forall is_byte t2 /\ length t2 = 4%nat) as [B2 L2].
  { subst t2. destruct (i mod Nk =? 4); [|done]. split; [by apply sbox_bytes|]. unfold SubWord. by rewrite length_map. }
  split.
  - apply Forall_app. split; [done|]. apply zip_bytes; [apply Hw|done].
  - rewrite length_app. unfold xor_bytes. rewrite length_zip_with, L2. done.
Qed.

Lemma KeyExpansion_ok key : length key = 32%nat -> Forall is_byte key -> round_keys (KeyExpansion key).
Proof.
  intros Hl Hb. unfold KeyExpansion, Nk. rewrite take_ge by lia.
  assert (forall n i rk, Forall is_byte rk -> Forall is_byte (key_loop n i rk) /\
            length (key_loop n i rk) = (length rk + 4 * n)%nat) as Hloop.
  { induction n as [|n IH]; intros i rk H; cbn [key_loop]; [split; [done|lia]|].
    destruct (key_step_ok i rk H) as [H1 H2]. destruct (IH (i + 1) _ H1) as [H3 H4]. split; [done|lia]. }
  destruct (Hloop (Z.to_nat (Nb * (Z.of_nat Nr + 1) - 8)) 8 key Hb) as [H1 H2]. split; [|done].
  rewrite H2, Hl. done.
Qed.

(** ** Modes *)

Lemma Cipher_block s rk : round_keys rk -> block s -> block (Cipher s rk).
Proof.
  intros Hk Hs. unfold Cipher. pose proof (AddRoundKey_block 0 s rk Hk ltac:(lia) Hs) as H0.
  apply AddRoundKey_block; [done|unfold Nr; lia|]. apply cipher_rounds_block; [done|done|unfold Nr; lia].
Qed.

Lemma cbc_round_trip n : forall rk iv buf,
  round_keys rk -> block iv -> length buf = (16 * n)%nat -> Forall is_byte buf ->
  let '(out, iv') := cbc_encrypt n rk iv buf in
  length out = (16 * n)%nat /\ cbc_decrypt n rk iv out = (buf, iv').
Proof.
  induction n as [|n IH]; intros rk iv buf Hk Hiv Hl Hb; cbn [cbc_encrypt cbc_decrypt].
  { destruct buf; done. }
  assert (block (take 16 buf)) as Hblk
    by (split; [rewrite length_take; lia|by apply Forall_take]).
  pose proof (xor_bytes_block _ _ Hblk Hiv) as Hx. unfold XorWithIv.
  pose proof (Cipher_block _ rk Hk Hx) as Hc. set (c := Cipher (xor_bytes (take 16 buf) iv) rk) in *.
  specialize (IH rk c (drop 16 buf) Hk Hc ltac:(rewrite length_drop; lia) ltac:(by apply Forall_drop)).
  destruct (cbc_encrypt n rk c (drop 16 buf)) as [out iv'] eqn:E. destruct IH as [IH1 IH2].
  destruct Hc as [Hc1 Hc2]. split; [rewrite length_app; lia|].
  rewrite take_app_length', drop_app_length' by done. rewrite IH2. f_equal.
  unfold c at 1. rewrite InvCipher_Cipher by done.
  rewrite xor_bytes_involutive by (destruct Hblk, Hiv; lia). apply take_drop.
Qed.

Lemma ctr_loop_twice rk buf : forall bi buffer iv,
  let '(out, iv') := ctr_loop rk buf bi buffer iv in
  length out = length buf /\ ctr_loop rk out bi buffer iv = (buf, iv').
Proof.
  induction buf as [|x buf IH]; intros bi buffer iv; cbn [ctr_loop]; [done|].
  destruct (if bi =? AES_BLOCKLEN then _ else _) as [[buffer' iv'] bi'] eqn:E.
  specialize (IH (bi' + 1) buffer' iv'). destruct (ctr_loop rk buf (bi' + 1) buffer' iv') as [out iv''].
  destruct IH as [IH1 IH2]. split; [cbn; lia|]. cbn [ctr_loop]. rewrite E, IH2. f_equal. f_equal. xor_solve.
Qed.

(** The big-endian number a counter stands for. *)
Definition be_value (l : list Z) : Z := foldl (fun v b => 256 * v + b) 0 l.

Lemma be_value_snoc l b : be_value (l ++ [b]) = 256 * be_value l + b.
Proof. unfold be_value. by rewrite foldl_app. Qed.

Lemma iv_increment_value iv :
  Forall is_byte iv ->
  be_value (iv_increment iv) = (be_value iv + 1) mod 256 ^ Z.of_nat (length iv) /\
  length (iv_increment iv) = length iv /\ Forall is_byte (iv_increment iv) /\
  0 <= be_value iv < 256 ^ Z.of_nat (length iv).
Proof.
  unfold iv_increment. intros H. rewrite <- (rev_involutive iv) in H |- *.
  rewrite (rev_involutive (rev iv)). revert H. generalize (rev iv). clear iv. intros l H.
  induction l as [|b l IH]; [done|]. cbn [rev] in *. apply Forall_app in H as [H Hb].
  apply Forall_cons in Hb as [Hb _]. specialize (IH H) as (I1 & I2 & I3 & I4).
  rewrite be_value_snoc, length_app, Nat2Z.inj_add, Z.pow_add_r by lia. change (256 ^ Z.of_nat (length [b])) with 256.
  unfold is_byte, is_u in Hb. change (2 ^ 8) with 256 in Hb. cbn [inc_from_last].
  set (N := 256 ^ Z.of_nat (length (rev l))) in *.
  destruct (Z.eqb_spec b 255) as [->|Hne]; cbn [rev].
  - rewrite be_value_snoc, I1. split_and!; [| | |nia|nia].
    + replace (256 * be_value (rev l) + 255 + 1) with (256 * (be_value (rev l) + 1)) by lia.
      rewrite (Z.mul_comm N). rewrite Z.mul_mod_distr_l by lia. lia.
    + rewrite length_app. cbn [length]. lia.
    + apply Forall_app. split; [done|]. constructor; [unfold is_byte; mlia|constructor].
  - unfold u8. rewrite wrap_small by mlia. rewrite be_value_snoc. split_and!; [| | |nia|nia].
    + rewrite Z.mod_small by nia. lia.
    + by rewrite !length_app.
    + apply Forall_app. split; [done|]. constructor; [unfold is_byte; mlia|constructor].
Qed.

(** ** The properties *)

(** C34: for every 256-bit key, the inverse cipher undoes the cipher on every
    block, through the key schedule of the source. *)
Theorem aes_decrypt_encrypt key b :
  length key = 32%nat -> Forall is_byte key -> block b ->
  let ctx := AES_init_ctx (Ctx [] []) key in
  AES_ECB_decrypt ctx (AES_ECB_encrypt ctx b) = b.
Proof. intros Hl Hb Hs ctx. apply InvCipher_Cipher; [by apply KeyExpansion_ok|done]. Qed.

(** Decrypting a CBC-encrypted buffer of whole blocks gives the buffer back and
    leaves both sides with the same chaining value for the next call. *)
Theorem aes_cbc_round_trip key iv buf n :
  length key = 32%nat -> Forall is_byte key -> block iv -> Forall is_byte buf -> length buf = (16 * n)%nat ->
  let ctx := AES_init_ctx_iv key iv in
  let '(ctx', out) := AES_CBC_encrypt_buffer ctx buf in
  AES_CBC_decrypt_buffer ctx out = (ctx', buf).
Proof.
  intros Hl Hb Hiv Hbuf Hn ctx. unfold AES_CBC_encrypt_buffer, AES_CBC_decrypt_buffer.
  assert (length buf / 16 = n)%nat as En by (rewrite Hn, Nat.mul_comm; by apply Nat.div_mul).
  assert (block (Iv ctx)) as Hiv' by (cbn; destruct Hiv; by rewrite take_ge by lia).
  pose proof (cbc_round_trip n (RoundKey ctx) (Iv ctx) buf (KeyExpansion_ok key Hl Hb) Hiv' Hn Hbuf) as H.
  rewrite En. destruct (cbc_encrypt n _ _ buf) as [out iv'] eqn:E. destruct H as [H1 H2].
  rewrite H1, Nat.mul_comm, Nat.div_mul by done. by rewrite H2.
Qed.

(** In counter mode the same call encrypts and decrypts: applied twice from the
    same context it gives the buffer back, whatever its length, and leaves the
    same counter; the counter goes up by one, as a big-endian number modulo
    [2^128], for every block of key stream. *)
Theorem aes_ctr_involution ctx buf iv :
  block iv ->
  (let '(ctx', out) := AES_CTR_xcrypt_buffer ctx buf in
   length out = length buf /\ AES_CTR_xcrypt_buffer ctx out = (ctx', buf)) /\
  be_value (iv_increment iv) = (be_value iv + 1) mod 2 ^ 128 /\ block (iv_increment iv).
Proof.
  intros [Hl Hb]. split.
  - unfold AES_CTR_xcrypt_buffer. pose proof (ctr_loop_twice (RoundKey ctx) buf AES_BLOCKLEN [] (Iv ctx)) as H.
    destruct (ctr_loop _ buf _ _ _) as [out iv']. destruct H as [H1 H2]. by rewrite H2.
  - destruct (iv_increment_value iv Hb) as (H1 & H2 & H3 & _). rewrite H1, Hl. split; [done|]. by split; [lia|].
Qed.

(** *** Witnesses *)

Lemma seqZ_bytes : Forall is_byte (seqZ 0 32) /\ block (seqZ 16 16).
Proof. split; [|split; [done|]]; repeat constructor; unfold is_byte; mlia. Qed.

Lemma aes_decrypt_encrypt_witness :
  AES_ECB_decrypt (AES_init_ctx (Ctx [] []) (seqZ 0 32))
    (AES_ECB_encrypt (AES_init_ctx (Ctx [] []) (seqZ 0 32)) (seqZ 16 16)) = seqZ 16 16.
Proof. apply (aes_decrypt_encrypt (seqZ 0 32) (seqZ 16 16)); [reflexivity|apply seqZ_bytes|apply seqZ_bytes]. Defined.

Lemma aes_cbc_round_trip_witness :
  let ctx := AES_init_ctx_iv (seqZ 0 32) (seqZ 16 16) in
  let '(ctx', out) := AES_CBC_encrypt_buffer ctx (seqZ 0 32) in
  AES_CBC_decrypt_buffer ctx out = (ctx', seqZ 0 32).
Proof.
  apply (aes_cbc_round_trip (seqZ 0 32) (seqZ 16 16) (seqZ 0 32) 2);
    [reflexivity|apply seqZ_bytes|apply seqZ_bytes|apply seqZ_bytes|reflexivity].
Defined.

Lemma aes_ctr_involution_witness :
  be_value (iv_increment (seqZ 16 16)) = (be_value (seqZ 16 16) + 1) mod 2 ^ 128.
Proof. apply (aes_ctr_involution (AES_init_ctx_iv (seqZ 0 32) (seqZ 16 16)) [1; 2; 3] (seqZ 16 16)). apply seqZ_bytes. Defined.
