(* ===== verification/Sha2.v ===== *)
(** * The hash functions of the kernel's entropy pools (kernel/src/crypto/sha2.c)

    SHA-224, SHA-256, SHA-384 and SHA-512 with their streaming interface.  The
    four families of functions share their text in the source up to the word
    size, the tables and the sizes, so they are instances of one set of
    definitions; [UNROLL_LOOPS] is not defined.  Messages are lists of bytes. *)

From S2P Require Import Prelude.
Local Open Scope mach_scope.

(** ** Words *)

Section Words.
Context (w : Z).

Definition SHFR (x n : Z) : Z := x >> n.
Definition ROTR (x n : Z) : Z := (x >> n) .| wrap w (x << (w - n)).
Definition CH (x y z : Z) : Z := (x .& y) .^ (wrap w (Z.lnot x) .& z).
Definition MAJ (x y z : Z) : Z := (x .& y) .^ (x .& z) .^ (y .& z).

(** [PACK32], [PACK64] and [UNPACK32], [UNPACK64]: big-endian words. *)
Definition pack (l : list Z) : Z := foldl (fun x b => (x << 8) .| b) 0 l.
Fixpoint unpack (n : nat) (x : Z) : list Z :=
  match n with
  | O => []
  | S n => u8 (x >> (8 * Z.of_nat n)) :: unpack n x
  end.
End Words.

Definition SHA256_F1 (x : Z) : Z := ROTR 32 x 2 .^ ROTR 32 x 13 .^ ROTR 32 x 22.
Definition SHA256_F2 (x : Z) : Z := ROTR 32 x 6 .^ ROTR 32 x 11 .^ ROTR 32 x 25.
Definition SHA256_F3 (x : Z) : Z := ROTR 32 x 7 .^ ROTR 32 x 18 .^ SHFR x 3.
Definition SHA256_F4 (x : Z) : Z := ROTR 32 x 17 .^ ROTR 32 x 19 .^ SHFR x 10.
Definition SHA512_F1 (x : Z) : Z := ROTR 64 x 28 .^ ROTR 64 x 34 .^ ROTR 64 x 39.
Definition SHA512_F2 (x : Z) : Z := ROTR 64 x 14 .^ ROTR 64 x 18 .^ ROTR 64 x 41.
Definition SHA512_F3 (x : Z) : Z := ROTR 64 x 1 .^ ROTR 64 x 8 .^ SHFR x 7.
Definition SHA512_F4 (x : Z) : Z := ROTR 64 x 19 .^ ROTR 64 x 61 .^ SHFR x 6.

(** The tables are written by the row: a row of the source's table is one
    number whose words, the first one the highest, are the entries. *)
Fixpoint words (w : Z) (n : nat) (row : Z) : list Z :=
  match n with
  | O => []
  | S n => wrap w (row >> (w * Z.of_nat n)) :: words w n row
  end.
Definition sha224_h0 : list Z := Eval cbv in
  mjoin (words 32 4 <$>
  [0xc1059ed8_367cd507_3070dd17_f70e5939;
   0xffc00b31_68581511_64f98fa7_befa4fa4]).
Definition sha256_h0 : list Z := Eval cbv in
  mjoin (words 32 4 <$>
  [0x6a09e667_bb67ae85_3c6ef372_a54ff53a;
   0x510e527f_9b05688c_1f83d9ab_5be0cd19]).
Definition sha384_h0 : list Z := Eval cbv in
  mjoin (words 64 4 <$>
  [0xcbbb9d5dc1059ed8_629a292a367cd507_9159015a3070dd17_152fecd8f70e5939;
   0x67332667ffc00b31_8eb44a8768581511_db0c2e0d64f98fa7_47b5481dbefa4fa4]).
Definition sha512_h0 : list Z := Eval cbv in
  mjoin (words 64 4 <$>
  [0x6a09e667f3bcc908_bb67ae8584caa73b_3c6ef372fe94f82b_a54ff53a5f1d36f1;
   0x510e527fade682d1_9b05688c2b3e6c1f_1f83d9abfb41bd6b_5be0cd19137e2179]).
Definition sha256_k : list Z := Eval cbv in
  mjoin (words 32 4 <$>
  [0x428a2f98_71374491_b5c0fbcf_e9b5dba5;
   0x3956c25b_59f111f1_923f82a4_ab1c5ed5;
   0xd807aa98_12835b01_243185be_550c7dc3;
   0x72be5d74_80deb1fe_9bdc06a7_c19bf174;
   0xe49b69c1_efbe4786_0fc19dc6_240ca1cc;
   0x2de92c6f_4a7484aa_5cb0a9dc_76f988da;
   0x983e5152_a831c66d_b00327c8_bf597fc7;
   0xc6e00bf3_d5a79147_06ca6351_14292967;
   0x27b70a85_2e1b2138_4d2c6dfc_53380d13;
   0x650a7354_766a0abb_81c2c92e_92722c85;
   0xa2bfe8a1_a81a664b_c24b8b70_c76c51a3;
   0xd192e819_d6990624_f40e3585_106aa070;
   0x19a4c116_1e376c08_2748774c_34b0bcb5;
   0x391c0cb3_4ed8aa4a_5b9cca4f_682e6ff3;
   0x748f82ee_78a5636f_84c87814_8cc70208;
   0x90befffa_a4506ceb_bef9a3f7_c67178f2]).
Definition sha512_k : list Z := Eval cbv in
  mjoin (words 64 4 <$>
  [0x428a2f98d728ae22_7137449123ef65cd_b5c0fbcfec4d3b2f_e9b5dba58189dbbc;
   0x3956c25bf348b538_59f111f1b605d019_923f82a4af194f9b_ab1c5ed5da6d8118;
   0xd807aa98a3030242_12835b0145706fbe_243185be4ee4b28c_550c7dc3d5ffb4e2;
   0x72be5d74f27b896f_80deb1fe3b1696b1_9bdc06a725c71235_c19bf174cf692694;
   0xe49b69c19ef14ad2_efbe4786384f25e3_0fc19dc68b8cd5b5_240ca1cc77ac9c65;
   0x2de92c6f592b0275_4a7484aa6ea6e483_5cb0a9dcbd41fbd4_76f988da831153b5;
   0x983e5152ee66dfab_a831c66d2db43210_b00327c898fb213f_bf597fc7beef0ee4;
   0xc6e00bf33da88fc2_d5a79147930aa725_06ca6351e003826f_142929670a0e6e70;
   0x27b70a8546d22ffc_2e1b21385c26c926_4d2c6dfc5ac42aed_53380d139d95b3df;
   0x650a73548baf63de_766a0abb3c77b2a8_81c2c92e47edaee6_92722c851482353b;
   0xa2bfe8a14cf10364_a81a664bbc423001_c24b8b70d0f89791_c76c51a30654be30;
   0xd192e819d6ef5218_d69906245565a910_f40e35855771202a_106aa07032bbd1b8;
   0x19a4c116b8d2d0c8_1e376c085141ab53_2748774cdf8eeb99_34b0bcb5e19b48a8;
   0x391c0cb3c5c95a63_4ed8aa4ae3418acb_5b9cca4f7763e373_682e6ff3d6b2b8a3;
   0x748f82ee5defb2fc_78a5636f43172f60_84c87814a1f0ab72_8cc702081a6439ec;
   0x90befffa23631e28_a4506cebde82bde9_bef9a3f7b2c67915_c67178f2e372532b;
   0xca273eceea26619c_d186b8c721c0c207_eada7dd6cde0eb1e_f57d4f7fee6ed178;
   0x06f067aa72176fba_0a637dc5a2c898a6_113f9804bef90dae_1b710b35131c471b;
   0x28db77f523047d84_32caab7b40c72493_3c9ebe0a15c9bebc_431d67c49c100d4c;
   0x4cc5d4becb3e42b6_597f299cfc657e2a_5fcb6fab3ad6faec_6c44198c4a475817]).

(** ** The compression function *)

Section Compress.
Context (w : Z) (F1 F2 F3 F4 : Z -> Z) (k : list Z).

(** [w[0 .. 15]] from the block. *)
Fixpoint load_words (n : nat) (sub_block : list Z) : list Z :=
  match n with
  | O => []
  | S n => pack (take (Z.to_nat (w / 8)) sub_block) :: load_words n (drop (Z.to_nat (w / 8)) sub_block)
  end.

(** [SCR(i)] for [n] values of [i] from [i] on. *)
Fixpoint schedule (n : nat) (i : nat) (ws : list Z) : list Z :=
  match n with
  | O => ws
  | S n =>
      let x := wrap w (wrap w (wrap w (F4 (ws !!! (i - 2)%nat) + ws !!! (i - 7)%nat) + F3 (ws !!! (i - 15)%nat))
                       + ws !!! (i - 16)%nat) in
      schedule n (S i) (ws ++ [x])
  end.

(** One turn of the main loop on [wv[0 .. 7]]. *)
Definition round (wv : list Z) (kj wj : Z) : list Z :=
  match wv with
  | [a; b; c; d; e; f; g; h] =>
      let t1 := wrap w (wrap w (wrap w (wrap w (h + F2 e) + CH w e f g) + kj) + wj) in
      let t2 := wrap w (F1 a + MAJ a b c) in
      [wrap w (t1 + t2); a; b; c; wrap w (d + t1); e; f; g]
  | _ => wv
  end.
Fixpoint rounds (wv ks ws : list Z) : list Z :=
  match ks, ws with
  | kj :: ks, wj :: ws => rounds (round wv kj wj) ks ws
  | _, _ => wv
  end.

Definition compress (h sub_block : list Z) : list Z :=
  let ws := schedule (length k - 16) 16 (load_words 16 sub_block) in
  zip_with (fun x y => wrap w (x + y)) h (rounds h k ws).
End Compress.

Definition sha256_compress : list Z -> list Z -> list Z :=
  compress 32 SHA256_F1 SHA256_F2 SHA256_F3 SHA256_F4 sha256_k.
Definition sha512_compress : list Z -> list Z -> list Z :=
  compress 64 SHA512_F1 SHA512_F2 SHA512_F3 SHA512_F4 sha512_k.

(** ** The streaming interface *)

Record sha_ctx := ShaCtx { tot_len : Z; len : Z; sblock : list Z; hs : list Z }.

Section Streaming.
(** The block size, the compression function, the initial state, the word size
    in bytes, the number of words of the digest, and the room that the length
    and the marker byte need in the last block. *)
Context (BS : nat) (f : list Z -> list Z -> list Z) (h0 : list Z) (wb : nat) (nw : nat) (tail : nat).

Fixpoint transf (h message : list Z) (block_nb : nat) : list Z :=
  match block_nb with
  | O => h
  | S n => transf (f h (take BS message)) (drop BS message) n
  end.

Definition sha_init (ctx : sha_ctx) : sha_ctx := ShaCtx 0 0 (sblock ctx) h0.

(** [memcpy(&block[at], data, length data)] *)
Definition block_copy (block : list Z) (at_ : nat) (data : list Z) : list Z :=
  take at_ block ++ data ++ drop (at_ + length data) block.

Definition sha_update (ctx : sha_ctx) (message : list Z) : sha_ctx :=
  let mlen := u32 (Z.of_nat (length message)) in
  let bs := Z.of_nat BS in
  let tmp_len := u32 (bs - len ctx) in
  let rem_len := if mlen <? tmp_len then mlen else tmp_len in
  let block := block_copy (sblock ctx) (Z.to_nat (len ctx)) (take (Z.to_nat rem_len) message) in
  if u32 (len ctx + mlen) <? bs then ShaCtx (tot_len ctx) (u32 (len ctx + mlen)) block (hs ctx)
  else
    let new_len := u32 (mlen - rem_len) in
    let block_nb := new_len / bs in
    let shifted := drop (Z.to_nat rem_len) message in
    let h := transf (hs ctx) block 1 in
    let h := transf h shifted (Z.to_nat block_nb) in
    let rem_len := new_len mod bs in
    let block := block_copy block 0 (take (Z.to_nat rem_len) (drop (Z.to_nat (block_nb * bs)) shifted)) in
    ShaCtx (u32 (tot_len ctx + u32 ((block_nb + 1) * bs))) rem_len block h.

Definition sha_final (ctx : sha_ctx) : sha_ctx * list Z :=
  let bs := Z.of_nat BS in
  let block_nb := 1 + cbool (bs - Z.of_nat tail <? len ctx mod bs) in
  let len_b := u32 (u32 (tot_len ctx + len ctx) << 3) in
  let pm_len := block_nb * bs in
  let block := block_copy (sblock ctx) (Z.to_nat (len ctx)) (replicate (Z.to_nat (pm_len - len ctx)) 0) in
  let block := <[Z.to_nat (len ctx) := 0x80]> block in
  let block := block_copy block (Z.to_nat (pm_len - 4)) (unpack 4 len_b) in
  let h := transf (hs ctx) block (Z.to_nat block_nb) in
  (ShaCtx (tot_len ctx) (len ctx) block h, concat (map (unpack wb) (take nw h))).

(** A context on the stack, before it is initialised. *)
Definition sha_raw : sha_ctx := ShaCtx 0 0 (replicate (2 * BS) 0) [].

Definition sha_digest (message : list Z) : list Z :=
  (sha_final (sha_update (sha_init sha_raw) message)).2.
End Streaming.

Definition SHA256_BLOCK_SIZE : nat := 64.
Definition SHA512_BLOCK_SIZE : nat := 128.

Definition sha256_transf := transf SHA256_BLOCK_SIZE sha256_compress.
Definition sha256_init := sha_init sha256_h0.
Definition sha256_update := sha_update SHA256_BLOCK_SIZE sha256_compress.
Definition sha256_final := sha_final SHA256_BLOCK_SIZE sha256_compress 4 8 9.
Definition sha256 := sha_digest SHA256_BLOCK_SIZE sha256_compress sha256_h0 4 8 9.

Definition sha512_transf := transf SHA512_BLOCK_SIZE sha512_compress.
Definition sha512_init := sha_init sha512_h0.
Definition sha512_update := sha_update SHA512_BLOCK_SIZE sha512_compress.
Definition sha512_final := sha_final SHA512_BLOCK_SIZE sha512_compress 8 8 17.
Definition sha512 := sha_digest SHA512_BLOCK_SIZE sha512_compress sha512_h0 8 8 17.

Definition sha384_init := sha_init sha384_h0.
Definition sha384_update := sha_update SHA512_BLOCK_SIZE sha512_compress.
Definition sha384_final := sha_final SHA512_BLOCK_SIZE sha512_compress 8 6 17.
Definition sha384 := sha_digest SHA512_BLOCK_SIZE sha512_compress sha384_h0 8 6 17.

Definition sha224_init := sha_init sha224_h0.
Definition sha224_update := sha_update SHA256_BLOCK_SIZE sha256_compress.
Definition sha224_final := sha_final SHA256_BLOCK_SIZE sha256_compress 4 7 9.
Definition sha224 := sha_digest SHA256_BLOCK_SIZE sha256_compress sha224_h0 4 7 9.

(** The digests of [abc] from FIPS 180-2, as in the test vectors of the source. *)
Example sha256_abc :
  pack (sha256 [97; 98; 99]) = 0xba7816bf8f01cfea414140de5dae2223b00361a396177a9cb410ff61f20015ad.
Proof. vm_compute. reflexivity. Qed.
Example sha224_abc :
  pack (sha224 [97; 98; 99]) = 0x23097d223405d8228642a477bda255b32aadbce4bda0b3f7e36c9da7.
Proof. vm_compute. reflexivity. Qed.
Example sha384_abc :
  pack (sha384 [97; 98; 99])
  = 0xcb00753f45a35e8bb5a03d699ac65007272c32ab0eded1631a8b605a43ff5bed8086072ba1e7cc2358baeca134c825a7.
Proof. vm_compute. reflexivity. Qed.
Example sha512_abc :
  pack (sha512 [97; 98; 99])
  = 0xddaf35a193617abacc417349ae20413112e6fa4e89a97ea20a9eeee64b55d39a2192992a274fc1a836ba3c23a3feebbd454d4423643ce80e2a9ac94fa54ca49f.
Proof. vm_compute. reflexivity. Qed.

(** ** The standard's padding and the digest of a whole message *)

Section Spec.
Context (BS : nat) (f : list Z -> list Z -> list Z) (h0 : list Z) (wb : nat) (nw : nat) (tail : nat).

(** FIPS 180-2: the marker bit, zeros up to the next block boundary less the
    length field, and the length of the message in bits in [tail - 1] bytes. *)
Definition pad_zeros (n : nat) : nat := Z.to_nat ((- Z.of_nat n - Z.of_nat tail) mod Z.of_nat BS).
Definition fips_pad (m : list Z) : list Z :=
  m ++ 0x80 :: replicate (pad_zeros (length m)) 0 ++ unpack (tail - 1) (8 * Z.of_nat (length m)).

(** The padding of the code, whose length field has 32 bits. *)
Definition pad32 (m : list Z) : list Z :=
  m ++ 0x80 :: replicate (pad_zeros (length m) + (tail - 5)) 0 ++ unpack 4 (u32 (8 * Z.of_nat (length m))).

Definition blocks (l : list Z) : list (list Z) :=
  map (fun i => take BS (drop (i * BS) l)) (seq 0 (length l / BS)).
Definition fips_digest (padded : list Z) : list Z :=
  concat (map (unpack wb) (take nw (foldl f h0 (blocks padded)))).
End Spec.

(** ** Lemmas on blocks and padding *)

Lemma unpack_length n x : length (unpack n x) = n.
Proof. induction n; simpl; congruence. Qed.

Lemma unpack_lookup n i x :
  (i < n)%nat -> unpack n x !! i = Some (u8 (x >> (8 * Z.of_nat (n - 1 - i)))).
Proof.
  revert i. induction n as [|n IH]; intros i Hi; [lia|]. destruct i as [|i]; cbn [unpack lookup list_lookup].
  - do 5 f_equal. lia.
  - etransitivity; [apply IH; lia|]. do 5 f_equal. lia.
Qed.

Lemma unpack_small n k x :
  0 <= x < 2 ^ (8 * Z.of_nat k) -> unpack (n + k) x = replicate n 0 ++ unpack k x.
Proof.
  intros Hx. induction n as [|n IH]; [done|]. cbn [Nat.add unpack replicate app].
  f_equal; [|exact IH]. rewrite Z.shiftr_div_pow2 by lia.
  rewrite Z.div_small; [reflexivity|]. split; [lia|].
  eapply Z.lt_le_trans; [apply Hx|]. apply Z.pow_le_mono_r; lia.
Qed.

Section Blocks.
Context (BS : nat) (f : list Z -> list Z -> list Z).

Lemma transf_app h a b n k :
  length a = (n * BS)%nat -> transf BS f h (a ++ b) (n + k) = transf BS f (transf BS f h a n) b k.
Proof.
  revert h a. induction n as [|n IH]; intros h a Ha; simpl in *.
  - destruct a; [done|discriminate].
  - rewrite take_app_le, drop_app_le by lia. apply IH. rewrite length_drop. lia.
Qed.

Lemma transf_prefix h a b n :
  length a = (n * BS)%nat -> transf BS f h (a ++ b) n = transf BS f h a n.
Proof. intros Ha. rewrite <- (Nat.add_0_r n) at 1. by rewrite transf_app. Qed.

Lemma transf_blocks h l n :
  (0 < BS)%nat -> length l = (n * BS)%nat -> transf BS f h l n = foldl f h (blocks BS l).
Proof.
  unfold blocks. intros HBS Hl. rewrite Hl, Nat.div_mul by lia. clear Hl.
  enough (H : forall o, transf BS f h (drop (o * BS) l) n
                   = foldl f h (map (fun i => take BS (drop (i * BS) l)) (seq o n))).
  { exact (H O). }
  revert h. induction n as [|n IH]; intros h o; [done|]. cbn [transf seq map foldl].
  rewrite drop_drop. rewrite <- IH. do 2 f_equal. lia.
Qed.
End Blocks.

Lemma block_copy_at block a data b at_ :
  length a = at_ -> (exists c, block = a ++ c ++ b /\ length c = length data) ->
  block_copy block at_ data = a ++ data ++ b.
Proof.
  intros <- (c & -> & Hc). unfold block_copy. rewrite take_app_length. f_equal. f_equal.
  rewrite drop_app_ge by lia. rewrite drop_app_ge by lia. rewrite <- (drop_0 b) at 2. f_equal. lia.
Qed.

(** ** The invariant of a context *)

Section Invariant.
Context (BS : nat) (f : list Z -> list Z -> list Z) (h0 : list Z) (wb : nat) (nw : nat) (tail : nat).
Hypothesis (HBS : (0 < BS)%nat) (HBS' : (BS <= 1024)%nat) (Htail : (5 <= tail <= BS)%nat).

(** [ctx] has consumed the message [m]: its full blocks [m1] are in the hash
    state, the rest [r] is at the front of the buffer. *)
Definition consumed (ctx : sha_ctx) (m : list Z) : Prop :=
  exists q m1 r, m = m1 ++ r /\ length m1 = (q * BS)%nat /\ (length r < BS)%nat /\
    len ctx = Z.of_nat (length r) /\ tot_len ctx = Z.of_nat (q * BS) /\
    hs ctx = transf BS f h0 m1 q /\
    exists rest, sblock ctx = r ++ rest /\ length (sblock ctx) = (2 * BS)%nat.

Lemma sha_init_consumed ctx : length (sblock ctx) = (2 * BS)%nat -> consumed (sha_init h0 ctx) [].
Proof. intros H. exists O, [], []. cbn. split_and!; eauto with lia. Qed.

(** The data of an update, cut where the code cuts it. *)
Lemma cut_data (d : list Z) (k : nat) :
  (k <= length d)%nat ->
  exists d1 d2 d3, d = d1 ++ d2 ++ d3 /\ length d1 = k /\
    length d2 = ((length d - k) / BS * BS)%nat /\ length d3 = ((length d - k) mod BS)%nat.
Proof.
  intros Hk. exists (take k d), (take ((length d - k) / BS * BS) (drop k d)),
    (drop ((length d - k) / BS * BS) (drop k d)).
  pose proof (Nat.div_mod (length d - k) BS ltac:(lia)) as Hdm.
  rewrite take_drop, take_drop, !length_take, !length_drop.
  revert Hdm. generalize ((length d - k) / BS)%nat, ((length d - k) mod BS)%nat.
  intros n k' Hdm. split_and!; [done|lia..].
Qed.

Lemma sha_update_short ctx m d :
  consumed ctx m -> len ctx + Z.of_nat (length d) < Z.of_nat BS -> consumed (sha_update BS f ctx d) (m ++ d).
Proof.
  intros (q & m1 & r & -> & Hm1 & Hr & Hlen & Htot & Hhs & rest & Hb & Hbl) Hd.
  rewrite Hlen in Hd. unfold sha_update, u32. rewrite Hlen.
  rewrite (wrap_small 32 (Z.of_nat (length d))), (wrap_small 32 (Z.of_nat BS - _)),
    (wrap_small 32 (_ + _)) by (unfold is_u in *; pow_norm; lia).
  rewrite (proj2 (Z.ltb_lt (Z.of_nat (length d)) _)), (proj2 (Z.ltb_lt _ (Z.of_nat BS))) by lia.
  rewrite !Nat2Z.id, (firstn_all d).
  rewrite Hb in Hbl |- *. rewrite length_app in Hbl.
  rewrite (block_copy_at _ r d (drop (length d) rest)).
  - exists q, m1, (r ++ d). cbn [len tot_len hs sblock]. rewrite !length_app, length_drop.
    split_and!; auto; try lia; [by rewrite app_assoc|].
    exists (drop (length d) rest). rewrite app_assoc. split; [done|]. lia.
  - done.
  - exists (take (length d) rest). rewrite take_drop, length_take. split; [done|lia].
Qed.

Lemma sha_update_long ctx m d :
  consumed ctx m -> Z.of_nat (length (m ++ d)) < 2 ^ 31 ->
  Z.of_nat BS <= len ctx + Z.of_nat (length d) -> consumed (sha_update BS f ctx d) (m ++ d).
Proof.
  intros (q & m1 & r & -> & Hm1 & Hr & Hlen & Htot & Hhs & rest & Hb & Hbl) Hmax Hd.
  rewrite Hlen in Hd. rewrite !length_app in Hmax.
  destruct (cut_data d (BS - length r)) as (d1 & d2 & d3 & Hdd & H1 & H2 & H3); [lia|].
  pose proof (Nat.div_mod (length d - (BS - length r)) BS ltac:(lia)) as Hdm.
  pose proof (Nat.mod_upper_bound (length d - (BS - length r)) BS ltac:(lia)) as Hmb.
  unfold sha_update, u32. rewrite Hlen.
  rewrite (wrap_small 32 (Z.of_nat (length d))), (wrap_small 32 (Z.of_nat BS - _)),
    (wrap_small 32 (_ + Z.of_nat (length d))) by (unfold is_u in *; pow_norm; lia).
  rewrite (proj2 (Z.ltb_ge _ (Z.of_nat BS))) by lia.
  replace (if _ <? _ then _ else _) with (Z.of_nat (length d1)) by (rewrite H1; destruct (Z.ltb_spec (Z.of_nat (length d)) (Z.of_nat BS - Z.of_nat (length r))); lia).
  rewrite (wrap_small 32 (_ - Z.of_nat (length d1))) by (unfold is_u in *; pow_norm; lia).
  replace (Z.of_nat (length d) - Z.of_nat (length d1))
    with (Z.of_nat (length d - (BS - length r))) by lia.
  rewrite <- Nat2Z.inj_div, <- Nat2Z.inj_mod, <- Nat2Z.inj_mul, !Nat2Z.id.
  set (nb := ((length d - (BS - length r)) / BS)%nat) in *.
  rewrite <- H2, <- H3.
  assert (Et : take (length d1) d = d1) by (by rewrite Hdd, take_app_length).
  assert (Ed : drop (length d1) d = d2 ++ d3) by (by rewrite Hdd, drop_app_length).
  rewrite Et, Ed, drop_app_length, (take_ge d3) by lia.
  rewrite (wrap_small 32 ((_ + 1) * _)) by (unfold is_u in *; pow_norm; lia).
  rewrite Htot, (wrap_small 32) by (unfold is_u in *; pow_norm; lia).
  rewrite Hb in Hbl |- *. rewrite length_app in Hbl.
  rewrite (block_copy_at _ r d1 (drop (length d1) rest)); [|done|].
  2:{ exists (take (length d1) rest). rewrite take_drop, length_take. split; [done|lia]. }
  rewrite app_assoc, (block_copy_at _ [] d3 (drop (length d3) ((r ++ d1) ++ drop (length d1) rest))); [|done|].
  2:{ exists (take (length d3) ((r ++ d1) ++ drop (length d1) rest)).
      rewrite app_nil_l, take_drop, length_take, !length_app, length_drop. split; [done|lia]. }
  exists (q + (1 + nb))%nat, (m1 ++ (r ++ d1) ++ d2), d3. cbn [len tot_len hs sblock].
  rewrite Hhs, (transf_prefix BS f _ (r ++ d1)), (transf_prefix BS f _ d2) by (rewrite ?length_app; lia).
  rewrite !transf_app by (rewrite ?length_app; lia).
  rewrite !length_app. split_and!; try lia; [rewrite Hdd, <- !app_assoc; done|done|].
  eexists. split; [done|].
  rewrite length_drop, !length_app, length_drop. cbn [length]. lia.
Qed.

Lemma sha_update_consumed ctx m d :
  consumed ctx m -> Z.of_nat (length (m ++ d)) < 2 ^ 31 -> consumed (sha_update BS f ctx d) (m ++ d).
Proof.
  intros Hc Hmax. destruct (Z.lt_ge_cases (len ctx + Z.of_nat (length d)) (Z.of_nat BS)).
  - by apply sha_update_short.
  - by apply sha_update_long.
Qed.

Lemma sha_updates_consumed ds ctx m :
  consumed ctx m -> Z.of_nat (length (m ++ concat ds)) < 2 ^ 31 ->
  consumed (foldl (sha_update BS f) ctx ds) (m ++ concat ds).
Proof.
  revert ctx m. induction ds as [|d ds IH]; intros ctx m Hc Hmax; cbn [foldl concat] in *.
  - by rewrite app_nil_r.
  - rewrite app_assoc. apply IH; [|by rewrite <- app_assoc].
    apply sha_update_consumed; [done|]. rewrite !length_app in *. lia.
Qed.

(** The number of zeros of the padding, by the blocks that the code appends. *)
Lemma pad_zeros_blocks q r :
  (r < BS)%nat ->
  Z.of_nat (pad_zeros BS tail (q * BS + r)) =
  (1 + cbool (Z.of_nat BS - Z.of_nat tail <? Z.of_nat r)) * Z.of_nat BS - Z.of_nat r - Z.of_nat tail.
Proof.
  intros Hr. unfold pad_zeros. rewrite Z2Nat.id by (apply Z.mod_pos_bound; lia).
  symmetry. apply Z.mod_unique_pos with (q := - (Z.of_nat q + 1 + cbool (Z.of_nat BS - Z.of_nat tail <? Z.of_nat r))).
  - unfold cbool. destruct (Z.ltb_spec (Z.of_nat BS - Z.of_nat tail) (Z.of_nat r)); lia.
  - lia.
Qed.

Lemma sha_final_consumed ctx m :
  consumed ctx m -> Z.of_nat (length m) < 2 ^ 31 ->
  (sha_final BS f wb nw tail ctx).2 = fips_digest BS f h0 wb nw (pad32 BS tail m).
Proof.
  intros (q & m1 & r & -> & Hm1 & Hr & Hlen & Htot & Hhs & rest & Hb & Hbl) Hmax.
  pose proof (pad_zeros_blocks q (length r) Hr) as Hz.
  rewrite length_app in Hmax. unfold sha_final. rewrite Hlen, Htot. cbn [snd].
  rewrite (Z.mod_small (Z.of_nat (length r))) by lia.
  set (nb := 1 + cbool (Z.of_nat BS - Z.of_nat tail <? Z.of_nat (length r))) in *.
  assert (Hnb : nb = 1 \/ nb = 2) by (unfold nb, cbool; case_if; lia).
  rewrite <- Hm1 in Hz. rewrite <- length_app in Hz.
  set (z := pad_zeros BS tail (length (m1 ++ r))) in *.
  replace (u32 (u32 _ << 3)) with (u32 (8 * Z.of_nat (length (m1 ++ r)))).
  2:{ unfold u32. rewrite (wrap_small 32 (_ + _)) by (unfold is_u in *; pow_norm; lia).
      rewrite Z.shiftl_mul_pow2, length_app, Hm1 by lia. f_equal. lia. }
  set (lenb := unpack 4 _).
  assert (Hlb : length lenb = 4%nat) by apply unpack_length.
  rewrite Hb in Hbl |- *. rewrite length_app in Hbl. rewrite Nat2Z.id.
  replace (Z.to_nat (nb * Z.of_nat BS - Z.of_nat (length r))) with (z + tail)%nat by lia.
  rewrite (block_copy_at _ r (replicate (z + tail) 0) (drop (z + tail) rest)); [|done|].
  2:{ exists (take (z + tail) rest). rewrite take_drop, length_take, length_replicate. split; [done|nia]. }
  replace (z + tail)%nat with (1 + (z + (tail - 5)) + 4)%nat by lia.
  rewrite insert_app_r_alt, Nat.sub_diag by lia.
  rewrite (replicate_add _ 4), <- app_assoc. cbn [Nat.add].
  change (<[0%nat:=128]> (replicate (S (z + (tail - 5))) 0 ++ ?l)) with (128 :: replicate (z + (tail - 5)) 0 ++ l).
  rewrite app_comm_cons, app_assoc.
  rewrite (block_copy_at _ (r ++ 128 :: replicate (z + (tail - 5)) 0) lenb (drop (S (z + (tail - 5) + 4)) rest)).
  3:{ exists (replicate 4 0). split; [done|]. by rewrite Hlb. }
  2:{ rewrite length_app. cbn [length]. rewrite length_replicate. lia. }
  unfold fips_digest. do 3 f_equal.
  rewrite app_assoc, transf_prefix.
  2:{ rewrite !length_app. cbn [length]. rewrite length_replicate, Hlb. lia. }
  rewrite Hhs, <- transf_app by done.
  rewrite (transf_blocks BS f _ _ (q + Z.to_nat nb)).
  - unfold pad32. fold z lenb. by rewrite <- !app_assoc.
  - lia.
  - rewrite !length_app. cbn [length]. rewrite length_replicate, Hlb. lia.
Qed.

(** Below 2^29 bytes the code's length field is the standard's. *)
Lemma pad32_fips m : 8 * Z.of_nat (length m) < 2 ^ 32 -> pad32 BS tail m = fips_pad BS tail m.
Proof.
  intros Hm. unfold pad32, fips_pad. replace (tail - 1)%nat with ((tail - 5) + 4)%nat by lia.
  rewrite unpack_small by (change (8 * Z.of_nat 4) with 32; lia).
  unfold u32. rewrite wrap_small by (unfold is_u; pow_norm; lia).
  by rewrite replicate_add, <- app_assoc.
Qed.

(** From there on the two differ. *)
Lemma pad32_not_fips m :
  (6 <= tail)%nat -> 2 ^ 32 <= 8 * Z.of_nat (length m) < 2 ^ 34 -> pad32 BS tail m <> fips_pad BS tail m.
Proof.
  intros Ht Hm E. set (z := pad_zeros BS tail (length m)) in *.
  apply (f_equal (fun l => l !! (length m + (1 + (z + (tail - 6))))%nat)) in E.
  cbv beta in E. unfold pad32, fips_pad in E. fold z in E.
  rewrite !lookup_app_r in E by lia.
  replace (length m + (1 + (z + (tail - 6))) - length m)%nat with (S (z + (tail - 6))) in E by lia.
  rewrite !lookup_cons in E. cbv iota in E.
  rewrite lookup_app_l in E by (rewrite length_replicate; lia).
  rewrite lookup_replicate_2 in E by lia.
  rewrite lookup_app_r in E by (rewrite length_replicate; lia).
  rewrite length_replicate, unpack_lookup in E by lia. injection E as E. revert E.
  replace (8 * Z.of_nat (tail - 1 - 1 - _)) with 32 by lia. unfold u8, wrap. rewrite Z.shiftr_div_pow2 by lia.
  assert (1 <= 8 * Z.of_nat (length m) / 2 ^ 32 < 4) as Hq.
  { split; [apply Z.div_le_lower_bound|apply Z.div_lt_upper_bound]; pow_norm; lia. }
  rewrite Z.mod_small by (pow_norm; lia). lia.
Qed.

Lemma sha_stream_pad32 ctx ds :
  length (sblock ctx) = (2 * BS)%nat -> Z.of_nat (length (concat ds)) < 2 ^ 31 ->
  (sha_final BS f wb nw tail (foldl (sha_update BS f) (sha_init h0 ctx) ds)).2
  = fips_digest BS f h0 wb nw (pad32 BS tail (concat ds)).
Proof.
  intros Hb Hl. apply sha_final_consumed; [|done].
  apply (sha_updates_consumed ds _ []); [by apply sha_init_consumed|done].
Qed.

Lemma sha_stream_spec ctx ds :
  length (sblock ctx) = (2 * BS)%nat -> Z.of_nat (length (concat ds)) < 2 ^ 29 ->
  (sha_final BS f wb nw tail (foldl (sha_update BS f) (sha_init h0 ctx) ds)).2
  = fips_digest BS f h0 wb nw (fips_pad BS tail (concat ds)).
Proof.
  intros Hb Hl. rewrite <- pad32_fips by (pow_norm; lia). apply sha_stream_pad32; [done|pow_norm; lia].
Qed.
End Invariant.

(** ** The four hash functions *)

(** C29: for each of SHA-224, SHA-256, SHA-384 and SHA-512, whatever was in the
    buffer of the context before and however a message of less than 2^29 bytes is
    cut into updates, the digest that final writes is the standard's digest of
    the whole message: the words of the compression function folded over the
    blocks of the padded message, big-endian, cut to the size of the digest. *)
Theorem sha2_streaming_spec (ctx256 ctx512 : sha_ctx) (chunks : list (list Z)) :
  length (sblock ctx256) = (2 * SHA256_BLOCK_SIZE)%nat ->
  length (sblock ctx512) = (2 * SHA512_BLOCK_SIZE)%nat ->
  Z.of_nat (length (concat chunks)) < 2 ^ 29 ->
  (sha224_final (foldl sha224_update (sha224_init ctx256) chunks)).2
    = fips_digest 64 sha256_compress sha224_h0 4 7 (fips_pad 64 9 (concat chunks)) /\
  (sha256_final (foldl sha256_update (sha256_init ctx256) chunks)).2
    = fips_digest 64 sha256_compress sha256_h0 4 8 (fips_pad 64 9 (concat chunks)) /\
  (sha384_final (foldl sha384_update (sha384_init ctx512) chunks)).2
    = fips_digest 128 sha512_compress sha384_h0 8 6 (fips_pad 128 17 (concat chunks)) /\
  (sha512_final (foldl sha512_update (sha512_init ctx512) chunks)).2
    = fips_digest 128 sha512_compress sha512_h0 8 8 (fips_pad 128 17 (concat chunks)).
Proof.
  unfold SHA256_BLOCK_SIZE, SHA512_BLOCK_SIZE. intros H1 H2 Hl.
  split_and!; apply sha_stream_spec; (done || lia).
Qed.

Lemma sha2_streaming_spec_witness :
  (sha256_final (foldl sha256_update (sha256_init (sha_raw 64)) [[97]; []; [98; 99]])).2
  = fips_digest 64 sha256_compress sha256_h0 4 8 (fips_pad 64 9 [97; 98; 99]).
Proof.
  apply (sha2_streaming_spec (sha_raw 64) (sha_raw 128) [[97]; []; [98; 99]]); reflexivity.
Defined.

(** A message of 2^29 up to 2^31 bytes is hashed with a length field that has
    lost its high bits, so the padded message that SHA-256 and SHA-512 compress
    is not the padding of the standard. *)
Theorem sha2_length_field_wraps (ctx256 ctx512 : sha_ctx) (chunks : list (list Z)) :
  length (sblock ctx256) = (2 * SHA256_BLOCK_SIZE)%nat ->
  length (sblock ctx512) = (2 * SHA512_BLOCK_SIZE)%nat ->
  2 ^ 29 <= Z.of_nat (length (concat chunks)) < 2 ^ 31 ->
  ((sha256_final (foldl sha256_update (sha256_init ctx256) chunks)).2
     = fips_digest 64 sha256_compress sha256_h0 4 8 (pad32 64 9 (concat chunks)) /\
   pad32 64 9 (concat chunks) <> fips_pad 64 9 (concat chunks)) /\
  ((sha512_final (foldl sha512_update (sha512_init ctx512) chunks)).2
     = fips_digest 128 sha512_compress sha512_h0 8 8 (pad32 128 17 (concat chunks)) /\
   pad32 128 17 (concat chunks) <> fips_pad 128 17 (concat chunks)).
Proof.
  unfold SHA256_BLOCK_SIZE, SHA512_BLOCK_SIZE. intros H1 H2 Hl.
  split; (split; [apply sha_stream_pad32; (done || lia)|apply pad32_not_fips; pow_norm; lia]).
Qed.

Lemma sha2_length_field_wraps_witness :
  let zeros := replicate (Z.to_nat (2 ^ 29)) 0 in
  pad32 64 9 (concat [zeros]) <> fips_pad 64 9 (concat [zeros]).
Proof.
  intros zeros.
  assert (Hl : 2 ^ 29 <= Z.of_nat (length (concat [zeros])) < 2 ^ 31).
  { cbn [concat]. rewrite app_nil_r. unfold zeros. rewrite length_replicate, Z2Nat.id; pow_norm; lia. }
  clearbody zeros.
  exact (proj2 (proj1 (sha2_length_field_wraps (sha_raw 64) (sha_raw 128) [zeros] eq_refl eq_refl Hl))).
Defined.
