(* ===== verification/Vector.v ===== *)
(** * The kernel's vector and the scheduler's peer list
      (kernel/src/runtime/Vector.h, kernel/src/sched/PeerList.cpp)

    A vector is its storage, as long as the reserved part, and the number of
    elements in use; what lies behind those is kept, since the code can bring it
    back.  Memory that [realloc] adds has the contents [raw].  An access that a
    [REQUIRE] refuses is a panic. *)

From stdpp Require Import sorting.
From S2P Require Import Prelude.

Record Vector (A : Type) := Vec { numAllocated : nat; storage : list A }.
Arguments Vec {A} _ _.
Arguments numAllocated {A} _.
Arguments storage {A} _.

(** The elements in use. *)
Definition elems {A} (v : Vector A) : list A := take (numAllocated v) (storage v).
Definition vector_ok {A} (v : Vector A) : Prop := (numAllocated v <= length (storage v))%nat.

Definition newVector {A} : Vector A := Vec 0 [].

Section Vector.
Context {A : Type}.
(** The value of [T()] and the contents of fresh memory. *)
Context (T0 : A) (raw : nat -> A).

Definition vsize (v : Vector A) : nat := numAllocated v.
Definition vempty (v : Vector A) : bool := Nat.eqb (numAllocated v) 0.
Definition vcapacity (v : Vector A) : nat := length (storage v).

(** [mem::Heap::realloc] of an array of [length l] to [n] elements. *)
Definition realloc (l : list A) (n : nat) : list A :=
  take n l ++ (raw <$> seq (length l) (n - length l)).

Definition vreserve (nItems : nat) (v : Vector A) : Vector A :=
  let n := if Nat.ltb nItems (numAllocated v) then nItems else numAllocated v in
  Vec n (realloc (storage v) nItems).

Fixpoint construct (l : list A) (i : nat) (n : nat) : list A :=
  match n with O => l | S n => construct (<[i := T0]> l) (S i) n end.

Definition vresize (nItems : nat) (v : Vector A) : Vector A :=
  if Nat.eqb nItems (numAllocated v) then v
  else if Nat.ltb nItems (numAllocated v) then Vec nItems (storage v)
  else
    let l := if Nat.ltb (length (storage v)) nItems then realloc (storage v) nItems else storage v in
    Vec nItems (construct l (numAllocated v) (nItems - numAllocated v)).

Definition ensureStorage (v : Vector A) : Vector A :=
  if Nat.eqb (length (storage v)) (numAllocated v) then
    let nItems := (length (storage v) + 64)%nat in
    Vec (numAllocated v)
        (construct (realloc (storage v) nItems) (length (storage v)) (nItems - length (storage v)))
  else v.

(** A write inside the storage. *)
Definition put (i : nat) (x : A) (v : Vector A) : res (Vector A) :=
  if Nat.ltb i (length (storage v)) then Ok (Vec (numAllocated v) (<[i := x]> (storage v))) else Stuck.
Definition peek (i : nat) (v : Vector A) : res A := res_of (storage v !! i).

Definition vpush_back (x : A) (v : Vector A) : res (Vector A) :=
  let v := ensureStorage v in
  v ← put (numAllocated v) T0 v;
  v ← put (numAllocated v) x v;
  Ok (Vec (S (numAllocated v)) (storage v)).

(** The loop that makes room: [j] counts down and stops at 0. *)
Fixpoint insert_loop (index j : nat) (v : Vector A) : res (Vector A) :=
  match j with
  | O => Ok v
  | S j' =>
      x ← peek (index + j) v;
      v ← put (index + j + 1) x v;
      insert_loop index j' v
  end.
Definition vinsert (index : nat) (x : A) (v : Vector A) : res (Vector A) :=
  _ ← REQUIRE (Nat.leb index (numAllocated v));
  if Nat.eqb index (numAllocated v) then vpush_back x v
  else
    let v := ensureStorage v in
    let toMove := (numAllocated v - index)%nat in
    v ← insert_loop index (toMove - 1) v;
    v ← put index x v;
    Ok (Vec (S (numAllocated v)) (storage v)).

Fixpoint remove_loop (index j n : nat) (v : Vector A) : res (Vector A) :=
  match n with
  | O => Ok v
  | S n => x ← peek (index + j + 1) v; v ← put (index + j) x v; remove_loop index (S j) n v
  end.
Definition vremove (index : nat) (v : Vector A) : res (Vector A) :=
  _ ← REQUIRE (Nat.ltb index (numAllocated v));
  let toMove := (numAllocated v - index - 1)%nat in
  v ← remove_loop index 0 toMove v;
  Ok (Vec (numAllocated v - 1) (storage v)).

Definition vclear (v : Vector A) : Vector A := Vec 0 (storage v).

Definition vpop_back (v : Vector A) : res (Vector A) :=
  _ ← REQUIRE (negb (vempty v));
  Ok (Vec (numAllocated v - 1) (storage v)).

Definition vback (v : Vector A) : res A :=
  _ ← REQUIRE (negb (vempty v)); peek (numAllocated v - 1) v.
Definition vfront (v : Vector A) : res A :=
  _ ← REQUIRE (negb (vempty v)); peek 0 v.

(** [v[i]] and [v[i] = x]. *)
Definition vget (i : nat) (v : Vector A) : res A :=
  _ ← REQUIRE (Nat.ltb i (numAllocated v)); peek i v.
Definition vset (i : nat) (x : A) (v : Vector A) : res (Vector A) :=
  _ ← REQUIRE (Nat.ltb i (numAllocated v)); put i x v.

(** ** Contents *)

Implicit Types (v w : Vector A) (l : list A).

Lemma length_elems v : vector_ok v -> length (elems v) = numAllocated v.
Proof. intros. unfold elems. rewrite length_take. unfold vector_ok in *. lia. Qed.

Lemma elems_lookup v i : elems v !! i = if decide (i < numAllocated v)%nat then storage v !! i else None.
Proof. unfold elems. case_decide; [by apply lookup_take_lt|apply lookup_take_ge; lia]. Qed.

Lemma length_construct l i n : length (construct l i n) = length l.
Proof. revert l i. induction n as [|n IH]; intros l i; [done|]. cbn. by rewrite IH, length_insert. Qed.
Lemma construct_lookup l i n k : (k < i)%nat -> construct l i n !! k = l !! k.
Proof.
  revert l i. induction n as [|n IH]; intros l i Hk; [done|]. cbn.
  rewrite IH by lia. by rewrite list_lookup_insert_ne by lia.
Qed.
Lemma length_realloc l n : length (realloc l n) = n.
Proof. unfold realloc. rewrite length_app, length_take, length_fmap, length_seq. lia. Qed.
Lemma realloc_lookup l n k : (k < n)%nat -> (k < length l)%nat -> realloc l n !! k = l !! k.
Proof. intros. unfold realloc. rewrite lookup_app_l; [by apply lookup_take_lt|]. rewrite length_take. lia. Qed.

(** The storage that [ensureStorage] leaves has room for one more element and
    the same elements. *)
Lemma ensureStorage_ok v :
  vector_ok v -> let v' := ensureStorage v in
  numAllocated v' = numAllocated v /\ (numAllocated v < length (storage v'))%nat /\
  forall i, (i < numAllocated v)%nat -> storage v' !! i = storage v !! i.
Proof.
  unfold vector_ok, ensureStorage. intros Hv. destruct (Nat.eqb_spec (length (storage v)) (numAllocated v)) as [E|E]; cbn -[Nat.add].
  - split; [done|]. rewrite length_construct, length_realloc. split; [lia|].
    intros i Hi. rewrite construct_lookup, realloc_lookup by lia. done.
  - split; [done|]. split; [lia|done].
Qed.

Lemma put_ok v i x : (i < length (storage v))%nat -> put i x v = Ok (Vec (numAllocated v) (<[i := x]> (storage v))).
Proof. intros. unfold put. by rewrite (proj2 (Nat.ltb_lt _ _)). Qed.

(** Two vectors with the same elements, position by position. *)
Lemma elems_eq n l l' :
  (n <= length l)%nat -> (n <= length l')%nat -> (forall i, (i < n)%nat -> l !! i = l' !! i) -> take n l = take n l'.
Proof.
  intros Hl Hl' H. apply list_eq. intros i. destruct (decide (i < n)%nat).
  - rewrite !lookup_take_lt by done. auto.
  - by rewrite !lookup_take_ge by lia.
Qed.

Lemma vpush_back_ok v x :
  vector_ok v -> exists v', vpush_back x v = Ok v' /\ vector_ok v' /\ elems v' = elems v ++ [x].
Proof.
  intros Hv. unfold vpush_back. destruct (ensureStorage_ok v Hv) as (E1 & E2 & E3).
  set (w := ensureStorage v) in *. rewrite put_ok by lia. cbn. rewrite put_ok by (cbn; rewrite length_insert; lia). cbn.
  eexists. split; [done|]. rewrite list_insert_insert_eq. unfold vector_ok, elems. cbn [numAllocated storage].
  rewrite length_insert. split; [lia|]. rewrite E1.
  assert (<[numAllocated v := x]> (storage w) !! numAllocated v = Some x) as Hx by (by rewrite list_lookup_insert_eq by lia).
  rewrite (take_S_r _ _ _ Hx). f_equal. rewrite take_insert_ge by lia.
  apply elems_eq; [lia|done|auto].
Qed.

Lemma vget_ok v i x : elems v !! i = Some x -> vget i v = Ok x.
Proof.
  rewrite elems_lookup. case_decide as E; [|done]. intros H. unfold vget, REQUIRE, peek.
  rewrite (proj2 (Nat.ltb_lt _ _)) by done. cbn. by rewrite H.
Qed.
Lemma vget_panic v i : vector_ok v -> elems v !! i = None -> vget i v = Panic.
Proof.
  intros Hv H%lookup_ge_None. rewrite length_elems in H by done. unfold vget, REQUIRE.
  by rewrite (proj2 (Nat.ltb_ge _ _)).
Qed.

Lemma vset_ok v i x :
  vector_ok v -> (i < length (elems v))%nat ->
  exists v', vset i x v = Ok v' /\ vector_ok v' /\ elems v' = <[i := x]> (elems v).
Proof.
  intros Hv. rewrite length_elems by done. intros Hi. unfold vset, REQUIRE.
  rewrite (proj2 (Nat.ltb_lt _ _)) by done. cbn. rewrite put_ok by (unfold vector_ok in Hv; lia).
  eexists. split; [done|]. unfold vector_ok, elems in *. cbn. rewrite length_insert. split; [done|].
  by rewrite take_insert_lt by lia.
Qed.

Lemma vempty_elems v : vector_ok v -> vempty v = bool_decide (elems v = []).
Proof.
  intros Hv. unfold vempty. pose proof (length_elems v Hv). destruct (Nat.eqb_spec (numAllocated v) 0) as [E|E].
  - rewrite bool_decide_eq_true_2; [done|]. apply nil_length_inv. lia.
  - rewrite bool_decide_eq_false_2; [done|]. intros En. rewrite En in *. cbn in *. lia.
Qed.

Lemma vempty_last v l x : vector_ok v -> elems v = l ++ [x] -> vempty v = false.
Proof. intros Hv E. rewrite vempty_elems by done. apply bool_decide_eq_false_2. rewrite E. by destruct l. Qed.

Lemma vback_ok v l x : vector_ok v -> elems v = l ++ [x] -> vback v = Ok x.
Proof.
  intros Hv E. unfold vback, REQUIRE. rewrite (vempty_last v l x) by done. cbn.
  pose proof (length_elems v Hv) as Hn. rewrite E, length_app in Hn. cbn in Hn.
  assert (elems v !! (numAllocated v - 1)%nat = Some x) as Hx.
  { rewrite E. replace (numAllocated v - 1)%nat with (length l) by lia. by rewrite list_lookup_middle. }
  rewrite elems_lookup in Hx. case_decide; [|done]. unfold peek. by rewrite Hx.
Qed.

Lemma vpop_back_ok v l x :
  vector_ok v -> elems v = l ++ [x] -> exists v', vpop_back v = Ok v' /\ vector_ok v' /\ elems v' = l.
Proof.
  intros Hv E. unfold vpop_back, REQUIRE. rewrite (vempty_last v l x) by done. cbn.
  pose proof (length_elems v Hv) as Hn. rewrite E, length_app in Hn. cbn in Hn.
  eexists. split; [done|]. unfold vector_ok in *. cbn. split; [lia|]. unfold elems in *. cbn.
  replace (numAllocated v - 1)%nat with (length l) by lia.
  replace (take (length l) (storage v)) with (take (length l) (take (numAllocated v) (storage v))) by (rewrite take_take; f_equal; lia).
  rewrite E. by rewrite take_app_length.
Qed.

Lemma remove_loop_spec index n : forall j v,
  (index + j + n < length (storage v))%nat ->
  exists v', remove_loop index j n v = Ok v' /\ numAllocated v' = numAllocated v /\
    length (storage v') = length (storage v) /\
    forall k, storage v' !! k = if decide (index + j <= k < index + j + n)%nat then storage v !! S k else storage v !! k.
Proof.
  induction n as [|n IH]; intros j v Hn.
  - exists v. split_and!; [done..|]. intros k. rewrite decide_False by lia. done.
  - cbn [remove_loop]. unfold peek. destruct (lookup_lt_is_Some_2 (storage v) (index + j + 1)) as [x Hx]; [lia|].
    rewrite Hx. cbn [mbind res_bind res_of]. rewrite put_ok by lia. cbn [mbind res_bind].
    destruct (IH (S j) (Vec (numAllocated v) (<[(index + j)%nat := x]> (storage v)))) as (v' & -> & E1 & E2 & E3).
    { cbn. rewrite length_insert. lia. }
    exists v'. cbn in *. rewrite length_insert in E2. split_and!; [done..|]. intros k. rewrite E3.
    destruct (decide (k = index + j)%nat) as [->|Hk].
    + repeat case_decide; try lia. rewrite list_lookup_insert_eq by lia. rewrite <- Hx. f_equal. lia.
    + repeat case_decide; try lia; by rewrite list_lookup_insert_ne by lia.
Qed.

Lemma insert_loop_spec index j : forall v,
  (index + j + 1 < length (storage v))%nat ->
  exists v', insert_loop index j v = Ok v' /\ numAllocated v' = numAllocated v /\
    length (storage v') = length (storage v) /\
    forall k, storage v' !! k =
      if decide (index + 2 <= k <= index + j + 1)%nat then storage v !! (k - 1)%nat else storage v !! k.
Proof.
  induction j as [|j IH]; intros v Hn.
  - exists v. split_and!; [done..|]. intros k. rewrite decide_False by lia. done.
  - cbn [insert_loop]. unfold peek. destruct (lookup_lt_is_Some_2 (storage v) (index + S j)) as [x Hx]; [lia|].
    rewrite Hx. cbn [mbind res_bind res_of]. rewrite put_ok by lia. cbn [mbind res_bind].
    destruct (IH (Vec (numAllocated v) (<[(index + S j + 1)%nat := x]> (storage v)))) as (v' & -> & E1 & E2 & E3).
    { cbn. rewrite length_insert. lia. }
    exists v'. cbn in *. rewrite length_insert in E2. split_and!; [done..|]. intros k. rewrite E3.
    destruct (decide (k = index + S j + 1)%nat) as [->|Hk].
    + repeat case_decide; try lia. rewrite list_lookup_insert_eq by lia. rewrite <- Hx. f_equal. lia.
    + repeat case_decide; try lia; by rewrite list_lookup_insert_ne by lia.
Qed.

Lemma vremove_ok v i :
  vector_ok v -> (i < length (elems v))%nat ->
  exists v', vremove i v = Ok v' /\ vector_ok v' /\ elems v' = delete i (elems v).
Proof.
  intros Hv. rewrite length_elems by done. intros Hi. unfold vremove, REQUIRE, vector_ok in *.
  rewrite (proj2 (Nat.ltb_lt _ _)) by done. cbn [mbind res_bind].
  destruct (remove_loop_spec i (numAllocated v - i - 1) 0 v) as (w & -> & E1 & E2 & E3); [lia|]. cbn [mbind res_bind].
  eexists. split; [done|]. cbn [numAllocated storage]. split; [lia|]. apply list_eq. intros k. rewrite elems_lookup. cbn [numAllocated storage].
  rewrite E1. destruct (decide (k < i)%nat).
  - rewrite list_lookup_delete_lt by done. rewrite decide_True by lia. rewrite E3, decide_False by lia.
    rewrite elems_lookup. by rewrite decide_True by lia.
  - rewrite list_lookup_delete_ge by lia. rewrite elems_lookup. destruct (decide (S k < numAllocated v)%nat).
    + rewrite decide_True by lia. rewrite E3. by rewrite decide_True by lia.
    + by rewrite decide_False by lia.
Qed.

(** An insertion before the end: the element at the index is overwritten and
    its successor appears twice, or, at the last element, the old contents of
    the storage behind it. *)
Lemma vinsert_middle v i x :
  vector_ok v -> (i < length (elems v))%nat ->
  exists v' y, vinsert i x v = Ok v' /\ vector_ok v' /\
    elems v' = take i (elems v) ++ x :: y :: drop (S i) (elems v) /\
    (forall z, elems v !! S i = Some z -> y = z) /\
    (S i = length (elems v) -> storage (ensureStorage v) !! S i = Some y).
Proof.
  intros Hv. rewrite length_elems by done. intros Hi. unfold vinsert, REQUIRE.
  rewrite (proj2 (Nat.leb_le _ _)) by lia. cbn [mbind res_bind].
  destruct (Nat.eqb_spec i (numAllocated v)); [lia|].
  destruct (ensureStorage_ok v Hv) as (E1 & E2 & E3). set (w := ensureStorage v) in *. rewrite E1.
  destruct (insert_loop_spec i (numAllocated v - i - 1) w) as (w' & -> & F1 & F2 & F3); [lia|]. cbn [mbind res_bind].
  rewrite put_ok by lia. cbn [mbind res_bind numAllocated storage].
  destruct (lookup_lt_is_Some_2 (storage w) (S i)) as [y Hy]; [lia|].
  eexists _, y. split; [done|]. unfold vector_ok. cbn [numAllocated storage]. rewrite length_insert. split; [lia|].
  split; [|split; [intros z; rewrite elems_lookup; case_decide; [|done]; rewrite E3 in Hy by lia; congruence|done]].
  apply list_eq. intros k. rewrite elems_lookup. cbn [numAllocated storage]. rewrite F1, E1.
  assert (length (take i (elems v)) = i) as Ht by (rewrite length_take, length_elems by done; lia).
  destruct (decide (k < i)%nat).
  { rewrite decide_True by lia. rewrite list_lookup_insert_ne by lia. rewrite F3, decide_False by lia. rewrite E3 by lia.
    rewrite lookup_app_l by lia. rewrite lookup_take_lt by lia. rewrite elems_lookup. by rewrite decide_True by lia. }
  rewrite lookup_app_r by lia. rewrite Ht. destruct (decide (k = i)) as [->|].
  { rewrite decide_True by lia. rewrite list_lookup_insert_eq by lia. by rewrite Nat.sub_diag. }
  rewrite list_lookup_insert_ne by lia. destruct (decide (k = S i)) as [->|].
  { rewrite decide_True by lia. rewrite F3, decide_False by lia. replace (S i - i)%nat with 1%nat by lia. done. }
  replace (k - i)%nat with (S (S (k - i - 2))) by lia.
  change ((x :: y :: drop (S i) (elems v)) !! S (S (k - i - 2))) with (drop (S i) (elems v) !! (k - i - 2)%nat).
  rewrite lookup_drop, elems_lookup. replace (S i + (k - i - 2))%nat with (k - 1)%nat by lia.
  destruct (decide (k < S (numAllocated v))%nat).
  - rewrite (decide_True (P := (k - 1 < numAllocated v)%nat)) by lia. rewrite F3, decide_True by lia. apply E3. lia.
  - by rewrite decide_False by lia.
Qed.

End Vector.

(** ** The peer list of a scheduler *)

Record InstanceInfo := { coreId : Z; instance : option Z }.
(** [InstanceInfo()]: core 0 and no scheduler. *)
Definition noInstance : InstanceInfo := {| coreId := 0; instance := None |}.

Section PeerList.
Context (platform_core_distance : Z -> Z -> Z) (raw : nat -> InstanceInfo).

(** The inner loop of [build]: the first position whose cost is not lower. *)
Fixpoint find_index (myId cost : Z) (n i : nat) (peers : Vector InstanceInfo) : res nat :=
  match n with
  | O => Ok i
  | S n =>
      peer ← vget i peers;
      if cost <=? platform_core_distance myId (coreId peer) then Ok i
      else find_index myId cost n (S i) peers
  end.

Fixpoint build_loop (myId : Z) (scheds : list InstanceInfo) (peers : Vector InstanceInfo) : res (Vector InstanceInfo) :=
  match scheds with
  | [] => Ok peers
  | info :: scheds =>
      let cost := platform_core_distance myId (coreId info) in
      i ← find_index myId cost (vsize peers) 0 peers;
      peers ← vinsert noInstance raw i info peers;
      build_loop myId scheds peers
  end.

(** The new list and the dirty flag. *)
Definition build (myId : Z) (gSchedulers peers : Vector InstanceInfo) (dirty : bool) : res (Vector InstanceInfo * bool) :=
  let peers := vclear peers in
  let numSchedulers := vsize gSchedulers in
  if Nat.eqb numSchedulers 1 then Ok (peers, dirty)
  else
    let peers := vreserve raw (numSchedulers - 1) peers in
    peers ← build_loop myId (elems gSchedulers) peers;
    Ok (peers, false).

Definition cost_of (myId : Z) (i : InstanceInfo) : Z := platform_core_distance myId (coreId i).

Lemma find_index_end myId cost n : forall i peers,
  vector_ok peers -> (i + n = length (elems peers))%nat ->
  (forall j x, (i <= j)%nat -> elems peers !! j = Some x -> cost_of myId x < cost) ->
  find_index myId cost n i peers = Ok (i + n)%nat.
Proof.
  induction n as [|n IH]; intros i peers Hv Hn Hc; cbn [find_index]; [by rewrite Nat.add_0_r|].
  destruct (lookup_lt_is_Some_2 (elems peers) i) as [x Hx]; [lia|]. rewrite (vget_ok _ _ _ Hx). cbn [mbind res_bind].
  pose proof (Hc i x ltac:(lia) Hx) as H. unfold cost_of in H. replace (cost <=? _) with false by blia.
  rewrite IH; [f_equal; lia|done|lia|]. intros j y Hj. apply Hc. lia.
Qed.

Lemma build_loop_sorted myId scheds : forall peers,
  vector_ok peers -> Sorted (fun a b => cost_of myId a < cost_of myId b) (elems peers ++ scheds) ->
  exists peers', build_loop myId scheds peers = Ok peers' /\ vector_ok peers' /\ elems peers' = elems peers ++ scheds.
Proof.
  induction scheds as [|info scheds IH]; intros peers Hv Hs; cbn [build_loop].
  - exists peers. by rewrite app_nil_r.
  - change (vsize peers) with (numAllocated peers). rewrite <- length_elems by done.
    rewrite (find_index_end myId _ (length (elems peers)) 0 peers); [|done|done|].
    2:{ intros j x _ Hx. apply Sorted_StronglySorted in Hs; [|intros a b c; lia].
        change (cost_of myId x < cost_of myId info).
        eapply (StronglySorted_app_1_elem_of (fun a b => cost_of myId a < cost_of myId b)); [exact Hs|by eapply list_elem_of_lookup_2|by left]. }
    cbn [mbind res_bind]. unfold vinsert, REQUIRE. rewrite !length_elems, Nat.leb_refl, Nat.eqb_refl by done. cbn [mbind res_bind].
    destruct (vpush_back_ok noInstance raw peers info Hv) as (v & -> & Hv' & E). cbn [mbind res_bind].
    destruct (IH v Hv') as (v' & -> & Hv'' & E'); [by rewrite E, <- app_assoc|].
    exists v'. split_and!; [done..|]. by rewrite E', E, <- app_assoc.
Qed.

(** [platform_core_distance] of the only platform
    (kernel/platform/pc64/src/platform.cpp). *)
Definition pc64_core_distance (a b : Z) : Z := 0.

End PeerList.

(** The operations of the vector on its elements.  Appending, reading,
    writing, removing and popping do what they say, and an access outside the
    elements panics.  An insertion before the end does not shift the element at
    its position: it overwrites it, and the place behind the new element keeps
    its old contents. *)
Theorem vector_spec {A : Type} (T0 : A) (raw : nat -> A) (v : Vector A) (i : nat) (x : A) :
  vector_ok v ->
  (exists v', vpush_back T0 raw x v = Ok v' /\ vector_ok v' /\ elems v' = elems v ++ [x]) /\
  vget i v = (match elems v !! i with Some y => Ok y | None => Panic end) /\
  (if decide (i < length (elems v))%nat then
     (exists v', vset i x v = Ok v' /\ vector_ok v' /\ elems v' = <[i := x]> (elems v)) /\
     (exists v', vremove i v = Ok v' /\ vector_ok v' /\ elems v' = delete i (elems v)) /\
     (exists v' y, vinsert T0 raw i x v = Ok v' /\ vector_ok v' /\
        elems v' = take i (elems v) ++ x :: y :: drop (S i) (elems v) /\
        (forall z, elems v !! S i = Some z -> y = z))
   else vset i x v = Panic /\ vremove i v = Panic) /\
  (forall l, elems v = l ++ [x] -> exists v', vpop_back v = Ok v' /\ vector_ok v' /\ elems v' = l /\ vback v = Ok x) /\
  (elems v = [] -> vpop_back v = Panic /\ vback v = Panic /\ vfront v = Panic).
Proof.
  intros Hv. split_and!.
  - by apply vpush_back_ok.
  - destruct (elems v !! i) eqn:E; [by apply vget_ok|by apply vget_panic].
  - case_decide as E.
    + split_and!; [by apply vset_ok|by apply vremove_ok|].
      destruct (vinsert_middle T0 raw v i x Hv E) as (v' & y & H1 & H2 & H3 & H4 & _); eauto 10.
    + rewrite length_elems in E by done. unfold vset, vremove, REQUIRE.
      by rewrite (proj2 (Nat.ltb_ge _ _)) by lia.
  - intros l E. destruct (vpop_back_ok v l x Hv E) as (v' & H1 & H2 & H3). exists v'. eauto using vback_ok.
  - intros E. unfold vpop_back, vback, vfront, REQUIRE. rewrite (vempty_elems v Hv), E. done.
Qed.

(** The peer list of a scheduler.  When the schedulers registered in the
    order of strictly rising distance, building gives all of them, its own one
    included.  On the platform there is, where every distance is 0, a system of
    two cores gets a list with the second scheduler and an entry without one:
    the first scheduler is lost. *)
Theorem peer_list_build (dist : Z -> Z -> Z) (raw : nat -> InstanceInfo) (myId : Z)
    (gSchedulers peers : Vector InstanceInfo) (a b : InstanceInfo) :
  vector_ok gSchedulers -> vector_ok peers ->
  ((2 <= length (elems gSchedulers))%nat ->
   Sorted (fun x y => dist myId (coreId x) < dist myId (coreId y)) (elems gSchedulers) ->
   exists p, build dist raw myId gSchedulers peers true = Ok (p, false) /\ elems p = elems gSchedulers) /\
  (elems gSchedulers = [a; b] ->
   exists p, build pc64_core_distance raw myId gSchedulers peers true = Ok (p, false) /\ elems p = [b; noInstance]).
Proof.
  intros Hg Hp. unfold build. change (vsize gSchedulers) with (numAllocated gSchedulers).
  rewrite <- (length_elems gSchedulers) by done. split.
  - intros Hl Hs. destruct (Nat.eqb_spec (length (elems gSchedulers)) 1); [lia|].
    destruct (build_loop_sorted dist raw myId (elems gSchedulers)
      (vreserve raw (length (elems gSchedulers) - 1) (vclear peers))) as (p & -> & _ & E).
    + unfold vector_ok, vreserve. cbn. lia.
    + exact Hs.
    + exists p. split; [done|]. rewrite E. unfold vreserve. cbn. done.
  - intros ->. cbn [length Nat.eqb Nat.sub]. unfold vreserve, vclear. cbn [numAllocated storage Nat.ltb Nat.leb].
    assert (exists c, realloc raw (storage peers) 1 = [c]) as [c ->].
    { pose proof (length_realloc raw (storage peers) 1). destruct (realloc raw (storage peers) 1) as [|c [|]]; try done. by exists c. }
    eexists. split; [reflexivity|]. reflexivity.
Qed.

Lemma vector_spec_witness :
  exists v', vinsert 0 (fun _ => 99) 0 7 (Vec 2 [1; 2; 3]) = Ok v' /\ elems v' = [7; 2; 2].
Proof.
  destruct (vector_spec 0 (fun _ => 99) (Vec 2 [1; 2; 3]) 0 7) as (_ & _ & (_ & _ & v' & y & E & _ & F & _) & _).
  - cbn. unfold vector_ok. cbn. lia.
  - exists v'. split; [exact E|]. vm_compute in E. injection E as <-. reflexivity.
Defined.

Lemma peer_list_build_witness :
  exists p, build pc64_core_distance (fun _ => noInstance) 0
    (Vec 2 [{| coreId := 0; instance := Some 10 |}; {| coreId := 1; instance := Some 11 |}]) newVector true = Ok (p, false) /\
    elems p = [{| coreId := 1; instance := Some 11 |}; noInstance].
Proof.
  apply (peer_list_build pc64_core_distance (fun _ => noInstance) 0
    (Vec 2 [{| coreId := 0; instance := Some 10 |}; {| coreId := 1; instance := Some 11 |}]) newVector
    {| coreId := 0; instance := Some 10 |}); [unfold vector_ok; cbn; lia|unfold vector_ok; cbn; lia|reflexivity].
Defined.
