(* ===== verification/MinHeap.v ===== *)
(** * The min-heap of the kernel (kernel/src/runtime/MinHeap.h)

    A binary heap in a vector, ordered by a key of its elements.  The sift loops
    are recursive in the source; their fuel here is bounded by the number of
    elements, and the theorems show that it is never used up. *)

From stdpp Require Import sorting.
From S2P Require Import Prelude Vector.

Section MinHeap.
Context {A : Type} (key : A -> Z) (T0 : A) (raw : nat -> A).

Definition Parent (i : nat) : nat := ((i - 1) / 2)%nat.
Definition Left (i : nat) : nat := (2 * i + 1)%nat.
Definition Right (i : nat) : nat := (2 * i + 2)%nat.

(** [swap(storage[i], storage[j])]. *)
Definition heap_swap (i j : nat) (v : Vector A) : res (Vector A) :=
  a ← vget i v;
  b ← vget j v;
  v ← vset i b v;
  vset j a v.

Fixpoint heapifyUp (fuel i : nat) (v : Vector A) : res (Vector A) :=
  match fuel with
  | O => Stuck
  | S fuel =>
      if Nat.eqb i 0 then Ok v
      else
        p ← vget (Parent i) v;
        x ← vget i v;
        if key x <? key p then
          v ← heap_swap i (Parent i) v;
          heapifyUp fuel (Parent i) v
        else Ok v
  end.

(** Whether the element at [j] exists and is smaller than the one at [i]. *)
Definition smaller (j i : nat) (v : Vector A) : res bool :=
  if Nat.ltb j (vsize v) then
    x ← vget j v;
    y ← vget i v;
    Ok (key x <? key y)
  else Ok false.

Fixpoint heapifyDown (fuel i : nat) (v : Vector A) : res (Vector A) :=
  match fuel with
  | O => Stuck
  | S fuel =>
      let left := Left i in
      let right := Right i in
      l ← smaller left i v;
      let smallest := if l : bool then left else i in
      r ← smaller right smallest v;
      let smallest := if r : bool then right else smallest in
      if negb (Nat.eqb smallest i) then
        v ← heap_swap i smallest v;
        heapifyDown fuel smallest v
      else Ok v
  end.

Definition heap_insert (x : A) (v : Vector A) : res (Vector A) :=
  v ← vpush_back T0 raw x v;
  let idx := (vsize v - 1)%nat in
  heapifyUp (S idx) idx v.

Definition heap_extract (v : Vector A) : res (Vector A) :=
  _ ← REQUIRE (negb (vempty v));
  x ← vback v;
  v ← vset 0 x v;
  v ← vpop_back v;
  heapifyDown (S (vsize v)) 0 v.

Definition heap_min (v : Vector A) : res A :=
  _ ← REQUIRE (negb (vempty v)); vfront v.

Definition heap_remove (i : nat) (v : Vector A) : res (Vector A) :=
  x ← vget i v;
  b ← vback v;
  let down := negb (key b <? key x) in
  v ← heap_swap i (vsize v - 1) v;
  v ← vpop_back v;
  if down then heapifyDown (S (vsize v)) i v else heapifyUp (S i) i v.

(** [enumerateObjects]: the callback gives whether to go on and whether to
    remove the element, and keeps a state of its own. *)
Fixpoint enumerate_loop {C} (callback : C -> A -> bool * bool * C) (fuel i : nat) (c : C) (v : Vector A)
    : res (C * Vector A) :=
  match fuel with
  | O => Stuck
  | S fuel =>
      if Nat.ltb i (vsize v) then
        x ← vget i v;
        let '(cont, remove, c) := callback c x in
        if (remove : bool) then
          v ← heap_remove i v;
          if (cont : bool) then enumerate_loop callback fuel i c v else Ok (c, v)
        else if (cont : bool) then enumerate_loop callback fuel (S i) c v else Ok (c, v)
      else Ok (c, v)
  end.
Definition enumerateObjects {C} (callback : C -> A -> bool * bool * C) (c : C) (v : Vector A) : res (C * Vector A) :=
  enumerate_loop callback (S (vsize v)) 0 c v.

(** ** Heap order *)

Implicit Types (l : list A) (v : Vector A).

Definition edge_ok l (i j : nat) : Prop :=
  forall x y, l !! i = Some x -> l !! j = Some y -> key x <= key y.
Definition heap l : Prop := forall j, (0 < j)%nat -> edge_ok l (Parent j) j.

(** The order except between [i] and its parent, and except between [i] and
    its children. *)
Definition up_inv l (i : nat) : Prop :=
  (forall j, (0 < j)%nat -> j <> i -> edge_ok l (Parent j) j) /\
  (forall j, (0 < j)%nat -> Parent j = i -> (0 < i)%nat -> edge_ok l (Parent i) j).
Definition down_inv l (i : nat) : Prop :=
  (forall j, (0 < j)%nat -> Parent j <> i -> edge_ok l (Parent j) j) /\
  (forall j, (0 < j)%nat -> Parent j = i -> (0 < i)%nat -> edge_ok l (Parent i) j).

Lemma Parent_lt i : (0 < i)%nat -> (Parent i < i)%nat.
Proof. intros. unfold Parent. apply Nat.Div0.div_lt_upper_bound. lia. Qed.
Lemma Parent_children i j : (0 < j)%nat -> Parent j = i <-> j = Left i \/ j = Right i.
Proof.
  unfold Parent, Left, Right. intros. split.
  - intros <-. pose proof (Nat.div_mod_eq (j - 1) 2). pose proof (Nat.mod_upper_bound (j - 1) 2). lia.
  - intros [->| ->]; symmetry; [apply (Nat.div_unique _ _ _ 0)|apply (Nat.div_unique _ _ _ 1)]; lia.
Qed.

Lemma swap_lookup l i j x y k :
  l !! i = Some x -> l !! j = Some y ->
  <[j := x]> (<[i := y]> l) !! k = if decide (k = j) then Some x else if decide (k = i) then Some y else l !! k.
Proof.
  intros Hi%lookup_lt_Some Hj%lookup_lt_Some. destruct (decide (k = j)) as [->|].
  - by rewrite list_lookup_insert_eq by (rewrite length_insert; lia).
  - rewrite list_lookup_insert_ne by done. destruct (decide (k = i)) as [->|].
    + by rewrite list_lookup_insert_eq by lia.
    + by rewrite list_lookup_insert_ne by done.
Qed.

Lemma heap_swap_ok v i j x y :
  vector_ok v -> elems v !! i = Some x -> elems v !! j = Some y ->
  exists v', heap_swap i j v = Ok v' /\ vector_ok v' /\ elems v' = <[j := x]> (<[i := y]> (elems v)).
Proof.
  intros Hv Hi Hj. unfold heap_swap. rewrite (vget_ok _ _ _ Hi), (vget_ok _ _ _ Hj). cbn [mbind res_bind].
  destruct (vset_ok v i y Hv) as (w & -> & Hw & E); [by eapply lookup_lt_Some|]. cbn [mbind res_bind].
  destruct (vset_ok w j x Hw) as (w' & -> & Hw' & E'); [rewrite E, length_insert; by eapply lookup_lt_Some|].
  exists w'. by rewrite E', E.
Qed.

(** One step up and one step down keep the weak orders. *)
Lemma up_step l i x y :
  (0 < i)%nat -> l !! i = Some x -> l !! Parent i = Some y -> key x < key y -> up_inv l i ->
  up_inv (<[Parent i := x]> (<[i := y]> l)) (Parent i).
Proof.
  intros Hi Hx Hy Hk [U1 U2]. pose proof (Parent_lt i Hi) as Hp.
  split; intros j Hj Hne; [|intros Hp0]; intros a b; rewrite !(swap_lookup l i (Parent i) x y) by done.
  - rewrite (decide_False (P := j = Parent i)) by done. destruct (decide (j = i)) as [->|Hji].
    + rewrite decide_True by done. intros [= <-] [= <-]. lia.
    + destruct (decide (Parent j = Parent i)) as [E|E].
      * intros [= <-] Hb. pose proof (U1 j Hj Hji y b) as H. rewrite E in H. specialize (H Hy Hb). lia.
      * destruct (decide (Parent j = i)) as [E'|E'].
        -- intros [= <-] Hb. exact (U2 j Hj E' Hi y b Hy Hb).
        -- intros Ha Hb. exact (U1 j Hj Hji a b Ha Hb).
  - pose proof (Parent_lt (Parent i) Hp0) as Hpp. rewrite (decide_False (P := Parent (Parent i) = Parent i)) by lia.
    rewrite (decide_False (P := Parent (Parent i) = i)) by lia. intros Ha.
    pose proof (U1 (Parent i) Hp0 ltac:(lia) a y Ha Hy) as Hay.
    rewrite decide_False by (pose proof (Parent_lt j Hj); lia). destruct (decide (j = i)) as [->|Hji]; intros Hb.
    + congruence.
    + pose proof (U1 j Hj Hji y b) as H. rewrite Hne in H. specialize (H Hy Hb). lia.
Qed.

Lemma down_step l i c x z :
  (0 < c)%nat -> Parent c = i -> l !! i = Some x -> l !! c = Some z -> key z < key x ->
  (forall j w, (0 < j)%nat -> Parent j = i -> l !! j = Some w -> key z <= key w) -> down_inv l i ->
  down_inv (<[c := x]> (<[i := z]> l)) c.
Proof.
  intros Hc Hpc Hx Hz Hk Hmin [D1 D2]. pose proof (Parent_lt c Hc) as Hp.
  split; intros j Hj Hne; [|intros _]; intros a b; rewrite !(swap_lookup l i c x z) by done.
  - rewrite (decide_False (P := Parent j = c)) by done. destruct (decide (j = c)) as [->|Hjc].
    + rewrite Hpc, decide_True by done. intros [= <-] [= <-]. lia.
    + destruct (decide (Parent j = i)) as [E|E].
      * pose proof (Parent_lt j Hj). rewrite (decide_False (P := j = i)) by lia. intros [= <-] Hb. by eapply Hmin.
      * destruct (decide (j = i)) as [->|Hji].
        -- intros Ha [= <-]. exact (D2 c Hc Hpc Hj a z Ha Hz).
        -- intros Ha Hb. exact (D1 j Hj E a b Ha Hb).
  - rewrite Hpc, (decide_False (P := i = c)), decide_True by (done || lia). intros [= <-].
    pose proof (Parent_lt j Hj). rewrite !decide_False by lia. intros Hb.
    pose proof (D1 j Hj) as H'. rewrite Hne in H'. exact (H' ltac:(lia) z b Hz Hb).
Qed.

Lemma heapifyUp_ok fuel : forall i v,
  (i < fuel)%nat -> vector_ok v -> (i < length (elems v))%nat -> up_inv (elems v) i ->
  exists v', heapifyUp fuel i v = Ok v' /\ vector_ok v' /\ heap (elems v') /\ elems v' ≡ₚ elems v.
Proof.
  induction fuel as [|fuel IH]; intros i v Hf Hv Hi U; [lia|]. cbn [heapifyUp].
  destruct (Nat.eqb_spec i 0) as [->|Hi0].
  { exists v. split_and!; [done..| |done]. intros j Hj. apply U; lia. }
  pose proof (Parent_lt i ltac:(lia)).
  destruct (lookup_lt_is_Some_2 (elems v) i Hi) as [x Hx].
  destruct (lookup_lt_is_Some_2 (elems v) (Parent i)) as [y Hy]; [lia|].
  rewrite (vget_ok _ _ _ Hx), (vget_ok _ _ _ Hy). cbn [mbind res_bind]. destruct (Z.ltb_spec (key x) (key y)) as [Hk|Hk].
  - destruct (heap_swap_ok v i (Parent i) x y Hv Hx Hy) as (w & -> & Hw & E). cbn [mbind res_bind].
    destruct (IH (Parent i) w) as (w' & -> & Hw' & Hh & Hp); [lia|done|rewrite E, !length_insert; lia| |].
    + rewrite E. apply up_step; (done || lia).
    + exists w'. split_and!; [done..|]. rewrite Hp, E. by apply Permutation_insert_swap.
  - exists v. split_and!; [done..| |done]. intros j Hj. destruct (decide (j = i)) as [->|].
    + intros a b Ha Hb. congruence.
    + by apply U.
Qed.

Lemma smaller_ok v i j x :
  vector_ok v -> elems v !! i = Some x ->
  smaller j i v = Ok (match elems v !! j with Some y => key y <? key x | None => false end).
Proof.
  intros Hv Hx. unfold smaller. change (vsize v) with (numAllocated v). rewrite <- length_elems by done.
  destruct (Nat.ltb_spec j (length (elems v))).
  - destruct (lookup_lt_is_Some_2 (elems v) j) as [y Hy]; [done|].
    rewrite (vget_ok _ _ _ Hy), (vget_ok _ _ _ Hx), Hy. done.
  - by rewrite lookup_ge_None_2.
Qed.

Lemma smaller_out v i j : vector_ok v -> (length (elems v) <= j)%nat -> smaller j i v = Ok false.
Proof.
  intros Hv Hj. unfold smaller. change (vsize v) with (numAllocated v). rewrite <- length_elems by done.
  by destruct (Nat.ltb_spec j (length (elems v))); [lia|].
Qed.

(** The child that [heapifyDown] descends to. *)
Lemma smallest_child l i x :
  l !! i = Some x ->
  let lt j y := match l !! j with Some z => key z <? key y | None => false end in
  let s1 := if lt (Left i) x then Left i else i in
  let y1 := match l !! s1 with Some y => y | None => x end in
  let s2 := if lt (Right i) y1 then Right i else s1 in
  (s2 = i /\ (forall j w, (0 < j)%nat -> Parent j = i -> l !! j = Some w -> key x <= key w)) \/
  (exists z, (0 < s2)%nat /\ Parent s2 = i /\ l !! s2 = Some z /\ key z < key x /\
     forall j w, (0 < j)%nat -> Parent j = i -> l !! j = Some w -> key z <= key w).
Proof.
  intros Hx. cbn zeta.
  assert ((0 < Left i)%nat /\ Parent (Left i) = i /\ (0 < Right i)%nat /\ Parent (Right i) = i) as (L1 & L2 & R1 & R2).
  { unfold Left, Right. split_and!; [lia| |lia|]; apply Parent_children; unfold Left, Right; lia. }
  assert (forall z, (forall w, l !! Left i = Some w -> key z <= key w) -> (forall w, l !! Right i = Some w -> key z <= key w) ->
    forall j w, (0 < j)%nat -> Parent j = i -> l !! j = Some w -> key z <= key w) as Hall.
  { intros z HL HR j w Hj Hpj Hw. apply (Parent_children i j Hj) in Hpj as [->| ->]; auto. }
  destruct (l !! Left i) as [a|] eqn:La; [destruct (Z.ltb_spec (key a) (key x))|]; rewrite ?La, ?Hx;
    destruct (l !! Right i) as [b|] eqn:Lb; try match goal with |- context [key b <? key ?y] => destruct (Z.ltb_spec (key b) (key y)) end;
    first [left; split; [done|]; apply Hall; intros w Hw; simplify_eq; lia
          |right; eexists; split_and!; [done|done|eassumption|lia|]; apply Hall; intros w Hw; simplify_eq; lia].
Qed.

Lemma heapifyDown_ok fuel : forall i v,
  (length (elems v) < fuel + i)%nat -> (0 < fuel)%nat -> vector_ok v -> (i <= length (elems v))%nat -> down_inv (elems v) i ->
  exists v', heapifyDown fuel i v = Ok v' /\ vector_ok v' /\ heap (elems v') /\ elems v' ≡ₚ elems v.
Proof.
  induction fuel as [|fuel IH]; intros i v Hf Hf0 Hv Hi D; [lia|]. cbn [heapifyDown].
  destruct (elems v !! i) as [x|] eqn:Hx.
  - rewrite (smaller_ok v i (Left i) x) by done. cbn [mbind res_bind].
    pose proof (smallest_child (elems v) i x Hx) as S. cbv beta zeta in S.
    set (s1 := if match elems v !! Left i with Some y => key y <? key x | None => false end then Left i else i) in *.
    assert (exists y1, elems v !! s1 = Some y1) as [y1 Hy1].
    { subst s1. destruct (elems v !! Left i) as [a|] eqn:E; [destruct (key a <? key x)|]; eauto. }
    rewrite Hy1 in S. rewrite (smaller_ok v s1 (Right i) y1) by done. cbn [mbind res_bind].
    set (s2 := if match elems v !! Right i with Some y => key y <? key y1 | None => false end then Right i else s1) in *.
    destruct S as [[Es Hmin]|(z & Hs0 & Hsp & Hz & Hk & Hmin)].
    + rewrite Es, Nat.eqb_refl. cbn [negb]. exists v. split_and!; [done..| |done]. intros j Hj a b Ha Hb.
      destruct (decide (Parent j = i)) as [E|E]; [|exact (proj1 D j Hj E a b Ha Hb)].
      rewrite E, Hx in Ha. injection Ha as <-. by eapply Hmin.
    + pose proof (Parent_lt s2 Hs0). destruct (Nat.eqb_spec s2 i); [lia|]. cbn [negb].
      destruct (heap_swap_ok v i s2 x z Hv Hx Hz) as (w & -> & Hw & E). cbn [mbind res_bind].
      pose proof (lookup_lt_Some _ _ _ Hz).
      destruct (IH s2 w) as (w' & -> & Hw' & Hh & Hp); [rewrite E, !length_insert; lia|lia|done|rewrite E, !length_insert; lia| |].
      * rewrite E. by apply down_step.
      * exists w'. split_and!; [done..|]. rewrite Hp, E. by apply Permutation_insert_swap.
  - apply lookup_ge_None in Hx. rewrite smaller_out by (done || unfold Left; lia). cbn [mbind res_bind].
    rewrite smaller_out by (done || unfold Right; lia). cbn [mbind res_bind]. rewrite Nat.eqb_refl. cbn [negb].
    exists v. split_and!; [done..| |done]. intros j Hj a b Ha Hb. destruct (decide (Parent j = i)) as [E|E]; [|exact (proj1 D j Hj E a b Ha Hb)].
    rewrite E in Ha. apply lookup_lt_Some in Ha. lia.
Qed.

(** ** The operations *)

(** The root is the least element. *)
Lemma heap_root l x : heap l -> l !! 0%nat = Some x -> forall i y, l !! i = Some y -> key x <= key y.
Proof.
  intros H H0 i. induction i as [i IH] using lt_wf_ind. intros y Hy. destruct (decide (i = 0%nat)) as [->|Hi].
  - by assert (x = y) as -> by congruence.
  - pose proof (Parent_lt i ltac:(lia)). destruct (lookup_lt_is_Some_2 l (Parent i)) as [p Hp].
    { apply lookup_lt_Some in Hy. lia. }
    pose proof (IH _ ltac:(done) p Hp). pose proof (H i ltac:(lia) p y Hp Hy). lia.
Qed.

Lemma heap_insert_ok v x :
  vector_ok v -> heap (elems v) ->
  exists v', heap_insert x v = Ok v' /\ vector_ok v' /\ heap (elems v') /\ elems v' ≡ₚ x :: elems v.
Proof.
  intros Hv Hh. unfold heap_insert. destruct (vpush_back_ok T0 raw v x Hv) as (w & -> & Hw & E). cbn [mbind res_bind].
  change (vsize w) with (numAllocated w). rewrite <- (length_elems w) by done.
  assert (length (elems w) = S (length (elems v))) as El by (rewrite E, length_app; cbn; lia). rewrite El.
  destruct (heapifyUp_ok (S (S (length (elems v)) - 1)) (S (length (elems v)) - 1) w) as (w' & -> & Hw' & Hh' & Hp); [lia|done|lia| |].
  - replace (S (length (elems v)) - 1)%nat with (length (elems v)) by lia. split.
    + intros j Hj Hne a b Ha Hb. rewrite E in Ha, Hb. pose proof (lookup_lt_Some _ _ _ Hb) as Hlb.
      rewrite length_app in Hlb. cbn in Hlb. pose proof (Parent_lt j Hj).
      rewrite lookup_app_l in Ha, Hb by lia. by eapply Hh.
    + intros j Hj Hpj _ a b _ Hb. apply lookup_lt_Some in Hb. pose proof (Parent_lt j Hj). lia.
  - exists w'. split_and!; [done..|]. rewrite Hp, E. by rewrite Permutation_app_comm.
Qed.

Lemma heap_min_ok v x l :
  vector_ok v -> heap (elems v) -> elems v = x :: l ->
  heap_min v = Ok x /\ forall y, y ∈ elems v -> key x <= key y.
Proof.
  intros Hv Hh E. assert (vempty v = false) as En by (rewrite vempty_elems, E by done; done). split.
  - unfold heap_min, vfront, REQUIRE. rewrite En. cbn. unfold peek.
    assert (elems v !! 0%nat = Some x) as H0 by (by rewrite E). rewrite elems_lookup in H0. case_decide; [|done]. by rewrite H0.
  - intros y [i Hy]%list_elem_of_lookup. eapply heap_root; [done| |done]. by rewrite E.
Qed.

Lemma last_split l : l <> [] -> exists l' b, l = l' ++ [b].
Proof. destruct l as [|b l' _] using rev_ind; [done|]. eauto. Qed.

Lemma heap_extract_ok v x l :
  vector_ok v -> heap (elems v) -> elems v = x :: l ->
  exists v', heap_extract v = Ok v' /\ vector_ok v' /\ heap (elems v') /\ elems v ≡ₚ x :: elems v'.
Proof.
  intros Hv Hh E. assert (vempty v = false) as En by (rewrite vempty_elems, E by done; done).
  destruct (last_split (elems v)) as (m & b & Em); [by rewrite E|].
  unfold heap_extract, REQUIRE. rewrite En. cbn [negb mbind res_bind]. rewrite (vback_ok v m b Hv Em). cbn [mbind res_bind].
  destruct (vset_ok v 0 b Hv) as (w & -> & Hw & Ew); [rewrite E; cbn; lia|]. cbn [mbind res_bind].
  assert (elems w = <[0%nat := b]> m ++ [b]) as Ew'.
  { rewrite Ew, Em. destruct m; done. }
  destruct (vpop_back_ok w _ _ Hw Ew') as (u & -> & Hu & Eu). cbn [mbind res_bind].
  change (vsize u) with (numAllocated u). rewrite <- (length_elems u) by done.
  destruct (heapifyDown_ok (S (length (elems u))) 0 u) as (u' & -> & Hu' & Hh' & Hp); [lia|lia|done|lia| |].
  - split; [|lia]. intros j Hj Hpj a c. rewrite Eu. pose proof (Parent_lt j Hj). rewrite !list_lookup_insert_ne by lia.
    intros Ha Hc. apply (Hh j Hj); rewrite Em; by apply lookup_app_l_Some.
  - exists u'. split_and!; [done..|]. rewrite Hp, Eu, Em. rewrite E in Em. destruct m as [|y m]; injection Em as <- ->.
    + done.
    + cbn. rewrite Permutation_app_comm. done.
Qed.

(** Removing the element at [i]: the last one takes its place. *)
Lemma moved_lookup l b i k y :
  <[i := b]> l !! k = Some y -> (k = i /\ y = b /\ (i < length l)%nat) \/ (k <> i /\ (l ++ [b]) !! k = Some y).
Proof.
  rewrite list_lookup_insert_Some. intros [(-> & -> & H)|(Hk & H)]; [by left|right].
  split; [done|]. by apply lookup_app_l_Some.
Qed.

Lemma moved_heap l b i x :
  heap (l ++ [b]) -> (l ++ [b]) !! i = Some x ->
  (key x <= key b -> down_inv (<[i := b]> l) i) /\ (key b < key x -> up_inv (<[i := b]> l) i).
Proof.
  intros Hh Hx.
  assert (forall j, (0 < j)%nat -> Parent j = i -> (0 < i)%nat -> edge_ok (<[i := b]> l) (Parent i) j) as H2.
  { intros j Hj Hpj Hi a c Ha Hc. pose proof (Parent_lt j Hj). pose proof (Parent_lt i Hi).
    apply moved_lookup in Ha as [[? _]|[_ Ha]]; [lia|]. apply moved_lookup in Hc as [[? _]|[_ Hc]]; [lia|].
    pose proof (Hh i Hi a x Ha Hx) as E1. pose proof (Hh j Hj) as E2. rewrite Hpj in E2. specialize (E2 x c Hx Hc). lia. }
  split; intros Hk; (split; [|done]); intros j Hj Hne a c Ha Hc; pose proof (Parent_lt j Hj).
  - apply moved_lookup in Ha as [[? _]|[_ Ha]]; [lia|]. apply moved_lookup in Hc as [[-> [-> _]]|[_ Hc]].
    + pose proof (Hh i Hj a x Ha Hx). lia.
    + by eapply (Hh j).
  - apply moved_lookup in Hc as [[? _]|[_ Hc]]; [lia|]. apply moved_lookup in Ha as [[Ei [-> _]]|[_ Ha]].
    + pose proof (Hh j Hj) as E2. rewrite Ei in E2. specialize (E2 x c Hx Hc). lia.
    + by eapply (Hh j).
Qed.

Lemma heap_remove_ok v i x :
  vector_ok v -> heap (elems v) -> elems v !! i = Some x ->
  exists v', heap_remove i v = Ok v' /\ vector_ok v' /\ heap (elems v') /\ elems v ≡ₚ x :: elems v'.
Proof.
  intros Hv Hh Hx. destruct (last_split (elems v)) as (m & b & Em); [by intros En; rewrite En in Hx|].
  unfold heap_remove. rewrite (vget_ok _ _ _ Hx), (vback_ok v m b Hv Em). cbn [mbind res_bind].
  assert (vsize v - 1 = length m)%nat as ->.
  { change (vsize v) with (numAllocated v). rewrite <- length_elems, Em, length_app by done. cbn. lia. }
  assert (elems v !! length m = Some b) as Hb by (rewrite Em; by apply list_lookup_middle).
  destruct (heap_swap_ok v i (length m) x b Hv Hx Hb) as (w & -> & Hw & Ew). cbn [mbind res_bind].
  pose proof (Permutation_insert_swap (elems v) i (length m) x b Hx Hb) as P. rewrite <- Ew in P.
  assert (elems w = <[i := b]> m ++ [x]) as Ew'.
  { rewrite Ew, Em. destruct (decide (i < length m)%nat) as [Hi|Hi].
    - rewrite insert_app_l by done. rewrite <- (length_insert m i b) at 1.
      rewrite insert_app_r_alt by lia. by rewrite Nat.sub_diag.
    - assert (i = length m) as ->. { apply lookup_lt_Some in Hx. rewrite Em, length_app in Hx. cbn in Hx. lia. }
      rewrite (list_insert_ge m) by lia. rewrite insert_app_r_alt by lia. rewrite Nat.sub_diag. cbn.
      rewrite insert_app_r_alt by lia. by rewrite Nat.sub_diag. }
  destruct (vpop_back_ok w _ _ Hw Ew') as (u & -> & Hu & Eu). cbn [mbind res_bind].
  change (vsize u) with (numAllocated u). rewrite <- (length_elems u) by done.
  assert (i <= length m)%nat as Hi. { apply lookup_lt_Some in Hx. rewrite Em, length_app in Hx. cbn in Hx. lia. }
  assert (length (elems u) = length m) as Elu by (by rewrite Eu, length_insert).
  rewrite Em in Hh, Hx. destruct (moved_heap m b i x Hh Hx) as [HD HU].
  assert (forall u', elems u' ≡ₚ elems u -> elems v ≡ₚ x :: elems u') as HP.
  { intros u' ->. rewrite <- P, Ew', Eu. by rewrite Permutation_app_comm. }
  destruct (Z.ltb_spec (key b) (key x)) as [Hk|Hk]; cbn [negb].
  - assert (i < length m)%nat.
    { destruct (decide (i = length m)) as [->|]; [|lia]. rewrite list_lookup_middle in Hx by done. injection Hx as <-. lia. }
    destruct (heapifyUp_ok (S i) i u) as (u' & -> & Hu' & Hh' & Hp); [lia|done|lia|rewrite Eu; auto|]. eauto 10.
  - destruct (heapifyDown_ok (S (length (elems u))) i u) as (u' & -> & Hu' & Hh' & Hp); [lia|lia|done|lia|rewrite Eu; auto|]. eauto 10.
Qed.

Lemma enumerate_ok {C} (callback : C -> A -> bool * bool * C) fuel : forall i c v,
  vector_ok v -> heap (elems v) -> (length (elems v) < fuel + i)%nat -> (0 < fuel)%nat ->
  exists c' v' removed, enumerate_loop callback fuel i c v = Ok (c', v') /\ vector_ok v' /\ heap (elems v') /\
    elems v ≡ₚ removed ++ elems v'.
Proof.
  induction fuel as [|fuel IH]; intros i c v Hv Hh Hf Hf0; [lia|]. cbn [enumerate_loop].
  change (vsize v) with (numAllocated v). rewrite <- length_elems by done.
  destruct (Nat.ltb_spec i (length (elems v))) as [Hi|Hi]; [|by exists c, v, []].
  destruct (lookup_lt_is_Some_2 (elems v) i Hi) as [x Hx]. rewrite (vget_ok _ _ _ Hx). cbn [mbind res_bind].
  destruct (callback c x) as [[cont remove] c1]. destruct remove.
  - destruct (heap_remove_ok v i x Hv Hh Hx) as (w & -> & Hw & Hh' & Hp). cbn [mbind res_bind].
    assert (length (elems v) = S (length (elems w))) as El by (by rewrite Hp).
    destruct cont; [|by exists c1, w, [x]].
    destruct (IH i c1 w Hw Hh') as (c2 & u & r & -> & Hu & Hhu & Hpu); [lia|lia|].
    exists c2, u, (x :: r). split_and!; [done..|]. by rewrite Hp, Hpu.
  - destruct cont; [|by exists c1, v, []]. apply IH; [done|done|lia|lia].
Qed.

(** A callback that asks to remove the first element it wants and to stop. *)
Definition first_match (p : A -> bool) (n : nat) (x : A) : bool * bool * nat :=
  if p x then (false, true, S n) else (true, false, n).

Lemma enumerate_first (p : A -> bool) fuel : forall i n v,
  vector_ok v -> (length (elems v) < fuel + i)%nat -> (0 < fuel)%nat ->
  (forall j x, (j < i)%nat -> elems v !! j = Some x -> p x = false) ->
  (enumerate_loop (first_match p) fuel i n v = Ok (n, v) /\ forall x, x ∈ elems v -> p x = false) \/
  (exists k x, elems v !! k = Some x /\ p x = true /\
     enumerate_loop (first_match p) fuel i n v = (v ← heap_remove k v; Ok (S n, v))).
Proof.
  induction fuel as [|fuel IH]; intros i n v Hv Hf Hf0 Hn; [lia|]. cbn [enumerate_loop].
  change (vsize v) with (numAllocated v). rewrite <- length_elems by done.
  destruct (Nat.ltb_spec i (length (elems v))) as [Hi|Hi].
  2:{ left. split; [done|]. intros x [j Hj]%list_elem_of_lookup. eapply Hn; [|done]. apply lookup_lt_Some in Hj. lia. }
  destruct (lookup_lt_is_Some_2 (elems v) i Hi) as [x Hx]. rewrite (vget_ok _ _ _ Hx). cbn [mbind res_bind].
  assert (first_match p n x = if p x then (false, true, S n) else (true, false, n)) as -> by done.
  destruct (p x) eqn:Hp.
  - right. by exists i, x.
  - apply IH; [done|lia|lia|]. intros j y Hj Hy. destruct (decide (j = i)) as [->|]; [congruence|].
    eapply Hn; [|done]. lia.
Qed.

(** ** A priority queue *)

Inductive pop_ := PInsert (x : A) | PExtract.

(** A sequence of insertions and extractions, as the clients make them: the
    minimum is read and removed if the heap is not empty. *)
Fixpoint heap_run (ops : list pop_) (v : Vector A) : res (list (option Z)) :=
  match ops with
  | [] => Ok []
  | PInsert x :: ops => v ← heap_insert x v; heap_run ops v
  | PExtract :: ops =>
      if vempty v then r ← heap_run ops v; Ok (None :: r)
      else
        m ← heap_min v;
        v ← heap_extract v;
        r ← heap_run ops v;
        Ok (Some (key m) :: r)
  end.

(** The same on a sorted list of keys. *)
Fixpoint sorted_insert (z : Z) (l : list Z) : list Z :=
  match l with
  | [] => [z]
  | y :: l => if z <=? y then z :: y :: l else y :: sorted_insert z l
  end.
Fixpoint queue_run (ops : list pop_) (l : list Z) : list (option Z) :=
  match ops with
  | [] => []
  | PInsert x :: ops => queue_run ops (sorted_insert (key x) l)
  | PExtract :: ops => head l :: queue_run ops (tail l)
  end.

Lemma sorted_insert_perm z (l : list Z) : sorted_insert z l ≡ₚ z :: l.
Proof. induction l as [|y l IH]; [done|]. cbn. destruct (z <=? y); [done|]. rewrite IH. apply Permutation_swap. Qed.
Lemma sorted_insert_sorted z (l : list Z) : StronglySorted Z.le l -> StronglySorted Z.le (sorted_insert z l).
Proof.
  induction 1 as [|y l Hs IH Hy]; cbn; [repeat constructor|]. destruct (Z.leb_spec z y).
  - constructor; [by constructor|]. constructor; [done|]. eapply Forall_impl; [done|]. intros; cbn in *; lia.
  - constructor; [done|]. rewrite Forall_forall in *. intros w Hw. rewrite sorted_insert_perm in Hw.
    apply elem_of_cons in Hw as [->|Hw]; [lia|auto].
Qed.

Lemma heap_run_ok ops : forall v (l : list Z),
  vector_ok v -> heap (elems v) -> StronglySorted Z.le l -> key <$> elems v ≡ₚ l ->
  heap_run ops v = Ok (queue_run ops l).
Proof.
  induction ops as [|[x|] ops IH]; intros v l Hv Hh Hl Hp; cbn [heap_run queue_run]; [done| |].
  - destruct (heap_insert_ok v x Hv Hh) as (w & -> & Hw & Hh' & Hp'). cbn [mbind res_bind].
    apply IH; [done|done|by apply sorted_insert_sorted|]. by rewrite Hp', sorted_insert_perm, <- Hp.
  - rewrite vempty_elems by done. destruct (elems v) as [|x m] eqn:E; cbn [bool_decide].
    + rewrite bool_decide_eq_true_2 by done. apply Permutation_nil in Hp as ->. cbn.
      rewrite (IH v []); [done|done|by rewrite E|constructor|by rewrite E].
    + rewrite bool_decide_eq_false_2 by done. rewrite <- E in Hh.
      destruct (heap_min_ok v x m Hv Hh E) as [-> Hmin]. destruct (heap_extract_ok v x m Hv Hh E) as (w & -> & Hw & Hh' & Hp').
      cbn [mbind res_bind]. destruct l as [|z l]; [by apply Permutation_nil_r in Hp|]. cbn [head tail].
      assert (z = key x) as ->.
      { inversion Hl as [|? ? Hl' Hz]; subst. apply Z.le_antisymm.
        - assert (key x ∈ z :: l) as Hin by (rewrite <- Hp; by left).
          apply elem_of_cons in Hin as [->|Hin]; [lia|]. rewrite Forall_forall in Hz. auto.
        - assert (z ∈ key <$> x :: m) as Hin by (rewrite Hp; by left).
          apply list_elem_of_fmap in Hin as (y & -> & Hy). apply Hmin. by rewrite E. }
      rewrite (IH w l); [done|done|done|by inversion Hl|]. rewrite <- E, Hp' in Hp. cbn in Hp. by apply (inj (key x ::.)) in Hp.
Qed.

End MinHeap.

(** C18: the heap is a priority queue: for every sequence of insertions and
    extractions on an empty heap, no call fails, and every extraction removes an
    element with the key that a sorted list would give. *)
Theorem min_heap_refines {A : Type} (key : A -> Z) (T0 : A) (raw : nat -> A) (ops : list pop_) :
  heap_run key T0 raw ops newVector = Ok (queue_run key ops []).
Proof.
  apply heap_run_ok; [unfold vector_ok; cbn; lia|by intros j _ a b Ha|constructor|done].
Qed.

(** Removing the element at any index of a heap, and enumerating a heap with
    any callback that may remove elements and stop, terminate without an access
    outside the heap; what is left is a heap of exactly the elements that were
    not removed. *)
Theorem min_heap_remove_terminates {A C : Type} (key : A -> Z) (callback : C -> A -> bool * bool * C)
    (c : C) (v : Vector A) (i : nat) (x : A) :
  vector_ok v -> heap key (elems v) -> elems v !! i = Some x ->
  (exists v', heap_remove key i v = Ok v' /\ vector_ok v' /\ heap key (elems v') /\ elems v ≡ₚ x :: elems v') /\
  (exists c' v' removed, enumerateObjects key callback c v = Ok (c', v') /\ vector_ok v' /\ heap key (elems v') /\
     elems v ≡ₚ removed ++ elems v').
Proof.
  intros Hv Hh Hx. split; [by apply heap_remove_ok|].
  unfold enumerateObjects. change (vsize v) with (numAllocated v). rewrite <- length_elems by done.
  apply enumerate_ok; [done|done|lia|lia].
Qed.

Lemma min_heap_remove_terminates_witness :
  exists v', heap_remove (fun z : Z => z) 1 (Vec 4 [1; 5; 2; 9]) = Ok v' /\ elems v' = [1; 9; 2].
Proof.
  destruct (min_heap_remove_terminates (fun z : Z => z) (fun (c : unit) _ => (true, true, c)) tt (Vec 4 [1; 5; 2; 9]) 1 5)
    as [(v' & E & _) _].
  - unfold vector_ok. cbn. lia.
  - intros [|[|[|[|[|j]]]]] Hj a b; cbn; try done; intros [= <-] [= <-]; lia.
  - done.
  - exists v'. split; [exact E|]. vm_compute in E. injection E as <-. done.
Defined.
