(* ===== verification/Deadlines.v ===== *)
(** * Deadlines of the scheduler (kernel/src/sched/Scheduler.cpp, Deadline.h)

    The heap of deadlines of one core's scheduler and the interval its timer is
    set to.  A deadline is an object with an expiration time; what it does when
    it is due is recorded, not modelled.  The current time is an argument. *)

From stdpp Require Import sorting.
From S2P Require Import Prelude Vector MinHeap.

(** A deadline object, known by its address. *)
Record Deadline := { d_addr : Z; d_expires : Z }.

(** [DeadlineWrapper]: a shared pointer to a deadline, or null.  Wrappers are
    compared, also for equality, by their times. *)
Definition DeadlineWrapper : Type := option Deadline.
Definition expires (w : DeadlineWrapper) : Z :=
  match w with Some d => d_expires d | None => 0 end.
Definition wrapper_eqb (a b : DeadlineWrapper) : bool := expires a =? expires b.

Section Deadlines.
Context (raw : nat -> DeadlineWrapper).

Notation Heap := (Vector DeadlineWrapper).

(** ** The timer *)

Definition kIdleWakeupInterval : Z := 1000000 * 100.
Definition UINTPTR_MAX : Z := 2 ^ 64 - 1.

(** What [timerUpdate] looks at of the running thread. *)
Record Running := { idle : bool; quantumTotal : Z; quantumUsed : Z }.

(** The interval given to [platform::SetLocalTimer]. *)
Definition timerUpdate (running : option Running) (now timerMinInterval : Z) (deadlines : Heap) : res Z :=
  let quantumRemaining :=
    match running with
    | Some r => if idle r then kIdleWakeupInterval else u64 (quantumTotal r - quantumUsed r)
    | None => kIdleWakeupInterval
    end in
  deadline ← (if negb (vempty deadlines) then
                next ← heap_min deadlines;
                Ok (if expires next <=? now then 0 else u64 (expires next - now))
              else Ok UINTPTR_MAX);
  let interval := if deadline <? quantumRemaining then deadline else quantumRemaining in
  Ok (if timerMinInterval <=? interval then interval else timerMinInterval).

(** ** Processing *)

Definition due (now deadlineSlack : Z) (w : DeadlineWrapper) : bool :=
  (expires w <=? now) || (u64 (expires w - now) <=? deadlineSlack).

(** The loop of [processDeadlines]; it returns the deadlines it called, in
    order, and what is left.  Calling a null wrapper is an error. *)
Fixpoint process_loop (now slack : Z) (fuel : nat) (deadlines : Heap) : res (list Deadline * Heap) :=
  match fuel with
  | O => Stuck
  | S fuel =>
      if negb (vempty deadlines) then
        next ← heap_min deadlines;
        if due now slack next then
          d ← res_of next;
          deadlines ← heap_extract expires deadlines;
          '(called, deadlines) ← process_loop now slack fuel deadlines;
          Ok (d :: called, deadlines)
        else Ok ([], deadlines)
      else Ok ([], deadlines)
  end.
Definition processDeadlines (now slack : Z) (deadlines : Heap) : res (bool * list Deadline * Heap) :=
  '(called, deadlines) ← process_loop now slack (S (vsize deadlines)) deadlines;
  Ok (negb (bool_decide (called = [])), called, deadlines).

(** ** Adding and removing *)

(** The new heap and the interval of the timer if it is set anew. *)
Definition addDeadline (running : option Running) (now minInterval : Z) (deadline : DeadlineWrapper) (deadlines : Heap)
    : res (Heap * option Z) :=
  needTimerUpdate ← (if negb (vempty deadlines) then
                       m ← heap_min deadlines; Ok (expires deadline <? expires m)
                     else Ok true);
  deadlines ← heap_insert expires None raw deadline deadlines;
  if (needTimerUpdate : bool) then
    i ← timerUpdate running now minInterval deadlines; Ok (deadlines, Some i)
  else Ok (deadlines, None).

Definition removeDeadline (running : option Running) (now minInterval : Z) (deadline : DeadlineWrapper) (deadlines : Heap)
    : res (bool * Heap * option Z) :=
  m ← heap_min deadlines;
  let oldMinExpires := expires m in
  '(numRemoved, deadlines) ←
    enumerateObjects expires (first_match (fun wrap => wrapper_eqb wrap deadline)) 0%nat deadlines;
  m ← heap_min deadlines;
  let found := negb (Nat.eqb numRemoved 0) in
  if negb (expires m =? oldMinExpires) then
    i ← timerUpdate running now minInterval deadlines; Ok (found, deadlines, Some i)
  else Ok (found, deadlines, None).

(** ** What is in the heap *)

Implicit Types (v : Heap).

(** A heap of deadlines: ordered, of objects with 64-bit times. *)
Record deadlines_ok v : Prop := {
  dl_vec : vector_ok v;
  dl_heap : heap expires (elems v);
  dl_some : Forall (fun w => exists d, w = Some d /\ is_u 64 (d_expires d)) (elems v)
}.

Lemma process_loop_ok now slack fuel : forall v,
  is_u 64 now -> deadlines_ok v -> (length (elems v) < fuel)%nat ->
  exists called v', process_loop now slack fuel v = Ok (called, v') /\ deadlines_ok v' /\
    elems v ≡ₚ (Some <$> called) ++ elems v' /\
    Sorted (fun a b => d_expires a <= d_expires b) called /\
    Forall (fun d => due now slack (Some d)) called /\
    Forall (fun w => due now slack w = false) (elems v').
Proof.
  induction fuel as [|fuel IH]; intros v Hn [Hv Hh Hs] Hf; [lia|]. cbn [process_loop].
  rewrite vempty_elems by done. destruct (elems v) as [|x m] eqn:E.
  { rewrite bool_decide_eq_true_2 by done. cbn [negb]. exists [], v. rewrite E.
    split_and!; try done; try constructor; by rewrite ?E. }
  rewrite bool_decide_eq_false_2 by done. cbn [negb]. rewrite <- E in Hh.
  destruct (heap_min_ok expires v x m Hv Hh E) as [-> Hmin]. cbn [mbind res_bind].
  destruct (due now slack x) eqn:Hd.
  - pose proof Hs as Hs0. apply Forall_cons in Hs0 as [(d & -> & Hd64) _]. cbn [res_of mbind res_bind].
    destruct (heap_extract_ok expires v (Some d) m Hv Hh E) as (w & -> & Hw & Hh' & Hp). cbn [mbind res_bind].
    rewrite <- E in Hs. pose proof Hs as Hsw. rewrite Hp in Hsw. apply Forall_cons in Hsw as [_ Hsw].
    destruct (IH w Hn) as (called & v' & -> & Hok & Hp' & Hsort & Hdue & Hrest).
    { by split. }
    { assert (length (elems v) = S (length (elems w))) as El by (by rewrite Hp). rewrite E in El. cbn in *. lia. }
    cbn [mbind res_bind]. exists (d :: called), v'. split_and!; [done|done| | | |done].
    + rewrite <- E, Hp, Hp'. done.
    + constructor; [done|]. destruct called as [|c called]; constructor.
      change (expires (Some d) <= expires (Some c)). apply Hmin. rewrite Hp, Hp'. right. by left.
    + constructor; [by rewrite Hd|done].
  - exists [], v. rewrite <- E in *. split_and!; [done|by split|done|constructor|constructor|].
    rewrite Forall_forall. intros y Hy. pose proof (Hmin y Hy) as Hle.
    rewrite Forall_forall in Hs. destruct (Hs y Hy) as (d & -> & Hd64).
    unfold due in *. apply orb_false_iff in Hd as [H1 H2]. apply Z.leb_gt in H1, H2.
    assert (is_u 64 (expires x)) as Hx64. { destruct (Hs x) as (d' & -> & ?); [by rewrite E; left|done]. }
    cbn in Hle. apply orb_false_iff. cbn. unfold u64 in *. rewrite wrap_small in * by mlia. split; blia.
Qed.

(** The time left until a deadline. *)
Definition until (now : Z) (w : DeadlineWrapper) : Z := if expires w <=? now then 0 else expires w - now.

Lemma until_mono now a b : expires a <= expires b -> until now a <= until now b.
Proof. unfold until. intros. destruct (Z.leb_spec (expires a) now), (Z.leb_spec (expires b) now); lia. Qed.

Lemma timerUpdate_ok running now minInterval v :
  is_u 64 now -> deadlines_ok v ->
  exists i, timerUpdate running now minInterval v = Ok i /\ minInterval <= i /\
    forall w, w ∈ elems v -> i <= Z.max minInterval (until now w).
Proof.
  intros Hn [Hv Hh Hs]. unfold timerUpdate. set (q := match running with Some r => _ | None => _ end). clearbody q.
  assert (forall d : Z, (forall w, w ∈ elems v -> d <= until now w) ->
    let i := (let interval := if d <? q then d else q in if minInterval <=? interval then interval else minInterval) in
    minInterval <= i /\ forall w, w ∈ elems v -> i <= Z.max minInterval (until now w)) as Hfin.
  { intros d Hd. cbn zeta. destruct (Z.ltb_spec d q); [destruct (Z.leb_spec minInterval d)|destruct (Z.leb_spec minInterval q)];
      (split; [lia|]; intros w Hw; specialize (Hd w Hw); lia). }
  rewrite vempty_elems by done. destruct (elems v) as [|x m] eqn:E.
  - rewrite bool_decide_eq_true_2 by done. cbn [negb mbind res_bind]. eexists. split; [done|]. apply Hfin. intros w Hw. by apply elem_of_nil in Hw.
  - rewrite bool_decide_eq_false_2 by done. cbn [negb]. rewrite <- E in Hh, Hs.
    destruct (heap_min_ok expires v x m Hv Hh E) as [-> Hmin]. cbn [mbind res_bind]. eexists. split; [done|].
    apply Hfin. intros w Hw. rewrite <- E in Hw. pose proof (until_mono now x w (Hmin w Hw)) as Hle. unfold until in *.
    rewrite Forall_forall in Hs. destruct (Hs x) as (d & -> & Hd); [rewrite E; by left|]. cbn in *.
    destruct (Z.leb_spec (d_expires d) now); [done|]. unfold u64. by rewrite wrap_small by mlia.
Qed.

(** When the only deadline is due, processing leaves nothing. *)
Lemma only_due now slack d called rest :
  d_expires d <= now -> [Some d] ≡ₚ (Some <$> called) ++ rest ->
  Forall (fun w => due now slack w = false) rest -> called = [d] /\ rest = [].
Proof.
  intros Hle Hp Hrest. assert (rest = []) as ->.
  { destruct rest as [|w m]; [done|]. apply Forall_cons in Hrest as [Hw _].
    assert (w = Some d) as ->. { assert (w ∈ [Some d]) as Hin by (rewrite Hp; set_solver). by apply list_elem_of_singleton in Hin. }
    unfold due in Hw. cbn in Hw. apply orb_false_iff in Hw as [Hw _]. apply Z.leb_gt in Hw. lia. }
  split; [|done]. rewrite app_nil_r in Hp. symmetry in Hp. apply Permutation_singleton_r in Hp.
  destruct called as [|c0 [|]]; try done. by injection Hp as ->.
Qed.

End Deadlines.

(** C28: one pass of the scheduler over its deadlines terminates, calls exactly
    those that are due (expired, or expiring within the slack), each once and in
    the order of their times, and leaves the others in the heap; it reports
    whether it called any. *)
Theorem processDeadlines_spec (now slack : Z) (v : Vector DeadlineWrapper) :
  is_u 64 now -> deadlines_ok v ->
  exists called v', processDeadlines now slack v = Ok (negb (bool_decide (called = [])), called, v') /\ deadlines_ok v' /\
    elems v ≡ₚ (Some <$> called) ++ elems v' /\
    Sorted (fun a b => d_expires a <= d_expires b) called /\
    Forall (fun d => due now slack (Some d) = true) called /\
    Forall (fun w => due now slack w = false) (elems v').
Proof.
  intros Hn Hv. unfold processDeadlines. change (vsize v) with (numAllocated v). rewrite <- length_elems by apply Hv.
  destruct (process_loop_ok now slack (S (length (elems v))) v Hn Hv) as (c & v' & -> & H1 & H2 & H3 & H4 & H5); [lia|].
  exists c, v'. split_and!; try done. eapply Forall_impl; [exact H4|]. intros d Hd. by apply Is_true_true.
Qed.

Lemma addDeadline_ok (raw : nat -> DeadlineWrapper) (running : option Running) (now minInterval : Z)
    (d : Deadline) (v : Vector DeadlineWrapper) :
  is_u 64 now -> is_u 64 (d_expires d) -> deadlines_ok v ->
  exists v' t, addDeadline raw running now minInterval (Some d) v = Ok (v', t) /\ deadlines_ok v' /\
    elems v' ≡ₚ Some d :: elems v /\
    match t with
    | Some i => minInterval <= i /\ forall w, w ∈ elems v' -> i <= Z.max minInterval (until now w)
    | None => exists m, m ∈ elems v /\ forall w, w ∈ elems v' -> expires m <= expires w
    end.
Proof.
  intros Hn Hd [Hv Hh Hs]. unfold addDeadline.
  destruct (heap_insert_ok expires None raw v (Some d) Hv Hh) as (v' & Ei & Hv' & Hh' & Hp).
  assert (deadlines_ok v') as Hok.
  { split; [done..|]. rewrite Hp. constructor; [by exists d|done]. }
  destruct (timerUpdate_ok running now minInterval v' Hn Hok) as (i & Et & Hi).
  rewrite vempty_elems by done. destruct (elems v) as [|x m] eqn:E.
  - rewrite bool_decide_eq_true_2 by done. cbn [negb mbind res_bind]. rewrite Ei. cbn [mbind res_bind]. rewrite Et.
    by exists v', (Some i).
  - rewrite bool_decide_eq_false_2 by done. cbn [negb]. rewrite <- E in Hh.
    destruct (heap_min_ok expires v x m Hv Hh E) as [-> Hmin]. cbn [mbind res_bind]. rewrite Ei. cbn [mbind res_bind].
    destruct (Z.ltb_spec (expires (Some d)) (expires x)); [rewrite Et; by exists v', (Some i)|].
    exists v', None. split_and!; [done..|]. exists x. split; [by left|]. intros w Hw. rewrite Hp in Hw.
    apply elem_of_cons in Hw as [->|Hw]; [done|]. apply Hmin. by rewrite E.
Qed.

(** Adding a deadline succeeds and keeps the heap ordered.  If the timer is
    set, its interval is at least the smallest one and not longer than the time
    to any deadline, unless that is below the smallest interval; if it is not
    set, no deadline is earlier than the earliest was before. *)
Theorem addDeadline_spec (raw : nat -> DeadlineWrapper) (running : option Running) (now minInterval : Z)
    (d : Deadline) (v : Vector DeadlineWrapper) :
  is_u 64 now -> is_u 64 (d_expires d) -> deadlines_ok v ->
  exists v' t, addDeadline raw running now minInterval (Some d) v = Ok (v', t) /\ deadlines_ok v' /\
    elems v' ≡ₚ Some d :: elems v /\
    match t with
    | Some i => minInterval <= i /\ forall w, w ∈ elems v' -> i <= Z.max minInterval (until now w)
    | None => exists m, m ∈ elems v /\ forall w, w ∈ elems v' -> expires m <= expires w
    end.
Proof. apply addDeadline_ok. Qed.

(** Removing a deadline.  The heap is searched by time, so the deadline that
    is removed is one with the same time, not necessarily the given one; with
    no such deadline nothing changes and false is returned.  When the heap is
    empty, or becomes empty by the removal, the minimum of an empty heap is asked
    for and the kernel panics. *)
Lemma removeDeadline_spec (running : option Running) (now minInterval : Z) (d : Deadline) (v : Vector DeadlineWrapper) :
  is_u 64 now -> deadlines_ok v ->
  (elems v = [] -> removeDeadline running now minInterval (Some d) v = Panic) /\
  (elems v <> [] -> (forall w, w ∈ elems v -> expires w <> d_expires d) ->
     removeDeadline running now minInterval (Some d) v = Ok (false, v, None)) /\
  (forall w, w ∈ elems v -> expires w = d_expires d -> length (elems v) = 1%nat ->
     removeDeadline running now minInterval (Some d) v = Panic) /\
  (forall w, w ∈ elems v -> expires w = d_expires d -> (2 <= length (elems v))%nat ->
     exists x v' t, removeDeadline running now minInterval (Some d) v = Ok (true, v', t) /\ deadlines_ok v' /\
       expires x = d_expires d /\ elems v ≡ₚ x :: elems v').
Proof.
  intros Hn Hok. pose proof Hok as [Hv Hh Hs]. unfold removeDeadline.
  destruct (elems v) as [|x m] eqn:E.
  { split_and!; try done; [|intros w Hw; by apply elem_of_nil in Hw..].
    intros _. unfold heap_min, REQUIRE. by rewrite vempty_elems, E by done. }
  rewrite <- E in *. destruct (heap_min_ok expires v x m Hv Hh E) as [Hm Hmin]. rewrite Hm. cbn [mbind res_bind].
  unfold enumerateObjects. change (vsize v) with (numAllocated v). rewrite <- length_elems by done.
  destruct (enumerate_first expires (fun w => wrapper_eqb w (Some d)) (S (length (elems v))) 0 0 v)
    as [[-> Hno]|(k & y & Hk & Hy & ->)]; [done|lia|lia|lia| |].
  - cbn [mbind res_bind]. rewrite Hm. cbn [mbind res_bind]. rewrite Z.eqb_refl. cbn [negb Nat.eqb]. split_and!.
    + intros E'. by rewrite E' in E.
    + done.
    + intros w Hw Ew. specialize (Hno w Hw). unfold wrapper_eqb in Hno. apply Z.eqb_neq in Hno. done.
    + intros w Hw Ew. specialize (Hno w Hw). unfold wrapper_eqb in Hno. apply Z.eqb_neq in Hno. done.
  - unfold wrapper_eqb in Hy. apply Z.eqb_eq in Hy.
    destruct (heap_remove_ok expires v k y Hv Hh Hk) as (v' & -> & Hv' & Hh' & Hp). cbn [mbind res_bind].
    assert (length (elems v) = S (length (elems v'))) as El by (by rewrite Hp).
    assert (deadlines_ok v') as Hok'. { split; [done..|]. rewrite Hp in Hs. by apply Forall_cons in Hs as [_ ?]. }
    split_and!.
    + intros E'. by rewrite E' in E.
    + intros _ Hno. by destruct (Hno y); [by eapply list_elem_of_lookup_2|].
    + intros w _ _ Hl. assert (elems v' = []) as E' by (apply nil_length_inv; lia).
      unfold heap_min, REQUIRE. by rewrite vempty_elems, E' by done.
    + intros w _ _ Hl. destruct (elems v') as [|z m'] eqn:E'; [cbn in El; lia|]. rewrite <- E' in *.
      destruct (heap_min_ok expires v' z m' Hv' Hh' E') as [-> _]. cbn [mbind res_bind Nat.eqb negb].
      destruct (timerUpdate_ok running now minInterval v' Hn Hok') as (i & Ei & _).
      destruct (negb (expires z =? expires x)); [rewrite Ei; by exists y, v', (Some i)|by exists y, v', None].
Qed.

Lemma removeDeadline_ok (running : option Running) (now minInterval : Z) (d : Deadline) (v : Vector DeadlineWrapper) :
  is_u 64 now -> deadlines_ok v ->
  match removeDeadline running now minInterval (Some d) v with
  | Ok (_, v', _) => deadlines_ok v' /\ forall w, w ∈ elems v' -> w ∈ elems v
  | Panic => True
  | Stuck => False
  end.
Proof.
  intros Hn Hok. destruct (removeDeadline_spec running now minInterval d v Hn Hok) as (H1 & H2 & H3 & H4).
  destruct (decide (elems v = [])) as [E|E]; [by rewrite H1|].
  destruct (decide (Exists (fun w => expires w = d_expires d) (elems v))) as [(w & Hw & He)%Exists_exists|Hno].
  - destruct (decide (length (elems v) = 1%nat)); [by rewrite (H3 w)|].
    destruct (H4 w Hw He) as (x & v' & t & -> & Hok' & _ & Hp); [destruct (elems v); cbn in *; [done|lia]|].
    split; [done|]. intros w' Hw'. rewrite Hp. by right.
  - rewrite H2; [done..|]. intros w Hw He. apply Hno, Exists_exists. eauto.
Qed.

(** A timed wait that times out while its deadline is the only one of the
    core stops the kernel: [blockOn] adds the deadline, the timer calls and
    removes it, and the [removeDeadline] that follows panics. *)
Theorem timed_wait_panics (raw : nat -> DeadlineWrapper) (running : option Running) (now later minInterval slack : Z) (d : Deadline) :
  is_u 64 now -> is_u 64 (d_expires d) -> is_u 64 later -> d_expires d <= later ->
  exists v t v', addDeadline raw running now minInterval (Some d) newVector = Ok (v, t) /\
    processDeadlines later slack v = Ok (true, [d], v') /\
    removeDeadline running later minInterval (Some d) v' = Panic.
Proof.
  intros Hn Hd Hl Hle.
  destruct (heap_insert_ok expires None raw newVector (Some d)) as (v & Ei & Hv & Hh & Hp); [unfold vector_ok; cbn; lia|by intros j _ a b Ha|].
  assert (deadlines_ok v) as Hok. { split; [done..|]. rewrite Hp. constructor; [by exists d|constructor]. }
  destruct (timerUpdate_ok running now minInterval v Hn Hok) as (i & Et & _).
  destruct (process_loop_ok later slack (S (vsize v)) v Hl Hok) as (c & v' & Ep & Hok' & Hpp & _ & _ & Hrest).
  { rewrite length_elems by done. unfold vsize. lia. }
  destruct (only_due later slack d c (elems v') Hle) as [-> E']; [by rewrite <- Hpp, Hp|done|].
  exists v, (Some i), v'. split_and!.
  - unfold addDeadline. cbn [newVector vempty numAllocated Nat.eqb negb mbind res_bind]. rewrite Ei. cbn [mbind res_bind]. by rewrite Et.
  - unfold processDeadlines. rewrite Ep. cbn [mbind res_bind]. by rewrite bool_decide_eq_false_2.
  - unfold removeDeadline, heap_min, REQUIRE. by rewrite vempty_elems, E' by apply Hok'.
Qed.

(** Three deadlines of two times, in a heap. *)
Definition dl (a e : Z) : Deadline := {| d_addr := a; d_expires := e |}.
Definition some_deadlines : Vector DeadlineWrapper := Vec 3 [Some (dl 1 10); Some (dl 2 30); Some (dl 3 10)].

Lemma some_deadlines_ok : deadlines_ok some_deadlines.
Proof.
  split.
  - unfold vector_ok. cbn. lia.
  - intros [|[|[|[|j]]]] Hj a b; cbn; try done; intros [= <-] [= <-]; cbn; lia.
  - cbn. repeat constructor; eexists; (split; [done|]); cbn; mlia.
Qed.

Lemma processDeadlines_spec_witness :
  exists called v', processDeadlines 12 5 some_deadlines = Ok (true, called, v') /\ length called = 2%nat /\ elems v' = [Some (dl 2 30)].
Proof.
  destruct (processDeadlines_spec 12 5 some_deadlines) as (c & v' & E & _); [mlia|exact some_deadlines_ok|].
  vm_compute in E. injection E as _ <- <-. by eexists _, _.
Defined.

Lemma addDeadline_spec_witness :
  exists v', addDeadline (fun _ => None) None 2 1 (Some (dl 4 5)) some_deadlines = Ok (v', Some 3).
Proof.
  destruct (addDeadline_spec (fun _ => None) None 2 1 (dl 4 5) some_deadlines) as (v' & t & E & _); [mlia|cbn; mlia|exact some_deadlines_ok|].
  vm_compute in E. injection E as <- <-. by eexists.
Defined.

(** The deadline at address 3 is to go; the one at address 1 goes. *)
Lemma removeDeadline_spec_witness :
  exists v' t, removeDeadline None 2 1 (Some (dl 3 10)) some_deadlines = Ok (true, v', t) /\
    elems v' = [Some (dl 3 10); Some (dl 2 30)].
Proof.
  destruct (removeDeadline_spec None 2 1 (dl 3 10) some_deadlines) as (_ & _ & _ & H); [mlia|exact some_deadlines_ok|].
  destruct (H (Some (dl 3 10))) as (x & v' & t & E & _); [by right; right; left|done|cbn; lia|].
  vm_compute in E. injection E as <- <-. by eexists _, _.
Defined.

Lemma timed_wait_panics_witness :
  exists v t v', addDeadline (fun _ => None) None 5 1 (Some (dl 1 10)) newVector = Ok (v, t) /\
    processDeadlines 11 0 v = Ok (true, [dl 1 10], v') /\ removeDeadline None 11 1 (Some (dl 1 10)) v' = Panic.
Proof. apply (timed_wait_panics (fun _ => None) None 5 11 1 0 (dl 1 10)); cbn; mlia. Defined.
