(* ===== verification/SmartPtr.v ===== *)
(** * Reference-counted pointers of the kernel (kernel/src/runtime/SmartPointers.h)

    [SharedPtr] and [WeakPtr] with their information blocks.  The memory is the
    set of allocated information blocks and the set of live objects; a pointer
    variable is an entry of one of two tables, so that constructors, assignments
    and destructors of variables are steps of a machine.  Not covered: objects
    that carry a weak pointer to themselves ([SharedFromThis]), and destructors
    of objects that touch other pointers. *)

From S2P Require Import Prelude.

(** [PtrImpl::InfoBlock] with the pointer of [InfoBlockImpl]. *)
Record InfoBlock := Info { useCount : Z; weakCount : Z; obj : Z }.

(** The two fields of [SharedPtr] and of [WeakPtr]. *)
Record Ptr := MkPtr { info : option Z; ptr : option Z }.
Definition nullPtr : Ptr := MkPtr None None.

Record mem := Mem { infos : gmap Z InfoBlock; objects : gset Z }.

(** Where [new] puts a block that must not lie on one of the given ones. *)
Class Alloc := {
  alloc : gset Z -> Z;
  alloc_fresh : forall d, alloc d ∉ d
}.

Section SmartPtr.
Context {A : Alloc}.

(** ** Information blocks *)

Definition load (a : Z) : st mem InfoBlock := fun m => b ← res_of (infos m !! a); Ok (b, m).
Definition store (a : Z) (b : InfoBlock) : st mem () :=
  fun m => _ ← res_of (infos m !! a); Ok ((), Mem (<[a := b]> (infos m)) (objects m)).
Definition delete_info (a : Z) : st mem () :=
  fun m => _ ← res_of (infos m !! a); Ok ((), Mem (delete a (infos m)) (objects m)).
(** The deleter: deleting an object twice is an error. *)
Definition destroy (p : Z) : st mem () :=
  fun m => if decide (p ∈ objects m) then Ok ((), Mem (infos m) (objects m ∖ {[p]})) else Stuck.

Definition add_use (d : Z) (b : InfoBlock) : InfoBlock := Info (u64 (useCount b + d)) (weakCount b) (obj b).
Definition add_weak (d : Z) (b : InfoBlock) : InfoBlock := Info (useCount b) (u64 (weakCount b + d)) (obj b).

(** [__atomic_sub_fetch(&info->weakCount, 1)] and the deletion of the block,
    with the value of the field [info] afterwards. *)
Definition drop_weak (a : Z) : st mem (option Z) :=
  b ← load a;
  let b := add_weak (-1) b in
  _ ← store a b;
  if weakCount b =? 0 then _ ← delete_info a; mret None else mret (Some a).

(** ** SharedPtr *)

Definition incrementStrongRefs (this : Ptr) : st mem () :=
  match info this with
  | Some a => b ← load a; store a (add_use 1 b)
  | None => mret ()
  end.

Definition decrementStrongRefs (this : Ptr) : st mem Ptr :=
  match info this with
  | Some a =>
      b ← load a;
      let b := add_use (-1) b in
      _ ← store a b;
      if useCount b =? 0 then
        _ ← destroy (obj b);
        i ← drop_weak a;
        mret (MkPtr i None)
      else mret this
  | None => mret this
  end.

(** [MakeShared]: a new object, then a new block that counts one reference. *)
Definition MakeShared : st mem Ptr := fun m =>
  let p := alloc (objects m) in
  let a := alloc (dom (infos m)) in
  Ok (MkPtr (Some a) (Some p), Mem (<[a := Info 1 1 p]> (infos m)) ({[p]} ∪ objects m)).

Definition SharedPtr_copy (from : Ptr) : st mem Ptr :=
  _ ← incrementStrongRefs from; mret from.

(** [operator=(const SharedPtr &)], when it is not an assignment to itself. *)
Definition SharedPtr_assign (this from : Ptr) : st mem Ptr :=
  _ ← decrementStrongRefs this;
  _ ← incrementStrongRefs from;
  mret from.

Definition SharedPtr_assign_null (this : Ptr) : st mem Ptr :=
  _ ← decrementStrongRefs this; mret nullPtr.

Definition SharedPtr_dtor (this : Ptr) : st mem () :=
  _ ← decrementStrongRefs this; mret ().

(** ** WeakPtr *)

Definition incrementWeakRefs (this : Ptr) : st mem () :=
  match info this with
  | Some a => b ← load a; store a (add_weak 1 b)
  | None => mret ()
  end.

Definition decrementWeakRefs (this : Ptr) : st mem Ptr :=
  match info this with
  | Some a => i ← drop_weak a; mret (MkPtr i (ptr this))
  | None => mret this
  end.

Definition WeakPtr_of (s : Ptr) : st mem Ptr :=
  _ ← incrementWeakRefs s; mret s.

Definition WeakPtr_assign (this from : Ptr) : st mem Ptr :=
  _ ← decrementWeakRefs this;
  _ ← incrementWeakRefs from;
  mret from.

Definition WeakPtr_assign_null (this : Ptr) : st mem Ptr :=
  _ ← decrementWeakRefs this; mret nullPtr.

Definition WeakPtr_dtor (this : Ptr) : st mem () :=
  _ ← decrementWeakRefs this; mret ().

(** The class declares no copy constructor, so the compiler's one copies the
    two fields. *)
Definition WeakPtr_copy (from : Ptr) : st mem Ptr := mret from.

(** The loop of [lock]: a compare and exchange of [useCount]; a failed one
    loads the current count. *)
Fixpoint lock_loop (fuel : nat) (a : Z) (strongCount : Z) (this : Ptr) : st mem Ptr :=
  match fuel with
  | O => sstuck
  | S fuel =>
      if strongCount =? 0 then mret nullPtr
      else
        b ← load a;
        if useCount b =? strongCount then
          _ ← store a (Info (u64 (strongCount + 1)) (weakCount b) (obj b));
          mret (MkPtr (Some a) (ptr this))
        else lock_loop fuel a (useCount b) this
  end.
Definition lock (this : Ptr) : st mem Ptr :=
  match info this with
  | None => mret nullPtr
  | Some a => b ← load a; lock_loop 2 a (useCount b) this
  end.

Definition getStrongRefs (this : Ptr) : st mem Z :=
  match info this with
  | None => mret 0
  | Some a => b ← load a; mret (useCount b)
  end.
Definition expired (this : Ptr) : st mem bool :=
  n ← getStrongRefs this; mret (n =? 0).

(** ** Programs over pointer variables *)

Record world := World { memory : mem; shared : gmap Z Ptr; weak : gmap Z Ptr }.
Definition init : world := World (Mem ∅ ∅) ∅ ∅.

(** One construction, assignment or destruction of a variable; [x], [y] name
    shared pointers and [w], [v] weak ones. *)
Inductive op :=
| SMake (x : Z) | SNull (x : Z) | SCopy (x y : Z) | SAssign (x y : Z) | SAssignNull (x : Z) | SDtor (x : Z)
| WNull (w : Z) | WOf (w x : Z) | WAssign (w v : Z) | WAssignNull (w : Z) | WDtor (w : Z)
| WLock (x w : Z) | WExpired (w : Z)
| WCopy (w v : Z).

Definition run_mem {B} (f : st mem B) (k : B -> world -> world) : st world () := fun s =>
  '(r, m) ← f (memory s); Ok ((), k r (World m (shared s) (weak s))).
Definition set_shared (x : Z) (p : Ptr) (s : world) : world := World (memory s) (<[x := p]> (shared s)) (weak s).
Definition set_weak (w : Z) (p : Ptr) (s : world) : world := World (memory s) (shared s) (<[w := p]> (weak s)).
Definition end_shared (x : Z) (s : world) : world := World (memory s) (delete x (shared s)) (weak s).
Definition end_weak (w : Z) (s : world) : world := World (memory s) (shared s) (delete w (weak s)).

(** A step that names a variable outside its lifetime, or constructs one that
    exists, is not a program; [None] marks it. *)
Definition step (o : op) (s : world) : option (res (() * world)) :=
  let S x := shared s !! x in
  let W w := weak s !! w in
  let new {B} (v : option B) := match v with None => Some () | Some _ => None end in
  match o with
  | SMake x => _ ← new (S x); Some (run_mem MakeShared (set_shared x) s)
  | SNull x => _ ← new (S x); Some (run_mem (mret nullPtr) (set_shared x) s)
  | SCopy x y => _ ← new (S x); q ← S y; Some (run_mem (SharedPtr_copy q) (set_shared x) s)
  | SAssign x y =>
      p ← S x; q ← S y;
      Some (if x =? y then Ok ((), s) else run_mem (SharedPtr_assign p q) (set_shared x) s)
  | SAssignNull x => p ← S x; Some (run_mem (SharedPtr_assign_null p) (set_shared x) s)
  | SDtor x => p ← S x; Some (run_mem (SharedPtr_dtor p) (fun _ => end_shared x) s)
  | WNull w => _ ← new (W w); Some (run_mem (mret nullPtr) (set_weak w) s)
  | WOf w x => _ ← new (W w); q ← S x; Some (run_mem (WeakPtr_of q) (set_weak w) s)
  | WAssign w v =>
      p ← W w; q ← W v;
      Some (if w =? v then Ok ((), s) else run_mem (WeakPtr_assign p q) (set_weak w) s)
  | WAssignNull w => p ← W w; Some (run_mem (WeakPtr_assign_null p) (set_weak w) s)
  | WDtor w => p ← W w; Some (run_mem (WeakPtr_dtor p) (fun _ => end_weak w) s)
  | WLock x w => _ ← new (S x); q ← W w; Some (run_mem (lock q) (set_shared x) s)
  | WExpired w => q ← W w; Some (run_mem (expired q) (fun _ s => s) s)
  | WCopy w v => _ ← new (W w); q ← W v; Some (run_mem (WeakPtr_copy q) (set_weak w) s)
  end.

(** A run skips the steps that are not programs. *)
Fixpoint run (l : list op) (s : world) : res world :=
  match l with
  | [] => Ok s
  | o :: l =>
      match step o s with
      | None => run l s
      | Some r => '(_, s) ← r; run l s
      end
  end.

(** ** The counting invariant *)

(** [s] and [w] give for every block the number of strong and of weak pointers
    to it. *)
Record counted (m : mem) (s w : Z -> Z) : Prop := {
  c_nonneg : forall a, 0 <= s a /\ 0 <= w a;
  c_none : forall a, infos m !! a = None -> s a = 0 /\ w a = 0;
  c_some : forall a b, infos m !! a = Some b ->
    useCount b = s a /\ weakCount b = w a + cbool (0 <? s a) /\ 0 < weakCount b;
  c_obj : forall a b, infos m !! a = Some b -> 0 < s a -> obj b ∈ objects m;
  c_inj : forall a a' b b', infos m !! a = Some b -> infos m !! a' = Some b' ->
    0 < s a -> 0 < s a' -> obj b = obj b' -> a = a';
  c_owned : forall p, p ∈ objects m -> exists a b, infos m !! a = Some b /\ obj b = p /\ 0 < s a
}.

#[local] Instance counted_proper m :
  Proper (pointwise_relation Z eq ==> pointwise_relation Z eq ==> iff) (counted m).
Proof.
  intros s s' Hs w w' Hw.
  assert (forall s s' w w' : Z -> Z, (forall a, s a = s' a) -> (forall a, w a = w' a) ->
    counted m s w -> counted m s' w') as H.
  { clear. intros s s' w w' Hs Hw [C1 C2 C3 C4 C5 C6]. split; intros *; rewrite <- ?Hs, <- ?Hw; eauto.
    intros Hp. destruct (C6 _ Hp) as (a & b & ? & ? & ?). exists a, b. by rewrite <- Hs. }
  split; apply H; intros a; auto; symmetry; auto.
Qed.

(** One more or one less pointer to the block of a pointer. *)
Definition bump (i : option Z) (d : Z) (f : Z -> Z) : Z -> Z :=
  fun a => if decide (i = Some a) then f a + d else f a.

Lemma bump_eq a d f : bump (Some a) d f a = f a + d.
Proof. unfold bump. by rewrite decide_True. Qed.
Lemma bump_ne a a' d f : a <> a' -> bump (Some a) d f a' = f a'.
Proof. intros. unfold bump. rewrite decide_False; congruence. Qed.
Lemma bump_none d f a : bump None d f a = f a.
Proof. unfold bump. by rewrite decide_False. Qed.
Ltac bumps := rewrite ?bump_eq, ?bump_none, ?bump_ne by congruence.

Definition same_objs (m m' : mem) : Prop :=
  forall a b', infos m' !! a = Some b' -> exists b, infos m !! a = Some b /\ obj b = obj b'.

Lemma same_objs_trans m1 m2 m3 : same_objs m1 m2 -> same_objs m2 m3 -> same_objs m1 m3.
Proof.
  intros H1 H2 a b Hb. destruct (H2 _ _ Hb) as (b2 & Hb2 & <-). destruct (H1 _ _ Hb2) as (b1 & ? & <-); eauto.
Qed.

(** Changing the counters of one block. *)
Lemma same_objs_update m a b u w o :
  infos m !! a = Some b -> same_objs m (Mem (<[a := Info u w (obj b)]> (infos m)) o).
Proof.
  intros Ha a' b'. cbn. rewrite lookup_insert. case_decide as E; [|by eauto].
  intros [= <-]. subst. eauto.
Qed.

Lemma counted_block m s w a : counted m s w -> 0 < s a \/ 0 < w a -> exists b, infos m !! a = Some b.
Proof.
  intros C H. destruct (infos m !! a) eqn:E; [eauto|]. destruct (c_none _ _ _ C a E). lia.
Qed.

(** A block whose counters change so that they still count, and which keeps
    or gains owners only as the set of objects says. *)
Lemma counted_update m s w s' w' a b b' :
  counted m s w -> infos m !! a = Some b -> obj b' = obj b ->
  (forall a', a' <> a -> s' a' = s a' /\ w' a' = w a') ->
  0 <= s' a /\ 0 <= w' a -> (0 < s a <-> 0 < s' a) ->
  useCount b' = s' a -> weakCount b' = w' a + cbool (0 <? s' a) -> 0 < weakCount b' ->
  counted (Mem (<[a := b']> (infos m)) (objects m)) s' w'.
Proof.
  intros [C1 C2 C3 C4 C5 C6] Hb Ho He Hn Hs Hu Hw Hp. split; cbn.
  - intros a'. destruct (decide (a' = a)) as [->|]; [done|]. destruct (He a') as [-> ->]; auto.
  - intros a' [H1 H2]%lookup_insert_None. destruct (He a') as [-> ->]; auto.
  - intros a' b1. rewrite lookup_insert. case_decide; [intros [= <-]; by subst|].
    destruct (He a') as [-> ->]; auto.
  - intros a' b1. rewrite lookup_insert. case_decide; [intros [= <-] ?; subst; rewrite Ho; apply (C4 a'); tauto|].
    destruct (He a') as [-> _]; eauto.
  - assert (forall x b1, <[a := b']> (infos m) !! x = Some b1 -> 0 < s' x ->
      exists b0, infos m !! x = Some b0 /\ 0 < s x /\ obj b1 = obj b0) as HL.
    { intros x b1. rewrite lookup_insert. case_decide; [intros [= <-] ?; subst; exists b; tauto|].
      destruct (He x) as [-> _]; eauto. }
    intros x y bx by' Hx Hy Sx Sy E. destruct (HL _ _ Hx Sx) as (? & ? & ? & ?), (HL _ _ Hy Sy) as (? & ? & ? & ?).
    eapply C5; eauto; congruence.
  - intros p Hin. destruct (C6 p Hin) as (x & bx & Hx & Ep & Sx). destruct (decide (x = a)) as [->|].
    + exists a, b'. rewrite lookup_insert_eq. split_and!; [done|congruence|tauto].
    + exists x, bx. rewrite lookup_insert_ne by done. destruct (He x) as [-> _]; auto.
Qed.

Lemma incrementStrongRefs_ok m s w p :
  counted m s w -> (forall a, info p = Some a -> 0 < s a /\ s a + 1 < 2 ^ 64) ->
  exists m', incrementStrongRefs p m = Ok ((), m') /\ counted m' (bump (info p) 1 s) w /\ same_objs m m'.
Proof.
  intros C H. unfold incrementStrongRefs. destruct (info p) as [a|].
  - destruct (H a eq_refl) as [H1 H2]. destruct (counted_block m s w a C ltac:(tauto)) as [b Hb].
    destruct (c_some _ _ _ C _ _ Hb) as (Hu & Hw & Hp).
    unfold load, store, mbind, st_bind. cbn. rewrite Hb. cbn. rewrite Hb. cbn. eexists. split; [done|].
    split; [|by apply same_objs_update].
    pose proof (c_nonneg _ _ _ C a).
    refine (counted_update m s w _ _ a b _ C Hb _ _ _ _ _ _ _); cbn [useCount weakCount obj add_use add_weak]; bumps; try lia; try done.
    + intros a' ?. by bumps.
    + rewrite Hu. unfold u64. rewrite wrap_small; mlia.
    + rewrite Hw. f_equal. replace (0 <? s a) with true by blia. by replace (0 <? s a + 1) with true by blia.
  - exists m. split_and!; [done| |intros ? ? ?; by eauto]. eapply counted_proper; [| |exact C]; intros a; by bumps.
Qed.

Lemma incrementWeakRefs_ok m s w p :
  counted m s w -> (forall a, info p = Some a -> (0 < s a \/ 0 < w a) /\ w a + 2 < 2 ^ 64) ->
  exists m', incrementWeakRefs p m = Ok ((), m') /\ counted m' s (bump (info p) 1 w) /\ same_objs m m'.
Proof.
  intros C H. unfold incrementWeakRefs. destruct (info p) as [a|].
  - destruct (H a eq_refl) as [H1 H2]. destruct (counted_block m s w a C H1) as [b Hb].
    destruct (c_some _ _ _ C _ _ Hb) as (Hu & Hw & Hp).
    unfold load, store, mbind, st_bind. cbn. rewrite Hb. cbn. rewrite Hb. cbn. eexists. split; [done|].
    split; [|by apply same_objs_update].
    pose proof (c_nonneg _ _ _ C a).
    assert (u64 (weakCount b + 1) = weakCount b + 1) as E.
    { unfold u64. apply wrap_small. rewrite Hw. unfold cbool. case_if; mlia. }
    refine (counted_update m s w _ _ a b _ C Hb _ _ _ _ _ _ _); cbn [useCount weakCount obj add_use add_weak]; bumps; try lia; try done.
    intros a' ?. by bumps.
  - exists m. split_and!; [done| |intros ? ? ?; by eauto]. eapply counted_proper; [| |exact C]; intros a; by bumps.
Qed.

(** The last pointer of one kind to a block goes: the block stays with a new
    weak count or is removed, and its object is no longer owned. *)
Lemma counted_retire m s w s' w' a b inf :
  counted m s w -> infos m !! a = Some b ->
  (forall a', a' <> a -> s' a' = s a' /\ w' a' = w a' /\ inf !! a' = infos m !! a') ->
  s' a = 0 -> 0 <= w' a ->
  inf !! a = (if decide (w' a = 0) then None else Some (Info 0 (w' a) (obj b))) ->
  counted (Mem inf (if decide (0 < s a) then objects m ∖ {[obj b]} else objects m)) s' w'.
Proof.
  intros [C1 C2 C3 C4 C5 C6] Hb He Hs Hw Ha.
  assert (forall x bx, inf !! x = Some bx -> 0 < s' x -> infos m !! x = Some bx /\ 0 < s x /\ x <> a) as HL.
  { intros x bx Hx Sx. destruct (decide (x = a)) as [->|Hxa]; [lia|]. destruct (He x Hxa) as (E1 & _ & E3).
    rewrite <- E3, <- E1. done. }
  split; cbn [infos objects].
  - intros x. destruct (decide (x = a)) as [->|Hxa]; [lia|]. destruct (He x Hxa) as (-> & -> & _); auto.
  - intros x Hx. destruct (decide (x = a)) as [->|Hxa].
    + rewrite Ha in Hx. by case_decide.
    + destruct (He x Hxa) as (-> & -> & E3). apply C2. congruence.
  - intros x bx Hx. destruct (decide (x = a)) as [->|Hxa].
    + rewrite Ha in Hx. case_decide; [done|]. injection Hx as <-. cbn. rewrite Hs. cbn. lia.
    + destruct (He x Hxa) as (-> & -> & E3). apply C3. congruence.
  - intros x bx Hx Sx. destruct (HL x bx Hx Sx) as (Hx' & Sx' & Hxa). pose proof (C4 _ _ Hx' Sx').
    destruct (decide (0 < s a)); [|done]. apply elem_of_difference. split; [done|]. intros E%elem_of_singleton.
    apply Hxa. by apply (C5 x a bx b).
  - intros x y bx b' Hx Hy Sx Sy E. destruct (HL _ _ Hx Sx) as (? & ? & ?), (HL _ _ Hy Sy) as (? & ? & ?).
    by apply (C5 x y bx b').
  - intros q Hin. assert (q ∈ objects m) as Hq by (destruct (decide (0 < s a)); set_solver).
    destruct (C6 q Hq) as (x & bx & Hx & Eq & Sx). exists x, bx.
    destruct (decide (x = a)) as [->|Hxa].
    + rewrite decide_True in Hin by done. simplify_eq. set_solver.
    + destruct (He x Hxa) as (-> & _ & ->). done.
Qed.

(** [drop_weak] on a block whose weak count is one more than what is counted. *)
Lemma drop_weak_ok m s w a b :
  infos m !! a = Some b -> 0 < weakCount b < 2 ^ 64 ->
  (let m1 := Mem (<[a := Info (useCount b) (weakCount b - 1) (obj b)]> (infos m)) (objects m) in
   if decide (weakCount b = 1) then counted (Mem (delete a (infos m1)) (objects m1)) s w
   else counted m1 s w) ->
  exists i m', drop_weak a m = Ok (i, m') /\ counted m' s w /\ same_objs m m'.
Proof.
  intros Hb Hw. cbn zeta. unfold drop_weak, load, store, delete_info, add_weak, mbind, st_bind. cbn. rewrite Hb. cbn. rewrite Hb. cbn.
  assert (u64 (weakCount b + -1) = weakCount b - 1) as -> by (apply wrap_small; mlia).
  destruct (decide (weakCount b = 1)) as [E|E]; cbn; intros C.
  - rewrite E in *. change (1 - 1 =? 0) with true. cbn. rewrite lookup_insert_eq. cbn. do 2 eexists. split; [done|]. split; [done|].
    intros a' b'. cbn. intros [? H]%lookup_delete_Some. rewrite lookup_insert_ne in H by done. eauto.
  - replace (weakCount b - 1 =? 0) with false by blia. do 2 eexists. split; [done|]. split; [done|].
    by apply same_objs_update.
Qed.

Lemma decrementWeakRefs_ok m s w p :
  counted m s w -> (forall a, info p = Some a -> 0 < w a /\ w a + 1 < 2 ^ 64) ->
  exists q m', decrementWeakRefs p m = Ok (q, m') /\ counted m' s (bump (info p) (-1) w) /\ same_objs m m'.
Proof.
  intros C H. unfold decrementWeakRefs. destruct (info p) as [a|].
  - destruct (H a eq_refl) as [H1 H2]. destruct (counted_block m s w a C ltac:(tauto)) as [b Hb].
    destruct (c_some _ _ _ C _ _ Hb) as (Hu & Hw & Hp). pose proof (c_nonneg _ _ _ C a) as Hn.
    destruct (drop_weak_ok m s (bump (Some a) (-1) w) a b Hb) as (i & m' & E & C' & S').
    + rewrite Hw in *. unfold cbool in *. case_if; mlia.
    + cbn zeta. case_decide as E1.
      * assert (s a = 0 /\ w a = 1) as [Es Ew]. { rewrite Hw in E1. unfold cbool in E1. destruct (Z.ltb_spec 0 (s a)); lia. }
        cbn. rewrite delete_insert_eq.
        pose proof (counted_retire m s w s (bump (Some a) (-1) w) a b (delete a (infos m)) C Hb) as R.
        rewrite (decide_False (P := 0 < s a)) in R by lia. apply R; bumps; [|done|lia|].
        -- intros a' ?. bumps. by rewrite lookup_delete_ne.
        -- rewrite decide_True by lia. by rewrite lookup_delete_eq.
      * refine (counted_update m s w _ _ a b _ C Hb _ _ _ _ _ _ _); cbn [useCount weakCount obj]; bumps; try lia; try done.
        intros a' ?. by bumps.
    + unfold mbind, st_bind. rewrite E. cbn. eauto.
  - exists p, m. split_and!; [done| |intros ? ? ?; by eauto]. eapply counted_proper; [| |exact C]; intros a; by bumps.
Qed.

Lemma decrementStrongRefs_ok m s w p :
  counted m s w -> (forall a, info p = Some a -> 0 < s a < 2 ^ 64 /\ w a + 1 < 2 ^ 64) ->
  exists q m', decrementStrongRefs p m = Ok (q, m') /\ counted m' (bump (info p) (-1) s) w /\ same_objs m m'.
Proof.
  intros C H. unfold decrementStrongRefs. destruct (info p) as [a|].
  - destruct (H a eq_refl) as [H1 H2]. destruct (counted_block m s w a C ltac:(left; lia)) as [b Hb].
    destruct (c_some _ _ _ C _ _ Hb) as (Hu & Hw & Hp). pose proof (c_nonneg _ _ _ C a) as Hn.
    replace (0 <? s a) with true in Hw by blia. cbn in Hw.
    unfold load, store, destroy, add_use, mbind, st_bind. cbn. rewrite Hb. cbn. rewrite Hb. cbn.
    assert (u64 (useCount b + -1) = s a - 1) as -> by (rewrite Hu; apply wrap_small; mlia).
    destruct (Z.eqb_spec (s a - 1) 0) as [E|E].
    + cbn. rewrite decide_True by (by eapply c_obj; eauto; lia).
      destruct (drop_weak_ok
        (Mem (<[a := Info (s a - 1) (weakCount b) (obj b)]> (infos m)) (objects m ∖ {[obj b]}))
        (bump (Some a) (-1) s) w a (Info (s a - 1) (weakCount b) (obj b))) as (i & m' & E' & C' & S').
      * cbn. by rewrite lookup_insert_eq.
      * cbn. rewrite Hw. mlia.
      * cbn -[decide]. rewrite insert_insert_eq, delete_insert_eq, Hw.
        pose proof (counted_retire m s w (bump (Some a) (-1) s) w a b) as R.
        rewrite (decide_True (P := 0 < s a)) in R by lia.
        destruct (decide (w a + 1 = 1)); apply R; bumps; try done; try lia; try (intros a' ?; bumps);
          try (by rewrite ?lookup_delete_ne, ?lookup_insert_ne).
        -- rewrite decide_True by lia. by rewrite lookup_delete_eq.
        -- rewrite decide_False by lia. rewrite lookup_insert_eq. do 2 f_equal; lia.
      * rewrite E'. cbn. eexists _, m'. split; [done|]. split; [done|].
        eapply same_objs_trans; [|exact S']. by apply same_objs_update.
    + cbn. eexists p, _. split; [done|]. split; [|by apply same_objs_update].
      refine (counted_update m s w _ _ a b _ C Hb _ _ _ _ _ _ _); cbn [useCount weakCount obj]; bumps; try lia; try done.
      * intros a' ?. by bumps.
      * replace (0 <? s a + -1) with true by blia. cbn. lia.
  - exists p, m. split_and!; [done| |intros ? ? ?; by eauto]. eapply counted_proper; [| |exact C]; intros a; by bumps.
Qed.

(** What one operation leaves of the objects that blocks belong to. *)
Definition keeps (m m' : mem) : Prop :=
  forall a b b', infos m !! a = Some b -> infos m' !! a = Some b' -> obj b' = obj b.

Lemma same_objs_keeps m m' : same_objs m m' -> keeps m m'.
Proof. intros H a b b' Hb Hb'. destruct (H _ _ Hb') as (? & ? & <-). congruence. Qed.
Lemma keeps_refl m : keeps m m.
Proof. intros a b b' ? ?. congruence. Qed.

Lemma MakeShared_ok m s w :
  counted m s w ->
  exists a p m', MakeShared m = Ok (MkPtr (Some a) (Some p), m') /\
    counted m' (bump (Some a) 1 s) w /\ keeps m m' /\ exists b, infos m' !! a = Some b /\ obj b = p.
Proof.
  intros [C1 C2 C3 C4 C5 C6]. unfold MakeShared.
  set (p := alloc (objects m)). set (a := alloc (dom (infos m))).
  assert (p ∉ objects m) as Hp by apply alloc_fresh.
  assert (infos m !! a = None) as Ha by (apply not_elem_of_dom, alloc_fresh).
  destruct (C2 a Ha) as [Hs Hw].
  assert (forall x bx, <[a := Info 1 1 p]> (infos m) !! x = Some bx -> x <> a -> infos m !! x = Some bx) as HL.
  { intros x bx Hx ?. by rewrite lookup_insert_ne in Hx. }
  exists a, p. eexists. split; [done|]. split_and!; [split; cbn [infos objects]| |].
  - intros x. unfold bump. destruct (C1 x). case_decide; lia.
  - intros x [Hx ?]%lookup_insert_None. bumps. auto.
  - intros x bx Hx. destruct (decide (x = a)) as [->|Hxa]; bumps.
    + rewrite lookup_insert_eq in Hx. injection Hx as <-. rewrite Hs, Hw. done.
    + apply C3. auto.
  - intros x bx Hx. destruct (decide (x = a)) as [->|Hxa]; bumps.
    + rewrite lookup_insert_eq in Hx. injection Hx as <-. cbn. set_solver.
    + intros ?. apply elem_of_union_r. eapply C4; eauto.
  - intros x y bx b' Hx Hy. destruct (decide (x = a)) as [->|Hxa], (decide (y = a)) as [->|Hya]; bumps; [done| | |].
    + rewrite lookup_insert_eq in Hx. injection Hx as <-. cbn. intros ? Sy ->. exfalso. apply Hp. eapply C4; eauto.
    + rewrite lookup_insert_eq in Hy. injection Hy as <-. cbn. intros Sx ? E. exfalso. apply Hp. rewrite <- E. eapply C4; eauto.
    + intros. eapply C5; eauto.
  - intros q [->%elem_of_singleton|Hq]%elem_of_union.
    + exists a, (Info 1 1 p). rewrite lookup_insert_eq. bumps. rewrite Hs. done.
    + destruct (C6 q Hq) as (x & bx & Hx & Eq & Sx). exists x, bx.
      assert (x <> a) by congruence. rewrite lookup_insert_ne by done. bumps. done.
  - intros x bx b' Hx. cbn. rewrite lookup_insert_ne by congruence. congruence.
  - exists (Info 1 1 p). cbn. by rewrite lookup_insert_eq.
Qed.

Lemma lock_ok m s w q :
  counted m s w -> (forall a, info q = Some a -> 0 < w a /\ s a + 1 < 2 ^ 64) ->
  let r := match info q with
           | Some a => if 0 <? s a then MkPtr (Some a) (ptr q) else nullPtr
           | None => nullPtr
           end in
  exists m', lock q m = Ok (r, m') /\ counted m' (bump (info r) 1 s) w /\ same_objs m m'.
Proof.
  intros C H. unfold lock. destruct (info q) as [a|].
  - destruct (H a eq_refl) as [H1 H2]. destruct (counted_block m s w a C ltac:(tauto)) as [b Hb].
    destruct (c_some _ _ _ C _ _ Hb) as (Hu & Hw & Hp). pose proof (c_nonneg _ _ _ C a) as Hn.
    unfold load, mbind, st_bind. cbn. rewrite Hb. cbn. unfold load, store, mbind, st_bind. rewrite Hu.
    destruct (Z.ltb_spec 0 (s a)) as [Hs|Hs].
    + replace (s a =? 0) with false by blia. cbn. rewrite Hb. cbn. rewrite Hu, Z.eqb_refl. cbn. rewrite Hb. cbn.
      eexists. split; [done|]. split; [|by apply same_objs_update].
      assert (u64 (s a + 1) = s a + 1) as -> by (apply wrap_small; mlia).
      refine (counted_update m s w _ _ a b _ C Hb _ _ _ _ _ _ _); cbn [useCount weakCount obj info]; bumps; try lia; try done.
      * intros a' ?. by bumps.
      * replace (0 <? s a + 1) with true by blia. done.
    + replace (s a =? 0) with true by blia. exists m. split; [done|]. split; [|intros ? ? ?; by eauto].
      eapply counted_proper; [| |exact C]; intros x; by bumps.
  - exists m. split; [done|]. split; [|intros ? ? ?; by eauto].
    eapply counted_proper; [| |exact C]; intros x; by bumps.
Qed.

(** ** Counting the variables *)

Definition refs (t : gmap Z Ptr) (a : Z) : Z :=
  Z.of_nat (size (filter (fun e : Z * Ptr => info e.2 = Some a) t)).

Lemma refs_new t x p a : t !! x = None -> refs (<[x := p]> t) a = bump (info p) 1 (refs t) a.
Proof.
  intros Hx. unfold refs, bump. rewrite map_filter_insert. cbn. case_decide as E.
  - rewrite map_size_insert_None by (apply map_lookup_filter_None; left; done). lia.
  - by rewrite delete_id by done.
Qed.
Lemma refs_end t x p a : t !! x = Some p -> refs (delete x t) a = bump (info p) (-1) (refs t) a.
Proof.
  intros Hx. pose proof (refs_new (delete x t) x p a (lookup_delete_eq t x)) as E.
  rewrite insert_delete_id in E by done. unfold bump in *. case_decide; lia.
Qed.
Lemma refs_change t x p q a :
  t !! x = Some p -> refs (<[x := q]> t) a = bump (info q) 1 (bump (info p) (-1) (refs t)) a.
Proof.
  intros Hx. rewrite <- insert_delete_eq, refs_new by apply lookup_delete_eq.
  unfold bump. rewrite (refs_end t x p a Hx). done.
Qed.
Lemma refs_pos t x p a : t !! x = Some p -> info p = Some a -> 0 < refs t a.
Proof.
  intros Hx Hp. unfold refs. enough (size (filter (fun e : Z * Ptr => info e.2 = Some a) t) <> 0%nat) by lia.
  rewrite map_size_non_empty_iff. intros E.
  assert (filter (fun e : Z * Ptr => info e.2 = Some a) t !! x = Some p) as F by (by apply map_lookup_filter_Some).
  by rewrite E in F.
Qed.
Lemma refs_le t a : refs t a <= Z.of_nat (size t).
Proof. unfold refs. apply Nat2Z.inj_le. by apply map_subseteq_size, map_filter_subseteq. Qed.

Definition ptr_ok (m : mem) (p : Ptr) : Prop :=
  match info p with
  | None => ptr p = None
  | Some a => exists b, infos m !! a = Some b /\ ptr p = Some (obj b)
  end.

(** After [n] steps: blocks count the variables, and a pointer that is not
    null is the object of its block. *)
Record inv (n : nat) (s : world) : Prop := {
  i_count : counted (memory s) (refs (shared s)) (refs (weak s));
  i_shared : forall x p, shared s !! x = Some p -> ptr_ok (memory s) p;
  i_weak : forall x p, weak s !! x = Some p -> ptr_ok (memory s) p;
  i_size : (size (shared s) + size (weak s) <= n)%nat
}.

Lemma ptr_ok_keeps m m' sh wk p :
  counted m' (refs sh) (refs wk) -> keeps m m' -> ptr_ok m p ->
  (exists x, sh !! x = Some p \/ wk !! x = Some p) -> ptr_ok m' p.
Proof.
  unfold ptr_ok. intros C K Hp [x Hx]. destruct (info p) as [a|] eqn:E; [|done].
  destruct Hp as (b & Hb & ->). destruct (counted_block m' _ _ a C) as [b' Hb'].
  { destruct Hx; [left|right]; by eapply refs_pos. }
  exists b'. split; [done|]. f_equal. symmetry. by eapply K.
Qed.

Lemma inv_intro n s m' sh wk :
  inv n s -> counted m' (refs sh) (refs wk) -> keeps (memory s) m' -> (size sh + size wk <= S n)%nat ->
  (forall x p, sh !! x = Some p -> shared s !! x = Some p \/ ptr_ok (memory s) p \/ ptr_ok m' p) ->
  (forall x p, wk !! x = Some p -> weak s !! x = Some p \/ ptr_ok (memory s) p \/ ptr_ok m' p) ->
  inv (S n) (World m' sh wk).
Proof.
  intros I C K Hn Hs Hw. split; cbn; [done| | |done].
  - intros x p Hp. destruct (Hs x p Hp) as [H|[H|H]]; [| |done];
      (eapply ptr_ok_keeps; [done..| |eauto]); eauto using i_shared.
  - intros x p Hp. destruct (Hw x p Hp) as [H|[H|H]]; [| |done];
      (eapply ptr_ok_keeps; [done..| |eauto]); eauto using i_weak.
Qed.

(** The tables after a construction, an assignment and a destruction. *)
Lemma inv_set_shared n s m' x p :
  inv n s -> keeps (memory s) m' -> ptr_ok (memory s) p \/ ptr_ok m' p ->
  counted m' (bump (info p) 1 (match shared s !! x with
                               | Some q => bump (info q) (-1) (refs (shared s))
                               | None => refs (shared s) end)) (refs (weak s)) ->
  inv (S n) (World m' (<[x := p]> (shared s)) (weak s)).
Proof.
  intros I K Hp C. pose proof (i_size _ _ I). eapply inv_intro; [done| |done| | |by eauto].
  - eapply counted_proper; [| |exact C]; intros a; [|done].
    destruct (shared s !! x) eqn:E; [by apply refs_change|by apply refs_new].
  - pose proof (map_size_insert x p (shared s)) as E. destruct (shared s !! x); unfold id in E; lia.
  - intros y q. rewrite lookup_insert. case_decide; [intros [= <-]|]; tauto.
Qed.
Lemma inv_set_weak n s m' x p :
  inv n s -> keeps (memory s) m' -> ptr_ok (memory s) p \/ ptr_ok m' p ->
  counted m' (refs (shared s)) (bump (info p) 1 (match weak s !! x with
                               | Some q => bump (info q) (-1) (refs (weak s))
                               | None => refs (weak s) end)) ->
  inv (S n) (World m' (shared s) (<[x := p]> (weak s))).
Proof.
  intros I K Hp C. pose proof (i_size _ _ I). eapply inv_intro; [done| |done| |by eauto|].
  - eapply counted_proper; [| |exact C]; intros a; [done|].
    destruct (weak s !! x) eqn:E; [by apply refs_change|by apply refs_new].
  - pose proof (map_size_insert x p (weak s)) as E. destruct (weak s !! x); unfold id in E; lia.
  - intros y q. rewrite lookup_insert. case_decide; [intros [= <-]|]; tauto.
Qed.

Lemma inv_end_shared n s m' x p :
  inv n s -> keeps (memory s) m' -> shared s !! x = Some p ->
  counted m' (bump (info p) (-1) (refs (shared s))) (refs (weak s)) ->
  inv (S n) (World m' (delete x (shared s)) (weak s)).
Proof.
  intros I K Hp C. pose proof (i_size _ _ I). eapply inv_intro; [done| |done| | |by eauto].
  - eapply counted_proper; [| |exact C]; intros a; [by apply refs_end|done].
  - pose proof (map_size_delete x (shared s)) as E. rewrite Hp in E. lia.
  - intros y q [_ ?]%lookup_delete_Some. by left.
Qed.
Lemma inv_end_weak n s m' x p :
  inv n s -> keeps (memory s) m' -> weak s !! x = Some p ->
  counted m' (refs (shared s)) (bump (info p) (-1) (refs (weak s))) ->
  inv (S n) (World m' (shared s) (delete x (weak s))).
Proof.
  intros I K Hp C. pose proof (i_size _ _ I). eapply inv_intro; [done| |done| |by eauto|].
  - eapply counted_proper; [| |exact C]; intros a; [done|by apply refs_end].
  - pose proof (map_size_delete x (weak s)) as E. rewrite Hp in E. lia.
  - intros y q [_ ?]%lookup_delete_Some. by left.
Qed.

Lemma inv_weaken n s : inv n s -> inv (S n) s.
Proof. intros [? ? ? ?]. split; auto with lia. Qed.

Lemma ptr_ok_null m : ptr_ok m nullPtr.
Proof. done. Qed.

Lemma refs_bound n s a : inv n s -> 0 <= refs (shared s) a <= Z.of_nat n /\ 0 <= refs (weak s) a <= Z.of_nat n.
Proof.
  intros [C _ _ Hn]. pose proof (c_nonneg _ _ _ C a). pose proof (refs_le (shared s) a).
  pose proof (refs_le (weak s) a). lia.
Qed.

Definition no_weak_copy (o : op) : bool := match o with WCopy _ _ => false | _ => true end.

Ltac ran :=
  cbn; eexists; split; [reflexivity|];
  unfold set_shared, set_weak, end_shared, end_weak; cbn [memory shared weak].
Ltac stepped E := rewrite E; ran.

(** The operations on shared pointers alone. *)
Definition on_shared (o : op) : bool :=
  match o with SMake _ | SNull _ | SCopy _ _ | SAssign _ _ | SAssignNull _ | SDtor _ => true | _ => false end.

Lemma step_shared_ok n s o r :
  inv n s -> Z.of_nat n < 2 ^ 64 - 2 -> on_shared o -> step o s = Some r ->
  exists s', r = Ok ((), s') /\ inv (S n) s'.
Proof.
  intros I Hn Ho. pose proof (i_count _ _ I) as C. pose proof (fun a => refs_bound n s a I) as B.
  pose proof (refs_pos (shared s)) as PS. 
  destruct o as [x|x|x y|x y|x|x|w|w x|w v|w|w|x w|w|w v];
    try done;
    cbv beta iota zeta delta [step mbind option_bind];
    repeat (let H := fresh "L" in match goal with |- context [?t !! ?k] => destruct (t !! k) eqn:H end;
            cbv beta iota; try done);
    intros [= <-].
  - destruct (MakeShared_ok _ _ _ C) as (a & q & m' & E & C' & K & b & Hb & <-).
    unfold run_mem. stepped E.
    eapply inv_set_shared; [done|done|right; by exists b|]. by rewrite L.
  - unfold run_mem. ran.
    eapply inv_set_shared; [done|apply keeps_refl|by left|]. rewrite L.
    eapply counted_proper; [| |exact C]; intros a; by bumps.
  - destruct (incrementStrongRefs_ok _ _ _ p C) as (m' & E & C' & K).
    { intros a Ha. specialize (B a). pose proof (PS _ _ _ L0 Ha). lia. }
    unfold run_mem, SharedPtr_copy, mbind, st_bind. stepped E.
    eapply inv_set_shared; [done|by apply same_objs_keeps|left; by eapply i_shared|]. by rewrite L.
  - destruct (Z.eqb_spec x y) as [->|Hxy]; [exists s; split; [done|by apply inv_weaken]|].
    destruct (decrementStrongRefs_ok _ _ _ p C) as (q & m1 & E1 & C1 & K1).
    { intros a Ha. specialize (B a). pose proof (PS _ _ _ L Ha). lia. }
    assert (delete x (shared s) !! y = Some p0) as Ly by (by rewrite lookup_delete_ne).
    destruct (incrementStrongRefs_ok _ _ _ p0 C1) as (m2 & E2 & C2 & K2).
    { intros a Ha. rewrite <- (refs_end _ _ _ a L). pose proof (refs_pos _ _ _ a Ly Ha).
      split; [done|]. rewrite (refs_end _ _ _ _ L). unfold bump. specialize (B a). case_decide; lia. }
    unfold run_mem, SharedPtr_assign, mbind, st_bind. rewrite E1. stepped E2.
    eapply inv_set_shared; [done|apply same_objs_keeps; by eapply same_objs_trans|left; by eapply i_shared|]. by rewrite L.
  - destruct (decrementStrongRefs_ok _ _ _ p C) as (q & m1 & E1 & C1 & K1).
    { intros a Ha. specialize (B a). pose proof (PS _ _ _ L Ha). lia. }
    unfold run_mem, SharedPtr_assign_null, mbind, st_bind. stepped E1.
    eapply inv_set_shared; [done|by apply same_objs_keeps|by left|]. rewrite L.
    eapply counted_proper; [| |exact C1]; intros a; by bumps.
  - destruct (decrementStrongRefs_ok _ _ _ p C) as (q & m1 & E1 & C1 & K1).
    { intros a Ha. specialize (B a). pose proof (PS _ _ _ L Ha). lia. }
    unfold run_mem, SharedPtr_dtor, mbind, st_bind. stepped E1.
    eapply inv_end_shared; [done|by apply same_objs_keeps|done..].
Qed.

Lemma step_weak_ok n s o r :
  inv n s -> Z.of_nat n < 2 ^ 64 - 2 -> no_weak_copy o -> on_shared o = false -> step o s = Some r ->
  exists s', r = Ok ((), s') /\ inv (S n) s'.
Proof.
  intros I Hn Ho Hs. pose proof (i_count _ _ I) as C. pose proof (fun a => refs_bound n s a I) as B.
  pose proof (refs_pos (shared s)) as PS. pose proof (refs_pos (weak s)) as PW.
  destruct o as [x|x|x y|x y|x|x|w|w x|w v|w|w|x w|w|w v];
    try done;
    cbv beta iota zeta delta [step mbind option_bind];
    repeat (let H := fresh "L" in match goal with |- context [?t !! ?k] => destruct (t !! k) eqn:H end;
            cbv beta iota; try done);
    intros [= <-].
  - unfold run_mem. ran.
    eapply inv_set_weak; [done|apply keeps_refl|by left|]. rewrite L.
    eapply counted_proper; [| |exact C]; intros a; by bumps.
  - destruct (incrementWeakRefs_ok _ _ _ p C) as (m' & E & C' & K).
    { intros a Ha. specialize (B a). pose proof (PS _ _ _ L0 Ha). lia. }
    unfold run_mem, WeakPtr_of, mbind, st_bind. stepped E.
    eapply inv_set_weak; [done|by apply same_objs_keeps|left; by eapply i_shared|]. by rewrite L.
  - destruct (Z.eqb_spec w v) as [->|Hxy]; [exists s; split; [done|by apply inv_weaken]|].
    destruct (decrementWeakRefs_ok _ _ _ p C) as (q & m1 & E1 & C1 & K1).
    { intros a Ha. specialize (B a). pose proof (PW _ _ _ L Ha). lia. }
    assert (delete w (weak s) !! v = Some p0) as Ly by (by rewrite lookup_delete_ne).
    destruct (incrementWeakRefs_ok _ _ _ p0 C1) as (m2 & E2 & C2 & K2).
    { intros a Ha. rewrite <- (refs_end _ _ _ a L). pose proof (refs_pos _ _ _ a Ly Ha).
      split; [by right|]. rewrite (refs_end _ _ _ _ L). unfold bump. specialize (B a). case_decide; lia. }
    unfold run_mem, WeakPtr_assign, mbind, st_bind. rewrite E1. stepped E2.
    eapply inv_set_weak; [done|apply same_objs_keeps; by eapply same_objs_trans|left; by eapply i_weak|]. by rewrite L.
  - destruct (decrementWeakRefs_ok _ _ _ p C) as (q & m1 & E1 & C1 & K1).
    { intros a Ha. specialize (B a). pose proof (PW _ _ _ L Ha). lia. }
    unfold run_mem, WeakPtr_assign_null, mbind, st_bind. stepped E1.
    eapply inv_set_weak; [done|by apply same_objs_keeps|by left|]. rewrite L.
    eapply counted_proper; [| |exact C1]; intros a; by bumps.
  - destruct (decrementWeakRefs_ok _ _ _ p C) as (q & m1 & E1 & C1 & K1).
    { intros a Ha. specialize (B a). pose proof (PW _ _ _ L Ha). lia. }
    unfold run_mem, WeakPtr_dtor, mbind, st_bind. stepped E1.
    eapply inv_end_weak; [done|by apply same_objs_keeps|done..].
  - destruct (lock_ok _ _ _ p C) as (m' & E & C' & K).
    { intros a Ha. specialize (B a). pose proof (PW _ _ _ L0 Ha). lia. }
    unfold run_mem. stepped E.
    eapply inv_set_shared; [done|by apply same_objs_keeps| |].
    + left. pose proof (i_weak _ _ I _ _ L0) as P. unfold ptr_ok in *.
      destruct (info p) as [a|]; [destruct (0 <? refs (shared s) a)|]; done.
    + by rewrite L.
  - exists s. split; [|by apply inv_weaken].
    unfold run_mem, expired, getStrongRefs, load, mbind, st_bind.
    destruct (info p) as [a|] eqn:Ha; [|by destruct s].
    destruct (counted_block _ _ _ a C) as [b Hb]; [right; by eapply PW|]. cbn. rewrite Hb. cbn. by destruct s.
Qed.

Lemma step_ok n s o r :
  inv n s -> Z.of_nat n < 2 ^ 64 - 2 -> no_weak_copy o -> step o s = Some r ->
  exists s', r = Ok ((), s') /\ inv (S n) s'.
Proof. destruct (on_shared o) eqn:E; eauto using step_shared_ok, step_weak_ok. Qed.

Lemma run_ok l : forall n s,
  inv n s -> Z.of_nat (n + length l) < 2 ^ 64 - 2 -> forallb no_weak_copy l ->
  exists s', run l s = Ok s' /\ inv (n + length l) s'.
Proof.
  induction l as [|o l IH]; intros n s I Hn Hl; cbn [length] in *.
  - exists s. rewrite Nat.add_0_r. done.
  - cbn in Hl. apply andb_prop_elim in Hl as [Ho Hl]. cbn [run].
    replace (n + S (length l))%nat with (S n + length l)%nat in * by lia.
    destruct (step o s) as [r|] eqn:E.
    + destruct (step_ok n s o r I ltac:(lia) Ho E) as (s' & -> & I'). apply (IH (S n)); [done|lia|done].
    + apply (IH (S n)); [by apply inv_weaken|lia|done].
Qed.

Lemma inv_init : inv 0 init.
Proof.
  split; cbn; [split; cbn|..]; intros *; try (by rewrite ?lookup_empty); try set_solver.
  all: unfold refs; rewrite ?map_filter_empty, ?map_size_empty; done.
Qed.

Lemma owned_iff n s q : inv n s ->
  q ∈ objects (memory s) <-> exists x p, shared s !! x = Some p /\ ptr p = Some q.
Proof.
  intros I. pose proof (i_count _ _ I) as C. split.
  - intros Hq. destruct (c_owned _ _ _ C q Hq) as (a & b & Hb & <- & Ha).
    unfold refs in Ha. destruct (map_choose (filter (fun e : Z * Ptr => info e.2 = Some a) (shared s))) as (x & p & Hp).
    { intros E. rewrite E in Ha. by rewrite map_size_empty in Ha. }
    apply map_lookup_filter_Some in Hp as [Hp Ep]. exists x, p. split; [done|].
    pose proof (i_shared _ _ I x p Hp) as P. unfold ptr_ok in P. cbn in Ep. rewrite Ep in P.
    destruct P as (b' & Hb' & ->). congruence.
  - intros (x & p & Hx & Hp). pose proof (i_shared _ _ I x p Hx) as P. unfold ptr_ok in P.
    destruct (info p) as [a|] eqn:Ea; [|congruence]. destruct P as (b & Hb & Eb).
    assert (q = obj b) as -> by congruence. eapply c_obj; eauto. by eapply refs_pos.
Qed.

(** [HandleInfo info(object); handles.push_back(info)] of [Manager::allocate]
    (kernel/src/handle/Manager.h), as far as the weak pointer is concerned: the
    local variable, the parameter of [push_back] passed by value, the slot
    constructed in the vector and assigned, and the end of the two variables. *)
Definition push_back_weak (object local value slot : Z) : list op :=
  [WOf local object; WCopy value local; WNull slot; WAssign slot value; WDtor value; WDtor local].

(** C7: in every program of constructions, copies, assignments, locks and
    destructions of shared and weak pointers that does not use the implicit
    copy constructor of [WeakPtr] and makes fewer than 2^64 - 2 steps, no step
    touches a freed information block or deletes an object twice.  At the end a
    shared pointer that is not null points to a live object whose block counts
    exactly the shared pointers to it; an object is alive exactly while a shared
    pointer owns it; a block is allocated exactly while some pointer refers to
    it; and locking a weak pointer gives its object exactly if that is alive. *)
Theorem smart_pointers_safe (l : list op) :
  Z.of_nat (length l) < 2 ^ 64 - 2 -> forallb no_weak_copy l = true ->
  exists s, run l init = Ok s /\
    (forall x p a, shared s !! x = Some p -> info p = Some a ->
       exists b, infos (memory s) !! a = Some b /\ ptr p = Some (obj b) /\
                 obj b ∈ objects (memory s) /\ useCount b = refs (shared s) a) /\
    (forall q, q ∈ objects (memory s) <-> exists x p, shared s !! x = Some p /\ ptr p = Some q) /\
    (forall a, is_Some (infos (memory s) !! a) <-> 0 < refs (shared s) a \/ 0 < refs (weak s) a) /\
    (forall w q, weak s !! w = Some q -> exists r m', lock q (memory s) = Ok (r, m') /\
       (forall o, ptr r = Some o <-> ptr q = Some o /\ o ∈ objects (memory s) /\
          exists a, info q = Some a /\ 0 < refs (shared s) a)).
Proof.
  intros Hl Hc. destruct (run_ok l 0 init inv_init) as (s & E & I); [done|by rewrite Hc|].
  pose proof (i_count _ _ I) as C. exists s. split_and!; [done| | | |].
  - intros x p a Hx Ha. pose proof (i_shared _ _ I x p Hx) as P. unfold ptr_ok in P. rewrite Ha in P.
    destruct P as (b & Hb & Hp). exists b. pose proof (refs_pos _ _ _ _ Hx Ha).
    destruct (c_some _ _ _ C a b Hb) as (? & _ & _). split_and!; eauto using c_obj.
  - intros q. by apply (owned_iff _ _ _ I).
  - intros a. split; [|by apply counted_block].
    intros [b Hb]. destruct (c_some _ _ _ C a b Hb) as (_ & Hw & Hp). rewrite Hw in Hp.
    destruct (Z.ltb_spec 0 (refs (shared s) a)); [by left|]. right. cbn in Hp. lia.
  - intros w q Hq. destruct (lock_ok _ _ _ q C) as (m' & El & _ & _).
    { intros a Ha. pose proof (refs_bound _ _ a I). pose proof (refs_pos _ _ _ _ Hq Ha). cbn in *. lia. }
    eexists _, m'. split; [exact El|]. intros o. pose proof (i_weak _ _ I w q Hq) as P. unfold ptr_ok in P.
    destruct (info q) as [a|] eqn:Ha; [|cbn; split; [done|intros (_ & _ & a & [=] & _)]].
    destruct P as (b & Hb & Hp). destruct (Z.ltb_spec 0 (refs (shared s) a)) as [Hs|Hs]; cbn.
    + split; [|tauto]. intros Ho. split; [done|]. split; [|by exists a].
      rewrite Hp in Ho. injection Ho as <-. by eapply c_obj.
    + split; [done|]. intros (_ & _ & a' & [= <-] & ?). lia.
Qed.

End SmartPtr.

(** An allocator that puts a block behind all others. *)
Definition above (d : gset Z) : Z := 1 + set_fold Z.max 0 d.
Lemma above_fresh d : above d ∉ d.
Proof.
  enough (forall x, x ∈ d -> x <= set_fold Z.max 0 d) as H by (intros Hin%H; unfold above in Hin; lia).
  apply (set_fold_ind_L (fun r X => forall x, x ∈ X -> x <= r)); [set_solver|].
  intros x X r _ IH y [->%elem_of_singleton|Hy%IH]%elem_of_union; lia.
Qed.
#[export] Instance above_alloc : Alloc := {| alloc := above; alloc_fresh := above_fresh |}.

(** The slot of a handle that [Manager::allocate] appends does not hold its
    information block.  The copy of the weak pointer into the parameter of
    [push_back] does not count, its destruction does; when the object dies the
    block is freed although the slot refers to it, and the next look at the slot
    ([expired], by the next [allocate]) reads freed memory. *)
Theorem handle_slot_dangles :
  exists s a p, run (SMake 1 :: push_back_weak 1 10 11 12 ++ [SDtor 1]) init = Ok s /\
    weak s !! 12 = Some (MkPtr (Some a) (Some p)) /\ infos (memory s) !! a = None /\
    step (WExpired 12) s = Some Stuck.
Proof. eexists _, _, _. split; [vm_compute; reflexivity|]. split; [|split]; vm_compute; reflexivity. Qed.

Lemma smart_pointers_safe_witness :
  exists s, run [SMake 1; WOf 10 1; SCopy 2 1; SDtor 1; WLock 3 10; SDtor 2; SAssignNull 3; WLock 4 10] init = Ok s /\
    objects (memory s) = ∅.
Proof.
  destruct (smart_pointers_safe
    [SMake 1; WOf 10 1; SCopy 2 1; SDtor 1; WLock 3 10; SDtor 2; SAssignNull 3; WLock 4 10]) as (s & E & _);
    [by vm_compute|by vm_compute|].
  exists s. split; [done|]. vm_compute in E. injection E as <-. by vm_compute.
Defined.
