(* ===== verification/DList.v ===== *)
(** * The kernel's linked list and queue (kernel/src/runtime/List.h, Queue.h)

    A doubly linked list with its elements in a heap that belongs to the list:
    following a null pointer or a pointer to a deleted element is [Stuck], and
    the queue on top of it.  The theorems relate the pointers to the sequence of
    values. *)

From S2P Require Import Prelude SmartPtr.

Section DList.
Context {Al : Alloc} {A : Type}.

Record Element := Elem { value : A; prev : option Z; next : option Z }.
Record DList := { cells : gmap Z Element; head : option Z; tail : option Z; numElements : Z }.

Definition newList : DList := {| cells := ∅; head := None; tail := None; numElements := 0 |}.

Definition set_cells (c : gmap Z Element) (l : DList) : DList := Build_DList c (head l) (tail l) (numElements l).
Definition set_head (h : option Z) (l : DList) : DList := Build_DList (cells l) h (tail l) (numElements l).
Definition set_tail (t : option Z) (l : DList) : DList := Build_DList (cells l) (head l) t (numElements l).
Definition set_num (n : Z) (l : DList) : DList := Build_DList (cells l) (head l) (tail l) n.

(** [p->...] read, [p->prev = x], [p->next = x] and [delete p]. *)
Definition cell (p : option Z) : st DList Element := fun l =>
  a ← res_of p; e ← res_of (cells l !! a); Ok (e, l).
Definition store_cell (p : option Z) (f : Element -> Element) : st DList () := fun l =>
  a ← res_of p; e ← res_of (cells l !! a); Ok ((), set_cells (<[a := f e]> (cells l)) l).
Definition set_prev (q : option Z) (e : Element) : Element := Elem (value e) q (next e).
Definition set_next (q : option Z) (e : Element) : Element := Elem (value e) (prev e) q.
Definition delete_cell (p : option Z) : st DList () := fun l =>
  a ← res_of p; _ ← res_of (cells l !! a); Ok ((), set_cells (delete a (cells l)) l).
(** [new Element(value)]. *)
Definition new_cell (v : A) : st DList (option Z) := fun l =>
  let a := alloc (dom (cells l)) in Ok (Some a, set_cells (<[a := Elem v None None]> (cells l)) l).
Definition assign (f : DList -> DList) : st DList () := fun l => Ok ((), f l).
Definition read {B} (f : DList -> B) : st DList B := fun l => Ok (f l, l).

Definition prepend (v : A) : st DList () :=
  el ← new_cell v;
  h ← read head;
  _ ← match h with
      | Some _ =>
          _ ← store_cell h (set_prev el);
          _ ← store_cell el (set_next h);
          assign (set_head el)
      | None => _ ← assign (set_tail el); assign (set_head el)
      end;
  assign (fun l => set_num (u64 (numElements l + 1)) l).

Definition append (v : A) : st DList () :=
  el ← new_cell v;
  t ← read tail;
  _ ← match t with
      | Some _ =>
          _ ← store_cell t (set_next el);
          _ ← store_cell el (set_prev t);
          assign (set_tail el)
      | None => _ ← assign (set_tail el); assign (set_head el)
      end;
  assign (fun l => set_num (u64 (numElements l + 1)) l).

(** [remove(index)]: only the head can be removed. *)
Definition remove_index (index : Z) : st DList () :=
  n ← read numElements;
  _ ← slift (REQUIRE (index <? n));
  if index =? 0 then
    currentHead ← read head;
    e ← cell currentHead;
    _ ← match next e with
        | Some _ =>
            _ ← store_cell (next e) (set_prev None);
            _ ← assign (set_head (next e));
            assign (fun l => set_num (u64 (numElements l - 1)) l)
        | None => assign (fun l => set_num 0 (set_tail None (set_head None l)))
        end;
    delete_cell currentHead
  else sabort.

Fixpoint clear_loop (fuel : nat) (ptr : option Z) : st DList () :=
  match fuel with
  | O => sstuck
  | S fuel =>
      match ptr with
      | None => mret ()
      | Some _ =>
          e ← cell ptr;
          _ ← assign (fun l => set_num (u64 (numElements l - 1)) l);
          _ ← delete_cell ptr;
          clear_loop fuel (next e)
      end
  end.
Definition clear_list : st DList () :=
  ptr ← read head;
  n ← read numElements;
  _ ← assign (set_head None);
  _ ← clear_loop (S (Z.to_nat n)) ptr;
  assign (set_tail None).

(** The part of [_removeMatching] that takes an element out: both neighbours, or
    the ends of the list, skip it. *)
Definition unlink (e : Element) : st DList () :=
  _ ← match prev e with
      | Some _ => store_cell (prev e) (set_next (next e))
      | None => assign (set_head (next e))
      end;
  match next e with
  | Some _ => store_cell (next e) (set_prev (prev e))
  | None => assign (set_tail (prev e))
  end.

(** [_removeMatching]: the callback keeps a state of its own. *)
Fixpoint match_loop {C} (callback : C -> A -> bool * C) (fuel : nat) (ent : option Z) (c : C) (numRemoved : Z)
    : st DList (C * Z) :=
  match fuel with
  | O => sstuck
  | S fuel =>
      match ent with
      | None => mret (c, numRemoved)
      | Some _ =>
          e ← cell ent;
          _ ← slift (REQUIRE (negb (bool_decide (next e = ent))));
          let '(remove, c) := callback c (value e) in
          if (remove : bool) then
            _ ← unlink e;
            _ ← delete_cell ent;
            _ ← assign (fun l => set_num (u64 (numElements l - 1)) l);
            match_loop callback fuel (next e) c (u64 (numRemoved + 1))
          else match_loop callback fuel (next e) c numRemoved
      end
  end.
Definition removeMatching {C} (callback : C -> A -> bool * C) (c : C) : st DList (C * Z) :=
  h ← read head;
  n ← read numElements;
  match_loop callback (S (Z.to_nat n)) h c 0.

(** [operator[]]: walks from the head. *)
Fixpoint walk (fuel : nat) (i index : Z) (el : option Z) : st DList A :=
  match fuel with
  | O => sstuck
  | S fuel =>
      match el with
      | None => sabort
      | Some _ =>
          e ← cell el;
          if i =? index then mret (value e) else walk fuel (i + 1) index (next e)
      end
  end.
Definition list_get (index : Z) : st DList A :=
  n ← read numElements;
  _ ← slift (REQUIRE (index <? n));
  h ← read head;
  if index =? 0 then e ← cell h; mret (value e)
  else walk (S (Z.to_nat n)) 0 index h.

Definition list_empty (l : DList) : bool := numElements l =? 0.

(** ** The queue *)

Definition queue_push_back (v : A) : st DList () := append v.
Definition queue_push_front (v : A) : st DList () := prepend v.
Definition queue_pop : st DList A :=
  e ← read list_empty;
  _ ← slift (REQUIRE (negb e));
  v ← list_get 0;
  _ ← remove_index 0;
  mret v.
Definition queue_peek : st DList (option A) :=
  e ← read list_empty;
  if (e : bool) then mret None else v ← list_get 0; mret (Some v).

(** [remove(item)]: every element that compares equal goes. *)
Definition remove_item (eqb : A -> A -> bool) (item : A) : st DList () :=
  _ ← removeMatching (fun (_ : ()) x => (eqb x item, ())) ();
  mret ().

(** ** Segments of the list

    [dseg h p xs n]: the cells of [xs], pairs of an address and a value, are
    chained in that order, with [p] before the first and [n] after the last. *)

Definition first_of (xs : list (Z * A)) (n : option Z) : option Z :=
  match xs with (a, _) :: _ => Some a | [] => n end.
Definition last_of (xs : list (Z * A)) (p : option Z) : option Z :=
  match last xs with Some (a, _) => Some a | None => p end.
Fixpoint dseg (h : gmap Z Element) (p : option Z) (xs : list (Z * A)) (n : option Z) : Prop :=
  match xs with
  | [] => True
  | (a, v) :: xs => h !! a = Some (Elem v p (first_of xs n)) /\ dseg h (Some a) xs n
  end.

Lemma first_of_app l1 l2 n : first_of (l1 ++ l2) n = first_of l1 (first_of l2 n).
Proof. by destruct l1 as [|[? ?] ?]. Qed.
Lemma last_of_cons a v l p : last_of ((a, v) :: l) p = last_of l (Some a).
Proof. unfold last_of. rewrite last_cons. by destruct (last l) as [[? ?]|]. Qed.
Lemma last_of_snoc l a v p : last_of (l ++ [(a, v)]) p = Some a.
Proof. unfold last_of. by rewrite last_snoc. Qed.

Lemma dseg_cons h p a v l n :
  dseg h p ((a, v) :: l) n <-> h !! a = Some (Elem v p (first_of l n)) /\ dseg h (Some a) l n.
Proof. done. Qed.
Lemma dseg_app h p l1 l2 n :
  dseg h p (l1 ++ l2) n <-> dseg h p l1 (first_of l2 n) /\ dseg h (last_of l1 p) l2 n.
Proof.
  revert p. induction l1 as [|[a v] l1 IH]; intros p; cbn [dseg app]; [cbn; tauto|].
  rewrite IH, first_of_app, last_of_cons. tauto.
Qed.

Lemma dseg_frame h h' p l n :
  (forall a, a ∈ l.*1 -> h' !! a = h !! a) -> dseg h p l n -> dseg h' p l n.
Proof.
  revert p. induction l as [|[a v] l IH]; intros p Hf; [done|]. cbn. intros [Ha Hl]. split.
  - rewrite Hf; [done|]. cbn. set_solver.
  - apply IH; [|done]. intros b Hb. apply Hf. cbn. set_solver.
Qed.
Lemma dseg_insert h p l n a e : a ∉ l.*1 -> dseg h p l n -> dseg (<[a := e]> h) p l n.
Proof. intros Ha. apply dseg_frame. intros b Hb. rewrite lookup_insert_ne; set_solver. Qed.
Lemma dseg_delete h p l n a : a ∉ l.*1 -> dseg h p l n -> dseg (delete a h) p l n.
Proof. intros Ha. apply dseg_frame. intros b Hb. rewrite lookup_delete_ne; set_solver. Qed.

(** Changing the link that leaves a segment at either end. *)
Lemma dseg_relink_next h p l t v n n' :
  NoDup (l ++ [(t, v)]).*1 -> dseg h p (l ++ [(t, v)]) n ->
  exists e, h !! t = Some e /\ dseg (<[t := set_next n' e]> h) p (l ++ [(t, v)]) n'.
Proof.
  rewrite fmap_app, NoDup_app. intros (_ & Hnd & _) [Hl [Ht _]]%dseg_app.
  eexists. split; [exact Ht|]. apply dseg_app. split; [|cbn; by rewrite lookup_insert_eq].
  apply dseg_insert; [|done]. intros Hin. apply (Hnd t Hin). cbn. set_solver.
Qed.
Lemma dseg_relink_prev h p t v l n p' :
  NoDup ((t, v) :: l).*1 -> dseg h p ((t, v) :: l) n ->
  exists e, h !! t = Some e /\ dseg (<[t := set_prev p' e]> h) p' ((t, v) :: l) n.
Proof.
  cbn. intros [Hnd _]%NoDup_cons [Ht Hl]. eexists. split; [exact Ht|]. split.
  - by rewrite lookup_insert_eq.
  - by apply dseg_insert.
Qed.

(** The list [l] holds the cells [xs] and nothing else. *)
Record rep (l : DList) (xs : list (Z * A)) : Prop := {
  rep_nodup : NoDup xs.*1;
  rep_dom : dom (cells l) = list_to_set xs.*1;
  rep_seg : dseg (cells l) None xs None;
  rep_head : head l = first_of xs None;
  rep_tail : tail l = last_of xs None;
  rep_num : numElements l = Z.of_nat (length xs)
}.

Lemma rep_new : rep newList [].
Proof. split; try done. constructor. Qed.

(** ** Operations on segments *)

Lemma u64_succ (n : nat) : Z.of_nat (S n) < 2 ^ 64 -> u64 (Z.of_nat n + 1) = Z.of_nat (S n).
Proof. intros. unfold u64. rewrite wrap_small; unfold is_u; lia. Qed.
Lemma u64_pred (n : nat) : Z.of_nat (S n) < 2 ^ 64 -> u64 (Z.of_nat (S n) - 1) = Z.of_nat n.
Proof. intros. unfold u64. rewrite wrap_small; unfold is_u; lia. Qed.

Definition fresh_cell (l : DList) : Z := alloc (dom (cells l)).
Lemma fresh_notin l xs : rep l xs -> fresh_cell l ∉ xs.*1.
Proof. intros H. pose proof (alloc_fresh (dom (cells l))) as F. rewrite (rep_dom _ _ H) in F at 2. set_solver. Qed.

Lemma append_rep l xs v :
  rep l xs -> Z.of_nat (S (length xs)) < 2 ^ 64 ->
  exists l', append v l = Ok ((), l') /\ rep l' (xs ++ [(fresh_cell l, v)]).
Proof.
  intros H Hn. pose proof (fresh_notin _ _ H) as Hf. destruct H as [Hnd Hdom Hseg Hh Ht Hc].
  assert (NoDup (xs ++ [(fresh_cell l, v)]).*1) as Hnd'.
  { rewrite fmap_app. apply NoDup_app. split; [done|]. split; [|apply NoDup_singleton].
    cbn. set_solver. }
  unfold append, mbind, st_bind, new_cell, read. fold (fresh_cell l). cbn [tail set_cells].
  destruct xs as [|[t w] ys _] using rev_ind.
  - rewrite Ht. cbn. eexists. split; [done|]. split; cbn; rewrite ?Hc; try done.
    + rewrite dom_insert_L, Hdom. done.
    + by rewrite lookup_insert_eq.
  - rewrite Ht, last_of_snoc.
    destruct (dseg_relink_next _ _ _ _ _ _ (Some (fresh_cell l)) Hnd Hseg) as (e & He & Hs).
    rewrite fmap_app in Hf. cbn in Hf.
    assert (t <> fresh_cell l) as Hne by set_solver.
    unfold store_cell. cbn. rewrite lookup_insert_ne, He by done. cbn.
    rewrite lookup_insert_ne, lookup_insert_eq by done. cbn.
    eexists. split; [done|]. split; cbn; try done.
    + rewrite !dom_insert_L, Hdom, fmap_app. cbn. set_solver.
    + apply dseg_app. split.
      * apply dseg_insert; [set_solver|]. rewrite insert_insert_ne by done.
        apply dseg_insert; [set_solver|]. done.
      * cbn. rewrite lookup_insert_eq, last_of_snoc. done.
    + rewrite Hh, first_of_app. by destruct ys as [|[? ?] ?].
    + by rewrite last_of_snoc.
    + rewrite Hc, (length_app (_ ++ _)), u64_succ by done. cbn. lia.
Qed.

Lemma prepend_rep l xs v :
  rep l xs -> Z.of_nat (S (length xs)) < 2 ^ 64 ->
  exists l', prepend v l = Ok ((), l') /\ rep l' ((fresh_cell l, v) :: xs).
Proof.
  intros H Hn. pose proof (fresh_notin _ _ H) as Hf. destruct H as [Hnd Hdom Hseg Hh Ht Hc].
  assert (NoDup ((fresh_cell l, v) :: xs).*1) as Hnd' by (by apply NoDup_cons).
  unfold prepend, mbind, st_bind, new_cell, read. fold (fresh_cell l). cbn [head set_cells].
  destruct xs as [|[t w] ys].
  - rewrite Hh. cbn. eexists. split; [done|]. split; cbn; rewrite ?Hc; try done.
    + rewrite dom_insert_L, Hdom. done.
    + by rewrite lookup_insert_eq.
  - rewrite Hh. cbn [first_of].
    destruct (dseg_relink_prev _ _ _ _ _ _ (Some (fresh_cell l)) Hnd Hseg) as (e & He & Hs).
    cbn in Hf. assert (t <> fresh_cell l) as Hne by set_solver.
    unfold store_cell. cbn. rewrite lookup_insert_ne, He by done. cbn.
    rewrite lookup_insert_ne, lookup_insert_eq by done. cbn.
    eexists. split; [done|]. split; cbn -[dseg last_of length]; try done.
    + rewrite !dom_insert_L, Hdom. cbn. set_solver.
    + apply dseg_cons. split; [by rewrite lookup_insert_eq|].
      apply dseg_insert; [set_solver|]. rewrite insert_insert_ne by done.
      apply dseg_insert; [set_solver|]. done.
    + by rewrite Hc, u64_succ.
Qed.

Lemma rep_lookup l ys a v zs :
  rep l (ys ++ (a, v) :: zs) -> cells l !! a = Some (Elem v (last_of ys None) (first_of zs None)).
Proof. intros H. pose proof (rep_seg _ _ H) as Hs. apply dseg_app in Hs. by destruct Hs as [_ [? _]]. Qed.

Lemma unlink_prev l ys a v zs :
  rep l (ys ++ (a, v) :: zs) ->
  exists l', match last_of ys None with
             | Some _ => store_cell (last_of ys None) (set_next (first_of zs None))
             | None => assign (set_head (first_of zs None))
             end l = Ok ((), l') /\
    dom (cells l') = dom (cells l) /\ cells l' !! a = cells l !! a /\
    head l' = first_of (ys ++ zs) None /\ tail l' = tail l /\ numElements l' = numElements l /\
    dseg (cells l') None ys (first_of zs None) /\ dseg (cells l') (Some a) zs None.
Proof.
  intros [Hnd Hdom Hseg Hh Ht Hc]. apply dseg_app in Hseg. destruct Hseg as [H1 [H2 H3]].
  rewrite fmap_app in Hnd. apply NoDup_app in Hnd. destruct Hnd as (N1 & N2 & N3).
  cbn in N2, N3.
  rewrite first_of_app in *. destruct ys as [|[t w] ys _] using rev_ind.
  - eexists. split; [done|]. done.
  - rewrite !last_of_snoc in *.
    destruct (dseg_relink_next _ _ _ _ _ _ (first_of zs None) N1 H1) as (e & He & Hs).
    unfold store_cell. cbn. rewrite He. cbn. eexists. split; [done|].
    rewrite fmap_app in N2. cbn in N2.
    assert (t ∉ a :: zs.*1) as Hne by (apply N2; set_solver).
    split; [|split; [|split; [|split; [|split; [|split]]]]]; try done; cbn.
    + rewrite dom_insert_L. assert (t ∈ dom (cells l)) by (by apply elem_of_dom). set_solver.
    + rewrite lookup_insert_ne; set_solver.
    + rewrite Hh. by destruct ys as [|[? ?] ?].
    + apply dseg_insert; [set_solver|done].
Qed.

Definition drop_cell (a : Z) (e : Element) : st DList () :=
  _ ← unlink e;
  _ ← delete_cell (Some a);
  assign (fun l => set_num (u64 (numElements l - 1)) l).

Lemma unlink_next l ys a zs :
  a ∉ (ys ++ zs).*1 -> NoDup (ys ++ zs).*1 ->
  dseg (cells l) None ys (first_of zs None) -> dseg (cells l) (Some a) zs None ->
  tail l = last_of zs (Some a) ->
  exists l', match first_of zs None with
             | Some _ => store_cell (first_of zs None) (set_prev (last_of ys None))
             | None => assign (set_tail (last_of ys None))
             end l = Ok ((), l') /\
    dom (cells l') = dom (cells l) /\ cells l' !! a = cells l !! a /\
    head l' = head l /\ tail l' = last_of (ys ++ zs) None /\ numElements l' = numElements l /\
    dseg (cells l') None (ys ++ zs) None.
Proof.
  intros Ha Hnd H1 H2 Ht. rewrite fmap_app in Ha. destruct zs as [|[t w] zs].
  - eexists. split; [done|]. rewrite app_nil_r. done.
  - rewrite fmap_app in Hnd. apply NoDup_app in Hnd. destruct Hnd as (N1 & N2 & N3).
    destruct (dseg_relink_prev _ _ _ _ _ _ (last_of ys None) N3 H2) as (e & He & Hs).
    unfold store_cell. cbn [first_of]. cbn. rewrite He. cbn. eexists. split; [done|].
    cbn in Ha. split; [|split; [|split; [|split; [|split]]]]; try done.
    + cbn. rewrite dom_insert_L. assert (t ∈ dom (cells l)) by (by apply elem_of_dom). set_solver.
    + cbn. rewrite lookup_insert_ne; set_solver.
    + cbn -[last_of]. rewrite Ht. unfold last_of. rewrite last_app, !last_cons. by destruct (last zs).
    + apply dseg_app. split; [|done]. cbn. apply dseg_insert; [|done].
      intros Hin. apply (N2 t Hin). cbn. set_solver.
Qed.

Lemma drop_cell_rep l ys a v zs :
  rep l (ys ++ (a, v) :: zs) -> Z.of_nat (length (ys ++ (a, v) :: zs)) < 2 ^ 64 ->
  exists l', drop_cell a (Elem v (last_of ys None) (first_of zs None)) l = Ok ((), l') /\ rep l' (ys ++ zs).
Proof.
  intros H Hn. destruct (unlink_prev _ _ _ _ _ H) as (l1 & E1 & D1 & L1 & A1 & T1 & N1 & S1 & S1').
  pose proof (rep_lookup _ _ _ _ _ H) as La. destruct H as [Hnd Hdom Hseg Hh Ht Hc].
  assert ((ys ++ (a, v) :: zs).*1 ≡ₚ a :: (ys ++ zs).*1) as HP
    by (rewrite !fmap_app; cbn; by rewrite Permutation_middle).
  rewrite HP in Hnd. apply NoDup_cons in Hnd. destruct Hnd as [Ha Hnd].
  destruct (unlink_next l1 ys a zs Ha Hnd S1 S1') as (l2 & E2 & D2 & L2 & A2 & T2 & N2 & S2).
  { rewrite T1, Ht. unfold last_of. rewrite last_app, last_cons. by destruct (last zs) as [[? ?]|]. }
  unfold drop_cell, unlink, mbind, st_bind. cbn [prev next]. rewrite E1. cbv beta iota. rewrite E2.
  unfold delete_cell. cbn. rewrite L2, L1, La. cbn. eexists. split; [done|].
  split; cbn; try congruence.
  - rewrite dom_delete_L, D2, D1, Hdom, HP. cbn. set_solver.
  - apply dseg_delete; [done|exact S2].
  - rewrite N2, N1, Hc. rewrite !length_app in *. cbn [length] in *. rewrite Nat.add_succ_r, u64_pred; [done|lia].
Qed.

Lemma remove_head_rep l a v zs :
  rep l ((a, v) :: zs) -> Z.of_nat (length ((a, v) :: zs)) < 2 ^ 64 ->
  exists l', remove_index 0 l = Ok ((), l') /\ rep l' zs.
Proof.
  intros H Hn. pose proof (rep_lookup _ [] _ _ _ H) as La.
  destruct H as [Hnd Hdom [_ Hseg] Hh Ht Hc]. rewrite last_of_cons in Ht.
  cbn in Hnd. apply NoDup_cons in Hnd. destruct Hnd as [Ha Hnd].
  destruct (unlink_next l [] a zs Ha Hnd I Hseg Ht) as (l2 & E2 & D2 & L2 & A2 & T2 & N2 & S2).
  unfold remove_index, mbind, st_bind, read. rewrite Hc.
  replace (0 <? Z.of_nat (length ((a, v) :: zs))) with true by (cbn; blia).
  unfold slift. cbn [mbind res_bind REQUIRE]. cbv beta iota. cbn [Z.eqb].
  unfold cell, mbind, res_bind. rewrite Hh. cbn [first_of res_of]. rewrite La. cbn [res_of next].
  destruct zs as [|[t w] zs].
  - cbn. unfold delete_cell. cbn. rewrite La. cbn. eexists. split; [done|].
    split; cbn; try done. rewrite dom_delete_L, Hdom. cbn. set_solver.
  - cbn [first_of] in *. change (last_of [] None) with (@None Z) in E2. rewrite E2. unfold assign, delete_cell. cbn. rewrite L2, La. cbn.
    eexists. split; [done|]. split; cbn -[last_of length dseg]; try done.
    + rewrite dom_delete_L, D2, Hdom. cbn. set_solver.
    + apply dseg_delete; [done|exact S2].
    + rewrite N2, Hc. by apply u64_pred.
Qed.

Lemma remove_index_panic l xs i : rep l xs -> 0 < i -> remove_index i l = Panic.
Proof.
  intros H Hi. unfold remove_index, mbind, st_bind, read, slift, REQUIRE.
  destruct (i <? numElements l); cbn; [|done]. by rewrite (proj2 (Z.eqb_neq i 0)) by lia.
Qed.

Lemma clear_loop_spec xs : forall fuel l p,
  NoDup xs.*1 -> dseg (cells l) p xs None -> dom (cells l) = list_to_set xs.*1 ->
  numElements l = Z.of_nat (length xs) -> Z.of_nat (length xs) < 2 ^ 64 -> (length xs < fuel)%nat ->
  clear_loop fuel (first_of xs None) l = Ok ((), Build_DList ∅ (head l) (tail l) 0).
Proof.
  induction xs as [|[a v] xs IH]; intros [|fuel] l p Hnd Hs Hd Hc Hn Hf; cbn [length] in *; try lia.
  - cbn. apply dom_empty_inv_L in Hd. destruct l; cbn in *. by subst.
  - cbn [clear_loop first_of]. cbn in Hnd. apply NoDup_cons in Hnd. destruct Hnd as [Ha Hnd].
    destruct Hs as [La Hs]. unfold mbind, st_bind, cell. cbn. rewrite La. cbn.
    rewrite La. cbn [mbind res_bind res_of]. rewrite (IH _ _ (Some a)); cbn; try done.
    + by apply dseg_delete.
    + rewrite dom_delete_L, Hd. cbn. set_solver.
    + rewrite Hc, u64_pred; [done|lia].
    + lia.
    + lia.
Qed.

Lemma clear_rep l xs : rep l xs -> Z.of_nat (length xs) < 2 ^ 64 -> clear_list l = Ok ((), newList).
Proof.
  intros [Hnd Hdom Hseg Hh Ht Hc] Hn. unfold clear_list, mbind, st_bind, read, assign.
  rewrite Hh, (clear_loop_spec xs _ _ None); cbn; try done. rewrite Hc. lia.
Qed.

(** The values that stay and the state of the callback after a run of
    [removeMatching] over a sequence. *)
Fixpoint keep {C B} (f : C -> B -> bool * C) (c : C) (xs : list B) : list B * C :=
  match xs with
  | [] => ([], c)
  | x :: xs =>
      let '(r, c) := f c x in
      let '(ys, c) := keep f c xs in
      (if (r : bool) then ys else x :: ys, c)
  end.

Lemma keep_length {C B} (f : C -> B -> bool * C) c xs : (length (keep f c xs).1 <= length xs)%nat.
Proof.
  revert c. induction xs as [|x xs IH]; intros c; cbn; [done|]. destruct (f c x) as [r c'].
  specialize (IH c'). destruct (keep f c' xs). destruct r; cbn in *; lia.
Qed.

Lemma match_loop_spec {C} (f : C -> A -> bool * C) zs : forall ys fuel l c n,
  rep l (ys ++ zs) -> Z.of_nat (length (ys ++ zs)) < 2 ^ 64 -> (length zs < fuel)%nat ->
  0 <= n -> n + Z.of_nat (length zs) < 2 ^ 64 ->
  exists l', let k := keep (fun c p => f c p.2) c zs in
    match_loop f fuel (first_of zs None) c n l = Ok ((k.2, n + Z.of_nat (length zs - length k.1)), l') /\
    rep l' (ys ++ k.1).
Proof.
  induction zs as [|[a v] zs IH]; intros ys [|fuel] l c n H Hn Hf Hn0 Hn'; cbn [length] in *; try lia.
  - exists l. cbn. rewrite Z.add_0_r. split; [done|]. by rewrite ?app_nil_r in *.
  - pose proof (rep_lookup _ _ _ _ _ H) as La. pose proof (rep_nodup _ _ H) as Hnd.
    cbn [match_loop first_of]. unfold mbind, st_bind, cell. cbn [mbind res_bind res_of].
    unfold mbind, res_bind. rewrite La. cbn [res_of next value].
    rewrite bool_decide_eq_false_2.
    2:{ intros E. rewrite fmap_app in Hnd. apply NoDup_app in Hnd. destruct Hnd as (_ & _ & Hnd).
        cbn in Hnd. apply NoDup_cons in Hnd. destruct Hnd as [Ha _]. apply Ha.
        destruct zs as [|[b w] zs]; [done|]. cbn in E. injection E as ->. cbn. set_solver. }
    unfold slift. cbn [mbind res_bind REQUIRE negb]. cbv beta iota.
    cbn [keep]. cbn [snd]. destruct (f c v) as [r c'] eqn:E.
    pose proof (keep_length (fun c p => f c p.2) c' zs) as Hk.
    destruct r.
    + destruct (drop_cell_rep _ _ _ _ _ H Hn) as (l1 & E1 & R1).
      unfold drop_cell, mbind, st_bind in E1.
      destruct (unlink _ l) as [[[] l0]| |]; try done.
      destruct (delete_cell _ l0) as [[[] l0']| |]; try done. unfold assign in *.
      cbv beta iota in *. injection E1 as ->.
      assert (u64 (n + 1) = n + 1) as -> by (unfold u64; apply wrap_small; unfold is_u; lia).
      destruct (IH ys fuel l1 c' (n + 1)) as (l2 & E2 & R2); try lia; [done| |].
      { rewrite length_app in *. cbn in Hn. lia. }
      exists l2. destruct (keep _ c' zs) as [k c'']. cbn [fst snd] in *.
      rewrite E2. split; [|done]. do 3 f_equal. lia.
    + destruct (IH (ys ++ [(a, v)]) fuel l c' n) as (l2 & E2 & R2); try lia; [by rewrite <- app_assoc| |].
      { rewrite <- app_assoc. done. }
      exists l2. destruct (keep _ c' zs) as [k c'']. cbn [fst snd length] in *.
      rewrite <- app_assoc in R2. rewrite E2. split; [|done]. do 3 f_equal; lia.
Qed.

(** ** The list as a sequence of values *)

Definition holds (l : DList) (xs : list A) : Prop := exists cs, rep l cs /\ cs.*2 = xs.

Lemma keep_values {C} (f : C -> A -> bool * C) c (cs : list (Z * A)) :
  let k := keep (fun c p => f c p.2) c cs in keep f c cs.*2 = (k.1.*2, k.2).
Proof.
  revert c. induction cs as [|[a v] cs IH]; intros c; cbn; [done|].
  destruct (f c v) as [r c'] eqn:E. specialize (IH c').
  change ((fix go (l : list (Z * A)) := match l with [] => [] | x :: l0 => x.2 :: go l0 end) cs) with cs.*2.
  rewrite IH. destruct (keep (fun c p => f c p.2) c' cs) as [k c'']. by destruct r.
Qed.

Lemma removeMatching_holds {C} (f : C -> A -> bool * C) c l xs :
  holds l xs -> Z.of_nat (length xs) < 2 ^ 64 ->
  exists l', let k := keep f c xs in
    removeMatching f c l = Ok ((k.2, Z.of_nat (length xs - length k.1)), l') /\ holds l' k.1.
Proof.
  intros (cs & H & <-) Hn. rewrite length_fmap in *.
  destruct (match_loop_spec f cs [] (S (Z.to_nat (numElements l))) l c 0 H) as (l' & E & R); try done.
  { rewrite (rep_num _ _ H). lia. }
  exists l'. cbn zeta in *. rewrite (keep_values f c cs).
  destruct (keep (fun c p => f c p.2) c cs) as [k c'] eqn:Ek. cbn [fst snd] in *. split; [|by exists k].
  unfold removeMatching, mbind, st_bind, read. rewrite (rep_head _ _ H), length_fmap. exact E.
Qed.

Lemma holds_num l xs : holds l xs -> numElements l = Z.of_nat (length xs).
Proof. intros (cs & H & <-). by rewrite length_fmap, (rep_num _ _ H). Qed.

Lemma walk_spec zs : forall ys fuel l i index,
  rep l (ys ++ zs) -> (length zs < fuel)%nat ->
  walk fuel (Z.of_nat i) (Z.of_nat (i + index)) (first_of zs None) l =
    match zs.*2 !! index with Some v => Ok (v, l) | None => Panic end.
Proof.
  induction zs as [|[a v] zs IH]; intros ys [|fuel] l i index H Hf; cbn [length] in *; try lia; [done|].
  pose proof (rep_lookup _ _ _ _ _ H) as La. cbn [walk first_of].
  unfold mbind, st_bind, cell, mbind, res_bind. cbn [res_of]. rewrite La. cbn [res_of next value].
  destruct index as [|index].
  - replace (_ =? _) with true by blia. done.
  - replace (_ =? _) with false by blia.
    replace (Z.of_nat i + 1) with (Z.of_nat (S i)) by lia.
    replace (i + S index)%nat with (S i + index)%nat by lia.
    rewrite (IH (ys ++ [(a, v)])); [done| |lia]. by rewrite <- app_assoc.
Qed.

Lemma list_get_holds l xs (i : nat) :
  holds l xs -> list_get (Z.of_nat i) l = match xs !! i with Some v => Ok (v, l) | None => Panic end.
Proof.
  intros H. pose proof (holds_num _ _ H) as Hc. destruct H as (cs & H & <-).
  unfold list_get, mbind, st_bind, read, slift, REQUIRE. rewrite Hc, length_fmap.
  destruct (Z.ltb_spec (Z.of_nat i) (Z.of_nat (length cs))) as [Hi|Hi]; cbn [mbind res_bind].
  2:{ by rewrite (lookup_ge_None_2 cs.*2 i) by (rewrite length_fmap; lia). }
  destruct i as [|i].
  - cbn [Z.eqb Z.of_nat]. destruct cs as [|[a v] cs]; [cbn in Hi; lia|].
    unfold cell, mbind, res_bind. rewrite (rep_head _ _ H). cbn [first_of res_of].
    change (Z.of_nat 0 =? 0) with true. cbv beta iota. by rewrite (rep_lookup _ [] _ _ _ H).
  - replace (_ =? _) with false by blia. rewrite (rep_head _ _ H).
    apply (walk_spec cs []  _ _ 0 (S i)); [done|lia].
Qed.

Lemma holds_empty l xs : holds l xs -> list_empty l = bool_decide (xs = []).
Proof.
  intros H. unfold list_empty. rewrite (holds_num _ _ H). by destruct xs.
Qed.

Lemma pop_holds l x xs :
  holds l (x :: xs) -> Z.of_nat (length (x :: xs)) < 2 ^ 64 ->
  exists l', queue_pop l = Ok (x, l') /\ holds l' xs.
Proof.
  intros H Hn. pose proof (list_get_holds _ _ 0 H) as Hg. pose proof (holds_empty _ _ H) as He.
  destruct H as ([|[a v] cs] & H & [= -> <-]).
  destruct (remove_head_rep _ _ _ _ H) as (l' & E & R). { cbn in *. by rewrite length_fmap in Hn. }
  exists l'. split; [|by exists cs].
  unfold queue_pop, mbind, st_bind, read. rewrite He. cbn -[list_get remove_index].
  change (Z.of_nat 0) with 0 in Hg. rewrite Hg. cbn -[remove_index]. by rewrite E.
Qed.
End DList.

(** ** Traces of calls *)

Section Traces.
Context {Al : Alloc} {A : Type}.

Inductive dop :=
| DPushBack (v : A) | DPushFront (v : A) | DPop | DPeek
| DGet (i : nat) | DRemoveAt (i : nat) | DClear | DRemoveIf (f : A -> bool).
Inductive dout := DUnit | DVal (v : A) | DMaybe (o : option A) | DCount (n : Z).

Definition dstep (o : dop) : st (@DList A) dout :=
  match o with
  | DPushBack v => _ ← queue_push_back v; mret DUnit
  | DPushFront v => _ ← queue_push_front v; mret DUnit
  | DPop => v ← queue_pop; mret (DVal v)
  | DPeek => o ← queue_peek; mret (DMaybe o)
  | DGet i => v ← list_get (Z.of_nat i); mret (DVal v)
  | DRemoveAt i => _ ← remove_index (Z.of_nat i); mret DUnit
  | DClear => _ ← clear_list; mret DUnit
  | DRemoveIf f => r ← removeMatching (fun (_ : ()) x => (f x, ())) (); mret (DCount r.2)
  end.
Fixpoint drun (ops : list dop) : st (@DList A) (list dout) :=
  match ops with
  | [] => mret []
  | o :: ops => r ← dstep o; rs ← drun ops; mret (r :: rs)
  end.

(** The same calls on a sequence. *)
Definition sstep (o : dop) : st (list A) dout := fun xs =>
  match o with
  | DPushBack v => Ok (DUnit, xs ++ [v])
  | DPushFront v => Ok (DUnit, v :: xs)
  | DPop => match xs with x :: xs => Ok (DVal x, xs) | [] => Panic end
  | DPeek => Ok (DMaybe (list.head xs), xs)
  | DGet i => match xs !! i with Some v => Ok (DVal v, xs) | None => Panic end
  | DRemoveAt i => match i, xs with O, _ :: xs => Ok (DUnit, xs) | _, _ => Panic end
  | DClear => Ok (DUnit, [])
  | DRemoveIf f =>
      Ok (DCount (Z.of_nat (length (filter (fun x => f x) xs))), filter (fun x => negb (f x)) xs)
  end.
Fixpoint srun (ops : list dop) : st (list A) (list dout) :=
  match ops with
  | [] => mret []
  | o :: ops => r ← sstep o; rs ← srun ops; mret (r :: rs)
  end.

Lemma keep_filter (f : A -> bool) xs :
  (keep (fun (_ : ()) x => (f x, ())) () xs).1 = filter (fun x => negb (f x)) xs /\
  (length xs - length (filter (fun x => negb (f x)) xs))%nat = length (filter (fun x => f x) xs).
Proof.
  induction xs as [|x xs [IH1 IH2]]; [done|]. cbn [keep]. rewrite !filter_cons.
  destruct (keep _ () xs) as [k []]. cbn [fst] in IH1. subst k.
  pose proof (length_filter (fun x => negb (f x)) xs).
  destruct (f x); cbn [negb].
  - rewrite decide_False, decide_True by (cbn; tauto). cbn [length fst]. split; [done|]. lia.
  - rewrite decide_True, decide_False by (cbn; tauto). cbn [length fst]. split; [done|]. lia.
Qed.

(** Every call does on the pointers what it does on the sequence. *)
Lemma dstep_refines o l xs :
  holds l xs -> Z.of_nat (S (length xs)) < 2 ^ 64 ->
  match sstep o xs with
  | Ok (r, xs') => exists l', dstep o l = Ok (r, l') /\ holds l' xs' /\ (length xs' <= S (length xs))%nat
  | Panic => dstep o l = Panic
  | Stuck => False
  end.
Proof.
  intros H Hn. destruct o as [v|v| | |i|i| |f]; cbn [sstep dstep].
  - destruct H as (cs & H & <-). destruct (append_rep l cs v H) as (l' & E & R); [by rewrite length_fmap in Hn|].
    exists l'. unfold mbind, st_bind, queue_push_back. rewrite E. split; [done|]. split.
    + exists (cs ++ [(fresh_cell l, v)]). split; [done|]. by rewrite fmap_app.
    + rewrite length_app. cbn. lia.
  - destruct H as (cs & H & <-). destruct (prepend_rep l cs v H) as (l' & E & R); [by rewrite length_fmap in Hn|].
    exists l'. unfold mbind, st_bind, queue_push_front. rewrite E. split; [done|]. split; [|cbn; lia].
    by exists ((fresh_cell l, v) :: cs).
  - unfold mbind, st_bind. destruct xs as [|x xs].
    + unfold queue_pop, mbind, st_bind, read. by rewrite (holds_empty _ _ H).
    + destruct (pop_holds _ _ _ H) as (l' & E & R); [lia|]. exists l'. rewrite E.
      split; [done|]. split; [done|]. cbn. lia.
  - exists l. split; [|split; [done|lia]]. unfold mbind, st_bind, queue_peek, mbind, st_bind, read.
    rewrite (holds_empty _ _ H). destruct xs as [|x xs]; [done|].
    cbn -[list_get]. pose proof (list_get_holds _ _ 0 H) as E. change (Z.of_nat 0) with 0 in E. by rewrite E.
  - unfold mbind, st_bind. rewrite (list_get_holds _ _ i H). destruct (xs !! i) as [v|]; [|done].
    exists l. split; [done|]. split; [done|lia].
  - unfold mbind, st_bind. destruct i as [|i].
    + destruct xs as [|x xs].
      * unfold remove_index, mbind, st_bind, read. by rewrite (holds_num _ _ H).
      * destruct H as ([|[a v] cs] & H & [= -> <-]). cbn [length] in Hn. rewrite length_fmap in Hn.
        destruct (remove_head_rep _ _ _ _ H) as (l' & E & R); [cbn; lia|]. exists l'.
        change (Z.of_nat 0) with 0. rewrite E. split; [done|]. split; [by exists cs|]. cbn. lia.
    + destruct H as (cs & H & <-). by rewrite (remove_index_panic _ _ _ H) by lia.
  - destruct H as (cs & H & <-). unfold mbind, st_bind.
    rewrite (clear_rep _ _ H) by (rewrite length_fmap in Hn; lia).
    exists newList. split; [done|]. split; [|cbn; lia]. exists []. split; [apply rep_new|done].
  - destruct (removeMatching_holds (fun (_ : ()) x => (f x, ())) () l xs H) as (l' & E & R); [lia|].
    destruct (keep_filter f xs) as [K1 K2]. rewrite K1 in E, R. rewrite K2 in E. exists l'.
    unfold mbind, st_bind. rewrite E. split; [done|]. split; [done|].
    pose proof (length_filter (fun x => negb (f x)) xs). lia.
Qed.

Lemma drun_refines ops : forall l xs,
  holds l xs -> Z.of_nat (length xs + length ops) < 2 ^ 64 ->
  match srun ops xs with
  | Ok (rs, xs') => exists l', drun ops l = Ok (rs, l') /\ holds l' xs'
  | Panic => drun ops l = Panic
  | Stuck => False
  end.
Proof.
  induction ops as [|o ops IH]; intros l xs H Hn; [by exists l|]. cbn [srun drun length] in *.
  unfold mbind, st_bind. pose proof (dstep_refines o l xs H) as Ho.
  destruct (sstep o xs) as [[r xs']| |]; [|rewrite Ho by lia; done|by apply Ho; lia].
  destruct Ho as (l' & E & H' & Hl); [lia|]. rewrite E.
  specialize (IH l' xs' H'). destruct (srun ops xs') as [[rs xs'']| |].
  - destruct IH as (l'' & E' & ?); [lia|]. exists l''. by rewrite E'.
  - by rewrite IH by lia.
  - apply IH. lia.
Qed.

End Traces.

Definition queue_demo : list (@dop Z) :=
  [DPushBack 1; DPushBack 2; DPushFront 3; DPushBack 4; DRemoveIf Z.even; DPop; DPeek].

