(* ===== verification/Port.v ===== *)
(** * Message ports of the kernel (kernel/src/ipc/Port.h, Port.cpp)

    A port with one receiving thread and any number of senders.  The parts of
    the code that run under the port's lock are one step each; the wake-up of
    the receiver ([Blocker], [Thread::blockOn], [Thread::unblock] and the
    scheduler's list of unblocked threads) takes no common lock and is cut into
    its single accesses, so that a trace of events is an interleaving on several
    processors.  [settle] and [fall_asleep] below run the parts that one
    processor executes with preemption disabled.

    The queue of messages is the sequence that the kernel's queue implements
    (file DList).  Time stamps, which the code only logs, and running out of
    memory are left out. *)

From S2P Require Import Prelude SmartPtr.

Record Message := Msg { sender : Z; contentLen : Z; content : option Z; ownsContent : bool }.

(** [Thread::BlockState] (Thread.h) and the two states of a thread that matter. *)
Inductive BlockState := BNone | Blocking | Unblocked | Timeout | Aborted.
Inductive State := Runnable | Blocked.

(** Where the receiver is in [receive]: outside, between the first locked part
    and [blockOn], at the points of [blockOn], before the second locked part.
    The size of its buffer is kept. *)
Inductive rpc :=
| RIdle
| RChecked (n : nat) | RWill (n : nat) | RSet (n : nat) | RBlock (n : nat)
| RAsleep (n : nat) | RAwake (n : nat) | RSecond (n : nat).

(** Where a sender is in [messageQueued]: before the test of [blocker], before
    setting [unblockedSignalled], before the load of [isBlocking], before the
    test-and-set of [signalled], before [unblock], and before
    [threadUnblocked]. *)
Inductive spc := SNotify | SFlag | SLoad | STas | SUnblock | SEnqueue.

(** What [receive] gives back: a message cut to the buffer of [n] bytes, taken
    before or after blocking, or a code. *)
Inductive rout := RMsg (slept : bool) (n : nat) (from : Z) (data : list Z) | RErr (code : Z).

Record world := World {
  (** the port *)
  messages : list Message;
  maxMessages : Z;
  totalSent : Z;
  totalReceived : Z;
  (** its [Blocker] *)
  blocker : bool;
  unblockedSignalled : bool;
  signalled : bool;
  isBlocking : bool;
  (** the receiving thread and the scheduler's list *)
  state : State;
  blockState : BlockState;
  blockingOn : bool;
  unblockRequested : bool;
  unblocked : nat;
  receiver : rpc;
  senders : list spc;
  (** the buffers of the kernel's heap *)
  heap : gmap Z (list Z);
  (** what was sent and accepted, and what the calls of [receive] returned *)
  accepted : list (Z * list Z);
  outs : list rout;
  aborts : nat
}.

Section Port.
Context {Al : Alloc}.

Definition kMaxMsgLen : Z := 4096 * 9.
Definition kDefaultMaxMessages : Z := 100.

(** [Port::alloc] with a queue depth. *)
Definition newPort (depth : Z) : world :=
  World [] depth 0 0 false false false false Runnable BNone false false 0 RIdle [] ∅ [] [] 0.

Definition set_port (ms : list Message) (ts tr : Z) (h : gmap Z (list Z)) (w : world) : world :=
  World ms (maxMessages w) ts tr (blocker w) (unblockedSignalled w) (signalled w) (isBlocking w)
    (state w) (blockState w) (blockingOn w) (unblockRequested w) (unblocked w) (receiver w)
    (senders w) h (accepted w) (outs w) (aborts w).
Definition set_flags (b us sg ib : bool) (w : world) : world :=
  World (messages w) (maxMessages w) (totalSent w) (totalReceived w) b us sg ib
    (state w) (blockState w) (blockingOn w) (unblockRequested w) (unblocked w) (receiver w)
    (senders w) (heap w) (accepted w) (outs w) (aborts w).
Definition set_thread (s : State) (bs : BlockState) (bo ur : bool) (u : nat) (w : world) : world :=
  World (messages w) (maxMessages w) (totalSent w) (totalReceived w) (blocker w)
    (unblockedSignalled w) (signalled w) (isBlocking w) s bs bo ur u (receiver w)
    (senders w) (heap w) (accepted w) (outs w) (aborts w).
Definition set_receiver (r : rpc) (w : world) : world :=
  World (messages w) (maxMessages w) (totalSent w) (totalReceived w) (blocker w)
    (unblockedSignalled w) (signalled w) (isBlocking w) (state w) (blockState w) (blockingOn w)
    (unblockRequested w) (unblocked w) r (senders w) (heap w) (accepted w) (outs w) (aborts w).
Definition set_senders (s : list spc) (w : world) : world :=
  World (messages w) (maxMessages w) (totalSent w) (totalReceived w) (blocker w)
    (unblockedSignalled w) (signalled w) (isBlocking w) (state w) (blockState w) (blockingOn w)
    (unblockRequested w) (unblocked w) (receiver w) s (heap w) (accepted w) (outs w) (aborts w).
Definition set_logs (a : list (Z * list Z)) (o : list rout) (n : nat) (w : world) : world :=
  World (messages w) (maxMessages w) (totalSent w) (totalReceived w) (blocker w)
    (unblockedSignalled w) (signalled w) (isBlocking w) (state w) (blockState w) (blockingOn w)
    (unblockRequested w) (unblocked w) (receiver w) (senders w) (heap w) a o n.

(** ** Messages *)

(** The constructor that copies the payload into a buffer of the heap. *)
Definition newMessage (from : Z) (buf : list Z) (h : gmap Z (list Z)) : Message * gmap Z (list Z) :=
  let a := alloc (dom h) in
  (Msg from (Z.of_nat (length buf)) (Some a) true, <[a := buf]> h).

Definition message_done (m : Message) (h : gmap Z (list Z)) : res (gmap Z (list Z)) :=
  if ownsContent m then
    a ← res_of (content m);
    _ ← res_of (h !! a);
    Ok (delete a h)
  else Ok h.

(** [send] up to the unlocking of the port: the code, and the sender that goes
    on to [messageQueued]. *)
Definition send (from : Z) (msgBuf : option (list Z)) (w : world) : Z * world :=
  match msgBuf with
  | None => (-2, w)
  | Some buf =>
      if kMaxMsgLen <? Z.of_nat (length buf) then (-2, w)
      else if negb (maxMessages w =? 0) && (maxMessages w <=? Z.of_nat (length (messages w))) then (-1, w)
      else
        let '(m, h) := newMessage from buf (heap w) in
        let w := set_port (messages w ++ [m]) (u64 (totalSent w + 1)) (totalReceived w) h w in
        let w := set_logs (accepted w ++ [(from, buf)]) (outs w) (aborts w) w in
        (0, set_senders (senders w ++ [SNotify]) w)
  end.

(** The next access of [messageQueued], [Thread::unblock] and
    [Scheduler::threadUnblocked] by the sender at [pc]: the new world and where
    the sender is afterwards.  [unblock] waits for the lock of the thread, which
    [blockOn] holds from [willBlockOn] until the thread is marked as blocked. *)
Definition holds_lock (r : rpc) : bool :=
  match r with RWill _ | RSet _ | RBlock _ => true | _ => false end.

Definition threadUnblocked (w : world) : res world :=
  if unblockRequested w then Ok w
  else match state w with
  | Runnable => Panic
  | Blocked => Ok (set_thread (state w) (blockState w) (blockingOn w) true (S (unblocked w)) w)
  end.

Definition messageQueued (pc : spc) (w : world) : res (option spc * world) :=
  match pc with
  | SNotify => Ok (Some (if blocker w then SLoad else SFlag), w)
  | SFlag => Ok (None, set_flags (blocker w) true (signalled w) (isBlocking w) w)
  | SLoad => Ok (if isBlocking w then Some STas else None, w)
  | STas =>
      Ok (if signalled w then None else Some SUnblock,
          set_flags (blocker w) (unblockedSignalled w) true (isBlocking w) w)
  | SUnblock =>
      if holds_lock (receiver w) then Ok (Some SUnblock, w)
      else if blocker w then
        Ok (Some SEnqueue,
            set_thread (state w) Unblocked (blockingOn w) (unblockRequested w) (unblocked w) w)
      else Stuck
  | SEnqueue => w ← threadUnblocked w; Ok (None, w)
  end.

(** Both locked parts of [receive] take the first message; only the first one
    gives its buffer back ([free]). *)
Definition take_message (free : bool) (n : nat) (m : Message) (ms : list Message) (w : world)
    : res (rout * world) :=
  a ← res_of (content m);
  buf ← res_of (heap w !! a);
  let toCopy := if Z.of_nat n <? contentLen m then Z.of_nat n else contentLen m in
  h ← (if free then message_done m (heap w) else Ok (heap w));
  Ok (RMsg (negb free) n (sender m) (take (Z.to_nat toCopy) buf),
      set_port ms (totalSent w) (u64 (totalReceived w + 1)) h w).

Definition return_out (o : rout) (w : world) : world :=
  set_receiver RIdle (set_logs (accepted w) (outs w ++ [o]) (aborts w) w).

(** [receive] up to the first unlocking. *)
Definition receive (n : nat) (blockUntil : Z) (w : world) : res world :=
  let w := set_flags (blocker w) false false (isBlocking w) w in
  match messages w with
  | m :: ms => r ← take_message true n m ms w; let '(o, w) := r in Ok (return_out o w)
  | [] =>
      if blockUntil =? 0 then Ok (return_out (RErr (-1)) w)
      else Ok (set_receiver (RChecked n) w)
  end.

(** [receive] after [blockOn]. *)
Definition receive_second (n : nat) (w : world) : res world :=
  match messages w with
  | m :: ms => r ← take_message false n m ms w; let '(o, w) := r in Ok (return_out o w)
  | [] => Ok (return_out (RErr (-1)) w)
  end.

(** The next access of the receiver inside [blockOn], then the rest of
    [receive].  A thread that is asleep does not move. *)
Definition receiver_step (w : world) : res world :=
  match receiver w with
  | RIdle | RAsleep _ => Ok w
  | RChecked n =>
      (* Blockable::willBlockOn *)
      Ok (set_receiver (RWill n) (set_flags true (unblockedSignalled w) (signalled w) (isBlocking w) w))
  | RWill n =>
      if signalled w || unblockedSignalled w then
        let w := set_thread (state w) Aborted (blockingOn w) (unblockRequested w) (unblocked w) w in
        let w := set_logs (accepted w) (outs w) (S (aborts w)) w in
        Ok (set_receiver (RAwake n) w)
      else Ok (set_receiver (RSet n) w)
  | RSet n =>
      Ok (set_receiver (RBlock n) (set_flags (blocker w) (unblockedSignalled w) (signalled w) true w))
  | RBlock n =>
      Ok (set_receiver (RAsleep n)
            (set_thread Blocked Blocking true (unblockRequested w) (unblocked w) w))
  | RAwake n =>
      let w := if blockingOn w then
                 (* Blocker::didUnblock *)
                 set_flags false (unblockedSignalled w) (signalled w) false
                   (set_thread (state w) (blockState w) false (unblockRequested w) (unblocked w) w)
               else w in
      match blockState w with
      | Unblocked | Timeout | Aborted => Ok (set_receiver (RSecond n) w)
      | BNone | Blocking => Panic
      end
  | RSecond n => receive_second n w
  end.

(** One round of [Scheduler::processUnblockedThreads] with
    [Thread::schedTestUnblock]. *)
Definition process_unblocked (w : world) : res world :=
  match unblocked w with
  | O => Ok w
  | S u =>
      match state w with
      | Runnable => Panic
      | Blocked =>
          match blockState w with
          | BNone => Panic
          | Blocking => Ok (set_thread Blocked (blockState w) (blockingOn w) false u w)
          | Unblocked | Timeout | Aborted =>
              let w' := set_thread Runnable (blockState w) (blockingOn w) false u w in
              Ok (match receiver w with RAsleep n => set_receiver (RAwake n) w' | _ => w' end)
          end
      end
  end.

(** ** Interleavings *)

Inductive event :=
| ESend (from : Z) (msgBuf : option (list Z))
| ESender (i : nat)
| EReceive (n : nat) (blockUntil : Z)
| EReceiver
| ESched.

Definition put_sender (i : nat) (r : option spc) (l : list spc) : list spc :=
  match r with Some pc => <[i := pc]> l | None => take i l ++ drop (S i) l end.

(** An event of a thread that cannot take that step changes nothing. *)
Definition pstep (e : event) (w : world) : res world :=
  match e with
  | ESend from msgBuf => Ok (send from msgBuf w).2
  | ESender i =>
      match senders w !! i with
      | Some pc => r ← messageQueued pc w; let '(pc, w) := r in Ok (set_senders (put_sender i pc (senders w)) w)
      | None => Ok w
      end
  | EReceive n blockUntil => match receiver w with RIdle => receive n blockUntil w | _ => Ok w end
  | EReceiver => receiver_step w
  | ESched => process_unblocked w
  end.

Fixpoint prun (es : list event) (w : world) : res world :=
  match es with
  | [] => Ok w
  | e :: es => w ← pstep e w; prun es w
  end.

(** ** One processor

    What one processor runs without being preempted: [messageQueued] by the
    sender that comes first, and [blockOn] up to its yield or its abort. *)

Fixpoint finish (fuel : nat) (pc : spc) (w : world) : res world :=
  match fuel with
  | O => Stuck
  | S fuel =>
      r ← messageQueued pc w;
      match r with (Some pc, w) => finish fuel pc w | (None, w) => Ok w end
  end.

Fixpoint block_now (fuel : nat) (w : world) : res world :=
  match fuel with
  | O => Stuck
  | S fuel =>
      match receiver w with
      | RChecked _ | RWill _ | RSet _ | RBlock _ => w ← receiver_step w; block_now fuel w
      | _ => Ok w
      end
  end.

Inductive cevent :=
| CSend (from : Z) (msgBuf : option (list Z))
| CNotify
| CReceive (n : nat) (blockUntil : Z)
| CReceiver
| CSched.

Definition cstep (e : cevent) (w : world) : res world :=
  match e with
  | CSend from msgBuf => pstep (ESend from msgBuf) w
  | CNotify =>
      match senders w with
      | pc :: l => w ← finish 6 pc w; Ok (set_senders l w)
      | [] => Ok w
      end
  | CReceive n blockUntil => pstep (EReceive n blockUntil) w
  | CReceiver =>
      match receiver w with RChecked _ => block_now 5 w | _ => receiver_step w end
  | CSched => pstep ESched w
  end.

Fixpoint crun (es : list cevent) (w : world) : res world :=
  match es with
  | [] => Ok w
  | e :: es => w ← cstep e w; crun es w
  end.

(** ** The messages in any interleaving *)

Definition msg_ok (h : gmap Z (list Z)) (m : Message) (a : Z * list Z) : Prop :=
  exists p, m = Msg a.1 (Z.of_nat (length a.2)) (Some p) true /\ h !! p = Some a.2.
Definition out_ok (o : rout) (a : Z * list Z) : Prop :=
  exists slept n, o = RMsg slept n a.1 (take n a.2).

Definition is_msg (o : rout) : bool := match o with RMsg _ _ _ _ => true | RErr _ => false end.
Definition is_slept (o : rout) : bool := match o with RMsg s _ _ _ => s | RErr _ => false end.
Definition delivered (os : list rout) : list rout := filter (fun o => is_msg o) os.
Definition leaks (os : list rout) : nat := length (filter (fun o => is_slept o) os).

Definition ptrs (ms : list Message) : list (option Z) := content <$> ms.

Definition pinv (ms : list Message) (mx ts tr : Z) (h : gmap Z (list Z))
    (acc : list (Z * list Z)) (os : list rout) : Prop :=
  exists dl q, acc = dl ++ q /\ Forall2 (msg_ok h) ms q /\ Forall2 out_ok (delivered os) dl /\
    ts = u64 (Z.of_nat (length acc)) /\ tr = u64 (Z.of_nat (length dl)) /\
    (mx <> 0 -> Z.of_nat (length ms) <= mx) /\ NoDup (ptrs ms) /\
    size h = (length ms + leaks os)%nat.
Definition port_inv (w : world) : Prop :=
  pinv (messages w) (maxMessages w) (totalSent w) (totalReceived w) (heap w) (accepted w) (outs w).

Lemma msg_ok_ptrs h ms q : Forall2 (msg_ok h) ms q -> forall p, Some p ∈ ptrs ms -> p ∈ dom h.
Proof.
  induction 1 as [|m a ms q (p & -> & Hp) _ IH]; cbn; intros b Hb; [set_solver|].
  apply elem_of_cons in Hb. destruct Hb as [[= ->]|Hb]; [by apply elem_of_dom|by apply IH].
Qed.

Lemma msg_ok_frame h h' ms q :
  (forall p, Some p ∈ ptrs ms -> h' !! p = h !! p) -> Forall2 (msg_ok h) ms q -> Forall2 (msg_ok h') ms q.
Proof.
  intros Hf. induction 1 as [|m a ms q (p & -> & Hp) H IH]; constructor.
  - exists p. split; [done|]. rewrite Hf; [done|]. cbn. set_solver.
  - apply IH. intros b Hb. apply Hf. cbn. set_solver.
Qed.

Lemma u64_succ_mod n : u64 (u64 n + 1) = u64 (n + 1).
Proof. apply wrap_add_l. Qed.

Lemma send_inv from buf w : port_inv w -> port_inv (send from buf w).2.
Proof.
  intros H. unfold send. destruct buf as [buf|]; [|done].
  destruct (_ <? _); [done|]. destruct (negb _ && _) eqn:E; [done|].
  destruct H as (dl & q & Ha & Hq & Ho & Hts & Htr & Hmx & Hnd & Hsz).
  pose proof (alloc_fresh (dom (heap w))) as Hf. set (a := alloc (dom (heap w))) in *.
  assert (heap w !! a = None) as Hn by (by apply not_elem_of_dom).
  unfold port_inv, newMessage. fold a. cbn.
  exists dl, (q ++ [(from, buf)]). split; [by rewrite Ha, app_assoc|]. split.
  { apply Forall2_app.
    - eapply msg_ok_frame; [|exact Hq]. intros p Hp. apply lookup_insert_ne. intros <-.
      by apply Hf, (msg_ok_ptrs _ _ _ Hq).
    - constructor; [|done]. exists a. split; [done|]. by rewrite lookup_insert_eq. }
  split; [done|]. split.
  { rewrite Hts, u64_succ_mod, length_app. cbn. f_equal. lia. }
  split; [done|]. split.
  { intros Hmx0. rewrite length_app. cbn. apply andb_false_iff in E.
    destruct (Z.eqb_spec (maxMessages w) 0); [done|].
    destruct (Z.leb_spec (maxMessages w) (Z.of_nat (length (messages w)))); [by destruct E|lia]. }
  split.
  { unfold ptrs. rewrite fmap_app. cbn. apply NoDup_app. split; [done|]. split; [|apply NoDup_singleton].
    intros x Hx Hx'. apply list_elem_of_singleton in Hx'. subst x.
    by apply Hf, (msg_ok_ptrs _ _ _ Hq). }
  rewrite map_size_insert_None, Hsz, length_app by done. cbn. lia.
Qed.

Lemma outs_app os o :
  delivered (os ++ [o]) = delivered os ++ (if is_msg o then [o] else []) /\
  leaks (os ++ [o]) = (leaks os + if is_slept o then 1 else 0)%nat.
Proof.
  unfold delivered, leaks. rewrite !filter_app, length_app, !filter_cons, !filter_nil.
  destruct (is_msg o), (is_slept o); done.
Qed.

(** Taking the first message never reads a buffer that is gone. *)
Lemma take_message_inv free n w m ms :
  port_inv w -> messages w = m :: ms ->
  exists o w', take_message free n m ms w = Ok (o, w') /\ port_inv (return_out o w') /\
    w' = set_port ms (totalSent w) (totalReceived w') (heap w') w /\
    o = RMsg (negb free) n (sender m) (take n (default [] (content m ≫= fun p => heap w !! p))).
Proof.
  intros (dl & q & Ha & Hq & Ho & Hts & Htr & Hmx & Hnd & Hsz) Hm. rewrite Hm in *.
  inversion Hq as [|? [from buf] ? q' (p & -> & Hp) Hq']; subst. cbn in Hp.
  unfold take_message. cbn -[message_done]. rewrite Hp. cbn -[message_done].
  assert ((if Z.of_nat n <? Z.of_nat (length buf) then Z.of_nat n else Z.of_nat (length buf))
          = Z.of_nat (n `min` length buf)) as -> by (destruct (Z.ltb_spec (Z.of_nat n) (Z.of_nat (length buf))); lia).
  rewrite Nat2Z.id. assert (take (n `min` length buf) buf = take n buf) as ->.
  { destruct (Nat.le_ge_cases n (length buf)); [by rewrite Nat.min_l|].
    rewrite Nat.min_r, !take_ge by lia. done. }
  cbn in Hnd. apply NoDup_cons in Hnd. destruct Hnd as [Hnp Hnd].
  assert (exists h, (if free then message_done (Msg from (Z.of_nat (length buf)) (Some p) true) (heap w)
                     else Ok (heap w)) = Ok h /\ Forall2 (msg_ok h) ms q' /\
     (size h + (if free then 1 else 0) = size (heap w))%nat) as (h & -> & Hh & Hs).
  { destruct free.
    - unfold message_done. cbn. rewrite Hp. cbn. eexists. split; [done|]. split.
      + eapply msg_ok_frame; [|exact Hq']. intros b Hb. apply lookup_delete_ne. intros ->. done.
      + rewrite map_size_delete, Hp. assert (size (heap w) <> 0%nat).
        { intros E%map_size_empty_inv. by rewrite E, lookup_empty in Hp. }
        destruct (size (heap w)); cbn; [done|lia].
    - exists (heap w). split; [done|]. split; [done|]. lia. }
  cbn. do 2 eexists. split; [done|]. split; [|done].
  destruct (outs_app (outs w) (RMsg (negb free) n from (take n buf))) as [D L].
  exists (dl ++ [(from, buf)]), q'. cbn -[delivered leaks take]. rewrite D, L. cbn -[delivered leaks take].
  split; [by rewrite Ha, <- app_assoc|]. split; [done|]. split.
  { apply Forall2_app; [done|]. constructor; [|done]. by exists (negb free), n. }
  split; [done|]. split.
  { rewrite Htr, u64_succ_mod, length_app. cbn. f_equal. lia. }
  split; [intros ?; specialize (Hmx H); cbn in Hmx; lia|]. split; [done|].
  cbn in Hsz. destruct free; cbn; lia.
Qed.

(** A call that returns a code. *)
Lemma return_err_inv c w : port_inv w -> port_inv (return_out (RErr c) w).
Proof.
  unfold port_inv. cbn -[delivered leaks pinv]. destruct (outs_app (outs w) (RErr c)) as [D L].
  unfold pinv. rewrite D, L. cbn -[delivered leaks]. rewrite app_nil_r, Nat.add_0_r. done.
Qed.

Lemma receive_ok n u w : port_inv w -> exists w', receive n u w = Ok w' /\ port_inv w'.
Proof.
  intros H. unfold receive. set (w0 := set_flags _ _ _ _ _). assert (port_inv w0) as H0 by exact H.
  destruct (messages w0) as [|m ms] eqn:E.
  - destruct (u =? 0); eexists; (split; [done|]); [by apply return_err_inv|exact H].
  - destruct (take_message_inv true n w0 m ms H0 E) as (o & w' & -> & H' & _). by eexists.
Qed.

Lemma receive_second_ok n w : port_inv w -> exists w', receive_second n w = Ok w' /\ port_inv w'.
Proof.
  intros H. unfold receive_second. destruct (messages w) as [|m ms] eqn:E.
  - eexists. split; [done|]. by apply return_err_inv.
  - destruct (take_message_inv false n w m ms H E) as (o & w' & -> & H' & _). by eexists.
Qed.

(** The steps that leave the messages alone. *)
Definition same_port (w w' : world) : Prop :=
  messages w' = messages w /\ maxMessages w' = maxMessages w /\ totalSent w' = totalSent w /\
  totalReceived w' = totalReceived w /\ heap w' = heap w /\ accepted w' = accepted w /\ outs w' = outs w.
Lemma same_port_inv w w' : same_port w w' -> port_inv w -> port_inv w'.
Proof. unfold same_port, port_inv. intros (-> & -> & -> & -> & -> & -> & ->). done. Qed.

Ltac cases_in H :=
  repeat match type of H with
  | context [match ?x with _ => _ end] => destruct x eqn:?; try done
  end.

Lemma messageQueued_same pc w r w' : messageQueued pc w = Ok (r, w') -> same_port w w' /\ senders w' = senders w.
Proof.
  unfold messageQueued, threadUnblocked. intros E. destruct pc; cbn in E; cases_in E; by simplify_eq/=.
Qed.

Lemma process_unblocked_same w w' : process_unblocked w = Ok w' -> same_port w w' /\ senders w' = senders w.
Proof. unfold process_unblocked. intros E. cases_in E; by simplify_eq/=. Qed.

Lemma receiver_step_inv w w' : port_inv w -> receiver_step w = Ok w' -> port_inv w'.
Proof.
  intros H. unfold receiver_step. intros E. destruct (receiver w) as [| | | | | | |n] eqn:R;
    try (cases_in E; simplify_eq/=; (eapply same_port_inv; [|exact H]); done).
  destruct (receive_second_ok n w H) as (? & E' & ?). congruence.
Qed.

Lemma pstep_inv e w w' : port_inv w -> pstep e w = Ok w' -> port_inv w'.
Proof.
  intros H. destruct e as [from buf|i|n u| |]; cbn [pstep].
  - intros [= <-]. by apply send_inv.
  - destruct (senders w !! i) as [pc|]; [|by intros [= <-]].
    destruct (messageQueued pc w) as [[r w1]| |] eqn:E; cbn; [|done..]. intros [= <-].
    apply messageQueued_same in E. eapply same_port_inv; [|exact H]. exact (proj1 E).
  - destruct (receiver w); try (by intros [= <-]). destruct (receive_ok n u w H) as (? & -> & ?).
    by intros [= <-].
  - by apply receiver_step_inv.
  - intros E%process_unblocked_same. eapply same_port_inv; [|exact H]. by destruct E.
Qed.

Lemma newPort_inv depth : 0 <= depth -> port_inv (newPort depth).
Proof. intros. exists [], []. cbn. split_and!; try done. constructor. Qed.

Lemma prun_inv es : forall w w', port_inv w -> prun es w = Ok w' -> port_inv w'.
Proof.
  induction es as [|e es IH]; intros w w' H; cbn; [by intros [= <-]|].
  destruct (pstep e w) as [w1| |] eqn:E; cbn; [|done..]. apply IH. by eapply pstep_inv.
Qed.

Lemma take_message_max free n m ms w o w' :
  take_message free n m ms w = Ok (o, w') -> maxMessages w' = maxMessages w.
Proof.
  unfold take_message, mbind, res_bind. intros E.
  destruct (res_of (content m)) as [a| |]; [|done..]. destruct (res_of (heap w !! a)); [|done..].
  destruct (if free then _ else _); [|done..]. by simplify_eq/=.
Qed.
Lemma pstep_max e w w' : pstep e w = Ok w' -> maxMessages w' = maxMessages w.
Proof.
  destruct e as [from buf|i|n u| |]; cbn [pstep].
  - intros [= <-]. unfold send. destruct buf; [|done]. by repeat case_if.
  - destruct (senders w !! i) as [pc|]; [|by intros [= <-]].
    destruct (messageQueued pc w) as [[r w1]| |] eqn:E; cbn; [|done..]. intros [= <-].
    apply messageQueued_same in E. by destruct E as [(_ & ? & _) _].
  - destruct (receiver w); try (by intros [= <-]). unfold receive.
    destruct (messages _) as [|m ms]; [by destruct (u =? 0); intros [= <-]|].
    destruct (take_message _ _ _ _ _) as [[o w1]| |] eqn:E; cbn; [|done..]. intros [= <-].
    by apply take_message_max in E.
  - unfold receiver_step, receive_second. intros E. cases_in E; simplify_eq/=; try done.
    destruct (take_message _ _ _ _ _) as [[o w1]| |] eqn:E'; simplify_eq/=. by apply take_message_max in E'.
  - intros E%process_unblocked_same. by destruct E as [(_ & ? & _) _].
Qed.
Lemma prun_max es : forall w w', prun es w = Ok w' -> maxMessages w' = maxMessages w.
Proof.
  induction es as [|e es IH]; intros w w'; cbn; [by intros [= <-]|].
  destruct (pstep e w) as [w1| |] eqn:E; cbn; [|done..]. intros H%IH. rewrite H. by eapply pstep_max.
Qed.

(** C6: In every interleaving of the receiver, of any number of senders and of
    the scheduler that does not stop the kernel, the accepted messages are
    delivered once each and in order: what [receive] has returned so far, each
    message cut to the buffer it was given, followed by what is still queued is
    what was accepted.  The counters count modulo 2^64, a limited queue never
    holds more than its limit, and the heap holds the buffers of the queued
    messages plus one buffer for every message that was taken after blocking,
    which nobody gives back. *)
Theorem port_fifo es depth w :
  0 <= depth -> prun es (newPort depth) = Ok w ->
  exists dl q, accepted w = dl ++ q /\
    Forall2 (fun o a => exists slept n, o = RMsg slept n a.1 (take n a.2)) (delivered (outs w)) dl /\
    Forall2 (fun m a => sender m = a.1 /\ (p ← content m; heap w !! p) = Some a.2) (messages w) q /\
    totalSent w = u64 (Z.of_nat (length (accepted w))) /\
    totalReceived w = u64 (Z.of_nat (length dl)) /\
    (depth <> 0 -> Z.of_nat (length (messages w)) <= depth) /\
    size (heap w) = (length (messages w) + leaks (outs w))%nat.
Proof.
  intros Hd E. assert (maxMessages w = depth) as Hx.
  { revert E. change depth with (maxMessages (newPort depth)) at 2. apply prun_max. }
  pose proof (prun_inv es _ _ (newPort_inv depth Hd) E) as (dl & q & Ha & Hq & Ho & Hts & Htr & Hmx & _ & Hsz).
  rewrite Hx in Hmx. exists dl, q. split_and!; try done.
  eapply Forall2_impl; [exact Hq|]. intros m a (p & -> & Hp). done.
Qed.

(** ** One processor *)

(** The thread and the scheduler at the points where one processor can switch. *)
Definition quiet (w : world) : Prop :=
  state w = Runnable /\ unblocked w = O /\ unblockRequested w = false /\ blockingOn w = false /\
  isBlocking w = false.
Definition asleep (w : world) : Prop :=
  state w = Blocked /\ blocker w = true /\ isBlocking w = true /\ blockingOn w = true /\
  if signalled w then blockState w = Unblocked /\ unblocked w = 1%nat /\ unblockRequested w = true
  else blockState w = Blocking /\ unblocked w = O /\ unblockRequested w = false.
Definition awake (w : world) : Prop :=
  state w = Runnable /\ unblocked w = O /\ unblockRequested w = false /\
  (blockState w = Unblocked \/ blockState w = Aborted) /\
  if blockingOn w then isBlocking w = true /\ signalled w = true /\ blocker w = true else isBlocking w = false.
Definition thread_inv (w : world) : Prop :=
  match receiver w with
  | RIdle | RChecked _ | RSecond _ => quiet w
  | RAsleep _ => asleep w
  | RAwake _ => awake w
  | RWill _ | RSet _ | RBlock _ => False
  end.

(** As long as no block was aborted, a message that waits for a receiver about
    to sleep or asleep has someone who will wake it. *)
Definition wake_inv (w : world) : Prop :=
  aborts w = O ->
  match receiver w with
  | RIdle | RSecond _ => blocker w = false
  | RChecked _ => blocker w = false /\ (messages w <> [] -> senders w <> [] \/ unblockedSignalled w = true)
  | RAsleep _ => messages w <> [] -> senders w <> [] \/ signalled w = true
  | RAwake _ => blockingOn w = true
  | RWill _ | RSet _ | RBlock _ => False
  end.

Definition cinv (w : world) : Prop :=
  port_inv w /\ Forall (eq SNotify) (senders w) /\ thread_inv w /\ wake_inv w.

Lemma cinv_new depth : 0 <= depth -> cinv (newPort depth).
Proof. intros. split; [by apply newPort_inv|]. split; [constructor|]. split; [done|]. done. Qed.

Lemma cinv_send from buf w : cinv w -> cinv (send from buf w).2.
Proof.
  intros (Hp & Hs & Ht & Hw). split; [by apply send_inv|].
  unfold send. destruct buf as [buf|]; [|done]. destruct (_ <? _); [done|].
  destruct (negb _ && _); [done|]. split; [|split; [done|]].
  - cbn. apply Forall_app. split; [done|]. by constructor.
  - unfold wake_inv in *. cbn. intros Ha. specialize (Hw Ha).
    assert (senders w ++ [SNotify] <> []) as Hne by (by destruct (senders w)).
    destruct (receiver w); try done; [split; [tauto|]|]; intros _; by left.
Qed.

(** Case analysis on where the receiver is. *)
Ltac by_pc w :=
  destruct (receiver w); try (repeat case_match; intuition congruence).

(** [messageQueued] on one processor. *)
Lemma cinv_notify w : cinv w -> exists w', cstep CNotify w = Ok w' /\ cinv w'.
Proof.
  intros (Hp & Hs & Ht & Hw). cbn [cstep]. destruct (senders w) as [|pc l] eqn:El.
  { exists w. split; [done|]. split; [done|]. rewrite El. done. }
  inversion Hs as [|? ? <- Hl]; subst. cbn [finish messageQueued]. cbn.
  destruct (blocker w) eqn:Eb; cbn.
  2:{ eexists. split; [done|]. split; [exact Hp|]. split; [exact Hl|]. split.
      - unfold thread_inv, quiet, asleep, awake in *. cbn. by_pc w.
      - unfold thread_inv, asleep, wake_inv in *. cbn. intros Ha. specialize (Hw Ha).
        by_pc w. }
  destruct (isBlocking w) eqn:Ei; cbn.
  2:{ eexists. split; [done|]. split; [exact Hp|]. split; [exact Hl|]. split.
      - unfold thread_inv, quiet, asleep, awake in *. cbn. by_pc w.
      - unfold thread_inv, asleep, wake_inv in *. cbn. intros Ha. specialize (Hw Ha).
        by_pc w. }
  destruct (signalled w) eqn:Eg; cbn.
  1:{ eexists. split; [done|]. split; [exact Hp|]. split; [exact Hl|]. split.
      - unfold thread_inv, quiet, asleep, awake in *. cbn. rewrite Eg in Ht. by_pc w.
      - unfold thread_inv, asleep, wake_inv in *. cbn. intros Ha. specialize (Hw Ha).
        by_pc w. }
  unfold thread_inv in Ht. destruct (receiver w) as [| | | | |n|n|] eqn:Er; cbn;
    try (unfold quiet in Ht; exfalso; intuition congruence).
  - unfold asleep in Ht. rewrite Eg in Ht. destruct Ht as (T1 & T2 & T3 & T4 & T5 & T6 & T7).
    unfold threadUnblocked. cbn. rewrite ?Er, ?Eb. cbn. rewrite T7, T1. cbn. eexists. split; [done|].
    split; [exact Hp|]. split; [exact Hl|]. split.
    + unfold thread_inv, asleep. cbn. rewrite Er, T6. done.
    + unfold wake_inv. cbn. rewrite Er. intros _ _. by right.
  - destruct Ht as (_ & _ & _ & _ & T). exfalso. destruct (blockingOn w); intuition congruence.
Qed.

(** A locked part of [receive] that returns: only the messages, the log and the
    place of the receiver change. *)
Lemma cinv_return o w w' :
  cinv w -> quiet w -> (aborts w = O -> blocker w = false) ->
  port_inv (return_out o w') ->
  state w' = state w -> unblocked w' = unblocked w -> unblockRequested w' = unblockRequested w ->
  blockingOn w' = blockingOn w -> isBlocking w' = isBlocking w -> blocker w' = blocker w ->
  senders w' = senders w -> aborts w' = aborts w -> cinv (return_out o w').
Proof.
  intros (_ & Hs & _ & _) Hq Hb Hp E1 E2 E3 E4 E5 E6 E7 E8.
  split; [done|]. split; [cbn; by rewrite E7|]. split.
  - unfold thread_inv, quiet in *. cbn. by rewrite E1, E2, E3, E4, E5.
  - unfold wake_inv. cbn. by rewrite E6, E8.
Qed.

Lemma cinv_receive n u w : cinv w -> exists w', cstep (CReceive n u) w = Ok w' /\ cinv w'.
Proof.
  intros H. pose proof H as (Hp & Hs & Ht & Hw). cbn [cstep pstep].
  destruct (receiver w) eqn:Er; try (by exists w).
  unfold thread_inv, wake_inv in Ht, Hw. rewrite Er in Ht, Hw.
  unfold receive. set (w0 := set_flags _ _ _ _ _). assert (port_inv w0) as H0 by exact Hp.
  destruct (messages w0) as [|m ms] eqn:E.
  - destruct (u =? 0); eexists; (split; [done|]).
    + apply (cinv_return _ w); try done. by apply return_err_inv.
    + split; [exact Hp|]. split; [exact Hs|]. split; [exact Ht|].
      unfold wake_inv. cbn. intros Ha. split; [by apply Hw|]. done.
  - destruct (take_message_inv true n w0 m ms H0 E) as (o & w' & -> & H' & Ew & _). cbn.
    eexists. split; [done|]. apply (cinv_return _ w); try done; by rewrite Ew.
Qed.

Lemma cinv_receiver w : cinv w -> exists w', cstep CReceiver w = Ok w' /\ cinv w'.
Proof.
  intros H. pose proof H as (Hp & Hs & Ht & Hw). cbn [cstep].
  unfold thread_inv, wake_inv in Ht, Hw. destruct (receiver w) as [|n| | | | |n|n] eqn:Er; try done;
    try (exists w; unfold receiver_step; rewrite Er; by split).
  - cbn [block_now]. unfold receiver_step. rewrite !Er. cbn.
    unfold quiet in Ht. destruct Ht as (T1 & T2 & T3 & T4 & T5).
    destruct (signalled w || unblockedSignalled w) eqn:Ef; cbn.
    + eexists. split; [done|]. split; [exact Hp|]. split; [exact Hs|]. split; [|done].
      unfold thread_inv, awake. cbn. rewrite T4. split_and!; auto.
    + apply orb_false_elim in Ef. destruct Ef as [Ef1 Ef2].
      eexists. split; [done|]. split; [exact Hp|]. split; [exact Hs|]. split.
      * unfold thread_inv, asleep. cbn. rewrite Ef1. split_and!; auto.
      * unfold wake_inv. cbn. intros Ha. specialize (Hw Ha). rewrite Ef2 in Hw. intros Hm. left.
        by destruct (proj2 Hw Hm).
  - unfold receiver_step. rewrite Er. unfold awake in Ht. destruct Ht as (T1 & T2 & T3 & T4 & T5).
    destruct (blockingOn w) eqn:Eb; cbn.
    + destruct T4 as [T4|T4]; rewrite T4; eexists; (split; [done|]);
        (split; [exact Hp|]); (split; [exact Hs|]); (split; [|done]); by unfold thread_inv, quiet; cbn.
    + destruct T4 as [T4|T4]; rewrite T4; eexists; (split; [done|]);
        (split; [exact Hp|]); (split; [exact Hs|]); (split; [done|]);
        unfold wake_inv; cbn; intros Ha; by specialize (Hw Ha).
  - unfold receiver_step. rewrite Er. unfold receive_second. destruct (messages w) as [|m ms] eqn:E.
    + eexists. split; [done|]. apply (cinv_return _ w); try done. by apply return_err_inv.
    + destruct (take_message_inv false n w m ms Hp E) as (o & w' & -> & H' & Ew & _). cbn.
      eexists. split; [done|]. apply (cinv_return _ w); try done; by rewrite Ew.
Qed.

Lemma cinv_sched w : cinv w -> exists w', cstep CSched w = Ok w' /\ cinv w'.
Proof.
  intros H. pose proof H as (Hp & Hs & Ht & Hw). cbn [cstep pstep]. unfold process_unblocked.
  destruct (unblocked w) as [|u] eqn:Eu; [by exists w|].
  unfold thread_inv, wake_inv in Ht, Hw. destruct (receiver w) as [| | | | |n| |] eqn:Er;
    unfold quiet, awake in Ht; try (exfalso; intuition congruence).
  unfold asleep in Ht. destruct (signalled w) eqn:Eg; [|exfalso; intuition congruence].
  destruct Ht as (T1 & T2 & T3 & T4 & T5 & T6 & T7). rewrite T1, T5. eexists. split; [done|].
  split; [exact Hp|]. split; [exact Hs|]. split; [|intros _; exact T4].
  unfold thread_inv, awake. cbn. rewrite T4. split_and!; auto; congruence.
Qed.

Lemma cstep_ok e w : cinv w -> exists w', cstep e w = Ok w' /\ cinv w'.
Proof.
  destruct e; [|apply cinv_notify|apply cinv_receive|apply cinv_receiver|apply cinv_sched].
  intros H. eexists. split; [done|]. by apply cinv_send.
Qed.

Lemma crun_ok es : forall w, cinv w -> exists w', crun es w = Ok w' /\ cinv w'.
Proof.
  induction es as [|e es IH]; intros w H; [by exists w|]. cbn [crun].
  destruct (cstep_ok e w H) as (w1 & -> & H1). cbn. by apply IH.
Qed.

(** ** One processor is one of the interleavings *)

Lemma prun_app es1 es2 w : prun (es1 ++ es2) w = (w ← prun es1 w; prun es2 w).
Proof.
  revert w. induction es1 as [|e es1 IH]; intros w; [done|]. cbn.
  destruct (pstep e w); cbn; [apply IH|done..].
Qed.

Lemma messageQueued_senders pc s w r w' :
  messageQueued pc w = Ok (r, w') -> messageQueued pc (set_senders s w) = Ok (r, set_senders s w').
Proof.
  intros E. unfold messageQueued, threadUnblocked in *.
  destruct pc; cbn in *; cases_in E; simplify_eq/=; repeat case_match; by simplify_eq/=.
Qed.

Lemma finish_prun fuel : forall pc w l w',
  finish fuel pc w = Ok w' -> exists es, prun es (set_senders (pc :: l) w) = Ok (set_senders l w').
Proof.
  induction fuel as [|fuel IH]; intros pc w l w' E; [done|]. cbn in E.
  destruct (messageQueued pc w) as [[r w1]| |] eqn:Em; [|done..]. cbn in E.
  apply (messageQueued_senders _ (pc :: l)) in Em.
  assert (pstep (ESender 0) (set_senders (pc :: l) w) =
          Ok (set_senders (put_sender 0 r (pc :: l)) (set_senders (pc :: l) w1))) as Es
    by (cbn [pstep senders set_senders lookup list_lookup]; by rewrite Em).
  destruct r as [pc'|].
  - destruct (IH pc' w1 l w' E) as (es & H). exists (ESender 0 :: es). cbn [prun]. rewrite Es. exact H.
  - injection E as <-. exists [ESender 0]. cbn [prun]. by rewrite Es.
Qed.

Lemma block_now_prun fuel : forall w w', block_now fuel w = Ok w' -> exists es, prun es w = Ok w'.
Proof.
  induction fuel as [|fuel IH]; intros w w' E; [done|]. cbn [block_now] in E.
  destruct (receiver w) eqn:Er; try (by exists []);
    (destruct (receiver_step w) as [w1| |] eqn:E1; [|done..]; destruct (IH w1 w' E) as (es & H);
     exists (EReceiver :: es); cbn [prun pstep]; by rewrite E1).
Qed.

Lemma cstep_prun e w w' : cstep e w = Ok w' -> exists es, prun es w = Ok w'.
Proof.
  assert (forall ev, pstep ev w = Ok w' -> exists es, prun es w = Ok w') as Hone.
  { intros ev H. exists [ev]. cbn [prun]. by rewrite H. }
  destruct e as [from buf| |n u| |]; cbn [cstep]; try apply Hone.
  - destruct (senders w) as [|pc l] eqn:El; [by exists []|].
    destruct (finish 6 pc w) as [w1| |] eqn:E; [|done..]. cbn. intros [= <-].
    replace w with (set_senders (pc :: l) w) by (rewrite <- El; by destruct w).
    by apply (finish_prun 6).
  - destruct (receiver w); try apply (Hone EReceiver). apply block_now_prun.
Qed.

Lemma crun_prun es : forall w w', crun es w = Ok w' -> exists es', prun es' w = Ok w'.
Proof.
  induction es as [|e es IH]; intros w w' E; [by exists []|]. cbn in E.
  destruct (cstep e w) as [w1| |] eqn:E1; [|done..]. destruct (cstep_prun e w w1 E1) as (es1 & H1).
  destruct (IH w1 w' E) as (es2 & H2). exists (es1 ++ es2). rewrite prun_app, H1. exact H2.
Qed.

(** ** Waking up *)

(** The bytes of a queued message. *)
Definition payload (w : world) (m : Message) : list Z := default [] (p ← content m; heap w !! p).

Lemma notify_keeps w w' :
  cstep CNotify w = Ok w' ->
  receiver w' = receiver w /\ messages w' = messages w /\ heap w' = heap w /\ outs w' = outs w /\
  aborts w' = aborts w.
Proof.
  cbn [cstep]. destruct (senders w) as [|pc l]; [by intros [= <-]|].
  assert (forall fuel pc w w1, finish fuel pc w = Ok w1 -> receiver w1 = receiver w /\
    messages w1 = messages w /\ heap w1 = heap w /\ outs w1 = outs w /\ aborts w1 = aborts w) as Hf.
  { clear. induction fuel as [|fuel IH]; intros pc w w1 E; [done|]. cbn in E.
    destruct (messageQueued pc w) as [[r w2]| |] eqn:Em; [|done..]. cbn in E.
    assert (receiver w2 = receiver w /\ messages w2 = messages w /\ heap w2 = heap w /\
            outs w2 = outs w /\ aborts w2 = aborts w) as (A1 & A2 & A3 & A4 & A5).
    { clear E IH. unfold messageQueued, threadUnblocked in Em.
      destruct pc; cbn in Em; cases_in Em; by simplify_eq/=. }
    destruct r as [pc'|]; [|by injection E as <-]. apply IH in E.
    destruct E as (-> & -> & -> & -> & ->). done. }
  destruct (finish 6 pc w) as [w1| |] eqn:E; [|done..]. intros [= <-]. cbn. by eapply Hf.
Qed.

(** A receiver that was signalled returns the first message after three steps. *)
Lemma signalled_returns w n m ms :
  cinv w -> receiver w = RAsleep n -> signalled w = true -> messages w = m :: ms ->
  exists w', crun [CSched; CReceiver; CReceiver] w = Ok w' /\ receiver w' = RIdle /\ messages w' = ms /\
    outs w' = outs w ++ [RMsg true n (sender m) (take n (payload w m))].
Proof.
  intros H Hr Hg Hm. pose proof H as (Hp & _ & Ht & _). unfold thread_inv, asleep in Ht.
  rewrite Hr, Hg in Ht. destruct Ht as (T1 & T2 & T3 & T4 & T5 & T6 & T7).
  cbn [crun cstep pstep]. unfold process_unblocked. rewrite T6, T1, T5, Hr.
  cbn. unfold receiver_step. cbn. rewrite T4. cbn.
  set (w0 := set_receiver (RSecond n) _). assert (port_inv w0) as H0 by exact Hp.
  unfold receive_second. replace (messages w0) with (m :: ms) by done.
  destruct (take_message_inv false n w0 m ms H0 Hm) as (o & w' & -> & _ & Ew & ->). cbn.
  eexists. split; [done|]. split; [done|]. split; [by rewrite Ew|]. cbn. rewrite Ew. done.
Qed.

Lemma notify_signals w n :
  cinv w -> aborts w = O -> receiver w = RAsleep n -> messages w <> [] ->
  exists w', cstep CNotify w = Ok w' /\ cinv w' /\ signalled w' = true.
Proof.
  intros H Ha Hr Hm. destruct (cinv_notify w H) as (w' & E & H'). exists w'. split; [done|]. split; [done|].
  destruct H as (Hp & Hs & Ht & Hw). unfold thread_inv, wake_inv, asleep in Ht, Hw.
  rewrite Hr in Ht, Hw. destruct Ht as (T1 & T2 & T3 & T4 & T5).
  destruct (signalled w) eqn:Eg.
  - revert E. cbn [cstep]. destruct (senders w) as [|pc l]; [by intros [= <-]|].
    inversion Hs; subst. cbn. rewrite T2. cbn. rewrite T3. cbn. rewrite Eg. cbn. by intros [= <-].
  - revert E. cbn [cstep]. destruct (senders w) as [|pc l]; [by destruct (Hw Ha Hm)|].
    inversion Hs; subst. destruct T5 as (T5 & T6 & T7). cbn. rewrite T2. cbn. rewrite T3. cbn. rewrite Eg. cbn.
    rewrite Hr. cbn. rewrite T2. cbn. unfold threadUnblocked. cbn. rewrite T7, T1. cbn. by intros [= <-].
Qed.

End Port.

(** ** Traces in which the receiver is forgotten *)

(** The second message arrives between the check of the queue and the sleep of
    the second call, whose blocker is still set from the aborted first call. *)
Definition stale_blocker : list cevent :=
  [CReceive 16 1; CSend 7 (Some [1; 2]); CNotify; CReceiver; CReceiver; CReceiver;
   CReceive 16 1; CSend 7 (Some [3]); CNotify; CReceiver].

(** On two processors: the sender looks at the flags of the blocker between the
    receiver's [Blockable::willBlockOn] and its test of them. *)
Definition late_flag : list event :=
  [EReceive 16 1; EReceiver; ESend 7 (Some [3]); ESender 0; ESender 0; EReceiver; EReceiver; EReceiver].

(** Two senders: the second one loads [isBlocking], the first one wakes the
    receiver, which returns and resets the flags. *)
Definition late_unblock : list event :=
  [EReceive 16 1; EReceiver; EReceiver; EReceiver; EReceiver;
   ESend 7 (Some [3]); ESend 8 (Some [4]);
   ESender 1; ESender 1;
   ESender 0; ESender 0; ESender 0; ESender 0; ESender 0; ESched; EReceiver; EReceiver;
   EReceive 16 0; ESender 0; ESender 0].

(** A message can be queued without waking the receiver.  On one processor
    this takes an earlier call whose block was aborted: [blockOn] then never
    calls [didUnblock], the stale [blocker] makes [messageQueued] record nothing,
    and the receiver goes to sleep next to the message; the time limit of one
    nanosecond that it gave does not matter, since only another send moves
    anything.  On several processors a first call is enough, and a sender that is
    late can follow the null pointer left by [didUnblock]. *)
Theorem port_lost_wakeup :
  (exists w m, crun stale_blocker (newPort kDefaultMaxMessages) = Ok w /\
     receiver w = RAsleep 16 /\ messages w = [m] /\
     forall e, (forall from buf, e <> CSend from buf) -> cstep e w = Ok w) /\
  (exists w m, prun late_flag (newPort kDefaultMaxMessages) = Ok w /\
     aborts w = 0%nat /\ receiver w = RAsleep 16 /\ messages w = [m] /\
     forall e, (forall from buf, e <> ESend from buf) -> pstep e w = Ok w) /\
  prun late_unblock (newPort kDefaultMaxMessages) = Stuck.
Proof.
  split; [|split; [|by vm_compute]].
  - eexists _, _. split; [vm_compute; reflexivity|]. split; [reflexivity|]. split; [reflexivity|].
    intros [from buf| |n u| |] He; try reflexivity. by destruct (He from buf).
  - eexists _, _. split; [vm_compute; reflexivity|]. split; [reflexivity|]. split; [reflexivity|].
    split; [reflexivity|].
    intros [from buf|i|n u| |] He; try reflexivity. by destruct (He from buf).
Qed.

Definition fifo_demo : list event :=
  [ESend 7 (Some [1; 2; 3]); ESend 8 (Some [4]); EReceive 2 0; ESend 8 (Some [5])].

Definition fifo_demo_end : world :=
  match prun fifo_demo (newPort 1) with Ok w => w | _ => newPort 1 end.
Lemma fifo_demo_run : prun fifo_demo (newPort 1) = Ok fifo_demo_end.
Proof. vm_compute. reflexivity. Qed.

Lemma port_fifo_witness :
  exists w, prun fifo_demo (newPort 1) = Ok w /\ outs w = [RMsg false 2 7 [1; 2]] /\
    accepted w = [(7, [1; 2; 3]); (8, [5])] /\
    exists dl q, accepted w = dl ++ q /\ totalReceived w = u64 (Z.of_nat (length dl)) /\
      size (heap w) = (length (messages w) + leaks (outs w))%nat.
Proof.
  exists fifo_demo_end. split; [exact fifo_demo_run|]. split; [vm_compute; reflexivity|].
  split; [vm_compute; reflexivity|].
  destruct (port_fifo fifo_demo 1 fifo_demo_end (ltac:(lia)) fifo_demo_run)
    as (dl & q & E & _ & _ & _ & T & _ & S).
  exists dl, q. split; [exact E|]. split; [exact T|exact S].
Defined.

Definition wake_demo : list cevent := [CReceive 16 5; CReceiver; CSend 7 (Some [1; 2])].

