(* ===== verification/BST.v ===== *)
(** * The kernel's binary search tree (kernel/src/runtime/BinarySearchTree.h)

    A node carries its address, its parent pointer and its content; the child
    pointers are the subtrees themselves.  [remove] on a node without a parent
    follows the null pointer that the code follows, and the iterator walks the
    parent pointers.  The theorems relate the tree to the ordered sequence of
    its contents. *)

From stdpp Require Import sorting.
From S2P Require Import Prelude.

Section BST.
Context {Leaf : Type} (getKey : Leaf -> Z).

Inductive tree :=
| Nil
| Node (id : Z) (parent : option Z) (leaf : Leaf) (left right : tree).

Definition root_id (t : tree) : option Z := match t with Nil => None | Node id _ _ _ _ => Some id end.
Definition set_parent (p : option Z) (t : tree) : tree :=
  match t with Nil => Nil | Node id _ lf l r => Node id p lf l r end.

Fixpoint findKey (key : Z) (node : tree) : option (Z * Leaf) :=
  match node with
  | Nil => None
  | Node id _ lf l r =>
      if getKey lf =? key then Some (id, lf)
      else if key <? getKey lf then findKey key l else findKey key r
  end.

(** [insert]: a key that is present stops the kernel. *)
Fixpoint insert (key : Z) (id : Z) (leaf : Leaf) (root : tree) (parent : option Z) : res tree :=
  match root with
  | Nil => Ok (Node id parent leaf Nil Nil)
  | Node i p lf l r =>
      if getKey lf =? key then Panic
      else if key <? getKey lf then l ← insert key id leaf l (Some i); Ok (Node i p lf l r)
      else r ← insert key id leaf r (Some i); Ok (Node i p lf l r)
  end.

Fixpoint findMin (node : tree) : option (Z * Leaf) :=
  match node with
  | Nil => None
  | Node id _ lf l _ => match l with Nil => Some (id, lf) | Node _ _ _ _ _ => findMin l end
  end.
Fixpoint findMax (node : tree) : option (Z * Leaf) :=
  match node with
  | Nil => None
  | Node id _ lf _ r => match r with Nil => Some (id, lf) | Node _ _ _ _ _ => findMax r end
  end.
Definition findSuccessor (node : tree) : option (Z * Leaf) :=
  match node with Nil => None | Node _ _ _ _ r => findMin r end.
Definition findPredecessor (node : tree) : option (Z * Leaf) :=
  match node with Nil => None | Node _ _ _ l _ => findMax l end.

(** [remove] in the subtree [node] below [parent]: whether the key was found,
    and the subtree that takes the place of [node].  With one child the code
    writes through [parent] without a test. *)
Fixpoint remove (key : Z) (node : tree) (parent : option Z) : res (bool * tree) :=
  match node with
  | Nil => Ok (false, Nil)
  | Node id p lf l r =>
      if key <? getKey lf then
        x ← remove key l (Some id); let '(b, l) := (x : bool * tree) in Ok (b, Node id p lf l r)
      else if getKey lf <? key then
        x ← remove key r (Some id); let '(b, r) := (x : bool * tree) in Ok (b, Node id p lf l r)
      else match l, r with
      | Node _ _ _ _ _, Node _ _ _ _ _ =>
          successor ← res_of (findSuccessor node);
          x ← remove (getKey successor.2) r (Some id);
          let '(b, r) := (x : bool * tree) in Ok (b, Node id p successor.2 l r)
      | Node _ _ _ _ _, Nil => _ ← res_of parent; Ok (true, set_parent parent l)
      | Nil, Node _ _ _ _ _ => _ ← res_of parent; Ok (true, set_parent parent r)
      | Nil, Nil => Ok (true, Nil)
      end
  end.

Fixpoint countNodes (node : tree) : Z :=
  match node with Nil => 0 | Node _ _ _ l r => 1 + countNodes l + countNodes r end.

(** The calls of the callback of [iterateInOrder], and the nodes in the order in
    which [deleteSubtree] deletes them. *)
Fixpoint iterateInOrder (node : tree) : list (Z * Leaf) :=
  match node with Nil => [] | Node id _ lf l r => iterateInOrder l ++ (id, lf) :: iterateInOrder r end.
Fixpoint deleteSubtree (node : tree) : list Z :=
  match node with Nil => [] | Node id _ _ l r => deleteSubtree l ++ deleteSubtree r ++ [id] end.

(** ** The iterator *)

(** The node at an address. *)
Fixpoint node_at (id : Z) (t : tree) : option tree :=
  match t with
  | Nil => None
  | Node i _ _ l r =>
      if i =? id then Some t
      else match node_at id l with Some n => Some n | None => node_at id r end
  end.
Definition parent_of (t : tree) : option Z := match t with Nil => None | Node _ p _ _ _ => p end.
Definition left_of (t : tree) : option Z := match t with Nil => None | Node _ _ _ l _ => root_id l end.
Definition right_of (t : tree) : option Z := match t with Nil => None | Node _ _ _ _ r => root_id r end.
Definition deref (t : tree) (p : option Z) : res tree := a ← res_of p; res_of (node_at a t).

(** [while(node->left) node = node->left] *)
Fixpoint descend (t : tree) (fuel : nat) (node : option Z) : res (option Z) :=
  match fuel with
  | O => Stuck
  | S fuel =>
      n ← deref t node;
      match left_of n with Some _ => descend t fuel (left_of n) | None => Ok node end
  end.

(** [while(node == y->right)]: climbs, and gives the node the iterator ends on. *)
Fixpoint climb (t : tree) (fuel : nat) (node y : option Z) : res (option Z) :=
  match fuel with
  | O => Stuck
  | S fuel =>
      ny ← deref t y;
      if bool_decide (node = right_of ny) then
        match parent_of ny with
        | None => Ok None
        | Some _ => climb t fuel y (parent_of ny)
        end
      else
        nn ← deref t node;
        Ok (if bool_decide (right_of nn = y) then node else y)
  end.

Definition increment (t : tree) (node : option Z) : res (option Z) :=
  match node with
  | None => Ok None
  | Some _ =>
      n ← deref t node;
      match right_of n with
      | Some _ => descend t (S (Z.to_nat (countNodes t))) (right_of n)
      | None =>
          match parent_of n with
          | None => Ok None
          | Some _ => climb t (S (Z.to_nat (countNodes t))) node (parent_of n)
          end
      end
  end.

(** [for(auto leaf : tree)]. *)
Definition begin (t : tree) : option Z := fst <$> findMin t.
Fixpoint for_each (t : tree) (fuel : nat) (it : option Z) : res (list Leaf) :=
  match it with
  | None => Ok []
  | Some _ =>
      match fuel with
      | O => Stuck
      | S fuel =>
          n ← deref t it;
          match n with
          | Nil => Stuck
          | Node _ _ lf _ _ => it ← increment t it; ls ← for_each t fuel it; Ok (lf :: ls)
          end
      end
  end.

(** ** The tree as an ordered sequence *)

Definition contents (t : tree) : list Leaf := (iterateInOrder t).*2.
Definition ids (t : tree) : list Z := (iterateInOrder t).*1.

Fixpoint ordered (t : tree) : Prop :=
  match t with
  | Nil => True
  | Node _ _ lf l r =>
      ordered l /\ ordered r /\
      Forall (fun x => getKey x < getKey lf) (contents l) /\ Forall (fun x => getKey lf < getKey x) (contents r)
  end.
Fixpoint parents_ok (p : option Z) (t : tree) : Prop :=
  match t with
  | Nil => True
  | Node id q _ l r => q = p /\ parents_ok (Some id) l /\ parents_ok (Some id) r
  end.
Record bst (p : option Z) (t : tree) : Prop := {
  bst_ordered : ordered t;
  bst_parents : parents_ok p t;
  bst_ids : NoDup (ids t)
}.

Lemma contents_node id p lf l r : contents (Node id p lf l r) = contents l ++ lf :: contents r.
Proof. unfold contents. cbn. by rewrite fmap_app. Qed.
Lemma ids_node id p lf l r : ids (Node id p lf l r) = ids l ++ id :: ids r.
Proof. unfold ids. cbn. by rewrite fmap_app. Qed.
Lemma contents_set_parent p t : contents (set_parent p t) = contents t.
Proof. by destruct t. Qed.
Lemma ids_set_parent p t : ids (set_parent p t) = ids t.
Proof. by destruct t. Qed.

Lemma findKey_spec key t :
  ordered t ->
  match findKey key t with
  | Some (id, lf) => lf ∈ contents t /\ getKey lf = key /\ (id, lf) ∈ iterateInOrder t
  | None => Forall (fun lf => getKey lf <> key) (contents t)
  end.
Proof.
  induction t as [|i p lf l IHl r IHr]; [intros; by constructor|].
  intros (Ol & Or & Fl & Fr). specialize (IHl Ol). specialize (IHr Or). cbn [findKey].
  rewrite contents_node. rewrite Forall_forall in Fl, Fr.
  destruct (Z.eqb_spec (getKey lf) key) as [E|E]; [cbn; set_solver|].
  destruct (Z.ltb_spec key (getKey lf)) as [Hlt|Hlt].
  - destruct (findKey key l) as [[id' lf']|]; [cbn; set_solver|].
    rewrite Forall_app, Forall_cons. split; [done|]. split; [done|].
    apply Forall_forall. intros x Hx. specialize (Fr x Hx). lia.
  - destruct (findKey key r) as [[id' lf']|]; [cbn; set_solver|].
    rewrite Forall_app, Forall_cons. split; [|done].
    apply Forall_forall. intros x Hx. specialize (Fl x Hx). lia.
Qed.

(** The contents of an ordered tree are strictly increasing, and two ordered
    trees with the same contents up to order list them alike. *)
Lemma ordered_sorted t : ordered t -> StronglySorted (fun a b => getKey a < getKey b) (contents t).
Proof.
  induction t as [|i p lf l IHl r IHr]; [constructor|]. intros (Ol & Or & Fl & Fr).
  rewrite contents_node. rewrite Forall_forall in Fl, Fr.
  apply StronglySorted_app. split; [|split; [by apply IHl|]].
  - intros x y Hx Hy. specialize (Fl x Hx). apply elem_of_cons in Hy. destruct Hy as [->|Hy]; [done|].
    specialize (Fr y Hy). lia.
  - constructor; [by apply IHr|]. by apply Forall_forall.
Qed.

Lemma bst_node p id q lf l r :
  bst p (Node id q lf l r) <->
  q = p /\ bst (Some id) l /\ bst (Some id) r /\
  Forall (fun x => getKey x < getKey lf) (contents l) /\ Forall (fun x => getKey lf < getKey x) (contents r) /\
  NoDup (ids l ++ id :: ids r).
Proof.
  split.
  - intros [(Ol & Or & Fl & Fr) (-> & Pl & Pr) N]. rewrite ids_node in N. split_and!; try done.
    + split; [done|done|]. apply NoDup_app in N. tauto.
    + split; [done|done|]. apply NoDup_app in N. destruct N as (_ & _ & N). apply NoDup_cons in N. tauto.
  - intros (-> & [Ol Pl Nl] & [Or Pr Nr] & Fl & Fr & N). split; [by split|by split|]. by rewrite ids_node.
Qed.

Lemma insert_absent key id leaf t : forall p,
  bst p t -> getKey leaf = key -> Forall (fun lf => getKey lf <> key) (contents t) -> id ∉ ids t ->
  exists t', insert key id leaf t p = Ok t' /\ bst p t' /\
    contents t' ≡ₚ leaf :: contents t /\ ids t' ≡ₚ id :: ids t.
Proof.
  induction t as [|i q lf l IHl r IHr]; intros p Hb Hk Ha Hi.
  - eexists. split; [done|]. split; [|done]. split; cbn; [by split_and!|done|by apply NoDup_singleton].
  - apply bst_node in Hb. destruct Hb as (-> & Bl & Br & Fl & Fr & Hnd).
    rewrite contents_node, Forall_app, Forall_cons in Ha. destruct Ha as (Al & An & Ar).
    rewrite ids_node in Hi. cbn [insert].
    destruct (Z.eqb_spec (getKey lf) key); [done|]. destruct (Z.ltb_spec key (getKey lf)) as [Hlt|Hlt].
    + destruct (IHl (Some i)) as (l' & -> & B' & C & I); [done..|set_solver|].
      cbn [mbind res_bind]. eexists. split; [done|]. rewrite !contents_node, !ids_node, C, I.
      split; [|split; reflexivity]. apply bst_node. rewrite C, I, Forall_cons.
      split_and!; try done; [lia|]. cbn. apply NoDup_cons. split; [set_solver|done].
    + destruct (IHr (Some i)) as (r' & -> & B' & C & I); [done..|set_solver|].
      cbn [mbind res_bind]. eexists. split; [done|]. rewrite !contents_node, !ids_node, C, I.
      assert (ids l ++ i :: id :: ids r ≡ₚ id :: ids l ++ i :: ids r) as Hp
        by (by rewrite (Permutation_swap id i), <- Permutation_middle).
      split; [|split; [by rewrite (Permutation_swap leaf lf), <- Permutation_middle|done]].
      apply bst_node. rewrite C, I, Forall_cons, Hp. split_and!; try done; [lia|].
      apply NoDup_cons. split; [set_solver|done].
Qed.

Lemma insert_present key id leaf t : forall p,
  ordered t -> Exists (fun lf => getKey lf = key) (contents t) -> insert key id leaf t p = Panic.
Proof.
  induction t as [|i q lf l IHl r IHr]; intros p Ho He; [by apply Exists_nil in He|].
  destruct Ho as (Ol & Or & Fl & Fr). rewrite contents_node, Exists_app, Exists_cons in He. cbn [insert].
  rewrite Forall_forall in Fl, Fr. rewrite !Exists_exists in He.
  destruct (Z.eqb_spec (getKey lf) key) as [E|E]; [done|].
  destruct (Z.ltb_spec key (getKey lf)) as [Hlt|Hlt].
  - rewrite IHl; [done|done|]. destruct He as [(x & Hx & Ex)|[?|(x & Hx & Ex)]]; [|lia|].
    + apply Exists_exists. by exists x.
    + specialize (Fr x Hx). lia.
  - rewrite IHr; [done|done|]. destruct He as [(x & Hx & Ex)|[?|(x & Hx & Ex)]]; [|lia|].
    + specialize (Fl x Hx). lia.
    + apply Exists_exists. by exists x.
Qed.

Lemma findMin_spec t :
  match findMin t with
  | Some x => exists xs, iterateInOrder t = x :: xs
  | None => t = Nil
  end.
Proof.
  induction t as [|i p lf l IHl r _]; [done|]. cbn [findMin iterateInOrder].
  destruct l as [|i' p' lf' l' r']; [by eexists|]. destruct (findMin _) as [x|]; [|done].
  destruct IHl as (xs & ->). by eexists.
Qed.

(** ** Removal *)

(** The root has exactly one child. *)
Definition one_child (t : tree) : bool :=
  match t with
  | Node _ _ _ (Node _ _ _ _ _) Nil | Node _ _ _ Nil (Node _ _ _ _ _) => true
  | _ => false
  end.
Definition root_key (t : tree) : option Z :=
  match t with Nil => None | Node _ _ lf _ _ => Some (getKey lf) end.

Definition others (key : Z) (xs : list Leaf) : list Leaf := filter (fun lf => getKey lf <> key) xs.
Lemma others_id key xs : Forall (fun lf => getKey lf <> key) xs -> others key xs = xs.
Proof.
  unfold others. induction 1 as [|x xs Hx _ IH]; [done|]. by rewrite filter_cons_True, IH.
Qed.
Lemma others_app key xs ys : others key (xs ++ ys) = others key xs ++ others key ys.
Proof. apply filter_app. Qed.
Lemma others_hit key lf xs : getKey lf = key -> others key (lf :: xs) = others key xs.
Proof. intros E. unfold others. rewrite filter_cons_False; [done|]. by intros H. Qed.
Lemma others_miss key lf xs : getKey lf <> key -> others key (lf :: xs) = lf :: others key xs.
Proof. intros E. unfold others. by rewrite filter_cons_True. Qed.

Lemma others_Forall (P : Leaf -> Prop) key xs : Forall P xs -> Forall P (others key xs).
Proof. rewrite !Forall_forall. intros H x [_ Hx]%list_elem_of_filter. by apply H. Qed.
Lemma ids_length t : length (ids t) = length (contents t).
Proof. unfold ids, contents. by rewrite !length_fmap. Qed.

Lemma findMin_min i p lf l r x :
  ordered (Node i p lf l r) -> findMin (Node i p lf l r) = Some x ->
  x.2 ∈ contents (Node i p lf l r) /\
  Forall (fun y => getKey x.2 <= getKey y) (contents (Node i p lf l r)).
Proof.
  intros Ho E. pose proof (findMin_spec (Node i p lf l r)) as H. rewrite E in H. destruct H as (xs & H).
  pose proof (ordered_sorted _ Ho) as Hs. unfold contents in *. rewrite H in *. cbn in *.
  apply StronglySorted_cons in Hs. destruct Hs as [Hx _]. split; [set_solver|].
  apply Forall_cons. split; [lia|]. eapply Forall_impl; [exact Hx|]. cbn. lia.
Qed.

(** What [remove] leaves behind when it returns. *)
Definition removed (key : Z) (p : option Z) (t : tree) (b : bool) (t' : tree) : Prop :=
  contents t' = others key (contents t) /\ bst p t' /\ sublist (ids t') (ids t) /\
  b = bool_decide (Exists (fun lf => getKey lf = key) (contents t)).

Lemma bst_set_parent p q t : bst p t -> bst q (set_parent q t).
Proof.
  intros [O P N]. destruct t as [|i p' lf l r]; [by split|]. destruct P as (-> & Pl & Pr).
  split; [done|by split|done].
Qed.

(** The smallest element of an ordered tree, and what stays without it. *)
Lemma findMin_others t x :
  ordered t -> findMin t = Some x ->
  contents t = x.2 :: others (getKey x.2) (contents t) /\
  Forall (fun y => getKey x.2 < getKey y) (others (getKey x.2) (contents t)).
Proof.
  intros Ho E. pose proof (findMin_spec t) as H. rewrite E in H. destruct H as (xs & H).
  pose proof (ordered_sorted _ Ho) as Hs. unfold contents in *. rewrite H in *. cbn [fmap list_fmap] in *.
  apply StronglySorted_cons in Hs. destruct Hs as [Hx _]. rewrite others_hit by done. rewrite others_id.
  - done.
  - eapply Forall_impl; [exact Hx|]. cbn. lia.
Qed.

Lemma keys_lt_ne key lf xs : key < getKey lf -> Forall (fun x => getKey lf < getKey x) xs ->
  Forall (fun x => getKey x <> key) xs.
Proof. intros ? H. eapply Forall_impl; [exact H|]. cbn. lia. Qed.
Lemma keys_gt_ne key lf xs : getKey lf < key -> Forall (fun x => getKey x < getKey lf) xs ->
  Forall (fun x => getKey x <> key) xs.
Proof. intros ? H. eapply Forall_impl; [exact H|]. cbn. lia. Qed.
Lemma none_exists key xs :
  Forall (fun x => getKey x <> key) xs -> ~ Exists (fun x => getKey x = key) xs.
Proof. rewrite Forall_forall, Exists_exists. naive_solver. Qed.

(** Going down: the other subtree does not hold the key. *)
Lemma removed_left key i lf l r p b l' :
  bst p (Node i p lf l r) -> key < getKey lf -> removed key (Some i) l b l' ->
  removed key p (Node i p lf l r) b (Node i p lf l' r).
Proof.
  intros Hb Hlt (C & B & S & ->). apply bst_node in Hb. destruct Hb as (_ & Bl & Br & Fl & Fr & Hnd).
  pose proof (keys_lt_ne _ _ _ Hlt Fr) as Nr. pose proof (none_exists _ _ Nr) as Ne.
  unfold removed. rewrite !contents_node, !ids_node, others_app, others_miss, (others_id _ _ Nr), C by lia.
  assert (sublist (ids l' ++ i :: ids r) (ids l ++ i :: ids r)) as Hs by (by apply sublist_app).
  split; [done|]. split; [|split; [done|]].
  - apply bst_node. rewrite C. split_and!; try done; [by apply others_Forall|].
    by eapply sublist_NoDup.
  - apply bool_decide_ext. rewrite Exists_app, Exists_cons. intuition lia.
Qed.
Lemma removed_right key i lf l r p b r' :
  bst p (Node i p lf l r) -> getKey lf < key -> removed key (Some i) r b r' ->
  removed key p (Node i p lf l r) b (Node i p lf l r').
Proof.
  intros Hb Hlt (C & B & S & ->). apply bst_node in Hb. destruct Hb as (_ & Bl & Br & Fl & Fr & Hnd).
  pose proof (keys_gt_ne _ _ _ Hlt Fl) as Nl. pose proof (none_exists _ _ Nl) as Ne.
  unfold removed. rewrite !contents_node, !ids_node, others_app, others_miss, (others_id _ _ Nl), C by lia.
  assert (sublist (ids l ++ i :: ids r') (ids l ++ i :: ids r)) as Hs
    by (apply sublist_app; [done|by constructor]).
  split; [done|]. split; [|split; [done|]].
  - apply bst_node. rewrite C. split_and!; try done; [by apply others_Forall|].
    by eapply sublist_NoDup.
  - apply bool_decide_ext. rewrite Exists_app, Exists_cons. intuition lia.
Qed.

Lemma others_node i lf l r p :
  bst p (Node i p lf l r) -> others (getKey lf) (contents (Node i p lf l r)) = contents l ++ contents r.
Proof.
  intros Hb. apply bst_node in Hb. destruct Hb as (_ & _ & _ & Fl & Fr & _).
  rewrite contents_node, others_app, others_hit, !others_id; [done| | |done].
  - eapply Forall_impl; [exact Fr|]. cbn. lia.
  - eapply Forall_impl; [exact Fl|]. cbn. lia.
Qed.

(** The node itself: its child, if any, takes its place. *)
Lemma removed_child i lf l r p c :
  bst p (Node i p lf l r) -> (l = Nil /\ c = r \/ r = Nil /\ c = l) ->
  removed (getKey lf) p (Node i p lf l r) true (set_parent p c).
Proof.
  intros Hb Hc. unfold removed. rewrite (others_node _ _ _ _ _ Hb), contents_set_parent, ids_set_parent.
  rewrite contents_node, ids_node. apply bst_node in Hb. destruct Hb as (_ & Bl & Br & _).
  split; [by destruct Hc as [[-> ->]|[-> ->]]; cbn; rewrite ?app_nil_r|].
  split; [by destruct Hc as [[-> ->]|[-> ->]]; eapply bst_set_parent|]. split.
  - destruct Hc as [[-> ->]|[-> ->]]; cbn; [by apply sublist_cons|].
    by apply sublist_inserts_r.
  - symmetry. apply bool_decide_eq_true_2. rewrite Exists_app, Exists_cons. auto.
Qed.

(** With two children it takes the content of its successor. *)
Lemma removed_successor i lf l r p x b r' :
  bst p (Node i p lf l r) -> findMin r = Some x -> removed (getKey x.2) (Some i) r b r' ->
  removed (getKey lf) p (Node i p lf l r) b (Node i p x.2 l r').
Proof.
  intros Hb Hx (C & B & S & ->). pose proof (others_node _ _ _ _ _ Hb) as Ho.
  apply bst_node in Hb. destruct Hb as (_ & Bl & Br & Fl & Fr & Hnd).
  destruct (findMin_others r x (bst_ordered _ _ Br) Hx) as [E F].
  assert (getKey lf < getKey x.2) as Hlt.
  { rewrite E in Fr. apply Forall_cons in Fr. tauto. }
  unfold removed. rewrite Ho, E, !contents_node, !ids_node, C.
  assert (sublist (ids l ++ i :: ids r') (ids l ++ i :: ids r)) as Hs
    by (apply sublist_app; [done|by constructor]).
  split; [done|]. split; [|split; [done|]].
  - apply bst_node. rewrite C. split_and!; try done; [|by eapply sublist_NoDup].
    eapply Forall_impl; [exact Fl|]. cbn. lia.
  - rewrite !bool_decide_eq_true_2; [done|..].
    + rewrite Exists_app, !Exists_cons. auto.
    + rewrite E, Exists_cons. auto.
Qed.

Lemma remove_ok t : forall key p,
  bst p t -> (p = None -> root_key t = Some key -> one_child t = false) ->
  exists b t', remove key t p = Ok (b, t') /\ removed key p t b t'.
Proof.
  induction t as [|i q lf l IHl r IHr]; intros key p Hb Hone.
  { exists false, Nil. split; [done|]. split; [done|]. split; [done|]. split; [constructor|].
    symmetry. apply bool_decide_eq_false_2, (none_exists _ []). constructor. }
  pose proof Hb as Hb'. apply bst_node in Hb'. destruct Hb' as (-> & Bl & Br & _). cbn [remove].
  destruct (Z.ltb_spec key (getKey lf)) as [H1|H1].
  { destruct (IHl key (Some i) Bl) as (b & l' & -> & R); [done|]. exists b, (Node i p lf l' r).
    split; [done|]. by apply removed_left. }
  destruct (Z.ltb_spec (getKey lf) key) as [H2|H2].
  { destruct (IHr key (Some i) Br) as (b & r' & -> & R); [done|]. exists b, (Node i p lf l r').
    split; [done|]. by apply removed_right. }
  assert (key = getKey lf) as -> by lia. clear H1 H2. cbn [root_key] in Hone.
  destruct l as [|il pl lfl ll rl], r as [|ir pr lfr lr rr].
  - exists true, Nil. split; [done|]. apply (removed_child i lf Nil Nil p Nil); auto.
  - exists true, (set_parent p (Node ir pr lfr lr rr)). split; [|apply removed_child; auto].
    destruct p; [done|]. by specialize (Hone eq_refl eq_refl).
  - exists true, (set_parent p (Node il pl lfl ll rl)). split; [|apply removed_child; auto].
    destruct p; [done|]. by specialize (Hone eq_refl eq_refl).
  - cbn [findSuccessor]. set (r := Node ir _ _ _ _) in *. pose proof (findMin_spec r) as Hm.
    destruct (findMin r) as [x|] eqn:Ex; [|done].
    destruct (IHr (getKey x.2) (Some i) Br) as (b & r' & E & R); [done|].
    exists b, (Node i p x.2 (Node il pl lfl ll rl) r'). split; [|by apply removed_successor].
    cbn [res_of mbind res_bind]. by rewrite E.
Qed.

(** A root that has one child cannot be removed. *)
Lemma remove_root_stuck t key :
  root_key t = Some key -> one_child t = true -> remove key t None = Stuck.
Proof.
  destruct t as [|i p lf l r]; [done|]. cbn [root_key remove]. intros [= ->] H.
  rewrite Z.ltb_irrefl. by destruct l, r.
Qed.

(** ** The iterator visits the contents in order

    A position in the tree is a subtree together with the path from it to the
    root. *)

Inductive frame :=
| FL (id : Z) (parent : option Z) (leaf : Leaf) (right : tree)
| FR (id : Z) (parent : option Z) (leaf : Leaf) (left : tree).
Fixpoint plug (c : list frame) (t : tree) : tree :=
  match c with
  | [] => t
  | FL i p lf r :: c => plug c (Node i p lf t r)
  | FR i p lf l :: c => plug c (Node i p lf l t)
  end.
Definition frame_id (f : frame) : Z := match f with FL i _ _ _ | FR i _ _ _ => i end.
Definition above (c : list frame) : option Z := match c with [] => None | f :: _ => Some (frame_id f) end.
(** What comes after the subtree in order. *)
Fixpoint after (c : list frame) : list (Z * Leaf) :=
  match c with
  | [] => []
  | FL i _ lf r :: c => (i, lf) :: iterateInOrder r ++ after c
  | FR _ _ _ _ :: c => after c
  end.

Lemma count_length t : Z.to_nat (countNodes t) = length (iterateInOrder t) /\ 0 <= countNodes t.
Proof.
  induction t as [|i p lf l [El Hl] r [Er Hr]]; [done|]. cbn [countNodes iterateInOrder].
  rewrite length_app. cbn. lia.
Qed.

Lemma plug_nodup c : forall t, NoDup (ids (plug c t)) -> NoDup (ids t).
Proof.
  induction c as [|[i p lf r|i p lf l] c IH]; intros t H; [done|..]; apply IH in H;
    rewrite ids_node in H; apply NoDup_app in H; [tauto|].
  destruct H as (_ & _ & H). apply NoDup_cons in H. tauto.
Qed.

Lemma plug_parents c : forall t, parents_ok None (plug c t) -> parents_ok (above c) t.
Proof. induction c as [|[i p lf r|i p lf l] c IH]; intros t H; [done|..]; apply IH in H; cbn in *; tauto. Qed.

Lemma plug_length c : forall t, (length c + length (iterateInOrder t) <= length (iterateInOrder (plug c t)))%nat.
Proof.
  induction c as [|[i p lf r|i p lf l] c IH]; intros t; [done|..]; cbn [plug length];
    (etrans; [|apply IH]); cbn [iterateInOrder]; rewrite length_app; cbn; lia.
Qed.

Lemma node_at_none id t : id ∉ ids t -> node_at id t = None.
Proof.
  induction t as [|i p lf l IHl r IHr]; [done|]. rewrite ids_node. intros H. cbn [node_at].
  rewrite (proj2 (Z.eqb_neq i id)), IHl, IHr; [done|set_solver..].
Qed.
Lemma node_at_plug c : forall id u n,
  NoDup (ids (plug c u)) -> id ∈ ids u -> node_at id u = Some n -> node_at id (plug c u) = Some n.
Proof.
  induction c as [|f c IH]; intros id u n Hnd Hin E; [done|].
  destruct f as [i p lf r|i p lf l]; cbn [plug] in *; (apply IH; [done|rewrite ids_node; set_solver|]);
    apply plug_nodup in Hnd; rewrite ids_node in Hnd; apply NoDup_app in Hnd;
    destruct Hnd as (Nl & Nd & Nr); cbn [node_at].
  - rewrite (proj2 (Z.eqb_neq i id)), E; [done|]. intros ->. apply (Nd id Hin). set_solver.
  - apply NoDup_cons in Nr. destruct Nr as [Ni Nr].
    rewrite (proj2 (Z.eqb_neq i id)) by set_solver.
    rewrite node_at_none; [done|]. intros Hl. apply (Nd id Hl). set_solver.
Qed.
Lemma node_at_focus c i p lf l r :
  NoDup (ids (plug c (Node i p lf l r))) ->
  deref (plug c (Node i p lf l r)) (Some i) = Ok (Node i p lf l r).
Proof.
  intros H. unfold deref. cbn [res_of mbind res_bind].
  rewrite (node_at_plug c i _ (Node i p lf l r)); [done|done| |].
  - rewrite ids_node. set_solver.
  - cbn. by rewrite Z.eqb_refl.
Qed.

Lemma descend_ok u : forall c fuel,
  NoDup (ids (plug c u)) -> u <> Nil -> (length (iterateInOrder u) <= fuel)%nat ->
  descend (plug c u) fuel (root_id u) = Ok (fst <$> findMin u).
Proof.
  induction u as [|i p lf l IHl r _]; intros c [|fuel] Hnd Hu Hf; try done.
  { cbn in Hf. rewrite length_app in Hf. cbn in Hf. lia. }
  cbn [descend root_id]. rewrite node_at_focus by done. cbn [mbind res_bind left_of findMin].
  destruct l as [|il pl lfl ll rl] eqn:El; [done|]. rewrite <- El in *.
  assert (root_id l = Some il) as Ei by (by rewrite El). rewrite Ei, <- Ei.
  apply (IHl (FL i p lf r :: c)); [done|by rewrite El|]. cbn in Hf. rewrite length_app in Hf. cbn in Hf. lia.
Qed.

Lemma climb_ok c : forall i p lf l r fuel,
  let u := Node i p lf l r in
  NoDup (ids (plug c u)) -> parents_ok None (plug c u) -> c <> [] -> (length c <= fuel)%nat ->
  climb (plug c u) fuel (Some i) (above c) = Ok (fst <$> list.head (after c)).
Proof.
  induction c as [|f c IH]; intros i p lf l r [|fuel] u Hnd Hp Hc Hf; try done; [cbn in Hf; lia|].
  cbn [climb above]. destruct f as [j q lg rg|j q lg lg'].
  - cbn [frame_id plug]. rewrite node_at_focus by done. cbn [mbind res_bind right_of after list.head fmap option_fmap option_map fst].
    pose proof (plug_nodup c (Node j q lg u rg) Hnd) as Hn. rewrite (ids_node j) in Hn.
    apply NoDup_app in Hn. destruct Hn as (_ & Hn & _).
    assert (i ∈ ids u) as Hiu by (unfold u; rewrite ids_node; set_solver).
    assert (Some i <> root_id rg) as Hne.
    { destruct rg as [|k ? ? ? ?]; [done|]. intros [= ->]. apply (Hn k Hiu). rewrite ids_node. set_solver. }
    rewrite bool_decide_eq_false_2 by done.
    change (plug c (Node j q lg u rg)) with (plug (FL j q lg rg :: c) (Node i p lf l r)).
    rewrite (node_at_focus (FL j q lg rg :: c)) by done. cbn [mbind res_bind right_of].
    rewrite bool_decide_eq_false_2; [done|].
    destruct r as [|k ? ? ? ?]; [done|]. intros [= ->]. apply (Hn j); [|set_solver].
    unfold u. rewrite !ids_node. set_solver.
  - cbn [frame_id plug]. rewrite node_at_focus by done. cbn [mbind res_bind right_of parent_of after].
    change (root_id u) with (Some i). rewrite bool_decide_eq_true_2 by done.
    destruct (plug_parents c (Node j q lg lg' u) Hp) as [Hq _]. subst q.
    destruct c as [|g c]; [done|]. cbn [above]. 
    apply (IH j (above (g :: c)) lg lg' u fuel); [done|done|done|cbn in *; lia].
Qed.

Lemma head_ids (xs ys : list (Z * Leaf)) x rest : xs = x :: rest -> list.head (xs ++ ys) = Some x.
Proof. by intros ->. Qed.

(** [operator++] at any position goes to what comes next in order. *)
Lemma increment_ok c i p lf l r :
  let u := Node i p lf l r in
  NoDup (ids (plug c u)) -> parents_ok None (plug c u) ->
  increment (plug c u) (Some i) = Ok (fst <$> list.head (iterateInOrder r ++ after c)).
Proof.
  intros u Hnd Hp. unfold increment, u in *. rewrite node_at_focus by done. cbn [mbind res_bind right_of parent_of].
  pose proof (plug_length c (Node i p lf l r)) as Hl. destruct (count_length (plug c (Node i p lf l r))) as [-> _].
  destruct r as [|k pk lfk lk rk] eqn:Er.
  - cbn [root_id iterateInOrder app]. destruct (plug_parents c (Node i p lf l Nil) Hp) as [-> _].
    destruct c as [|f c']; [done|]. apply (climb_ok (f :: c')); [done|done|done|]. lia.
  - rewrite <- Er in *. assert (root_id r = Some k) as Ek by (by rewrite Er). rewrite Ek, <- Ek.
    pose proof (findMin_spec r) as Hm. assert (r <> Nil) as Hr by (by rewrite Er).
    destruct (findMin r) as [x|] eqn:Em; [|done]. destruct Hm as (xs & Hx).
    rewrite (head_ids _ _ _ _ Hx). rewrite <- Em.
    apply (descend_ok r (FR i p lf l :: c)); [done|done|]. cbn [iterateInOrder] in Hl.
    rewrite length_app in Hl. cbn in Hl. lia.
Qed.

(** Every element of the in-order sequence is at some position. *)
Lemma position T : forall c xs i lf ys,
  iterateInOrder T = xs ++ (i, lf) :: ys ->
  exists c' p l r, plug c T = plug c' (Node i p lf l r) /\ ys ++ after c = iterateInOrder r ++ after c'.
Proof.
  induction T as [|j q lg l IHl r IHr]; intros c xs i lf ys E; [by destruct xs|].
  cbn [iterateInOrder] in E. apply app_eq_app in E. destruct E as (zs & [[E1 E2]|[E1 E2]]).
  - destruct zs as [|z zs].
    + rewrite app_nil_r in E1. simplify_eq/=. by exists c, q, l, r.
    + simplify_eq/=. destruct (IHl (FL j q lg r :: c) xs i lf zs E1) as (c' & p & l' & r' & A & B).
      exists c', p, l', r'. split; [exact A|]. cbn [after] in B. by rewrite <- app_assoc.
  - destruct zs as [|z zs].
    + rewrite app_nil_r in E1. simplify_eq/=. by exists c, q, l, r.
    + simplify_eq/=. destruct (IHr (FR j q lg l :: c) zs i lf ys ltac:(done)) as (c' & p & l' & r' & A & B).
      by exists c', p, l', r'.
Qed.

Lemma for_each_ok T ys : forall xs fuel,
  NoDup (ids T) -> parents_ok None T -> iterateInOrder T = xs ++ ys -> (length ys <= fuel)%nat ->
  for_each T fuel (fst <$> list.head ys) = Ok ys.*2.
Proof.
  induction ys as [|[i lf] ys IH]; intros xs [|fuel] Hn Hp E Hf; try done; [cbn in Hf; lia|].
  destruct (position T [] xs i lf ys E) as (c & p & l & r & ET & Ey). cbn [plug after] in ET, Ey.
  rewrite app_nil_r in Ey. cbn [list.head fmap option_fmap option_map fst for_each].
  rewrite ET in *. rewrite node_at_focus by done. cbn [mbind res_bind].
  rewrite increment_ok by done. cbn [mbind res_bind]. rewrite <- Ey.
  rewrite (IH (xs ++ [(i, lf)])); [done|done|done|by rewrite <- app_assoc|cbn in Hf; lia].
Qed.

End BST.

Definition demo_tree : @tree Z :=
  Node 100 None 5 (Node 200 (Some 100) 3 Nil Nil) (Node 300 (Some 100) 8 (Node 400 (Some 300) 6 Nil Nil) Nil).

