(* ===== verification/MapTree.v ===== *)
(** * The tree of memory regions of an address space (kernel/src/vm/MapTree.h)
    and the search for a free one (Map::add, kernel/src/vm/Map.cpp)

    Addresses and sizes are 64 bits wide and the sums wrap.  The theorems are
    stated for regions that do not: each is not empty and ends below 2^64. *)

From stdpp Require Import sorting.
From S2P Require Import Prelude BST.

(** The payload of [MapTreeLeaf]; [entry] is the address of the VM object. *)
Record MapTreeLeaf := Leaf { address : Z; size : Z; flags : Z; entry : Z }.
Definition MapTree : Type := @tree MapTreeLeaf.

Definition contains_address (a : Z) (this : MapTreeLeaf) : bool :=
  (address this <=? a) && (u64 (a - address this) <? size this).

Definition contains_range (a length : Z) (this : MapTreeLeaf) : bool :=
  let x1 := address this in
  let x2 := u64 (address this + size this - 1) in
  let y1 := a in
  let y2 := u64 (a + length - 1) in
  (y1 <=? x1) && (x1 <=? y2) || (y1 <=? x2) && (x2 <=? y2) ||
  (x1 <=? y1) && (y1 <=? x2) || (x1 <=? y2) && (y2 <=? x2).

Fixpoint leafFor (e : Z) (leaf : MapTree) : option MapTreeLeaf :=
  match leaf with
  | Nil => None
  | Node _ _ lf l r =>
      if entry lf =? e then Some lf
      else match leafFor e l with Some x => Some x | None => leafFor e r end
  end.

Fixpoint find (a : Z) (node : MapTree) : option MapTreeLeaf :=
  match node with
  | Nil => None
  | Node _ _ lf l r =>
      if address lf =? a then Some lf
      else if a <? address lf then find a l
      else if contains_address a lf then Some lf
      else find a r
  end.

Fixpoint findOverlapping (base length : Z) (node : MapTree) : option MapTreeLeaf :=
  match node with
  | Nil => None
  | Node _ _ lf l r =>
      if contains_range base length lf then Some lf
      else match findOverlapping base length l with
           | Some x => Some x
           | None => findOverlapping base length r
           end
  end.

Definition findBase (a : Z) (t : MapTree) : option Z := (fun x => entry x.2) <$> findKey address a t.

(** [baseAddressFor]: base, length and flags of the first region of an object. *)
Definition baseAddressFor (e : Z) (t : MapTree) : Z * Z * Z :=
  match leafFor e t with
  | Some lf => (address lf, size lf, flags lf)
  | None => (0, 0, 0)
  end.

(** [find] with the offset into the object and the base of the region. *)
Definition find_offset (a : Z) (t : MapTree) : option (Z * Z * Z) :=
  (fun lf => (entry lf, u64 (a - address lf), address lf)) <$> find a t.

Definition isRegionFree (base length : Z) (t : MapTree) : bool * Z :=
  match findOverlapping base length t with
  | Some lf => (false, u64 (address lf + size lf))
  | None => (true, 0)
  end.

(** [MapTree::insert] of a new node at the address [id]. *)
Definition tree_insert (id a sz e fl : Z) (t : MapTree) : res MapTree :=
  insert address a id (Leaf a sz fl e) t None.
Definition tree_remove (a : Z) (t : MapTree) : res (bool * MapTree) := remove address a t None.

(** The loop of [Map::add] that looks for a free range: [Some base], or [None]
    when the end is reached. *)
Fixpoint search_loop (fuel : nat) (sz searchEnd : Z) (t : MapTree) (base : Z) : res (option Z) :=
  match fuel with
  | O => Stuck
  | S fuel =>
      if base <? u64 (searchEnd - sz) then
        let '(free, nextFree) := isRegionFree base sz t in
        if (free : bool) then Ok (Some base) else search_loop fuel sz searchEnd t nextFree
      else Ok None
  end.

(** Where [Map::add] puts a region. *)
Definition choose_base (requestedBase sz searchStart searchEnd : Z) (t : MapTree) : res (option Z) :=
  if negb (requestedBase =? 0) then
    Ok (if (isRegionFree requestedBase sz t).1 then Some requestedBase else None)
  else search_loop (S (Z.to_nat (countNodes t))) sz searchEnd t searchStart.

(** ** Regions *)

Definition region_end (lf : MapTreeLeaf) : Z := address lf + size lf.
Definition valid (lf : MapTreeLeaf) : Prop := 0 <= address lf /\ 0 < size lf /\ region_end lf < 2 ^ 64.
Definition apart (a b : MapTreeLeaf) : Prop := region_end a <= address b \/ region_end b <= address a.
(** The range of [n] bytes at [b] meets no region. *)
Definition free_range (t : MapTree) (b n : Z) : Prop :=
  Forall (fun lf => b + n <= address lf \/ region_end lf <= b) (contents t).

Record tree_inv (t : MapTree) : Prop := {
  inv_bst : bst address None t;
  inv_valid : Forall valid (contents t);
  inv_apart : forall a b, a ∈ contents t -> b ∈ contents t -> a = b \/ apart a b
}.

Lemma contains_range_spec b n lf :
  valid lf -> 0 <= b -> 0 < n -> b + n <= 2 ^ 64 ->
  contains_range b n lf = true <-> ~ (b + n <= address lf \/ region_end lf <= b).
Proof.
  unfold valid, region_end, contains_range, u64. intros (? & ? & ?) ? ? ?.
  rewrite !wrap_small by (unfold is_u; lia).
  rewrite !orb_true_iff, !andb_true_iff, !Z.leb_le. lia.
Qed.

Lemma contains_address_spec a lf :
  valid lf -> 0 <= a < 2 ^ 64 -> contains_address a lf = true <-> address lf <= a < region_end lf.
Proof.
  unfold valid, region_end, contains_address, u64. intros (? & ? & ?) ?.
  rewrite andb_true_iff, Z.leb_le, Z.ltb_lt. split; intros [? H']; (split; [lia|]).
  - rewrite wrap_small in H' by (unfold is_u; lia). lia.
  - rewrite wrap_small by (unfold is_u; lia). lia.
Qed.

Lemma findOverlapping_spec b n t :
  Forall valid (contents t) -> 0 <= b -> 0 < n -> b + n <= 2 ^ 64 ->
  match findOverlapping b n t with
  | Some lf => lf ∈ contents t /\ address lf < b + n /\ b < region_end lf
  | None => free_range t b n
  end.
Proof.
  intros Hv Hb Hn Hl. unfold free_range. induction t as [|i p lf l IHl r IHr]; [constructor|].
  rewrite contents_node in *. apply Forall_app in Hv. destruct Hv as [Vl Vr].
  apply Forall_cons in Vr. destruct Vr as [Vx Vr]. specialize (IHl Vl). specialize (IHr Vr).
  cbn [findOverlapping]. pose proof (contains_range_spec b n lf Vx Hb Hn Hl) as Hc.
  destruct (contains_range b n lf).
  - split; [set_solver|]. destruct Hc as [Hc _]. specialize (Hc eq_refl). lia.
  - destruct (findOverlapping b n l) as [x|]; [destruct IHl; split; [set_solver|done]|].
    destruct (findOverlapping b n r) as [x|]; [destruct IHr; split; [set_solver|done]|].
    apply Forall_app. split; [done|]. apply Forall_cons. split; [|done].
    destruct (decide (b + n <= address lf \/ region_end lf <= b)) as [|H]; [done|].
    by apply Hc in H.
Qed.

(** A lookup finds the one region that holds the address. *)
Lemma find_spec a t :
  forall p, bst address p t -> Forall valid (contents t) ->
  (forall x y, x ∈ contents t -> y ∈ contents t -> x = y \/ apart x y) -> 0 <= a < 2 ^ 64 ->
  match find a t with
  | Some lf => lf ∈ contents t /\ address lf <= a < region_end lf
  | None => Forall (fun lf => ~ (address lf <= a < region_end lf)) (contents t)
  end.
Proof.
  induction t as [|i q lf l IHl r IHr]; intros p Hb Hv Ha Hr; [constructor|].
  apply bst_node in Hb. destruct Hb as (-> & Bl & Br & Fl & Fr & _).
  rewrite contents_node in *. apply Forall_app in Hv. destruct Hv as [Vl Vr].
  apply Forall_cons in Vr. destruct Vr as [Vx Vr].
  specialize (IHl (Some i) Bl Vl). specialize (IHr (Some i) Br Vr). cbn [find].
  rewrite Forall_forall in Fl, Fr.
  destruct (Z.eqb_spec (address lf) a) as [E|E].
  { split; [set_solver|]. destruct Vx as (? & ? & ?). unfold region_end in *. lia. }
  destruct (Z.ltb_spec a (address lf)) as [Hlt|Hlt].
  - destruct (find a l) as [x|]; [destruct IHl; [set_solver|done|split; [set_solver|done]]|].
    apply Forall_app. split; [apply IHl; [set_solver|done]|]. apply Forall_cons. split; [lia|].
    apply Forall_forall. intros x Hx. specialize (Fr x Hx). lia.
  - pose proof (contains_address_spec a lf Vx Hr) as Hc. destruct (contains_address a lf).
    { split; [set_solver|]. by apply Hc. }
    destruct (find a r) as [x|]; [destruct IHr; [set_solver|done|split; [set_solver|done]]|].
    apply Forall_app. split; [|apply Forall_cons; split; [by intros H%Hc|apply IHr; [set_solver|done]]].
    apply Forall_forall. intros x Hx. specialize (Fl x Hx). rewrite Forall_forall in Vl.
    destruct (Vl x Hx) as (? & ? & ?). destruct Vx as (? & ? & ?).
    destruct (Ha x lf) as [->|Hp]; [set_solver|set_solver|lia|]. unfold apart, region_end in *. lia.
Qed.

(** ** The search for a free range *)

Definition beyond (b : Z) (xs : list MapTreeLeaf) : nat :=
  length (filter (fun lf => b < region_end lf) xs).

Lemma beyond_le b b' xs : b <= b' -> (beyond b' xs <= beyond b xs)%nat.
Proof.
  intros. unfold beyond. induction xs as [|x xs IH]; [done|]. rewrite !filter_cons.
  destruct (decide (b < region_end x)), (decide (b' < region_end x)); cbn; lia.
Qed.
Lemma beyond_lt b b' lf xs :
  b <= b' -> lf ∈ xs -> b < region_end lf -> region_end lf <= b' -> (beyond b' xs < beyond b xs)%nat.
Proof.
  intros Hb Hin H1 H2. unfold beyond. apply list_elem_of_split in Hin. destruct Hin as (l1 & l2 & ->).
  rewrite !filter_app, !length_app, filter_cons_False, filter_cons_True by lia. cbn.
  pose proof (beyond_le b b' l1 Hb). pose proof (beyond_le b b' l2 Hb). unfold beyond in *. lia.
Qed.

Lemma search_loop_ok sz searchEnd t :
  tree_inv t -> 0 < sz <= searchEnd -> searchEnd < 2 ^ 64 ->
  forall fuel base, 0 <= base -> (beyond base (contents t) < fuel)%nat ->
  match search_loop fuel sz searchEnd t base with
  | Ok (Some b) => base <= b < searchEnd - sz /\ free_range t b sz /\
      forall b', base <= b' < b -> ~ free_range t b' sz
  | Ok None => forall b', base <= b' < searchEnd - sz -> ~ free_range t b' sz
  | _ => False
  end.
Proof.
  intros Hi Hs He. induction fuel as [|fuel IH]; intros base Hb Hf; [lia|]. cbn [search_loop].
  assert (u64 (searchEnd - sz) = searchEnd - sz) as -> by (unfold u64; apply wrap_small; unfold is_u; lia).
  destruct (Z.ltb_spec base (searchEnd - sz)) as [Hlt|Hge]; [|intros; lia]. unfold isRegionFree.
  pose proof (findOverlapping_spec base sz t (inv_valid _ Hi) Hb ltac:(lia) ltac:(lia)) as Ho.
  destruct (findOverlapping base sz t) as [lf|].
  2:{ split; [lia|]. split; [done|]. intros; lia. }
  destruct Ho as (Hin & H1 & H2). pose proof (inv_valid _ Hi) as Hv. rewrite Forall_forall in Hv.
  destruct (Hv lf Hin) as (V1 & V2 & V3). fold (region_end lf).
  assert (u64 (region_end lf) = region_end lf) as -> by (unfold u64; apply wrap_small; unfold is_u, region_end in *; lia).
  pose proof (beyond_lt base (region_end lf) lf (contents t) ltac:(lia) Hin H2 ltac:(lia)) as Hl.
  assert (forall b', base <= b' < region_end lf -> ~ free_range t b' sz) as Hskip.
  { intros b' Hb' Hfr. unfold free_range in Hfr. rewrite Forall_forall in Hfr. specialize (Hfr lf Hin). lia. }
  specialize (IH (region_end lf) ltac:(unfold region_end; lia) ltac:(lia)).
  destruct (search_loop fuel sz searchEnd t (region_end lf)) as [[b|]| |]; [| |done..].
  - destruct IH as (I1 & I2 & I3). split; [lia|]. split; [done|]. intros b' Hb'.
    destruct (Z.lt_ge_cases b' (region_end lf)); [apply Hskip; lia|apply I3; lia].
  - intros b' Hb'. destruct (Z.lt_ge_cases b' (region_end lf)); [apply Hskip; lia|apply IH; lia].
Qed.

Lemma beyond_count b t : (beyond b (contents t) <= Z.to_nat (countNodes t))%nat.
Proof.
  destruct (count_length t) as [-> _]. unfold beyond, contents.
  etrans; [apply length_filter|]. by rewrite length_fmap.
Qed.

Lemma choose_base_ok t requestedBase sz searchStart searchEnd :
  tree_inv t -> 0 < sz <= searchEnd -> searchEnd < 2 ^ 64 -> 0 <= searchStart ->
  0 <= requestedBase -> requestedBase + sz <= 2 ^ 64 ->
  match choose_base requestedBase sz searchStart searchEnd t with
  | Ok (Some b) => 0 <= b /\ b + sz <= Z.max searchEnd (requestedBase + sz) /\ free_range t b sz
  | Ok None => True
  | _ => False
  end.
Proof.
  intros Hi Hs He H0 Hr Hr'. unfold choose_base. destruct (Z.eqb_spec requestedBase 0) as [E|E]; cbn [negb].
  - pose proof (search_loop_ok sz searchEnd t Hi Hs He (S (Z.to_nat (countNodes t))) searchStart H0) as H.
    pose proof (beyond_count searchStart t). specialize (H ltac:(lia)).
    destruct (search_loop _ _ _ _ _) as [[b|]| |]; [|done..]. destruct H as (? & ? & _).
    split; [lia|]. split; [lia|done].
  - unfold isRegionFree.
    pose proof (findOverlapping_spec requestedBase sz t (inv_valid _ Hi) Hr ltac:(lia) Hr') as Ho.
    destruct (findOverlapping requestedBase sz t) as [lf|]; cbn [fst]; [done|]. split; [done|]. split; [lia|done].
Qed.


(** ** Inserting and removing regions *)

Lemma tree_insert_ok t id b sz e fl :
  tree_inv t -> id ∉ ids t -> 0 <= b -> 0 < sz -> b + sz < 2 ^ 64 -> free_range t b sz ->
  exists t', tree_insert id b sz e fl t = Ok t' /\ tree_inv t' /\
    contents t' ≡ₚ Leaf b sz fl e :: contents t /\ ids t' ≡ₚ id :: ids t.
Proof.
  intros [Hb Hv Ha] Hid H0 H1 H2 Hf. unfold free_range in Hf. rewrite Forall_forall in Hf.
  destruct (insert_absent address b id (Leaf b sz fl e) t None Hb eq_refl) as (t' & E & B & C & I).
  { apply Forall_forall. intros x Hx. specialize (Hf x Hx). rewrite Forall_forall in Hv.
    destruct (Hv x Hx) as (? & ? & ?). unfold region_end in *. lia. }
  { done. }
  exists t'. split; [done|]. split; [|done]. split; [done| |].
  - rewrite C. apply Forall_cons. split; [|done]. unfold valid, region_end. cbn. lia.
  - intros x y. rewrite C, !elem_of_cons. unfold apart, region_end in *.
    intros [->|Hx] [->|Hy]; [by left| | |by apply Ha]; right; cbn.
    + specialize (Hf y Hy). lia.
    + specialize (Hf x Hx). lia.
Qed.

Lemma tree_remove_ok t a :
  tree_inv t -> root_key address t <> Some a \/ one_child t = false ->
  exists b t', tree_remove a t = Ok (b, t') /\ tree_inv t' /\ contents t' = others address a (contents t) /\
    sublist (ids t') (ids t).
Proof.
  intros [Hb Hv Ha] Ho. destruct (remove_ok address t a None Hb) as (b & t' & E & C & B & S & _).
  { intros _ Hr. by destruct Ho. }
  exists b, t'. split; [done|]. split; [|done]. split; [done| |].
  - rewrite C. by apply others_Forall.
  - intros x y. rewrite C. unfold others. rewrite !list_elem_of_filter. intros [_ Hx] [_ Hy]. by apply Ha.
Qed.

Lemma leafFor_spec e t :
  match leafFor e t with
  | Some lf => lf ∈ contents t /\ entry lf = e
  | None => Forall (fun lf => entry lf <> e) (contents t)
  end.
Proof.
  induction t as [|i p lf l IHl r IHr]; [constructor|]. rewrite contents_node. cbn [leafFor].
  destruct (Z.eqb_spec (entry lf) e) as [E|E]; [set_solver|].
  destruct (leafFor e l) as [x|]; [set_solver|]. destruct (leafFor e r) as [x|]; [set_solver|].
  apply Forall_app. split; [done|]. by apply Forall_cons.
Qed.

(** When the size exceeds the end of the search range, the subtraction wraps and
    a range that ends beyond it is accepted. *)
Example search_end_wraps :
  choose_base 0 0x800000000000 0x400000000000 0x7E0000000000 Nil = Ok (Some 0x400000000000).
Proof. vm_compute. reflexivity. Qed.

Definition demo_regions : MapTree :=
  Node 1 None (Leaf 0x3000 0x2000 0 7) (Node 2 (Some 1) (Leaf 0x1000 0x1000 0 8) Nil Nil) Nil.
Lemma demo_regions_inv : tree_inv demo_regions.
Proof.
  split.
  - split; [cbn; repeat split; repeat constructor; cbn; lia|cbn; repeat split|].
    apply (bool_decide_unpack _). vm_compute. exact I.
  - repeat constructor; cbn; lia.
  - intros a b Ha Hb. cbn in Ha, Hb. unfold apart, region_end.
    rewrite !elem_of_cons in Ha, Hb. destruct Ha as [->|[->|Ha]], Hb as [->|[->|Hb]];
      try (by apply not_elem_of_nil in Ha); try (by apply not_elem_of_nil in Hb); try (by left); right; cbn; lia.
Qed.

