(* ===== verification/Handles.v ===== *)
(** * Kernel handles (kernel/src/handle/Manager.h)

    The tables that turn handles, numbers given to user programs, into kernel
    objects.  A handle holds an index, an epoch and a type code; a table slot
    holds a weak pointer and an epoch.  Objects are numbers that are never
    reused, and the set of the objects that are alive is a part of the state: a
    weak pointer to an object that is not alive has expired.  (What the weak
    pointers themselves guarantee is the subject of SmartPtr.v.)  The locks
    around the tables make each operation one step. *)

From S2P Require Import Prelude.
Local Open Scope mach_scope.

(** ** Handles *)

(** The masks and positions of the two architectures. *)
Record Layout := {
  word : Z; kIndexMask : Z; kEpochMask : Z; kEpochPos : Z; kTypeMask : Z; kTypePos : Z
}.
Definition i386 : Layout := {|
  word := 32; kIndexMask := 0xFFFFF; kEpochMask := 0x7F; kEpochPos := 20; kTypeMask := 0xF; kTypePos := 27 |}.
Definition amd64 : Layout := {|
  word := 64; kIndexMask := 0xFFFFFFFF; kEpochMask := 0xFFFFF; kEpochPos := 32; kTypeMask := 0xF; kTypePos := 52 |}.

Inductive Type_ := Task | Thread | Port | VmRegion | IrqHandler.
Definition code (t : Type_) : Z :=
  match t with Task => 1 | Thread => 2 | Port => 3 | VmRegion => 4 | IrqHandler => 5 end.

Section Handles.
Context (L : Layout).

Definition getIndex (h : Z) : Z := h .& kIndexMask L.
Definition getEpoch (h : Z) : Z := (h .& wrap (word L) (kEpochMask L << kEpochPos L)) >> kEpochPos L.
Definition getType (h : Z) : Z := u8 ((h .& wrap (word L) (kTypeMask L << kTypePos L)) >> kTypePos L).

Definition makeHandle (t index epoch : Z) : Z :=
  let handle := index .& kIndexMask L in
  let handle := handle .| wrap (word L) ((epoch .& kEpochMask L) << kEpochPos L) in
  handle .| wrap (word L) ((t .& kTypeMask L) << kTypePos L).

(** ** Tables *)

Record HandleInfo := Slot { object : option Z; epoch : Z }.

Definition expired (alive : gset Z) (o : option Z) : bool :=
  match o with Some o => bool_decide (o ∉ alive) | None => true end.
(** [WeakPtr::lock]. *)
Definition lock (alive : gset Z) (o : option Z) : option Z :=
  if expired alive o then None else o.

(** The search of [allocate] for a free slot, from slot [i] on. *)
Fixpoint allocate_loop (alive : gset Z) (o t i : Z) (handles : list HandleInfo) : option (Z * list HandleInfo) :=
  match handles with
  | [] => None
  | slot :: handles =>
      if match object slot with Some _ => negb (expired alive (object slot)) | None => false end then
        match allocate_loop alive o t (i + 1) handles with
        | Some (h, handles) => Some (h, slot :: handles)
        | None => None
        end
      else
        let e := if expired alive (object slot) then wrap (word L) (epoch slot + 1) else epoch slot in
        Some (makeHandle t i e, Slot (Some o) e :: handles)
  end.

Definition allocate (alive : gset Z) (o t : Z) (handles : list HandleInfo) : Z * list HandleInfo :=
  match allocate_loop alive o t 0 handles with
  | Some r => r
  | None => (makeHandle t (Z.of_nat (length handles)) 0, handles ++ [Slot (Some o) 0])
  end.

Definition get (alive : gset Z) (h : Z) (handles : list HandleInfo) : option Z :=
  let index := getIndex h in
  if Z.of_nat (length handles) <=? index then None
  else
    match handles !! Z.to_nat index with
    | Some info => if negb (epoch info .& kEpochMask L =? getEpoch h) then None else lock alive (object info)
    | None => None
    end.

Definition release (h : Z) (handles : list HandleInfo) : bool * list HandleInfo :=
  let index := getIndex h in
  if Z.of_nat (length handles) <=? index then (false, handles)
  else
    match handles !! Z.to_nat index with
    | Some info =>
        if negb (epoch info .& kEpochMask L =? getEpoch h) then (false, handles)
        else (true, <[Z.to_nat index := Slot None (wrap (word L) (epoch info + 1))]> handles)
    | None => (false, handles)
    end.

(** ** The manager *)

Record Manager := {
  taskHandles : list HandleInfo; threadHandles : list HandleInfo; vmObjectHandles : list HandleInfo;
  portHandles : list HandleInfo; irqHandles : list HandleInfo
}.

Definition on_task (f : list HandleInfo) (m : Manager) : Manager :=
  Build_Manager f (threadHandles m) (vmObjectHandles m) (portHandles m) (irqHandles m).
Definition on_thread (f : list HandleInfo) (m : Manager) : Manager :=
  Build_Manager (taskHandles m) f (vmObjectHandles m) (portHandles m) (irqHandles m).
Definition on_vm (f : list HandleInfo) (m : Manager) : Manager :=
  Build_Manager (taskHandles m) (threadHandles m) f (portHandles m) (irqHandles m).
Definition on_port (f : list HandleInfo) (m : Manager) : Manager :=
  Build_Manager (taskHandles m) (threadHandles m) (vmObjectHandles m) f (irqHandles m).
Definition on_irq (f : list HandleInfo) (m : Manager) : Manager :=
  Build_Manager (taskHandles m) (threadHandles m) (vmObjectHandles m) (portHandles m) f.

Definition makeTaskHandle (alive : gset Z) (o : Z) (m : Manager) : Z * Manager :=
  let '(h, t) := allocate alive o (code Task) (taskHandles m) in (h, on_task t m).
Definition releaseTaskHandle (h : Z) (m : Manager) : bool * Manager :=
  if negb (getType h =? code Task) then (false, m)
  else let '(r, t) := release h (taskHandles m) in (r, on_task t m).
Definition getTask (alive : gset Z) (h : Z) (m : Manager) : option Z :=
  if negb (getType h =? code Task) then None else get alive h (taskHandles m).

Definition makeThreadHandle (alive : gset Z) (o : Z) (m : Manager) : Z * Manager :=
  let '(h, t) := allocate alive o (code Thread) (threadHandles m) in (h, on_thread t m).
Definition releaseThreadHandle (h : Z) (m : Manager) : bool * Manager :=
  if negb (getType h =? code Thread) then (false, m)
  else let '(r, t) := release h (threadHandles m) in (r, on_thread t m).
Definition getThread (alive : gset Z) (h : Z) (m : Manager) : option Z :=
  if negb (getType h =? code Thread) then None else get alive h (threadHandles m).

Definition makeVmObjectHandle (alive : gset Z) (o : Z) (m : Manager) : Z * Manager :=
  let '(h, t) := allocate alive o (code VmRegion) (vmObjectHandles m) in (h, on_vm t m).
Definition releaseVmObjectHandle (h : Z) (m : Manager) : bool * Manager :=
  if negb (getType h =? code VmRegion) then (false, m)
  else let '(r, t) := release h (vmObjectHandles m) in (r, on_vm t m).
Definition getVmObject (alive : gset Z) (h : Z) (m : Manager) : option Z :=
  if negb (getType h =? code VmRegion) then None else get alive h (vmObjectHandles m).

Definition makePortHandle (alive : gset Z) (o : Z) (m : Manager) : Z * Manager :=
  let '(h, t) := allocate alive o (code Port) (portHandles m) in (h, on_port t m).
Definition releasePortHandle (h : Z) (m : Manager) : bool * Manager :=
  if negb (getType h =? code Port) then (false, m)
  else let '(r, t) := release h (portHandles m) in (r, on_port t m).
Definition getPort (alive : gset Z) (h : Z) (m : Manager) : option Z :=
  if negb (getType h =? code Port) then None else get alive h (portHandles m).

Definition makeIrqHandle (alive : gset Z) (o : Z) (m : Manager) : Z * Manager :=
  let '(h, t) := allocate alive o (code IrqHandler) (irqHandles m) in (h, on_irq t m).
(** The type is compared with that of a port. *)
Definition releaseIrqHandle (h : Z) (m : Manager) : bool * Manager :=
  if negb (getType h =? code Port) then (false, m)
  else let '(r, t) := release h (irqHandles m) in (r, on_irq t m).
Definition getIrq (alive : gset Z) (h : Z) (m : Manager) : option Z :=
  if negb (getType h =? code IrqHandler) then None else get alive h (irqHandles m).

(** ** Layouts *)

Class LayoutOk (ib eb : Z) := {
  l_pos : 0 <= ib /\ 1 <= eb;
  l_word : ib + eb + 4 <= word L;
  l_imask : kIndexMask L = 2 ^ ib - 1;
  l_emask : kEpochMask L = 2 ^ eb - 1;
  l_tmask : kTypeMask L = 2 ^ 4 - 1;
  l_epos : kEpochPos L = ib;
  l_tpos : kTypePos L = ib + eb
}.

Context {ib eb : Z} {LO : LayoutOk ib eb}.

Lemma pow_split a b : 0 <= a -> 0 <= b -> 2 ^ (a + b) = 2 ^ a * 2 ^ b.
Proof. intros. by apply Z.pow_add_r. Qed.

(** A masked field moved to its place does not leave the word. *)
Lemma field_small x k n : 0 <= k -> 0 <= n -> k + n <= word L ->
  wrap (word L) ((x .& (2 ^ k - 1)) << n) = (x mod 2 ^ k) * 2 ^ n.
Proof.
  intros. rewrite land_mask, Z.shiftl_mul_pow2 by done. apply wrap_small.
  assert (2 ^ (k + n) <= 2 ^ word L) by (apply Z.pow_le_mono_r; lia).
  rewrite pow_split in * by done. pose proof (Z.mod_pos_bound x (2 ^ k)). unfold is_u. nia.
Qed.
Lemma field_get h k n : 0 <= k -> 0 <= n -> k + n <= word L ->
  (h .& wrap (word L) ((2 ^ k - 1) << n)) >> n = (h / 2 ^ n) mod 2 ^ k.
Proof.
  intros. rewrite (wrap_small (word L) ((2 ^ k - 1) << n)).
  - rewrite Z.shiftr_land, Z.shiftr_shiftl_l, Z.sub_diag, Z.shiftl_0_r, land_mask by lia.
    by rewrite Z.shiftr_div_pow2.
  - rewrite Z.shiftl_mul_pow2 by done.
    assert (2 ^ (k + n) <= 2 ^ word L) by (apply Z.pow_le_mono_r; lia).
    rewrite pow_split in * by done. unfold is_u. nia.
Qed.

Lemma getIndex_eq h : getIndex h = h mod 2 ^ ib.
Proof. destruct LO. unfold getIndex. rewrite l_imask0. apply land_mask. lia. Qed.
Lemma getEpoch_eq h : getEpoch h = (h / 2 ^ ib) mod 2 ^ eb.
Proof. destruct LO. unfold getEpoch. rewrite l_emask0, l_epos0. apply field_get; lia. Qed.
Lemma getType_eq h : getType h = (h / 2 ^ (ib + eb)) mod 2 ^ 4.
Proof.
  destruct LO. unfold getType. rewrite l_tmask0, l_tpos0, field_get by lia.
  apply wrap_small. pose proof (Z.mod_pos_bound (h / 2 ^ (ib + eb)) (2 ^ 4)). mlia.
Qed.

(** A handle as the sum of its parts. *)
Lemma makeHandle_eq t i e :
  makeHandle t i e = ((t mod 2 ^ 4) * 2 ^ eb + e mod 2 ^ eb) * 2 ^ ib + i mod 2 ^ ib.
Proof.
  destruct LO. unfold makeHandle. rewrite l_imask0, l_emask0, l_epos0, l_tmask0, l_tpos0.
  rewrite !field_small, land_mask by lia.
  pose proof (Z.mod_pos_bound i (2 ^ ib)). pose proof (Z.mod_pos_bound e (2 ^ eb)).
  rewrite (Z.lor_comm (i mod 2 ^ ib)), lor_add_disjoint by (unfold is_u; lia).
  rewrite Z.lor_comm, lor_add_disjoint; [|lia|].
  - rewrite pow_split by lia. ring.
  - unfold is_u. rewrite pow_split by lia. nia.
Qed.

Lemma parts i e h : 0 <= i < 2 ^ ib -> h = e * 2 ^ ib + i -> h mod 2 ^ ib = i /\ h / 2 ^ ib = e.
Proof.
  intros Hi ->. split.
  - symmetry. apply (Z.mod_unique _ _ e); lia.
  - symmetry. apply (Z.div_unique _ _ e i); lia.
Qed.

(** The parts of a handle are what it was made of, up to their widths. *)
Lemma handle_parts t i e :
  getIndex (makeHandle t i e) = i mod 2 ^ ib /\ getEpoch (makeHandle t i e) = e mod 2 ^ eb /\
  getType (makeHandle t i e) = t mod 2 ^ 4.
Proof.
  pose proof (makeHandle_eq t i e) as E. rewrite getIndex_eq, getEpoch_eq, getType_eq.
  destruct LO. pose proof (Z.mod_pos_bound i (2 ^ ib)). pose proof (Z.mod_pos_bound e (2 ^ eb)).
  destruct (parts (i mod 2 ^ ib) _ _ ltac:(lia) E) as [-> Ed].
  rewrite (Z.pow_add_r 2 ib eb), <- Z.div_div, Ed by lia.
  split_and!; [done| |].
  - symmetry. apply (Z.mod_unique _ _ (t mod 2 ^ 4)); lia.
  - rewrite Z.div_add_l, (Z.div_small (e mod 2 ^ eb)), Z.add_0_r, Z.mod_mod by lia. done.
Qed.

(** Two handles of small indices and epochs are equal only if their parts are. *)
Lemma makeHandle_inj t i e i' e' :
  0 <= i < 2 ^ ib -> 0 <= i' < 2 ^ ib -> 0 <= e < 2 ^ eb -> 0 <= e' < 2 ^ eb ->
  makeHandle t i e = makeHandle t i' e' -> i = i' /\ e = e'.
Proof.
  intros Hi Hi' He He' E. destruct (handle_parts t i e) as (H1 & H2 & _), (handle_parts t i' e') as (H1' & H2' & _).
  rewrite E in *. rewrite Z.mod_small in * by done. split; congruence.
Qed.

(** The handle that the code takes [h] for: the bits above the type are not
    looked at. *)
Definition canon (h : Z) : Z := makeHandle (getType h) (getIndex h) (getEpoch h).

Lemma canon_eq h : canon h = h mod 2 ^ (ib + eb + 4).
Proof.
  unfold canon. rewrite makeHandle_eq, getIndex_eq, getEpoch_eq, getType_eq.
  destruct LO. rewrite !Z.mod_mod by lia. rewrite (pow_split ib eb), <- Z.div_div by lia.
  rewrite <- Z.add_assoc, !pow_split by lia. symmetry.
  rewrite Z.rem_mul_r by lia. rewrite (Z.rem_mul_r (h / 2 ^ ib)) by lia. ring.
Qed.

(** ** One table over time *)

(** What happened to the handles of a table. *)
Inductive event := EAlloc (h o : Z) | ERelease (h : Z) | EDie (o : Z).

Record hstate := HState { tbl : list HandleInfo; alive : gset Z; next : Z; log : list event }.
Definition hinit : hstate := HState [] ∅ 0 [].

(** Objects are created and die, get handles, and handles, also made-up ones,
    are released. *)
Inductive hop := HCreate | HDie (o : Z) | HAlloc (o : Z) | HRelease (h : Z).

Definition hstep (t : Z) (s : hstate) (x : hop) : hstate :=
  match x with
  | HCreate => HState (tbl s) ({[next s]} ∪ alive s) (next s + 1) (log s)
  | HDie o => HState (tbl s) (alive s ∖ {[o]}) (next s) (EDie o :: log s)
  | HAlloc o =>
      if decide (o ∈ alive s) then
        let '(h, l) := allocate (alive s) o t (tbl s) in HState l (alive s) (next s) (EAlloc h o :: log s)
      else s
  | HRelease h =>
      if negb (getType h =? t) then s
      else HState (release h (tbl s)).2 (alive s) (next s) (ERelease (canon h) :: log s)
  end.
Definition hrun (t : Z) (l : list hop) : hstate := foldl (hstep t) hinit l.

(** What handles mean: the object they were made for, until they are released
    or it dies. *)
Fixpoint denotes (l : list event) : gmap Z Z :=
  match l with
  | [] => ∅
  | EAlloc h o :: l => <[h := o]> (denotes l)
  | ERelease h :: l => delete h (denotes l)
  | EDie o :: l => filter (fun e : Z * Z => e.2 <> o) (denotes l)
  end.
Definition issued (l : list event) : list Z :=
  omap (fun e => match e with EAlloc h _ => Some h | _ => None end) l.

(** The allocation takes the first slot whose object is gone. *)
Lemma allocate_loop_spec al o t l i :
  match allocate_loop al o t i l with
  | Some (h, l') => exists k slot, l !! k = Some slot /\ expired al (object slot) = true /\
      h = makeHandle t (i + Z.of_nat k) (wrap (word L) (epoch slot + 1)) /\
      l' = <[k := Slot (Some o) (wrap (word L) (epoch slot + 1))]> l
  | None => forall k slot, l !! k = Some slot -> expired al (object slot) = false
  end.
Proof.
  revert i. induction l as [|s l IH]; intros i; cbn [allocate_loop]; [done|].
  destruct (expired al (object s)) eqn:E.
  - replace (match object s with Some _ => negb true | None => false end) with false by (by destruct (object s)).
    exists 0%nat, s. rewrite Z.add_0_r. done.
  - destruct (object s) eqn:Eo; [|done]. cbn [negb]. specialize (IH (i + 1)).
    destruct (allocate_loop al o t (i + 1) l) as [[h l']|].
    + destruct IH as (k & slot & Hk & Hx & -> & ->). exists (S k), slot. split_and!; [done|done| |done].
      f_equal. lia.
    + intros [|k] slot Hk; [|by eapply IH]. injection Hk as <-. by rewrite Eo.
Qed.

Lemma expired_false s o : expired s o = false <-> exists x, o = Some x /\ x ∈ s.
Proof.
  destruct o as [x|]; cbn; [rewrite bool_decide_eq_false|]; split.
  - intros ?%dec_stable. eauto.
  - intros (? & [= <-] & ?). tauto.
  - done.
  - intros (? & [=] & _).
Qed.

(** [get] and [release] find the slot that the handle is made from. *)
Definition slot_of (h : Z) (l : list HandleInfo) : option (nat * HandleInfo) :=
  slot ← l !! Z.to_nat (getIndex h);
  if epoch slot .& kEpochMask L =? getEpoch h then Some (Z.to_nat (getIndex h), slot) else None.

Lemma getIndex_range h : 0 <= getIndex h < 2 ^ ib.
Proof. rewrite getIndex_eq. destruct LO. apply Z.mod_pos_bound. lia. Qed.

Lemma get_slot al h l :
  get al h l = match slot_of h l with Some (_, slot) => lock al (object slot) | None => None end.
Proof.
  unfold get, slot_of. pose proof (getIndex_range h). destruct (Z.leb_spec (Z.of_nat (length l)) (getIndex h)).
  - rewrite lookup_ge_None_2 by lia. done.
  - destruct (l !! _); [|done]. cbn. by destruct (_ =? _).
Qed.
Lemma release_slot h l :
  release h l = match slot_of h l with
                | Some (i, slot) => (true, <[i := Slot None (wrap (word L) (epoch slot + 1))]> l)
                | None => (false, l) end.
Proof.
  unfold release, slot_of. pose proof (getIndex_range h). destruct (Z.leb_spec (Z.of_nat (length l)) (getIndex h)).
  - rewrite lookup_ge_None_2 by lia. done.
  - destruct (l !! _); [|done]. cbn. by destruct (_ =? _).
Qed.

Section Table.
Context (t : Z) (Ht : 0 <= t < 2 ^ 4).

Record hinv (n : nat) (s : hstate) : Prop := {
  h_len : (length (tbl s) <= n)%nat;
  h_epoch : forall i slot, tbl s !! i = Some slot -> 0 <= epoch slot <= Z.of_nat n;
  h_alive : forall o, o ∈ alive s -> o < next s;
  h_obj : forall i slot o, tbl s !! i = Some slot -> object slot = Some o -> o < next s;
  h_issued : forall h, h ∈ issued (log s) -> exists i slot e, tbl s !! i = Some slot /\
    h = makeHandle t (Z.of_nat i) e /\ 0 <= e <= epoch slot /\ (object slot = None -> e < epoch slot);
  h_nodup : NoDup (issued (log s));
  h_den : forall k o, denotes (log s) !! k = Some o <-> o ∈ alive s /\
    exists i slot, tbl s !! i = Some slot /\ object slot = Some o /\ k = makeHandle t (Z.of_nat i) (epoch slot)
}.

Context (n : nat) (Hn : Z.of_nat n + 1 < 2 ^ ib /\ Z.of_nat n + 1 < 2 ^ eb).

Lemma epoch_word : Z.of_nat n + 1 < 2 ^ word L.
Proof.
  destruct LO. assert (2 ^ eb <= 2 ^ word L) by (apply Z.pow_le_mono_r; lia). lia.
Qed.
Lemma epoch_next e : 0 <= e <= Z.of_nat n -> wrap (word L) (e + 1) = e + 1.
Proof. intros. apply wrap_small. pose proof epoch_word. unfold is_u. lia. Qed.

(** A slot whose object is gone, or a new one, gets the object [o]. *)
Lemma alloc_inv s k new l :
  hinv n s -> l !! k = Some new -> (forall j, j <> k -> l !! j = tbl s !! j) -> (length l <= S n)%nat ->
  0 <= epoch new <= Z.of_nat n + 1 ->
  (forall old, tbl s !! k = Some old -> expired (alive s) (object old) = true /\ epoch old < epoch new) ->
  forall o, object new = Some o -> o ∈ alive s ->
  hinv (S n) (HState l (alive s) (next s) (EAlloc (makeHandle t (Z.of_nat k) (epoch new)) o :: log s)).
Proof.
  intros I Hk Hj Hlen He Hold o Ho Ha. pose proof (lookup_lt_Some _ _ _ Hk).
  assert (forall j slot, l !! j = Some slot -> 0 <= epoch slot <= Z.of_nat n + 1) as Hep.
  { intros j slot Hs. destruct (decide (j = k)) as [->|]; [congruence|]. rewrite Hj in Hs by done.
    pose proof (h_epoch _ _ I _ _ Hs). lia. }
  split; cbn [tbl alive next log].
  - done.
  - intros j slot Hs. pose proof (Hep _ _ Hs). lia.
  - apply (h_alive _ _ I).
  - intros j slot x Hs Hx. destruct (decide (j = k)) as [->|]; [|rewrite Hj in Hs by done; by eapply h_obj].
    assert (x = o) as -> by congruence. by eapply h_alive.
  - intros h Hh. cbn in Hh. apply elem_of_cons in Hh as [->|Hh].
    + exists k, new, (epoch new). split_and!; [done|done|lia|lia|congruence].
    + destruct (h_issued _ _ I h Hh) as (j & slot & e & Hs & -> & He1 & He2).
      destruct (decide (j = k)) as [->|]; [|exists j, slot, e; by rewrite Hj].
      destruct (Hold _ Hs). exists k, new, e. split_and!; [done|done|lia|lia|congruence].
  - cbn. apply NoDup_cons. split; [|apply (h_nodup _ _ I)]. intros Hh.
    destruct (h_issued _ _ I _ Hh) as (j & slot & e & Hs & E & He1 & He2).
    pose proof (lookup_lt_Some _ _ _ Hs). pose proof (h_len _ _ I). pose proof (h_epoch _ _ I _ _ Hs).
    apply makeHandle_inj in E as [E1 E2]; [|lia..]. assert (j = k) as -> by lia.
    destruct (Hold _ Hs). lia.
  - intros h x. cbn. rewrite lookup_insert_Some, (h_den _ _ I). split.
    + intros [[<- <-]|(Hne & Hx & j & slot & Hs & Hxo & ->)]; [split; [done|]; by exists k, new|].
      split; [done|]. exists j, slot. rewrite Hj; [done|]. intros ->.
      destruct (Hold _ Hs) as [Hexp _]. rewrite (proj2 (expired_false _ _)) in Hexp; [done|eauto].
    + intros (Hx & j & slot & Hs & Hxo & ->). destruct (decide (j = k)) as [->|Hne].
      * left. assert (slot = new) as -> by congruence. split; [done|congruence].
      * right. pose proof (lookup_lt_Some _ _ _ Hs). pose proof (Hep _ _ Hs). rewrite Hj in Hs by done. split; [|eauto 10].
        intros [E _]%makeHandle_inj; lia.
Qed.

Lemma hstep_alloc s o : hinv n s -> hinv (S n) (hstep t s (HAlloc o)).
Proof.
  intros I. cbn [hstep]. destruct (decide (o ∈ alive s)) as [Ha|].
  2:{ destruct I. split; try done; [lia|]. intros i slot Hs. specialize (h_epoch0 i slot Hs). lia. }
  pose proof (h_len _ _ I). unfold allocate. pose proof (allocate_loop_spec (alive s) o t (tbl s) 0) as A.
  destruct (allocate_loop (alive s) o t 0 (tbl s)) as [[h l]|].
  - destruct A as (k & slot & Hk & Hx & -> & ->). pose proof (h_epoch _ _ I _ _ Hk). rewrite epoch_next by done.
    pose proof (lookup_lt_Some _ _ _ Hk).
    apply (alloc_inv s k (Slot (Some o) (epoch slot + 1))); cbn; try done; try lia.
    + by rewrite list_lookup_insert_eq.
    + intros j ?. by rewrite list_lookup_insert_ne.
    + rewrite length_insert. lia.
    + intros old Hold. assert (old = slot) as -> by congruence. split; [done|lia].
  - apply (alloc_inv s (length (tbl s)) (Slot (Some o) 0)); cbn; try done; try lia.
    + by rewrite list_lookup_middle.
    + intros j ?. destruct (decide (j < length (tbl s))%nat); [by rewrite lookup_app_l|].
      rewrite !lookup_ge_None_2; [done|lia|rewrite length_app; cbn; lia].
    + rewrite length_app. cbn. lia.
    + intros old Hold. apply lookup_lt_Some in Hold. lia.
Qed.

Lemma slot_of_spec s h i slot :
  hinv n s -> getType h = t ->
  slot_of h (tbl s) = Some (i, slot) <-> tbl s !! i = Some slot /\ canon h = makeHandle t (Z.of_nat i) (epoch slot).
Proof.
  intros I Hh. pose proof (getIndex_range h) as Hi. unfold canon. rewrite Hh. unfold slot_of.
  assert (forall sl, tbl s !! i = Some sl -> epoch sl .& kEpochMask L = epoch sl /\ Z.of_nat i < 2 ^ ib /\ epoch sl < 2 ^ eb /\ 0 <= epoch sl) as Hsl.
  { intros sl Hs. pose proof (h_epoch _ _ I _ _ Hs). pose proof (lookup_lt_Some _ _ _ Hs). pose proof (h_len _ _ I).
    rewrite (l_emask), land_mask, Z.mod_small by (destruct LO; lia). lia. }
  assert (0 <= getEpoch h < 2 ^ eb) as He.
  { rewrite getEpoch_eq. destruct LO. apply Z.mod_pos_bound. lia. }
  split.
  - destruct (tbl s !! Z.to_nat (getIndex h)) as [sl|] eqn:Hs; cbn; [|done].
    destruct (Z.eqb_spec (epoch sl .& kEpochMask L) (getEpoch h)) as [E|]; [|done]. intros [= <- <-].
    split; [done|]. rewrite <- E, Z2Nat.id by lia. by rewrite (proj1 (Hsl _ Hs)).
  - intros [Hs E]. destruct (Hsl _ Hs) as (E1 & ? & ? & ?). apply makeHandle_inj in E as [E2 E3]; [|lia..].
    rewrite E2, Nat2Z.id, Hs. cbn. by rewrite E1, E3, Z.eqb_refl.
Qed.

Lemma hstep_release s h : hinv n s -> hinv (S n) (hstep t s (HRelease h)).
Proof.
  intros I. cbn [hstep]. pose proof (h_len _ _ I).
  destruct (Z.eqb_spec (getType h) t) as [Hh|]; cbn [negb].
  2:{ destruct I. split; try done; [lia|]. intros i slot Hs. specialize (h_epoch0 i slot Hs). lia. }
  rewrite release_slot. pose proof (slot_of_spec s h) as SS. destruct (slot_of h (tbl s)) as [[i slot]|]; cbn [snd].
  - destruct (proj1 (SS i slot I Hh) eq_refl) as [Hs E]. pose proof (h_epoch _ _ I _ _ Hs) as He.
    pose proof (lookup_lt_Some _ _ _ Hs). rewrite epoch_next by done. rewrite E.
    assert (forall j sl, <[i := Slot None (epoch slot + 1)]> (tbl s) !! j = Some sl <->
      (j = i /\ sl = Slot None (epoch slot + 1)) \/ (j <> i /\ tbl s !! j = Some sl)) as Hl.
    { intros j sl. rewrite list_lookup_insert_Some. naive_solver. }
    split; cbn [tbl alive next log].
    + rewrite length_insert. lia.
    + intros j sl [[-> ->]|[_ Hj]]%Hl; [cbn; lia|]. pose proof (h_epoch _ _ I _ _ Hj). lia.
    + apply (h_alive _ _ I).
    + intros j sl o [[-> ->]|[_ Hj]]%Hl; [done|]. by eapply h_obj.
    + intros k Hk. destruct (h_issued _ _ I k Hk) as (j & sl & e & Hj & -> & He1 & He2).
      destruct (decide (j = i)) as [->|Hne].
      * assert (sl = slot) as -> by congruence. exists i, (Slot None (epoch slot + 1)), e. rewrite Hl. cbn. split_and!; auto; lia.
      * exists j, sl, e. rewrite Hl. auto.
    + apply (h_nodup _ _ I).
    + intros k o. cbn. rewrite lookup_delete_Some, (h_den _ _ I). split.
      * intros (Hk & Ho & j & sl & Hj & Hob & ->). split; [done|]. exists j, sl. rewrite Hl. split; [|done].
        right. split; [|done]. intros ->. apply Hk. congruence.
      * intros (Ho & j & sl & [[-> ->]|[Hne Hj]]%Hl & Hob & ->); [done|]. split; [|eauto 10].
        pose proof (h_epoch _ _ I _ _ Hj). pose proof (lookup_lt_Some _ _ _ Hj). intros [? _]%makeHandle_inj; lia.
  - assert (denotes (log s) !! canon h = None) as Hd.
    { destruct (denotes (log s) !! canon h) as [o|] eqn:Ed; [|done].
      apply (h_den _ _ I) in Ed as (Ho & j & sl & Hj & _ & E).
      by pose proof (proj2 (SS j sl I Hh) (conj Hj E)). }
    destruct I. split; cbn [tbl alive next log]; try done; [lia| |].
    + intros i slot Hs. specialize (h_epoch0 i slot Hs). lia.
    + intros k o. cbn. rewrite delete_id by done. apply h_den0.
Qed.

Lemma hstep_other s x :
  match x with HCreate | HDie _ => True | _ => False end -> hinv n s -> hinv (S n) (hstep t s x).
Proof.
  intros Hx I. pose proof (h_len _ _ I).
  assert (forall i slot, tbl s !! i = Some slot -> 0 <= epoch slot <= Z.of_nat (S n)) as He.
  { intros i slot Hs. pose proof (h_epoch _ _ I _ _ Hs). lia. }
  destruct x as [|o| |]; try done; destruct I; split; cbn [hstep tbl alive next log]; try done; try lia.
  - intros o [->%elem_of_singleton|Ho%h_alive0]%elem_of_union; lia.
  - intros i slot o Hs Ho. specialize (h_obj0 i slot o Hs Ho). lia.
  - intros k o. rewrite h_den0. split; intros (Ho & i & slot & Hs & Hob & ->); (split; [|eauto 10]).
    + by apply elem_of_union_r.
    + apply elem_of_union in Ho as [->%elem_of_singleton|]; [|done]. specialize (h_obj0 i slot _ Hs Hob). lia.
  - set_solver.
  - intros k x. cbn. rewrite map_lookup_filter_Some, h_den0, elem_of_difference, not_elem_of_singleton. naive_solver.
Qed.

Lemma hstep_inv s x : hinv n s -> hinv (S n) (hstep t s x).
Proof. destruct x; auto using hstep_alloc, hstep_release; intros; by apply hstep_other. Qed.

End Table.

Lemma hrun_inv t l :
  0 <= t < 2 ^ 4 -> Z.of_nat (length l) + 1 < 2 ^ ib -> Z.of_nat (length l) + 1 < 2 ^ eb ->
  hinv t (length l) (hrun t l).
Proof.
  intros Ht. unfold hrun. rewrite <- (rev_involutive l). rewrite length_rev. generalize (rev l). clear l.
  intros l. induction l as [|x l IH]; cbn [length rev]; intros H1 H2.
  - split; cbn; try done; try set_solver; try lia; try constructor.
  - rewrite foldl_app. cbn. apply (hstep_inv t Ht); [lia|]. apply IH; lia.
Qed.


(** Releasing and allocating the handle of the only slot [n] times. *)
Definition cycle (t : Z) (s : Z * list HandleInfo) (o : Z) : Z * list HandleInfo :=
  allocate {[o]} o t (release s.1 s.2).2.

Lemma cycle_step t o o' e :
  0 <= t < 2 ^ 4 -> 0 <= e -> e + 2 < 2 ^ word L ->
  cycle t (makeHandle t 0 e, [Slot (Some o) e]) o' = (makeHandle t 0 (e + 2), [Slot (Some o') (e + 2)]).
Proof.
  intros Ht He Hw. unfold cycle, release. cbn [fst snd].
  destruct (handle_parts t 0 e) as (-> & -> & _). rewrite (Z.mod_small 0) by (destruct LO; lia).
  change (Z.of_nat (length [Slot (Some o) e]) <=? 0) with false. change (Z.to_nat 0) with 0%nat. cbn.
  rewrite l_emask, land_mask by (destruct LO; lia). rewrite Z.eqb_refl. cbn.
  unfold wrap. rewrite (Z.mod_small (e + 1)) by lia. unfold allocate. cbn.
  unfold wrap. rewrite Z.mod_small by lia. by rewrite <- Z.add_assoc.
Qed.

Lemma cycle_run t k : forall o e os,
  0 <= t < 2 ^ 4 -> 0 <= e -> e + 2 * Z.of_nat k < 2 ^ word L -> length os = k ->
  foldl (cycle t) (makeHandle t 0 e, [Slot (Some o) e]) os =
  (makeHandle t 0 (e + 2 * Z.of_nat k), [Slot (Some (List.last os o)) (e + 2 * Z.of_nat k)]).
Proof.
  induction k as [|k IH]; intros o e [|o' os] Ht He Hw Hl; try done; [by rewrite Z.add_0_r|].
  cbn [foldl]. rewrite cycle_step by lia. injection Hl as Hl. rewrite IH by (done || lia).
  replace (e + 2 + 2 * Z.of_nat k) with (e + 2 * Z.of_nat (S k)) by lia.
  replace (List.last (o' :: os) o) with (List.last os o'); [done|].
  destruct os as [|x os]; [done|]. cbn [List.last]. clear. revert x. induction os as [|y os IHo]; intros x; [done|]. apply IHo.
Qed.

(** How long a stale handle stays invalid.  When a slot is released and
    given out again 2^(eb-1) times (2^19 on amd64, 64 times on i386), the last
    allocation returns the handle of the first one, and the stale handle finds
    the new object. *)
Theorem handle_epoch_wraps (t o : Z) (os : list Z) :
  0 <= t < 2 ^ 4 -> Z.of_nat (length os) = 2 ^ (eb - 1) ->
  let h := makeHandle t 0 0 in
  let s := foldl (cycle t) (h, [Slot (Some o) 0]) os in
  s.1 = h /\ get {[List.last os o]} h s.2 = Some (List.last os o).
Proof.
  intros Ht Hl h s.
  assert (2 * 2 ^ (eb - 1) = 2 ^ eb) as E.
  { destruct LO. rewrite <- Z.pow_succ_r by lia. f_equal. lia. }
  assert (2 ^ eb < 2 ^ word L) by (destruct LO; apply Z.pow_lt_mono_r; lia).
  assert (makeHandle t 0 (2 ^ eb) = h) as Eh.
  { unfold h. rewrite !makeHandle_eq, Z.mod_same, Z.mod_0_l by (destruct LO; lia). done. }
  assert (s = (h, [Slot (Some (List.last os o)) (2 ^ eb)])) as ->.
  { subst s. unfold h at 1. rewrite (cycle_run t (length os)); [|done|lia|lia|done]. by rewrite Z.add_0_l, Hl, E, Eh. }
  cbn [fst snd]. split; [done|].
  rewrite get_slot. unfold slot_of, h. destruct (handle_parts t 0 0) as (-> & -> & _).
  rewrite !Z.mod_0_l by (destruct LO; lia). change (Z.to_nat 0) with 0%nat.
  cbn [lookup list_lookup mbind option_bind epoch].
  rewrite l_emask, land_mask, Z.mod_same, Z.eqb_refl by (destruct LO; lia).
  cbn [object]. unfold lock, expired. rewrite bool_decide_eq_false_2 by set_solver. done.
Qed.

End Handles.

#[export] Instance amd64_ok : LayoutOk amd64 32 20.
Proof. split; cbn; done. Qed.
#[export] Instance i386_ok : LayoutOk i386 20 7.
Proof. split; cbn; done. Qed.

(** The parts of a handle are recovered from it, on both architectures, for
    an index and an epoch that fit their fields; a wider index or epoch is cut,
    and reassembling the parts of any number below the end of the type field
    gives it back. *)
Theorem handle_round_trip (L : Layout) (ib eb : Z) (LO : LayoutOk L ib eb) (t : Type_) (i e h : Z) :
  0 <= i < 2 ^ ib -> 0 <= e -> 0 <= h < 2 ^ (ib + eb + 4) ->
  getIndex L (makeHandle L (code t) i e) = i /\
  getEpoch L (makeHandle L (code t) i e) = e mod 2 ^ eb /\
  getType L (makeHandle L (code t) i e) = code t /\
  makeHandle L (getType L h) (getIndex L h) (getEpoch L h) = h.
Proof.
  intros Hi He Hh. destruct (handle_parts L (code t) i e) as (-> & -> & ->).
  rewrite (Z.mod_small i) by done. rewrite (Z.mod_small (code t)) by (destruct t; cbn; lia).
  split_and!; [done..|]. pose proof (canon_eq L h) as E. unfold canon in E. rewrite E. by apply Z.mod_small.
Qed.

(** C39: what the typed operations do with a handle of another type: lookups
    find nothing and releases change nothing, except that the release of an
    interrupt handle asks for the type of a port.  So an interrupt handle is
    never released, and a port handle with the index and epoch of an interrupt
    handle releases that one. *)
Theorem handle_types (al : gset Z) (m : Manager) (h : Z) (t : Type_) :
  getType amd64 h = code t ->
  (t <> Task -> getTask amd64 al h m = None /\ releaseTaskHandle amd64 h m = (false, m)) /\
  (t <> Thread -> getThread amd64 al h m = None /\ releaseThreadHandle amd64 h m = (false, m)) /\
  (t <> VmRegion -> getVmObject amd64 al h m = None /\ releaseVmObjectHandle amd64 h m = (false, m)) /\
  (t <> Port -> getPort amd64 al h m = None /\ releasePortHandle amd64 h m = (false, m)) /\
  (t <> IrqHandler -> getIrq amd64 al h m = None) /\
  (t = IrqHandler -> releaseIrqHandle amd64 h m = (false, m)) /\
  (forall i slot, t = Port -> irqHandles m !! i = Some slot -> 0 <= epoch slot < 2 ^ 20 -> Z.of_nat i < 2 ^ 32 ->
     h = makeHandle amd64 (code Port) (Z.of_nat i) (epoch slot) ->
     releaseIrqHandle amd64 h m = (true, on_irq (<[i := Slot None (epoch slot + 1)]> (irqHandles m)) m)).
Proof.
  intros Hh. unfold getTask, releaseTaskHandle, getThread, releaseThreadHandle, getVmObject, releaseVmObjectHandle,
    getPort, releasePortHandle, getIrq, releaseIrqHandle. rewrite Hh.
  split_and!; [destruct t; by intros; try split ..|].
  intros i slot -> Hs He Hi E. cbn [negb code Z.eqb Pos.eqb]. unfold release. rewrite E.
  destruct (handle_parts amd64 (code Port) (Z.of_nat i) (epoch slot)) as (-> & -> & _).
  pose proof (lookup_lt_Some _ _ _ Hs). rewrite !Z.mod_small by lia.
  replace (Z.of_nat (length (irqHandles m)) <=? Z.of_nat i) with false by blia.
  rewrite Nat2Z.id, Hs. change (kEpochMask amd64) with (2 ^ 20 - 1). rewrite land_mask, Z.mod_small, Z.eqb_refl by lia.
  cbn [negb]. unfold wrap. rewrite Z.mod_small by (cbn [word amd64]; lia). done.
Qed.


Lemma handle_epoch_wraps_witness :
  let os := Z.of_nat <$> seq 1 64 in
  let h := makeHandle i386 1 0 0 in
  let s := foldl (cycle i386 1) (h, [Slot (Some 0) 0]) os in
  s.1 = h /\ get i386 {[List.last os 0]} h s.2 = Some (List.last os 0).
Proof. exact (handle_epoch_wraps i386 1 0 (Z.of_nat <$> seq 1 64) ltac:(lia) eq_refl). Defined.

Lemma handle_round_trip_witness :
  getEpoch amd64 (makeHandle amd64 (code Port) 7 3) = 3 /\ makeHandle amd64 3 7 3 = 13510811767013383.
Proof.
  destruct (handle_round_trip amd64 32 20 amd64_ok Port 7 3 13510811767013383) as (_ & E & _ & _); [lia|lia|lia|].
  split; [exact E|reflexivity].
Defined.

Lemma handle_types_witness :
  let h := makeHandle amd64 (code IrqHandler) 0 0 in
  let m := Build_Manager [] [] [] [] [Slot (Some 9) 0] in
  getIrq amd64 {[9]} h m = Some 9 /\ releaseIrqHandle amd64 h m = (false, m).
Proof.
  split; [reflexivity|].
  by apply (handle_types {[9]} (Build_Manager [] [] [] [] [Slot (Some 9) 0]) (makeHandle amd64 (code IrqHandler) 0 0) IrqHandler).
Defined.
