(* ===== verification/PhysMem.v ===== *)
(** * Physical memory (kernel/src/mem/PhysRegion.cpp, PhysicalAllocator.cpp)

    The page allocator: regions of at most 24576 pages with a bitmap of the free
    ones, chained when the memory is larger, and the allocator over the memory
    map of the platform.  Filling a page with zeros and logging are left out;
    the spin lock makes each operation one step. *)

From S2P Require Import Prelude.
Local Open Scope mach_scope.

Definition arch_page_size : Z := 4096.
Definition kMinPages : Z := 4.
Definition kMaxPages : Z := 24576.
Definition kMaxRegions : nat := 10.
Definition bitmapWords : nat := 384.

Record PhysRegion := {
  base : Z; len : Z; allocatable : Z; bitmapMax : Z; lastAllocIdx : Z; bitmap : list Z
}.

Definition set_last (i : Z) (r : PhysRegion) : PhysRegion :=
  Build_PhysRegion (base r) (len r) (allocatable r) (bitmapMax r) i (bitmap r).
Definition set_bitmap (b : list Z) (r : PhysRegion) : PhysRegion :=
  Build_PhysRegion (base r) (len r) (allocatable r) (bitmapMax r) (lastAllocIdx r) b.

Definition CanAllocate (length : Z) : bool := u64 (arch_page_size * kMinPages) <? length.

(** [bitmap[i / 64] |= 1 << (i % 64)]. *)
Definition mark_free (b : list Z) (i : Z) : res (list Z) :=
  w ← aget b (i / 64); aset b (i / 64) (w .| u64 (1 << (i mod 64))).

Fixpoint init_loop (n : nat) (i : Z) (b : list Z) : res (list Z) :=
  match n with
  | O => Ok b
  | S n => b ← mark_free b i; init_loop n (i + 1) b
  end.

Definition commonInit (base len numPages : Z) : res PhysRegion :=
  _ ← REQUIRE (numPages <=? kMaxPages);
  let bitmapMax := u64 (numPages - 1) in
  b ← init_loop (Z.to_nat bitmapMax) 0 (replicate bitmapWords 0);
  Ok (Build_PhysRegion base len (u64 (numPages * arch_page_size)) bitmapMax 0 b).

Definition newRegion (base len : Z) : res PhysRegion :=
  let pages := len / arch_page_size in
  _ ← REQUIRE (kMinPages <=? pages);
  let pages := if kMaxPages <? pages then kMaxPages else pages in
  commonInit base len pages.

(** The constructor of a further region of [parent]'s memory. *)
Definition childRegion (parent : PhysRegion) (offset : Z) : res PhysRegion :=
  _ ← REQUIRE (offset mod arch_page_size =? 0);
  let base := u64 (base parent + offset) in
  let len := u64 (len parent - offset) in
  let pages := len / arch_page_size in
  _ ← REQUIRE (kMinPages <=? pages);
  let pages := if kMaxPages <? pages then kMaxPages else pages in
  commonInit base len pages.

(** The loop of [initNextIfNeeded]: the regions appended to the chain. *)
Fixpoint next_loop (fuel : nat) (this : PhysRegion) (offset remaining : Z) : res (list PhysRegion) :=
  match fuel with
  | O => Stuck
  | S fuel =>
      if CanAllocate remaining then
        child ← childRegion this offset;
        rest ← next_loop fuel this (u64 (offset + allocatable child)) (u64 (remaining - allocatable child));
        Ok (child :: rest)
      else Ok []
  end.
Definition next_fuel (this : PhysRegion) : nat := S (Z.to_nat (len this / (arch_page_size * kMinPages))).
Definition initNextIfNeeded (this : PhysRegion) : res (list PhysRegion) :=
  let offset := allocatable this in
  _ ← REQUIRE (offset mod arch_page_size =? 0);
  let remaining := u64 (len this - allocatable this) in
  _ ← REQUIRE (offset mod arch_page_size =? 0);
  if (remaining =? 0) || negb (CanAllocate remaining) then Ok []
  else next_loop (next_fuel this) this offset remaining.

(** [__builtin_ffsl]: one more than the position of the lowest set bit. *)
Fixpoint ffs_loop (n : nat) (i w : Z) : Z :=
  match n with
  | O => 0
  | S n => if Z.testbit w i then i + 1 else ffs_loop n (i + 1) w
  end.
Definition ffsl (w : Z) : Z := ffs_loop 64 0 w.

(** The search of [alloc] from word [i], over [n] words. *)
Fixpoint alloc_scan (n : nat) (i : Z) (r : PhysRegion) : res (option (Z * PhysRegion)) :=
  match n with
  | O => Ok None
  | S n =>
      w ← aget (bitmap r) i;
      if w =? 0 then alloc_scan n (i + 1) r
      else
        let bitOff := u64 (ffsl w - 1) in
        _ ← REQUIRE (bitOff <=? 63);
        let pageOff := u64 (i * 64 + bitOff) in
        b ← aset (bitmap r) i (w .& u64 (Z.lnot (1 << bitOff)));
        let pageAddr := u64 (base r + pageOff * arch_page_size) in
        Ok (Some (pageAddr, set_last i (set_bitmap b r)))
  end.

Definition region_alloc (r : PhysRegion) : res (Z * PhysRegion) :=
  let maxIdx := (bitmapMax r + 63) / 64 in
  x ← alloc_scan (Z.to_nat (maxIdx - lastAllocIdx r)) (lastAllocIdx r) r;
  match x with
  | Some p => Ok p
  | None =>
      if lastAllocIdx r =? 0 then Ok (0, r)
      else
        let r := set_last 0 r in
        x ← alloc_scan (Z.to_nat maxIdx) 0 r;
        match x with Some p => Ok p | None => Ok (0, r) end
  end.

Definition checkAddress (r : PhysRegion) (addr : Z) : bool :=
  (base r <=? addr) && (addr <? u64 (base r + allocatable r)).

Fixpoint region_free (r : PhysRegion) (pages : list Z) (freed : Z) : res (Z * PhysRegion) :=
  match pages with
  | [] => Ok (freed, r)
  | page :: pages =>
      if checkAddress r page then
        let pageOff := u64 (page - base r) / arch_page_size in
        _ ← REQUIRE (pageOff <? bitmapMax r);
        b ← mark_free (bitmap r) pageOff;
        region_free (set_bitmap b r) pages (s32 (freed + 1))
      else region_free r pages freed
  end.

Definition getAvailableBytes (chain : list PhysRegion) : Z :=
  foldl (fun sum r => u64 (sum + allocatable r)) 0 chain.

(** ** The allocator *)

(** Each element is a region with the regions chained to it. *)
Record PhysicalAllocator := { regions : list (list PhysRegion); allocatedPages : Z }.

(** The regions that the constructor makes of the platform's memory map. *)
Fixpoint create_regions (map : list (Z * Z)) (n : nat) : res (list (list PhysRegion)) :=
  match map with
  | [] => Ok []
  | (baseAddr, length) :: map =>
      if CanAllocate length then
        _ ← REQUIRE (Nat.ltb n kMaxRegions);
        r ← newRegion baseAddr length;
        rest ← create_regions map (S n);
        Ok ([r] :: rest)
      else create_regions map n
  end.
Definition newPhysicalAllocator (map : list (Z * Z)) : res PhysicalAllocator :=
  rs ← create_regions map 0;
  _ ← REQUIRE (negb (Nat.eqb (length rs) 0));
  Ok {| regions := rs; allocatedPages := 0 |}.

Fixpoint notify_loop (l : list (list PhysRegion)) : res (list (list PhysRegion)) :=
  match l with
  | [] => Ok []
  | chain :: l =>
      match chain with
      | [] => Stuck
      | head :: _ =>
          children ← initNextIfNeeded head;
          rest ← notify_loop l;
          Ok ((head :: children) :: rest)
      end
  end.
Definition notifyRegionsVm (a : PhysicalAllocator) : res PhysicalAllocator :=
  rs ← notify_loop (regions a); Ok {| regions := rs; allocatedPages := allocatedPages a |}.

Fixpoint alloc_chain (chain : list PhysRegion) : res (Z * list PhysRegion) :=
  match chain with
  | [] => Ok (0, [])
  | r :: chain =>
      '(page, r) ← region_alloc r;
      if negb (page =? 0) then Ok (page, r :: chain)
      else '(page, chain) ← alloc_chain chain; Ok (page, r :: chain)
  end.
Fixpoint alloc_regions (l : list (list PhysRegion)) : res (Z * list (list PhysRegion)) :=
  match l with
  | [] => Ok (0, [])
  | chain :: l =>
      '(page, chain) ← alloc_chain chain;
      if negb (page =? 0) then Ok (page, chain :: l)
      else '(page, l) ← alloc_regions l; Ok (page, chain :: l)
  end.
Definition allocPage (a : PhysicalAllocator) : res (Z * PhysicalAllocator) :=
  '(page, rs) ← alloc_regions (regions a);
  Ok (page, {| regions := rs;
               allocatedPages := if page =? 0 then allocatedPages a else u64 (allocatedPages a + 1) |}).

(** [None] if no region contains the address. *)
Fixpoint free_chain (chain : list PhysRegion) (addr : Z) : res (option (list PhysRegion)) :=
  match chain with
  | [] => Ok None
  | r :: chain =>
      if checkAddress r addr then
        '(_, r) ← region_free r [addr] 0; Ok (Some (r :: chain))
      else x ← free_chain chain addr; Ok (option_map (cons r) x)
  end.
Fixpoint free_regions (l : list (list PhysRegion)) (addr : Z) : res (option (list (list PhysRegion))) :=
  match l with
  | [] => Ok None
  | chain :: l =>
      x ← free_chain chain addr;
      match x with
      | Some chain => Ok (Some (chain :: l))
      | None => x ← free_regions l addr; Ok (option_map (cons chain) x)
      end
  end.
Definition freePage (a : PhysicalAllocator) (addr : Z) : res PhysicalAllocator :=
  x ← free_regions (regions a) addr;
  match x with
  | Some rs => Ok {| regions := rs; allocatedPages := u64 (allocatedPages a - 1) |}
  | None => Panic
  end.

Definition getTotalPages (a : PhysicalAllocator) : Z :=
  foldl (fun bytes chain => u64 (bytes + getAvailableBytes chain)) 0 (regions a) / arch_page_size.

(** ** Bitmaps *)

Definition bit (b : list Z) (p : Z) : bool := Z.testbit (b !!! Z.to_nat (p / 64)) (p mod 64).
Definition bitmap_ok (b : list Z) : Prop := length b = bitmapWords /\ Forall (is_u 64) b.

Lemma bitmap_word b i : bitmap_ok b -> (i < bitmapWords)%nat -> is_u 64 (b !!! i).
Proof.
  intros [Hl Hb] Hi. rewrite Forall_forall in Hb. apply Hb. apply list_elem_of_lookup_total_2. lia.
Qed.

(** Replacing word [p / 64] by one that differs in bit [p mod 64] only. *)
Lemma bitmap_update b p w v :
  bitmap_ok b -> 0 <= p < kMaxPages -> is_u 64 w ->
  (forall k, 0 <= k < 64 -> Z.testbit w k = if k =? p mod 64 then v else Z.testbit (b !!! Z.to_nat (p / 64)) k) ->
  let b' := <[Z.to_nat (p / 64) := w]> b in
  bitmap_ok b' /\ forall q, 0 <= q -> bit b' q = if q =? p then v else bit b q.
Proof.
  intros [Hl Hb] Hp Hw Hk b'. unfold kMaxPages in Hp. split.
  - unfold b'. split; [by rewrite length_insert|]. by apply Forall_insert.
  - intros q Hq. unfold bit, b'. unfold bitmapWords in Hl.
    assert (p / 64 < 384) by (apply Z.div_lt_upper_bound; lia). assert (0 <= p / 64) by (apply Z.div_pos; lia).
    assert (0 <= q / 64) by (apply Z.div_pos; lia).
    pose proof (Z.mod_pos_bound q 64). pose proof (Z.div_mod q 64). pose proof (Z.div_mod p 64).
    rewrite list_insert_lookup_total by lia. destruct (Z.eqb_spec q p) as [->|Hne].
    + rewrite decide_True by done. rewrite Hk by lia. by rewrite Z.eqb_refl.
    + case_decide as E; [|done]. rewrite Hk by lia.
      destruct (Z.eqb_spec (q mod 64) (p mod 64)); [lia|]. by rewrite E.
Qed.

Lemma testbit_one k j : 0 <= k < 64 -> 0 <= j -> Z.testbit (1 << k) j = (j =? k).
Proof.
  intros. rewrite Z.shiftl_1_l, Z.pow2_bits_eqb by lia. apply Z.eqb_sym.
Qed.
Lemma one_u64 k : 0 <= k < 64 -> u64 (1 << k) = 1 << k.
Proof.
  intros. apply wrap_small. rewrite Z.shiftl_1_l. pose proof (Z.pow_lt_mono_r 2 k 64). pose proof (Z.pow_pos_nonneg 2 k).
  unfold is_u. lia.
Qed.
Lemma one_is_u k : 0 <= k < 64 -> is_u 64 (1 << k).
Proof. intros. rewrite <- one_u64 by done. by apply wrap_range. Qed.

Lemma page_word p : 0 <= p < kMaxPages -> 0 <= p / 64 < Z.of_nat bitmapWords.
Proof. unfold kMaxPages, bitmapWords. intros. split; [apply Z.div_pos; lia|apply Z.div_lt_upper_bound; lia]. Qed.

Lemma mark_free_ok b p :
  bitmap_ok b -> 0 <= p < kMaxPages ->
  exists b', mark_free b p = Ok b' /\ bitmap_ok b' /\ forall q, 0 <= q -> bit b' q = (q =? p) || bit b q.
Proof.
  intros Hb Hp. pose proof (page_word p Hp) as Hw. pose proof (Z.mod_pos_bound p 64 ltac:(lia)) as Hm.
  unfold mark_free. rewrite aget_ok by (destruct Hb as [-> _]; lia). cbn [mbind res_bind].
  rewrite aset_ok by (destruct Hb as [-> _]; lia). rewrite one_u64 by lia.
  assert (is_u 64 (b !!! Z.to_nat (p / 64))) by (apply bitmap_word; [done|lia]).
  destruct (bitmap_update b p (b !!! Z.to_nat (p / 64) .| (1 << (p mod 64))) true Hb Hp) as [H1 H2].
  - apply is_u_lor; [lia|done|]. by apply one_is_u.
  - intros k Hk. rewrite Z.lor_spec, testbit_one by lia. destruct (k =? p mod 64); [by rewrite orb_true_r|by rewrite orb_false_r].
  - eexists. split; [done|]. split; [done|]. intros q Hq. rewrite H2 by done. by destruct (q =? p).
Qed.

(** Taking page [p], whose bit is set, out of the bitmap. *)
Lemma mark_used_ok b i k :
  bitmap_ok b -> 0 <= i < Z.of_nat bitmapWords -> 0 <= k < 64 ->
  let w := b !!! Z.to_nat i in
  exists b', aset b i (w .& u64 (Z.lnot (1 << k))) = Ok b' /\ bitmap_ok b' /\
    forall q, 0 <= q -> bit b' q = if q =? i * 64 + k then false else bit b q.
Proof.
  intros Hb Hi Hk w. rewrite aset_ok by (destruct Hb as [-> _]; lia).
  assert ((i * 64 + k) / 64 = i /\ (i * 64 + k) mod 64 = k) as [E1 E2].
  { split; symmetry; [apply (Z.div_unique _ _ _ k)|apply (Z.mod_unique _ _ i)]; lia. }
  assert (0 <= i * 64 + k < kMaxPages) as Hp by (unfold kMaxPages, bitmapWords in *; lia).
  destruct (bitmap_update b (i * 64 + k) (w .& u64 (Z.lnot (1 << k))) false Hb Hp) as [H1 H2].
  - apply is_u_land; [lia|]. apply bitmap_word; [done|lia].
  - rewrite E1, E2. intros j Hj. rewrite Z.land_spec. unfold u64. rewrite testbit_wrap by lia.
    replace (j <? 64) with true by blia. rewrite andb_true_l, Z.lnot_spec, testbit_one by lia. fold w.
    destruct (j =? k); cbn; [apply andb_false_r|apply andb_true_r].
  - rewrite E1 in *. eexists. split; [done|]. done.
Qed.

Lemma init_loop_ok n : forall i b,
  bitmap_ok b -> 0 <= i -> i + Z.of_nat n <= kMaxPages ->
  exists b', init_loop n i b = Ok b' /\ bitmap_ok b' /\
    forall q, 0 <= q -> bit b' q = ((i <=? q) && (q <? i + Z.of_nat n)) || bit b q.
Proof.
  induction n as [|n IH]; intros i b Hb Hi Hn.
  - exists b. split_and!; [done..|]. intros q Hq. by destruct (Z.leb_spec i q), (Z.ltb_spec q (i + Z.of_nat 0)); try lia.
  - cbn [init_loop]. destruct (mark_free_ok b i Hb) as (b1 & -> & Hb1 & E1); [lia|]. cbn [mbind res_bind].
    destruct (IH (i + 1) b1 Hb1) as (b2 & -> & Hb2 & E2); [lia|lia|]. exists b2. split_and!; [done..|].
    intros q Hq. rewrite E2, E1 by done. rewrite orb_assoc. f_equal.
    destruct (Z.leb_spec (i + 1) q), (Z.leb_spec i q), (Z.ltb_spec q (i + 1 + Z.of_nat n)),
      (Z.ltb_spec q (i + Z.of_nat (S n))), (Z.eqb_spec q i); cbn; (done || lia).
Qed.

(** ** The lowest free page *)

Lemma ffs_loop_spec n : forall i w,
  (exists k, i <= k < i + Z.of_nat n /\ Z.testbit w k = true /\ ffs_loop n i w = k + 1) \/
  (ffs_loop n i w = 0 /\ forall k, i <= k < i + Z.of_nat n -> Z.testbit w k = false).
Proof.
  induction n as [|n IH]; intros i w; cbn [ffs_loop]; [right; split; [done|lia]|].
  destruct (Z.testbit w i) eqn:E; [left; exists i; split_and!; try done; lia|].
  destruct (IH (i + 1) w) as [(k & Hk & Hb & ->)|[-> H]].
  - left. exists k. split_and!; try done; lia.
  - right. split; [done|]. intros k Hk. destruct (decide (k = i)) as [->|]; [done|]. apply H. lia.
Qed.

Lemma ffsl_spec w : is_u 64 w -> w <> 0 -> exists k, 0 <= k < 64 /\ Z.testbit w k = true /\ ffsl w = k + 1.
Proof.
  intros Hw Hne. destruct (ffs_loop_spec 64 0 w) as [(k & Hk & H)|[_ H]]; [exists k; split; [lia|done]|].
  destruct Hne. apply Z.bits_inj_0. intros k. destruct (Z.lt_ge_cases k 0); [by apply Z.testbit_neg_r|].
  destruct (Z.lt_ge_cases k 64); [apply H; lia|]. apply (testbit_above 64); [done|lia].
Qed.

(** ** One region *)

Record region_ok (r : PhysRegion) : Prop := {
  r_bitmap : bitmap_ok (bitmap r);
  r_max : 3 <= bitmapMax r < kMaxPages;
  r_last : 0 <= lastAllocIdx r <= Z.of_nat bitmapWords;
  r_alloc : allocatable r = (bitmapMax r + 1) * arch_page_size;
  r_base : 0 < base r /\ base r + allocatable r < 2 ^ 64;
  r_clear : forall q, bitmapMax r <= q < kMaxPages -> bit (bitmap r) q = false
}.

(** The pages of a region that it manages and that are free. *)
Definition managed (r : PhysRegion) (a : Z) : Prop :=
  exists p, 0 <= p < bitmapMax r /\ a = base r + p * arch_page_size.
Definition page_free (r : PhysRegion) (a : Z) : Prop :=
  exists p, 0 <= p < bitmapMax r /\ a = base r + p * arch_page_size /\ bit (bitmap r) p = true.

(** What never changes of a region. *)
Definition geom (r : PhysRegion) : Z * Z * Z * Z := (base r, len r, allocatable r, bitmapMax r).

Lemma page_free_managed r a : page_free r a -> managed r a.
Proof. intros (p & ? & ? & _). by exists p. Qed.
Lemma managed_geom r r' a : geom r = geom r' -> managed r a -> managed r' a.
Proof. intros [= E1 _ _ E2] (p & Hp & ->). exists p. by rewrite <- E1, <- E2. Qed.

Lemma region_update r r' :
  region_ok r -> geom r' = geom r -> bitmap_ok (bitmap r') -> 0 <= lastAllocIdx r' <= Z.of_nat bitmapWords ->
  (forall q, bitmapMax r <= q < kMaxPages -> bit (bitmap r') q = false) -> region_ok r'.
Proof.
  intros [H1 H2 H3 H4 H5 H6] E Hb Hl Hc. injection E as E1 E2 E3 E4.
  split; rewrite ?E1, ?E2, ?E3, ?E4; done.
Qed.

(** The page address of page [p] fits a word and is not 0. *)
Lemma page_address r p :
  region_ok r -> 0 <= p < bitmapMax r ->
  u64 (base r + p * arch_page_size) = base r + p * arch_page_size /\ base r + p * arch_page_size <> 0 /\
  base r <= base r + p * arch_page_size < base r + allocatable r.
Proof.
  intros [H1 H2 H3 H4 H5 H6] Hp. unfold arch_page_size in *. unfold u64. rewrite wrap_small by mlia. lia.
Qed.

Lemma alloc_scan_ok n : forall i r,
  region_ok r -> 0 <= i -> i + Z.of_nat n <= (bitmapMax r + 63) / 64 ->
  (exists a r', alloc_scan n i r = Ok (Some (a, r')) /\ region_ok r' /\ geom r' = geom r /\ a <> 0 /\ page_free r a /\
     forall x, page_free r' x <-> page_free r x /\ x <> a) \/
  (alloc_scan n i r = Ok None /\ forall p, i * 64 <= p < (i + Z.of_nat n) * 64 -> bit (bitmap r) p = false).
Proof.
  induction n as [|n IH]; intros i r Hr Hi Hn; cbn [alloc_scan]; [right; split; [done|lia]|].
  pose proof Hr as [Hb Hm Hl Ha Hbase Hc].
  assert ((bitmapMax r + 63) / 64 <= Z.of_nat bitmapWords) as Hmax.
  { unfold bitmapWords, kMaxPages in *. enough ((bitmapMax r + 63) / 64 < 385) by lia. apply Z.div_lt_upper_bound; lia. }
  rewrite aget_ok by (destruct Hb as [-> _]; lia). cbn [mbind res_bind].
  assert (is_u 64 (bitmap r !!! Z.to_nat i)) as Hw by (apply bitmap_word; [done|lia]).
  destruct (Z.eqb_spec (bitmap r !!! Z.to_nat i) 0) as [E|E].
  - destruct (IH (i + 1) r Hr) as [H|[-> H]]; [lia|lia|by left|right]. split; [done|]. intros p Hp.
    destruct (Z.lt_ge_cases p ((i + 1) * 64)); [|apply H; lia].
    unfold bit. replace (p / 64) with i; [by rewrite E, Z.testbit_0_l|]. apply (Z.div_unique _ _ _ (p - i * 64)); lia.
  - left. destruct (ffsl_spec _ Hw E) as (k & Hk & Hbit & ->).
    replace (u64 (k + 1 - 1)) with k by (symmetry; replace (k + 1 - 1) with k by lia; apply wrap_small; mlia).
    unfold REQUIRE. replace (k <=? 63) with true by blia. cbn [mbind res_bind].
    destruct (mark_used_ok (bitmap r) i k Hb) as (b' & -> & Hb' & Eb); [lia|done|]. cbn [mbind res_bind].
    assert (bit (bitmap r) (i * 64 + k) = true) as Hfree.
    { unfold bit. replace ((i * 64 + k) / 64) with i by (apply (Z.div_unique _ _ _ k); lia).
      replace ((i * 64 + k) mod 64) with k by (apply (Z.mod_unique _ _ i); lia). done. }
    assert (0 <= i * 64 + k < bitmapMax r) as Hp.
    { split; [lia|]. destruct (Z.lt_ge_cases (i * 64 + k) (bitmapMax r)) as [|Hge]; [done|]. rewrite Hc in Hfree; [done|]. unfold kMaxPages, bitmapWords in *. lia. }
    replace (u64 (i * 64 + k)) with (i * 64 + k) by (symmetry; unfold kMaxPages in *; apply wrap_small; mlia).
    destruct (page_address r (i * 64 + k) Hr Hp) as (-> & Hne & _). eexists _, _. split; [done|].
    split_and!; [|done|done|by exists (i * 64 + k)|].
    + eapply region_update; [exact Hr|done|done|cbn; lia|]. cbn. intros q Hq. rewrite Eb by lia.
      destruct (Z.eqb_spec q (i * 64 + k)); [done|]. by apply Hc.
    + intros x. unfold page_free. cbn. split.
      * intros (p & Hp' & -> & Hbp). rewrite Eb in Hbp by lia. destruct (Z.eqb_spec p (i * 64 + k)); [done|].
        split; [by exists p|]. unfold arch_page_size. lia.
      * intros [(p & Hp' & -> & Hbp) Hx]. exists p. split; [done|]. split; [done|]. rewrite Eb by lia.
        destruct (Z.eqb_spec p (i * 64 + k)) as [->|]; done.
Qed.

(** Whether an allocation from the regions [l] gives page [a] (0: none) and
    leaves [l']. *)
Definition free_in (l : list PhysRegion) (x : Z) : Prop := exists r, r ∈ l /\ page_free r x.
Definition allocated (l : list PhysRegion) (a : Z) (l' : list PhysRegion) : Prop :=
  geom <$> l' = geom <$> l /\ Forall region_ok l' /\
  ((a = 0 /\ (forall x, ~ free_in l x) /\ (forall x, ~ free_in l' x)) \/
   (a <> 0 /\ free_in l a /\ forall x, free_in l' x <-> free_in l x /\ x <> a)).

Lemma free_in_one r x : free_in [r] x <-> page_free r x.
Proof. unfold free_in. split; [intros (r' & ->%list_elem_of_singleton & ?); done|]. exists r. set_solver. Qed.
Lemma free_in_app l1 l2 x : free_in (l1 ++ l2) x <-> free_in l1 x \/ free_in l2 x.
Proof. unfold free_in. set_solver. Qed.

Lemma region_alloc_ok r : region_ok r -> exists a r', region_alloc r = Ok (a, r') /\ allocated [r] a [r'].
Proof.
  intros Hr. unfold region_alloc. set (maxIdx := (bitmapMax r + 63) / 64).
  pose proof (r_last _ Hr) as Hl. pose proof (r_max _ Hr) as Hm.
  assert (0 <= maxIdx) by (apply Z.div_pos; lia).
  assert (forall a r', region_ok r' -> geom r' = geom r -> a <> 0 -> page_free r a ->
    (forall x, page_free r' x <-> page_free r x /\ x <> a) -> allocated [r] a [r']) as Hsome.
  { intros a r' ? Eg ? ? ?. split; [cbn; by rewrite Eg|]. split; [by apply Forall_singleton|]. right.
    split; [done|]. split; [by apply free_in_one|]. intros x. by rewrite !free_in_one. }
  assert (forall r', region_ok r' -> geom r' = geom r -> bitmap r' = bitmap r ->
    (forall p, 0 <= p < bitmapMax r -> bit (bitmap r) p = false) -> allocated [r] 0 [r']) as Hnone.
  { intros r' ? Eg Eb Hno. split; [cbn; by rewrite Eg|]. split; [by apply Forall_singleton|]. left. split; [done|].
    injection Eg as E1 _ _ E4. split; intros x; rewrite free_in_one; intros (p & Hp & _ & Hbp);
      rewrite ?Eb, ?E4 in *; rewrite Hno in Hbp; done. }
  assert (bitmapMax r <= maxIdx * 64) as Hcover.
  { unfold maxIdx. pose proof (Z.div_mod (bitmapMax r + 63) 64). pose proof (Z.mod_pos_bound (bitmapMax r + 63) 64). lia. }
  assert (forall r0, region_ok r0 -> geom r0 = geom r -> bitmap r0 = bitmap r ->
    exists y, alloc_scan (Z.to_nat maxIdx) 0 r0 = Ok y /\
      match y with Some (a, r') => allocated [r] a [r'] | None => allocated [r] 0 [r0] end) as Hfull.
  { intros r0 Hr0 Eg Eb. assert (bitmapMax r0 = bitmapMax r) as Em by (by injection Eg).
    destruct (alloc_scan_ok (Z.to_nat maxIdx) 0 r0 Hr0) as [(a & r' & -> & H1 & H2 & H3 & H4 & H5)|[-> Hno]];
      [lia|rewrite Em; fold maxIdx; lia| |].
    - eexists. split; [done|]. cbn. pose proof Eg as Eg'. injection Eg' as E1 E2 E3 E4.
      assert (forall x, page_free r0 x <-> page_free r x) as Hpf by (intros x; unfold page_free; by rewrite E1, E4, Eb).
      apply Hsome; [done|congruence|done|by apply Hpf|]. intros x. rewrite H5, Hpf. done.
    - eexists. split; [done|]. apply Hnone; [done..|]. intros p Hp. rewrite <- Eb. apply Hno. lia. }
  destruct (decide (lastAllocIdx r = 0)) as [E0|E0].
  - rewrite E0, Z.sub_0_r. destruct (Hfull r) as (y & -> & Hy); [done..|]. cbn [mbind res_bind].
    destruct y as [[a r']|]; [by eexists _, _|]. rewrite Z.eqb_refl. by eexists _, _.
  - destruct (Z.lt_ge_cases maxIdx (lastAllocIdx r)).
    + replace (Z.to_nat (maxIdx - lastAllocIdx r)) with 0%nat by lia. cbn [alloc_scan mbind res_bind].
      replace (lastAllocIdx r =? 0) with false by blia. destruct (Hfull (set_last 0 r)) as (y & -> & Hy); [|done..|].
      { eapply region_update; [exact Hr|done|apply Hr|cbn; lia|apply Hr]. }
      cbn [mbind res_bind]. destruct y as [[a r']|]; by eexists _, _.
    + destruct (alloc_scan_ok (Z.to_nat (maxIdx - lastAllocIdx r)) (lastAllocIdx r) r Hr)
        as [(a & r' & -> & H1 & H2 & H3 & H4 & H5)|[-> _]]; [lia|fold maxIdx; lia|eexists _, _; split; [done|]; by apply Hsome|].
      cbn [mbind res_bind]. replace (lastAllocIdx r =? 0) with false by blia. destruct (Hfull (set_last 0 r)) as (y & -> & Hy); [|done..|].
      { eapply region_update; [exact Hr|done|apply Hr|cbn; lia|apply Hr]. }
      cbn [mbind res_bind]. destruct y as [[a r']|]; by eexists _, _.
Qed.

Lemma region_end r : region_ok r -> u64 (base r + allocatable r) = base r + allocatable r.
Proof. intros [H1 H2 H3 H4 H5 H6]. apply wrap_small. unfold arch_page_size in *. mlia. Qed.

Lemma managed_check r a : region_ok r -> managed r a -> checkAddress r a = true.
Proof.
  intros Hr (p & Hp & ->). destruct (page_address r p Hr Hp) as (_ & _ & Hb).
  unfold checkAddress. rewrite region_end by done. apply andb_true_intro. split; blia.
Qed.

Lemma region_free_ok r a :
  region_ok r -> managed r a ->
  exists r', region_free r [a] 0 = Ok (1, r') /\ region_ok r' /\ geom r' = geom r /\
    forall x, page_free r' x <-> page_free r x \/ x = a.
Proof.
  intros Hr Ha. cbn [region_free]. rewrite (managed_check r a Hr Ha). destruct Ha as (p & Hp & ->).
  pose proof (r_max _ Hr) as Hm.
  assert (u64 (base r + p * arch_page_size - base r) / arch_page_size = p) as ->.
  { replace (base r + p * arch_page_size - base r) with (p * arch_page_size) by lia.
    unfold u64, kMaxPages, arch_page_size in *. rewrite wrap_small by mlia. apply Z.div_mul. lia. }
  unfold REQUIRE. replace (p <? bitmapMax r) with true by blia. cbn [mbind res_bind].
  destruct (mark_free_ok (bitmap r) p (r_bitmap _ Hr)) as (b & -> & Hb & Eb); [lia|]. cbn [mbind res_bind].
  eexists. split; [done|]. split; [|split; [done|]].
  - eapply region_update; [exact Hr|done|done|apply Hr|]. cbn. intros q Hq. rewrite Eb by lia.
    destruct (Z.eqb_spec q p); [lia|]. by apply Hr.
  - intros x. unfold page_free. cbn. split.
    + intros (q & Hq & -> & Hbq). rewrite Eb in Hbq by lia. destruct (Z.eqb_spec q p) as [->|]; [by right|]. left. by exists q.
    + intros [(q & Hq & -> & Hbq)| ->].
      * exists q. split; [done|]. split; [done|]. rewrite Eb, Hbq by lia. apply orb_true_r.
      * exists p. split; [done|]. split; [done|]. rewrite Eb by lia. by rewrite Z.eqb_refl.
Qed.

(** ** Several regions *)

Definition apart (r r' : PhysRegion) : Prop :=
  base r + allocatable r <= base r' \/ base r' + allocatable r' <= base r.
Fixpoint disjoint_regions (l : list PhysRegion) : Prop :=
  match l with
  | [] => True
  | r :: l => Forall (apart r) l /\ disjoint_regions l
  end.

Lemma apart_geom r r' s s' : geom r = geom r' -> geom s = geom s' -> apart r s -> apart r' s'.
Proof. intros [= E1 _ E2 _] [= E3 _ E4 _]. unfold apart. rewrite E1, E2, E3, E4. done. Qed.
Lemma geom_cons s l s' l' : geom <$> s :: l = geom <$> s' :: l' -> geom s = geom s' /\ geom <$> l = geom <$> l'.
Proof. rewrite !fmap_cons. generalize (geom s) (geom s') (geom <$> l) (geom <$> l'). intros ? ? ? ? [= -> ->]. done. Qed.
Lemma Forall_apart_geom r r' l l' : geom r = geom r' -> geom <$> l = geom <$> l' -> Forall (apart r) l -> Forall (apart r') l'.
Proof.
  revert l'. induction l as [|s l IH]; intros [|s' l'] Er El Hl; try done.
  apply geom_cons in El as [Es El]. apply Forall_cons in Hl as [Hs Hl]. constructor; [by apply (apart_geom r r' s s')|]. by apply IH.
Qed.
Lemma disjoint_geom l l' : geom <$> l = geom <$> l' -> disjoint_regions l -> disjoint_regions l'.
Proof.
  revert l'. induction l as [|s l IH]; intros [|s' l'] El Hl; try done. apply geom_cons in El as [Es El].
  destruct Hl as [H1 H2]. split; [by apply (Forall_apart_geom s s' l l')|auto].
Qed.
Lemma disjoint_app l1 l2 :
  disjoint_regions (l1 ++ l2) <-> disjoint_regions l1 /\ disjoint_regions l2 /\ forall r s, r ∈ l1 -> s ∈ l2 -> apart r s.
Proof.
  induction l1 as [|r l1 IH]; cbn.
  - split; [|tauto]. intros H. split; [done|]. split; [done|]. intros r s Hr. by apply elem_of_nil in Hr.
  - rewrite IH, Forall_app. split.
    + intros ((H1 & H2) & H3 & H4 & H5). split; [done|]. split; [done|]. intros r' s [->|Hr']%elem_of_cons Hs; [|auto].
      by eapply Forall_forall in H2.
    + intros ((H1 & H3) & H4 & H5). split; [split; [done|]|].
      * apply Forall_forall. intros s Hs. apply H5; [by left|done].
      * split; [done|]. split; [done|]. intros r' s Hr' Hs. apply H5; [by right|done].
Qed.

Lemma apart_managed r s a : region_ok r -> region_ok s -> apart r s -> managed r a -> checkAddress s a = false.
Proof.
  intros Hr Hs Ha (p & Hp & ->). destruct (page_address r p Hr Hp) as (_ & _ & Hb).
  unfold checkAddress. rewrite region_end by done. apply andb_false_iff. unfold apart in Ha.
  destruct Ha; [left|right]; blia.
Qed.
Lemma apart_no_page r s a : region_ok r -> region_ok s -> apart r s -> managed r a -> ~ managed s a.
Proof. intros Hr Hs Ha Hm Hm'. pose proof (apart_managed r s a Hr Hs Ha Hm). by rewrite managed_check in *. Qed.

Lemma allocated_app_l l1 l2 a l1' :
  allocated l1 a l1' -> a <> 0 -> Forall region_ok l1 -> Forall region_ok l2 ->
  (forall r s, r ∈ l1 -> s ∈ l2 -> apart r s) -> allocated (l1 ++ l2) a (l1' ++ l2).
Proof.
  intros (Hg & Hok & [[? _]|(_ & Ha & Hx)]) Hne H1 H2 Hap; [done|].
  split; [by rewrite !fmap_app, Hg|]. split; [by apply Forall_app|]. right. split; [done|].
  split; [apply free_in_app; by left|]. intros x. rewrite !free_in_app, Hx.
  assert (free_in l2 x -> x <> a) as Hxa; [|tauto].
  intros (s & Hs & Hps) ->. destruct Ha as (r & Hr & Hpr). rewrite Forall_forall in H1, H2.
  eapply (apart_no_page r s a); eauto using page_free_managed.
Qed.
Lemma allocated_app_r l1 l2 a l1' l2' :
  allocated l1 0 l1' -> allocated l2 a l2' -> allocated (l1 ++ l2) a (l1' ++ l2').
Proof.
  intros (Hg & Hok & [(_ & Hn & Hn')|[? _]]) (Hg2 & Hok2 & H2); [|done].
  split; [by rewrite !fmap_app, Hg, Hg2|]. split; [by apply Forall_app|].
  destruct H2 as [(-> & Hn2 & Hn2')|(Hne & Ha & Hx)]; [left|right]; (split; [done|]).
  - split; intros x; rewrite free_in_app; naive_solver.
  - split; [apply free_in_app; by right|]. intros x. rewrite !free_in_app, Hx. naive_solver.
Qed.

Lemma alloc_chain_ok l :
  Forall region_ok l -> disjoint_regions l -> exists a l', alloc_chain l = Ok (a, l') /\ allocated l a l'.
Proof.
  induction l as [|r l IH]; intros Hok Hd; cbn [alloc_chain].
  - exists 0, []. split; [done|]. split; [done|]. split; [done|]. left. split; [done|].
    split; intros x (r & Hr & _); by apply elem_of_nil in Hr.
  - apply Forall_cons in Hok as [Hr Hl]. destruct Hd as [Hap Hd]. rewrite Forall_forall in Hap.
    destruct (region_alloc_ok r Hr) as (a & r' & -> & Ha). cbn [mbind res_bind].
    destruct (Z.eqb_spec a 0) as [->|Hne]; cbn [negb].
    + destruct (IH Hl Hd) as (a & l' & -> & Hl'). cbn [mbind res_bind]. exists a, (r' :: l'). split; [done|].
      by apply (allocated_app_r [r] l a [r'] l').
    + exists a, (r' :: l). split; [done|]. apply (allocated_app_l [r] l a [r']); [done|done|by apply Forall_singleton|done|].
      intros r0 s ->%list_elem_of_singleton Hs. auto.
Qed.

Lemma alloc_regions_ok l :
  Forall region_ok (concat l) -> disjoint_regions (concat l) ->
  exists a l', alloc_regions l = Ok (a, l') /\ allocated (concat l) a (concat l').
Proof.
  induction l as [|c l IH]; intros Hok Hd; cbn [alloc_regions concat] in *.
  - exists 0, []. split; [done|]. split; [done|]. split; [done|]. left. split; [done|].
    split; intros x (r & Hr & _); by apply elem_of_nil in Hr.
  - apply Forall_app in Hok as [Hc Hl]. apply disjoint_app in Hd as (Hdc & Hdl & Hap).
    destruct (alloc_chain_ok c Hc Hdc) as (a & c' & -> & Ha). cbn [mbind res_bind].
    destruct (Z.eqb_spec a 0) as [->|Hne]; cbn [negb].
    + destruct (IH Hl Hdl) as (a & l' & -> & Hl'). cbn [mbind res_bind]. exists a, (c' :: l'). split; [done|].
      by apply allocated_app_r.
    + exists a, (c' :: l). split; [done|]. by apply allocated_app_l.
Qed.

Definition managed_in (l : list PhysRegion) (x : Z) : Prop := exists r, r ∈ l /\ managed r x.
(** Freeing page [a] of the regions [l] leaves [l']. *)
Definition freed (l : list PhysRegion) (a : Z) (l' : list PhysRegion) : Prop :=
  geom <$> l' = geom <$> l /\ Forall region_ok l' /\ forall x, free_in l' x <-> free_in l x \/ x = a.

Lemma free_chain_other l a : (forall r, r ∈ l -> checkAddress r a = false) -> free_chain l a = Ok None.
Proof.
  induction l as [|r l IH]; intros H; cbn [free_chain]; [done|]. rewrite (H r) by by left.
  rewrite IH; [done|]. intros s Hs. apply H. by right.
Qed.

Lemma freed_app_l l1 l2 a l1' : freed l1 a l1' -> Forall region_ok l2 -> freed (l1 ++ l2) a (l1' ++ l2).
Proof.
  intros (Hg & Hok & Hx) H2. split; [by rewrite !fmap_app, Hg|]. split; [by apply Forall_app|].
  intros x. rewrite !free_in_app, Hx. tauto.
Qed.
Lemma freed_app_r l1 l2 a l2' : freed l2 a l2' -> Forall region_ok l1 -> freed (l1 ++ l2) a (l1 ++ l2').
Proof.
  intros (Hg & Hok & Hx) H2. split; [by rewrite !fmap_app, Hg|]. split; [by apply Forall_app|].
  intros x. rewrite !free_in_app, Hx. tauto.
Qed.

Lemma free_chain_ok l a :
  Forall region_ok l -> disjoint_regions l -> managed_in l a ->
  exists l', free_chain l a = Ok (Some l') /\ freed l a l'.
Proof.
  induction l as [|r l IH]; intros Hok Hd (s & Hs & Hm); [by apply elem_of_nil in Hs|]. cbn [free_chain].
  apply Forall_cons in Hok as [Hr Hl]. destruct Hd as [Hap Hd]. rewrite Forall_forall in Hap.
  apply elem_of_cons in Hs as [->|Hs].
  - rewrite (managed_check r a Hr Hm). destruct (region_free_ok r a Hr Hm) as (r' & -> & Hr' & Eg & Hx).
    cbn [mbind res_bind]. exists (r' :: l). split; [done|]. apply (freed_app_l [r] l a [r']); [|done].
    split; [cbn; by rewrite Eg|]. split; [by apply Forall_singleton|]. intros x. by rewrite !free_in_one.
  - assert (region_ok s) as Hsok by (by eapply Forall_forall in Hl).
    assert (apart s r) as Has by (destruct (Hap s Hs); [by right|by left]).
    rewrite (apart_managed s r a Hsok Hr Has Hm).
    destruct (IH Hl Hd) as (l' & -> & Hf); [by exists s|]. cbn. exists (r :: l'). split; [done|].
    apply (freed_app_r [r] l a l'); [done|by apply Forall_singleton].
Qed.

Lemma free_regions_ok l a :
  Forall region_ok (concat l) -> disjoint_regions (concat l) -> managed_in (concat l) a ->
  exists l', free_regions l a = Ok (Some l') /\ freed (concat l) a (concat l').
Proof.
  induction l as [|c l IH]; intros Hok Hd (s & Hs & Hm); cbn [free_regions concat] in *; [by apply elem_of_nil in Hs|].
  apply Forall_app in Hok as [Hc Hl]. apply disjoint_app in Hd as (Hdc & Hdl & Hap).
  apply elem_of_app in Hs as [Hs|Hs].
  - destruct (free_chain_ok c a Hc Hdc) as (c' & -> & Hf); [by exists s|]. cbn [mbind res_bind].
    exists (c' :: l). split; [done|]. by apply freed_app_l.
  - rewrite free_chain_other. 2:{ intros r Hr. rewrite Forall_forall in Hc, Hl.
      apply (apart_managed s r); auto. destruct (Hap r s Hr Hs); [by right|by left]. }
    cbn [mbind res_bind]. destruct (IH Hl Hdl) as (l' & -> & Hf); [by exists s|]. cbn. exists (c :: l').
    split; [done|]. by apply freed_app_r.
Qed.

(** ** Construction *)

(** A region of the memory from [lo] to [hi] with all its pages free. *)
Definition fresh_region (lo hi : Z) (r : PhysRegion) : Prop :=
  region_ok r /\ lo <= base r /\ base r + allocatable r <= hi /\ (forall x, managed r x -> page_free r x).

Lemma commonInit_ok b l n :
  kMinPages <= n <= kMaxPages -> 0 < b -> b + n * arch_page_size < 2 ^ 64 ->
  exists r, commonInit b l n = Ok r /\ base r = b /\ len r = l /\ allocatable r = n * arch_page_size /\
    fresh_region b (b + n * arch_page_size) r.
Proof.
  unfold kMinPages, kMaxPages, arch_page_size. intros Hn Hb He. unfold commonInit, REQUIRE, kMaxPages.
  replace (n <=? 24576) with true by blia. cbn [mbind res_bind]. unfold arch_page_size.
  assert (u64 (n - 1) = n - 1) as -> by (apply wrap_small; mlia).
  assert (u64 (n * 4096) = n * 4096) as -> by (apply wrap_small; mlia).
  destruct (init_loop_ok (Z.to_nat (n - 1)) 0 (replicate bitmapWords 0)) as (bm & -> & Hbm & Eb).
  { split; [apply length_replicate|]. apply Forall_replicate. mlia. }
  { lia. }
  { unfold kMaxPages. lia. }
  assert (forall q, 0 <= q < kMaxPages -> bit (replicate bitmapWords 0) q = false) as Hz.
  { intros q Hq. unfold bit. pose proof (page_word q Hq). rewrite lookup_total_replicate_2 by lia. apply Z.testbit_0_l. }
  assert (forall q, 0 <= q < kMaxPages -> bit bm q = (q <? n - 1)) as Eq.
  { intros q Hq. rewrite Eb, Hz, orb_false_r by (done || lia). rewrite Z2Nat.id by lia.
    destruct (Z.leb_spec 0 q), (Z.ltb_spec q (0 + (n - 1))), (Z.ltb_spec q (n - 1)); cbn; (done || lia). }
  cbn [mbind res_bind]. eexists. split; [done|]. cbn. split; [done|]. split; [done|]. split; [done|].
  split; [|cbn; split; [lia|split; [lia|]]].
  - split; cbn; unfold kMaxPages, arch_page_size in *; try done; try lia.
    intros q Hq. rewrite Eq by (unfold kMaxPages; lia). blia.
  - cbn. intros x (p & Hp & ->). exists p. cbn in *. split; [done|]. split; [done|]. rewrite Eq by (unfold kMaxPages; lia). blia.
Qed.

Lemma newRegion_ok b l :
  0 < b -> b + l < 2 ^ 64 -> CanAllocate l = true ->
  exists r, newRegion b l = Ok r /\ base r = b /\ len r = l /\ fresh_region b (b + l) r /\
    (allocatable r mod arch_page_size = 0 /\ allocatable r <= l).
Proof.
  unfold CanAllocate, newRegion. intros Hb He Hc. apply Z.ltb_lt in Hc. change (u64 _) with 16384 in Hc.
  pose proof (Z.mod_pos_bound l 4096 ltac:(lia)) as Hm. pose proof (Z.div_mod l 4096 ltac:(lia)) as Hd.
  unfold arch_page_size, REQUIRE, kMinPages. assert (4 <= l / 4096) by (apply Z.div_le_lower_bound; lia).
  replace (4 <=? l / 4096) with true by blia. cbn [mbind res_bind].
  set (n := if kMaxPages <? l / 4096 then kMaxPages else l / 4096).
  assert (4 <= n <= kMaxPages /\ n <= l / 4096) as [Hn Hn2].
  { unfold n, kMaxPages. destruct (Z.ltb_spec 24576 (l / 4096)); lia. }
  destruct (commonInit_ok b l n) as (r & -> & E1 & E2 & E3 & Hf & H1 & H2 & H3); [done|done|unfold arch_page_size; lia|].
  unfold arch_page_size in *. exists r. split; [done|]. split; [done|]. split; [done|].
  split; [split; [done|]; split; [lia|]; split; [lia|done]|]. split; [rewrite E3; apply Z.mod_mul; lia|lia].
Qed.

Lemma childRegion_eq this offset :
  offset mod arch_page_size = 0 ->
  childRegion this offset = newRegion (u64 (base this + offset)) (u64 (len this - offset)).
Proof. intros E. unfold childRegion, newRegion, REQUIRE. by rewrite E. Qed.

(** The regions of a chain, from [lo] to [hi]. *)
Definition fresh_chain (lo hi : Z) (l : list PhysRegion) : Prop :=
  Forall (fresh_region lo hi) l /\ disjoint_regions l.

(** Regions that follow one another from [lo] and leave at most four pages
    before [hi]. *)
Fixpoint contiguous (lo hi : Z) (l : list PhysRegion) : Prop :=
  match l with
  | [] => 0 <= hi - lo <= arch_page_size * kMinPages
  | r :: l => base r = lo /\ contiguous (lo + allocatable r) hi l
  end.

(** The further regions of a head region: the loop ends, and they lie one
    behind the other in the memory that is left. *)
Lemma next_loop_ok fuel : forall this offset remaining,
  0 < base this -> base this + len this < 2 ^ 64 -> offset mod arch_page_size = 0 -> 0 <= offset ->
  remaining = len this - offset -> 0 <= remaining -> remaining < Z.of_nat fuel * (arch_page_size * kMinPages) ->
  exists l, next_loop fuel this offset remaining = Ok l /\ fresh_chain (base this + offset) (base this + len this) l /\
    contiguous (base this + offset) (base this + len this) l.
Proof.
  induction fuel as [|fuel IH]; intros this offset remaining Hb He Hm Ho Hr Hr0 Hf; [lia|]. cbn [next_loop].
  destruct (CanAllocate remaining) eqn:Hc.
  2:{ apply Z.ltb_ge in Hc. change (u64 _) with (arch_page_size * kMinPages) in Hc.
      exists []; split; [done|split; [split; [constructor|done]|cbn; lia]]. }
  assert (u64 (base this + offset) = base this + offset /\ u64 (len this - offset) = len this - offset) as [E1 E2].
  { split; apply wrap_small; mlia. }
  rewrite (childRegion_eq this offset Hm), E1, E2.
  destruct (newRegion_ok (base this + offset) (len this - offset)) as (r & -> & Eb & El & Hfr & Ham & Hle); [lia|lia|by rewrite <- Hr|].
  cbn [mbind res_bind]. pose proof (r_alloc _ (proj1 Hfr)) as Ha. pose proof (r_max _ (proj1 Hfr)) as Hmx.
  unfold arch_page_size, kMinPages in *.
  assert (u64 (offset + allocatable r) = offset + allocatable r) as -> by (apply wrap_small; mlia).
  assert (u64 (remaining - allocatable r) = remaining - allocatable r) as -> by (apply wrap_small; mlia).
  destruct (IH this (offset + allocatable r) (remaining - allocatable r)) as (l & -> & [Hl Hd] & Hcont); try lia.
  { rewrite Z.add_mod, Hm, Ham by lia. done. }
  cbn [mbind res_bind]. exists (r :: l). split; [done|]. destruct Hfr as (Hok & H1 & H2 & H3).
  split; [|cbn; split; [done|]; by rewrite <- Z.add_assoc].
  split; [constructor|split; [|done]].
  - split; [done|]. split; [lia|]. split; [lia|done].
  - eapply Forall_impl; [exact Hl|]. intros s (Hs & Hs1 & Hs2 & Hs3). split; [done|]. split; [lia|]. split; [lia|done].
  - eapply Forall_impl; [exact Hl|]. intros s (Hs & Hs1 & Hs2 & Hs3). left. lia.
Qed.

Lemma initNextIfNeeded_ok r :
  fresh_region (base r) (base r + len r) r -> allocatable r mod arch_page_size = 0 -> allocatable r <= len r ->
  base r + len r < 2 ^ 64 ->
  exists l, initNextIfNeeded r = Ok l /\ fresh_chain (base r) (base r + len r) (r :: l) /\
    contiguous (base r) (base r + len r) (r :: l).
Proof.
  intros Hf Hm Hle He. pose proof (r_base _ (proj1 Hf)) as Hb. pose proof (r_alloc _ (proj1 Hf)) as Ha.
  pose proof (r_max _ (proj1 Hf)) as Hmx. unfold initNextIfNeeded, REQUIRE. rewrite Hm. cbn [Z.eqb mbind res_bind].
  assert (u64 (len r - allocatable r) = len r - allocatable r) as ->.
  { apply wrap_small. unfold arch_page_size in *. mlia. }
  assert (fresh_chain (base r) (base r + len r) [r]) as Hone.
  { split; [by apply Forall_singleton|split; [constructor|done]]. }
  destruct ((len r - allocatable r =? 0) || negb (CanAllocate (len r - allocatable r))) eqn:Hc.
  { exists []. split; [done|]. split; [done|]. cbn. split; [done|]. apply orb_true_iff in Hc as [Hc|Hc].
    - apply Z.eqb_eq in Hc. unfold arch_page_size, kMinPages. lia.
    - apply negb_true_iff, Z.ltb_ge in Hc. change (u64 _) with (arch_page_size * kMinPages) in Hc. lia. }
  destruct (next_loop_ok (next_fuel r) r (allocatable r) (len r - allocatable r)) as (l & -> & [Hl Hd] & Hcont); try done; try lia.
  { unfold arch_page_size in *. lia. }
  { unfold next_fuel, arch_page_size, kMinPages in *. rewrite Nat2Z.inj_succ, Z2Nat.id by (apply Z.div_pos; lia).
    pose proof (Z.div_mod (len r) (4096 * 4)). pose proof (Z.mod_pos_bound (len r) (4096 * 4)). lia. }
  exists l. split; [done|]. split; [|by cbn].
  split; [constructor; [done|]|split; [|done]].
  - eapply Forall_impl; [exact Hl|]. intros s (Hs & Hs1 & Hs2 & Hs3). split; [done|]. unfold arch_page_size in *. split; [lia|]. split; [lia|done].
  - eapply Forall_impl; [exact Hl|]. intros s (Hs & Hs1 & Hs2 & Hs3). left. lia.
Qed.

(** ** The allocator *)

(** A memory map whose entries do not overlap or wrap around, and do not
    include page 0. *)
Definition entry_ok (e : Z * Z) : Prop := 0 < e.1 /\ 0 <= e.2 /\ e.1 + e.2 < 2 ^ 64.
Fixpoint map_ok (map : list (Z * Z)) : Prop :=
  match map with
  | [] => True
  | e :: map => entry_ok e /\ Forall (fun f => e.1 + e.2 <= f.1 \/ f.1 + f.2 <= e.1) map /\ map_ok map
  end.
Definition suitable (map : list (Z * Z)) : nat := length (filter (fun e => CanAllocate e.2 = true) map).

Definition inside (map : list (Z * Z)) (r : PhysRegion) : Prop :=
  exists e, e ∈ map /\ e.1 <= base r /\ base r + allocatable r <= e.1 + e.2 /\ (base r - e.1) mod arch_page_size = 0.

Lemma contiguous_aligned l : forall lo hi,
  contiguous lo hi l -> Forall region_ok l -> Forall (fun r => (base r - lo) mod arch_page_size = 0) l.
Proof.
  induction l as [|r l IH]; intros lo hi Hc Ho; [constructor|]. destruct Hc as [Eb Hc].
  apply Forall_cons in Ho as [Hr Ho]. constructor; [by rewrite Eb, Z.sub_diag|].
  eapply Forall_impl; [by eapply IH|]. intros s Hs. cbn in Hs. rewrite (r_alloc _ Hr) in Hs.
  replace (base s - lo) with ((base s - (lo + (bitmapMax r + 1) * arch_page_size)) + (bitmapMax r + 1) * arch_page_size) by lia.
  by rewrite Z.mod_add by done.
Qed.

(** The two phases of the construction: one region per suitable entry, then
    the chains. *)
Lemma create_notify_ok map : forall n,
  map_ok map -> (n + suitable map <= kMaxRegions)%nat ->
  exists rs rs', create_regions map n = Ok rs /\ length rs = suitable map /\ notify_loop rs = Ok rs' /\
    Forall (fun r => region_ok r /\ (forall x, managed r x -> page_free r x) /\ inside map r) (concat rs') /\
    disjoint_regions (concat rs').
Proof.
  induction map as [|[b l] map IH]; intros n Hm Hn; cbn [create_regions].
  { by exists [], []. }
  destruct Hm as (He & Hap & Hm). unfold suitable in Hn |- *. rewrite filter_cons in Hn |- *. cbn [snd] in *.
  assert (forall rs', Forall (fun r => region_ok r /\ (forall x, managed r x -> page_free r x) /\ inside map r) rs' ->
    Forall (fun r => region_ok r /\ (forall x, managed r x -> page_free r x) /\ inside ((b, l) :: map) r) rs') as Hmono.
  { intros rs' H. eapply Forall_impl; [exact H|]. intros r (H1 & H2 & e & He' & H3). split; [done|]. split; [done|].
    exists e. split; [by right|done]. }
  destruct (CanAllocate l) eqn:Hc.
  - rewrite decide_True in Hn |- * by done. cbn [length] in *. unfold REQUIRE.
    rewrite (proj2 (Nat.ltb_lt _ _)) by (unfold suitable in *; lia). cbn [mbind res_bind].
    destruct He as (He1 & He2 & He3). cbn in He1, He2, He3.
    destruct (newRegion_ok b l He1 He3 Hc) as (r & -> & Eb & El & Hfr & Ham & Hle). cbn [mbind res_bind].
    destruct (IH (S n) Hm) as (rs & rs' & -> & El' & Enl & Hall & Hdis); [unfold suitable; lia|]. cbn [mbind res_bind].
    exists ([r] :: rs). cbn [notify_loop]. rewrite <- Eb, <- El in Hfr.
    destruct (initNextIfNeeded_ok r Hfr Ham) as (ch & -> & [Hch Hcd] & Hco); [lia|lia|]. cbn [mbind res_bind]. rewrite Enl. cbn [mbind res_bind].
    exists ((r :: ch) :: rs'). split; [done|]. split; [cbn; by rewrite El'|]. split; [done|]. cbn [concat].
    rewrite Eb, El in Hch. split.
    + apply Forall_app. split; [|by apply Hmono].
      pose proof (contiguous_aligned _ _ _ Hco (Forall_impl _ _ _ Hch (fun s H => proj1 H))) as Hal. rewrite Eb in Hal.
      rewrite Forall_forall in Hch, Hal |- *. intros s Hs. destruct (Hch s Hs) as (H1 & H2 & H3 & H4).
      split; [done|]. split; [done|]. exists (b, l). split; [by left|]. split; [done|]. split; [done|by apply Hal].
    + apply disjoint_app. split; [done|]. split; [done|]. intros s t Hs Ht.
      destruct (proj1 (Forall_forall _ _) Hch s Hs) as (_ & H2 & H3 & _).
      destruct (proj1 (Forall_forall _ _) Hall t Ht) as (_ & _ & e & He' & H4 & H5 & _).
      destruct (proj1 (Forall_forall _ _) Hap e He') as [H6|H6]; cbn in H6; [left|right]; lia.
  - rewrite decide_False in Hn |- * by congruence.
    destruct (IH n Hm Hn) as (rs & rs' & -> & El' & Enl & Hall & Hdis). exists rs, rs'. split_and!; try done. by apply Hmono.
Qed.

(** ** Clients *)

(** A client allocates pages and frees pages that it holds. *)
Inductive pop := PAlloc | PFree (a : Z).

Definition phys_step (s : PhysicalAllocator * gset Z) (o : pop) : res (PhysicalAllocator * gset Z) :=
  match o with
  | PAlloc =>
      '(page, a) ← allocPage s.1;
      Ok (a, if page =? 0 then s.2 else {[page]} ∪ s.2)
  | PFree x =>
      if decide (x ∈ s.2) then a ← freePage s.1 x; Ok (a, s.2 ∖ {[x]}) else Ok s
  end.
Fixpoint phys_run (s : PhysicalAllocator * gset Z) (l : list pop) : res (PhysicalAllocator * gset Z) :=
  match l with
  | [] => Ok s
  | o :: l => s ← phys_step s o; phys_run s l
  end.

Definition phys_managed (a : PhysicalAllocator) (x : Z) : Prop := managed_in (concat (regions a)) x.
Definition phys_free (a : PhysicalAllocator) (x : Z) : Prop := free_in (concat (regions a)) x.

(** Every managed page is either free or held by the client, and the counter
    counts the held ones. *)
Record phys_inv (M : Z -> Prop) (s : PhysicalAllocator * gset Z) : Prop := {
  pi_ok : Forall region_ok (concat (regions s.1));
  pi_disjoint : disjoint_regions (concat (regions s.1));
  pi_managed : forall x, phys_managed s.1 x <-> M x;
  pi_split : forall x, M x <-> phys_free s.1 x \/ x ∈ s.2;
  pi_excl : forall x, phys_free s.1 x -> x ∉ s.2;
  pi_count : allocatedPages s.1 = u64 (Z.of_nat (size s.2))
}.

Lemma managed_in_geom l l' x : geom <$> l = geom <$> l' -> managed_in l x -> managed_in l' x.
Proof.
  revert l'. induction l as [|s l IH]; intros [|s' l'] E; try done. apply geom_cons in E as [Es El].
  intros (r & [->|Hr]%elem_of_cons & Hm).
  - exists s'. split; [by left|]. by apply (managed_geom s).
  - destruct (IH l' El) as (r' & Hr' & Hm'); [by exists r|]. exists r'. split; [by right|done].
Qed.

(** The pages a changed list of regions manages are the same. *)
Lemma inv_geom M s l n held :
  phys_inv M s -> geom <$> concat l = geom <$> concat (regions s.1) -> Forall region_ok (concat l) ->
  (forall x, M x <-> free_in (concat l) x \/ x ∈ held) -> (forall x, free_in (concat l) x -> x ∉ held) ->
  n = u64 (Z.of_nat (size held)) ->
  phys_inv M ({| regions := l; allocatedPages := n |}, held).
Proof.
  intros I Hg Hok Hs He Hn. split; cbn; try done.
  - by eapply disjoint_geom; [symmetry|apply I].
  - intros x. rewrite <- (pi_managed _ _ I). split; intros H; by eapply managed_in_geom.
Qed.

Lemma allocPage_ok M s :
  phys_inv M s ->
  exists page a, allocPage s.1 = Ok (page, a) /\
    if page =? 0 then phys_inv M (a, s.2) /\ (forall x, M x -> x ∈ s.2)
    else M page /\ page ∉ s.2 /\ phys_inv M (a, {[page]} ∪ s.2).
Proof.
  intros I. pose proof I as [H1 H2 H3 H4 H5 H6]. unfold allocPage.
  destruct (alloc_regions_ok (regions s.1) H1 H2) as (page & l & -> & Hg & Hok & Ha). cbn [mbind res_bind].
  eexists page, _. split; [done|]. unfold phys_free in *.
  destruct Ha as [(-> & Hn & Hn')|(Hne & Hf & Hx)].
  - cbn. split.
    + apply (inv_geom M s); try done; intros x; [rewrite H4|]; naive_solver.
    + intros x Hx. apply H4 in Hx. naive_solver.
  - destruct (Z.eqb_spec page 0); [done|]. pose proof (H5 _ Hf) as Hp.
    split; [apply H4; by left|]. split; [done|]. apply (inv_geom M s); try done.
    + intros x. rewrite Hx, H4, elem_of_union, elem_of_singleton. destruct (decide (x = page)) as [->|]; naive_solver.
    + intros x. rewrite Hx. intros [Hfx Hxp]. specialize (H5 x Hfx). set_solver.
    + rewrite H6. unfold u64. rewrite wrap_add_l, size_union by set_solver. rewrite size_singleton. f_equal. lia.
Qed.

Lemma freePage_ok M s x :
  phys_inv M s -> x ∈ s.2 -> exists a, freePage s.1 x = Ok a /\ phys_inv M (a, s.2 ∖ {[x]}).
Proof.
  intros I Hx. pose proof I as [H1 H2 H3 H4 H5 H6]. unfold freePage.
  destruct (free_regions_ok (regions s.1) x H1 H2) as (l & -> & Hg & Hok & Hf).
  { apply H3, H4. by right. }
  cbn [mbind res_bind]. eexists. split; [done|]. unfold phys_free in *. apply (inv_geom M s); try done.
  - intros y. rewrite Hf, H4, elem_of_difference, elem_of_singleton. destruct (decide (y = x)) as [->|]; naive_solver.
  - intros y. rewrite Hf. intros [Hy| ->]; [specialize (H5 y Hy)|]; set_solver.
  - rewrite H6. unfold u64, wrap. rewrite Zminus_mod_idemp_l. f_equal.
    assert (size s.2 = S (size (s.2 ∖ {[x]}))) as ->; [|lia].
    rewrite size_difference by set_solver. rewrite size_singleton.
    assert (size s.2 <> 0%nat); [|lia]. rewrite size_non_empty_iff. set_solver.
Qed.

Lemma phys_run_ok M l : forall s, phys_inv M s -> exists s', phys_run s l = Ok s' /\ phys_inv M s'.
Proof.
  induction l as [|o l IH]; intros s I; cbn [phys_run]; [by exists s|]. destruct o as [|x]; cbn [phys_step].
  - destruct (allocPage_ok M s I) as (page & a & -> & H). cbn [mbind res_bind].
    destruct (page =? 0); apply IH; tauto.
  - destruct (decide (x ∈ s.2)) as [Hx|]; [|by apply IH].
    destruct (freePage_ok M s x I Hx) as (a & -> & H). cbn [mbind res_bind]. by apply IH.
Qed.

(** The allocator as the kernel sets it up. *)
Definition boot (map : list (Z * Z)) : res PhysicalAllocator :=
  a ← newPhysicalAllocator map; notifyRegionsVm a.

Lemma boot_ok map :
  map_ok map -> (1 <= suitable map <= kMaxRegions)%nat ->
  exists a, boot map = Ok a /\ phys_inv (phys_managed a) (a, ∅) /\
    (forall x, phys_managed a x ->
       exists e, e ∈ map /\ e.1 <= x /\ x + arch_page_size <= e.1 + e.2 /\ (x - e.1) mod arch_page_size = 0).
Proof.
  intros Hm Hn. destruct (create_notify_ok map 0 Hm ltac:(lia)) as (rs & rs' & Ec & El & En & Hall & Hd).
  unfold boot, newPhysicalAllocator, notifyRegionsVm. rewrite Ec. cbn [mbind res_bind]. unfold REQUIRE.
  destruct (Nat.eqb_spec (length rs) 0); [lia|]. cbn [negb mbind res_bind regions]. rewrite En. cbn [mbind res_bind].
  eexists. split; [done|]. rewrite Forall_forall in Hall. split.
  - split; cbn; try done.
    + apply Forall_forall. intros r Hr. by apply Hall.
    + intros x. unfold phys_managed, phys_free, managed_in, free_in. cbn. split.
      * intros (r & Hr & Hx). left. exists r. split; [done|]. by apply Hall.
      * intros [(r & Hr & Hx)|Hx]; [|set_solver]. exists r. split; [done|]. by apply page_free_managed.
  - intros x (r & Hr & p & Hp & ->). destruct (Hall r Hr) as (Hok & _ & e & He & H1 & H2 & H3). exists e. split; [done|].
    pose proof (r_alloc _ Hok) as Ha. replace (base r + p * arch_page_size - e.1) with ((base r - e.1) + p * arch_page_size) by lia.
    rewrite Z.mod_add by done. unfold arch_page_size in *. lia.
Qed.



(** Chaining terminates.  For every usable stretch of memory, the head region
    and the loop that appends further regions of at most 24576 pages give a chain
    of regions that follow one another from the start of the memory, with every
    page they manage free, and leave at most four pages at its end. *)
Theorem region_chain_terminates (b l : Z) :
  0 < b -> b + l < 2 ^ 64 -> CanAllocate l = true ->
  exists r rest, newRegion b l = Ok r /\ initNextIfNeeded r = Ok rest /\
    contiguous b (b + l) (r :: rest) /\ disjoint_regions (r :: rest) /\
    Forall (fun r => region_ok r /\ forall x, managed r x -> page_free r x) (r :: rest).
Proof.
  intros Hb He Hc. destruct (newRegion_ok b l Hb He Hc) as (r & Er & Eb & El & Hf & Ham & Hle).
  rewrite <- Eb, <- El in Hf, He |- *. destruct (initNextIfNeeded_ok r Hf Ham) as (rest & En & [Hall Hd] & Hcont); [lia|lia|].
  exists r, rest. split; [by rewrite Eb, El|]. split; [done|]. split; [done|]. split; [done|].
  eapply Forall_impl; [exact Hall|]. intros s (H1 & _ & _ & H2). done.
Qed.

(** The last page of a region is lost.  A region counts [n] pages as its own,
    but its bitmap ends before the last of them: that page is not managed, and
    freeing it, although the address check accepts it, is a panic. *)
Theorem region_last_page (b l : Z) :
  0 < b -> b + l < 2 ^ 64 -> CanAllocate l = true ->
  exists r, newRegion b l = Ok r /\
    let last := base r + allocatable r - arch_page_size in
    checkAddress r last = true /\ ~ managed r last /\ region_free r [last] 0 = Panic.
Proof.
  intros Hb He Hc. destruct (newRegion_ok b l Hb He Hc) as (r & -> & _ & _ & (Hok & _) & _).
  exists r. split; [done|]. cbn zeta. pose proof (r_alloc _ Hok) as Ha. pose proof (r_max _ Hok) as Hm.
  set (last := base r + allocatable r - arch_page_size).
  assert (last = base r + bitmapMax r * arch_page_size) as El by (unfold last, arch_page_size in *; lia).
  assert (checkAddress r last = true) as Hck.
  { unfold checkAddress. rewrite region_end by done. unfold arch_page_size in *. apply andb_true_intro. split; blia. }
  split; [done|]. split.
  - intros (p & Hp & E). unfold arch_page_size in *. lia.
  - cbn [region_free]. rewrite Hck, El. replace (base r + bitmapMax r * arch_page_size - base r) with (bitmapMax r * arch_page_size) by lia.
    unfold u64, kMaxPages, arch_page_size in *. rewrite wrap_small by mlia. rewrite Z.div_mul by lia.
    unfold REQUIRE. by rewrite Z.ltb_irrefl.
Qed.

Lemma region_chain_terminates_witness :
  exists r rest, newRegion 4096 (10 * 4096) = Ok r /\ initNextIfNeeded r = Ok rest /\
    contiguous 4096 (4096 + 10 * 4096) (r :: rest).
Proof.
  destruct (region_chain_terminates 4096 (10 * 4096)) as (r & rest & E1 & E2 & E3 & _); [lia|lia|reflexivity|].
  by exists r, rest.
Defined.

Lemma region_last_page_witness :
  exists r, newRegion 4096 (10 * 4096) = Ok r /\ checkAddress r 40960 = true /\ region_free r [40960] 0 = Panic.
Proof.
  destruct (region_last_page 4096 (10 * 4096)) as (r & E & H); [lia|lia|reflexivity|].
  exists r. split; [exact E|]. vm_compute in E. injection E as <-. split; apply H.
Defined.
