(* ===== verification/PageTable.v ===== *)
(** * Page tables of x86_64 (kernel/arch/x86_64/src/vm/PTEHandler.cpp)

    The page tables of all address spaces lie in one physical memory of 64-bit
    words.  A handler is known by a number; the kernel's handler is the parent of
    the others, which share its upper half.  Tables are pages of the physical
    allocator (file PhysMem).  Whether the processor supports no-execute is an
    argument.  Left out: the TLB, the control register and logging. *)

From S2P Require Import Prelude PhysMem.
Open Scope mach_scope.

(** ** Constants (PTEHandler.h) *)

Definition Present : Z := 1 << 0.
Definition Writable : Z := 1 << 1.
Definition UserAccess : Z := 1 << 2.
Definition Accessed : Z := 1 << 5.
Definition Dirty : Z := 1 << 6.
Definition Global : Z := 1 << 8.
Definition NoExecute : Z := 1 << 63.
(** All of these with PWT, PCD and PAT. *)
Definition FlagsMask : Z := 0x80000000000001FF.

Definition Success : Z := 0.
Definition AddrNotCanonical : Z := -1.
Definition NoMapping : Z := 1.
Definition MappingResolved : Z := Success.
Definition PageUnmapped : Z := Success.
Definition NoPageToUnmap : Z := 1.
Definition NoMemory : Z := -2.
Definition AlreadyMappedLP : Z := -4.

Definition kKernelBoundary : Z := 0x8000000000000000.
(** In units of 2^30 bytes. *)
Definition kPhysApertureSize : Z := 512.

(** ** State *)

Record Handler := { parent : option Z; children : list Z; pml4Phys : Z; physToDealloc : list Z }.
Record mmu := Mmu {
  words : gmap Z Z;
  frames : PhysicalAllocator;
  handlers : gmap Z Handler;
  gPhysApertureAvailable : bool
}.
Definition set_words (f : gmap Z Z -> gmap Z Z) (s : mmu) : mmu :=
  Mmu (f (words s)) (frames s) (handlers s) (gPhysApertureAvailable s).
Definition set_handlers (f : gmap Z Handler -> gmap Z Handler) (s : mmu) : mmu :=
  Mmu (words s) (frames s) (f (handlers s)) (gPhysApertureAvailable s).
Definition set_frames (a : PhysicalAllocator) (s : mmu) : mmu :=
  Mmu (words s) a (handlers s) (gPhysApertureAvailable s).

Definition the_handler (this : Z) : st mmu Handler := fun s => h ← res_of (handlers s !! this); Ok (h, s).
Definition put_handler (this : Z) (h : Handler) : st mmu () := smod (set_handlers <[this := h]>).

(** The entry of a table, wherever the memory appears in the address space. *)
Definition word_at (s : mmu) (tableBase offset : Z) : Z := default 0 (words s !! (tableBase + 8 * offset)).

(** A null pointer for a table beyond the aperture. *)
Definition getTableVmAddr (tableBase : Z) : st mmu Z :=
  if kPhysApertureSize * 1024 * 1024 * 1024 <? tableBase then sstuck else mret tableBase.

Definition readTable (tableBase offset : Z) : st mmu Z :=
  _ ← slift (REQUIRE (offset <=? 511));
  ptr ← getTableVmAddr tableBase;
  s ← sget;
  mret (word_at s ptr offset).
Definition writeTable (tableBase offset val : Z) : st mmu () :=
  _ ← slift (REQUIRE (offset <=? 511));
  ptr ← getTableVmAddr tableBase;
  smod (set_words <[ptr + 8 * offset := val]>).

(** [memset] of a page, word by word. *)
Fixpoint clear_words (n : nat) (ptr : Z) (m : gmap Z Z) : gmap Z Z :=
  match n with O => m | S n => <[ptr + 8 * Z.of_nat n := 0]> (clear_words n ptr m) end.

Definition take_frame : st mmu Z := fun s => r ← PhysMem.allocPage (frames s); Ok (r.1, set_frames r.2 s).
Definition give_frame (a : Z) : st mmu () := fun s => f ← PhysMem.freePage (frames s) a; Ok ((), set_frames f s).

(** [PTEHandler::allocPage]. *)
Definition allocTable : st mmu Z :=
  page ← take_frame;
  if page =? 0 then mret page
  else
    ptr ← getTableVmAddr page;
    _ ← smod (set_words (clear_words 512 ptr));
    mret page.

(** The table an entry points to. *)
Definition table_of (e : Z) : Z := (e .& Z.lnot 0xFFF) .& Z.lnot FlagsMask.
Definition bit_set (e n : Z) : bool := negb (e .& (1 << n) =? 0).

Section Processor.
(** [arch_supports_nx()]. *)
Variable nx : bool.

(** ** Construction *)

Definition giant_entry (physBase j : Z) : Z :=
  let val := physBase + j * 0x40000000 in
  let val := val .| 0x83 in
  let val := if nx then val .| (1 << 63) else val in
  val .| (1 << 8).
Fixpoint fill_pdpt (n : nat) (j : Z) (pdpt physBase : Z) : st mmu () :=
  match n with
  | O => mret ()
  | S n => _ ← writeTable pdpt j (giant_entry physBase j); fill_pdpt n (j + 1) pdpt physBase
  end.
Fixpoint initKernel (n : nat) (i : Z) (pml4 : Z) : st mmu () :=
  match n with
  | O => mret ()
  | S n =>
      pdpt ← allocTable;
      _ ← slift (REQUIRE (negb (pdpt =? 0)));
      _ ← fill_pdpt 512 0 pdpt (i * 0x8000000000);
      let pml4e := pdpt .& Z.lnot 0xFFF in
      let pml4e := pml4e .| 3 in
      let pml4e := if nx then pml4e .| (1 << 63) else pml4e in
      _ ← writeTable pml4 (256 + i) pml4e;
      initKernel n (i + 1) pml4
  end.

Fixpoint copy_pml4 (n : nat) (i : Z) (from to : Z) : st mmu () :=
  match n with
  | O => mret ()
  | S n => e ← readTable from i; _ ← writeTable to i e; copy_pml4 n (i + 1) from to
  end.
Definition initWithParent (this p : Z) (pml4 : Z) : st mmu () :=
  h ← the_handler p;
  _ ← copy_pml4 257 255 (pml4Phys h) pml4;
  put_handler p {| parent := parent h; children := children h ++ [this];
                   pml4Phys := pml4Phys h; physToDealloc := physToDealloc h |}.

(** [new PTEHandler(parent)], at the address [this]. *)
Definition newPTEHandler (this : Z) (p : option Z) : st mmu () :=
  pml4 ← allocTable;
  _ ← slift (REQUIRE (negb (pml4 =? 0)));
  _ ← match p with
      | Some p => initWithParent this p pml4
      | None => initKernel (Z.to_nat (kPhysApertureSize / 512)) 0 pml4
      end;
  put_handler this {| parent := p; children := []; pml4Phys := pml4; physToDealloc := [] |}.

Fixpoint free_all (l : list Z) : st mmu () :=
  match l with
  | [] => mret ()
  | a :: l => _ ← give_frame a; free_all l
  end.
(** [delete handler]. *)
Definition deletePTEHandler (this : Z) : st mmu () :=
  h ← the_handler this;
  _ ← free_all (physToDealloc h);
  _ ← match parent h with
      | Some p =>
          q ← the_handler p;
          _ ← put_handler p {| parent := parent q; children := filter (fun c => c <> this) (children q);
                               pml4Phys := pml4Phys q; physToDealloc := physToDealloc q |};
          slift (REQUIRE (bool_decide (this ∈ children q)))
      | None => mret ()
      end;
  smod (set_handlers (delete this)).

Definition InitialKernelMapLoad : st mmu () :=
  smod (fun s => Mmu (words s) (frames s) (handlers s) true).

(** ** Mapping *)

Fixpoint broadcast (cs : list Z) (idx entry : Z) : st mmu () :=
  match cs with
  | [] => mret ()
  | c :: cs =>
      h ← the_handler c;
      _ ← (if negb (pml4Phys h =? 0) then writeTable (pml4Phys h) idx entry else mret ());
      broadcast cs idx entry
  end.
Definition broadcastKernelPml4Update (this idx entry : Z) : st mmu () :=
  h ← the_handler this; broadcast (children h) idx entry.

(** The block that allocates a table and enters it at [offset] of the one above;
    nothing when there is no memory. *)
Definition new_table (tableBase offset virt : Z) : st mmu (option Z) :=
  page ← allocTable;
  if page =? 0 then mret None
  else
    let entry := page .| 3 in
    let entry := if virt <? kKernelBoundary then entry .| (1 << 2) else entry in
    _ ← writeTable tableBase offset entry;
    mret (Some entry).

(** Reading the entry of the PML4, with a new table if there is none. *)
Definition pml4_entry (this : Z) (h : Handler) (_virt virt : Z) : st mmu (option Z) :=
  let pml4eIdx := (virt >> 39) .& 0x1FF in
  pml4e ← readTable (pml4Phys h) pml4eIdx;
  if negb (bit_set pml4e 0) then
    r ← new_table (pml4Phys h) ((virt >> 39) .& 0x1FF) virt;
    match r with
    | None => mret None
    | Some pml4e =>
        s ← sget;
        _ ← (if (kKernelBoundary <=? _virt) && gPhysApertureAvailable s && bool_decide (parent h = None)
             then broadcastKernelPml4Update this pml4eIdx pml4e else mret ());
        mret (Some pml4e)
    end
  else mret (Some pml4e).

(** The same on the two levels below, where a large page is refused. *)
Definition next_entry (tableBase offset virt : Z) : st mmu (Z + Z) :=
  e ← readTable tableBase offset;
  if negb (bit_set e 0) then
    r ← new_table tableBase offset virt;
    mret (match r with None => inl NoMemory | Some e => inr e end)
  else if bit_set e 7 then mret (inl AlreadyMappedLP)
  else mret (inr e).

Definition pte_value (phys : Z) (write execute global user : bool) : Z :=
  let pte := (phys .& Z.lnot 0xFFF) .& Z.lnot FlagsMask in
  let pte := pte .| Present in
  let pte := if write then pte .| Writable else pte in
  let pte := if global then pte .| Global else pte in
  let pte := if user then pte .| UserAccess else pte in
  if negb execute && nx then pte .| NoExecute else pte.

Definition map_tables (this : Z) (h : Handler) (phys _virt : Z) (write execute global user : bool) : st mmu Z :=
  let virt := _virt .& 0xFFFFFFFFFFFF in
  r ← pml4_entry this h _virt virt;
  match r with
  | None => mret NoMemory
  | Some pml4e =>
      r ← next_entry (table_of pml4e) ((virt >> 30) .& 0x1FF) virt;
      match r with
      | inl err => mret err
      | inr pdpte =>
          r ← next_entry (table_of pdpte) ((virt >> 21) .& 0x1FF) virt;
          match r with
          | inl err => mret err
          | inr pdte =>
              _ ← writeTable (table_of pdte) ((virt >> 12) .& 0x1FF) (pte_value phys write execute global user);
              mret Success
          end
      end
  end.

Definition canonical (_virt : Z) : bool := negb ((0x00007FFFFFFFFFFF <? _virt) && (_virt <? 0xFFFF800000000000)).

(** A call for the upper half goes to the parent. *)
Fixpoint map_up (fuel : nat) (this phys _virt : Z) (write execute global user noCache : bool) : st mmu Z :=
  match fuel with
  | O => sstuck
  | S fuel =>
      if negb (canonical _virt) then mret AddrNotCanonical
      else
        h ← the_handler this;
        match parent h with
        | Some p =>
            if kKernelBoundary <=? _virt then map_up fuel p phys _virt write execute global user noCache
            else map_tables this h phys _virt write execute global user
        | None => map_tables this h phys _virt write execute global user
        end
  end.
Definition mapPage (this phys _virt : Z) (write execute global user noCache : bool) : st mmu Z := fun s =>
  map_up (S (size (handlers s))) this phys _virt write execute global user noCache s.

Definition unmapPage (this _virt : Z) : st mmu Z :=
  let virt := _virt .& 0xFFFFFFFFFFFF in
  h ← the_handler this;
  pml4e ← readTable (pml4Phys h) ((virt >> 39) .& 0x1FF);
  if negb (bit_set pml4e 0) then mret NoPageToUnmap
  else
    pdpte ← readTable (table_of pml4e) ((virt >> 30) .& 0x1FF);
    if negb (bit_set pdpte 0) then mret NoPageToUnmap
    else if bit_set pdpte 7 then mret AlreadyMappedLP
    else
      pdte ← readTable (table_of pdpte) ((virt >> 21) .& 0x1FF);
      if negb (bit_set pdte 0) then mret NoPageToUnmap
      else if bit_set pdte 7 then mret AlreadyMappedLP
      else
        _ ← writeTable (table_of pdte) ((virt >> 12) .& 0x1FF) 0;
        mret PageUnmapped.

(** ** Lookup *)

Definition has (flags m : Z) : bool := negb (flags .& m =? 0).

Definition gater (flags pte : Z) (access : bool) : Z :=
  let flags := if has pte NoExecute then flags .| NoExecute else flags in
  let flags := if negb (has pte Writable) then flags .& Z.lnot Writable else flags in
  let flags := if negb (has pte UserAccess) then flags .& Z.lnot UserAccess else flags in
  if access then
    let flags := if has pte Accessed then flags .| Accessed else flags in
    if has pte Dirty then flags .| Dirty else flags
  else flags.

(** The status, and with it the address and the flags if they are written. *)
Definition Resolve (pml4 _virt : Z) : st mmu (Z * option (Z * Z)) :=
  if negb (canonical _virt) then mret (AddrNotCanonical, None)
  else
    let virt := _virt .& 0xFFFFFFFFFFFF in
    pml4e ← readTable pml4 ((virt >> 39) .& 0x1FF);
    if negb (bit_set pml4e 0) then mret (NoMapping, None)
    else
      let flags := if has pml4e NoExecute then NoExecute else 0 in
      let flags := if has pml4e Writable then flags .| Writable else flags in
      let flags := if has pml4e UserAccess then flags .| UserAccess else flags in
      pdpte ← readTable (table_of pml4e) ((virt >> 30) .& 0x1FF);
      if negb (bit_set pdpte 0) then mret (NoMapping, None)
      else if bit_set pdpte 7 then
        mret (MappingResolved, Some (((pdpte .& Z.lnot 0x3FFFFFFF) .& Z.lnot FlagsMask) + (virt .& 0x3FFFFFFF), gater flags pdpte true))
      else
        let flags := gater flags pdpte false in
        pdte ← readTable (table_of pdpte) ((virt >> 21) .& 0x1FF);
        if negb (bit_set pdte 0) then mret (NoMapping, None)
        else if bit_set pdte 7 then
          mret (MappingResolved, Some (((pdte .& Z.lnot 0x1FFFFF) .& Z.lnot FlagsMask) + (virt .& 0x1FFFFF), gater flags pdte true))
        else
          let flags := gater flags pdte false in
          pte ← readTable (table_of pdte) ((virt >> 12) .& 0x1FF);
          if negb (bit_set pte 0) then mret (NoMapping, None)
          else mret (MappingResolved, Some (((pte .& Z.lnot 0xFFF) .& Z.lnot FlagsMask) + (virt .& 0xFFF), gater flags pte true)).

(** What [getMapping] writes: the address, if any, and the write, execute, global
    and user flags; [noCache] is not written. *)
Record Found := { f_phys : option Z; f_write : bool; f_execute : bool; f_global : bool; f_user : bool }.
Definition getMapping (this virt : Z) : st mmu (Z * Found) :=
  h ← the_handler this;
  r ← Resolve (pml4Phys h) virt;
  let '(ret, out) := r in
  let flags := match out with Some (_, fl) => fl | None => 0 end in
  mret (if ret =? MappingResolved then 0 else if ret =? NoMapping then 1 else ret,
        {| f_phys := fst <$> out; f_write := has flags Writable;
           f_execute := if nx then negb (has flags NoExecute) else true;
           f_global := has flags Global; f_user := has flags UserAccess |}).

(** ** Bits of entries *)

Lemma bit_set_eq e n : 0 <= n -> bit_set e n = Z.testbit e n.
Proof.
  intros Hn. unfold bit_set. rewrite Z.shiftl_1_l. destruct (Z.testbit e n) eqn:E.
  - destruct (Z.eqb_spec (e .& 2 ^ n) 0) as [H|]; [|done].
    apply (f_equal (fun z => Z.testbit z n)) in H. rewrite Z.land_spec, E, Z.pow2_bits_true, Z.testbit_0_l in H; done.
  - replace (e .& 2 ^ n) with 0; [done|]. symmetry. apply Z.bits_inj'. intros i Hi.
    rewrite Z.land_spec, Z.testbit_0_l, Z.pow2_bits_eqb by done. destruct (Z.eqb_spec n i) as [<-|]; [by rewrite E|apply andb_false_r].
Qed.
Lemma has_eq e n : 0 <= n -> has e (1 << n) = Z.testbit e n.
Proof. apply bit_set_eq. Qed.

Lemma mask_bits k i : 0 <= k -> 0 <= i -> Z.testbit (2 ^ k - 1) i = (i <? k).
Proof. intros. rewrite Z.sub_1_r, <- Z.ones_equiv. destruct (Z.ltb_spec i k); [by apply Z.ones_spec_low|by apply Z.ones_spec_high]. Qed.
Lemma FlagsMask_bits i : 0 <= i -> Z.testbit FlagsMask i = (i <? 9) || (i =? 63).
Proof.
  intros. change FlagsMask with ((2 ^ 9 - 1) .| 2 ^ 63). rewrite Z.lor_spec, mask_bits, Z.pow2_bits_eqb by done.
  by rewrite Z.eqb_sym.
Qed.
(** An address field below bit 63. *)
Lemma field_bits e k i : 9 <= k -> 0 <= i ->
  Z.testbit ((e .& Z.lnot (2 ^ k - 1)) .& Z.lnot FlagsMask) i = Z.testbit e i && (k <=? i) && negb (i =? 63).
Proof.
  intros Hk Hi. rewrite !Z.land_spec, !Z.lnot_spec, FlagsMask_bits, mask_bits by lia.
  destruct (Z.ltb_spec i k), (Z.ltb_spec i 9), (Z.leb_spec k i), (i =? 63); cbn; rewrite ?andb_false_r; try lia; done.
Qed.
Lemma table_of_bits e i : 0 <= i -> Z.testbit (table_of e) i = Z.testbit e i && (12 <=? i) && negb (i =? 63).
Proof. apply (field_bits e 12). lia. Qed.

(** A page that a table can lie in: the aperture reaches it. *)
Definition frame (a : Z) : Prop := 0 < a <= kPhysApertureSize * 1024 * 1024 * 1024 /\ a mod arch_page_size = 0.

Lemma aligned_low a k i : a mod 2 ^ k = 0 -> 0 <= i < k -> Z.testbit a i = false.
Proof. intros H Hi. by rewrite <- (Z.mod_pow2_bits_low a k), H, Z.testbit_0_l by lia. Qed.
Lemma frame_bits U i : frame U -> 0 <= i < 12 \/ 40 <= i -> Z.testbit U i = false.
Proof.
  intros [H1 H2] [Hi|Hi]; [by apply (aligned_low U 12)|]. apply (testbit_above 40); [unfold is_u, kPhysApertureSize in *; lia|lia].
Qed.

Ltac flag_bits :=
  repeat match goal with
  | |- context [Z.testbit (Z.lor ?a ?b) ?i] => rewrite (Z.lor_spec a b i)
  | |- context [Z.testbit (1 << ?n) ?i] => rewrite (Z.shiftl_1_l n), (Z.pow2_bits_eqb n i) by lia
  end.

(** The two kinds of entries that point to a table. *)
Definition link (U : Z) : Z := U .| 3 .| (1 << 2).
Definition aperture_link (U : Z) : Z :=
  let e := (U .& Z.lnot 0xFFF) .| 3 in if nx then e .| (1 << 63) else e.
Definition link_value (n : nat) (i U : Z) : Z := if (n =? 3)%nat && (i =? 256) then aperture_link U else link U.

Lemma bits_of_3 i : 0 <= i -> Z.testbit 3 i = (i <? 2).
Proof. apply (mask_bits 2). lia. Qed.

Lemma link_bits U i : frame U -> 0 <= i -> Z.testbit (link U) i = (i <? 3) || Z.testbit U i.
Proof.
  intros HU Hi. unfold link. flag_bits. rewrite bits_of_3 by done.
  destruct (Z.ltb_spec i 3), (Z.ltb_spec i 2), (Z.eqb_spec 2 i), (Z.testbit U i); cbn; lia || done.
Qed.
Lemma aperture_link_bits U i : frame U -> 0 <= i ->
  Z.testbit (aperture_link U) i = (i <? 2) || (nx && (i =? 63)) || Z.testbit U i.
Proof.
  intros HU Hi.
  assert (Z.testbit ((U .& Z.lnot 0xFFF) .| 3) i = (i <? 2) || Z.testbit U i) as E.
  { rewrite Z.lor_spec, Z.land_spec, Z.lnot_spec, bits_of_3 by done. change 0xFFF with (2 ^ 12 - 1). rewrite mask_bits by lia.
    destruct (Z.ltb_spec i 12); [rewrite frame_bits by (done || lia)|]; cbn; rewrite ?andb_true_r, ?orb_false_r; [done|apply orb_comm]. }
  unfold aperture_link. destruct nx; [rewrite Z.lor_spec, E, Z.shiftl_1_l, Z.pow2_bits_eqb, (Z.eqb_sym 63 i) by lia|rewrite E].
  - destruct (i <? 2), (i =? 63), (Z.testbit U i); done.
  - by rewrite orb_false_r.
Qed.

Lemma link_table n i U : frame U -> table_of (link_value n i U) = U.
Proof.
  intros HU. apply Z.bits_inj'. intros j Hj. rewrite table_of_bits by done. unfold link_value.
  destruct ((n =? 3)%nat && (i =? 256)); [rewrite aperture_link_bits by done|rewrite link_bits by done];
  (destruct (Z.leb_spec 12 j); [|rewrite andb_false_r; cbn; by rewrite frame_bits by (done || lia)]);
  (destruct (Z.eqb_spec j 63) as [->|]; [rewrite andb_false_r; by rewrite frame_bits by (done || lia)|]);
  replace (j <? 2) with false by blia; replace (j <? 3) with false by blia; by rewrite ?andb_false_r, ?andb_true_r.
Qed.
Lemma link_present n i U : frame U -> bit_set (link_value n i U) 0 = true.
Proof.
  intros HU. rewrite bit_set_eq by done. unfold link_value. destruct ((n =? 3)%nat && (i =? 256)); [by rewrite aperture_link_bits|by rewrite link_bits].
Qed.
Lemma link_small U : frame U -> bit_set (link U) 7 = false.
Proof. intros HU. rewrite bit_set_eq, link_bits by done. apply (frame_bits U 7); [done|lia]. Qed.
Lemma link_value_nonzero n i U : frame U -> link_value n i U <> 0.
Proof. intros HU E. pose proof (link_present n i U HU) as H. by rewrite E in H. Qed.

(** The bits of the entry of a page. *)
Lemma pte_bits phys w x g u i : 0 <= i ->
  Z.testbit (pte_value phys w x g u) i =
    (i =? 0) || (w && (i =? 1)) || (g && (i =? 8)) || (u && (i =? 2)) || (negb x && nx && (i =? 63)) || Z.testbit (table_of phys) i.
Proof.
  intros Hi. unfold pte_value, Present, Writable, Global, UserAccess, NoExecute. fold (table_of phys).
  destruct w, g, u, x, nx; cbn [negb andb]; flag_bits; rewrite ?(Z.eqb_sym _ i);
  destruct (i =? 0), (i =? 1), (i =? 2), (i =? 8), (i =? 63), (Z.testbit (table_of phys) i); done.
Qed.
Lemma pte_table phys w x g u : table_of (pte_value phys w x g u) = table_of phys.
Proof.
  apply Z.bits_inj'. intros i Hi. rewrite !table_of_bits, pte_bits, table_of_bits by done.
  destruct (Z.leb_spec 12 i); [|by rewrite !andb_false_r]. destruct (Z.eqb_spec i 63); [by rewrite !andb_false_r|].
  replace (i =? 0) with false by blia. replace (i =? 1) with false by blia. replace (i =? 8) with false by blia.
  replace (i =? 2) with false by blia. by rewrite !andb_false_r, !andb_true_r.
Qed.

Lemma pte_present phys w x g u : bit_set (pte_value phys w x g u) 0 = true.
Proof. by rewrite bit_set_eq, pte_bits. Qed.

(** ** Walks

    A page number has 36 bits; [idx m p] is its index into a table with [m]
    further levels below. *)
Definition idx (m : nat) (p : Z) : Z := (p >> (9 * Z.of_nat m)) .& 0x1FF.

(** The page table (level 0) reached from the table [T] of level [m], and the
    entry found there. *)
Fixpoint reach (m : nat) (s : mmu) (T p : Z) : option Z :=
  match m with
  | O => Some T
  | S m' =>
      let e := word_at s T (idx m p) in
      if bit_set e 0 then reach m' s (table_of e) p else None
  end.
Definition walk (m : nat) (s : mmu) (T p : Z) : option Z :=
  T0 ← reach m s T p;
  let e := word_at s T0 (idx 0 p) in if bit_set e 0 then Some e else None.

Lemma idx_mod m p : idx m p = (p / 2 ^ (9 * Z.of_nat m)) mod 512.
Proof. unfold idx. rewrite Z.shiftr_div_pow2 by lia. apply (land_mask _ 9). lia. Qed.
Lemma idx_range m p : 0 <= idx m p < 512.
Proof. rewrite idx_mod. by apply Z.mod_pos_bound. Qed.
#[local] Hint Resolve idx_range : core.

(** What a table is for: its level, the address space it belongs to ([None]
    for the half all share), and the page numbers that lead through it. *)
Record role := Role { lvl : nat; space : option Z; pre : Z }.
#[local] Instance role_eq : EqDecision role.
Proof. solve_decision. Defined.

Definition below (r : role) (i : Z) : role :=
  Role (pred (lvl r)) (if (lvl r =? 3)%nat && (256 <=? i) then None else space r) (pre r * 512 + i).

(** The address space a page belongs to, seen from the handler [h]. *)
Definition half (h p : Z) : option Z := if 2 ^ 35 <=? p then None else Some h.
Definition on_path (h p : Z) (r : role) : Prop :=
  (lvl r <= 3)%nat /\ pre r = p / 2 ^ (9 * Z.of_nat (S (lvl r))) /\ space r = if (lvl r =? 3)%nat then Some h else half h p.
(** Page numbers outside the aperture. *)
Definition plain (p : Z) : Prop := 0 <= p < 2 ^ 36 /\ p / 2 ^ 27 <> 256.

Lemma half_idx p : 0 <= p < 2 ^ 36 -> (256 <=? idx 3 p) = (2 ^ 35 <=? p).
Proof.
  intros Hp. rewrite idx_mod. change (2 ^ (9 * Z.of_nat 3)) with (2 ^ 27).
  assert (0 <= p / 2 ^ 27 < 512) by (split; [apply Z.div_pos|apply Z.div_lt_upper_bound]; lia).
  rewrite Z.mod_small by lia. destruct (Z.leb_spec (2 ^ 35) p).
  - apply Z.leb_le, Z.div_le_lower_bound; lia.
  - apply Z.leb_gt, Z.div_lt_upper_bound; lia.
Qed.

Lemma pre_step m p : p / 2 ^ (9 * Z.of_nat (S m)) * 512 + idx m p = p / 2 ^ (9 * Z.of_nat m).
Proof.
  rewrite idx_mod. replace (9 * Z.of_nat (S m)) with (9 * Z.of_nat m + 9) by lia.
  rewrite Z.pow_add_r, <- Z.div_div by lia. change (2 ^ 9) with 512.
  pose proof (Z.div_mod (p / 2 ^ (9 * Z.of_nat m)) 512). lia.
Qed.

Lemma on_path_below h p r :
  0 <= p < 2 ^ 36 -> on_path h p r -> lvl r <> O -> on_path h p (below r (idx (lvl r) p)).
Proof.
  intros Hp (H1 & H2 & H3) Hm. destruct (lvl r) as [|m] eqn:El; [done|]. unfold on_path, below. cbn [lvl pre space]. rewrite El.
  cbn [pred]. split; [lia|]. split; [rewrite H2; apply pre_step|]. rewrite H3.
  replace (m =? 3)%nat with false by (symmetry; apply Nat.eqb_neq; lia). destruct (Nat.eqb_spec (S m) 3) as [E|].
  - injection E as ->. cbn [andb]. rewrite half_idx by done. unfold half. by destruct (2 ^ 35 <=? p).
  - done.
Qed.

(** A path through the aperture only starts at one. *)
Definition giants : role := Role 2 None 256.
Lemma plain_giants h p r : plain p -> on_path h p r -> r <> giants.
Proof. intros [_ Hp] (_ & H2 & _) ->. by apply Hp. Qed.

Lemma plain_idx p : plain p -> idx 3 p <> 256.
Proof.
  intros [Hp Hne]. rewrite idx_mod. change (2 ^ (9 * Z.of_nat 3)) with (2 ^ 27).
  rewrite Z.mod_small; [done|]. split; [apply Z.div_pos|apply Z.div_lt_upper_bound]; lia.
Qed.

(** ** The invariant of the tables *)

Record translation := Tr { t_phys : Z; t_write : bool; t_execute : bool; t_global : bool; t_user : bool }.
Definition pte_of (t : translation) : Z := pte_value (t_phys t) (t_write t) (t_execute t) (t_global t) (t_user t).
(** The pages that are mapped, by address space and page number. *)
Notation pagemap := (gmap (option Z * Z) translation).
Definition slot (h p : Z) : option Z * Z := (half h p, p).

Definition link_ok (R : gmap Z role) (s : mmu) (T : Z) (r : role) (i : Z) : Prop :=
  if decide (r = giants) then word_at s T i = giant_entry 0 i
  else word_at s T i = 0 \/ exists U, R !! U = Some (below r i) /\ word_at s T i = link_value (lvl r) i U.

Record tables_ok (M : Z -> Prop) (held : gset Z) (R : gmap Z role) (a : pagemap) (s : mmu) : Prop := {
  ti_phys : phys_inv M (frames s, held);
  ti_held : forall T r, R !! T = Some r -> T ∈ held;
  ti_entry : forall T r i, R !! T = Some r -> lvl r <> O -> 0 <= i < 512 -> link_ok R s T r i;
  ti_root : forall h x, handlers s !! h = Some x -> R !! pml4Phys x = Some (Role 3 (Some h) 0);
  ti_agree : forall h x p, handlers s !! h = Some x -> plain p -> walk 3 s (pml4Phys x) p = pte_of <$> a !! slot h p
}.

(** The words of two states in the tables that have a role. *)
Definition same_words (R : gmap Z role) (s s' : mmu) : Prop :=
  forall T r i, R !! T = Some r -> 0 <= i < 512 -> word_at s' T i = word_at s T i.

Section Frames.
Context (M : Z -> Prop) (M_frame : forall x, M x -> frame x).

Lemma held_frame held s x : phys_inv M (frames s, held) -> x ∈ held -> frame x.
Proof. intros I Hx. apply M_frame, (pi_split _ _ I). by right. Qed.
Lemma role_frame held R a s T r : tables_ok M held R a s -> R !! T = Some r -> frame T.
Proof. intros I H. eapply held_frame; [apply I|]. by eapply ti_held. Qed.

(** Words of different tables, or at different indices, are different words. *)
Lemma word_inj T T' i i' : frame T -> frame T' -> 0 <= i < 512 -> 0 <= i' < 512 -> T + 8 * i = T' + 8 * i' -> T = T' /\ i = i'.
Proof.
  intros [_ H1] [_ H2] Hi Hi' E. unfold arch_page_size in *.
  pose proof (Z.div_mod T 4096). pose proof (Z.div_mod T' 4096). lia.
Qed.
Lemma word_write s T i v T' i' : frame T -> frame T' -> 0 <= i < 512 -> 0 <= i' < 512 ->
  word_at (set_words <[T + 8 * i := v]> s) T' i' = if decide (T = T' /\ i = i') then v else word_at s T' i'.
Proof.
  intros. unfold word_at. cbn. destruct (decide (T = T' /\ i = i')) as [[-> ->]|Hne].
  - by rewrite lookup_insert_eq.
  - rewrite lookup_insert_ne; [done|]. intros E. by apply Hne, word_inj.
Qed.

(** Descending one level. *)
Lemma entry_step held R a s T r h p :
  tables_ok M held R a s -> R !! T = Some r -> on_path h p r -> plain p -> lvl r <> O ->
  let e := word_at s T (idx (lvl r) p) in
  (e = 0 \/ exists U, e = link_value (lvl r) (idx (lvl r) p) U /\ R !! U = Some (below r (idx (lvl r) p)) /\ frame U) /\
  if bit_set e 0 then R !! table_of e = Some (below r (idx (lvl r) p)) else e = 0.
Proof.
  intros I Hr Hp Hpl Hl e. pose proof (ti_entry _ _ _ _ _ I T r (idx (lvl r) p) Hr Hl ltac:(done)) as H.
  unfold link_ok in H. rewrite decide_False in H by (by eapply plain_giants). fold e in H.
  destruct H as [->|(U & HU & E)]; [split; [by left|done]|].
  assert (frame U) as HF by (by eapply role_frame). rewrite E. split; [right; by exists U|]. rewrite link_present, link_table by done. done.
Qed.

Lemma descend held R a s T r h p m :
  tables_ok M held R a s -> R !! T = Some r -> lvl r = S m -> on_path h p r -> plain p ->
  bit_set (word_at s T (idx (S m) p)) 0 = true ->
  exists r', R !! table_of (word_at s T (idx (S m) p)) = Some r' /\ lvl r' = m /\ on_path h p r' /\ r' = below r (idx (S m) p).
Proof.
  intros I Hr Hl Hp Hpl Hb. destruct (entry_step _ _ _ _ _ _ _ _ I Hr Hp Hpl) as [_ H]; [by rewrite Hl|]. rewrite Hl, Hb in H.
  exists (below r (idx (S m) p)). split; [done|]. split; [by cbn; rewrite Hl|]. split; [|done].
  rewrite <- Hl. apply on_path_below; [apply Hpl|done|by rewrite Hl].
Qed.

Lemma reach_role held R a s h p : forall m T r T0,
  tables_ok M held R a s -> R !! T = Some r -> lvl r = m -> on_path h p r -> plain p -> reach m s T p = Some T0 ->
  exists r0, R !! T0 = Some r0 /\ lvl r0 = O /\ on_path h p r0.
Proof.
  induction m as [|m IH]; intros T r T0 I Hr Hl Hp Hpl; cbn [reach]; [intros [= <-]; by exists r|].
  destruct (bit_set _ 0) eqn:Hb; [|done]. destruct (descend _ _ _ _ _ _ _ _ _ I Hr Hl Hp Hpl Hb) as (r' & H1 & H2 & H3 & _).
  by apply (IH _ _ _ I H1).
Qed.

(** A write that no walk to [p] from [h] meets. *)
Lemma reach_write held R a s T0 r0 i v h p : forall m T r,
  tables_ok M held R a s -> R !! T0 = Some r0 -> 0 <= i < 512 -> plain p ->
  (lvl r0 <> O -> on_path h p r0 -> idx (lvl r0) p <> i) ->
  R !! T = Some r -> lvl r = m -> on_path h p r ->
  reach m (set_words <[T0 + 8 * i := v]> s) T p = reach m s T p.
Proof.
  induction m as [|m IH]; intros T r I H0 Hi Hpl Hn Hr Hl Hp; cbn [reach]; [done|].
  rewrite word_write by (done || by eapply role_frame). rewrite decide_False.
  2: { intros [-> ->]. assert (r = r0) as -> by congruence. apply Hn; [lia|done|by rewrite Hl]. }
  destruct (bit_set _ 0) eqn:Hb; [|done]. destruct (descend _ _ _ _ _ _ _ _ _ I Hr Hl Hp Hpl Hb) as (r' & H1 & H2 & H3 & _).
  by apply (IH _ r').
Qed.

Lemma walk_write held R a s T0 r0 i v h p m T r :
  tables_ok M held R a s -> R !! T0 = Some r0 -> 0 <= i < 512 -> plain p ->
  (on_path h p r0 -> idx (lvl r0) p <> i) ->
  R !! T = Some r -> lvl r = m -> on_path h p r ->
  walk m (set_words <[T0 + 8 * i := v]> s) T p = walk m s T p.
Proof.
  intros I H0 Hi Hpl Hn Hr Hl Hp. unfold walk. rewrite (reach_write held R a s T0 r0 i v h p m T r) by auto.
  destruct (reach m s T p) as [T1|] eqn:E; [|done]. cbn [mbind option_bind].
  destruct (reach_role _ _ _ _ _ _ _ _ _ _ I Hr Hl Hp Hpl E) as (r1 & H1 & Hl1 & Hp1).
  rewrite word_write by (done || by eapply role_frame). rewrite decide_False; [done|].
  intros [-> ->]. assert (r0 = r1) as -> by congruence. apply Hn; [done|by rewrite Hl1].
Qed.

(** Walks only read tables that have a role. *)
Lemma walk_same held R a s s' h p : forall m T r,
  tables_ok M held R a s -> same_words R s s' -> plain p -> R !! T = Some r -> lvl r = m -> on_path h p r ->
  reach m s' T p = reach m s T p /\ walk m s' T p = walk m s T p.
Proof.
  intros m T r I Hs Hpl Hr Hl Hp.
  assert (forall m T r, R !! T = Some r -> lvl r = m -> on_path h p r -> reach m s' T p = reach m s T p) as Hre.
  { clear m T r Hr Hl Hp. induction m as [|m IH]; intros T r Hr Hl Hp; cbn [reach]; [done|]. rewrite (Hs T r) by done.
    destruct (bit_set _ 0) eqn:Hb; [|done]. destruct (descend _ _ _ _ _ _ _ _ _ I Hr Hl Hp Hpl Hb) as (r' & H1 & H2 & H3 & _).
    by apply (IH _ r'). }
  pose proof (Hre m T r Hr Hl Hp) as E. split; [done|]. unfold walk. rewrite E. destruct (reach m s T p) as [T1|] eqn:E1; [|done].
  destruct (reach_role _ _ _ _ _ _ _ _ _ _ I Hr Hl Hp Hpl E1) as (r1 & H1 & _). cbn. by rewrite (Hs T1 r1).
Qed.

Lemma root_path h p : plain p -> on_path h p (Role 3 (Some h) 0).
Proof.
  intros [Hp _]. split; [cbn; lia|]. split; [|done]. cbn [pre lvl]. change (2 ^ (9 * Z.of_nat 4)) with (2 ^ 36).
  symmetry. by apply Z.div_small.
Qed.

Lemma link_ok_mono R R' s s' T r i :
  link_ok R s T r i -> word_at s' T i = word_at s T i -> (forall U q, R !! U = Some q -> R' !! U = Some q) -> link_ok R' s' T r i.
Proof.
  unfold link_ok. intros H -> HR. destruct (decide _); [done|]. destruct H as [H|(U & H1 & H2)]; [by left|right; eauto].
Qed.

Lemma clear_words_hit n ptr m i : 0 <= i < Z.of_nat n -> clear_words n ptr m !! (ptr + 8 * i) = Some 0.
Proof.
  induction n as [|n IH]; intros Hi; [lia|]. cbn [clear_words]. destruct (decide (i = Z.of_nat n)) as [->|].
  - by rewrite lookup_insert_eq.
  - rewrite lookup_insert_ne by lia. apply IH. lia.
Qed.
Lemma clear_words_miss n ptr m x :
  (forall i, 0 <= i < Z.of_nat n -> x <> ptr + 8 * i) -> clear_words n ptr m !! x = m !! x.
Proof.
  induction n as [|n IH]; intros Hi; [done|]. cbn [clear_words]. rewrite lookup_insert_ne by (symmetry; apply Hi; lia).
  apply IH. intros i ?. apply Hi. lia.
Qed.

(** ** The three changes of the tables *)

(** A fresh, cleared table changes no walk. *)
Definition fresh_table (f : PhysicalAllocator) (U : Z) (s : mmu) : mmu := set_words (clear_words 512 U) (set_frames f s).

Lemma fresh_words f U s T i :
  frame U -> frame T -> 0 <= i < 512 -> word_at (fresh_table f U s) T i = if decide (T = U) then 0 else word_at s T i.
Proof.
  intros HU HT Hi. unfold word_at, fresh_table, set_words, set_frames. cbn [words]. destruct (decide (T = U)) as [->|Hne].
  - by rewrite (clear_words_hit 512) by lia.
  - rewrite (clear_words_miss 512); [done|]. intros j Hj E. by apply Hne, (word_inj T U i j).
Qed.

(** Only the words of tables with a role matter. *)
Lemma tables_same held R a s held' s' :
  tables_ok M held R a s -> same_words R s s' -> handlers s' = handlers s -> phys_inv M (frames s', held') -> held ⊆ held' ->
  tables_ok M held' R a s'.
Proof.
  intros I Hs Hh Hf Hsub. split; [done| | | |].
  - intros T r Hr. by apply Hsub, (ti_held _ _ _ _ _ I T r).
  - intros T r i Hr Hl Hi. eapply link_ok_mono; [by eapply ti_entry|by eapply Hs|done].
  - rewrite Hh. apply I.
  - rewrite Hh. intros h x p Hx Hp. rewrite <- (ti_agree _ _ _ _ _ I h x p Hx Hp).
    by eapply (walk_same held R a s _ h p 3); [..|by apply (ti_root _ _ _ _ _ I)|done|by apply root_path].
Qed.
(** A page gets a role. *)
Lemma tables_role held R a s T r :
  tables_ok M held R a s -> R !! T = None -> T ∈ held ->
  (forall i, lvl r <> O -> 0 <= i < 512 -> link_ok R s T r i) -> tables_ok M held (<[T := r]> R) a s.
Proof.
  intros I HN HT He.
  assert (forall U q, R !! U = Some q -> <[T := r]> R !! U = Some q) as Hm.
  { intros U q Hq. rewrite lookup_insert_ne; [done|]. by intros ->; rewrite HN in Hq. }
  split; [apply I| | | |apply I].
  - intros U q Hq. apply lookup_insert_Some in Hq as [[<- <-]|[_ Hq]]; [done|]. by apply (ti_held _ _ _ _ _ I) in Hq.
  - intros U q i Hq Hl Hi. apply lookup_insert_Some in Hq as [[<- <-]|[_ Hq]].
    + eapply link_ok_mono; [by apply He|done|done].
    + eapply link_ok_mono; [by eapply ti_entry|done|done].
  - intros h x Hx. by apply Hm, (ti_root _ _ _ _ _ I).
Qed.

(** A fresh page, still without a role. *)
Lemma tables_alloc held R a s f U :
  tables_ok M held R a s -> U ∉ held -> phys_inv M (f, {[U]} ∪ held) -> frame U ->
  tables_ok M ({[U]} ∪ held) R a (fresh_table f U s) /\ R !! U = None /\
  same_words R s (fresh_table f U s) /\ forall i, 0 <= i < 512 -> word_at (fresh_table f U s) U i = 0.
Proof.
  intros I HU Hf HF.
  assert (R !! U = None) as HN. { destruct (R !! U) eqn:E; [|done]. by apply (ti_held _ _ _ _ _ I) in E. }
  assert (same_words R s (fresh_table f U s)) as Hs.
  { intros T q i Hq Hi. rewrite fresh_words by (done || by eapply role_frame). rewrite decide_False; [done|]. by intros ->; rewrite HN in Hq. }
  split; [by eapply (tables_same held); [..|set_solver]|]. split; [done|]. split; [done|].
  intros i Hi. rewrite fresh_words by done. by rewrite decide_True.
Qed.
Lemma tables_fresh held R a s f U r :
  tables_ok M held R a s -> U ∉ held -> phys_inv M (f, {[U]} ∪ held) -> frame U -> r <> giants ->
  tables_ok M ({[U]} ∪ held) (<[U := r]> R) a (fresh_table f U s) /\ R !! U = None /\
  same_words R s (fresh_table f U s) /\ forall i, 0 <= i < 512 -> word_at (fresh_table f U s) U i = 0.
Proof.
  intros I HU Hf HF Hr. destruct (tables_alloc held R a s f U I HU Hf HF) as (I' & HN & Hs & Hz). split; [|done].
  apply tables_role; [done|done|set_solver|]. intros i _ Hi. unfold link_ok. rewrite decide_False by done. left. by apply Hz.
Qed.

Lemma walk_S m s T p :
  walk (S m) s T p = if bit_set (word_at s T (idx (S m) p)) 0 then walk m s (table_of (word_at s T (idx (S m) p))) p else None.
Proof. unfold walk. cbn [reach]. by destruct (bit_set _ 0). Qed.
Lemma walk_empty m s T p : (forall j, 0 <= j < 512 -> word_at s T j = 0) -> walk m s T p = None.
Proof.
  intros H. destruct m; [|by rewrite walk_S, H by done]. unfold walk. cbn [reach mbind option_bind]. by rewrite H by done.
Qed.

(** Entering an empty table where there was none changes no walk. *)
Lemma tables_link held R a s T r i U :
  tables_ok M held R a s -> R !! T = Some r -> lvl r <> O -> r <> giants -> 0 <= i < 512 ->
  word_at s T i = 0 -> R !! U = Some (below r i) -> (forall j, 0 <= j < 512 -> word_at s U j = 0) ->
  tables_ok M held R a (set_words <[T + 8 * i := link_value (lvl r) i U]> s).
Proof.
  intros I Hr Hl Hg Hi Hz HU Hempty. set (s' := set_words _ s).
  assert (forall T' r' j, R !! T' = Some r' -> 0 <= j < 512 ->
    word_at s' T' j = if decide (T = T' /\ i = j) then link_value (lvl r) i U else word_at s T' j) as Hw.
  { intros T' r' j H' Hj. apply word_write; by try eapply role_frame. }
  assert (T <> U) as Hne. { intros ->. rewrite Hr in HU. injection HU as E. apply (f_equal lvl) in E. cbn in E. lia. }
  assert (forall h p m T' r', plain p -> R !! T' = Some r' -> lvl r' = m -> on_path h p r' -> walk m s' T' p = walk m s T' p) as Hwalk.
  { intros h p. induction m as [|m IH]; intros T' r' Hpl H' Hl' Hp'.
    - unfold walk. cbn [reach mbind option_bind]. rewrite (Hw T' r') by done. rewrite decide_False; [done|]. intros [-> _]. congruence.
    - rewrite !walk_S, (Hw T' r') by done. destruct (decide (T = T' /\ i = idx (S m) p)) as [[<- Hi']|].
      + rewrite <- Hi', Hz, link_present, link_table by (by eapply role_frame). rewrite walk_empty; [done|].
        intros j Hj. rewrite (Hw U _ j HU) by done. rewrite decide_False by naive_solver. by apply Hempty.
      + destruct (bit_set (word_at s T' (idx (S m) p)) 0) eqn:Hb; [|done].
        destruct (descend _ _ _ _ _ _ _ _ _ I H' Hl' Hp' Hpl Hb) as (r2 & H1 & H2 & H3 & _). by apply (IH _ r2). }
  split; [apply I|apply I| |apply I|].
  - intros T' r' j H' Hl' Hj. unfold link_ok. rewrite (Hw T' r') by done. destruct (decide (T = T' /\ i = j)) as [[<- <-]|].
    + assert (r' = r) as -> by congruence. rewrite decide_False by done. right. by exists U.
    + by apply (ti_entry _ _ _ _ _ I).
  - intros h x p Hx Hp. rewrite <- (ti_agree _ _ _ _ _ I h x p Hx Hp).
    apply (Hwalk h p 3%nat _ (Role 3 (Some h) 0)); [done|by apply (ti_root _ _ _ _ _ I)|done|by apply root_path].
Qed.

(** Writing the entry of a page changes that page, in every address space that
    shares it. *)
Lemma tables_leaf held R a s T r h0 p0 o :
  tables_ok M held R a s -> R !! T = Some r -> lvl r = O -> on_path h0 p0 r -> plain p0 ->
  (forall h x, handlers s !! h = Some x -> slot h p0 = slot h0 p0 -> reach 3 s (pml4Phys x) p0 = Some T) ->
  tables_ok M held R (partial_alter (fun _ => o) (slot h0 p0) a)
    (set_words <[T + 8 * idx 0 p0 := from_option pte_of 0 o]> s).
Proof.
  intros I Hr Hl Hp Hpl Hreach. set (v := from_option pte_of 0 o). set (s' := set_words _ s).
  assert (forall T' r' j, R !! T' = Some r' -> 0 <= j < 512 ->
    word_at s' T' j = if decide (T = T' /\ idx 0 p0 = j) then v else word_at s T' j) as Hw.
  { intros T' r' j H' Hj. apply word_write; by try eapply role_frame. }
  split; [apply I|apply I| |apply I|].
  - intros T' r' j H' Hl' Hj. eapply link_ok_mono; [by eapply ti_entry| |done]. rewrite (Hw T' r') by done.
    rewrite decide_False; [done|]. intros [-> _]. congruence.
  - intros h x p Hx Hp'. pose proof (ti_root _ _ _ _ _ I h x Hx) as Hroot. pose proof (root_path h p Hp') as Hrp.
    assert (reach 3 s' (pml4Phys x) p = reach 3 s (pml4Phys x) p) as Hre.
    { by apply (reach_write held R a s T r _ v h p 3 _ _ I Hr ltac:(done) Hp' ltac:(by rewrite Hl) Hroot). }
    pose proof (ti_agree _ _ _ _ _ I h x p Hx Hp') as Ha. unfold walk in *. rewrite Hre.
    destruct (decide (slot h p = slot h0 p0)) as [Es|Es].
    + assert (p = p0) as -> by (by injection Es). rewrite Es, lookup_partial_alter_eq, (Hreach h x Hx Es). cbn [mbind option_bind].
      rewrite (Hw T r) by done. rewrite decide_True by done. unfold v. destruct o as [t|]; [|done]. cbn [from_option fmap option_fmap option_map].
      unfold pte_of. by rewrite pte_present.
    + rewrite lookup_partial_alter_ne by done. rewrite <- Ha. destruct (reach 3 s (pml4Phys x) p) as [T1|] eqn:E; [|done].
      cbn [mbind option_bind]. destruct (reach_role _ _ _ _ _ _ _ _ _ _ I Hroot eq_refl Hrp Hp' E) as (r1 & H1 & Hl1 & Hp1).
      rewrite (Hw T1 r1) by done. rewrite decide_False; [done|]. intros [<- Hidx]. apply Es.
      assert (r1 = r) as -> by congruence. destruct Hp as (_ & Hpre & Hsp), Hp1 as (_ & Hpre1 & Hsp1).
      rewrite Hl in *. cbn [Nat.eqb] in *. unfold slot. f_equal; [congruence|].
      pose proof (pre_step 0 p). pose proof (pre_step 0 p0). rewrite Z.mul_0_r, Z.pow_0_r, !Z.div_1_r in *. congruence.
Qed.

(** Filling in the root of a handler that is not registered yet. *)
Lemma tables_new_root held R a s T h0 i v :
  tables_ok M held R a s -> R !! T = Some (Role 3 (Some h0) 0) -> handlers s !! h0 = None -> 0 <= i < 512 ->
  v = 0 \/ (exists U, R !! U = Some (below (Role 3 (Some h0) 0) i) /\ v = link_value 3 i U) ->
  tables_ok M held R a (set_words <[T + 8 * i := v]> s).
Proof.
  intros I Hr Hn Hi Hv. set (s' := set_words _ s).
  split; [apply I|apply I| |apply I|].
  - intros T' r' j H' Hl' Hj. unfold link_ok, s'. rewrite word_write by (done || by eapply role_frame).
    destruct (decide (T = T' /\ i = j)) as [[<- <-]|]; [|by apply (ti_entry _ _ _ _ _ I)].
    assert (r' = Role 3 (Some h0) 0) as -> by congruence. by rewrite decide_False.
  - intros h x p Hx Hp. rewrite <- (ti_agree _ _ _ _ _ I h x p Hx Hp).
    eapply (walk_write held R a s T _ i v h p 3 _ _ I Hr Hi Hp); [|by apply (ti_root _ _ _ _ _ I)|done|by apply root_path].
    intros (_ & _ & [= ->]). change (handlers s !! h = Some x) in Hx. congruence.
Qed.

(** ** The operations on tables *)

Lemma readTable_ok s T i : frame T -> 0 <= i < 512 -> readTable T i s = Ok (word_at s T i, s).
Proof.
  intros [HT _] Hi. unfold readTable, getTableVmAddr, mbind, st_bind, slift, REQUIRE.
  replace (i <=? 511) with true by blia. by replace (_ <? T) with false by blia.
Qed.
Lemma writeTable_ok s T i v : frame T -> 0 <= i < 512 -> writeTable T i v s = Ok ((), set_words <[T + 8 * i := v]> s).
Proof.
  intros [HT _] Hi. unfold writeTable, getTableVmAddr, mbind, st_bind, slift, REQUIRE.
  replace (i <=? 511) with true by blia. by replace (_ <? T) with false by blia.
Qed.

(** Whether the physical allocator has no page left. *)
Definition no_frames (s : mmu) : bool := match PhysMem.allocPage (frames s) with Ok (page, _) => page =? 0 | _ => false end.

Lemma no_frames_ok held s : phys_inv M (frames s, held) -> (forall x, M x -> x ∈ held) -> no_frames s = true.
Proof.
  intros I Hall. destruct (allocPage_ok M _ I) as (page & f & E & H). cbn in E. unfold no_frames. rewrite E.
  destruct (page =? 0); [done|]. destruct H as (H1 & H2 & _). cbn in H2. by apply Hall in H1.
Qed.

Lemma allocTable_ok held s :
  phys_inv M (frames s, held) ->
  (exists f, allocTable s = Ok (0, set_frames f s) /\ phys_inv M (f, held) /\ no_frames s = true /\ no_frames (set_frames f s) = true) \/
  (exists f U, allocTable s = Ok (U, fresh_table f U s) /\ U <> 0 /\ U ∉ held /\ frame U /\ phys_inv M (f, {[U]} ∪ held)).
Proof.
  intros I. destruct (allocPage_ok M _ I) as (page & f & E & H). cbn in E, H.
  unfold allocTable, take_frame, mbind, st_bind, res_bind. rewrite E. cbn [fst snd].
  destruct (Z.eqb_spec page 0) as [->|Hne].
  - left. exists f. split; [done|]. split; [apply H|]. split; apply (no_frames_ok held); try done; apply H.
  - right. exists f, page. destruct H as (HM & Hn & Hi). pose proof (M_frame _ HM) as HF. split_and!; try done.
    destruct HF as [HF _]. unfold getTableVmAddr. by replace (_ <? page) with false by blia.
Qed.

(** What only adds tables. *)
Record extends (R : gmap Z role) (s : mmu) (R' : gmap Z role) (s' : mmu) : Prop := {
  ex_handlers : handlers s' = handlers s;
  ex_aperture : gPhysApertureAvailable s' = gPhysApertureAvailable s;
  ex_roles : forall T r, R !! T = Some r -> R' !! T = Some r;
  ex_words : forall T r i, R !! T = Some r -> lvl r <> O -> 0 <= i < 512 -> word_at s T i <> 0 -> word_at s' T i = word_at s T i
}.
Lemma extends_trans R s R1 s1 R2 s2 : extends R s R1 s1 -> extends R1 s1 R2 s2 -> extends R s R2 s2.
Proof.
  intros [H1 H2 H3 H4] [K1 K2 K3 K4]. split; [congruence|congruence|auto|].
  intros T r i HT Hl Hi Hw. pose proof (H4 _ _ _ HT Hl Hi Hw) as E. rewrite <- E.
  apply (K4 T r); [by apply H3|done|done|congruence].
Qed.

Lemma new_table_ok held R a s T r i virt :
  tables_ok M held R a s -> R !! T = Some r -> lvl r <> O -> r <> giants -> below r i <> giants -> 0 <= i < 512 ->
  link_value (lvl r) i = link -> word_at s T i = 0 -> virt < 2 ^ 48 ->
  exists held' R' s' o, new_table T i virt s = Ok (o, s') /\ tables_ok M held' R' a s' /\ extends R s R' s' /\
    (forall T' r' j, R !! T' = Some r' -> 0 <= j < 512 -> T' <> T \/ j <> i -> word_at s' T' j = word_at s T' j) /\
    match o with
    | None => no_frames s' = true /\ word_at s' T i = 0
    | Some e => exists U, e = link U /\ R' !! U = Some (below r i) /\ word_at s' T i = e /\
                          forall j, 0 <= j < 512 -> word_at s' U j = 0
    end.
Proof.
  intros I Hr Hl Hg Hb Hi Elink Hz Hv. unfold new_table.
  destruct (allocTable_ok held s (ti_phys _ _ _ _ _ I)) as [(f & E & Hf & _ & Hfull)|(f & U & E & HU0 & HU & HF & Hf)].
  - exists held, R, (set_frames f s), None. unfold mbind, st_bind. rewrite E. split; [done|]. split; [by apply (tables_same held R a s)|].
    split; [done|]. split; [done|]. split; [done|]. by rewrite <- Hz.
  - destruct (tables_fresh held R a s f U (below r i) I HU Hf HF Hb) as (I' & HN & Hs & Hempty).
    pose proof (role_frame _ _ _ _ _ _ I Hr) as HFT.
    assert (<[U := below r i]> R !! T = Some r) as Hr'. { rewrite lookup_insert_ne; [done|]. by intros ->; rewrite HN in Hr. }
    assert (word_at (fresh_table f U s) T i = 0) as Hz' by (by rewrite (Hs T r)).
    unfold mbind, st_bind. rewrite E. replace (U =? 0) with false by blia. unfold kKernelBoundary.
    replace (virt <? _) with true by blia. fold (link U). rewrite writeTable_ok by done.
    eexists ({[U]} ∪ held), (<[U := below r i]> R), _, (Some (link U)). split; [done|].
    pose proof (tables_link _ _ _ _ T r i U I' Hr' Hl Hg Hi Hz' ltac:(by rewrite lookup_insert_eq) Hempty) as I2. rewrite Elink in I2.
    assert (forall T' r' j, R !! T' = Some r' -> 0 <= j < 512 -> T' <> T \/ j <> i ->
      word_at (set_words <[T + 8 * i := link U]> (fresh_table f U s)) T' j = word_at s T' j) as Hw.
    { intros T' r' j H' Hj Hne. rewrite word_write by (done || exact (role_frame _ _ _ _ _ _ I H')).
      rewrite decide_False by naive_solver. by apply (Hs T' r'). }
    assert (T <> U) as HTU by (by intros ->; rewrite HN in Hr).
    split; [done|]. split; [split; [done|done| |]|split; [done|]].
    + intros T' r' H'. rewrite lookup_insert_ne; [done|]. by intros ->; rewrite HN in H'.
    + intros T' r' j H' Hl' Hj Hne. apply (Hw T' r'); [done|done|]. destruct (decide (T' = T)) as [->|]; [right; naive_solver|by left].
    + exists U. split; [done|]. split; [by rewrite lookup_insert_eq|]. split.
      * rewrite word_write by done. by rewrite decide_True.
      * intros j Hj. rewrite word_write by done. rewrite decide_False by naive_solver. by apply Hempty.
Qed.

(** Reading the next level on a plain path, with a new table if there is none. *)
Lemma next_entry_ok held R a s T r h p virt :
  tables_ok M held R a s -> R !! T = Some r -> (0 < lvl r < 3)%nat -> on_path h p r -> plain p -> virt < 2 ^ 48 ->
  exists held' R' s' o, next_entry T (idx (lvl r) p) virt s = Ok (o, s') /\ tables_ok M held' R' a s' /\ extends R s R' s' /\
    (forall T' r' j, R !! T' = Some r' -> lvl r' = 3%nat -> 0 <= j < 512 -> word_at s' T' j = word_at s T' j) /\
    match o with
    | inl err => err = NoMemory /\ no_frames s' = true
    | inr e => word_at s' T (idx (lvl r) p) = e /\ bit_set e 0 = true /\ R' !! table_of e = Some (below r (idx (lvl r) p))
    end.
Proof.
  intros I Hr Hl Hp Hpl Hv. unfold next_entry, mbind, st_bind. rewrite readTable_ok by (done || by eapply role_frame).
  destruct (entry_step _ _ _ _ _ _ _ _ I Hr Hp Hpl ltac:(lia)) as [He Hb]. cbn zeta in He, Hb.
  assert (link_value (lvl r) (idx (lvl r) p) = link) as Elink
    by (unfold link_value; by replace (lvl r =? 3)%nat with false by (symmetry; apply Nat.eqb_neq; lia)).
  destruct (bit_set (word_at s T (idx (lvl r) p)) 0) eqn:E; cbn [negb].
  - destruct He as [He|(U & He & HU & HF)]; [by rewrite He in E|]. rewrite Elink in He.
    rewrite He, link_small by done. exists held, R, s, (inr (link U)). rewrite <- He. split_and!; done.
  - destruct (new_table_ok held R a s T r (idx (lvl r) p) virt I Hr) as (held' & R' & s' & o & -> & I' & Hx & Hw & Ho); try done.
    + lia.
    + by eapply plain_giants.
    + apply (plain_giants h p); [done|]. apply on_path_below; [apply Hpl|done|lia].
    + assert (forall T' r' j, R !! T' = Some r' -> lvl r' = 3%nat -> 0 <= j < 512 -> word_at s' T' j = word_at s T' j) as Hroots.
      { intros T' r' j H' Hl' Hj. apply (Hw T' r'); [done|done|]. left. intros ->. rewrite Hr in H'. injection H' as ->. lia. }
      exists held', R', s'. destruct o as [e|].
      * exists (inr e). destruct Ho as (U & -> & HU & Hwe & _). pose proof (role_frame _ _ _ _ _ _ I' HU) as HF. split; [done|].
        split; [done|]. split; [done|]. split; [done|].
        split; [done|]. rewrite <- Elink. rewrite link_present, link_table by done. done.
      * exists (inl NoMemory). destruct Ho as [Ho _]. split_and!; done.
Qed.

(** Entering a new, empty table of the shared half into the roots of the
    children. *)
Lemma broadcast_ok held R a i U cs : forall s,
  tables_ok M held R a s -> NoDup cs -> 256 < i < 512 -> R !! U = Some (Role 2 None i) ->
  (forall j, 0 <= j < 512 -> word_at s U j = 0) ->
  (forall c, c ∈ cs -> exists x, handlers s !! c = Some x /\ word_at s (pml4Phys x) i = 0) ->
  exists s', broadcast cs i (link U) s = Ok ((), s') /\ tables_ok M held R a s' /\ handlers s' = handlers s /\
    gPhysApertureAvailable s' = gPhysApertureAvailable s /\ frames s' = frames s /\
    (forall c x, c ∈ cs -> handlers s !! c = Some x -> word_at s' (pml4Phys x) i = link U) /\
    (forall T r j, R !! T = Some r -> 0 <= j < 512 ->
       j <> i \/ (forall c x, c ∈ cs -> handlers s !! c = Some x -> pml4Phys x <> T) -> word_at s' T j = word_at s T j).
Proof.
  induction cs as [|c cs IH]; intros s I Hnd Hi HU Hempty Hcs.
  { exists s. split_and!; try done; [intros ? ? H; by apply elem_of_nil in H]. }
  apply NoDup_cons in Hnd as [Hc Hnd]. destruct (Hcs c ltac:(by left)) as (x & Hx & Hz). cbn [broadcast].
  pose proof (ti_root _ _ _ _ _ I c x Hx) as Hroot. pose proof (role_frame _ _ _ _ _ _ I Hroot) as HF.
  unfold mbind, st_bind, the_handler, mbind, res_bind. rewrite Hx. cbn [res_of].
  replace (pml4Phys x =? 0) with false by (destruct HF; blia). cbn [negb]. rewrite writeTable_ok by (done || lia).
  set (s1 := set_words _ s).
  assert (tables_ok M held R a s1) as I1.
  { pose proof (tables_link held R a s (pml4Phys x) _ i U I Hroot ltac:(done) ltac:(done) ltac:(lia) Hz) as H. unfold link_value in H.
    cbn [lvl Nat.eqb] in H. replace (i =? 256) with false in H by blia. cbn [andb] in H. apply H; [|done].
    unfold below. cbn [lvl space pre Nat.eqb andb pred]. replace (256 <=? i) with true by blia. by rewrite Z.mul_0_l, Z.add_0_l. }
  assert (forall T r j, R !! T = Some r -> 0 <= j < 512 ->
    word_at s1 T j = if decide (pml4Phys x = T /\ i = j) then link U else word_at s T j) as Hw1.
  { intros T r j HT Hj. apply word_write; [done|exact (role_frame _ _ _ _ _ _ I HT)|lia|done]. }
  assert (forall c' x', handlers s !! c' = Some x' -> pml4Phys x' = pml4Phys x -> c' = c) as Hinj.
  { intros c' x' Hx' E. pose proof (ti_root _ _ _ _ _ I c' x' Hx') as H'. rewrite E, Hroot in H'. by injection H'. }
  destruct (IH s1 I1 Hnd Hi HU) as (s' & -> & I' & Hh & Hg & Hf & Hin & Hout).
  - intros j Hj. rewrite (Hw1 U _ j HU Hj). rewrite decide_False; [by apply Hempty|].
    intros [E _]. rewrite E, HU in Hroot. by injection Hroot.
  - intros c' Hc'. destruct (Hcs c' ltac:(by right)) as (x' & Hx' & Hz'). exists x'. split; [done|].
    rewrite (Hw1 _ _ i (ti_root _ _ _ _ _ I c' x' Hx')) by lia. rewrite decide_False; [done|].
    intros [E _]. apply Hc. by rewrite <- (Hinj c' x' Hx' (eq_sym E)).
  - exists s'. split_and!; try done.
    + intros c' x' Hc' Hx'. apply elem_of_cons in Hc' as [->|Hc'].
      * assert (x' = x) as -> by congruence. rewrite (Hout _ _ i Hroot).
        -- rewrite (Hw1 _ _ i Hroot) by lia. by rewrite decide_True.
        -- lia.
        -- right. intros c' x' Hc' Hx2 E. apply Hc. by rewrite <- (Hinj c' x' Hx2 E).
      * by apply (Hin c').
    + intros T r j HT Hj Hor. rewrite (Hout T r j HT Hj).
      * rewrite (Hw1 T r j HT Hj). rewrite decide_False; [done|]. intros [E <-]. destruct Hor as [|Hor]; [done|].
        by apply (Hor c x); [left|..].
      * destruct Hor as [|Hor]; [by left|right]. intros c' x' Hc' Hx'. apply (Hor c' x'); [by right|done].
Qed.

(** ** The invariant of all handlers

    [k] is the kernel's handler.  The children share the upper half of its root,
    so their roots agree there; once there are children, changes are broadcast. *)
Record mmu_ok (k : Z) (x0 : Handler) (held : gset Z) (R : gmap Z role) (a : pagemap) (s : mmu) : Prop := {
  mi_tables : tables_ok M held R a s;
  mi_kernel : handlers s !! k = Some x0 /\ parent x0 = None /\ NoDup (children x0);
  mi_aperture : word_at s (pml4Phys x0) 256 <> 0;
  mi_255 : word_at s (pml4Phys x0) 255 = 0;
  mi_children : forall h x, handlers s !! h = Some x -> h <> k -> parent x = Some k /\ h ∈ children x0;
  mi_known : forall h, h ∈ children x0 -> h <> k /\ is_Some (handlers s !! h);
  mi_shared : forall h x i, handlers s !! h = Some x -> 256 <= i < 512 -> word_at s (pml4Phys x) i = word_at s (pml4Phys x0) i;
  mi_broadcast : gPhysApertureAvailable s = true \/ children x0 = [];
  mi_keys : forall h p, is_Some (a !! (Some h, p)) -> is_Some (handlers s !! h);
  mi_dealloc : forall h x, handlers s !! h = Some x -> physToDealloc x = []
}.

(** Changes that keep the roots alike. *)
Lemma mmu_ok_roots k x0 held R a s held' R' a' s' :
  mmu_ok k x0 held R a s -> tables_ok M held' R' a' s' -> handlers s' = handlers s ->
  gPhysApertureAvailable s' = gPhysApertureAvailable s ->
  word_at s' (pml4Phys x0) 256 = word_at s (pml4Phys x0) 256 -> word_at s' (pml4Phys x0) 255 = word_at s (pml4Phys x0) 255 ->
  (forall h x i, handlers s !! h = Some x -> 256 <= i < 512 -> word_at s' (pml4Phys x) i = word_at s' (pml4Phys x0) i) ->
  (forall h p, is_Some (a' !! (Some h, p)) -> is_Some (handlers s !! h)) ->
  mmu_ok k x0 held' R' a' s'.
Proof.
  intros I I' Hh Hg H256 H255 Hs Hk. split; rewrite ?Hh, ?Hg; try done; try apply I.
  - rewrite H256. apply I.
  - rewrite H255. apply I.
Qed.
Lemma mmu_ok_below k x0 held R a s held' R' a' s' :
  mmu_ok k x0 held R a s -> tables_ok M held' R' a' s' -> handlers s' = handlers s ->
  gPhysApertureAvailable s' = gPhysApertureAvailable s ->
  (forall h x j, handlers s !! h = Some x -> 0 <= j < 512 -> word_at s' (pml4Phys x) j = word_at s (pml4Phys x) j) ->
  (forall h p, is_Some (a' !! (Some h, p)) -> is_Some (handlers s !! h)) ->
  mmu_ok k x0 held' R' a' s'.
Proof.
  intros I I' Hh Hg Hr Hk. destruct (mi_kernel _ _ _ _ _ _ I) as (H0 & _).
  apply (mmu_ok_roots k x0 held R a s); try done; [apply (Hr k); [done|lia]..|].
  intros h x i Hx Hi. rewrite (Hr h), (Hr k) by (done || lia). by eapply mi_shared.
Qed.

Lemma below_root h i : 256 <= i -> below (Role 3 (Some h) 0) i = Role 2 None i.
Proof.
  intros Hi. unfold below. cbn [lvl space pre Nat.eqb andb pred]. replace (256 <=? i) with true by blia. by rewrite Z.mul_0_l, Z.add_0_l.
Qed.

(** Broadcasting makes the roots alike again. *)
Lemma share_ok k x0 held R a s held' R' s' i U :
  mmu_ok k x0 held R a s -> tables_ok M held' R' a s' -> extends R s R' s' ->
  (forall h y j, handlers s !! h = Some y -> 0 <= j < 512 -> h <> k \/ j <> i -> word_at s' (pml4Phys y) j = word_at s (pml4Phys y) j) ->
  R' !! U = Some (Role 2 None i) -> word_at s' (pml4Phys x0) i = link U -> (forall j, 0 <= j < 512 -> word_at s' U j = 0) ->
  word_at s (pml4Phys x0) i = 0 -> 256 < i < 512 ->
  exists s2, broadcastKernelPml4Update k i (link U) s' = Ok ((), s2) /\ mmu_ok k x0 held' R' a s2 /\ extends R s R' s2 /\
    word_at s2 (pml4Phys x0) i = link U.
Proof.
  intros I I' Hex Hroots HU Hwe Hempty Hz Hi. pose proof (mi_tables _ _ _ _ _ _ I) as It.
  destruct (mi_kernel _ _ _ _ _ _ I) as (H0 & Hpar & Hnd).
  unfold broadcastKernelPml4Update, mbind, st_bind, the_handler, mbind, res_bind. rewrite (ex_handlers _ _ _ _ Hex), H0. cbn [res_of].
  destruct (broadcast_ok held' R' a i U (children x0) s' I' Hnd Hi HU Hempty) as (s2 & -> & I2 & Hh2 & Hg2 & _ & Hin & Hout).
  { intros c Hc. destruct (mi_known _ _ _ _ _ _ I c Hc) as (Hck & y & Hy). exists y. rewrite (ex_handlers _ _ _ _ Hex). split; [done|].
    rewrite (Hroots c) by (done || lia || tauto). by rewrite (mi_shared _ _ _ _ _ _ I c y) by (done || lia). }
  rewrite (ex_handlers _ _ _ _ Hex) in Hin, Hout, Hh2.
  assert (forall h y j, handlers s !! h = Some y -> 0 <= j < 512 -> h = k \/ j <> i -> word_at s2 (pml4Phys y) j = word_at s' (pml4Phys y) j) as Hroots2.
  { intros h y j Hy Hj Hor. eapply Hout; [apply (ti_root _ _ _ _ _ I' h); by rewrite (ex_handlers _ _ _ _ Hex)|done|].
    destruct Hor as [->|]; [right|by left]. intros c z Hc Hz' EE. destruct (mi_known _ _ _ _ _ _ I c Hc) as (Hck & _).
    pose proof (ti_root _ _ _ _ _ It c z Hz') as H'. rewrite EE, (ti_root _ _ _ _ _ It k y Hy) in H'. by injection H'. }
  exists s2. split; [done|]. split; [|split].
  - apply (mmu_ok_roots k x0 held R a s); try done.
    + rewrite Hg2. apply Hex.
    + rewrite (Hroots2 k), (Hroots k) by (done || lia || (right; lia)). done.
    + rewrite (Hroots2 k), (Hroots k) by (done || lia || (right; lia)). done.
    + intros h y j Hy Hj. rewrite (Hroots2 k x0) by (done || lia || tauto). destruct (decide (h = k)) as [->|Hhk].
      { assert (y = x0) as -> by congruence. by rewrite (Hroots2 k x0) by (done || lia || tauto). }
      destruct (decide (j = i)) as [->|Hip].
      { rewrite Hwe. apply (Hin h); [|done]. by apply (mi_children _ _ _ _ _ _ I h y). }
      rewrite (Hroots2 h y), (Hroots h y), (Hroots k x0) by (done || lia || tauto). by apply (mi_shared _ _ _ _ _ _ I h).
    + apply I.
  - split; [done|rewrite Hg2; apply Hex|apply Hex|].
    intros T r j HT Hl Hj Hne. rewrite <- (ex_words _ _ _ _ Hex T r j HT Hl Hj Hne).
    eapply Hout; [by apply Hex|done|]. destruct (decide (j = i)) as [->|]; [right|by left].
    intros c z Hc Hz' <-. apply Hne. by rewrite (mi_shared _ _ _ _ _ _ I c z _ Hz') by lia.
  - by rewrite (Hroots2 k x0) by (done || lia || tauto).
Qed.

Lemma pml4_entry_ok k x0 held R a s this x _virt p :
  mmu_ok k x0 held R a s -> handlers s !! this = Some x -> plain p -> _virt .& 0xFFFFFFFFFFFF < 2 ^ 48 ->
  ((_virt .& 0xFFFFFFFFFFFF) >> 39) .& 0x1FF = idx 3 p -> (kKernelBoundary <=? _virt) = (256 <=? idx 3 p) ->
  (if decide (this = k) then idx 3 p <> 255 else idx 3 p < 256) ->
  exists held' R' s' o, pml4_entry this x _virt (_virt .& 0xFFFFFFFFFFFF) s = Ok (o, s') /\ mmu_ok k x0 held' R' a s' /\
    extends R s R' s' /\
    match o with
    | None => no_frames s' = true
    | Some e => word_at s' (pml4Phys x) (idx 3 p) = e /\ bit_set e 0 = true /\
                R' !! table_of e = Some (below (Role 3 (Some this) 0) (idx 3 p))
    end.
Proof.
  intros I Hx Hpl Hv Hidx Hk Hreq. pose proof (mi_tables _ _ _ _ _ _ I) as It.
  pose proof (ti_root _ _ _ _ _ It this x Hx) as Hroot. pose proof (role_frame _ _ _ _ _ _ It Hroot) as HF.
  destruct (mi_kernel _ _ _ _ _ _ I) as (H0 & Hpar & Hnd).
  pose proof (root_path this p Hpl) as Hrp. pose proof (idx_range 3 p) as Hir.
  unfold pml4_entry. rewrite !Hidx, Hk. unfold mbind, st_bind. rewrite readTable_ok by done.
  destruct (entry_step _ _ _ _ _ _ _ _ It Hroot Hrp Hpl ltac:(done)) as [He Hb]. cbn [lvl] in He, Hb.
  pose proof (plain_idx p Hpl) as H256.
  assert (link_value 3 (idx 3 p) = link) as Elink by (unfold link_value; cbn [Nat.eqb andb]; by replace (idx 3 p =? 256) with false by blia).
  destruct (bit_set (word_at s (pml4Phys x) (idx 3 p)) 0) eqn:E; cbn [negb].
  { exists held, R, s, (Some (word_at s (pml4Phys x) (idx 3 p))). split_and!; done. }
  destruct (new_table_ok held R a s _ _ (idx 3 p) (_virt .& 0xFFFFFFFFFFFF) It Hroot) as (held' & R' & s' & o & -> & I' & Hex & Hw & Ho); try done.
  { cbn. apply (plain_giants this p); [done|]. by apply (on_path_below _ _ _ (proj1 Hpl) Hrp). }
  assert (forall h y j, handlers s !! h = Some y -> 0 <= j < 512 -> h <> this \/ j <> idx 3 p -> word_at s' (pml4Phys y) j = word_at s (pml4Phys y) j) as Hroots.
  { intros h y j Hy Hj Hor. pose proof (ti_root _ _ _ _ _ It h y Hy) as Hy'. apply (Hw _ _ j Hy' Hj).
    destruct Hor as [Hne|]; [left|by right]. intros EE. rewrite EE, Hroot in Hy'. injection Hy' as ->. done. }
  destruct o as [e|].
  2: { exists held', R', s', None. split; [done|]. destruct Ho as [Hfull Hz]. split; [|done].
       apply (mmu_ok_below k x0 held R a s); try done; [apply Hex..| |apply I].
       intros h y j Hy Hj. destruct (decide (h = this)) as [->|]; [|apply (Hroots h); tauto].
       destruct (decide (j = idx 3 p)) as [->|]; [|apply (Hroots this); tauto]. assert (y = x) as -> by congruence. by rewrite Hz, Hb. }
  destruct Ho as (U & -> & HU & Hwe & Hempty). pose proof (role_frame _ _ _ _ _ _ I' HU) as HFU.
  assert (forall s2, mmu_ok k x0 held' R' a s2 -> extends R s R' s2 -> word_at s2 (pml4Phys x) (idx 3 p) = link U ->
    exists held' R' s' o, Ok (Some (link U), s2) = Ok (o, s') /\ mmu_ok k x0 held' R' a s' /\ extends R s R' s' /\
    match o with
    | None => no_frames s' = true
    | Some e => word_at s' (pml4Phys x) (idx 3 p) = e /\ bit_set e 0 = true /\
                R' !! table_of e = Some (below (Role 3 (Some this) 0) (idx 3 p))
    end) as Hdone.
  { intros s2 I2 Hex2 Hw2. exists held', R', s2, (Some (link U)). rewrite <- Elink, link_present, link_table, Elink by done. by split_and!. }
  cbn [sget]. destruct ((256 <=? idx 3 p) && gPhysApertureAvailable s' && bool_decide (parent x = None)) eqn:Ebc.
  - apply andb_true_iff in Ebc as [[E1 E2]%andb_true_iff E3%bool_decide_eq_true]. apply Z.leb_le in E1.
    assert (this = k) as ->. { destruct (decide (this = k)); [done|lia]. }
    assert (x = x0) as -> by congruence. rewrite below_root in HU by lia.
    destruct (share_ok k x0 held R a s held' R' s' (idx 3 p) U I I' Hex Hroots HU Hwe Hempty Hb ltac:(lia)) as (s2 & -> & I2 & Hex2 & Hw2).
    by apply Hdone.
  - apply Hdone; [|done|done]. apply (mmu_ok_roots k x0 held R a s); try done; [apply Hex..| | | |apply I].
    + apply (Hroots k); [done|lia|right; lia].
    + apply (Hroots k); [done|lia|]. destruct (decide (this = k)); [right; lia|by left].
    + intros h y i Hy Hi. destruct (decide (i = idx 3 p)) as [->|Hip].
      * destruct (decide (this = k)) as [->|]; [|lia]. assert (x = x0) as -> by congruence.
        rewrite Hpar, bool_decide_eq_true_2, andb_true_r in Ebc by done. replace (256 <=? idx 3 p) with true in Ebc by blia. cbn [andb] in Ebc.
        rewrite (ex_aperture _ _ _ _ Hex) in Ebc. destruct (mi_broadcast _ _ _ _ _ _ I) as [Hav|Hnil]; [congruence|].
        destruct (decide (h = k)) as [->|Hhk]; [by assert (y = x0) as -> by congruence|].
        destruct (mi_children _ _ _ _ _ _ I h y Hy Hhk) as [_ Hin]. rewrite Hnil in Hin. by apply elem_of_nil in Hin.
      * rewrite (Hroots h y), (Hroots k x0) by (done || lia || tauto). by apply (mi_shared _ _ _ _ _ _ I h).
Qed.

(** ** Addresses *)

(** The page number of an address. *)
Definition page (_virt : Z) : Z := (_virt mod 2 ^ 48) / 4096.

Lemma virt_mod _virt : _virt .& 0xFFFFFFFFFFFF = _virt mod 2 ^ 48.
Proof. apply (land_mask _ 48). lia. Qed.
Lemma virt_idx (m : nat) _virt n : n = 12 + 9 * Z.of_nat m -> ((_virt .& 0xFFFFFFFFFFFF) >> n) .& 0x1FF = idx m (page _virt).
Proof.
  intros ->. unfold idx, page. rewrite virt_mod. f_equal. rewrite !Z.shiftr_div_pow2 by lia.
  by rewrite Z.pow_add_r, <- Z.div_div by lia.
Qed.
Lemma page_range _virt : 0 <= page _virt < 2 ^ 36.
Proof.
  unfold page. pose proof (Z.mod_pos_bound _virt (2 ^ 48) ltac:(lia)).
  split; [apply Z.div_pos|apply Z.div_lt_upper_bound]; lia.
Qed.
Lemma canonical_cases _virt : is_u 64 _virt -> canonical _virt = true ->
  _virt < 2 ^ 47 /\ _virt mod 2 ^ 48 = _virt \/ 2 ^ 64 - 2 ^ 47 <= _virt /\ _virt mod 2 ^ 48 = _virt - (2 ^ 64 - 2 ^ 48).
Proof.
  unfold is_u, canonical. intros Hu Hc. apply negb_true_iff, andb_false_iff in Hc as [Hc|Hc]; apply Z.ltb_ge in Hc; [left|right].
  - split; [lia|]. apply Z.mod_small. lia.
  - split; [lia|]. symmetry. apply (Z.mod_unique _ _ (2 ^ 16 - 1)); lia.
Qed.
Lemma kernel_half _virt : is_u 64 _virt -> canonical _virt = true -> (kKernelBoundary <=? _virt) = (2 ^ 35 <=? page _virt).
Proof.
  intros Hu Hc. unfold page, kKernelBoundary.
  destruct (canonical_cases _ Hu Hc) as [[H ->]|[H ->]].
  - replace (_ <=? _virt) with false by blia. symmetry. apply Z.leb_gt, Z.div_lt_upper_bound; lia.
  - replace (_ <=? _virt) with true by blia. symmetry. apply Z.leb_le, Z.div_le_lower_bound; lia.
Qed.

(** Handlers that share a page reach it through the same table. *)
Lemma reach_shared k x0 held R a s h x h' x' p :
  mmu_ok k x0 held R a s -> handlers s !! h = Some x -> handlers s !! h' = Some x' -> plain p -> slot h p = slot h' p ->
  reach 3 s (pml4Phys x) p = reach 3 s (pml4Phys x') p.
Proof.
  intros I Hx Hx' [Hp _] E. injection E as E. unfold half in E. destruct (2 ^ 35 <=? p) eqn:Ek.
  - pose proof (half_idx p Hp) as Hh. rewrite Ek in Hh. apply Z.leb_le in Hh. pose proof (idx_range 3 p).
    cbn [reach]. by rewrite (mi_shared _ _ _ _ _ _ I h x _ Hx), (mi_shared _ _ _ _ _ _ I h' x' _ Hx') by lia.
  - injection E as ->. congruence.
Qed.

Lemma reach_3 s T p e3 e2 e1 :
  word_at s T (idx 3 p) = e3 -> bit_set e3 0 = true -> word_at s (table_of e3) (idx 2 p) = e2 -> bit_set e2 0 = true ->
  word_at s (table_of e2) (idx 1 p) = e1 -> bit_set e1 0 = true -> reach 3 s T p = Some (table_of e1).
Proof. intros E3 H3 E2 H2 E1 H1. cbn [reach]. by rewrite E3, H3, E2, H2, E1, H1. Qed.

(** Writing the entry of a page once its table is found. *)
Lemma leaf_ok k x0 held R a s this x p T r o :
  mmu_ok k x0 held R a s -> handlers s !! this = Some x -> plain p -> R !! T = Some r -> lvl r = O -> on_path this p r ->
  reach 3 s (pml4Phys x) p = Some T ->
  mmu_ok k x0 held R (partial_alter (fun _ => o) (slot this p) a) (set_words <[T + 8 * idx 0 p := from_option pte_of 0 o]> s).
Proof.
  intros I Hx Hpl Hr Hl Hp Hre. pose proof (mi_tables _ _ _ _ _ _ I) as It.
  apply (mmu_ok_below k x0 held R a s); try done.
  - apply (tables_leaf held R a s T r); try done. intros h y Hy E. by rewrite (reach_shared k x0 held R a s h y this x).
  - intros h y j Hy Hj. pose proof (ti_root _ _ _ _ _ It h y Hy) as Hroot.
    rewrite word_write by (done || by eapply role_frame). rewrite decide_False; [done|]. intros [-> _]. by rewrite Hroot in Hr; injection Hr as <-.
  - intros h q. destruct (decide ((Some h, q) = slot this p)) as [E|E].
    + rewrite <- E, lookup_partial_alter_eq. injection E as E _. unfold half in E. destruct (_ <=? _); [done|]. injection E as ->. intros _. by exists x.
    + rewrite lookup_partial_alter_ne by done. apply I.
Qed.

Lemma next_ok k x0 held R a s T r this p virt :
  mmu_ok k x0 held R a s -> R !! T = Some r -> (0 < lvl r < 3)%nat -> on_path this p r -> plain p -> virt < 2 ^ 48 ->
  exists held' R' s' o, next_entry T (idx (lvl r) p) virt s = Ok (o, s') /\ mmu_ok k x0 held' R' a s' /\ extends R s R' s' /\
    match o with
    | inl err => err = NoMemory /\ no_frames s' = true
    | inr e => word_at s' T (idx (lvl r) p) = e /\ bit_set e 0 = true /\
               exists r', R' !! table_of e = Some r' /\ lvl r' = pred (lvl r) /\ on_path this p r'
    end.
Proof.
  intros I Hr Hl Hp Hpl Hv. pose proof (mi_tables _ _ _ _ _ _ I) as It.
  destruct (next_entry_ok held R a s T r this p virt It Hr Hl Hp Hpl Hv) as (held' & R' & s' & o & E & I' & Hex & Hroots & Ho).
  exists held', R', s', o. split; [done|]. split.
  { apply (mmu_ok_below k x0 held R a s); try done; [apply Hex..| |apply I].
    intros h y j Hy Hj. eapply Hroots; [by eapply ti_root|done|done]. }
  split; [done|]. destruct o as [err|e]; [done|]. destruct Ho as (H1 & H2 & H3). split; [done|]. split; [done|].
  eexists. split; [done|]. split; [done|]. apply on_path_below; [apply Hpl|done|lia].
Qed.

Lemma map_tables_ok k x0 held R a s this x phys _virt w e g u :
  let p := page _virt in
  mmu_ok k x0 held R a s -> handlers s !! this = Some x -> is_u 64 _virt -> canonical _virt = true -> plain p ->
  (if decide (this = k) then idx 3 p <> 255 else idx 3 p < 256) ->
  exists held' R' a' s' r, map_tables this x phys _virt w e g u s = Ok (r, s') /\ mmu_ok k x0 held' R' a' s' /\
    handlers s' = handlers s /\ gPhysApertureAvailable s' = gPhysApertureAvailable s /\
    (r = Success /\ a' = <[slot this p := Tr phys w e g u]> a \/ r = NoMemory /\ no_frames s' = true /\ a' = a).
Proof.
  intros p I Hx Hu Hc Hpl Hreq. unfold map_tables.
  assert (_virt .& 0xFFFFFFFFFFFF < 2 ^ 48) as Hv by (rewrite virt_mod; apply Z.mod_pos_bound; lia).
  rewrite (virt_idx 2 _ 30), (virt_idx 1 _ 21), (virt_idx 0 _ 12) by lia. fold p.
  destruct (pml4_entry_ok k x0 held R a s this x _virt p I Hx Hpl Hv) as (h1 & R1 & s1 & o1 & E1 & I1 & X1 & O1); try done.
  { by apply virt_idx. } { rewrite (kernel_half _ Hu Hc). symmetry. apply half_idx, page_range. }
  unfold mbind, st_bind. rewrite E1. destruct o1 as [e3|].
  2: { exists h1, R1, a, s1, NoMemory. split_and!; [done|done|apply X1|apply X1|by right]. }
  destruct O1 as (W3 & B3 & HR3). pose proof (on_path_below this p _ (proj1 Hpl) (root_path this p Hpl) ltac:(done)) as P2.
  cbn [lvl] in P2. set (r2 := below _ _) in *.
  destruct (next_ok k x0 h1 R1 a s1 (table_of e3) r2 this p (_virt .& 0xFFFFFFFFFFFF) I1 HR3 ltac:(cbn; lia) P2 Hpl Hv)
    as (h2 & R2 & s2 & o2 & E2 & I2 & X2 & O2).
  change (idx (lvl r2) p) with (idx 2 p) in *. rewrite E2. pose proof (extends_trans _ _ _ _ _ _ X1 X2) as X12. destruct o2 as [err|e2].
  { exists h2, R2, a, s2, err. destruct O2 as [-> Hfull]. split_and!; [done|done|apply X12|apply X12|by right]. }
  destruct O2 as (W2 & B2 & r1 & HR2 & L1 & P1). change (pred (lvl r2)) with 1%nat in L1.
  destruct (next_ok k x0 h2 R2 a s2 (table_of e2) r1 this p (_virt .& 0xFFFFFFFFFFFF) I2 HR2 ltac:(lia) P1 Hpl Hv)
    as (h3 & R3 & s3 & o3 & E3 & I3 & X3 & O3).
  rewrite L1 in *. rewrite E3. pose proof (extends_trans _ _ _ _ _ _ X12 X3) as X13. destruct o3 as [err|e1].
  { exists h3, R3, a, s3, err. destruct O3 as [-> Hfull]. split_and!; [done|done|apply X13|apply X13|by right]. }
  destruct O3 as (W1 & B1 & r0 & HR1 & L0 & P0). cbn [pred] in L0.
  rewrite writeTable_ok by (done || by eapply role_frame; [apply I3|]).
  assert (forall z, bit_set z 0 = true -> z <> 0) as Hnz by (by intros z Hz ->).
  assert (word_at s3 (pml4Phys x) (idx 3 p) = e3) as W3'.
  { rewrite <- W3. apply (ex_words _ _ _ _ (extends_trans _ _ _ _ _ _ X2 X3) _ (Role 3 (Some this) 0)); [|done|done|rewrite W3; auto].
    apply (ti_root _ _ _ _ _ (mi_tables _ _ _ _ _ _ I1) this x). by rewrite (ex_handlers _ _ _ _ X1). }
  assert (word_at s3 (table_of e3) (idx 2 p) = e2) as W2'.
  { rewrite <- W2. apply (ex_words _ _ _ _ X3 _ r2); [by apply (ex_roles _ _ _ _ X2)|done|done|rewrite W2; auto]. }
  pose proof (leaf_ok k x0 h3 R3 a s3 this x p (table_of e1) r0 (Some (Tr phys w e g u)) I3) as Hleaf.
  exists h3, R3, (<[slot this p := Tr phys w e g u]> a). eexists _, Success. split; [done|]. split; [|split; [apply X13|split; [apply X13|by left]]].
  apply Hleaf; try done; [by rewrite (ex_handlers _ _ _ _ X13)|by eapply reach_3].
Qed.

(** ** Reading *)

Lemma link_flags U : frame U ->
  has (link U) NoExecute = false /\ has (link U) Writable = true /\ has (link U) UserAccess = true.
Proof.
  intros HF. unfold NoExecute, Writable, UserAccess. rewrite !has_eq, !link_bits by (done || lia). split; [|done].
  apply (frame_bits U 63); [done|lia].
Qed.
Lemma gater_link flags U : frame U -> gater flags (link U) false = flags.
Proof. intros HF. unfold gater. destruct (link_flags U HF) as (-> & -> & ->). done. Qed.

Lemma pte_flags phys w x g u :
  has (pte_value phys w x g u) NoExecute = negb x && nx /\ has (pte_value phys w x g u) Writable = w /\
  has (pte_value phys w x g u) UserAccess = u /\
  has (pte_value phys w x g u) Accessed = false /\ has (pte_value phys w x g u) Dirty = false.
Proof.
  unfold NoExecute, Writable, UserAccess, Accessed, Dirty. rewrite !has_eq, !pte_bits, !table_of_bits by lia. cbn -[Z.testbit].
  rewrite ?andb_false_r, ?andb_true_r, ?orb_false_r. done.
Qed.

(** A level of a plain path. *)
Lemma read_level held R a s T r h p :
  tables_ok M held R a s -> R !! T = Some r -> lvl r <> O -> on_path h p r -> plain p ->
  frame T /\
  (word_at s T (idx (lvl r) p) = 0 \/
   exists U r', word_at s T (idx (lvl r) p) = link U /\ frame U /\ bit_set (link U) 0 = true /\ bit_set (link U) 7 = false /\
     table_of (link U) = U /\ R !! U = Some r' /\ lvl r' = pred (lvl r) /\ on_path h p r').
Proof.
  intros I Hr Hl Hp Hpl. split; [by eapply role_frame|].
  destruct (entry_step _ _ _ _ _ _ _ _ I Hr Hp Hpl Hl) as [[He|(U & He & HU & HF)] _]; [by left|right].
  assert (link_value (lvl r) (idx (lvl r) p) U = link U) as El.
  { unfold link_value. destruct (Nat.eqb_spec (lvl r) 3) as [E3|]; [|done]. rewrite E3. cbn [andb].
    by rewrite (proj2 (Z.eqb_neq _ _) (plain_idx p Hpl)). }
  exists U, (below r (idx (lvl r) p)). rewrite He, El. split; [done|]. split; [done|].
  pose proof (link_present (lvl r) (idx (lvl r) p) U HF) as H1. pose proof (link_table (lvl r) (idx (lvl r) p) U HF) as H2.
  rewrite El in H1, H2. split; [done|]. split; [by apply link_small|]. split; [done|]. split; [done|]. split; [done|].
  apply on_path_below; [apply Hpl|done|done].
Qed.

Lemma link_reads U : frame U -> bit_set (link U) 0 = true /\ bit_set (link U) 7 = false /\ table_of (link U) = U.
Proof.
  intros HF. split; [apply (link_present 0 0 U HF)|]. split; [by apply link_small|apply (link_table 0 0 U HF)].
Qed.

Ltac read_links :=
  repeat match goal with
  | HF : frame ?U |- context [readTable ?U _ _] => rewrite (readTable_ok _ U) by done
  | H : word_at _ _ _ = link ?U |- _ => rewrite H
  | H : word_at _ _ _ = 0 |- _ => rewrite H
  | |- context [bit_set 0 0] => change (bit_set 0 0) with false
  | HF : frame ?U |- context [bit_set (link ?U) 0] => rewrite (proj1 (link_reads U HF))
  | HF : frame ?U |- context [bit_set (link ?U) 7] => rewrite (proj1 (proj2 (link_reads U HF)))
  | HF : frame ?U |- context [table_of (link ?U)] => rewrite (proj2 (proj2 (link_reads U HF)))
  | _ => progress cbn [negb]
  end.

(** The levels of a walk: it ends at a missing table, or at a page table. *)
Inductive path (s : mmu) (R : gmap Z role) (T h p : Z) : Prop :=
| Ends3 : word_at s T (idx 3 p) = 0 -> reach 3 s T p = None -> path s R T h p
| Ends2 U2 : word_at s T (idx 3 p) = link U2 -> frame U2 -> word_at s U2 (idx 2 p) = 0 -> reach 3 s T p = None -> path s R T h p
| Ends1 U2 U1 : word_at s T (idx 3 p) = link U2 -> frame U2 -> word_at s U2 (idx 2 p) = link U1 -> frame U1 ->
    word_at s U1 (idx 1 p) = 0 -> reach 3 s T p = None -> path s R T h p
| Reaches U2 U1 U0 r0 : word_at s T (idx 3 p) = link U2 -> frame U2 -> word_at s U2 (idx 2 p) = link U1 -> frame U1 ->
    word_at s U1 (idx 1 p) = link U0 -> frame U0 -> reach 3 s T p = Some U0 ->
    R !! U0 = Some r0 -> lvl r0 = O -> on_path h p r0 -> path s R T h p.

Lemma path_ok held R a s h x p :
  tables_ok M held R a s -> handlers s !! h = Some x -> plain p -> frame (pml4Phys x) /\ path s R (pml4Phys x) h p.
Proof.
  intros I Hx Hpl. pose proof (ti_root _ _ _ _ _ I h x Hx) as Hr3.
  destruct (read_level _ _ _ _ _ _ _ _ I Hr3 ltac:(done) (root_path h p Hpl) Hpl) as [HF [H3|(U2 & r2 & H3 & HF2 & _ & _ & _ & Hr2 & L2 & P2)]];
    (split; [done|]); cbn [lvl pred] in H3; [apply Ends3; [done|]; cbn [reach]; by read_links|]. cbn [lvl pred] in L2.
  destruct (read_level _ _ _ _ _ _ _ _ I Hr2 ltac:(by rewrite L2) P2 Hpl) as [_ [H2|(U1 & r1 & H2 & HF1 & _ & _ & _ & Hr1 & L1 & P1)]];
    rewrite L2 in *; [apply (Ends2 _ _ _ _ _ U2); try done; cbn [reach]; by read_links|]. cbn [pred] in L1.
  destruct (read_level _ _ _ _ _ _ _ _ I Hr1 ltac:(by rewrite L1) P1 Hpl) as [_ [H1|(U0 & r0 & H1 & HF0 & _ & _ & _ & Hr0 & L0 & P0)]];
    rewrite L1 in *.
  - apply (Ends1 _ _ _ _ _ U2 U1); try done. cbn [reach]. by read_links.
  - apply (Reaches _ _ _ _ _ U2 U1 U0 r0); try done. cbn [reach]. by read_links.
Qed.

Lemma unmap_ok k x0 held R a s h x _virt :
  mmu_ok k x0 held R a s -> handlers s !! h = Some x -> plain (page _virt) ->
  exists s' r, unmapPage h _virt s = Ok (r, s') /\ mmu_ok k x0 held R (delete (slot h (page _virt)) a) s' /\
    handlers s' = handlers s /\ gPhysApertureAvailable s' = gPhysApertureAvailable s /\
    (r = PageUnmapped \/ r = NoPageToUnmap /\ a !! slot h (page _virt) = None).
Proof.
  intros I Hx Hpl. set (p := page _virt) in *. pose proof (mi_tables _ _ _ _ _ _ I) as It.
  destruct (path_ok held R a s h x p It Hx Hpl) as [HF Hpath].
  pose proof (ti_agree _ _ _ _ _ It h x p Hx Hpl) as Hag.
  assert (reach 3 s (pml4Phys x) p = None -> a !! slot h p = None) as Hnone.
  { intros E. unfold walk in Hag. rewrite E in Hag. cbn in Hag. by destruct (a !! slot h p). }
  unfold unmapPage, mbind, st_bind, the_handler, mbind, res_bind. rewrite Hx. cbn [res_of].
  rewrite (virt_idx 3 _ 39), (virt_idx 2 _ 30), (virt_idx 1 _ 21), (virt_idx 0 _ 12) by lia. fold p.
  assert (reach 3 s (pml4Phys x) p = None ->
    exists s' r, Ok (NoPageToUnmap, s) = Ok (r, s') /\ mmu_ok k x0 held R (delete (slot h p) a) s' /\
      handlers s' = handlers s /\ gPhysApertureAvailable s' = gPhysApertureAvailable s /\
      (r = PageUnmapped \/ r = NoPageToUnmap /\ a !! slot h p = None)) as Hgone.
  { intros E. exists s, NoPageToUnmap. rewrite delete_id by auto. split_and!; try done. right. auto. }
  destruct Hpath as [H3 Hre|U2 H3 F2 H2 Hre|U2 U1 H3 F2 H2 F1 H1 Hre|U2 U1 U0 r0 H3 F2 H2 F1 H1 F0 Hre Hr Hl Hp];
    [read_links; by apply Hgone..|].
  read_links. rewrite writeTable_ok by done. eexists _, PageUnmapped. split; [done|]. split_and!; [|done|done|by left].
  by apply (leaf_ok k x0 held R a s h x p U0 r0 None).
Qed.

(** The flags of a page, as a walk collects them. *)
Lemma leaf_flags t :
  let fl := gater 6 (pte_of t) true in
  has fl Writable = t_write t /\ (if nx then negb (has fl NoExecute) else true) = t_execute t || negb nx /\
  has fl Global = false /\ has fl UserAccess = t_user t.
Proof.
  destruct t as [phys w x g u]. unfold pte_of. cbn [t_phys t_write t_execute t_global t_user]. unfold gater.
  destruct (pte_flags phys w x g u) as (-> & -> & -> & -> & ->). destruct w, x, u, nx; by vm_compute.
Qed.

Definition found (o : option translation) (_virt : Z) : Z * Found :=
  match o with
  | Some t => (0, {| f_phys := Some (table_of (t_phys t) + _virt mod 4096); f_write := t_write t;
                     f_execute := t_execute t || negb nx; f_global := false; f_user := t_user t |})
  | None => (1, {| f_phys := None; f_write := false; f_execute := true; f_global := false; f_user := false |})
  end.

Lemma offset_mod _virt k : 0 <= k <= 48 -> (_virt .& 0xFFFFFFFFFFFF) .& (2 ^ k - 1) = _virt mod 2 ^ k.
Proof.
  intros Hk. rewrite virt_mod, land_mask by lia. replace (2 ^ 48) with (2 ^ k * 2 ^ (48 - k)) by (rewrite <- Z.pow_add_r by lia; f_equal; lia).
  rewrite Z.rem_mul_r by lia. rewrite Z.mul_comm, Z.mod_add by lia. by rewrite Z.mod_mod by lia.
Qed.

Lemma get_ok k x0 held R a s h x _virt :
  mmu_ok k x0 held R a s -> handlers s !! h = Some x -> canonical _virt = true -> plain (page _virt) ->
  getMapping h _virt s = Ok (found (a !! slot h (page _virt)) _virt, s).
Proof.
  intros I Hx Hc Hpl. set (p := page _virt) in *. pose proof (mi_tables _ _ _ _ _ _ I) as It.
  destruct (path_ok held R a s h x p It Hx Hpl) as [HF Hpath].
  pose proof (ti_agree _ _ _ _ _ It h x p Hx Hpl) as Hag. unfold walk in Hag.
  unfold getMapping, mbind, st_bind, the_handler, mbind, res_bind. rewrite Hx. cbn [res_of]. unfold Resolve. rewrite Hc. cbn [negb].
  rewrite (virt_idx 3 _ 39), (virt_idx 2 _ 30), (virt_idx 1 _ 21), (virt_idx 0 _ 12) by lia. fold p. unfold mbind, st_bind.
  assert (reach 3 s (pml4Phys x) p = None -> a !! slot h p = None) as Hnone.
  { intros E. rewrite E in Hag. cbn in Hag. by destruct (a !! slot h p). }
  destruct Hpath as [H3 Hre|U2 H3 F2 H2 Hre|U2 U1 H3 F2 H2 F1 H1 Hre|U2 U1 U0 r0 H3 F2 H2 F1 H1 F0 Hre Hr Hl Hp];
    [read_links; rewrite Hnone by done; cbn; by destruct nx..|].
  rewrite Hre in Hag. cbn [mbind option_bind] in Hag. read_links. destruct (link_flags U2 F2) as (-> & -> & ->).
  rewrite !gater_link by done. change (_ .| Writable .| UserAccess) with 6.
  destruct (bit_set (word_at s U0 (idx 0 p)) 0); cbn [negb].
  - destruct (a !! slot h p) as [t|]; [|done]. injection Hag as ->. destruct (leaf_flags t) as (E1 & E2 & E3 & E4).
    cbn [mret st_ret fmap option_fmap option_map fst]. rewrite E1, E2, E3, E4. unfold found. fold (table_of (pte_of t)).
    unfold pte_of at 1. rewrite pte_table. change 0xFFF with (2 ^ 12 - 1). by rewrite offset_mod.
  - destruct (a !! slot h p) as [t|]; [done|]. cbn. by destruct nx.
Qed.

(** ** The aperture *)

Definition in_aperture (_virt : Z) : bool := page _virt / 2 ^ 27 =? 256.

Lemma giant_bits j i : 0 <= i ->
  Z.testbit (giant_entry 0 j) i =
    (i =? 0) || (i =? 1) || (i =? 7) || (nx && (i =? 63)) || (i =? 8) || Z.testbit (j * 2 ^ 30) i.
Proof.
  intros Hi. unfold giant_entry. rewrite Z.add_0_l. change 0x83 with ((1 << 0) .| (1 << 1) .| (1 << 7)). change 0x40000000 with (2 ^ 30).
  destruct nx; flag_bits; rewrite ?(Z.eqb_sym _ i);
    destruct (i =? 0), (i =? 1), (i =? 7), (i =? 8), (i =? 63), (Z.testbit (j * 2 ^ 30) i); done.
Qed.
Lemma giga_bits j i : 0 <= j < 512 -> 0 <= i < 30 \/ 39 <= i -> Z.testbit (j * 2 ^ 30) i = false.
Proof.
  intros Hj [Hi|Hi]; [apply (aligned_low _ 30); [by rewrite Z.mod_mul|done]|apply (testbit_above 39); [unfold is_u; lia|lia]].
Qed.
Lemma giant_reads j : 0 <= j < 512 ->
  bit_set (giant_entry 0 j) 0 = true /\ bit_set (giant_entry 0 j) 7 = true /\
  (giant_entry 0 j .& Z.lnot 0x3FFFFFFF) .& Z.lnot FlagsMask = j * 2 ^ 30 /\
  has (giant_entry 0 j) NoExecute = nx /\ has (giant_entry 0 j) Writable = true /\ has (giant_entry 0 j) UserAccess = false /\
  has (giant_entry 0 j) Accessed = false /\ has (giant_entry 0 j) Dirty = false.
Proof.
  intros Hj. unfold NoExecute, Writable, UserAccess, Accessed, Dirty. rewrite !bit_set_eq, !has_eq, !giant_bits by lia.
  rewrite !(giga_bits j) by (done || lia). cbn -[Z.mul Z.pow]. rewrite ?andb_true_r, ?orb_false_r, ?andb_false_r. split_and!; try done.
  apply Z.bits_inj'. intros i Hi. change 0x3FFFFFFF with (2 ^ 30 - 1). rewrite field_bits, giant_bits by lia.
  destruct (Z.leb_spec 30 i); [|by rewrite andb_false_r, (giga_bits j) by lia].
  destruct (Z.eqb_spec i 63) as [->|]; [by rewrite andb_false_r, (giga_bits j) by lia|].
  replace (i =? 0) with false by blia. replace (i =? 1) with false by blia. replace (i =? 7) with false by blia.
  replace (i =? 8) with false by blia. by rewrite !andb_false_r, !andb_true_r.
Qed.

Lemma aperture_idx p : 0 <= p < 2 ^ 36 -> p / 2 ^ 27 = 256 -> idx 3 p = 256.
Proof. intros Hp E. rewrite idx_mod. change (2 ^ (9 * Z.of_nat 3)) with (2 ^ 27). by rewrite E. Qed.

Lemma aperture_link_flags U : frame U ->
  bit_set (aperture_link U) 0 = true /\ table_of (aperture_link U) = U /\
  has (aperture_link U) NoExecute = nx /\ has (aperture_link U) Writable = true /\ has (aperture_link U) UserAccess = false.
Proof.
  intros HF. split; [apply (link_present 3 256 U HF)|]. split; [apply (link_table 3 256 U HF)|].
  unfold NoExecute, Writable, UserAccess. rewrite !has_eq, !aperture_link_bits by (done || lia).
  rewrite (frame_bits U 63), (frame_bits U 1), (frame_bits U 2) by (done || lia). cbn. rewrite ?andb_true_r, ?orb_false_r, ?andb_false_r. done.
Qed.

Lemma aperture_ok k x0 held R a s h x :
  mmu_ok k x0 held R a s -> handlers s !! h = Some x ->
  frame (pml4Phys x) /\ exists U, word_at s (pml4Phys x) 256 = aperture_link U /\ frame U /\
    forall j, 0 <= j < 512 -> word_at s U j = giant_entry 0 j.
Proof.
  intros I Hx. pose proof (mi_tables _ _ _ _ _ _ I) as It. pose proof (ti_root _ _ _ _ _ It h x Hx) as Hr.
  split; [by eapply role_frame|]. pose proof (mi_aperture _ _ _ _ _ _ I) as Hne.
  rewrite <- (mi_shared _ _ _ _ _ _ I h x 256 Hx) in Hne by lia.
  pose proof (ti_entry _ _ _ _ _ It _ _ 256 Hr ltac:(done) ltac:(lia)) as H. unfold link_ok in H. rewrite decide_False in H by done.
  destruct H as [|(U & HU & E)]; [done|]. cbn [lvl] in E. exists U. split; [done|]. split; [by eapply role_frame|].
  intros j Hj. rewrite below_root in HU by lia. pose proof (ti_entry _ _ _ _ _ It U _ j HU ltac:(done) Hj) as H'.
  unfold link_ok in H'. by rewrite decide_True in H'.
Qed.

Lemma unmap_aperture k x0 held R a s h x _virt :
  mmu_ok k x0 held R a s -> handlers s !! h = Some x -> in_aperture _virt = true -> unmapPage h _virt s = Ok (AlreadyMappedLP, s).
Proof.
  intros I Hx Hap%Z.eqb_eq. destruct (aperture_ok _ _ _ _ _ _ _ _ I Hx) as (HF & U & H3 & HU & Hg).
  unfold unmapPage, mbind, st_bind, the_handler, mbind, res_bind. rewrite Hx. cbn [res_of].
  rewrite (virt_idx 3 _ 39), (virt_idx 2 _ 30) by lia. rewrite aperture_idx by (done || apply page_range).
  rewrite readTable_ok, H3 by (done || lia). destruct (aperture_link_flags U HU) as (-> & -> & _). cbn [negb].
  rewrite readTable_ok, Hg by done. by destruct (giant_reads (idx 2 (page _virt)) ltac:(done)) as (-> & -> & _).
Qed.

Lemma map_aperture k x0 held R a s h x phys _virt w e g u :
  mmu_ok k x0 held R a s -> handlers s !! h = Some x -> in_aperture _virt = true ->
  map_tables h x phys _virt w e g u s = Ok (AlreadyMappedLP, s).
Proof.
  intros I Hx Hap%Z.eqb_eq. destruct (aperture_ok _ _ _ _ _ _ _ _ I Hx) as (HF & U & H3 & HU & Hg).
  unfold map_tables, pml4_entry, next_entry, mbind, st_bind. rewrite (virt_idx 3 _ 39), (virt_idx 2 _ 30) by lia.
  rewrite aperture_idx by (done || apply page_range). rewrite readTable_ok, H3 by (done || lia).
  destruct (aperture_link_flags U HU) as (-> & E & _). cbn [negb mret st_ret]. rewrite E, readTable_ok, Hg by done.
  by destruct (giant_reads (idx 2 (page _virt)) ltac:(done)) as (-> & -> & _).
Qed.

(** Physical memory is where the aperture says. *)
Lemma aperture_offset _virt :
  is_u 64 _virt -> canonical _virt = true -> page _virt / 2 ^ 27 = 256 ->
  idx 2 (page _virt) * 2 ^ 30 + _virt mod 2 ^ 30 = _virt - 0xFFFF800000000000.
Proof.
  intros Hu Hc E. rewrite idx_mod. unfold page in *. rewrite !Z.div_div in * by lia.
  change (4096 * 2 ^ (9 * Z.of_nat 2)) with (2 ^ 30). change (4096 * 2 ^ 27) with (2 ^ 39) in E.
  pose proof (Z.div_mod (_virt mod 2 ^ 48) (2 ^ 39) ltac:(lia)) as H1. rewrite E in H1.
  pose proof (Z.mod_pos_bound (_virt mod 2 ^ 48) (2 ^ 39) ltac:(lia)) as H2.
  destruct (canonical_cases _ Hu Hc) as [[H3 H4]|[H3 H4]]; [lia|]. rewrite H4 in *.
  set (o := _virt - 0xFFFF800000000000) in *. replace (_virt - (2 ^ 64 - 2 ^ 48)) with (2 ^ 47 + o) in * by lia.
  assert (0 <= o < 2 ^ 39) by lia.
  replace (_virt mod 2 ^ 30) with (o mod 2 ^ 30); [|replace _virt with (o + (2 ^ 34 - 2 ^ 17) * 2 ^ 30) by lia; symmetry; by apply Z.mod_add].
  replace (2 ^ 47 + o) with (o + 2 ^ 17 * 2 ^ 30) by lia. rewrite Z.div_add by lia.
  assert (0 <= o / 2 ^ 30 < 512) by (split; [apply Z.div_pos|apply Z.div_lt_upper_bound]; lia).
  replace ((o / 2 ^ 30 + 2 ^ 17) mod 512) with (o / 2 ^ 30); [pose proof (Z.div_mod o (2 ^ 30) ltac:(lia)); lia|].
  symmetry. change (2 ^ 17) with (256 * 512). rewrite Z.mod_add by lia. by apply Z.mod_small.
Qed.

Definition aperture_found (_virt : Z) : Z * Found :=
  (0, {| f_phys := Some (_virt - 0xFFFF800000000000); f_write := true; f_execute := negb nx; f_global := false; f_user := false |}).

Lemma get_aperture k x0 held R a s h x _virt :
  mmu_ok k x0 held R a s -> handlers s !! h = Some x -> is_u 64 _virt -> canonical _virt = true -> in_aperture _virt = true ->
  getMapping h _virt s = Ok (aperture_found _virt, s).
Proof.
  intros I Hx Hu Hc Hap%Z.eqb_eq. destruct (aperture_ok _ _ _ _ _ _ _ _ I Hx) as (HF & U & H3 & HU & Hg).
  unfold getMapping, mbind, st_bind, the_handler, mbind, res_bind. rewrite Hx. cbn [res_of]. unfold Resolve. rewrite Hc. cbn [negb].
  rewrite (virt_idx 3 _ 39), (virt_idx 2 _ 30) by lia. rewrite aperture_idx by (done || apply page_range). unfold mbind, st_bind.
  rewrite readTable_ok, H3 by (done || lia). destruct (aperture_link_flags U HU) as (-> & -> & -> & -> & ->). cbn [negb].
  rewrite readTable_ok, Hg by done. destruct (giant_reads (idx 2 (page _virt)) ltac:(done)) as (-> & -> & -> & G1 & G2 & G3 & G4 & G5).
  cbn [negb mret st_ret fmap option_fmap option_map fst]. change 0x3FFFFFFF with (2 ^ 30 - 1). rewrite offset_mod, aperture_offset by (done || lia).
  unfold gater. rewrite G1, G2, G3, G4, G5. unfold aperture_found. by destruct nx.
Qed.

(** ** [mapPage] *)

Definition map_spec (h phys _virt : Z) (w e g u full : bool) (a : pagemap) (r : Z) (a' : pagemap) : Prop :=
  if negb (canonical _virt) then r = AddrNotCanonical /\ a' = a
  else if in_aperture _virt then r = AlreadyMappedLP /\ a' = a
  else r = Success /\ a' = <[slot h (page _virt) := Tr phys w e g u]> a \/ r = NoMemory /\ full = true /\ a' = a.

Lemma plain_page _virt : in_aperture _virt = false -> plain (page _virt).
Proof. intros H%Z.eqb_neq. split; [apply page_range|done]. Qed.

Lemma map_root_ok k x0 held R a s this x phys _virt w e g u :
  mmu_ok k x0 held R a s -> handlers s !! this = Some x -> is_u 64 _virt -> canonical _virt = true ->
  (if decide (this = k) then idx 3 (page _virt) <> 255 else 2 ^ 35 <=? page _virt = false) ->
  exists held' R' a' s' r, map_tables this x phys _virt w e g u s = Ok (r, s') /\ mmu_ok k x0 held' R' a' s' /\
    handlers s' = handlers s /\ gPhysApertureAvailable s' = gPhysApertureAvailable s /\
    map_spec this phys _virt w e g u (no_frames s') a r a'.
Proof.
  intros I Hx Hu Hc Hreq. unfold map_spec. rewrite Hc. cbn [negb]. destruct (in_aperture _virt) eqn:Hap.
  - exists held, R, a, s, AlreadyMappedLP. split; [by eapply map_aperture|]. done.
  - apply plain_page in Hap. apply (map_tables_ok k x0 held R a s); try done.
    destruct (decide (this = k)); [done|]. rewrite <- half_idx in Hreq by apply page_range. by apply Z.leb_gt in Hreq.
Qed.

Lemma mapPage_ok k x0 held R a s this x phys _virt w e g u c :
  mmu_ok k x0 held R a s -> handlers s !! this = Some x -> is_u 64 _virt ->
  ~ (this = k /\ idx 3 (page _virt) = 255) ->
  exists held' R' a' s' r, mapPage this phys _virt w e g u c s = Ok (r, s') /\ mmu_ok k x0 held' R' a' s' /\
    handlers s' = handlers s /\ gPhysApertureAvailable s' = gPhysApertureAvailable s /\
    map_spec this phys _virt w e g u (no_frames s') a r a'.
Proof.
  intros I Hx Hu Hreq. unfold mapPage. destruct (mi_kernel _ _ _ _ _ _ I) as (H0 & Hpar & _).
  destruct (size (handlers s)) as [|n] eqn:En.
  { apply map_size_empty_inv in En. by rewrite En, lookup_empty in Hx. }
  cbn [map_up]. destruct (canonical _virt) eqn:Hc; cbn [negb].
  2: { exists held, R, a, s, AddrNotCanonical. unfold map_spec. rewrite Hc. done. }
  unfold mbind, st_bind, the_handler, mbind, res_bind. rewrite Hx. cbn [res_of].
  destruct (decide (this = k)) as [->|Hk].
  { assert (x = x0) as -> by congruence. rewrite Hpar. apply (map_root_ok k x0 held R a s); try done. rewrite decide_True by done. naive_solver. }
  destruct (mi_children _ _ _ _ _ _ I this x Hx Hk) as [-> _]. pose proof (kernel_half _ Hu Hc) as Hkh.
  destruct (kKernelBoundary <=? _virt) eqn:Eb.
  - rewrite H0. cbn [res_of]. rewrite Hpar.
    assert (slot this (page _virt) = slot k (page _virt)) as Es by (unfold slot, half; by rewrite <- Hkh).
    pose proof (map_root_ok k x0 held R a s k x0 phys _virt w e g u I H0 Hu Hc) as H.
    unfold map_spec in H |- *. rewrite <- Es in H. apply H. rewrite decide_True by done.
    intros E. pose proof (half_idx (page _virt) (page_range _)) as Hh. rewrite E, <- Hkh in Hh. done.
  - apply (map_root_ok k x0 held R a s); try done. by rewrite decide_False.
Qed.

(** ** Creating and deleting handlers *)

Lemma tables_handlers held R a s f a' :
  tables_ok M held R a s ->
  (forall h x, f (handlers s) !! h = Some x ->
     R !! pml4Phys x = Some (Role 3 (Some h) 0) /\ forall p, plain p -> walk 3 s (pml4Phys x) p = pte_of <$> a' !! slot h p) ->
  tables_ok M held R a' (set_handlers f s).
Proof.
  intros I H. split; [apply I|apply I|apply I|intros h x Hx; by apply H|]. intros h x p Hx Hp. by apply (H h x).
Qed.

Lemma copy_pml4_ok held R a k h K T : forall n i s,
  i + Z.of_nat n = 512 -> 255 <= i -> tables_ok M held R a s -> R !! K = Some (Role 3 (Some k) 0) -> R !! T = Some (Role 3 (Some h) 0) ->
  K <> T -> handlers s !! h = None -> word_at s K 255 = 0 ->
  exists s', copy_pml4 n i K T s = Ok ((), s') /\ tables_ok M held R a s' /\ handlers s' = handlers s /\
    gPhysApertureAvailable s' = gPhysApertureAvailable s /\
    (forall j, i <= j < 512 -> word_at s' T j = word_at s K j) /\
    (forall T' r j, R !! T' = Some r -> 0 <= j < 512 -> T' <> T \/ j < i -> word_at s' T' j = word_at s T' j).
Proof.
  induction n as [|n IH]; intros i s Hn Hi I HK HT HKT Hh H255; cbn [copy_pml4].
  { exists s. split_and!; try done. intros j Hj. lia. }
  pose proof (role_frame _ _ _ _ _ _ I HK) as FK. pose proof (role_frame _ _ _ _ _ _ I HT) as FT.
  unfold mbind, st_bind. rewrite readTable_ok, writeTable_ok by (done || lia). set (s1 := set_words _ s).
  assert (forall T' r j, R !! T' = Some r -> 0 <= j < 512 -> word_at s1 T' j = if decide (T = T' /\ i = j) then word_at s K i else word_at s T' j) as Hw.
  { intros T' r j H' Hj. apply word_write; [done|exact (role_frame _ _ _ _ _ _ I H')|lia|done]. }
  assert (forall j, 0 <= j < 512 -> word_at s1 K j = word_at s K j) as HwK.
  { intros j Hj. rewrite (Hw K _ j HK Hj). rewrite decide_False; [done|]. intros [? _]. done. }
  assert (tables_ok M held R a s1) as I1.
  { apply (tables_new_root held R a s T h i); try done; [lia|]. destruct (decide (i = 255)) as [->|]; [by left|].
    pose proof (ti_entry _ _ _ _ _ I K _ i HK ltac:(done) ltac:(lia)) as He. unfold link_ok in He. rewrite decide_False in He by done.
    rewrite below_root in He |- * by lia. done. }
  destruct (IH (i + 1) s1) as (s' & -> & I' & Hh' & Hg & Hin & Hout); try done; [lia|lia|by rewrite HwK by lia|].
  exists s'. split_and!; try done.
  - intros j Hj. destruct (decide (j = i)) as [->|].
    + rewrite (Hout T _ i HT) by lia. rewrite (Hw T _ i HT) by lia. by rewrite decide_True.
    + rewrite Hin, HwK by lia. done.
  - intros T' r j H' Hj Hor. rewrite (Hout T' r j H' Hj) by lia || (destruct Hor; [by left|right; lia]).
    rewrite (Hw T' r j H' Hj). rewrite decide_False; [done|]. intros [-> ->]. destruct Hor; [done|lia].
Qed.

(** A new address space sees the pages of the shared half and no others. *)
Lemma new_walk held R a s k x0 h T p :
  tables_ok M held R a s -> handlers s !! k = Some x0 -> plain p ->
  (forall j, 0 <= j < 256 -> word_at s T j = 0) -> (forall j, 256 <= j < 512 -> word_at s T j = word_at s (pml4Phys x0) j) ->
  (forall q, a !! (Some h, q) = None) -> walk 3 s T p = pte_of <$> a !! slot h p.
Proof.
  intros I H0 Hpl Hlo Hhi Ha. pose proof (half_idx p (proj1 Hpl)) as Hh. pose proof (idx_range 3 p). unfold slot, half.
  destruct (2 ^ 35 <=? p) eqn:E.
  - apply Z.leb_le in Hh. pose proof (ti_agree _ _ _ _ _ I k x0 p H0 Hpl) as Hk. unfold slot, half in Hk. rewrite E in Hk.
    rewrite <- Hk, !walk_S. by rewrite Hhi by lia.
  - apply Z.leb_gt in Hh. rewrite walk_S, Hlo, Ha by lia. done.
Qed.

(** Entering the new handler into the table of handlers and the list of
    children. *)
Lemma register_child k x0 held R a s h U held' R' s2 :
  mmu_ok k x0 held R a s -> handlers s !! h = None -> gPhysApertureAvailable s = true ->
  tables_ok M held' R' a s2 -> handlers s2 = handlers s -> gPhysApertureAvailable s2 = gPhysApertureAvailable s ->
  R' !! U = Some (Role 3 (Some h) 0) -> (forall j, 0 <= j < 256 -> word_at s2 U j = 0) ->
  (forall j, 256 <= j < 512 -> word_at s2 U j = word_at s2 (pml4Phys x0) j) ->
  (forall x y j, handlers s !! x = Some y -> 0 <= j < 512 -> word_at s2 (pml4Phys y) j = word_at s (pml4Phys y) j) ->
  let x0' := {| parent := parent x0; children := children x0 ++ [h]; pml4Phys := pml4Phys x0; physToDealloc := physToDealloc x0 |} in
  let xh := {| parent := Some k; children := []; pml4Phys := U; physToDealloc := [] |} in
  mmu_ok k x0' held' R' a (set_handlers <[h := xh]> (set_handlers <[k := x0']> s2)).
Proof.
  intros I Hh Hav I2 Hh2 Hg2 HU Hlo Hhi Hroots x0' xh. destruct (mi_kernel _ _ _ _ _ _ I) as (H0 & Hpar & Hnd).
  assert (h <> k) as Hhk by congruence. set (s3 := set_handlers _ _).
  assert (handlers s3 !! h = Some xh) as Lh by (cbn; by rewrite lookup_insert_eq).
  assert (forall y z, handlers s3 !! y = Some z -> y <> h ->
    exists z', handlers s !! y = Some z' /\ pml4Phys z = pml4Phys z' /\ physToDealloc z = physToDealloc z' /\ parent z = parent z') as Hold.
  { intros y z Hz Hy. cbn in Hz. rewrite Hh2, lookup_insert_ne in Hz by done. destruct (decide (y = k)) as [->|].
    - rewrite lookup_insert_eq in Hz. injection Hz as <-. by exists x0.
    - rewrite lookup_insert_ne in Hz by done. by exists z. }
  assert (forall q, a !! (Some h, q) = None) as Ha.
  { intros q. destruct (a !! (Some h, q)) eqn:E; [|done]. destruct (mi_keys _ _ _ _ _ _ I h q) as [? ?]; [by rewrite E|congruence]. }
  assert (forall y, is_Some (handlers s !! y) -> is_Some (handlers s3 !! y)) as Hmono.
  { intros y Hy. cbn. rewrite Hh2. by rewrite !lookup_insert_is_Some'; auto. }
  split.
  - apply (tables_handlers held' R' a s2 (fun m => <[h := xh]> (<[k := x0']> m)) a I2). intros y z Hz.
    destruct (decide (y = h)) as [->|Hy].
    + assert (z = xh) as -> by (rewrite lookup_insert_eq in Hz; congruence). split; [done|].
      intros p Hp. apply (new_walk held' R' a s2 k x0); try done. by rewrite Hh2.
    + destruct (Hold y z Hz Hy) as (z' & Hz' & -> & _). rewrite <- Hh2 in Hz'. split; [by apply (ti_root _ _ _ _ _ I2)|].
      intros p Hp. by apply (ti_agree _ _ _ _ _ I2).
  - split; [cbn; by rewrite lookup_insert_ne, lookup_insert_eq|]. split; [done|]. cbn. apply NoDup_app. split; [done|].
    split; [|by apply NoDup_singleton]. intros c Hc ->%list_elem_of_singleton. by destruct (mi_known _ _ _ _ _ _ I h Hc) as [_ [? ?]]; congruence.
  - change (word_at s2 (pml4Phys x0) 256 <> 0). rewrite (Hroots k) by (done || lia). apply I.
  - change (word_at s2 (pml4Phys x0) 255 = 0). rewrite (Hroots k) by (done || lia). apply I.
  - intros y z Hz Hy. cbn [children x0']. destruct (decide (y = h)) as [->|Hyh].
    + assert (z = xh) as -> by congruence. split; [done|]. apply elem_of_app. right. by apply list_elem_of_singleton.
    + destruct (Hold y z Hz Hyh) as (z' & Hz' & _ & _ & ->). destruct (mi_children _ _ _ _ _ _ I y z' Hz' Hy). split; [done|].
      apply elem_of_app. by left.
  - cbn [children x0']. intros y [Hy| ->%list_elem_of_singleton]%elem_of_app; [|split; [done|by rewrite Lh]].
    destruct (mi_known _ _ _ _ _ _ I y Hy). split; [done|by apply Hmono].
  - intros y z i Hz Hi. change (word_at s2 (pml4Phys z) i = word_at s2 (pml4Phys x0) i). destruct (decide (y = h)) as [->|Hy].
    + assert (z = xh) as -> by congruence. by apply Hhi.
    + destruct (Hold y z Hz Hy) as (z' & Hz' & -> & _). rewrite (Hroots y), (Hroots k) by (done || lia). by apply (mi_shared _ _ _ _ _ _ I y).
  - left. cbn. by rewrite Hg2.
  - intros y p Hp. by apply Hmono, (mi_keys _ _ _ _ _ _ I y p).
  - intros y z Hz. destruct (decide (y = h)) as [->|Hy]; [by assert (z = xh) as -> by congruence|].
    destruct (Hold y z Hz Hy) as (z' & Hz' & _ & -> & _). by apply (mi_dealloc _ _ _ _ _ _ I y).
Qed.

Lemma new_child_ok k x0 held R a s h :
  mmu_ok k x0 held R a s -> handlers s !! h = None -> gPhysApertureAvailable s = true ->
  match newPTEHandler h (Some k) s with
  | Ok (_, s') => exists x0' held' R', mmu_ok k x0' held' R' a s' /\ dom (handlers s') = {[h]} ∪ dom (handlers s) /\
                    gPhysApertureAvailable s' = true
  | Panic => no_frames s = true
  | Stuck => False
  end.
Proof.
  intros I Hh Hav. pose proof (mi_tables _ _ _ _ _ _ I) as It. destruct (mi_kernel _ _ _ _ _ _ I) as (H0 & Hpar & Hnd).
  pose proof (ti_root _ _ _ _ _ It k x0 H0) as HK. unfold newPTEHandler, mbind, st_bind.
  destruct (allocTable_ok held s (ti_phys _ _ _ _ _ It)) as [(f & -> & _ & Hfull & _)|(f & U & -> & HU0 & HU & HF & Hf)]; [done|].
  unfold slift at 1, REQUIRE at 1, mbind at 1, res_bind at 1. replace (U =? 0) with false by blia. cbn [negb].
  destruct (tables_fresh held R a s f U (Role 3 (Some h) 0) It HU Hf HF ltac:(done)) as (I1 & HN & Hs1 & Hz1).
  set (R1 := <[U := _]> R) in *. set (s1 := fresh_table f U s) in *.
  assert (R1 !! pml4Phys x0 = Some (Role 3 (Some k) 0)) as HK1. { unfold R1. rewrite lookup_insert_ne; [done|]. by intros ->; rewrite HN in HK. }
  assert (pml4Phys x0 <> U) as HKU by (by intros E; rewrite E, HN in HK).
  assert (R1 !! U = Some (Role 3 (Some h) 0)) as HU1 by (unfold R1; by rewrite lookup_insert_eq).
  destruct (copy_pml4_ok _ R1 a k h (pml4Phys x0) U 257 255 s1 ltac:(lia) ltac:(lia) I1 HK1 HU1 HKU Hh) as (s2 & E2 & I2 & Hh2 & Hg2 & Hin & Hout).
  { rewrite (Hs1 _ _ 255 HK) by lia. apply I. }
  unfold initWithParent, mbind, st_bind, the_handler, mbind, res_bind. change (handlers s1) with (handlers s). rewrite H0. cbn [res_of].
  rewrite E2. unfold put_handler, smod. change (handlers s1) with (handlers s) in Hh2.
  assert (h <> k) as Hhk by congruence.
  assert (forall j, 0 <= j < 256 -> word_at s2 U j = 0) as Hlo.
  { intros j Hj. destruct (decide (j = 255)) as [->|].
    - rewrite Hin, (Hs1 _ _ 255 HK) by lia. apply I.
    - rewrite (Hout U _ j HU1) by lia. apply Hz1. lia. }
  assert (forall x y j, handlers s !! x = Some y -> 0 <= j < 512 -> word_at s2 (pml4Phys y) j = word_at s (pml4Phys y) j) as Hroots.
  { intros x y j Hy Hj. pose proof (ti_root _ _ _ _ _ It x y Hy) as Hr. rewrite <- (Hs1 _ _ j Hr Hj).
    assert (pml4Phys y <> U) by (by intros E; rewrite E, HN in Hr). eapply Hout; [|done|by left].
    unfold R1. by rewrite lookup_insert_ne. }
  assert (forall j, 256 <= j < 512 -> word_at s2 U j = word_at s2 (pml4Phys x0) j) as Hhi.
  { intros j Hj. rewrite Hin, (Hroots k x0), (Hs1 _ _ j HK) by (done || lia). done. }
  eexists {| parent := parent x0; children := children x0 ++ [h]; pml4Phys := pml4Phys x0; physToDealloc := physToDealloc x0 |}, _, R1.
  split; [|split].
  2: { cbn [handlers set_handlers]. rewrite Hh2, !dom_insert_L. assert (k ∈ dom (handlers s)) as Hd by (by apply elem_of_dom_2 in H0). revert Hd. clear. set_solver. }
  2: { cbn. by rewrite Hg2. }
  by apply (register_child k x0 held R a s h U _ R1 s2).
Qed.

Lemma delete_ok k x0 held R a s h x :
  mmu_ok k x0 held R a s -> handlers s !! h = Some x -> h <> k ->
  exists x0' s', deletePTEHandler h s = Ok ((), s') /\ mmu_ok k x0' held R (filter (fun e => e.1.1 <> Some h) a) s' /\
    dom (handlers s') = dom (handlers s) ∖ {[h]} /\ gPhysApertureAvailable s' = gPhysApertureAvailable s.
Proof.
  intros I Hx Hhk. pose proof (mi_tables _ _ _ _ _ _ I) as It. destruct (mi_kernel _ _ _ _ _ _ I) as (H0 & Hpar & Hnd).
  destruct (mi_children _ _ _ _ _ _ I h x Hx Hhk) as [Hp Hin].
  unfold deletePTEHandler, mbind, st_bind, the_handler, mbind, res_bind. rewrite Hx. cbn [res_of].
  rewrite (mi_dealloc _ _ _ _ _ _ I h x Hx), Hp. cbn [free_all mret st_ret]. rewrite H0. cbn [res_of].
  unfold put_handler, smod, slift, REQUIRE, mbind, res_bind. rewrite bool_decide_eq_true_2 by done.
  set (x0' := {| parent := parent x0; children := filter (fun c => c <> h) (children x0); pml4Phys := pml4Phys x0;
                 physToDealloc := physToDealloc x0 |}).
  set (s3 := set_handlers (delete h) (set_handlers <[k := x0']> s)). exists x0', s3. split; [done|].
  assert (forall y z, handlers s3 !! y = Some z -> y <> h /\
    exists z', handlers s !! y = Some z' /\ pml4Phys z = pml4Phys z' /\ physToDealloc z = physToDealloc z' /\ parent z = parent z') as Hold.
  { intros y z Hz. cbn in Hz. apply lookup_delete_Some in Hz as [Hy Hz]. split; [done|]. destruct (decide (y = k)) as [->|].
    - rewrite lookup_insert_eq in Hz. injection Hz as <-. by exists x0.
    - rewrite lookup_insert_ne in Hz by done. by exists z. }
  assert (forall y, is_Some (handlers s !! y) -> y <> h -> is_Some (handlers s3 !! y)) as Hmono.
  { intros y Hy Hne. cbn. rewrite lookup_delete_ne by done. by rewrite lookup_insert_is_Some'; auto. }
  assert (forall y p, y <> h -> filter (fun e : option Z * Z * translation => e.1.1 <> Some h) a !! slot y p = a !! slot y p) as Ha.
  { intros y p Hy. apply option_eq. intros t. rewrite map_lookup_filter_Some. cbn. unfold half. destruct (_ <=? p); naive_solver. }
  split; [|split; [|done]].
  2: { cbn. rewrite dom_delete_L, dom_insert_L. assert (k ∈ dom (handlers s)) as Hd by (by apply elem_of_dom_2 in H0). revert Hd. clear. set_solver. }
  split.
  - apply (tables_handlers held R a s (fun m => delete h (<[k := x0']> m)) _ It). intros y z Hz.
    destruct (Hold y z Hz) as (Hy & z' & Hz' & -> & _). split; [by apply (ti_root _ _ _ _ _ It)|].
    intros p Hpl. rewrite Ha by done. by apply (ti_agree _ _ _ _ _ It).
  - split; [cbn; by rewrite lookup_delete_ne, lookup_insert_eq|]. split; [done|]. by apply NoDup_filter.
  - apply I.
  - apply I.
  - intros y z Hz Hy. destruct (Hold y z Hz) as (Hyh & z' & Hz' & _ & _ & ->). destruct (mi_children _ _ _ _ _ _ I y z' Hz' Hy).
    split; [done|]. by apply list_elem_of_filter.
  - intros y [Hyh Hy]%list_elem_of_filter. destruct (mi_known _ _ _ _ _ _ I y Hy). split; [done|by apply Hmono].
  - intros y z i Hz Hi. destruct (Hold y z Hz) as (Hyh & z' & Hz' & -> & _). by apply (mi_shared _ _ _ _ _ _ I y).
  - destruct (mi_broadcast _ _ _ _ _ _ I) as [|E]; [by left|right]. cbn. by rewrite E.
  - intros y p [t [H1 H2]%map_lookup_filter_Some]. apply Hmono; [apply (mi_keys _ _ _ _ _ _ I y p); by exists t|]. cbn in H2. congruence.
  - intros y z Hz. destruct (Hold y z Hz) as (Hyh & z' & Hz' & _ & -> & _). by apply (mi_dealloc _ _ _ _ _ _ I y).
Qed.

Lemma load_ok k x0 held R a s : mmu_ok k x0 held R a s ->
  exists s', InitialKernelMapLoad s = Ok ((), s') /\ mmu_ok k x0 held R a s' /\ handlers s' = handlers s.
Proof.
  intros I. eexists. split; [done|]. split; [|done]. apply (mi_tables _ _ _ _ _ _) in I as It.
  split; try apply I; [|by left]. by apply (tables_same held R a s); try done; apply It.
Qed.

(** ** The kernel's handler *)

Lemma fill_pdpt_ok V : forall n j s,
  frame V -> 0 <= j -> j + Z.of_nat n = 512 ->
  exists s', fill_pdpt n j V 0 s = Ok ((), s') /\ handlers s' = handlers s /\ frames s' = frames s /\
    gPhysApertureAvailable s' = gPhysApertureAvailable s /\
    (forall i, j <= i < 512 -> word_at s' V i = giant_entry 0 i) /\
    (forall T i, frame T -> 0 <= i < 512 -> T <> V \/ i < j -> word_at s' T i = word_at s T i).
Proof.
  induction n as [|n IH]; intros j s HV Hj Hn; cbn [fill_pdpt].
  { exists s. split_and!; try done. intros i Hi. lia. }
  unfold mbind, st_bind. rewrite writeTable_ok by (done || lia). set (s1 := set_words _ s).
  destruct (IH (j + 1) s1 HV ltac:(lia) ltac:(lia)) as (s' & -> & Hh & Hf & Hg & Hin & Hout).
  exists s'. split_and!; try done.
  - intros i Hi. destruct (decide (i = j)) as [->|]; [|apply Hin; lia]. rewrite Hout by (done || lia). unfold s1.
    rewrite word_write by (done || lia). by rewrite decide_True.
  - intros T i HT Hi Hor. rewrite Hout by (done || (destruct Hor; [by left|right; lia])). unfold s1.
    rewrite word_write by (done || lia). rewrite decide_False; [done|]. intros [-> ->]. destruct Hor; [done|lia].
Qed.

Lemma initKernel_ok k held R U s :
  tables_ok M held R ∅ s -> R !! U = Some (Role 3 (Some k) 0) -> handlers s = ∅ -> (forall j, 0 <= j < 512 -> word_at s U j = 0) ->
  match initKernel 1 0 U s with
  | Ok (_, s') => exists held' R' V, tables_ok M held' R' ∅ s' /\ R' !! U = Some (Role 3 (Some k) 0) /\ handlers s' = ∅ /\ frame V /\
      gPhysApertureAvailable s' = gPhysApertureAvailable s /\
      forall j, 0 <= j < 512 -> word_at s' U j = if decide (j = 256) then aperture_link V else 0
  | Panic => True
  | Stuck => False
  end.
Proof.
  intros I1 HRU Hh Hz1. pose proof (role_frame _ _ _ _ _ _ I1 HRU) as FU. cbn [initKernel]. unfold mbind, st_bind.
  destruct (allocTable_ok _ s (ti_phys _ _ _ _ _ I1)) as [(f2 & -> & _)|(f2 & V & -> & HV0 & HV & FV & Hf2)]; [done|].
  unfold slift, REQUIRE, mbind, res_bind. replace (V =? 0) with false by blia. cbn [negb].
  destruct (tables_alloc _ R ∅ s f2 V I1 HV Hf2 FV) as (I2 & HN & Hs2 & Hz2). set (s2 := fresh_table f2 V s) in *.
  change (0 * 0x8000000000) with 0. destruct (fill_pdpt_ok V 512 0 s2 FV ltac:(lia) ltac:(lia)) as (s3 & -> & Hh3 & Hf3 & Hg3 & Hin & Hout).
  assert (U <> V) as HUV by (by intros ->; rewrite HN in HRU).
  assert (same_words R s2 s3) as Hs3.
  { intros T r i HT Hi. apply Hout; [by eapply role_frame|done|]. left. by intros ->; rewrite HN in HT. }
  assert (tables_ok M ({[V]} ∪ held) R ∅ s3) as I3 by (eapply (tables_same _ R ∅ s2 _ s3); [done|done|done|by rewrite Hf3|done]).
  assert (tables_ok M ({[V]} ∪ held) (<[V := giants]> R) ∅ s3) as I4.
  { apply tables_role; [done|done|set_solver|]. intros i _ Hi. unfold link_ok. rewrite decide_True by done. apply Hin. lia. }
  set (R4 := <[V := giants]> R) in *. fold (aperture_link V). rewrite writeTable_ok by (done || lia).
  assert (R4 !! U = Some (Role 3 (Some k) 0)) as HR4 by (unfold R4; by rewrite lookup_insert_ne).
  assert (handlers s3 = ∅) as Hh3' by (by rewrite Hh3).
  eexists _, R4, V. split; [|split_and!]; [|done|done|done|done|].
  - apply (tables_new_root _ R4 ∅ s3 U k 256); [done|done|by rewrite Hh3'|lia|]. right. exists V.
    rewrite below_root by lia. split; [|done]. unfold R4. by rewrite lookup_insert_eq.
  - intros j Hj. rewrite word_write by (done || lia). destruct (decide (j = 256)) as [->|]; [by rewrite decide_True|].
    rewrite decide_False by lia. rewrite (Hs3 U _ j HRU Hj), (Hs2 U _ j HRU Hj). by apply Hz1.
Qed.

Lemma new_kernel_ok k held s :
  handlers s = ∅ -> phys_inv M (frames s, held) ->
  match newPTEHandler k None s with
  | Ok (_, s') => exists x0 held' R, mmu_ok k x0 held' R ∅ s' /\ dom (handlers s') = {[k]} /\
                    gPhysApertureAvailable s' = gPhysApertureAvailable s
  | Panic => True
  | Stuck => False
  end.
Proof.
  intros Hh Hf.
  assert (tables_ok M held ∅ ∅ s) as I. { split; [done|..]; rewrite ?Hh; by intros *; rewrite ?lookup_empty. }
  unfold newPTEHandler, mbind, st_bind.
  destruct (allocTable_ok held s Hf) as [(f & -> & _)|(f & U & -> & HU0 & HU & FU & Hf1)]; [done|].
  unfold slift at 1, REQUIRE at 1, mbind at 1, res_bind at 1. replace (U =? 0) with false by blia. cbn [negb].
  destruct (tables_fresh held ∅ ∅ s f U (Role 3 (Some k) 0) I HU Hf1 FU ltac:(done)) as (I1 & _ & _ & Hz1).
  change (Z.to_nat (kPhysApertureSize / 512)) with 1%nat.
  pose proof (initKernel_ok k _ _ U _ I1 ltac:(by rewrite lookup_insert_eq) Hh Hz1) as Hk.
  destruct (initKernel 1 0 U _) as [[[] s5]| |]; [|done|done]. destruct Hk as (held' & R & V & I5 & HRU & Hh5 & FV & Hg & HwU).
  unfold put_handler, smod. set (x0 := {| parent := None; children := []; pml4Phys := U; physToDealloc := [] |}).
  exists x0, held', R. split; [|split; [cbn; rewrite Hh5, dom_insert_L, dom_empty_L; set_solver|done]].
  assert (forall h x, handlers (set_handlers <[k := x0]> s5) !! h = Some x -> h = k /\ x = x0) as Hone.
  { intros h x. cbn. rewrite Hh5. intros [[<- <-]|[_ []%lookup_empty_Some]]%lookup_insert_Some. done. }
  split.
  - apply (tables_handlers _ R ∅ s5 _ ∅ I5). intros h x [-> ->]%Hone. split; [done|]. intros p Hpl.
    rewrite lookup_empty. pose proof (idx_range 3 p) as Hi. rewrite walk_S. change (pml4Phys x0) with U.
    rewrite (HwU (idx 3 p) Hi), decide_False; [done|].
    by apply plain_idx.
  - split; [cbn; by rewrite lookup_insert_eq|]. split; [done|constructor].
  - change (word_at s5 U 256 <> 0). rewrite HwU by lia. cbn. apply (link_value_nonzero 3 256 V FV).
  - change (word_at s5 U 255 = 0). by rewrite HwU by lia.
  - by intros h x [-> _]%Hone.
  - by intros h []%elem_of_nil.
  - by intros h x i [-> ->]%Hone.
  - by right.
  - intros h p [t Ht]. by rewrite lookup_empty in Ht.
  - by intros h x [-> ->]%Hone.
Qed.

End Frames.

(** ** Traces *)

Inductive mop :=
| MNew (h : Z) | MDelete (h : Z) | MLoad
| MMap (h phys _virt : Z) (w e g u c : bool) | MUnmap (h _virt : Z) | MGet (h _virt : Z).
Inductive mout :=
| OSkip | ODone | OMapped (status : Z) (full : bool) | OStatus (status : Z) | OFound (r : Z * Found).

Definition mstep (k : Z) (o : mop) : st mmu mout :=
  match o with
  | MNew h => _ ← newPTEHandler h (Some k); mret ODone
  | MDelete h => _ ← deletePTEHandler h; mret ODone
  | MLoad => _ ← InitialKernelMapLoad; mret ODone
  | MMap h phys _virt w e g u c =>
      r ← mapPage h phys _virt w e g u c; s ← sget; mret (OMapped r (no_frames s))
  | MUnmap h _virt => r ← unmapPage h _virt; mret (OStatus r)
  | MGet h _virt => r ← getMapping h _virt; mret (OFound r)
  end.

(** What callers keep to: a new handler has an unused address and is made once
    the kernel's map is loaded, the kernel's handler is not deleted and maps no
    page of the last 512 GB below the upper half (see [initWithParent]),
    addresses are 64-bit words. *)
Definition word (z : Z) : bool := (0 <=? z) && (z <? 2 ^ 64).
Definition request_ok (k : Z) (o : mop) (s : mmu) : bool :=
  let known h := bool_decide (is_Some (handlers s !! h)) in
  match o with
  | MNew h => negb (known h) && gPhysApertureAvailable s
  | MDelete h => known h && negb (h =? k)
  | MLoad => true
  | MMap h _ _virt _ _ _ _ _ => known h && word _virt && negb ((h =? k) && (idx 3 (page _virt) =? 255))
  | MUnmap h _virt | MGet h _virt => known h && word _virt
  end.
Fixpoint mrun (k : Z) (ops : list mop) (s : mmu) : res (list mout * mmu) :=
  match ops with
  | [] => Ok ([], s)
  | o :: ops =>
      '(out, s) ← (if request_ok k o s then mstep k o s else Ok (OSkip, s));
      '(outs, s) ← mrun k ops s;
      Ok (out :: outs, s)
  end.

(** The same calls on a map from pages to translations. *)
Definition aspec (o : mop) (out : mout) (a a' : pagemap) : Prop :=
  match out, o with
  | OSkip, _ => a' = a
  | ODone, MDelete h => a' = filter (fun e => e.1.1 <> Some h) a
  | ODone, MNew _ | ODone, MLoad => a' = a
  | OMapped r full, MMap h phys _virt w e g u _ => map_spec h phys _virt w e g u full a r a'
  | OStatus r, MUnmap h _virt =>
      if in_aperture _virt then r = AlreadyMappedLP /\ a' = a
      else a' = delete (slot h (page _virt)) a /\ (r = PageUnmapped \/ r = NoPageToUnmap /\ a !! slot h (page _virt) = None)
  | OFound r, MGet h _virt =>
      a' = a /\
      if negb (canonical _virt) then
        r = (AddrNotCanonical, {| f_phys := None; f_write := false; f_execute := true; f_global := false; f_user := false |})
      else if in_aperture _virt then r = aperture_found _virt
      else r = found (a !! slot h (page _virt)) _virt
  | _, _ => False
  end.
Fixpoint arun (ops : list mop) (outs : list mout) (a a' : pagemap) : Prop :=
  match ops, outs with
  | [], [] => a' = a
  | o :: ops, out :: outs => exists b, aspec o out a b /\ arun ops outs b a'
  | _, _ => False
  end.

Lemma mstep_ok M (M_frame : forall x, M x -> frame x) k x0 held R a s o :
  mmu_ok M k x0 held R a s -> request_ok k o s = true ->
  match mstep k o s with
  | Ok (out, s') => exists x0' held' R' a', mmu_ok M k x0' held' R' a' s' /\ aspec o out a a'
  | Panic => (exists h, o = MNew h) /\ no_frames s = true
  | Stuck => False
  end.
Proof.
  intros I Hreq. destruct o as [h|h| |h phys v w e g u c|h v|h v]; cbn [mstep request_ok] in *; unfold mbind, st_bind.
  - apply andb_true_iff in Hreq as [Hn%negb_true_iff%bool_decide_eq_false Hav]. apply eq_None_not_Some in Hn.
    pose proof (new_child_ok M M_frame k x0 held R a s h I Hn Hav) as H.
    destruct (newPTEHandler h (Some k) s) as [[[] s']| |]; [|by split; [exists h|]|done].
    destruct H as (x0' & held' & R' & I' & _). by exists x0', held', R', a.
  - apply andb_true_iff in Hreq as [[x Hx]%bool_decide_eq_true Hk%negb_true_iff%Z.eqb_neq].
    destruct (delete_ok M k x0 held R a s h x I Hx Hk) as (x0' & s' & -> & I' & _). by eexists x0', held, R, _.
  - destruct (load_ok M M_frame k x0 held R a s I) as (s' & -> & I' & _). by exists x0, held, R, a.
  - apply andb_true_iff in Hreq as [[[x Hx]%bool_decide_eq_true [H1%Z.leb_le H2%Z.ltb_lt]%andb_true_iff]%andb_true_iff Hk].
    destruct (mapPage_ok M M_frame k x0 held R a s h x phys v w e g u c I Hx ltac:(done)) as (held' & R' & a' & s' & r & -> & I' & _ & _ & Hs).
    { intros [-> E]. by rewrite Z.eqb_refl, E in Hk. }
    by exists x0, held', R', a'.
  - apply andb_true_iff in Hreq as [[x Hx]%bool_decide_eq_true _]. cbn [aspec]. destruct (in_aperture v) eqn:Hap.
    + rewrite (unmap_aperture M M_frame k x0 held R a s h x v I Hx Hap). exists x0, held, R, a. cbn [aspec]. by rewrite Hap.
    + destruct (unmap_ok M M_frame k x0 held R a s h x v I Hx (plain_page v Hap)) as (s' & r & -> & I' & _ & _ & Hr).
      eexists x0, held, R, _. split; [exact I'|]. cbn [aspec]. by rewrite Hap.
  - apply andb_true_iff in Hreq as [[x Hx]%bool_decide_eq_true [H1%Z.leb_le H2%Z.ltb_lt]%andb_true_iff].
    cbn [aspec]. destruct (canonical v) eqn:Hc; cbn [negb].
    + destruct (in_aperture v) eqn:Hap.
      * rewrite (get_aperture M M_frame k x0 held R a s h x v I Hx ltac:(done) Hc Hap). exists x0, held, R, a. cbn [aspec]. by rewrite Hc, Hap.
      * rewrite (get_ok M M_frame k x0 held R a s h x v I Hx Hc (plain_page v Hap)). exists x0, held, R, a. cbn [aspec]. by rewrite Hc, Hap.
    + unfold getMapping, mbind, st_bind, the_handler, mbind, res_bind. rewrite Hx. cbn [res_of]. unfold Resolve. rewrite Hc.
      exists x0, held, R, a. split; [done|]. cbn [aspec]. rewrite Hc. by destruct nx.
Qed.

Lemma mrun_ok M (M_frame : forall x, M x -> frame x) k ops : forall x0 held R a s,
  mmu_ok M k x0 held R a s ->
  match mrun k ops s with
  | Ok (outs, s') => exists a', arun ops outs a a' /\ exists x0' held' R', mmu_ok M k x0' held' R' a' s'
  | Panic => exists ops1 h ops2 outs s1, ops = ops1 ++ MNew h :: ops2 /\ mrun k ops1 s = Ok (outs, s1) /\ no_frames s1 = true
  | Stuck => False
  end.
Proof.
  induction ops as [|o ops IH]; intros x0 held R a s I; cbn [mrun].
  { exists a. split; [done|by exists x0, held, R]. }
  assert (match (if request_ok k o s then mstep k o s else Ok (OSkip, s)) with
    | Ok (out, s') => exists x0' held' R' a', mmu_ok M k x0' held' R' a' s' /\ aspec o out a a'
    | Panic => (exists h, o = MNew h) /\ no_frames s = true
    | Stuck => False end) as H.
  { destruct (request_ok k o s) eqn:E; [by eapply mstep_ok|]. by exists x0, held, R, a. }
  destruct (if request_ok k o s then _ else _) as [[out s1]| |] eqn:Es; cbn [mbind res_bind]; [| |done].
  - destruct H as (x1 & h1 & R1 & a1 & I1 & H1). specialize (IH x1 h1 R1 a1 s1 I1).
    destruct (mrun k ops s1) as [[outs s']| |] eqn:Er; cbn [mbind res_bind]; [| |done].
    + destruct IH as (a' & H2 & H3). exists a'. split; [by exists a1|done].
    + destruct IH as (ops1 & h & ops2 & outs & s2 & -> & E2 & Hf). exists (o :: ops1), h, ops2, (out :: outs), s2.
      split; [done|]. split; [|done]. cbn [mrun]. rewrite Es. cbn [mbind res_bind]. by rewrite E2.
  - destruct H as [[h ->] Hf]. by exists [], h, ops, [], s.
Qed.
End Processor.

Lemma boot_frames map f :
  map_ok map -> (1 <= suitable map <= kMaxRegions)%nat -> boot map = Ok f ->
  Forall (fun e => e.1 mod arch_page_size = 0 /\ e.1 + e.2 <= 2 ^ 39) map ->
  phys_inv (phys_managed f) (f, ∅) /\ forall x, phys_managed f x -> frame x.
Proof.
  intros Hm Hn Hb Hall. destruct (boot_ok map Hm Hn) as (f' & E & I & Hin). assert (f' = f) as -> by congruence.
  split; [done|]. intros x Hx. destruct (Hin x Hx) as (e & He & H1 & H2 & H3).
  rewrite Forall_forall in Hall. destruct (Hall e He) as [H4 H5]. destruct Hx as (r & Hr & p & Hp & ->).
  assert (0 < base r) as Hb0. { pose proof (pi_ok _ _ I) as Hok. rewrite Forall_forall in Hok. apply (r_base _ (Hok r Hr)). }
  unfold frame, kPhysApertureSize, arch_page_size in *. split; [lia|].
  rewrite Zminus_mod, H4, Z.sub_0_r, Z.mod_mod in H3 by lia. done.
Qed.

(** C4: the page tables of x86_64 refine a map from pages to translations.  On a
    machine with memory below 512 GB in page-aligned pieces, once the kernel's
    handler is made, every sequence of creations and deletions of handlers, of
    mappings, unmappings and lookups by any of them gives the results of a map
    keyed by address space and page, in which the upper half is one address
    space that all share.  A mapping replaces one that is there, and fails only
    for an address that is not canonical, in the window of physical memory, or
    if there is no page for a table; a lookup of the window gives the physical
    address at that offset.  Nothing panics but the creation of a handler when
    no page is left, and no table outside the window is ever followed. *)
Theorem page_tables_refine nx map m k ops f s0 :
  map_ok map -> (1 <= suitable map <= kMaxRegions)%nat -> boot map = Ok f ->
  Forall (fun e => e.1 mod arch_page_size = 0 /\ e.1 + e.2 <= 2 ^ 39) map ->
  newPTEHandler nx k None (Mmu m f ∅ false) = Ok ((), s0) ->
  match mrun nx k ops s0 with
  | Ok (outs, s) => exists a, arun nx ops outs ∅ a
  | Panic => exists ops1 h ops2 outs s1, ops = ops1 ++ MNew h :: ops2 /\ mrun nx k ops1 s0 = Ok (outs, s1) /\ no_frames s1 = true
  | Stuck => False
  end.
Proof.
  intros Hm Hn Hb Hall E0. destruct (boot_frames map f Hm Hn Hb Hall) as [I Hf].
  set (boot_state := Mmu m f ∅ false) in E0. pose proof (new_kernel_ok nx (phys_managed f) Hf k ∅ boot_state eq_refl I) as H. rewrite E0 in H.
  destruct H as (x0 & held & R & Hok & _). pose proof (mrun_ok nx (phys_managed f) Hf k ops x0 held R ∅ s0 Hok) as Hr.
  destruct (mrun nx k ops s0) as [[outs s]| |]; [|done|done]. destruct Hr as (a & Ha & _). by exists a.
Qed.

(** Three address spaces that share a page of the upper half. *)
Definition small_machine : PhysicalAllocator :=
  match boot [(0x100000, 0x100000)] with Ok f => f | _ => {| regions := []; allocatedPages := 0 |} end.
Definition first_handler : mmu :=
  match newPTEHandler true 1 None (Mmu ∅ small_machine ∅ false) with Ok (_, s) => s | _ => Mmu ∅ small_machine ∅ false end.
Definition mmu_demo : list mop :=
  [MLoad; MNew 2; MNew 3; MMap 2 0x5000 0x7000 true false false true false; MMap 3 0x6000 0xFFFFFF8000000000 true false false true false;
   MGet 2 0x7123; MGet 3 0x7123; MGet 2 0xFFFFFF8000000001; MGet 1 0xFFFF800000123456; MUnmap 1 0xFFFFFF8000000000;
   MGet 2 0xFFFFFF8000000001; MMap 2 0 0xFFFF800000123456 true true true true true; MDelete 2].
Definition demo_outs : list mout :=
  match mrun true 1 mmu_demo first_handler with Ok (outs, _) => outs | _ => [] end.

(** A page of the upper half mapped for the user is accessible to the user, and
    the tables above it are; a second unmapping reports success like the first,
    and an address that is not canonical is unmapped as its lower 48 bits. *)
Definition mmu_results (ops : list mop) : list mout := match mrun true 1 ops first_handler with Ok (outs, _) => outs | _ => [] end.
Example upper_half_user :
  mmu_results [MMap 1 0x6000 0xFFFFFF8000000000 true false false true false; MGet 1 0xFFFFFF8000000000] =
  [OMapped 0 false; OFound (0, {| f_phys := Some 0x6000; f_write := true; f_execute := false; f_global := false; f_user := true |})].
Proof. vm_compute. reflexivity. Qed.
Example unmap_always_succeeds :
  mmu_results [MMap 1 0x6000 0x7000 true false false true false; MUnmap 1 0x1000000007000; MGet 1 0x7000; MUnmap 1 0x7000] =
  [OMapped 0 false; OStatus 0; OFound (1, {| f_phys := None; f_write := false; f_execute := true; f_global := false; f_user := false |});
   OStatus 0].
Proof. vm_compute. reflexivity. Qed.

Lemma page_tables_refine_witness : length demo_outs = 13%nat /\ exists a, arun true mmu_demo demo_outs ∅ a.
Proof.
  split; [vm_compute; reflexivity|].
  assert (boot [(0x100000, 0x100000)] = Ok small_machine) as Hb by (vm_compute; reflexivity).
  assert (newPTEHandler true 1 None (Mmu ∅ small_machine ∅ false) = Ok ((), first_handler)) as H0.
  { unfold first_handler. destruct (newPTEHandler true 1 None (Mmu ∅ small_machine ∅ false)) as [[[] s]| |] eqn:E; [reflexivity|..];
    exfalso; apply (f_equal (fun r => match r with Ok _ => true | _ => false end)) in E; vm_compute in E; discriminate E. }
  pose proof (page_tables_refine true [(0x100000, 0x100000)] ∅ 1 mmu_demo small_machine first_handler) as H.
  assert (match mrun true 1 mmu_demo first_handler with Ok _ => true | _ => false end = true) as E by (vm_compute; reflexivity).
  unfold demo_outs. destruct (mrun true 1 mmu_demo first_handler) as [[outs s]| |]; [|discriminate E..].
  apply H; [|vm_compute; lia|exact Hb|constructor; [split; [reflexivity|cbn [fst snd]; lia]|constructor]|exact H0].
  cbn [map_ok]. split; [unfold entry_ok; cbn [fst snd]; lia|]. split; [constructor|exact I].
Defined.
