(* ===== verification/Slab.v ===== *)
(** * The slab allocator of the kernel (kernel/src/mem/SlabAllocator.h)

    Objects of one size in slabs, which are linked in a list and each have a bitmap
    of the free objects.  The size of an object and of a slab are arguments, as the
    class is a template; so is the page allocator of the heap, which answers the
    [k]-th request with an address or with a null pointer.  The contents of the
    objects are not represented. *)

From S2P Require Import Prelude PhysMem.
Open Scope mach_scope.

Section Code.
Context (sz slabSz : Z) (pvalloc : nat -> option Z).

(** ** One slab *)

Definition kNumItems : Z := (slabSz - 24 - slabSz / sz / 8) / sz.
Definition elements : Z := (kNumItems + 32 - 1) / 32.
(** The offset of the storage: three words and the bitmap, rounded up to 64. *)
Definition storage_off : Z := (24 + 4 * elements + 63) / 64 * 64.
Definition storage (b : Z) : Z := b + storage_off.
Definition object (b i : Z) : Z := storage b + i * sz.

Record slab := Slab { s_prev : option Z; s_next : option Z; numAllocated : Z; freeMap : list Z }.
(** The constructor of [Slab]. *)
Definition tail_word (n : nat) : Z := foldl (fun w i => w .| u32 (1 << i)) 0 (seqZ 0 (Z.of_nat n)).
Definition new_slab : slab :=
  Slab None None 0
    (replicate (Z.to_nat (kNumItems / 32)) 0xFFFFFFFF ++
     (if kNumItems mod 32 =? 0 then [] else [tail_word (Z.to_nat (kNumItems mod 32))])).

(** The search of [Slab::alloc] from element [i] on: the number of the object. *)
Fixpoint slab_alloc_from (n : nat) (i : Z) (s : slab) : res (option Z * slab) :=
  match n with
  | O => Ok (None, s)
  | S n =>
      w ← aget (freeMap s) i;
      if w =? 0 then slab_alloc_from n (i + 1) s
      else
        let allocBit := ffsl w - 1 in
        let off := i * 32 + allocBit in
        if kNumItems <=? off then Ok (None, s)
        else
          fm ← aset (freeMap s) i (w .& u32 (Z.lnot (1 << allocBit)));
          Ok (Some off, Slab (s_prev s) (s_next s) (u64 (numAllocated s + 1)) fm)
  end.
Definition slab_alloc (s : slab) : res (option Z * slab) := slab_alloc_from (Z.to_nat elements) 0 s.
Definition slab_free (b ptr : Z) (s : slab) : res slab :=
  let off := u64 (ptr - storage b) / sz in
  w ← aget (freeMap s) (off / 32);
  _ ← REQUIRE (w .& u32 (1 << (off mod 32)) =? 0);
  fm ← aset (freeMap s) (off / 32) (w .| u32 (1 << (off mod 32)));
  Ok (Slab (s_prev s) (s_next s) (u64 (numAllocated s - 1)) fm).
Definition contains (b addr : Z) : bool :=
  if addr <? storage b then false else if storage b + sz * kNumItems <? addr then false else true.
Definition full (s : slab) : bool := numAllocated s =? kNumItems.
(** [~Slab]: the objects whose destructors are called. *)
Definition bit32 (fm : list Z) (i : Z) : bool := Z.testbit (fm !!! Z.to_nat (i / 32)) (i mod 32).
Definition destroyed (b : Z) (s : slab) : list Z := object b <$> filter (fun i => bit32 (freeMap s) i = false) (seqZ 0 kNumItems).

(** ** The allocator *)

Record allocator := Allocator { head : option Z; tail : option Z; slabs : gmap Z slab; requests : nat }.
Definition load (b : Z) : st allocator slab := fun w => s ← res_of (slabs w !! b); Ok (s, w).
Definition store (b : Z) (s : slab) : st allocator () := fun w => Ok ((), Allocator (head w) (tail w) (<[b := s]> (slabs w)) (requests w)).

Definition allocSlab : st allocator (option Z) :=
  w ← sget;
  _ ← sput (Allocator (head w) (tail w) (slabs w) (S (requests w)));
  match pvalloc (requests w) with
  | None => mret None
  | Some b =>
      _ ← store b new_slab;
      _ ← match tail w with
          | Some t =>
              st ← load t; _ ← store t (Slab (s_prev st) (Some b) (numAllocated st) (freeMap st));
              s ← load b; store b (Slab (Some t) (s_next s) (numAllocated s) (freeMap s))
          | None => mret ()
          end;
      _ ← smod (fun w => Allocator (head w) (Some b) (slabs w) (requests w));
      mret (Some b)
  end.
(** The constructor of the allocator; its pointers are null before. *)
Definition new_allocator : st allocator () :=
  b ← allocSlab; smod (fun w => Allocator b (tail w) (slabs w) (requests w)).

(** The loop of [alloc] over the slabs. *)
Fixpoint alloc_loop (fuel : nat) (this : option Z) : st allocator (option Z) :=
  match this with
  | None => mret None
  | Some b =>
      match fuel with
      | O => sstuck
      | S fuel =>
          s ← load b;
          if full s then alloc_loop fuel (s_next s)
          else
            r ← slift (slab_alloc s);
            let '(ptr, s') := (r : option Z * slab) in
            _ ← store b s';
            match ptr with
            | Some off => mret (Some (object b off))
            | None => alloc_loop fuel (s_next s')
            end
      end
  end.
(** An object of a new slab; a null pointer for the slab is used as if it were one. *)
Definition alloc_new : st allocator (option Z) :=
  slabule ← allocSlab;
  match slabule with
  | None => sstuck
  | Some b =>
      s ← load b;
      r ← slift (slab_alloc s);
      let '(ptr, s') := (r : option Z * slab) in
      _ ← store b s';
      mret (object b <$> ptr)
  end.
Definition alloc : st allocator (option Z) :=
  w ← sget;
  r ← alloc_loop (size (slabs w)) (head w);
  match r with Some p => mret (Some p) | None => alloc_new end.
(** The loop of [free], which never goes on to the next slab. *)
Fixpoint free_loop (fuel : nat) (this : option Z) (ptr : Z) : st allocator () :=
  match this with
  | None => sabort
  | Some b =>
      match fuel with
      | O => sstuck
      | S fuel =>
          if contains b ptr then s ← load b; s' ← slift (slab_free b ptr s); store b s'
          else free_loop fuel this ptr
      end
  end.
Definition free (fuel : nat) (ptr : Z) : st allocator () := w ← sget; free_loop fuel (head w) ptr.
(** The destructor: the objects destroyed. *)
Fixpoint destroy_loop (fuel : nat) (this : option Z) : st allocator (list Z) :=
  match this with
  | None => mret []
  | Some b =>
      match fuel with
      | O => sstuck
      | S fuel =>
          s ← load b;
          _ ← smod (fun w => Allocator (head w) (tail w) (delete b (slabs w)) (requests w));
          ps ← destroy_loop fuel (s_next s);
          mret (destroyed b s ++ ps)
      end
  end.
Definition destroy : st allocator (list Z) := w ← sget; destroy_loop (size (slabs w)) (head w).
End Code.

(** ** Bitmaps *)

Section Proofs.
Context (sz slabSz : Z).
Local Notation N := (kNumItems sz slabSz).
Local Notation nelem := (elements sz slabSz).

(** What the compiler checks of the template's arguments. *)
Record sizes_ok : Prop := {
  so_size : 0 < sz;
  so_items : 1 <= N;
  so_fits : storage_off sz slabSz + sz * N <= slabSz;
  so_small : slabSz < 2 ^ 32
}.
Context (SO : sizes_ok).

Lemma elements_range : 1 <= nelem /\ N <= 32 * nelem < N + 32.
Proof. destruct SO. unfold Slab.elements. Z.div_mod_to_equations. lia. Qed.
Lemma items_small : N < 2 ^ 32.
Proof. destruct SO. assert (0 <= storage_off sz slabSz) by (unfold storage_off; pose proof elements_range; Z.div_mod_to_equations; lia). nia. Qed.

Record fm_ok (fm : list Z) : Prop := {
  fm_length : length fm = Z.to_nat nelem;
  fm_words : Forall (is_u 32) fm;
  fm_clear : forall i, N <= i < 32 * nelem -> bit32 fm i = false
}.
Definition count (fm : list Z) : Z := Z.of_nat (length (filter (fun i => bit32 fm i = false) (seqZ 0 N))).
Record slab_ok (s : slab) : Prop := { sl_map : fm_ok (freeMap s); sl_count : numAllocated s = count (freeMap s) }.

Lemma fm_word fm i : fm_ok fm -> 0 <= i < nelem -> is_u 32 (fm !!! Z.to_nat i).
Proof. intros [Hl Hw _] Hi. rewrite Forall_forall in Hw. apply Hw. apply list_elem_of_lookup_total_2. lia. Qed.
Lemma word_of p : 0 <= p < N -> 0 <= p / 32 < nelem /\ 0 <= p mod 32 < 32.
Proof. intros Hp. pose proof elements_range. Z.div_mod_to_equations. lia. Qed.
Lemma fm_update fm p w v : fm_ok fm -> 0 <= p < N -> is_u 32 w ->
  (forall k, 0 <= k < 32 -> Z.testbit w k = if k =? p mod 32 then v else Z.testbit (fm !!! Z.to_nat (p / 32)) k) ->
  let fm' := <[Z.to_nat (p / 32) := w]> fm in
  fm_ok fm' /\ forall q, 0 <= q -> bit32 fm' q = if q =? p then v else bit32 fm q.
Proof.
  intros [Hl Hw Hc] Hp Hu Hk fm'. destruct (word_of p Hp) as [Hi _].
  assert (forall q, 0 <= q -> bit32 fm' q = if q =? p then v else bit32 fm q) as Hb.
  { intros q Hq. unfold bit32, fm'. assert (0 <= q / 32) by (apply Z.div_pos; lia). pose proof (Z.mod_pos_bound q 32 ltac:(lia)). pose proof (Z.div_mod q 32 ltac:(lia)). pose proof (Z.div_mod p 32 ltac:(lia)).
    rewrite list_insert_lookup_total by lia. destruct (Z.eqb_spec q p) as [->|Hne]; [rewrite decide_True by done; rewrite Hk by lia; by rewrite Z.eqb_refl|].
    case_decide as E; [|done]. rewrite Hk by lia. destruct (Z.eqb_spec (q mod 32) (p mod 32)); [lia|]. by rewrite E. }
  split; [|exact Hb]. split; [unfold fm'; by rewrite length_insert|by apply Forall_insert|]. intros i Hi'. rewrite Hb by lia. rewrite (proj2 (Z.eqb_neq i p)) by lia. by apply Hc.
Qed.
Lemma filter_agree (P Q : Z -> Prop) `{!forall x, Decision (P x)} `{!forall x, Decision (Q x)} (l : list Z) :
  (forall x, x ∈ l -> P x <-> Q x) -> filter P l = filter Q l.
Proof.
  induction l as [|x l IH]; intros Ha; [done|]. assert (filter P l = filter Q l) as E by (apply IH; intros y Hy; apply Ha; by right).
  pose proof (Ha x ltac:(by left)) as Hx. destruct (decide (P x)) as [Hp|Hp].
  - rewrite !filter_cons_True by tauto. by rewrite E.
  - rewrite !filter_cons_False by tauto. done.
Qed.
Lemma filter_all (P : Z -> Prop) `{!forall x, Decision (P x)} (l : list Z) : (forall x, x ∈ l -> P x) -> filter P l = l.
Proof. induction l as [|x l IH]; intros Ha; [done|]. rewrite filter_cons_True by (apply Ha; by left). rewrite IH; [done|]. intros y Hy. apply Ha. by right. Qed.
(** A list of numbers of which one more has the property. *)
Lemma filter_flip (P Q : Z -> Prop) `{!forall x, Decision (P x)} `{!forall x, Decision (Q x)} k (l : list Z) :
  NoDup l -> k ∈ l -> P k -> ~ Q k -> (forall x, x <> k -> x ∈ l -> P x <-> Q x) -> length (filter P l) = S (length (filter Q l)).
Proof.
  intros Hd. induction Hd as [|x l Hx Hd IH]; intros Hk HP HQ He; [by apply elem_of_nil in Hk|]. apply elem_of_cons in Hk as [->|Hk].
  - rewrite filter_cons_True, filter_cons_False by done. cbn. f_equal. clear IH. f_equal. apply filter_agree. intros y Hy. apply He; [by intros ->|by right].
  - assert (x <> k) by (by intros ->). assert (length (filter P l) = S (length (filter Q l))) as E by (apply IH; [done..|intros y Hy Hy'; apply He; [done|by right]]).
    destruct (decide (P x)) as [Hp|Hp]; rewrite ?(filter_cons_True P), ?(filter_cons_False P) by done.
    + rewrite filter_cons_True by (apply (He x); [done|by left|done]). cbn. by rewrite E.
    + rewrite filter_cons_False by (intros Hq; apply Hp, (He x); [done|by left|done]). done.
Qed.
Lemma count_flip fm fm' p : 0 <= p < N -> bit32 fm p = true -> bit32 fm' p = false -> (forall q, 0 <= q -> q <> p -> bit32 fm' q = bit32 fm q) -> count fm' = count fm + 1.
Proof.
  intros Hp Hf Ht Ho. unfold count. rewrite (filter_flip (fun i => bit32 fm' i = false) (fun i => bit32 fm i = false) p); [lia|apply NoDup_seqZ|apply elem_of_seqZ; lia|done|congruence|].
  intros x Hx Hin. apply elem_of_seqZ in Hin. rewrite Ho by lia. done.
Qed.
Lemma count_range fm : 0 <= count fm <= N.
Proof.
  pose proof (length_filter (fun i => bit32 fm i = false) (seqZ 0 N)) as H. rewrite length_seqZ in H. destruct SO. unfold count. lia.
Qed.
Lemma full_count fm : count fm = N -> forall i, 0 <= i < N -> bit32 fm i = false.
Proof.
  intros Hc i Hi. destruct (bit32 fm i) eqn:E; [|done]. exfalso. unfold count in Hc.
  assert (length (filter (fun i => bit32 fm i = false) (seqZ 0 N)) < length (seqZ 0 N))%nat as H; [|rewrite length_seqZ in H; destruct SO; lia].
  apply length_filter_lt with (x := i); [apply elem_of_seqZ; lia|congruence].
Qed.

(** ** One slab *)

(** [s'] is [s] with the bit of object [p] changed to [v]. *)
Record changed (s s' : slab) (p : Z) (v : bool) : Prop := {
  ch_ok : slab_ok s';
  ch_item : 0 <= p < N;
  ch_before : bit32 (freeMap s) p = negb v;
  ch_bits : forall q, 0 <= q -> bit32 (freeMap s') q = if q =? p then v else bit32 (freeMap s) q;
  ch_links : s_next s' = s_next s /\ s_prev s' = s_prev s
}.
Lemma one_u32 k : 0 <= k < 32 -> u32 (1 << k) = 1 << k /\ is_u 32 (1 << k).
Proof.
  intros Hk. rewrite Z.shiftl_1_l. assert (is_u 32 (2 ^ k)) as H by (unfold is_u; pose proof (Z.pow_lt_mono_r 2 k 32); pose proof (Z.pow_pos_nonneg 2 k); lia).
  split; [by apply wrap_small|done].
Qed.
Lemma flip_ok s p v n : slab_ok s -> 0 <= p < N -> bit32 (freeMap s) p = negb v -> n = numAllocated s + (if v then -1 else 1) ->
  let w := freeMap s !!! Z.to_nat (p / 32) in
  let w' := if v then w .| u32 (1 << (p mod 32)) else w .& u32 (Z.lnot (1 << (p mod 32))) in
  exists fm, aset (freeMap s) (p / 32) w' = Ok fm /\ changed s (Slab (s_prev s) (s_next s) (u64 n) fm) p v.
Proof.
  intros [Hf Hc] Hp Hb Hn w w'. destruct (word_of p Hp) as [Hi Hm]. pose proof (fm_word _ _ Hf Hi) as Hw. destruct (one_u32 _ Hm) as [E1 U1].
  assert (forall k, 0 <= k < 32 -> Z.testbit w' k = if k =? p mod 32 then v else Z.testbit w k) as Hk.
  { intros k Hk. unfold w'. destruct v.
    - rewrite E1, Z.lor_spec, testbit_one by lia. destruct (k =? p mod 32); [apply orb_true_r|apply orb_false_r].
    - rewrite Z.land_spec. unfold u32. rewrite testbit_wrap by lia. replace (k <? 32) with true by blia. rewrite andb_true_l, Z.lnot_spec, testbit_one by lia.
      destruct (k =? p mod 32); [apply andb_false_r|apply andb_true_r]. }
  assert (is_u 32 w') as Hu by (unfold w'; destruct v; [rewrite E1; by apply is_u_lor|by apply is_u_land]).
  destruct (fm_update _ _ _ _ Hf Hp Hu Hk) as [Hf' Hb']. eexists. split; [apply aset_ok; destruct Hf as [-> _ _]; lia|]. split; [|done|done|done|done].
  split; [done|]. cbn [freeMap numAllocated]. set (fm' := <[_ := w']> (freeMap s)) in *.
  assert (n = count fm') as ->.
  { rewrite Hn, Hc. destruct v.
    - enough (count (freeMap s) = count fm' + 1) by lia. apply (count_flip _ _ p); [done|rewrite Hb' by lia; by rewrite Z.eqb_refl|done|].
      intros q Hq Hne. rewrite Hb' by lia. by rewrite (proj2 (Z.eqb_neq q p)).
    - symmetry. apply (count_flip _ _ p); [done|done|rewrite Hb' by lia; by rewrite Z.eqb_refl|]. intros q Hq Hne. rewrite Hb' by lia. by rewrite (proj2 (Z.eqb_neq q p)). }
  apply wrap_small. pose proof (count_range fm'). pose proof items_small. mlia.
Qed.
Lemma slab_alloc_ok s : slab_ok s -> exists r s', slab_alloc sz slabSz s = Ok (r, s') /\
  match r with Some p => changed s s' p false | None => s' = s /\ forall i, 0 <= i < N -> bit32 (freeMap s) i = false end.
Proof.
  intros Hs. unfold slab_alloc. pose proof elements_range as He.
  enough (forall n i, 0 <= i -> i + Z.of_nat n = nelem -> (forall q, 0 <= q < 32 * i -> bit32 (freeMap s) q = false) ->
    exists r s', slab_alloc_from sz slabSz n i s = Ok (r, s') /\ match r with Some p => changed s s' p false | None => s' = s /\ forall i, 0 <= i < N -> bit32 (freeMap s) i = false end) as H
    by (apply H; [lia|lia|intros; lia]).
  induction n as [|n IH]; intros i Hi Hn Hq; cbn [slab_alloc_from]; [exists None, s; split; [done|]; split; [done|]; intros q Hq'; apply Hq; lia|].
  pose proof Hs as [Hf Hc]. rewrite aget_ok by (destruct Hf as [-> _ _]; lia). cbn [mbind res_bind]. set (w := freeMap s !!! Z.to_nat i). pose proof (fm_word _ i Hf ltac:(lia)) as Hw. fold w in Hw.
  assert (forall k, 0 <= k < 32 -> bit32 (freeMap s) (i * 32 + k) = Z.testbit w k) as Hbit.
  { intros k Hk. unfold bit32. replace ((i * 32 + k) / 32) with i by (Z.div_mod_to_equations; lia). replace ((i * 32 + k) mod 32) with k by (Z.div_mod_to_equations; lia). done. }
  destruct (Z.eqb_spec w 0) as [E0|E0].
  - apply IH; [lia|lia|]. intros q Hq'. destruct (decide (q < 32 * i)); [apply Hq; lia|]. replace q with (i * 32 + (q - 32 * i)) by lia. rewrite Hbit by lia. rewrite E0. apply Z.testbit_0_l.
  - destruct (ffsl_spec w) as (k & Hk & Hb & ->); [unfold is_u in *; mlia|done|]. replace (k + 1 - 1) with k by lia.
    assert (k < 32) as Hk' by (destruct (Z.lt_ge_cases k 32); [done|]; rewrite (testbit_above 32) in Hb by (done || lia); done).
    assert (i * 32 + k < N) as Hin. { destruct (Z.lt_ge_cases (i * 32 + k) N) as [|Hge]; [done|]. pose proof (fm_clear _ Hf (i * 32 + k) ltac:(lia)) as H. rewrite Hbit in H by lia. congruence. }
    rewrite (proj2 (Z.leb_gt N (i * 32 + k))) by lia.
    destruct (flip_ok s (i * 32 + k) false (numAllocated s + 1) Hs) as (fm & E & Hch); [lia|by rewrite Hbit by lia|done|].
    replace ((i * 32 + k) / 32) with i in E by (Z.div_mod_to_equations; lia). replace ((i * 32 + k) mod 32) with k in E by (Z.div_mod_to_equations; lia). fold w in E. rewrite E. cbn [mbind res_bind].
    eexists _, _. split; [reflexivity|]. exact Hch.
Qed.
Lemma slab_free_ok b s p : slab_ok s -> 0 <= p < N -> bit32 (freeMap s) p = false -> 0 <= b -> b + slabSz <= 2 ^ 64 ->
  exists s', slab_free sz slabSz b (object sz slabSz b p) s = Ok s' /\ changed s s' p true.
Proof.
  intros Hs Hp Hb H0 H1. unfold slab_free, object. destruct SO as [S1 S2 S3 S4].
  assert (u64 (storage sz slabSz b + p * sz - storage sz slabSz b) = p * sz) as ->.
  { replace (storage sz slabSz b + p * sz - storage sz slabSz b) with (p * sz) by lia. apply wrap_small. assert (p * sz <= N * sz) by nia. assert (0 <= storage_off sz slabSz) by (unfold storage_off; pose proof elements_range; Z.div_mod_to_equations; lia). mlia. }
  rewrite Z.div_mul by lia. destruct (word_of p Hp) as [Hi Hm]. pose proof Hs as [Hf Hc]. rewrite aget_ok by (destruct Hf as [-> _ _]; lia). cbn [mbind res_bind].
  destruct (one_u32 _ Hm) as [E1 _].
  assert (freeMap s !!! Z.to_nat (p / 32) .& u32 (1 << (p mod 32)) = 0) as ->.
  { apply Z.bits_inj_0. intros k. rewrite E1, Z.land_spec. destruct (Z.lt_ge_cases k 0); [by rewrite !Z.testbit_neg_r|]. rewrite testbit_one by lia.
    destruct (Z.eqb_spec k (p mod 32)) as [->|]; [|apply andb_false_r]. rewrite andb_true_r. exact Hb. }
  cbn [Z.eqb REQUIRE mbind res_bind]. destruct (flip_ok s p true (numAllocated s - 1) Hs Hp Hb eq_refl) as (fm & E & Hch). rewrite E. cbn [mbind res_bind]. eexists. split; [reflexivity|done].
Qed.
Lemma tail_word_bits n i : 0 <= i -> (n <= 32)%nat -> Z.testbit (tail_word n) i = (i <? Z.of_nat n) /\ is_u 32 (tail_word n).
Proof.
  intros Hi. induction n as [|n IH]; intros Hn.
  - split; [change (tail_word 0) with 0; rewrite Z.testbit_0_l; symmetry; apply Z.ltb_ge; lia|]. done.
  - assert (tail_word (S n) = tail_word n .| u32 (1 << Z.of_nat n)) as ->.
    { unfold tail_word. replace (Z.of_nat (S n)) with (Z.of_nat n + 1) by lia. rewrite seqZ_app by lia. by rewrite foldl_app. }
    destruct IH as [IH1 IH2]; [lia|]. destruct (one_u32 (Z.of_nat n)) as [E1 U1]; [lia|]. rewrite E1. split; [|by apply is_u_lor].
    rewrite Z.lor_spec, IH1, testbit_one by lia. destruct (Z.ltb_spec i (Z.of_nat n)), (Z.eqb_spec i (Z.of_nat n)), (Z.ltb_spec i (Z.of_nat (S n))); (done || lia).
Qed.
Lemma new_slab_ok : slab_ok (new_slab sz slabSz) /\ forall i, 0 <= i < N -> bit32 (freeMap (new_slab sz slabSz)) i = true.
Proof.
  pose proof elements_range as He. destruct SO as [S1 S2 S3 S4]. assert (0 <= N / 32 /\ 0 <= N mod 32 < 32 /\ N = 32 * (N / 32) + N mod 32) as (D1 & D2 & D3) by (Z.div_mod_to_equations; lia).
  assert (forall i, 0 <= i < 32 * nelem -> bit32 (freeMap (new_slab sz slabSz)) i = (i <? N)) as Hb.
  { intros i Hi. unfold bit32, new_slab. cbn [freeMap]. assert (0 <= i / 32 /\ 0 <= i mod 32 < 32 /\ i = 32 * (i / 32) + i mod 32) as (E1 & E2 & E3) by (Z.div_mod_to_equations; lia).
    destruct (decide (i / 32 < N / 32)) as [Hlt|Hge].
    - rewrite lookup_total_app_l by (rewrite length_replicate; lia). rewrite lookup_total_replicate_2 by lia. change 0xFFFFFFFF with (Z.ones 32).
      rewrite Z.ones_spec_low by lia. symmetry. apply Z.ltb_lt. lia.
    - rewrite lookup_total_app_r by (rewrite length_replicate; lia). rewrite length_replicate.
      destruct (Z.eqb_spec (N mod 32) 0) as [E0|E0].
      + lia.
      + assert (i / 32 = N / 32) as Heq by lia. rewrite Heq, Nat.sub_diag. cbn [lookup_total list_lookup_total]. destruct (tail_word_bits (Z.to_nat (N mod 32)) (i mod 32)) as [-> _]; [lia|lia|].
        rewrite Z2Nat.id by lia. destruct (Z.ltb_spec (i mod 32) (N mod 32)), (Z.ltb_spec i N); (done || lia). }
  split; [|intros i Hi; rewrite Hb by lia; apply Z.ltb_lt; lia]. split.
  - split.
    + unfold new_slab. cbn [freeMap]. rewrite length_app, length_replicate. unfold Slab.elements. destruct (Z.eqb_spec (N mod 32) 0); cbn [length]; Z.div_mod_to_equations; lia.
    + unfold new_slab. cbn [freeMap]. apply Forall_app. split; [apply Forall_replicate; mlia|]. destruct (Z.eqb_spec (N mod 32) 0); [constructor|]. apply Forall_singleton.
      apply (tail_word_bits _ 0); lia.
    + intros i Hi. rewrite Hb by lia. apply Z.ltb_ge. lia.
  - unfold count. assert (filter (fun i => bit32 (freeMap (new_slab sz slabSz)) i = false) (seqZ 0 N) = []) as ->; [|done].
    assert (forall i, i ∈ seqZ 0 N -> ~ bit32 (freeMap (new_slab sz slabSz)) i = false) as Hno.
    { intros i Hi. apply elem_of_seqZ in Hi. rewrite Hb by lia. rewrite (proj2 (Z.ltb_lt i N)) by lia. done. }
    induction (seqZ 0 N) as [|x l IH]; [done|]. rewrite filter_cons_False by (apply Hno; by left). apply IH. intros i Hi. apply Hno. by right.
Qed.

(** ** The allocator *)

Context (pvalloc : nat -> option Z).
(** What the heap promises: pages that nobody else has. *)
Record heap_ok : Prop := {
  ho_range : forall k b, pvalloc k = Some b -> 0 < b /\ b + slabSz <= 2 ^ 64;
  ho_apart : forall j k a b, j <> k -> pvalloc j = Some a -> pvalloc k = Some b -> a + slabSz <= b \/ b + slabSz <= a
}.
Context (HO : heap_ok).
Local Notation obj := (object sz slabSz).
Local Notation stor := (storage sz slabSz).

Record inv (w : allocator) (bs : list Z) (live : gset Z) : Prop := {
  i_head : head w = bs !! 0%nat;
  i_tail : tail w = last bs;
  i_nodup : NoDup bs;
  i_dom : forall b, is_Some (slabs w !! b) <-> b ∈ bs;
  i_slab : forall b s, slabs w !! b = Some s -> slab_ok s;
  i_next : forall i b s, bs !! i = Some b -> slabs w !! b = Some s -> s_next s = bs !! S i;
  i_from : forall b, b ∈ bs -> exists k, (k < requests w)%nat /\ pvalloc k = Some b;
  i_live : forall p, p ∈ live <-> exists b s i, slabs w !! b = Some s /\ 0 <= i < N /\ bit32 (freeMap s) i = false /\ p = obj b i
}.
Lemma object_range b i : 0 <= i < N -> b < stor b /\ stor b <= obj b i /\ obj b i + sz <= stor b + sz * N /\ stor b + sz * N <= b + slabSz.
Proof.
  intros Hi. destruct SO. assert (0 < storage_off sz slabSz) by (unfold storage_off; pose proof elements_range; Z.div_mod_to_equations; lia).
  unfold Slab.object, Slab.storage. nia.
Qed.
Lemma blocks_apart w bs live b b' : inv w bs live -> b ∈ bs -> b' ∈ bs -> b <> b' -> b + slabSz <= b' \/ b' + slabSz <= b.
Proof.
  intros I Hb Hb' Hne. destruct (i_from _ _ _ I _ Hb) as (j & _ & Ej). destruct (i_from _ _ _ I _ Hb') as (k & _ & Ek).
  apply (ho_apart HO j k); [|done|done]. intros ->. congruence.
Qed.
(** Different objects do not overlap. *)
Lemma objects_apart w bs live b b' i i' : inv w bs live -> b ∈ bs -> b' ∈ bs -> 0 <= i < N -> 0 <= i' < N -> (b, i) <> (b', i') ->
  obj b i + sz <= obj b' i' \/ obj b' i' + sz <= obj b i.
Proof.
  intros I Hb Hb' Hi Hi' Hne. destruct SO. destruct (decide (b = b')) as [->|Hbb].
  - assert (i <> i') by congruence. unfold Slab.object. nia.
  - pose proof (object_range b i Hi). pose proof (object_range b' i' Hi'). destruct (blocks_apart w bs live b b'); try done; lia.
Qed.
Lemma object_inj w bs live b b' i i' : inv w bs live -> b ∈ bs -> b' ∈ bs -> 0 <= i < N -> 0 <= i' < N -> obj b i = obj b' i' -> b = b' /\ i = i'.
Proof.
  intros I Hb Hb' Hi Hi' E. destruct (decide ((b, i) = (b', i'))) as [[= -> ->]|Hne]; [done|]. destruct SO. destruct (objects_apart _ _ _ _ _ _ _ I Hb Hb' Hi Hi' Hne); lia.
Qed.
Lemma inv_store w bs live b s s' p v : inv w bs live -> slabs w !! b = Some s -> changed s s' p v ->
  inv (Allocator (head w) (tail w) (<[b := s']> (slabs w)) (requests w)) bs (if v then live ∖ {[obj b p]} else {[obj b p]} ∪ live).
Proof.
  intros I Es [Co Ci Cb Cs [Cn _]]. pose proof I as [Hh Ht Hn Hd Hs Hx Hf Hl]. assert (b ∈ bs) as Hb by (apply Hd; by rewrite Es). split; cbn [head tail slabs requests]; try done.
  - intros b'. destruct (decide (b' = b)) as [->|Hne]; [rewrite lookup_insert_eq; split; [done|by eexists]|rewrite lookup_insert_ne by done; apply Hd].
  - intros b' t. destruct (decide (b' = b)) as [->|Hne]; [rewrite lookup_insert_eq; by intros [= <-]|rewrite lookup_insert_ne by done; apply Hs].
  - intros i b' t Hi. destruct (decide (b' = b)) as [->|Hne]; [rewrite lookup_insert_eq; intros [= <-]; rewrite Cn; by apply (Hx i b)|rewrite lookup_insert_ne by done; by apply Hx].
  - intros q. assert ((exists b' t i, <[b := s']> (slabs w) !! b' = Some t /\ 0 <= i < N /\ bit32 (freeMap t) i = false /\ q = obj b' i) <->
      (q = obj b p /\ v = false \/ q <> obj b p /\ exists b' t i, slabs w !! b' = Some t /\ 0 <= i < N /\ bit32 (freeMap t) i = false /\ q = obj b' i)) as ->.
    { split.
      - intros (b' & t & i & Et & Hi & Hbit & ->). destruct (decide (b' = b)) as [->|Hne].
        + rewrite lookup_insert_eq in Et. injection Et as <-. rewrite Cs in Hbit by lia. destruct (Z.eqb_spec i p) as [->|Hip]; [by left|]. right.
          split; [intros E; destruct (object_inj _ _ _ _ _ _ _ I Hb Hb Hi Ci E); done|]. by exists b, s, i.
        + rewrite lookup_insert_ne in Et by done. right. split; [|by exists b', t, i]. intros E. assert (b' ∈ bs) as Hb' by (apply Hd; by rewrite Et). by destruct (object_inj _ _ _ _ _ _ _ I Hb' Hb Hi Ci E).
      - intros [[-> ->]|(Hq & b' & t & i & Et & Hi & Hbit & ->)].
        + exists b, s', p. rewrite lookup_insert_eq. split; [done|]. split; [done|]. split; [rewrite Cs by lia; by rewrite Z.eqb_refl|done].
        + destruct (decide (b' = b)) as [->|Hne]; [|exists b', t, i; by rewrite lookup_insert_ne]. simplify_eq. exists b, s', i. rewrite lookup_insert_eq. split; [done|]. split; [done|].
          split; [|done]. rewrite Cs by lia. rewrite (proj2 (Z.eqb_neq i p)); [done|]. intros ->. done. }
    rewrite <- Hl. clear. destruct v.
    + rewrite elem_of_difference, elem_of_singleton. split; [intros [? ?]; by right|intros [[_ [=]]|[? ?]]; done].
    + rewrite elem_of_union, elem_of_singleton. destruct (decide (q = obj b p)) as [->|Hne]; [split; [by left|by left]|]. split; [intros [?|?]; [done|by right]|intros [[? _]|[_ ?]]; [done|by right]].
Qed.
Lemma slabs_size w bs live : inv w bs live -> size (slabs w) = length bs.
Proof.
  intros I. rewrite <- size_dom. assert (dom (slabs w) = list_to_set bs) as ->.
  { apply set_eq. intros b. rewrite elem_of_dom, elem_of_list_to_set. apply (i_dom _ _ _ I). }
  apply size_list_to_set, (i_nodup _ _ _ I).
Qed.

(** Adding a slab at the end of the list. *)
Definition linked (w : allocator) (b : Z) (m : gmap Z slab) : Prop :=
  (exists t, m !! b = Some t /\ s_next t = None /\ freeMap t = freeMap (new_slab sz slabSz) /\ numAllocated t = 0) /\
  forall c, c <> b -> match slabs w !! c, m !! c with
    | Some s, Some s' => freeMap s' = freeMap s /\ numAllocated s' = numAllocated s /\ s_next s' = (if decide (tail w = Some c) then Some b else s_next s)
    | None, None => True
    | _, _ => False
    end.
Lemma allocSlab_run w bs live b : inv w bs live -> pvalloc (requests w) = Some b -> b ∉ bs ->
  exists m, allocSlab sz slabSz pvalloc w = Ok (Some b, Allocator (head w) (Some b) m (S (requests w))) /\ linked w b m.
Proof.
  intros I Hp Hb. unfold allocSlab, mbind, st_bind, sget, sput. rewrite Hp. unfold store. cbn [head tail slabs requests]. destruct (tail w) as [t|] eqn:Et.
  - assert (t ∈ bs) as Ht. { rewrite (i_tail _ _ _ I) in Et. apply last_Some in Et as (l & ->). apply elem_of_app. right. by left. }
    assert (t <> b) as Hne by (by intros ->). destruct (proj2 (i_dom _ _ _ I t) Ht) as [st Est].
    unfold load. cbn [slabs]. rewrite lookup_insert_ne, Est by done. cbn [res_of mbind res_bind head tail slabs requests].
    rewrite lookup_insert_ne, lookup_insert_eq by done. cbn [res_of mbind res_bind head tail slabs requests]. eexists. split; [reflexivity|]. split.
    + eexists. split; [apply lookup_insert_eq|]. done.
    + intros c Hc. cbn [slabs]. rewrite lookup_insert_ne by done. destruct (decide (c = t)) as [->|Hct].
      * rewrite lookup_insert_eq, Est. cbn. by rewrite decide_True by done.
      * rewrite !lookup_insert_ne by done. destruct (slabs w !! c); [|done]. rewrite decide_False by (rewrite Et; congruence). done.
  - eexists. split; [reflexivity|]. split; [eexists; split; [apply lookup_insert_eq|done]|]. intros c Hc. cbn [slabs]. rewrite lookup_insert_ne by done. destruct (slabs w !! c); [|done].
    rewrite decide_False by (rewrite Et; done). done.
Qed.
Lemma linked_inv w bs live b m h : inv w bs live -> pvalloc (requests w) = Some b -> b ∉ bs -> linked w b m -> h = (bs ++ [b]) !! 0%nat ->
  inv (Allocator h (Some b) m (S (requests w))) (bs ++ [b]) live.
Proof.
  intros I Hp Hb [(t & Et & Tn & Tf & Ta) Hold] Hh. pose proof I as [_ Ht Hn Hd Hs Hx Hf Hl]. destruct new_slab_ok as [Hnew Hbits]. split; cbn [head tail slabs requests].
  - exact Hh.
  - by rewrite last_snoc.
  - apply NoDup_app. split; [done|]. split; [|apply NoDup_singleton]. intros x Hx1 Hx2. apply list_elem_of_singleton in Hx2. by subst.
  - intros c. rewrite elem_of_app, list_elem_of_singleton. destruct (decide (c = b)) as [->|Hc]; [rewrite Et; split; [by right|done]|]. specialize (Hold c Hc). rewrite <- Hd.
    destruct (slabs w !! c), (m !! c); try done; split; intros H; (try destruct H as [H|H]); try done; by left || by eexists || by destruct H.
  - intros c x Ex. destruct (decide (c = b)) as [->|Hc].
    + rewrite Et in Ex. injection Ex as <-. destruct Hnew as [Hm Hc]. split; rewrite Tf; [done|]. by rewrite Ta.
    + specialize (Hold c Hc). rewrite Ex in Hold. destruct (slabs w !! c) as [s0|] eqn:E0; [|done]. destruct Hold as (F1 & F2 & _). destruct (Hs _ _ E0) as [G1 G2]. split; rewrite F1; [done|congruence].
  - intros i c x Hi Ex. apply lookup_app_Some in Hi as [Hi|[Hlen Hi]].
    + assert (c ∈ bs) as Hcb by (by eapply list_elem_of_lookup_2). assert (c <> b) as Hc by (by intros ->). specialize (Hold c Hc). rewrite Ex in Hold.
      destruct (slabs w !! c) as [s0|] eqn:E0; [|done]. destruct Hold as (_ & _ & ->). rewrite (Hx i c s0 Hi E0). case_decide as Hlast.
      * rewrite Ht, last_lookup in Hlast. assert (i = pred (length bs)) as -> by (by eapply NoDup_lookup). pose proof (lookup_lt_Some _ _ _ Hi). rewrite lookup_app_r by lia.
        by replace (S (pred (length bs)) - length bs)%nat with 0%nat by lia.
      * assert (S i < length bs)%nat; [|by rewrite lookup_app_l]. pose proof (lookup_lt_Some _ _ _ Hi). destruct (decide (S i = length bs)) as [E|]; [|lia]. destruct Hlast. rewrite Ht, last_lookup.
        by rewrite <- E.
    + apply list_lookup_singleton_Some in Hi as [Hi <-]. rewrite Et in Ex. injection Ex as <-. rewrite Tn. symmetry. apply lookup_ge_None_2. rewrite length_app. cbn. lia.
  - intros c Hc. apply elem_of_app in Hc as [Hc|Hc]; [destruct (Hf c Hc) as (k & Hk & Ek); exists k; split; [lia|done]|]. apply list_elem_of_singleton in Hc as ->. exists (requests w). split; [lia|done].
  - intros p. rewrite Hl. split; intros (c & s0 & i & Ec & Hi & Hbit & ->).
    + assert (c <> b) as Hc by (intros ->; apply Hb, Hd; by eexists). specialize (Hold c Hc). rewrite Ec in Hold. destruct (m !! c) as [s1|] eqn:E1; [|done]. exists c, s1, i. destruct Hold as (-> & _). done.
    + destruct (decide (c = b)) as [->|Hc]; [rewrite Et in Ec; injection Ec as <-; rewrite Tf, Hbits in Hbit by done; done|]. specialize (Hold c Hc). rewrite Ec in Hold.
      destruct (slabs w !! c) as [s1|] eqn:E1; [|done]. exists c, s1, i. destruct Hold as (<- & _). done.
Qed.
Lemma fresh_block w bs live b : inv w bs live -> pvalloc (requests w) = Some b -> b ∉ bs.
Proof.
  intros I Hp Hb. destruct (i_from _ _ _ I b Hb) as (k & Hk & Ek). destruct SO as [S1 S2 S3 _]. pose proof (object_range b 0 ltac:(lia)). destruct (ho_apart HO k (requests w) b b ltac:(lia) Ek Hp); lia.
Qed.
Lemma new_allocator_ok b : pvalloc 0 = Some b -> exists w, new_allocator sz slabSz pvalloc (Allocator None None ∅ 0) = Ok ((), w) /\ inv w [b] ∅.
Proof.
  intros Hp. assert (inv (Allocator None None ∅ 0) [] ∅) as I.
  { split; cbn; try done; [by apply NoDup_nil|..].
    - intros c. rewrite lookup_empty. split; [by intros [? ?]|by intros ?%elem_of_nil].
    - by intros c Hc%elem_of_nil.
    - intros p. split; [by intros ?%elem_of_empty|by intros (? & ? & ? & H & _)]. }
  destruct (allocSlab_run _ _ _ b I Hp (not_elem_of_nil b)) as (m & E & L). unfold new_allocator, mbind, st_bind, smod. rewrite E. eexists. split; [reflexivity|].
  by apply (linked_inv _ _ _ _ _ (Some b) I Hp (not_elem_of_nil b) L).
Qed.

(** A new object, which is in a free place of a slab. *)
Definition fresh_object (bs : list Z) (live : gset Z) (p : Z) : Prop := p ∉ live /\ exists b i, b ∈ bs /\ 0 <= i < N /\ p = obj b i.
Lemma take_free w bs live b s s' p : inv w bs live -> slabs w !! b = Some s -> changed s s' p false -> fresh_object bs live (obj b p).
Proof.
  intros I Es Hch. pose proof Hch as [_ Ci Cb _ _]. assert (b ∈ bs) as Hb by (apply (i_dom _ _ _ I); by eexists). split; [|by exists b, p].
  rewrite (i_live _ _ _ I). intros (c & t & i & Et & Hi & Hbit & E). assert (c ∈ bs) as Hc by (apply (i_dom _ _ _ I); by eexists).
  destruct (object_inj _ _ _ _ _ _ _ I Hb Hc Ci Hi E) as [-> ->]. simplify_eq. rewrite Cb in Hbit. done.
Qed.
Lemma alloc_loop_ok w bs live fuel : forall j, inv w bs live -> (length bs - j <= fuel)%nat ->
  exists r w', alloc_loop sz slabSz fuel (bs !! j) w = Ok (r, w') /\
    match r with
    | Some p => fresh_object bs live p /\ inv w' bs ({[p]} ∪ live) /\ requests w' = requests w
    | None => w' = w /\ forall i b s, (j <= i)%nat -> bs !! i = Some b -> slabs w !! b = Some s -> count (freeMap s) = N
    end.
Proof.
  induction fuel as [|fuel IH]; intros j I Hf; destruct (bs !! j) as [b|] eqn:Ej; cbn [alloc_loop].
  1: pose proof (lookup_lt_Some _ _ _ Ej); lia.
  1, 3: exists None, w; split; [done|]; split; [done|]; intros i b s Hi Hb; apply lookup_ge_None in Ej; pose proof (lookup_lt_Some _ _ _ Hb); lia.
  assert (b ∈ bs) as Hb by (by eapply list_elem_of_lookup_2). destruct (proj2 (i_dom _ _ _ I b) Hb) as [s Es]. pose proof (i_slab _ _ _ I _ _ Es) as Hs.
  unfold load, mbind at 1, st_bind at 1. rewrite Es. cbn [res_of mbind res_bind]. rewrite (i_next _ _ _ I j b s Ej Es).
  assert (forall w1, w1 = w -> count (freeMap s) = N -> exists r w', alloc_loop sz slabSz fuel (bs !! S j) w1 = Ok (r, w') /\
    match r with Some p => fresh_object bs live p /\ inv w' bs ({[p]} ∪ live) /\ requests w' = requests w
    | None => w' = w /\ forall i b s, (j <= i)%nat -> bs !! i = Some b -> slabs w !! b = Some s -> count (freeMap s) = N end) as Hnext.
  { intros w1 -> Hfull. destruct (IH (S j) I) as (r & w' & E & H); [lia|]. exists r, w'. split; [done|]. destruct r as [p|]; [done|]. destruct H as [-> H]. split; [done|].
    intros i c t Hi Hc Et. destruct (decide (i = j)) as [->|]; [simplify_eq; done|]. apply (H i c t); [lia|done|done]. }
  destruct (full sz slabSz s) eqn:Ef.
  { apply Hnext; [done|]. unfold full in Ef. apply Z.eqb_eq in Ef. destruct Hs as [_ Hc]. congruence. }
  destruct (slab_alloc_ok s Hs) as (r & s' & Ea & H). unfold slift, mbind at 1, st_bind at 1. rewrite Ea. cbn [mbind res_bind]. unfold store, mbind, st_bind. destruct r as [p|].
  - eexists _, _. split; [reflexivity|]. split; [by eapply take_free|]. split; [by apply (inv_store _ _ _ _ _ _ _ false I Es)|done].
  - destruct H as [-> Hno]. rewrite (i_next _ _ _ I j b s Ej Es). rewrite insert_id by done. destruct w as [h t m k]. apply Hnext; [done|].
    unfold count. rewrite filter_all by (intros x Hx; apply elem_of_seqZ in Hx; apply Hno; lia). rewrite length_seqZ. destruct SO. lia.
Qed.
Definition all_live (bs : list Z) (live : gset Z) : Prop := forall c i, c ∈ bs -> 0 <= i < N -> obj c i ∈ live.
(** Allocation takes a free object of a slab, and a new slab only if there is none;
    if the heap has no pages then, a null pointer is used. *)
Lemma alloc_ok w bs live : inv w bs live -> bs <> [] ->
  (exists p w' bs', alloc sz slabSz pvalloc w = Ok (Some p, w') /\ inv w' bs' ({[p]} ∪ live) /\ fresh_object bs' live p /\
    (bs' = bs /\ requests w' = requests w \/ (exists b, bs' = bs ++ [b]) /\ all_live bs live)) \/
  (alloc sz slabSz pvalloc w = Stuck /\ pvalloc (requests w) = None /\ all_live bs live).
Proof.
  intros I Hne. destruct (alloc_loop_ok w bs live (size (slabs w)) 0 I) as (r & w' & E & H); [rewrite (slabs_size _ _ _ I); lia|]. rewrite <- (i_head _ _ _ I) in E.
  assert (alloc sz slabSz pvalloc w = match r with Some p => Ok (Some p, w') | None => alloc_new sz slabSz pvalloc w' end) as ->
    by (unfold alloc, mbind, st_bind, sget; rewrite E; by destruct r). destruct r as [p|].
  { left. destruct H as (H1 & H2 & H3). exists p, w', bs. split; [done|]. split; [done|]. split; [done|]. by left. }
  destruct H as [-> Hfull]. assert (all_live bs live) as Hall.
  { intros c i Hc Hi. apply (i_live _ _ _ I). destruct (proj2 (i_dom _ _ _ I c) Hc) as [s0 E0]. exists c, s0, i. split; [done|]. split; [done|]. split; [|done].
    apply list_elem_of_lookup in Hc as [j Hj]. by apply full_count; [apply (Hfull j c s0); [lia|done|done]|]. }
  destruct (pvalloc (requests w)) as [b|] eqn:Hp; [left|right; split; [|done]; unfold alloc_new, allocSlab, mbind, st_bind, sget, sput; by rewrite Hp].
  pose proof (fresh_block _ _ _ _ I Hp) as Hb. destruct (allocSlab_run _ _ _ _ I Hp Hb) as (m & Ea & L). unfold alloc_new, mbind at 1, st_bind at 1. rewrite Ea.
  set (w1 := Allocator _ _ _ _). assert (inv w1 (bs ++ [b]) live) as I1.
  { apply linked_inv; [done|done|done|done|]. rewrite (i_head _ _ _ I). destruct bs; [done|done]. }
  destruct L as [(t & Et & _ & Tf & _) _]. unfold load, mbind at 1, st_bind at 1. cbn [slabs w1]. rewrite Et. cbn [res_of mbind res_bind].
  destruct (slab_alloc_ok t (i_slab _ _ _ I1 b t Et)) as (r & s' & Es & H). unfold slift, mbind at 1, st_bind at 1. rewrite Es. cbn [mbind res_bind]. destruct r as [p|].
  - eexists _, _, (bs ++ [b]). split; [reflexivity|]. split; [by apply (inv_store _ _ _ _ _ _ _ false I1 Et)|]. split; [by eapply take_free|]. right. split; [by exists b|done].
  - destruct H as [_ H]. destruct new_slab_ok as [_ Hbits]. destruct SO. specialize (H 0 ltac:(lia)). rewrite Tf, Hbits in H by lia. done.
Qed.
Lemma free_first w bs live b i : inv w bs live -> head w = Some b -> 0 <= i < N -> obj b i ∈ live -> forall fuel, (0 < fuel)%nat ->
  exists w', free sz slabSz fuel (obj b i) w = Ok ((), w') /\ inv w' bs (live ∖ {[obj b i]}).
Proof.
  intros I Hh Hi Hlive fuel Hf. destruct fuel as [|fuel]; [lia|]. unfold free, mbind at 1, st_bind at 1, sget. rewrite Hh. cbn [free_loop]. pose proof (object_range b i Hi) as Hr. destruct SO.
  unfold contains. rewrite (proj2 (Z.ltb_ge _ _)) by lia. rewrite (proj2 (Z.ltb_ge _ _)) by lia.
  assert (b ∈ bs) as Hb by (rewrite (i_head _ _ _ I) in Hh; by eapply list_elem_of_lookup_2). destruct (proj2 (i_dom _ _ _ I b) Hb) as [s Es].
  unfold load, mbind at 1, st_bind at 1. rewrite Es. cbn [res_of mbind res_bind].
  assert (bit32 (freeMap s) i = false) as Hbit.
  { apply (i_live _ _ _ I) in Hlive as (c & t & k & Et & Hk & Hbit & E). assert (c ∈ bs) as Hc by (apply (i_dom _ _ _ I); by eexists).
    destruct (object_inj _ _ _ _ _ _ _ I Hb Hc Hi Hk E) as [-> ->]. by simplify_eq. }
  destruct (i_from _ _ _ I b Hb) as (k & _ & Ek). destruct (ho_range HO k b Ek).
  destruct (slab_free_ok b s i (i_slab _ _ _ I _ _ Es) Hi Hbit) as (s' & E & Hch); [lia|lia|]. unfold slift, mbind, st_bind. rewrite E. cbn [mbind res_bind].
  eexists. split; [reflexivity|]. by apply (inv_store _ _ _ _ _ _ _ true I Es).
Qed.
Lemma free_other w bs live b c i : inv w bs live -> head w = Some b -> c ∈ bs -> c <> b -> 0 <= i < N -> forall fuel, free sz slabSz fuel (obj c i) w = Stuck.
Proof.
  intros I Hh Hc Hne Hi fuel. unfold free, mbind at 1, st_bind at 1, sget. rewrite Hh.
  assert (b ∈ bs) as Hb by (rewrite (i_head _ _ _ I) in Hh; by eapply list_elem_of_lookup_2).
  assert (contains sz slabSz b (obj c i) = false) as E.
  { destruct SO. pose proof (object_range c i Hi). pose proof (object_range b 0 ltac:(lia)). unfold contains. destruct (blocks_apart _ _ _ _ _ I Hb Hc ltac:(done)).
    - rewrite (proj2 (Z.ltb_ge (obj c i) _)) by lia. by rewrite (proj2 (Z.ltb_lt _ (obj c i))) by lia.
    - by rewrite (proj2 (Z.ltb_lt (obj c i) _)) by lia. }
  induction fuel as [|fuel IH]; [done|]. cbn [free_loop]. by rewrite E.
Qed.

(** The destructor. *)
Lemma destroyed_objects b s p : p ∈ destroyed sz slabSz b s <-> exists i, 0 <= i < N /\ bit32 (freeMap s) i = false /\ p = obj b i.
Proof.
  unfold destroyed. rewrite list_elem_of_fmap. split.
  - intros (i & -> & Hi). apply list_elem_of_filter in Hi as [Hb Hi]. apply elem_of_seqZ in Hi. exists i. split; [lia|done].
  - intros (i & Hi & Hb & ->). exists i. split; [done|]. apply list_elem_of_filter. split; [done|]. apply elem_of_seqZ. lia.
Qed.
Lemma destroyed_nodup b s : NoDup (destroyed sz slabSz b s).
Proof.
  unfold destroyed. apply NoDup_fmap_2_strong; [|apply NoDup_filter, NoDup_seqZ]. intros i j _ _ E. unfold Slab.object in E. destruct SO. nia.
Qed.
Lemma destroy_loop_ok w bs live fuel : forall j x, inv w bs live -> (length bs - j <= fuel)%nat ->
  (forall i b, (j <= i)%nat -> bs !! i = Some b -> slabs x !! b = slabs w !! b) ->
  exists ps x', destroy_loop sz slabSz fuel (bs !! j) x = Ok (ps, x') /\ NoDup ps /\
    (forall p, p ∈ ps <-> exists i b s k, (j <= i)%nat /\ bs !! i = Some b /\ slabs w !! b = Some s /\ 0 <= k < N /\ bit32 (freeMap s) k = false /\ p = obj b k) /\
    forall c, slabs x' !! c = if decide (c ∈ drop j bs) then None else slabs x !! c.
Proof.
  induction fuel as [|fuel IH]; intros j x I Hf Hx; destruct (bs !! j) as [b|] eqn:Ej; cbn [destroy_loop].
  1: pose proof (lookup_lt_Some _ _ _ Ej); lia.
  1, 3: exists [], x; split; [done|]; split; [apply NoDup_nil_2|]; apply lookup_ge_None in Ej; split;
    [intros p; split; [by intros ?%elem_of_nil|intros (i & b & s & k & Hi & Hb & _); pose proof (lookup_lt_Some _ _ _ Hb); lia]|];
    intros c; rewrite drop_ge by lia; rewrite decide_False by apply not_elem_of_nil; done.
  assert (b ∈ bs) as Hb by (by eapply list_elem_of_lookup_2). destruct (proj2 (i_dom _ _ _ I b) Hb) as [s Es].
  unfold load, mbind at 1, st_bind at 1. rewrite (Hx j b) by (done || lia). rewrite Es. cbn [res_of mbind res_bind]. unfold smod, mbind at 1, st_bind at 1.
  rewrite (i_next _ _ _ I j b s Ej Es). set (x1 := Allocator _ _ _ _).
  destruct (IH (S j) x1 I) as (ps & x' & E & Hd & Hp & Hs); [lia| |].
  { intros i c Hi Hc. cbn [slabs x1]. rewrite lookup_delete_ne; [apply (Hx i c); [lia|done]|]. intros <-. pose proof (NoDup_lookup _ _ _ _ (i_nodup _ _ _ I) Ej Hc). lia. }
  unfold mbind, st_bind. rewrite E. eexists _, x'. split; [reflexivity|]. split_and!.
  - apply NoDup_app. split; [apply destroyed_nodup|]. split; [|done]. intros p H1 H2. apply destroyed_objects in H1 as (k & Hk & _ & ->). apply Hp in H2 as (i & c & t & k' & Hi & Hc & _ & Hk' & _ & Eo).
    destruct (object_inj _ _ _ _ _ _ _ I Hb ltac:(by eapply list_elem_of_lookup_2) Hk Hk' Eo) as [<- _]. pose proof (NoDup_lookup _ _ _ _ (i_nodup _ _ _ I) Ej Hc). lia.
  - intros p. rewrite elem_of_app, destroyed_objects, Hp. split.
    + intros [(k & Hk & Hbit & ->)|(i & c & t & k & Hi & H)]; [by exists j, b, s, k|]. exists i, c, t, k. split; [lia|done].
    + intros (i & c & t & k & Hi & Hc & Et & Hk & Hbit & ->). destruct (decide (i = j)) as [->|]; [simplify_eq; left; by exists k|]. right. exists i, c, t, k. split; [lia|done].
  - intros c. rewrite Hs. cbn [slabs x1]. rewrite (drop_S _ _ _ Ej). destruct (decide (c = b)) as [->|Hne].
    + rewrite lookup_delete_eq. rewrite (decide_True (P := b ∈ b :: _)) by (by left). by case_decide.
    + rewrite lookup_delete_ne by done. destruct (decide (c ∈ drop (S j) bs)); [by rewrite decide_True by (by right)|]. rewrite decide_False; [done|]. by intros [->|?]%elem_of_cons.
Qed.
Lemma destroy_ok w bs live : inv w bs live ->
  exists ps w', destroy sz slabSz w = Ok (ps, w') /\ NoDup ps /\ (forall p, p ∈ ps <-> p ∈ live) /\ slabs w' = ∅.
Proof.
  intros I. unfold destroy, mbind at 1, st_bind at 1, sget. rewrite (i_head _ _ _ I).
  destruct (destroy_loop_ok w bs live (size (slabs w)) 0 w I) as (ps & w' & E & Hd & Hp & Hs); [rewrite (slabs_size _ _ _ I); lia|done|].
  exists ps, w'. split; [done|]. split; [done|]. split.
  - intros p. rewrite Hp, (i_live _ _ _ I). split.
    + intros (i & b & s & k & _ & _ & Es & H). by exists b, s, k.
    + intros (b & s & k & Es & H). assert (b ∈ bs) as Hb by (apply (i_dom _ _ _ I); by eexists). apply list_elem_of_lookup in Hb as [i Hi]. exists i, b, s, k. split; [lia|done].
  - apply map_eq. intros c. rewrite Hs, drop_0, lookup_empty. case_decide as Hc; [done|]. destruct (slabs w !! c) eqn:Ec; [|done]. destruct Hc. apply (i_dom _ _ _ I). by eexists.
Qed.

(** What the users of the allocator do: allocate objects, and free objects that
    they have.  The constructor has got its slab. *)
Inductive reach : allocator -> gset Z -> Prop :=
| reach_new w : new_allocator sz slabSz pvalloc (Allocator None None ∅ 0) = Ok ((), w) -> head w <> None -> reach w ∅
| reach_alloc w live p w' : reach w live -> alloc sz slabSz pvalloc w = Ok (Some p, w') -> reach w' ({[p]} ∪ live)
| reach_free w live p fuel w' : reach w live -> p ∈ live -> free sz slabSz fuel p w = Ok ((), w') -> reach w' (live ∖ {[p]}).
Lemma reach_inv w live : reach w live -> exists bs, bs <> [] /\ inv w bs live.
Proof.
  induction 1 as [w E Hh|w live p w' _ (bs & Hne & I) E|w live p fuel w' _ (bs & Hne & I) Hp E].
  - destruct (pvalloc 0) as [b|] eqn:Eb.
    + destruct (new_allocator_ok b Eb) as (w1 & E1 & I). exists [b]. split; [done|]. congruence.
    + unfold new_allocator, allocSlab, mbind, st_bind, sget, sput in E. cbn [requests] in E. rewrite Eb in E. injection E as <-. done.
  - destruct (alloc_ok w bs live I Hne) as [(p1 & w1 & bs1 & E1 & I1 & _ & H)|(E1 & _)]; [|congruence]. rewrite E1 in E. injection E as -> ->.
    exists bs1. split; [|done]. destruct H as [[-> _]|[[b ->] _]]; [done|by destruct bs].
  - exists bs. split; [done|]. pose proof Hp as Hp'. apply (i_live _ _ _ I) in Hp' as (c & s & i & Es & Hi & _ & ->). assert (c ∈ bs) as Hc by (apply (i_dom _ _ _ I); by eexists).
    destruct (head w) as [b|] eqn:Eh; [|rewrite (i_head _ _ _ I) in Eh; by destruct bs]. destruct (decide (c = b)) as [->|Hcb].
    + destruct fuel as [|fuel]; [unfold free, mbind, st_bind, sget in E; by rewrite Eh in E|]. destruct (free_first w bs live b i I Eh Hi Hp (S fuel)) as (w1 & E1 & I1); [lia|]. rewrite E1 in E. injection E as ->. done.
    + rewrite (free_other w bs live b c i I Eh Hc Hcb Hi) in E. done.
Qed.

(** C25: the slab allocator.  After any sequence of allocations and releases the
    live objects do not overlap.  The next allocation returns an object that is not
    live, apart from all live ones, and asks the heap for a new slab only if every
    object of every slab is live; if the heap has none then, a null pointer is
    used.  A live object of the first slab can be freed, and is no longer live
    then.  The destructor of the allocator destroys exactly the live objects, each
    once, and gives back all slabs.  A live object of any other slab cannot be
    freed: [free] never comes to an end, with any number of rounds. *)
Theorem slab_allocator_safe w live : reach w live ->
  (forall p q, p ∈ live -> q ∈ live -> p <> q -> p + sz <= q \/ q + sz <= p) /\
  ((exists p w', alloc sz slabSz pvalloc w = Ok (Some p, w') /\ p ∉ live /\ (forall q, q ∈ live -> p + sz <= q \/ q + sz <= p) /\
      (requests w' <> requests w -> forall b i, is_Some (slabs w !! b) -> 0 <= i < N -> obj b i ∈ live)) \/
   (alloc sz slabSz pvalloc w = Stuck /\ pvalloc (requests w) = None /\ forall b i, is_Some (slabs w !! b) -> 0 <= i < N -> obj b i ∈ live)) /\
  (forall b i, is_Some (slabs w !! b) -> 0 <= i < N -> obj b i ∈ live ->
     if decide (head w = Some b) then exists w', free sz slabSz 1 (obj b i) w = Ok ((), w') /\ reach w' (live ∖ {[obj b i]})
     else forall fuel, free sz slabSz fuel (obj b i) w = Stuck) /\
  (exists ps w', destroy sz slabSz w = Ok (ps, w') /\ NoDup ps /\ (forall p, p ∈ ps <-> p ∈ live) /\ slabs w' = ∅).
Proof.
  intros R. destruct (reach_inv w live R) as (bs & Hne & I). split_and!.
  - intros p q Hp Hq Hpq. apply (i_live _ _ _ I) in Hp as (b & s & i & Es & Hi & _ & ->). apply (i_live _ _ _ I) in Hq as (c & t & k & Et & Hk & _ & ->).
    apply (objects_apart w bs live); [done|apply (i_dom _ _ _ I); by eexists|apply (i_dom _ _ _ I); by eexists|done|done|congruence].
  - destruct (alloc_ok w bs live I Hne) as [(p & w' & bs' & E & I' & [Hp (c & i & Hc & Hi & ->)] & H)|(E & Ep & H)].
    2: { right. split; [done|]. split; [done|]. intros b i Hb. apply H. by apply (i_dom _ _ _ I). }
    left. exists (obj c i), w'. split; [done|]. split; [done|]. split.
    + intros q Hq. assert (q ∈ {[obj c i]} ∪ live) as Hq' by (apply elem_of_union; by right). apply (i_live _ _ _ I') in Hq' as (d & t & k & Et & Hk & _ & ->).
      apply (objects_apart w' bs' _ c d i k I'); [done|apply (i_dom _ _ _ I'); by eexists|done|done|]. intros [= -> ->]. done.
    + intros Hr d k Hd Hk. destruct H as [[_ H]|[_ H]]; [done|]. apply H; [by apply (i_dom _ _ _ I)|done].
  - intros b i Hb Hi Hl. apply (i_dom _ _ _ I) in Hb. case_decide as Hh.
    + destruct (free_first w bs live b i I Hh Hi Hl 1) as (w' & E & _); [lia|]. exists w'. split; [done|]. by eapply reach_free.
    + destruct (head w) as [c|] eqn:Eh; [|rewrite (i_head _ _ _ I) in Eh; by destruct bs]. intros fuel. apply (free_other w bs live c b i I Eh Hb); [congruence|done].
  - by apply (destroy_ok w bs live).
Qed.
End Proofs.

(** ** A small allocator *)

Definition demo_heap (k : nat) : option Z := if decide (k < 100)%nat then Some (4096 * (Z.of_nat k + 1)) else None.
Lemma demo_sizes : sizes_ok 1000 4096.
Proof. split; by vm_compute. Qed.
Lemma demo_heap_ok : heap_ok 4096 demo_heap.
Proof.
  split.
  - intros k b H. unfold demo_heap in H. case_decide; [|done]. injection H as <-. mlia.
  - intros j k a b Hne Ha Hb. unfold demo_heap in *. repeat case_decide; try done. simplify_eq. lia.
Qed.
Definition demo_start : res (() * allocator) := new_allocator 1000 4096 demo_heap (Allocator None None ∅ 0).
Lemma slab_allocator_safe_witness : exists w, demo_start = Ok ((), w) /\ exists p w', alloc 1000 4096 demo_heap w = Ok (Some p, w') /\ p ∉ (∅ : gset Z).
Proof.
  destruct demo_start as [[[] w]| |] eqn:E; [|discriminate E..]. exists w. split; [reflexivity|].
  destruct (slab_allocator_safe 1000 4096 demo_sizes demo_heap demo_heap_ok w ∅) as (_ & [(p & w' & Ea & Hp & _)|(_ & Hn & _)] & _).
  - apply reach_new; [exact E|]. vm_compute in E. injection E as <-. discriminate.
  - exists p, w'. split; [exact Ea|exact Hp].
  - vm_compute in E. injection E as <-. discriminate Hn.
Defined.

(** If the constructor gets no slab, the list stays without a head: every later
    allocation takes a slab of its own, and no object can be freed. *)
Example headless_allocator :
  let heap k := match k with O => None | S k => demo_heap k end in
  match new_allocator 1000 4096 heap (Allocator None None ∅ 0) with
  | Ok (_, w) =>
      match alloc 1000 4096 heap w with
      | Ok (Some p, w) => match alloc 1000 4096 heap w with Ok (Some q, w) => p = 4160 /\ q = 8256 /\ free 1000 4096 1 p w = Panic | _ => False end
      | _ => False
      end
  | _ => False
  end.
Proof. vm_compute. by repeat split. Qed.
