(* ===== verification/Sorting.v ===== *)
(** * Sorting and searching of the libc (user/lib/libc/src/stdlib)

    [qsort] (qsort.c, an introsort), [heapsort] (heapsort.c) and [bsearch]
    (bsearch.c) over an array of opaque elements.  A pointer into the array is the
    index of an element, which has a positive size; the loops that exchange and copy the bytes of elements
    exchange and copy elements, which for the exchange of qsort.c is proved below
    ([swap_bytes_ok]).  The comparison function is an argument, and so is
    the result of the allocation that heapsort makes for one element.  That the
    array is permuted, that no access leaves it and that the functions end holds
    for any comparison function; that the result is sorted needs a consistent
    one. *)

From stdpp Require Import sorting.
From S2P Require Import Prelude.
Open Scope mach_scope.

Section Sort.
Context {A : Type} (cmp : A -> A -> Z).

Definition get_elt (i : Z) : st (list A) A := fun l => x ← aget l i; Ok (x, l).
Definition set_elt (i : Z) (x : A) : st (list A) () := fun l => l ← aset l i x; Ok ((), l).
Definition compare (i j : Z) : st (list A) Z := x ← get_elt i; y ← get_elt j; mret (cmp x y).
Definition swap (i j : Z) : st (list A) () :=
  x ← get_elt i; y ← get_elt j; _ ← set_elt i y; set_elt j x.

(** ** heapsort.c

    Elements are numbered from 1: element [i] is at [base + i]. *)

(** [CREATE]: the loop over [par_i]. *)
Fixpoint CREATE (fuel : nat) (base par_i nmemb : Z) : st (list A) () :=
  match fuel with
  | O => sstuck
  | S fuel =>
      let child_i := par_i * 2 in
      if child_i <=? nmemb then
        child_i ← (if child_i <? nmemb then c ← compare (base + child_i) (base + child_i + 1); mret (if c <? 0 then child_i + 1 else child_i)
                   else mret child_i);
        c ← compare (base + child_i) (base + par_i);
        if c <=? 0 then mret ()
        else _ ← swap (base + par_i) (base + child_i); CREATE fuel base child_i nmemb
      else mret ()
  end.
(** The first loop of [SELECT], which moves the larger children up; the place that
    is left. *)
Fixpoint select_down (fuel : nat) (base par_i nmemb : Z) : st (list A) Z :=
  match fuel with
  | O => sstuck
  | S fuel =>
      let child_i := par_i * 2 in
      if child_i <=? nmemb then
        child_i ← (if child_i <? nmemb then c ← compare (base + child_i) (base + child_i + 1); mret (if c <? 0 then child_i + 1 else child_i)
                   else mret child_i);
        x ← get_elt (base + child_i);
        _ ← set_elt (base + par_i) x;
        select_down fuel base child_i nmemb
      else mret par_i
  end.
(** Its second loop, which looks for the place of [k] from the bottom. *)
Fixpoint select_up (fuel : nat) (base child_i : Z) (k : A) : st (list A) () :=
  match fuel with
  | O => sstuck
  | S fuel =>
      let par_i := child_i / 2 in
      stop ← (if child_i =? 1 then mret true else x ← get_elt (base + par_i); mret (cmp k x <? 0));
      if (stop : bool) then set_elt (base + child_i) k
      else x ← get_elt (base + par_i); _ ← set_elt (base + child_i) x; select_up fuel base par_i k
  end.
Definition SELECT (base nmemb : Z) (k : A) : st (list A) () :=
  i ← select_down (S (Z.to_nat nmemb)) base 1 nmemb;
  select_up (S (Z.to_nat i)) base i k.

Fixpoint create_all (l : nat) (base nmemb : Z) : st (list A) () :=
  match l with
  | O => mret ()
  | S l' => _ ← CREATE (S (Z.to_nat nmemb)) base (Z.of_nat l) nmemb; create_all l' base nmemb
  end.
Fixpoint select_all (rounds : nat) (base nmemb : Z) : st (list A) () :=
  match rounds with
  | O => mret ()
  | S rounds =>
      k ← get_elt (base + nmemb);
      x ← get_elt (base + 1);
      _ ← set_elt (base + nmemb) x;
      _ ← SELECT base (nmemb - 1) k;
      select_all rounds base (nmemb - 1)
  end.
(** [heapsort] of the [nmemb] elements at [vbase]; [ok] is whether [malloc]
    succeeds. *)
Definition heapsort (ok : bool) (vbase nmemb : Z) : st (list A) Z :=
  if nmemb <=? 1 then mret 0
  else if negb ok then mret (-1)
  else
    let base := vbase - 1 in
    _ ← create_all (Z.to_nat (nmemb / 2)) base nmemb;
    _ ← select_all (Z.to_nat (nmemb - 1)) base nmemb;
    mret 0.

(** ** qsort.c *)

Definition med3 (a b c : Z) : st (list A) Z :=
  ab ← compare a b;
  bc ← compare b c;
  if ab <? 0 then (if bc <? 0 then mret b else ac ← compare a c; mret (if ac <? 0 then c else a))
  else (if 0 <? bc then mret b else ac ← compare a c; mret (if ac <? 0 then a else c)).

(** The insertion sort of short arrays. *)
Fixpoint sink (fuel : nat) (a pl : Z) : st (list A) () :=
  match fuel with
  | O => sstuck
  | S fuel =>
      if a <? pl then
        c ← compare (pl - 1) pl;
        if 0 <? c then _ ← swap pl (pl - 1); sink fuel a (pl - 1) else mret ()
      else mret ()
  end.
Fixpoint insert_all (rounds : nat) (a pm : Z) : st (list A) () :=
  match rounds with
  | O => mret ()
  | S rounds => _ ← sink (S (Z.to_nat (pm - a))) a pm; insert_all rounds a (pm + 1)
  end.

(** The choice of the pivot: of three elements, each of them of three in a long
    array. *)
Definition candidates (a n : Z) : st (list A) (Z * Z * Z) :=
  let pm := a + n / 2 in
  let pl := a in
  let pn := a + (n - 1) in
  if 40 <? n then
    let s := n / 8 in
    pl ← med3 pl (pl + s) (pl + 2 * s);
    pm ← med3 (pm - s) pm (pm + s);
    pn ← med3 (pn - 2 * s) (pn - s) pn;
    mret (pl, pm, pn)
  else mret (pl, pm, pn).
Definition pivot (a n : Z) : st (list A) Z :=
  if 7 <? n then t ← candidates a n; let '(pl, pm, pn) := (t : Z * Z * Z) in med3 pl pm pn
  else mret (a + n / 2).

(** The partition around the element at [a]. *)
Fixpoint scan_up (fuel : nat) (a pa pb pc : Z) : st (list A) (Z * Z) :=
  match fuel with
  | O => sstuck
  | S fuel =>
      if pb <=? pc then
        r ← compare pb a;
        if r <=? 0 then
          if r =? 0 then _ ← swap pa pb; scan_up fuel a (pa + 1) (pb + 1) pc
          else scan_up fuel a pa (pb + 1) pc
        else mret (pa, pb)
      else mret (pa, pb)
  end.
Fixpoint scan_down (fuel : nat) (a pb pc pd : Z) : st (list A) (Z * Z) :=
  match fuel with
  | O => sstuck
  | S fuel =>
      if pb <=? pc then
        r ← compare pc a;
        if 0 <=? r then
          if r =? 0 then _ ← swap pc pd; scan_down fuel a pb (pc - 1) (pd - 1)
          else scan_down fuel a pb (pc - 1) pd
        else mret (pc, pd)
      else mret (pc, pd)
  end.
Fixpoint partition (fuel : nat) (a n pa pb pc pd : Z) : st (list A) (Z * Z * Z * Z) :=
  match fuel with
  | O => sstuck
  | S fuel =>
      up ← scan_up (S (Z.to_nat n)) a pa pb pc;
      let '(pa, pb) := (up : Z * Z) in
      down ← scan_down (S (Z.to_nat n)) a pb pc pd;
      let '(pc, pd) := (down : Z * Z) in
      if pc <? pb then mret (pa, pb, pc, pd)
      else _ ← swap pb pc; partition fuel a n pa (pb + 1) (pc - 1) pd
  end.
Fixpoint vecswap (n : nat) (i j : Z) : st (list A) () :=
  match n with O => mret () | S n => _ ← swap i j; vecswap n (i + 1) (j + 1) end.

(** [malloc_ok a n] is whether the allocation succeeds when heapsort is called for
    the [n] elements at [a], which happens once at most. *)
Context (malloc_ok : Z -> Z -> bool).
Fixpoint introsort (fuel : nat) (a n maxdepth : Z) : st (list A) () :=
  match fuel with
  | O => sstuck
  | S fuel =>
      if n <? 7 then insert_all (Z.to_nat (n - 1)) a (a + 1)
      else
        err ← (if maxdepth =? 0 then heapsort (malloc_ok a n) a n else mret (-1));
        if err =? 0 then mret ()
        else
          let maxdepth := u64 (maxdepth - 1) in
          pm ← pivot a n;
          _ ← swap a pm;
          t ← partition (S (Z.to_nat n)) a n (a + 1) (a + 1) (a + (n - 1)) (a + (n - 1));
          let '(pa, pb, pc, pd) := (t : Z * Z * Z * Z) in
          let pn := a + n in
          let r := Z.min (pa - a) (pb - pa) in
          _ ← vecswap (Z.to_nat r) a (pb - r);
          let r := Z.min (pd - pc) (pn - pd - 1) in
          _ ← vecswap (Z.to_nat r) pb (pn - r);
          let r := pb - pa in
          let s := pd - pc in
          if r <? s then
            if 1 <? s then
              _ ← (if 1 <? r then introsort fuel a r maxdepth else mret ());
              introsort fuel (pn - s) s maxdepth
            else mret ()
          else
            if 1 <? r then
              _ ← (if 1 <? s then introsort fuel (pn - s) s maxdepth else mret ());
              introsort fuel a r maxdepth
            else mret ()
  end.

(** [for (i = n; i > 0; i >>= 1) maxdepth++]. *)
Fixpoint bits (fuel : nat) (i : Z) : Z :=
  match fuel with O => 0 | S fuel => if 0 <? i then 1 + bits fuel (i >> 1) else 0 end.
Definition qsort (n : Z) : st (list A) () :=
  introsort (S (Z.to_nat n)) 0 n (bits 64 n * 2).
End Sort.

(** ** bsearch.c

    [lim] is an [int]; the result is the index of an element, or none for a null
    pointer. *)
Fixpoint bsearch_loop {K A} (compar : K -> A -> Z) (fuel : nat) (key : K) (l : list A) (base lim : Z) : res (option Z) :=
  match fuel with
  | O => Stuck
  | S fuel =>
      if lim =? 0 then Ok None
      else
        let p := base + (lim >> 1) in
        x ← aget l p;
        let c := compar key x in
        if c =? 0 then Ok (Some p)
        else if 0 <? c then bsearch_loop compar fuel key l (p + 1) (s32 (lim - 1) >> 1)
        else bsearch_loop compar fuel key l base (lim >> 1)
  end.
Definition bsearch {K A} (compar : K -> A -> Z) (key : K) (l : list A) (nmemb : Z) : res (option Z) :=
  bsearch_loop compar 33 key l 0 (s32 nmemb).

(** ** Arrays *)

Section Arrays.
Context {A : Type}.
Implicit Types l : list A.

Definition elt l (k : Z) : option A := l !! Z.to_nat k.
(** All elements from [i] up to [j] have property [P]. *)
Definition reg l (i j : Z) (P : A -> Prop) : Prop := forall k x, i <= k < j -> elt l k = Some x -> P x.
(** [l'] is [l] with the elements from [a] up to [b] permuted. *)
Record within (a b : Z) l l' : Prop := {
  wi_length : length l' = length l;
  wi_perm : l' ≡ₚ l;
  wi_same : forall k, 0 <= k -> k < a \/ b <= k -> elt l' k = elt l k
}.
Definition inside l (i : Z) : Prop := 0 <= i < Z.of_nat (length l).

Lemma elt_some l i : inside l i -> exists x, elt l i = Some x.
Proof. intros H. apply lookup_lt_is_Some_2. unfold inside in H. lia. Qed.
Lemma elt_insert l i k x : inside l i -> 0 <= k -> elt (<[Z.to_nat i := x]> l) k = if decide (k = i) then Some x else elt l k.
Proof.
  intros Hi Hk. unfold elt, inside in *. case_decide as Hki; [subst; apply list_lookup_insert_eq; lia|apply list_lookup_insert_ne; lia].
Qed.
Lemma get_elt_ok l i : inside l i -> exists x, elt l i = Some x /\ get_elt i l = Ok (x, l).
Proof.
  intros H. destruct (elt_some l i H) as [x Hx]. exists x. split; [done|]. unfold get_elt, aget. unfold inside in H.
  rewrite (proj2 (Z.leb_le 0 i)) by lia. cbn. unfold elt in Hx. by rewrite Hx.
Qed.
Lemma set_elt_ok l i x : inside l i -> set_elt i x l = Ok ((), <[Z.to_nat i := x]> l).
Proof.
  intros H. unfold set_elt, aset. unfold inside in H. rewrite (proj2 (Z.leb_le 0 i)), (proj2 (Z.ltb_lt i (Z.of_nat (length l)))) by lia. done.
Qed.

Lemma within_refl a b l : within a b l l.
Proof. by split. Qed.
Lemma within_trans a b l1 l2 l3 : within a b l1 l2 -> within a b l2 l3 -> within a b l1 l3.
Proof. intros [L1 P1 S1] [L2 P2 S2]. split; [congruence|by rewrite P2|]. intros k Hk Ho. by rewrite S2, S1. Qed.
Lemma within_mono a b a' b' l l' : within a b l l' -> a' <= a -> b <= b' -> within a' b' l l'.
Proof. intros [L1 P1 S1] H1 H2. split; [done|done|]. intros k Hk Ho. apply S1; [done|lia]. Qed.
Lemma within_inside a b l l' i : within a b l l' -> inside l i -> inside l' i.
Proof. intros [L1 _ _]. unfold inside. by rewrite L1. Qed.
(** A property of all elements of the part that is permuted is kept. *)
Lemma within_reg a b l l' P : within a b l l' -> 0 <= a <= b -> b <= Z.of_nat (length l) -> reg l a b P -> reg l' a b P.
Proof.
  intros [L1 P1 S1] Hab Hb Hr. set (a' := Z.to_nat a). set (n := Z.to_nat (b - a)).
  assert (forall m : list A, length m = length l -> m = take a' m ++ take n (drop a' m) ++ drop (a' + n) m) as Hsplit.
  { intros m _. rewrite <- drop_drop, take_drop. by rewrite take_drop. }
  assert (take a' l' = take a' l) as E1.
  { apply list_eq. intros i. destruct (decide (i < a')%nat); [|by rewrite !lookup_take_ge by lia]. rewrite !lookup_take_lt by lia.
    specialize (S1 (Z.of_nat i) ltac:(lia) ltac:(lia)). unfold elt in S1. by rewrite Nat2Z.id in S1. }
  assert (drop (a' + n) l' = drop (a' + n) l) as E2.
  { apply list_eq. intros i. rewrite !lookup_drop. specialize (S1 (Z.of_nat (a' + n + i)) ltac:(lia) ltac:(lia)). unfold elt in S1. by rewrite Nat2Z.id in S1. }
  rewrite (Hsplit l' L1), (Hsplit l eq_refl), E1, E2 in P1. apply Permutation_app_inv_l, Permutation_app_inv_r in P1.
  intros k x Hk Hx. assert (x ∈ take n (drop a' l)) as Hin.
  { rewrite <- P1. apply list_elem_of_lookup. exists (Z.to_nat k - a')%nat. rewrite lookup_take_lt, lookup_drop by lia. rewrite <- Hx. unfold elt. f_equal. lia. }
  apply list_elem_of_lookup in Hin as [i Hi]. apply lookup_take_Some in Hi as [Hi Hlt]. rewrite lookup_drop in Hi.
  apply (Hr (Z.of_nat (a' + i))); [lia|]. unfold elt. by rewrite Nat2Z.id.
Qed.
Lemma within_keeps a b l l' i j P : within a b l l' -> 0 <= i -> j <= a \/ b <= i -> reg l i j P -> reg l' i j P.
Proof. intros [_ _ S1] Hi Ho Hr k x Hk Hx. apply (Hr k x Hk). rewrite <- S1; [done|lia|lia]. Qed.
Lemma reg_impl l i j (P Q : A -> Prop) : (forall x, P x -> Q x) -> reg l i j P -> reg l i j Q.
Proof. intros H Hr k x Hk Hx. by apply H, (Hr k). Qed.

(** *** Exchanging elements *)

Definition exch (i j k : Z) : Z := if decide (k = i) then j else if decide (k = j) then i else k.
Lemma swap_elt_ok l i j : inside l i -> inside l j ->
  exists l', swap i j l = Ok ((), l') /\ length l' = length l /\ l' ≡ₚ l /\ forall k, 0 <= k -> elt l' k = elt l (exch i j k).
Proof.
  intros Hi Hj. unfold swap. destruct (get_elt_ok l i Hi) as (x & Hx & Ex), (get_elt_ok l j Hj) as (y & Hy & Ey).
  unfold mbind, st_bind. rewrite Ex, Ey, (set_elt_ok l i y Hi). assert (inside (<[Z.to_nat i := y]> l) j) as Hj' by (unfold inside; by rewrite length_insert).
  rewrite (set_elt_ok _ j x Hj'). eexists. split; [done|]. split; [by rewrite !length_insert|]. split; [by apply Permutation_insert_swap|].
  intros k Hk. rewrite !elt_insert by done. unfold exch. repeat case_decide; congruence.
Qed.
Lemma swap_within l i j a b : a <= i < b -> a <= j < b -> inside l i -> inside l j ->
  exists l', swap i j l = Ok ((), l') /\ within a b l l' /\ forall k, 0 <= k -> elt l' k = elt l (exch i j k).
Proof.
  intros Ha Hb Hi Hj. destruct (swap_elt_ok l i j Hi Hj) as (l' & E & L & P & H). exists l'. split; [done|]. split; [|done]. split; [done|done|].
  intros k Hk Ho. rewrite H by done. unfold exch. repeat case_decide; first [lia|done].
Qed.
Definition shifted (n i j k : Z) : Z := if decide (i <= k < i + n) then k + (j - i) else if decide (j <= k < j + n) then k - (j - i) else k.
Lemma vecswap_ok n : forall l i j a b, a <= i -> i + Z.of_nat n <= j -> j + Z.of_nat n <= b -> 0 <= i -> j + Z.of_nat n <= Z.of_nat (length l) ->
  exists l', vecswap n i j l = Ok ((), l') /\ within a b l l' /\ forall k, 0 <= k -> elt l' k = elt l (shifted (Z.of_nat n) i j k).
Proof.
  induction n as [|n IH]; intros l i j a b Ha Hij Hb Hi Hl.
  - exists l. split; [done|]. split; [apply within_refl|]. intros k Hk. unfold shifted. repeat case_decide; first [lia|done].
  - cbn [vecswap]. destruct (swap_within l i j a b) as (l1 & E1 & W1 & H1); [lia|lia|unfold inside; lia|unfold inside; lia|].
    destruct (IH l1 (i + 1) (j + 1) a b) as (l2 & E2 & W2 & H2); [lia|lia|lia|lia|rewrite (wi_length _ _ _ _ W1); lia|].
    exists l2. unfold mbind, st_bind. rewrite E1, E2. split; [done|]. split; [by apply (within_trans _ _ _ l1)|]. intros k Hk.
    rewrite H2, H1 by (unfold shifted; repeat case_decide; lia). f_equal. unfold shifted, exch. repeat case_decide; lia.
Qed.
Context (cmp : A -> A -> Z).
Lemma compare_ok l i j : inside l i -> inside l j -> exists x y, elt l i = Some x /\ elt l j = Some y /\ compare cmp i j l = Ok (cmp x y, l).
Proof.
  intros Hi Hj. destruct (get_elt_ok l i Hi) as (x & Hx & Ex), (get_elt_ok l j Hj) as (y & Hy & Ey). exists x, y. split; [done|]. split; [done|].
  unfold compare, mbind, st_bind. by rewrite Ex, Ey.
Qed.
End Arrays.

Section Proofs.
Context {A : Type} (cmp : A -> A -> Z).
Implicit Types l : list A.

(** What [qsort] asks of a comparison function. *)
Record consistent : Prop := {
  cmp_opposite : forall x y, Z.sgn (cmp y x) = - Z.sgn (cmp x y);
  cmp_transitive : forall x y z, cmp x y <= 0 -> cmp y z <= 0 -> cmp x z <= 0
}.
Definition sorted_seg l (a b : Z) : Prop :=
  forall i j x y, a <= i -> i < j -> j < b -> elt l i = Some x -> elt l j = Some y -> cmp x y <= 0.
Lemma cmp_swap x y : consistent -> 0 <= cmp x y -> cmp y x <= 0.
Proof. intros C H. pose proof (cmp_opposite C x y). lia. Qed.
Lemma cmp_refl x : consistent -> cmp x x = 0.
Proof. intros C. pose proof (cmp_opposite C x x). lia. Qed.

Ltac into H k := rewrite (H k) in *; [unfold exch in *; repeat case_decide|lia].

(** *** Insertion sort *)

(** All but the element at [pl] are in order, and it is not above those behind it. *)
Definition sinking l (a pl e : Z) : Prop :=
  forall i j x y, a <= i -> i < j -> j < e -> j <> pl -> elt l i = Some x -> elt l j = Some y -> cmp x y <= 0.
Lemma sink_ok fuel : forall l a pl e, 0 <= a <= pl -> pl < e <= Z.of_nat (length l) -> pl - a < Z.of_nat fuel ->
  exists l', sink cmp fuel a pl l = Ok ((), l') /\ within a e l l' /\ (consistent -> sinking l a pl e -> sorted_seg l' a e).
Proof.
  induction fuel as [|fuel IH]; intros l a pl e Ha He Hf; [lia|]. cbn [sink]. destruct (Z.ltb_spec a pl) as [Hlt|Hge].
  - destruct (compare_ok cmp l (pl - 1) pl) as (x & y & Hx & Hy & Ec); [unfold inside; lia..|]. unfold mbind at 1, st_bind at 1. rewrite Ec.
    destruct (Z.ltb_spec 0 (cmp x y)) as [Hc|Hc].
    + destruct (swap_within l pl (pl - 1) a e) as (l1 & E1 & W1 & H1); [lia|lia|unfold inside; lia..|]. unfold mbind at 1, st_bind at 1. rewrite E1.
      destruct (IH l1 a (pl - 1) e) as (l2 & E2 & W2 & H2); [lia|rewrite (wi_length _ _ _ _ W1); lia|lia|]. exists l2. split; [done|].
      split; [by apply (within_trans _ _ _ l1)|]. intros C Hs. apply H2; [done|]. intros i j u v Hi Hij Hj Hne Hu Hv.
      rewrite H1 in Hu, Hv by lia. unfold exch in Hu, Hv. repeat case_decide; try lia.
      all: first [solve [apply (Hs i j u v); first [lia|congruence]] | solve [apply (Hs (pl - 1) j u v); first [lia|congruence]]
                 | solve [apply (Hs pl j u v); first [lia|congruence]] | solve [apply (Hs i (pl - 1) u v); first [lia|congruence]]
                 | assert (u = y) as -> by congruence; assert (v = x) as -> by congruence; apply cmp_swap; [done|lia]].
    + exists l. split; [done|]. split; [apply within_refl|]. intros C Hs i j u v Hi Hij Hj Hu Hv.
      destruct (decide (j = pl)) as [->|Hne]; [|by apply (Hs i j)]. assert (v = y) as -> by congruence.
      destruct (decide (i = pl - 1)) as [->|Hi1]; [by assert (u = x) as -> by congruence|].
      apply (cmp_transitive C u x y); [|done]. apply (Hs i (pl - 1)); try lia; done.
  - exists l. split; [done|]. split; [apply within_refl|]. intros C Hs i j u v Hi Hij Hj Hu Hv. apply (Hs i j); try lia; done.
Qed.
Lemma insert_all_ok rounds : forall l a pm, 0 <= a < pm -> pm + Z.of_nat rounds <= Z.of_nat (length l) ->
  exists l', insert_all cmp rounds a pm l = Ok ((), l') /\ within a (pm + Z.of_nat rounds) l l' /\
    (consistent -> sorted_seg l a pm -> sorted_seg l' a (pm + Z.of_nat rounds)).
Proof.
  induction rounds as [|rounds IH]; intros l a pm Ha Hl.
  - exists l. split; [done|]. split; [apply within_refl|]. intros C. by rewrite Z.add_0_r.
  - cbn [insert_all]. destruct (sink_ok (S (Z.to_nat (pm - a))) l a pm (pm + 1)) as (l1 & E1 & W1 & H1); [lia|lia|lia|]. unfold mbind, st_bind. rewrite E1.
    destruct (IH l1 a (pm + 1)) as (l2 & E2 & W2 & H2); [lia|rewrite (wi_length _ _ _ _ W1); lia|]. rewrite E2. exists l2. split; [done|].
    split; [apply (within_trans _ _ _ l1); [apply (within_mono a (pm + 1)); [done|lia|lia]|apply (within_mono a (pm + 1 + Z.of_nat rounds)); [done|lia|lia]]|].
    intros C Hs. replace (pm + Z.of_nat (S rounds)) with (pm + 1 + Z.of_nat rounds) by lia. apply H2; [done|]. apply H1; [done|].
    intros i j x y Hi Hij Hj Hne. apply Hs; lia.
Qed.

(** *** The pivot *)

Lemma med3_ok l a b c : inside l a -> inside l b -> inside l c -> exists r, med3 cmp a b c l = Ok (r, l) /\ (r = a \/ r = b \/ r = c).
Proof.
  intros Ha Hb Hc. unfold med3. destruct (compare_ok cmp l a b Ha Hb) as (x & y & _ & _ & E1), (compare_ok cmp l b c Hb Hc) as (y' & z & _ & _ & E2),
    (compare_ok cmp l a c Ha Hc) as (x' & z' & _ & _ & E3). unfold mbind, st_bind. rewrite E1, E2. repeat (case_if; cbv beta; rewrite ?E3); unfold mret, st_ret; eauto.
Qed.
Lemma candidates_ok l a n : 0 <= a -> 7 <= n -> a + n <= Z.of_nat (length l) ->
  exists pl pm pn, candidates cmp a n l = Ok (pl, pm, pn, l) /\ a <= pl < a + n /\ a <= pm < a + n /\ a <= pn < a + n.
Proof.
  intros Ha Hn Hl. unfold candidates. assert (0 <= n / 2 < n /\ (40 < n -> 0 <= n / 8 /\ n / 8 <= n / 2 /\ n / 2 + n / 8 < n /\ 2 * (n / 8) < n)) as [H2 H8]
    by (Z.div_mod_to_equations; lia).
  destruct (Z.ltb_spec 40 n) as [H40|]; [|exists a, (a + n / 2), (a + (n - 1)); split; [done|lia]].
  destruct (H8 H40) as (G1 & G2 & G3 & G4).
  destruct (med3_ok l a (a + n / 8) (a + 2 * (n / 8))) as (pl & E1 & H1); [unfold inside; lia..|].
  destruct (med3_ok l (a + n / 2 - n / 8) (a + n / 2) (a + n / 2 + n / 8)) as (pm & E2 & H3); [unfold inside; lia..|].
  destruct (med3_ok l (a + (n - 1) - 2 * (n / 8)) (a + (n - 1) - n / 8) (a + (n - 1))) as (pn & E3 & H4); [unfold inside; lia..|].
  exists pl, pm, pn. unfold mbind, st_bind. rewrite E1, E2, E3. split; [done|lia].
Qed.
Lemma pivot_ok l a n : 0 <= a -> 7 <= n -> a + n <= Z.of_nat (length l) -> exists pm, pivot cmp a n l = Ok (pm, l) /\ a <= pm < a + n.
Proof.
  intros Ha Hn Hl. unfold pivot. assert (0 <= n / 2 < n) by (Z.div_mod_to_equations; lia).
  destruct (Z.ltb_spec 7 n); [|exists (a + n / 2); split; [done|lia]].
  destruct (candidates_ok l a n Ha Hn Hl) as (pl & pm & pn & E & Hpl & Hpm & Hpn). unfold mbind, st_bind. rewrite E.
  destruct (med3_ok l pl pm pn) as (r & Er & Hr); [unfold inside; lia..|]. exists r. split; [exact Er|lia].
Qed.

(** *** The partition *)

Definition Lt (v x : A) : Prop := cmp x v < 0.
Definition Eq (v x : A) : Prop := cmp x v = 0.
Definition Gt (v x : A) : Prop := 0 < cmp x v.
(** The state of the partition: equal, smaller, not looked at, greater, equal. *)
Record parted l0 (a n : Z) (v : A) (pa pb pc pd : Z) l : Prop := {
  pt_within : within (a + 1) (a + n) l0 l;
  pt_bounds : 0 <= a /\ a + 1 <= pa <= pb /\ pb <= pc + 1 /\ pc <= pd < a + n /\ a + n <= Z.of_nat (length l);
  pt_pivot : elt l a = Some v;
  pt_eq1 : reg l (a + 1) pa (Eq v);
  pt_lt : reg l pa pb (Lt v);
  pt_gt : reg l (pc + 1) (pd + 1) (Gt v);
  pt_eq2 : reg l (pd + 1) (a + n) (Eq v)
}.
(** Reading off a property of a part of an array after an exchange. *)
Ltac after_swap H :=
  let k := fresh "k" in let x := fresh "x" in let Hk := fresh "Hk" in let Hx := fresh "Hx" in
  intros k x Hk Hx; rewrite H in Hx by lia; unfold exch in Hx; repeat case_decide; try lia;
  first [ match goal with R : reg _ _ _ ?P |- ?P _ => solve [eapply R; [|exact Hx]; lia] end
        | match type of Hx with elt ?l ?i = _ =>
            match goal with Hy : elt l ?j = Some ?y |- _ => solve [assert (i = j) by lia; assert (x = y) as -> by congruence; done] end end ].
Ltac parts W :=
  split; [ by eapply within_trans | rewrite (wi_length _ _ _ _ W); lia | .. ].

Lemma scan_up_ok fuel : forall l0 l a n v pa pb pc pd, parted l0 a n v pa pb pc pd l -> pc + 1 - pb < Z.of_nat fuel ->
  exists pa' pb' l', scan_up cmp fuel a pa pb pc l = Ok (pa', pb', l') /\ parted l0 a n v pa' pb' pc pd l' /\ pb <= pb' /\ reg l' pb' (Z.min (pb' + 1) (pc + 1)) (Gt v).
Proof.
  induction fuel as [|fuel IH]; intros l0 l a n v pa pb pc pd [W B P R1 R2 R3 R4] Hf; [lia|]. cbn [scan_up]. destruct (Z.leb_spec pb pc) as [Hle|Hgt].
  2: { exists pa, pb, l. split; [done|]. split; [by split|]. split; [lia|]. intros k x Hk. lia. }
  destruct (compare_ok cmp l pb a) as (x & v' & Hx & Hv & Ec); [unfold inside; lia..|]. assert (v' = v) as -> by congruence.
  unfold mbind at 1, st_bind at 1. rewrite Ec. destruct (Z.leb_spec (cmp x v) 0) as [Hc|Hc].
  2: { exists pa, pb, l. split; [done|]. split; [by split|]. split; [lia|]. intros k y Hk Hy. assert (k = pb) as -> by lia. assert (y = x) as -> by congruence. done. }
  assert (exists pa1 l1, (if cmp x v =? 0 then _ ← swap pa pb; scan_up cmp fuel a (pa + 1) (pb + 1) pc else scan_up cmp fuel a pa (pb + 1) pc) l =
      scan_up cmp fuel a pa1 (pb + 1) pc l1 /\ parted l0 a n v pa1 (pb + 1) pc pd l1) as (pa1 & l1 & -> & H1).
  { destruct (Z.eqb_spec (cmp x v) 0) as [He|He].
    - destruct (swap_within l pa pb (a + 1) (a + n)) as (l1 & E1 & W1 & H1); [lia|lia|unfold inside; lia..|]. unfold mbind at 1, st_bind at 1. rewrite E1.
      exists (pa + 1), l1. split; [done|]. parts W1.
      + rewrite H1 by lia. unfold exch. repeat case_decide; first [lia|done].
      + after_swap H1.
      + after_swap H1.
      + after_swap H1.
      + after_swap H1.
    - exists pa, l. split; [done|]. split; try done; [lia|]. intros k y Hk Hy. destruct (decide (k = pb)) as [->|]; [|apply (R2 k y); [lia|done]].
      assert (y = x) as -> by congruence. unfold Lt. lia. }
  destruct (IH _ _ _ _ _ _ _ _ _ H1) as (pa' & pb' & l2 & E2 & Hp & Hle' & Hg); [lia|]. exists pa', pb', l2. split; [done|]. split; [done|]. split; [lia|done].
Qed.
Lemma scan_down_ok fuel : forall l0 l a n v pa pb pc pd, parted l0 a n v pa pb pc pd l -> reg l pb (Z.min (pb + 1) (pc + 1)) (Gt v) -> pc + 1 - pb < Z.of_nat fuel ->
  exists pc' pd' l', scan_down cmp fuel a pb pc pd l = Ok (pc', pd', l') /\ parted l0 a n v pa pb pc' pd' l' /\ pc' <= pc /\
    reg l' pb (Z.min (pb + 1) (pc' + 1)) (Gt v) /\ (pb <= pc' -> reg l' pc' (pc' + 1) (Lt v)).
Proof.
  induction fuel as [|fuel IH]; intros l0 l a n v pa pb pc pd [W B P R1 R2 R3 R4] Rb Hf; [lia|]. cbn [scan_down]. destruct (Z.leb_spec pb pc) as [Hle|Hgt].
  2: { exists pc, pd, l. split; [done|]. split; [by split|]. split; [lia|]. split; [done|lia]. }
  destruct (compare_ok cmp l pc a) as (x & v' & Hx & Hv & Ec); [unfold inside; lia..|]. assert (v' = v) as -> by congruence.
  unfold mbind at 1, st_bind at 1. rewrite Ec. destruct (Z.leb_spec 0 (cmp x v)) as [Hc|Hc].
  2: { exists pc, pd, l. split; [done|]. split; [by split|]. split; [lia|]. split; [done|]. intros _ k y Hk Hy. assert (k = pc) as -> by lia. assert (y = x) as -> by congruence. done. }
  assert (exists pd1 l1, (if cmp x v =? 0 then _ ← swap pc pd; scan_down cmp fuel a pb (pc - 1) (pd - 1) else scan_down cmp fuel a pb (pc - 1) pd) l =
      scan_down cmp fuel a pb (pc - 1) pd1 l1 /\ parted l0 a n v pa pb (pc - 1) pd1 l1 /\ reg l1 pb (Z.min (pb + 1) (pc - 1 + 1)) (Gt v)) as (pd1 & l1 & -> & H1 & Rb1).
  { destruct (Z.eqb_spec (cmp x v) 0) as [He|He].
    - destruct (swap_within l pc pd (a + 1) (a + n)) as (l1 & E1 & W1 & H1); [lia|lia|unfold inside; lia..|]. unfold mbind at 1, st_bind at 1. rewrite E1.
      exists (pd - 1), l1. split; [done|]. split; [parts W1|].
      + rewrite H1 by lia. unfold exch. repeat case_decide; first [lia|done].
      + after_swap H1.
      + after_swap H1.
      + replace (pc - 1 + 1) with pc by lia. replace (pd - 1 + 1) with pd by lia. after_swap H1.
      + replace (pd - 1 + 1) with pd by lia. after_swap H1.
      + after_swap H1.
    - exists pd, l. split; [done|]. split; [split; try done; [lia|]|].
      + intros k y Hk Hy. destruct (decide (k = pc)) as [->|]; [|apply (R3 k y); [lia|done]]. assert (y = x) as -> by congruence. unfold Gt. lia.
      + intros k y Hk. apply Rb. lia. }
  destruct (IH _ _ _ _ _ _ _ _ _ H1 Rb1) as (pc' & pd' & l2 & E2 & Hp & Hle' & Hg & Hl); [lia|]. exists pc', pd', l2. split_and!; try done. lia.
Qed.
Lemma partition_ok fuel : forall l0 l a n v pa pb pc pd, parted l0 a n v pa pb pc pd l -> pc + 1 - pb < Z.of_nat fuel ->
  exists pa' pb' pc' pd' l', partition cmp fuel a n pa pb pc pd l = Ok (pa', pb', pc', pd', l') /\ parted l0 a n v pa' pb' pc' pd' l' /\ pb' = pc' + 1.
Proof.
  induction fuel as [|fuel IH]; intros l0 l a n v pa pb pc pd H Hf; pose proof (pt_bounds _ _ _ _ _ _ _ _ _ H) as B; [lia|]. cbn [partition].
  destruct (scan_up_ok (S (Z.to_nat n)) _ _ _ _ _ _ _ _ _ H) as (pa1 & pb1 & l1 & E1 & H1 & Hb1 & Hg1); [lia|]. unfold mbind at 1, st_bind at 1. rewrite E1.
  pose proof (pt_bounds _ _ _ _ _ _ _ _ _ H1) as B1.
  destruct (scan_down_ok (S (Z.to_nat n)) _ _ _ _ _ _ _ _ _ H1 Hg1) as (pc1 & pd1 & l2 & E2 & H2 & Hc2 & Hg2 & Hl2); [lia|]. unfold mbind at 1, st_bind at 1. rewrite E2.
  destruct (Z.ltb_spec pc1 pb1) as [Hlt|Hge].
  { exists pa1, pb1, pc1, pd1, l2. split; [done|]. split; [done|]. pose proof (pt_bounds _ _ _ _ _ _ _ _ _ H2). lia. }
  destruct H2 as [W B2 P R1 R2 R3 R4]. specialize (Hl2 Hge).
  assert (pb1 < pc1) as Hne.
  { destruct (decide (pb1 = pc1)) as [->|]; [|lia]. destruct (elt_some l2 pc1) as [x Hx]; [unfold inside; lia|].
    pose proof (Hg2 pc1 x ltac:(lia) Hx). pose proof (Hl2 pc1 x ltac:(lia) Hx). unfold Lt, Gt in *. lia. }
  destruct (swap_within l2 pb1 pc1 (a + 1) (a + n)) as (l3 & E3 & W3 & H3); [lia|lia|unfold inside; lia..|]. unfold mbind at 1, st_bind at 1. rewrite E3.
  apply (IH l0 l3 a n v); [|lia]. parts W3.
  - rewrite H3 by lia. unfold exch. repeat case_decide; first [lia|done].
  - after_swap H3.
  - after_swap H3.
  - replace (pc1 - 1 + 1) with pc1 by lia. after_swap H3.
  - after_swap H3.
Qed.

(** *** Heaps

    Element [i] of a heap of [m] elements is at [base + i]. *)

Section Heap.
Context (base m : Z).
Definition fits l : Prop := -1 <= base /\ base + m < Z.of_nat (length l).
Definition le_at l (i j : Z) : Prop := forall x y, elt l (base + i) = Some x -> elt l (base + j) = Some y -> cmp x y <= 0.
(** The elements below [s] and their children are in order. *)
Definition heap_from l (s : Z) : Prop := forall j, 2 <= j <= m -> s <= j / 2 -> le_at l j (j / 2).

Lemma half_child p c : c = p * 2 \/ c = p * 2 + 1 -> c / 2 = p.
Proof. intros H. Z.div_mod_to_equations. lia. Qed.
Lemma half_inv j p : j / 2 = p -> j = p * 2 \/ j = p * 2 + 1.
Proof. intros H. Z.div_mod_to_equations. lia. Qed.
Lemma half_le j : 2 <= j -> 1 <= j / 2 < j.
Proof. intros H. Z.div_mod_to_equations. lia. Qed.
Lemma le_at_same l l' i j : elt l' (base + i) = elt l (base + i) -> elt l' (base + j) = elt l (base + j) -> le_at l i j -> le_at l' i j.
Proof. unfold le_at. by intros -> ->. Qed.
Lemma le_at_trans l i j k : consistent -> inside l (base + j) -> le_at l i j -> le_at l j k -> le_at l i k.
Proof. intros C Hj H1 H2 x z Hx Hz. destruct (elt_some l _ Hj) as [y Hy]. by apply (cmp_transitive C x y z); [apply H1|apply H2]. Qed.
Lemma le_at_refl l i : consistent -> le_at l i i.
Proof. intros C x y Hx Hy. assert (y = x) as -> by congruence. pose proof (cmp_refl x C). lia. Qed.

(** The larger child. *)
Lemma larger_child l p : fits l -> 1 <= p -> p * 2 <= m ->
  exists c, (if p * 2 <? m then r ← compare cmp (base + p * 2) (base + p * 2 + 1); mret (if r <? 0 then p * 2 + 1 else p * 2) else mret (p * 2)) l = Ok (c, l) /\
    (c = p * 2 \/ c = p * 2 + 1) /\ c <= m /\ (consistent -> forall j, j / 2 = p -> j <= m -> le_at l j c).
Proof.
  intros [Hb Hl] Hp Hm. destruct (Z.ltb_spec (p * 2) m) as [Hlt|Hge].
  - destruct (compare_ok cmp l (base + p * 2) (base + p * 2 + 1)) as (x & y & Hx & Hy & E); [unfold inside; lia..|]. unfold mbind, st_bind. rewrite E.
    destruct (Z.ltb_spec (cmp x y) 0) as [Hc|Hc]; eexists; (split; [done|]); (split; [tauto|]); (split; [lia|]); intros C j Hj Hjm;
      apply half_inv in Hj as [->| ->]; try by apply le_at_refl.
    + intros u v Hu Hv. rewrite Z.add_assoc in Hv. assert (u = x) as -> by congruence. assert (v = y) as -> by congruence. lia.
    + intros u v Hu Hv. rewrite Z.add_assoc in Hu. assert (u = y) as -> by congruence. assert (v = x) as -> by congruence. by apply cmp_swap.
  - exists (p * 2). split; [done|]. split; [tauto|]. split; [lia|]. intros C j Hj Hjm. apply half_inv in Hj as [->| ->]; [by apply le_at_refl|lia].
Qed.

(** In order but for element [p], whose children are below its parent. *)
Definition sifting l (s p : Z) : Prop :=
  (forall j, 2 <= j <= m -> s <= j / 2 -> j / 2 <> p -> le_at l j (j / 2)) /\
  (forall j, 2 <= j <= m -> j / 2 = p -> s <= p / 2 -> 2 <= p -> le_at l j (p / 2)).
Lemma CREATE_ok fuel : forall l s p, fits l -> 1 <= p <= m -> 1 <= s <= p -> m - p < Z.of_nat fuel ->
  exists l', CREATE cmp fuel base p m l = Ok ((), l') /\ within (base + 1) (base + m + 1) l l' /\ (consistent -> sifting l s p -> heap_from l' s).
Proof.
  induction fuel as [|fuel IH]; intros l s p Hfit Hp Hs Hf; [lia|]. cbn [CREATE]. destruct (Z.leb_spec (p * 2) m) as [Hle|Hgt].
  2: { exists l. split; [done|]. split; [apply within_refl|]. intros C [H1 _] j Hj Hsj. apply H1; [done|done|]. intros E. apply half_inv in E. lia. }
  destruct (larger_child l p Hfit ltac:(lia) Hle) as (c & Ec & Hc & Hcm & Hlarge). pose proof (half_child p c Hc) as Hcp. destruct Hfit as [Hb Hl].
  unfold mbind at 1, st_bind at 1. rewrite Ec.
  destruct (compare_ok cmp l (base + c) (base + p)) as (x & y & Hx & Hy & Er); [unfold inside; lia..|]. unfold mbind at 1, st_bind at 1. rewrite Er.
  destruct (Z.leb_spec (cmp x y) 0) as [Hr|Hr].
  { exists l. split; [done|]. split; [apply within_refl|]. intros C [H1 _] j Hj Hsj. destruct (decide (j / 2 = p)) as [E|E]; [|by apply H1]. rewrite E.
    apply (le_at_trans l j c p C); [unfold inside; lia|apply Hlarge; [done|done|lia]|]. intros u v Hu Hv. congruence. }
  destruct (swap_within l (base + p) (base + c) (base + 1) (base + m + 1)) as (l1 & E1 & W1 & S1); [lia|lia|unfold inside; lia..|].
  unfold mbind at 1, st_bind at 1. rewrite E1.
  destruct (IH l1 s c) as (l2 & E2 & W2 & H2); [split; [done|rewrite (wi_length _ _ _ _ W1); lia]|lia|lia|lia|]. exists l2. split; [done|].
  split; [by apply (within_trans _ _ _ l1)|]. intros C [G1 G2]. apply H2; [done|].
  assert (forall k, 1 <= k -> k <> p -> k <> c -> elt l1 (base + k) = elt l (base + k)) as So by (intros k Hk Hkp Hkc; rewrite S1 by lia; unfold exch; repeat case_decide; try lia; done).
  assert (elt l1 (base + p) = elt l (base + c)) as Sp by (rewrite S1 by lia; unfold exch; repeat case_decide; try lia; done).
  assert (elt l1 (base + c) = elt l (base + p)) as Sc by (rewrite S1 by lia; unfold exch; repeat case_decide; try lia; done).
  split.
  - intros j Hj Hsj Hjc. pose proof (half_le j ltac:(lia)). destruct (decide (j / 2 = p)) as [Ejp|Ejp].
    + rewrite Ejp. destruct (decide (j = c)) as [->|Hne].
      * intros u v Hu Hv. rewrite Sc in Hu. rewrite Sp in Hv. assert (u = y) as -> by congruence. assert (v = x) as -> by congruence. apply cmp_swap; [done|lia].
      * intros u v Hu Hv. rewrite So in Hu by lia. rewrite Sp in Hv. by apply (Hlarge C j Ejp ltac:(lia)).
    + assert (j <> c) by congruence. destruct (decide (j = p)) as [->|Hne].
      * intros u v Hu Hv. rewrite Sp in Hu. rewrite So in Hv by lia. by apply (G2 c ltac:(lia) Hcp Hsj ltac:(lia)).
      * apply (le_at_same l); [apply So; lia|apply So; lia|]. by apply G1.
  - intros j Hj Hjc Hsp _. rewrite Hcp. intros u v Hu Hv. assert (j <> p /\ j <> c) as [? ?] by (pose proof (half_le j ltac:(lia)); lia).
    rewrite So in Hu by lia. rewrite Sp in Hv. apply (G1 j Hj ltac:(lia) ltac:(lia)); [done|]. by rewrite Hjc.
Qed.

(** The place [p] is free; the others are in order, and the children of the free
    place are below its parent. *)
Definition hole l (p : Z) : Prop :=
  (forall j, 2 <= j <= m -> j <> p -> j / 2 <> p -> le_at l j (j / 2)) /\
  (forall j, 2 <= j <= m -> j / 2 = p -> 2 <= p -> le_at l j (p / 2)).
Definition fill l (p : Z) (k : A) : list A := <[Z.to_nat (base + p) := k]> l.
Lemma fill_elt l p q k : fits l -> 1 <= p <= m -> 1 <= q -> elt (fill l p k) (base + q) = if decide (q = p) then Some k else elt l (base + q).
Proof. intros [Hb Hl] Hp Hq. unfold fill. rewrite elt_insert by (unfold inside; lia). repeat case_decide; first [lia|done]. Qed.
Lemma fill_fits l p k : fits l -> fits (fill l p k).
Proof. unfold fits, fill. by rewrite length_insert. Qed.
(** Moving element [q] to the free place [p] and [k] to [q] instead. *)
Lemma fill_move l p q k x : fits l -> 1 <= p <= m -> 1 <= q <= m -> p <> q -> elt l (base + q) = Some x ->
  within (base + 1) (base + m + 1) (fill l p k) (fill (fill l p x) q k).
Proof.
  intros [Hb Hl] Hp Hq Hne Hx. unfold fill. split; [by rewrite !length_insert| |].
  - rewrite <- (list_insert_insert_eq l (Z.to_nat (base + p)) x k) at 1. apply Permutation_insert_swap; [apply list_lookup_insert_eq; lia|].
    rewrite list_lookup_insert_ne by lia. exact Hx.
  - intros i Hi Ho. rewrite !elt_insert by (unfold inside; rewrite ?length_insert; lia). repeat case_decide; first [lia|done].
Qed.
Lemma select_down_ok fuel : forall l p k, fits l -> 1 <= p <= m -> m - p < Z.of_nat fuel ->
  exists i l', select_down cmp fuel base p m l = Ok (i, l') /\ fits l' /\ 1 <= i <= m /\ m < i * 2 /\ within (base + 1) (base + m + 1) (fill l p k) (fill l' i k) /\
    (consistent -> hole l p -> hole l' i).
Proof.
  induction fuel as [|fuel IH]; intros l p k Hfit Hp Hf; [lia|]. cbn [select_down]. destruct (Z.leb_spec (p * 2) m) as [Hle|Hgt].
  2: { exists p, l. split_and!; first [done|lia|apply within_refl]. }
  destruct (larger_child l p Hfit ltac:(lia) Hle) as (c & Ec & Hc & Hcm & Hlarge). pose proof (half_child p c Hc) as Hcp. pose proof Hfit as [Hb Hl].
  unfold mbind at 1, st_bind at 1. rewrite Ec. destruct (get_elt_ok l (base + c)) as (x & Hx & Ex); [unfold inside; lia|]. unfold mbind at 1, st_bind at 1. rewrite Ex.
  unfold mbind at 1, st_bind at 1. rewrite set_elt_ok by (unfold inside; lia). fold (fill l p x).
  destruct (IH (fill l p x) c k) as (i & l' & E & F & Hi & Hm & W & H); [by apply fill_fits|lia|lia|]. exists i, l'. split_and!; try done; try lia.
  { apply (within_trans _ _ _ (fill (fill l p x) c k)); [|done]. apply fill_move; try done; lia. }
  intros C [G1 G2]. apply H; [done|].
  assert (elt (fill l p x) (base + p) = Some x) as Sp by (rewrite fill_elt by (done || lia); by case_decide).
  assert (forall q, 1 <= q -> q <> p -> elt (fill l p x) (base + q) = elt l (base + q)) as So by (intros q Hq Hne; rewrite fill_elt by (done || lia); by case_decide).
  split.
  - intros j Hj Hjc Hjc2. pose proof (half_le j ltac:(lia)). destruct (decide (j = p)) as [->|Hne].
    + intros u v Hu Hv. rewrite Sp in Hu. rewrite So in Hv by lia. injection Hu as <-. by apply (G2 c ltac:(lia) Hcp ltac:(lia)).
    + destruct (decide (j / 2 = p)) as [Ejp|Ejp].
      * rewrite Ejp. intros u v Hu Hv. rewrite So in Hu by lia. rewrite Sp in Hv. injection Hv as <-. by apply (Hlarge C j Ejp ltac:(lia)).
      * apply (le_at_same l); [apply So; lia|apply So; lia|]. by apply G1.
  - intros j Hj Hjc Hc2. pose proof (half_le j ltac:(lia)). rewrite Hcp. intros u v Hu Hv. rewrite So in Hu by lia. rewrite Sp in Hv. injection Hv as <-.
    apply (G1 j Hj ltac:(lia) ltac:(lia)); [done|]. by rewrite Hjc.
Qed.
Lemma select_up_ok fuel : forall l i k, fits l -> 1 <= i <= m -> i < Z.of_nat fuel ->
  exists l', select_up cmp fuel base i k l = Ok ((), l') /\ within (base + 1) (base + m + 1) (fill l i k) l' /\
    (consistent -> hole l i -> (forall j y, 2 <= j <= m -> j / 2 = i -> elt l (base + j) = Some y -> cmp y k <= 0) -> heap_from l' 1).
Proof.
  induction fuel as [|fuel IH]; intros l i k Hfit Hi Hf; [lia|]. cbn [select_up]. pose proof Hfit as [Hb Hl].
  assert (set_elt (base + i) k l = Ok ((), fill l i k)) as Eset by (apply set_elt_ok; unfold inside; lia).
  assert (forall x, elt (fill l i x) (base + i) = Some x) as Si by (intros x; rewrite fill_elt by (done || lia); by case_decide).
  assert (forall x q, 1 <= q -> q <> i -> elt (fill l i x) (base + q) = elt l (base + q)) as So by (intros x q Hq Hne; rewrite fill_elt by (done || lia); by case_decide).
  destruct (Z.eqb_spec i 1) as [->|Hi1].
  { unfold mbind at 1, st_bind at 1. cbn [mret st_ret]. eexists. split; [exact Eset|]. split; [apply within_refl|]. intros C [G1 G2] Hk j Hj _.
    pose proof (half_le j ltac:(lia)). destruct (decide (j / 2 = 1)) as [Ej|Ej].
    - rewrite Ej. intros u v Hu Hv. rewrite So in Hu by lia. rewrite Si in Hv. injection Hv as <-. by apply (Hk j).
    - apply (le_at_same l); [apply So; lia|apply So; lia|]. apply G1; lia. }
  pose proof (half_le i ltac:(lia)) as Hh. destruct (get_elt_ok l (base + i / 2)) as (x & Hx & Ex); [unfold inside; lia|].
  unfold mbind at 1, st_bind at 1. unfold mbind at 1, st_bind at 1. rewrite Ex. cbn [mret st_ret]. destruct (Z.ltb_spec (cmp k x) 0) as [Hc|Hc].
  { eexists. split; [exact Eset|]. split; [apply within_refl|]. intros C [G1 G2] Hk j Hj _. pose proof (half_le j ltac:(lia)). destruct (decide (j = i)) as [->|Hne].
    - intros u v Hu Hv. rewrite Si in Hu. rewrite So in Hv by lia. injection Hu as <-. assert (v = x) as -> by congruence. lia.
    - destruct (decide (j / 2 = i)) as [Ej|Ej].
      + rewrite Ej. intros u v Hu Hv. rewrite So in Hu by lia. rewrite Si in Hv. injection Hv as <-. by apply (Hk j).
      + apply (le_at_same l); [apply So; lia|apply So; lia|]. apply G1; lia. }
  unfold mbind at 1, st_bind at 1. rewrite Ex. unfold mbind at 1, st_bind at 1. rewrite set_elt_ok by (unfold inside; lia). fold (fill l i x).
  destruct (IH (fill l i x) (i / 2) k) as (l' & E & W & H); [by apply fill_fits|lia|lia|]. exists l'. split; [done|].
  split; [apply (within_trans _ _ _ (fill (fill l i x) (i / 2) k)); [apply fill_move; try done; lia|done]|].
  intros C [G1 G2] Hk. assert (forall j, 2 <= j <= m -> j <> i -> j / 2 = i / 2 -> le_at l j (i / 2)) as Hsib.
  { intros j Hj Hne E2. rewrite <- E2. apply G1; lia. }
  apply H; [done|split|].
  - intros j Hj Hj1 Hj2. pose proof (half_le j ltac:(lia)). assert (j <> i) by congruence. destruct (decide (j / 2 = i)) as [Ej|Ej].
    + rewrite Ej. intros u v Hu Hv. rewrite So in Hu by lia. rewrite Si in Hv. injection Hv as <-. by apply (G2 j Hj Ej ltac:(lia)).
    + apply (le_at_same l); [apply So; lia|apply So; lia|]. apply G1; lia.
  - intros j Hj Ej Hp2. pose proof (half_le (i / 2) Hp2). assert (le_at l (i / 2) (i / 2 / 2)) as Hup by (apply G1; lia).
    destruct (decide (j = i)) as [->|Hne]; intros u v Hu Hv; rewrite So in Hv by lia.
    + rewrite Si in Hu. injection Hu as <-. by apply Hup.
    + rewrite So in Hu by lia. by apply (le_at_trans l j (i / 2) (i / 2 / 2) C ltac:(unfold inside; lia) (Hsib j Hj Hne Ej) Hup).
  - intros j y Hj Ej Hy. destruct (decide (j = i)) as [->|Hne].
    + rewrite Si in Hy. injection Hy as <-. by apply cmp_swap.
    + rewrite So in Hy by lia. apply (cmp_transitive C y x k); [by apply (Hsib j Hj Hne Ej)|by apply cmp_swap].
Qed.
Lemma create_all_ok n : forall l, fits l -> Z.of_nat n <= m ->
  exists l', create_all cmp n base m l = Ok ((), l') /\ within (base + 1) (base + m + 1) l l' /\ (consistent -> heap_from l (Z.of_nat n + 1) -> heap_from l' 1).
Proof.
  induction n as [|n IH]; intros l Hfit Hn; [exists l; split; [done|]; split; [apply within_refl|done]|]. cbn [create_all].
  destruct (CREATE_ok (S (Z.to_nat m)) l (Z.of_nat (S n)) (Z.of_nat (S n))) as (l1 & E1 & W1 & H1); [done|lia|lia|lia|]. unfold mbind, st_bind. rewrite E1.
  destruct (IH l1) as (l2 & E2 & W2 & H2); [destruct Hfit; split; [done|]; by rewrite (wi_length _ _ _ _ W1)|lia|]. rewrite E2. exists l2. split; [done|].
  split; [by apply (within_trans _ _ _ l1)|]. intros C Hh. apply H2; [done|]. replace (Z.of_nat n + 1) with (Z.of_nat (S n)) by lia. apply H1; [done|]. split.
  - intros j Hj Hs Hne. apply Hh; [done|lia].
  - intros j Hj _ Hs Hp. pose proof (half_le (Z.of_nat (S n)) Hp). lia.
Qed.
Lemma SELECT_ok l k : fits l -> 1 <= m ->
  exists l', SELECT cmp base m k l = Ok ((), l') /\ within (base + 1) (base + m + 1) (fill l 1 k) l' /\ (consistent -> hole l 1 -> heap_from l' 1).
Proof.
  intros Hfit Hm. unfold SELECT. destruct (select_down_ok (S (Z.to_nat m)) l 1 k Hfit) as (i & l1 & E1 & F1 & Hi & Hi2 & W1 & H1); [lia|lia|].
  unfold mbind, st_bind. rewrite E1. destruct (select_up_ok (S (Z.to_nat i)) l1 i k F1) as (l2 & E2 & W2 & H2); [lia|lia|]. exists l2. split; [done|].
  split; [by apply (within_trans _ _ _ (fill l1 i k))|]. intros C Hh. apply H2; [done|by apply H1|]. intros j y Hj Ej _. apply half_inv in Ej. lia.
Qed.
Lemma heap_max l i : consistent -> fits l -> heap_from l 1 -> 1 <= i <= m -> le_at l i 1.
Proof.
  intros C [Hb Hl] Hh. revert i. apply (well_founded_induction (Z.lt_wf 0) (fun i => 1 <= i <= m -> le_at l i 1)). intros i IH Hi.
  destruct (decide (i = 1)) as [->|]; [by apply le_at_refl|]. pose proof (half_le i ltac:(lia)).
  apply (le_at_trans l i (i / 2) 1 C); [unfold inside; lia|apply Hh; lia|apply IH; lia].
Qed.
End Heap.

(** A heap in front, and behind it larger elements in order. *)
Record selecting (base N : Z) l (m : Z) : Prop := {
  se_heap : heap_from base m l 1;
  se_below : forall j y, m < j <= N -> elt l (base + j) = Some y -> reg l (base + 1) (base + m + 1) (fun x => cmp x y <= 0);
  se_sorted : sorted_seg l (base + m + 1) (base + N + 1)
}.
Lemma select_all_ok base N rounds : forall l m, fits base N l -> m = Z.of_nat rounds + 1 -> m <= N ->
  exists l', select_all cmp rounds base m l = Ok ((), l') /\ within (base + 1) (base + m + 1) l l' /\ (consistent -> selecting base N l m -> selecting base N l' 1).
Proof.
  induction rounds as [|rounds IH]; intros l m Hfit Hm HN; cbn [select_all].
  { assert (m = 1) as -> by lia. exists l. split; [done|]. split; [apply within_refl|done]. }
  destruct Hfit as [Hb Hl]. destruct (get_elt_ok l (base + m)) as (k & Hk & Ek); [unfold inside; lia|]. destruct (get_elt_ok l (base + 1)) as (x & Hx & Ex); [unfold inside; lia|].
  unfold mbind at 1, st_bind at 1. rewrite Ek. unfold mbind at 1, st_bind at 1. rewrite Ex. unfold mbind at 1, st_bind at 1. rewrite set_elt_ok by (unfold inside; lia).
  set (l1 := <[Z.to_nat (base + m) := x]> l). assert (length l1 = length l) as Ll1 by apply length_insert.
  destruct (SELECT_ok base (m - 1) l1 k) as (l2 & E2 & W2 & H2); [split; lia|lia|]. unfold mbind at 1, st_bind at 1. rewrite E2.
  set (f := fill base l1 1 k) in *. assert (length f = length l) as Lf by (unfold f, fill; by rewrite length_insert).
  assert (length l2 = length l) as Ll2 by (by rewrite (wi_length _ _ _ _ W2)).
  destruct (IH l2 (m - 1)) as (l3 & E3 & W3 & H3); [split; lia|lia|lia|]. rewrite E3. exists l3. split; [done|].
  assert (forall i, 1 <= i -> elt f (base + i) = if decide (i = 1) then Some k else if decide (i = m) then Some x else elt l (base + i)) as Sf.
  { intros i Hi. unfold f. rewrite (fill_elt base m) by (first [split; lia|lia]). unfold l1. rewrite elt_insert by (unfold inside; lia). repeat case_decide; first [lia|done]. }
  assert (within (base + 1) (base + m + 1) l f) as W1.
  { split; [done| |].
    - unfold f, l1, fill. apply Permutation_insert_swap; done.
    - intros i Hi Ho. replace i with (base + (i - base)) by lia. destruct (decide (1 <= i - base)); [rewrite Sf by lia; repeat case_decide; first [lia|done]|].
      unfold f, l1, fill. rewrite !elt_insert by (unfold inside; rewrite ?length_insert; lia). repeat case_decide; first [lia|done]. }
  split.
  { apply (within_trans _ _ _ f); [done|]. apply (within_trans _ _ _ l2); [eapply within_mono; [exact W2|lia|lia]|eapply within_mono; [exact W3|lia|lia]]. }
  intros C [S1 S2 S3]. apply H3; [done|].
  assert (forall Q, reg l (base + 1) (base + m + 1) Q -> reg l2 (base + 1) (base + (m - 1) + 1) Q) as Hreg.
  { intros Q HQ. apply (within_reg _ _ f); [done|lia|lia|]. apply (within_reg _ _ _ _ _ W1) in HQ; [|lia|lia]. intros i y Hi. apply HQ. lia. }
  assert (elt l2 (base + m) = Some x) as Hm2 by (rewrite (wi_same _ _ _ _ W2), Sf by lia; repeat case_decide; first [lia|done]).
  assert (forall i, base + m < i -> elt l2 i = elt l i) as Hout by (intros i Hi; rewrite (wi_same _ _ _ _ W2), (wi_same _ _ _ _ W1) by lia; done).
  split.
  - apply H2; [done|]. split; [|lia]. intros j Hj _ Hj2. pose proof (half_le j ltac:(lia)). apply (le_at_same base l); [| |apply S1; lia];
      unfold l1; rewrite elt_insert by (unfold inside; lia); case_decide; first [lia|done].
  - intros j y Hj Hy. apply Hreg. destruct (decide (j = m)) as [->|Hne].
    + assert (y = x) as -> by congruence. intros i u Hi Hu. replace i with (base + (i - base)) in Hu by lia.
      by apply (heap_max base m l (i - base) C ltac:(split; lia) S1 ltac:(lia)).
    + rewrite Hout in Hy by lia. apply (S2 j); [lia|done].
  - intros i j u v Hi Hij Hj Hu Hv. rewrite (Hout j) in Hv by lia. destruct (decide (i = base + m)) as [->|Hne].
    + assert (u = x) as -> by congruence. apply (S2 (j - base) v ltac:(lia)) with (k := base + 1); [by replace (base + (j - base)) with j by lia|lia|done].
    + rewrite Hout in Hu by lia. apply (S3 i j); try done; lia.
Qed.
Lemma heapsort_ok ok l a n : 0 <= a -> a + n <= Z.of_nat (length l) ->
  exists r l', heapsort cmp ok a n l = Ok (r, l') /\ within a (a + n) l l' /\ (r = 0 <-> n <= 1 \/ ok = true) /\ (r = 0 -> consistent -> sorted_seg l' a (a + n)).
Proof.
  intros Ha Hl. unfold heapsort. destruct (Z.leb_spec n 1) as [Hn|Hn].
  { exists 0, l. split; [done|]. split; [apply within_refl|]. split; [split; [tauto|done]|]. intros _ _ i j x y. lia. }
  destruct ok; cbn [negb]; [|exists (-1), l; split; [done|]; split; [apply within_refl|]; split; [split; [done|lia || (intros [?|?]; [lia|done])]|done]].
  set (base := a - 1). assert (fits base n l) as Hfit by (split; unfold base; lia).
  assert (0 <= n / 2 <= n /\ (forall j, n / 2 + 1 <= j / 2 -> n < j)) as [Hh Hh2] by (split; [|intros j Hj]; Z.div_mod_to_equations; lia).
  destruct (create_all_ok base n (Z.to_nat (n / 2)) l Hfit) as (l1 & E1 & W1 & H1); [lia|]. unfold mbind, st_bind. rewrite E1.
  destruct (select_all_ok base n (Z.to_nat (n - 1)) l1 n) as (l2 & E2 & W2 & H2); [destruct Hfit; split; [done|]; by rewrite (wi_length _ _ _ _ W1)|lia|lia|]. rewrite E2.
  exists 0, l2. replace (base + 1) with a in * by (unfold base; lia). replace (base + n + 1) with (a + n) in * by (unfold base; lia). split; [done|].
  split; [by apply (within_trans _ _ _ l1)|]. split; [tauto|]. intros _ C. destruct H2 as [_ S2 S3]; [done| |].
  - split; [|intros; lia|intros i j; lia]. apply H1; [done|]. intros j Hj Hs. specialize (Hh2 j). lia.
  - intros i j x y Hi Hij Hj Hx Hy. destruct (decide (i = a)) as [->|]; [|apply (S3 i j); try done; unfold base; lia].
    apply (S2 (j - base) y) with (k := a); [unfold base; lia|by replace (base + (j - base)) with j by lia|unfold base; lia|done].
Qed.

(** *** The introsort *)

Definition Eqv (v x : A) : Prop := cmp x v = 0 \/ x = v.
(** Smaller, equal and greater elements, in this order. *)
Record tri (v : A) (a b c d : Z) l : Prop := {
  tr_bounds : 0 <= a <= b /\ b <= c <= d /\ d <= Z.of_nat (length l);
  tr_lt : reg l a b (Lt v);
  tr_eq : reg l b c (Eqv v);
  tr_gt : reg l c d (Gt v)
}.
Ltac after_shift Hy :=
  rewrite ?Z2Nat.id in Hy by lia; unfold shifted in Hy; repeat case_decide; try lia;
  match goal with R : reg _ _ _ ?P |- ?P _ => solve [eapply R; [|exact Hy]; lia] end.
Lemma gather_ok l0 a n v pa pb pc pd l : parted l0 a n v pa pb pc pd l -> pb = pc + 1 ->
  exists l1 l2, vecswap (Z.to_nat (Z.min (pa - a) (pb - pa))) a (pb - Z.min (pa - a) (pb - pa)) l = Ok ((), l1) /\
    vecswap (Z.to_nat (Z.min (pd - pc) (a + n - pd - 1))) pb (a + n - Z.min (pd - pc) (a + n - pd - 1)) l1 = Ok ((), l2) /\
    within a (a + n) l l2 /\ tri v a (a + (pb - pa)) (a + n - (pd - pc)) (a + n) l2.
Proof.
  intros [W B P R1 R2 R3 R4] Hpb. set (r := Z.min (pa - a) (pb - pa)). set (s := Z.min (pd - pc) (a + n - pd - 1)).
  assert (reg l a pa (Eqv v)) as R0.
  { intros k x Hk Hx. destruct (decide (k = a)) as [->|]; [right; congruence|left]. apply (R1 k); [lia|done]. }
  assert (reg l (pd + 1) (a + n) (Eqv v)) as R4' by (intros k x Hk Hx; left; by apply (R4 k)).
  destruct (vecswap_ok (Z.to_nat r) l a (pb - r) a (a + n)) as (l1 & E1 & W1 & H1); [lia..|].
  assert (reg l1 a (a + (pb - pa)) (Lt v)) as Q1 by (intros k x Hk Hx; rewrite H1 in Hx by lia; after_shift Hx).
  assert (reg l1 (a + (pb - pa)) pb (Eqv v)) as Q2 by (intros k x Hk Hx; rewrite H1 in Hx by lia; after_shift Hx).
  assert (reg l1 pb (pd + 1) (Gt v)) as Q3 by (intros k x Hk Hx; rewrite H1 in Hx by lia; after_shift Hx).
  assert (reg l1 (pd + 1) (a + n) (Eqv v)) as Q4 by (intros k x Hk Hx; rewrite H1 in Hx by lia; after_shift Hx).
  pose proof (wi_length _ _ _ _ W1) as L1.
  destruct (vecswap_ok (Z.to_nat s) l1 pb (a + n - s) a (a + n)) as (l2 & E2 & W2 & H2); [lia..|].
  exists l1, l2. split; [done|]. split; [done|]. split; [by apply (within_trans _ _ _ l1)|]. split; [rewrite (wi_length _ _ _ _ W2); lia|..].
  - intros k x Hk Hx. rewrite H2 in Hx by lia. after_shift Hx.
  - intros k x Hk Hx. rewrite H2 in Hx by lia. destruct (decide (k < pb)); after_shift Hx.
  - intros k x Hk Hx. rewrite H2 in Hx by lia. after_shift Hx.
Qed.
Lemma tri_within v a b c d p q l l' : tri v a b c d l -> within p q l l' -> (p = a /\ q = b) \/ (p = c /\ q = d) -> tri v a b c d l'.
Proof.
  intros [B R1 R2 R3] W H. split; [rewrite (wi_length _ _ _ _ W); lia|..]; destruct H as [[-> ->]|[-> ->]].
  all: first [apply (within_reg _ _ _ _ _ W); [lia|lia|done]|apply (within_keeps _ _ _ _ _ _ _ W); [lia|lia|done]].
Qed.
Lemma sorted_keeps p q i j l l' : within p q l l' -> 0 <= i -> j <= p \/ q <= i -> sorted_seg l i j -> sorted_seg l' i j.
Proof. intros [_ _ S1] Hi Ho Hs u w x y Hu Huw Hw Hx Hy. apply (Hs u w); try done; rewrite <- S1; try done; lia. Qed.
Lemma sorted_short l i j : j <= i + 1 -> sorted_seg l i j.
Proof. intros H u w x y. lia. Qed.
Lemma tri_sorted v a b c d l : consistent -> tri v a b c d l -> sorted_seg l a b -> sorted_seg l c d -> sorted_seg l a d.
Proof.
  intros C [B R1 R2 R3] S1 S2 i j x y Hi Hij Hj Hx Hy.
  assert (forall k z, elt l k = Some z -> a <= k -> k < c -> cmp z v <= 0) as Hlow.
  { intros k z Hz H1 H2. destruct (decide (k < b)); [pose proof (R1 k z ltac:(lia) Hz); unfold Lt in *; lia|].
    destruct (R2 k z ltac:(lia) Hz) as [?| ->]; [lia|pose proof (cmp_refl v C); lia]. }
  assert (forall k z, elt l k = Some z -> b <= k -> k < d -> cmp v z <= 0) as Hhigh.
  { intros k z Hz H1 H2. apply cmp_swap; [done|]. destruct (decide (k < c)); [|pose proof (R3 k z ltac:(lia) Hz); unfold Gt in *; lia].
    destruct (R2 k z ltac:(lia) Hz) as [?| ->]; [lia|pose proof (cmp_refl v C); lia]. }
  destruct (decide (j < b)); [apply (S1 i j); try done; lia|]. destruct (decide (c <= i)); [apply (S2 i j); try done; lia|].
  apply (cmp_transitive C x v y); [apply (Hlow i); try done; lia|apply (Hhigh j); try done; lia].
Qed.

Section Introsort.
Context (malloc_ok : Z -> Z -> bool).
Definition sorts fuel : Prop := forall l a n d, 0 <= a -> 0 <= n < Z.of_nat fuel -> a + n <= Z.of_nat (length l) ->
  exists l', introsort cmp malloc_ok fuel a n d l = Ok ((), l') /\ within a (a + n) l l' /\ (consistent -> sorted_seg l' a (a + n)).
(** A part that has more than one element is sorted. *)
Lemma sort_part fuel l a n d : sorts fuel -> 0 <= a -> 0 <= n < Z.of_nat fuel -> a + n <= Z.of_nat (length l) ->
  exists l', (if 1 <? n then introsort cmp malloc_ok fuel a n d else mret ()) l = Ok ((), l') /\ within a (a + n) l l' /\ (consistent -> sorted_seg l' a (a + n)).
Proof.
  intros IH Ha Hn Hl. destruct (Z.ltb_spec 1 n); [by apply IH|]. exists l. split; [done|]. split; [apply within_refl|]. intros _. apply sorted_short. lia.
Qed.
(** The two parts in either order; the smaller one comes first. *)
Lemma sort_parts fuel d l a n r s v :
  sorts fuel -> tri v a (a + r) (a + n - s) (a + n) l -> r < Z.of_nat fuel -> s < Z.of_nat fuel ->
  exists l', (if r <? s
     then if 1 <? s then _ ← (if 1 <? r then introsort cmp malloc_ok fuel a r d else mret ()); introsort cmp malloc_ok fuel (a + n - s) s d else mret ()
     else if 1 <? r then _ ← (if 1 <? s then introsort cmp malloc_ok fuel (a + n - s) s d else mret ()); introsort cmp malloc_ok fuel a r d else mret ()) l = Ok ((), l') /\
    within a (a + n) l l' /\ (consistent -> sorted_seg l' a (a + n)).
Proof.
  intros IH T Hr Hs. pose proof (tr_bounds _ _ _ _ _ _ T) as B. assert (forall l, a + n - s + s <= Z.of_nat (length l) <-> a + n <= Z.of_nat (length l)) as En by (intros; lia).
  assert (r <= 1 -> s <= 1 -> exists l', Ok ((), l) = Ok ((), l') /\ within a (a + n) l l' /\ (consistent -> sorted_seg l' a (a + n))) as Hshort.
  { intros H1 H2. exists l. split; [done|]. split; [apply within_refl|]. intros C. apply (tri_sorted v a (a + r) (a + n - s)); try done; apply sorted_short; lia. }
  destruct (Z.ltb_spec r s) as [Hrs|Hrs].
  - destruct (Z.ltb_spec 1 s) as [H1|H1]; [|apply Hshort; lia].
    destruct (sort_part fuel l a r d IH) as (l1 & E1 & W1 & S1); [lia|lia|lia|]. unfold mbind at 1, st_bind at 1. rewrite E1. pose proof (wi_length _ _ _ _ W1) as L1.
    destruct (IH l1 (a + n - s) s d) as (l2 & E2 & W2 & S2); [lia|lia|lia|]. replace (a + n - s + s) with (a + n) in * by lia. exists l2. split; [done|].
    split; [apply (within_trans _ _ _ l1); eapply within_mono; first [eassumption|lia]|]. intros C. apply (tri_sorted v a (a + r) (a + n - s)); [done| | |by apply S2].
    + apply (tri_within v a (a + r) (a + n - s) (a + n) (a + n - s) (a + n) l1); [|done|tauto]. by apply (tri_within v _ _ _ _ a (a + r) l); [|done|tauto].
    + apply (sorted_keeps (a + n - s) (a + n) _ _ l1); [done|lia|lia|by apply S1].
  - destruct (Z.ltb_spec 1 r) as [H1|H1]; [|apply Hshort; lia].
    destruct (sort_part fuel l (a + n - s) s d IH) as (l1 & E1 & W1 & S1); [lia|lia|lia|]. unfold mbind at 1, st_bind at 1. rewrite E1. pose proof (wi_length _ _ _ _ W1) as L1.
    destruct (IH l1 a r d) as (l2 & E2 & W2 & S2); [lia|lia|lia|]. replace (a + n - s + s) with (a + n) in * by lia. exists l2. split; [done|].
    split; [apply (within_trans _ _ _ l1); eapply within_mono; first [eassumption|lia]|]. intros C. apply (tri_sorted v a (a + r) (a + n - s)); [done| |by apply S2|].
    + apply (tri_within v a (a + r) (a + n - s) (a + n) a (a + r) l1); [|done|tauto]. by apply (tri_within v _ _ _ _ (a + n - s) (a + n) l); [|done|tauto].
    + apply (sorted_keeps a (a + r) _ _ l1); [done|lia|lia|by apply S1].
Qed.
Lemma introsort_ok fuel : sorts fuel.
Proof.
  induction fuel as [|fuel IH]; intros l a n d Ha Hn Hl; [lia|]. cbn [introsort]. destruct (Z.ltb_spec n 7) as [Hn7|Hn7].
  { destruct (decide (n <= 1)).
    - replace (Z.to_nat (n - 1)) with 0%nat by lia. exists l. split; [done|]. split; [apply within_refl|]. intros _. apply sorted_short. lia.
    - destruct (insert_all_ok (Z.to_nat (n - 1)) l a (a + 1)) as (l' & E & W & H); [lia|lia|]. exists l'. split; [done|].
      replace (a + 1 + Z.of_nat (Z.to_nat (n - 1))) with (a + n) in * by lia. split; [done|]. intros C. apply H; [done|]. apply sorted_short. lia. }
  assert (exists r l1, (if d =? 0 then heapsort cmp (malloc_ok a n) a n else mret (-1)) l = Ok (r, l1) /\ within a (a + n) l l1 /\
      (r = 0 -> consistent -> sorted_seg l1 a (a + n))) as (r & l1 & E1 & W1 & H1).
  { destruct (d =? 0); [|exists (-1), l; split; [done|]; split; [apply within_refl|done]].
    destruct (heapsort_ok (malloc_ok a n) l a n) as (r & l1 & E1 & W1 & _ & H1); [lia|lia|]. by exists r, l1. }
  unfold mbind at 1, st_bind at 1. rewrite E1. destruct (Z.eqb_spec r 0) as [Hr|Hr]; [exists l1; split; [done|]; split; [done|by apply H1]|].
  pose proof (wi_length _ _ _ _ W1) as L1. destruct (pivot_ok l1 a n) as (pm & E2 & Hpm); [lia..|]. unfold mbind at 1, st_bind at 1. rewrite E2.
  destruct (swap_within l1 a pm a (a + n)) as (l2 & E3 & W2 & _); [lia|lia|unfold inside; lia..|]. unfold mbind at 1, st_bind at 1. rewrite E3.
  pose proof (wi_length _ _ _ _ W2) as L2. destruct (elt_some l2 a) as [v Hv]; [unfold inside; lia|].
  destruct (partition_ok (S (Z.to_nat n)) l2 l2 a n v (a + 1) (a + 1) (a + (n - 1)) (a + (n - 1))) as (pa & pb & pc & pd & l3 & E4 & H3 & Hpb); [|lia|].
  { split; [apply within_refl|lia|done|..]; intros k x Hk; lia. }
  unfold mbind at 1, st_bind at 1. rewrite E4. pose proof (pt_bounds _ _ _ _ _ _ _ _ _ H3) as B3.
  destruct (gather_ok _ _ _ _ _ _ _ _ _ H3 Hpb) as (l4 & l5 & E5 & E6 & W5 & T5). unfold mbind at 1, st_bind at 1. rewrite E5. unfold mbind at 1, st_bind at 1. rewrite E6.
  assert (within a (a + n) l l5) as W by (apply (within_trans _ _ _ l1); [done|]; apply (within_trans _ _ _ l2); [done|]; apply (within_trans _ _ _ l3);
    [apply (within_mono (a + 1) (a + n)); [apply (pt_within _ _ _ _ _ _ _ _ _ H3)|lia|lia]|done]).
  destruct (sort_parts fuel (u64 (d - 1)) l5 a n (pb - pa) (pd - pc) v IH T5) as (l' & E7 & W7 & H7); [lia|lia|].
  exists l'. split; [exact E7|]. split; [by apply (within_trans _ _ _ l5)|done].
Qed.
End Introsort.

Lemma lookups_sorted (R : A -> A -> Prop) l : (forall i j x y, (i < j)%nat -> l !! i = Some x -> l !! j = Some y -> R x y) -> StronglySorted R l.
Proof.
  induction l as [|a l IH]; intros H; constructor.
  - apply IH. intros i j x y Hij. apply (H (S i) (S j)). lia.
  - apply Forall_forall. intros x Hx. apply list_elem_of_lookup in Hx as [j Hj]. apply (H 0%nat (S j)); [lia|done|done].
Qed.
(** C26: [qsort] and [heapsort] permute the array, without an access outside and for
    any comparison function, even one that is not consistent; if it is consistent
    the array is sorted in the end.  [qsort] does so even if the allocations of its
    fall-back fail; [heapsort] reports the failure and leaves the array alone. *)
Theorem qsort_sorts malloc_ok l n :
  n = Z.of_nat (length l) ->
  (exists l', qsort cmp malloc_ok n l = Ok ((), l') /\ l' ≡ₚ l /\ (consistent -> StronglySorted (fun x y => cmp x y <= 0) l')) /\
  (forall ok, exists r l', heapsort cmp ok 0 n l = Ok (r, l') /\ l' ≡ₚ l /\ (r = 0 <-> n <= 1 \/ ok = true) /\
     (r = 0 -> consistent -> StronglySorted (fun x y => cmp x y <= 0) l') /\ (r <> 0 -> l' = l)).
Proof.
  intros Hn. assert (forall l', within 0 (0 + n) l l' -> sorted_seg l' 0 (0 + n) -> StronglySorted (fun x y => cmp x y <= 0) l') as Hss.
  { intros l' W Hs. apply lookups_sorted. intros i j x y Hij Hx Hy. pose proof (lookup_lt_Some _ _ _ Hy). rewrite (wi_length _ _ _ _ W) in *.
    apply (Hs (Z.of_nat i) (Z.of_nat j)); try lia; unfold elt; by rewrite Nat2Z.id. }
  split.
  - destruct (introsort_ok malloc_ok (S (Z.to_nat n)) l 0 n (bits 64 n * 2)) as (l' & E & W & H); [lia|lia|lia|]. exists l'. split; [exact E|].
    split; [apply (wi_perm _ _ _ _ W)|]. intros C. apply Hss; [done|]. by apply H.
  - intros ok. destruct (heapsort_ok ok l 0 n) as (r & l' & E & W & Hr & H); [lia|lia|]. exists r, l'. split; [done|]. split; [apply (wi_perm _ _ _ _ W)|]. split; [done|].
    split; [intros Hr0 C; apply Hss; [done|by apply H]|]. intros Hne. unfold heapsort in E. destruct (n <=? 1) eqn:En; [unfold mret, st_ret in E; congruence|].
    destruct ok; [exfalso; apply Hne, Hr; tauto|]. cbn in E. unfold mret, st_ret in E. congruence.
Qed.
End Proofs.

(** ** Binary search *)

Section Search.
Context {K A : Type} (compar : K -> A -> Z) (key : K) (l : list A).
(** The array is ordered as the key sees it. *)
Definition ordered_for : Prop := forall i j x y, 0 <= i < j -> elt l i = Some x -> elt l j = Some y ->
  (0 < compar key y -> 0 < compar key x) /\ (compar key x < 0 -> compar key y < 0).
Definition no_match (i j : Z) : Prop := reg l i j (fun x => compar key x <> 0).
Lemma bsearch_loop_ok fuel : forall base lim, 0 <= base -> 0 <= lim < 2 ^ 31 -> base + lim <= Z.of_nat (length l) -> lim < 2 ^ (Z.of_nat fuel - 1) ->
  exists r, bsearch_loop compar fuel key l base lim = Ok r /\
    match r with
    | Some p => exists x, elt l p = Some x /\ compar key x = 0 /\ base <= p < base + lim
    | None => ordered_for -> no_match 0 base -> no_match (base + lim) (Z.of_nat (length l)) -> no_match 0 (Z.of_nat (length l))
    end.
Proof.
  induction fuel as [|fuel IH]; intros base lim Hb Hl Hlen Hf; [cbn in Hf; lia|]. cbn [bsearch_loop]. destruct (Z.eqb_spec lim 0) as [->|Hne].
  { exists None. split; [done|]. intros _ H1 H2 i x Hi Hx. destruct (decide (i < base)); [by apply (H1 i); [lia|]|apply (H2 i); [lia|done]]. }
  assert (lim < 2 * 2 ^ (Z.of_nat fuel - 1)) as Hf'.
  { destruct fuel as [|f]; [cbn in Hf; lia|]. rewrite <- Z.pow_succ_r by lia. replace (Z.succ (Z.of_nat (S f) - 1)) with (Z.of_nat (S (S f)) - 1) by lia. done. }
  rewrite Z.shiftr_div_pow2 by lia. change (2 ^ 1) with 2. set (p := base + lim / 2).
  assert (0 <= lim / 2 < lim /\ lim / 2 < 2 ^ (Z.of_nat fuel - 1) /\ 0 <= (lim - 1) / 2 <= lim / 2 /\ p + 1 + (lim - 1) / 2 = base + lim) as (G1 & G2 & G3 & G4)
    by (unfold p; Z.div_mod_to_equations; lia).
  destruct (elt_some l p) as [x Hx]; [unfold inside, p; lia|]. unfold aget. rewrite (proj2 (Z.leb_le 0 p)) by (unfold p; lia). cbn. pose proof Hx as Hx'. unfold elt in Hx'. rewrite Hx'. cbn.
  destruct (Z.eqb_spec (compar key x) 0) as [Hc|Hc].
  { exists (Some p). split; [done|]. exists x. split; [done|]. split; [done|]. unfold p. lia. }
  assert (s32 (lim - 1) = lim - 1) as Es by (apply swrap_small; mlia).
  destruct (Z.ltb_spec 0 (compar key x)) as [Hgt|Hlt].
  - rewrite Es, Z.shiftr_div_pow2 by lia. change (2 ^ 1) with 2. destruct (IH (p + 1) ((lim - 1) / 2)) as (r & E & H); [unfold p; lia|lia|lia|lia|]. rewrite E. exists r. split; [done|].
    destruct r as [q|]; [destruct H as (y & Hy & Hy0 & Hq); exists y; split; [done|]; split; [done|unfold p in *; lia]|]. intros O H1 H2. apply H; [done| |by rewrite G4].
    intros i y Hi Hy. destruct (decide (i = p)) as [->|]; [congruence|]. destruct (O i p y x) as [O1 _]; try done; [lia|]. lia.
  - destruct (IH base (lim / 2)) as (r & E & H); [lia|lia|lia|lia|]. rewrite E. exists r. split; [done|].
    destruct r as [q|]; [destruct H as (y & Hy & Hy0 & Hq); exists y; split; [done|]; split; [done|lia]|]. intros O H1 H2. apply H; [done|done|].
    fold p. intros i y Hi Hy. destruct (decide (i = p)) as [->|]; [congruence|]. destruct (O p i x y) as [_ O2]; try done; [unfold p in *; lia|]. lia.
Qed.

(** C27: [bsearch] ends and stays inside the array for any comparison function.  If
    it returns an element, that element matches the key; if the array is ordered
    as the key sees it and it returns none, no element matches.  This is for
    arrays of less than 2^31 elements: the count is kept in an [int]. *)
Theorem bsearch_finds :
  Z.of_nat (length l) < 2 ^ 31 ->
  exists r, bsearch compar key l (Z.of_nat (length l)) = Ok r /\
    match r with
    | Some p => exists x, l !! Z.to_nat p = Some x /\ compar key x = 0
    | None => ordered_for -> Forall (fun x => compar key x <> 0) l
    end.
Proof.
  intros Hl. unfold bsearch. rewrite (swrap_small 32) by mlia. destruct (bsearch_loop_ok 33 0 (Z.of_nat (length l))) as (r & E & H); [lia|lia|lia|mlia|].
  exists r. split; [done|]. destruct r as [p|]; [destruct H as (x & Hx & Hx0 & _); by exists x|]. intros O. apply Forall_lookup. intros i x Hx.
  apply (H O) with (k := Z.of_nat i); [intros k y Hk; lia|intros k y Hk; lia|pose proof (lookup_lt_Some _ _ _ Hx); lia|]. unfold elt. by rewrite Nat2Z.id.
Qed.
End Search.

(** An array of 2^32 elements is taken for an empty one. *)
Example bsearch_truncates {K A} (compar : K -> A -> Z) key l : bsearch compar key l (2 ^ 32) = Ok None.
Proof. reflexivity. Qed.

(** ** The bytes of elements

    The macros of qsort.c that exchange two elements move their bytes in words of
    one, four or eight bytes, as the address and the size of the elements allow. *)

Inductive swaptype := BYTEV | INTV | LONGV | INT | LONG.
Definition width (t : swaptype) : nat := match t with BYTEV => 1 | INTV | INT => 4 | LONGV | LONG => 8 end%nat.
Definition load_word (w : nat) (p : Z) : st (list Z) (list Z) :=
  fun m => if (0 <=? p) && (p + Z.of_nat w <=? Z.of_nat (length m)) then Ok (take w (drop (Z.to_nat p) m), m) else Stuck.
Definition store_word (p : Z) (ws : list Z) : st (list Z) () :=
  fun m => if (0 <=? p) && (p + Z.of_nat (length ws) <=? Z.of_nat (length m)) then Ok ((), list_inserts (Z.to_nat p) ws m) else Stuck.
Fixpoint swapcode (w i : nat) (pi pj : Z) : st (list Z) () :=
  match i with
  | O => mret ()
  | S i =>
      t ← load_word w pi;
      u ← load_word w pj;
      _ ← store_word pi u;
      _ ← store_word pj t;
      swapcode w i (pi + Z.of_nat w) (pj + Z.of_nat w)
  end.
(** [swapfunc] of [n] bytes; the loop of [swapcode] runs at least once. *)
Definition swapfunc (a b n : Z) (t : swaptype) : st (list Z) () :=
  swapcode (width t) (Z.to_nat (n / Z.of_nat (width t))) a b.
(** The macro [swap]. *)
Definition swap_bytes (t : swaptype) (es a b : Z) : st (list Z) () :=
  match t with INT | LONG => swapcode (width t) 1 a b | _ => swapfunc a b es t end.
(** The choice that [qsort] makes for elements of [es] bytes at the address [a]. *)
Definition choose_swaptype (a es : Z) : swaptype :=
  if (a mod 8 =? 0) && (es mod 8 =? 0) then (if es =? 8 then LONG else LONGV)
  else if (a mod 4 =? 0) && (es mod 4 =? 0) then (if es =? 4 then INT else INTV)
  else BYTEV.

Definition apart (w pi pj : Z) : Prop := pi = pj \/ pi + w <= pj \/ pj + w <= pi.
Lemma word_exchange m w pi pj : 0 <= pi -> 0 <= pj -> apart (Z.of_nat w) pi pj ->
  pi + Z.of_nat w <= Z.of_nat (length m) -> pj + Z.of_nat w <= Z.of_nat (length m) ->
  exists m', length m' = length m /\ (forall x, 0 <= x -> elt m' x = elt m (shifted (Z.of_nat w) pi pj x)) /\
    forall A (k : st (list Z) A), (t ← load_word w pi; u ← load_word w pj; _ ← store_word pi u; _ ← store_word pj t; k) m = k m'.
Proof.
  intros Hi Hj Hd Li Lj. unfold load_word, store_word, mbind, st_bind.
  set (t := take w (drop (Z.to_nat pi) m)). set (u := take w (drop (Z.to_nat pj) m)).
  assert (length t = w /\ length u = w) as [Lt Lu] by (unfold t, u; rewrite !length_take, !length_drop; lia).
  exists (list_inserts (Z.to_nat pj) t (list_inserts (Z.to_nat pi) u m)). split; [by rewrite !length_inserts|]. split.
  - intros x Hx. unfold elt, shifted. unfold apart in Hd.
    assert (forall j, (j < w)%nat -> t !! j = m !! (Z.to_nat pi + j)%nat) as Ht by (intros j Hw; unfold t; by rewrite lookup_take_lt, lookup_drop by lia).
    assert (forall j, (j < w)%nat -> u !! j = m !! (Z.to_nat pj + j)%nat) as Hu by (intros j Hw; unfold u; by rewrite lookup_take_lt, lookup_drop by lia).
    destruct (decide (pj <= x < pj + Z.of_nat w)) as [Hxj|Hxj].
    + rewrite list_lookup_inserts by (rewrite ?length_inserts; lia). rewrite Ht by lia. case_decide; f_equal; lia.
    + assert ((Z.to_nat x < Z.to_nat pj)%nat \/ (Z.to_nat pj + length t <= Z.to_nat x)%nat) as Ho by lia.
      destruct Ho; [rewrite list_lookup_inserts_lt by lia|rewrite list_lookup_inserts_ge by lia]; case_decide.
      all: first [rewrite list_lookup_inserts by lia; rewrite Hu by lia; f_equal; lia|idtac].
      all: (destruct (decide (x < pi)); [rewrite list_lookup_inserts_lt by lia|rewrite list_lookup_inserts_ge by lia]; done).
  - intros A k. rewrite (proj2 (Z.leb_le 0 pi)), (proj2 (Z.leb_le 0 pj)) by lia. cbn [andb].
    rewrite (proj2 (Z.leb_le (pi + Z.of_nat w) (Z.of_nat (length m)))), (proj2 (Z.leb_le (pj + Z.of_nat w) (Z.of_nat (length m)))) by lia.
    fold t u. rewrite Lu, (proj2 (Z.leb_le (pi + Z.of_nat w) _)) by lia. rewrite length_inserts, Lt, (proj2 (Z.leb_le (pj + Z.of_nat w) _)) by lia. done.
Qed.
Lemma swapcode_ok w i : forall m pi pj, 0 <= pi -> 0 <= pj -> apart (Z.of_nat (i * w)) pi pj ->
  pi + Z.of_nat (i * w) <= Z.of_nat (length m) -> pj + Z.of_nat (i * w) <= Z.of_nat (length m) ->
  exists m', swapcode w i pi pj m = Ok ((), m') /\ length m' = length m /\ forall x, 0 <= x -> elt m' x = elt m (shifted (Z.of_nat (i * w)) pi pj x).
Proof.
  induction i as [|i IH]; intros m pi pj Hi Hj Hd Li Lj; unfold apart in Hd.
  - exists m. split; [done|]. split; [done|]. intros x Hx. unfold shifted. repeat case_decide; first [lia|done].
  - cbn [swapcode]. destruct (word_exchange m w pi pj) as (m1 & L1 & H1 & E1); [lia|lia|unfold apart; lia|lia|lia|]. rewrite E1.
    destruct (IH m1 (pi + Z.of_nat w) (pj + Z.of_nat w)) as (m2 & E2 & L2 & H2); [lia|lia|unfold apart; lia|lia|lia|]. exists m2. split; [done|]. split; [congruence|].
    intros x Hx. rewrite H2, H1 by (try (unfold shifted; repeat case_decide); lia). f_equal. unfold shifted. repeat case_decide; lia.
Qed.

(** Elements of [es] bytes each in a row. *)
Lemma concat_elt (es : nat) (l : list (list Z)) : Forall (fun e => length e = es) l -> (0 < es)%nat ->
  forall x, mjoin l !! x = (l !! (x / es)%nat) ≫= (fun e => e !! (x mod es)%nat).
Proof.
  intros Hl He. induction Hl as [|e l Hle _ IH]; intros x; [by rewrite !lookup_nil|]. cbn [mjoin list_join].
  destruct (decide (x < es)%nat) as [Hx|Hx].
  - rewrite lookup_app_l, Nat.div_small, Nat.mod_small by lia. done.
  - rewrite lookup_app_r by lia. fold (mjoin l). rewrite IH, Hle. remember (x - es)%nat as y eqn:Ey. assert (x = y + 1 * es)%nat as -> by lia.
    by rewrite Nat.div_add, Nat.Div0.mod_add, Nat.add_1_r by lia.
Qed.
Definition fits_type (t : swaptype) (es : nat) : Prop :=
  match t with INT | LONG => es = width t | _ => exists k, es = (k * width t)%nat end.
Lemma choose_fits a es : 0 < es -> fits_type (choose_swaptype a es) (Z.to_nat es).
Proof.
  intros He. unfold choose_swaptype. repeat case_if; repeat match goal with H : _ && _ = true |- _ => apply andb_true_iff in H as [? ?] end;
    rewrite ?Z.eqb_eq in *; cbn [fits_type width]; try lia.
  - exists (Z.to_nat (es / 8)). Z.div_mod_to_equations. lia.
  - exists (Z.to_nat (es / 4)). Z.div_mod_to_equations. lia.
  - exists (Z.to_nat es). lia.
Qed.
(** Exchanging the bytes exchanges the elements. *)
Lemma swap_bytes_ok t es (l : list (list Z)) i j :
  Forall (fun e => length e = es) l -> (0 < es)%nat -> fits_type t es -> inside l i -> inside l j ->
  exists l', swap i j l = Ok ((), l') /\ swap_bytes t (Z.of_nat es) (i * Z.of_nat es) (j * Z.of_nat es) (mjoin l) = Ok ((), mjoin l').
Proof.
  intros Hl He Ht Hi Hj. destruct (swap_elt_ok l i j Hi Hj) as (l' & E & L & P & H). exists l'. split; [done|].
  assert (length (mjoin l) = (length l * es)%nat) as Lm.
  { clear -Hl. induction Hl as [|e l He _ IH]; [done|]. change (length (e ++ mjoin l) = (S (length l) * es)%nat). rewrite length_app, IH, He. lia. }
  assert (Forall (fun e => length e = es) l') as Hl' by (by rewrite P). unfold inside in Hi, Hj.
  assert (exists k, (k * width t)%nat = es /\ swap_bytes t (Z.of_nat es) (i * Z.of_nat es) (j * Z.of_nat es) = swapcode (width t) k (i * Z.of_nat es) (j * Z.of_nat es)) as (k & Hk & ->).
  { destruct t; cbn [fits_type width] in Ht.
    1-3: destruct Ht as [k ->]; exists k; split; [done|]; cbn [swap_bytes]; unfold swapfunc; f_equal; cbn [width]; rewrite Nat2Z.inj_mul, Z.div_mul by lia; lia.
    all: exists 1%nat; cbn [width]; split; [lia|done]. }
  assert (apart (Z.of_nat es) (i * Z.of_nat es) (j * Z.of_nat es)) as Hap.
  { destruct (Z.lt_trichotomy i j) as [?|[->|?]]; [right; left; nia|by left|right; right; nia]. }
  destruct (swapcode_ok (width t) k (mjoin l) (i * Z.of_nat es) (j * Z.of_nat es)) as (m' & E' & L' & H'); [nia|nia|by rewrite Hk|rewrite Hk; nia|rewrite Hk; nia|].
  rewrite E'. do 2 f_equal. apply list_eq. intros x. rewrite (concat_elt es l' Hl' He). specialize (H' (Z.of_nat x) ltac:(lia)). unfold elt in H'. rewrite Nat2Z.id in H'. rewrite H'.
  rewrite (concat_elt es l Hl He). set (q := (x / es)%nat). set (r := (x mod es)%nat). pose proof (Nat.div_mod_eq x es) as Hx. pose proof (Nat.mod_upper_bound x es ltac:(lia)) as Hr. fold q r in Hx, Hr.
  assert (shifted (Z.of_nat (k * width t)) (i * Z.of_nat es) (j * Z.of_nat es) (Z.of_nat x) = exch i j (Z.of_nat q) * Z.of_nat es + Z.of_nat r) as ->.
  { rewrite Hk. unfold shifted, exch. repeat case_decide; nia. }
  assert (0 <= exch i j (Z.of_nat q)) as Hex by (unfold exch; repeat case_decide; lia).
  replace (Z.to_nat (exch i j (Z.of_nat q) * Z.of_nat es + Z.of_nat r)) with (r + Z.to_nat (exch i j (Z.of_nat q)) * es)%nat by nia.
  rewrite Nat.div_add, Nat.Div0.mod_add, Nat.div_small, Nat.mod_small by lia. specialize (H (Z.of_nat q) ltac:(lia)). unfold elt in H. rewrite Nat2Z.id in H. rewrite H. done.
Qed.

(** ** Witnesses *)

Definition demo_array : list Z := [9; 3; 7; 1; 8; 2; 6; 4; 5; 0; 3; 7].
Lemma Zsub_consistent : consistent Z.sub.
Proof. split; intros; lia. Qed.
Lemma qsort_sorts_witness : qsort Z.sub (fun _ _ => true) 12 demo_array = Ok ((), [0; 1; 2; 3; 3; 4; 5; 6; 7; 7; 8; 9]) /\
  StronglySorted (fun x y => x - y <= 0) [0; 1; 2; 3; 3; 4; 5; 6; 7; 7; 8; 9].
Proof.
  split; [reflexivity|]. destruct (qsort_sorts Z.sub (fun _ _ => true) demo_array 12 eq_refl) as [(l' & E & _ & H) _]. vm_compute in E. injection E as <-. exact (H Zsub_consistent).
Defined.
Lemma bsearch_finds_witness : exists r, bsearch Z.sub 7 [1; 3; 5; 7; 9] 5 = Ok r /\ r = Some 3.
Proof.
  destruct (bsearch_finds Z.sub 7 [1; 3; 5; 7; 9]) as (r & E & _); [reflexivity|]. exists r. split; [exact E|]. vm_compute in E. congruence.
Defined.
