(* ===== verification/Fat.v ===== *)
(** * The FAT file system (user/drivers/filesystem/src/fs/fat, util/String.cpp)

    The read-only driver for FAT32 volumes: recognising a volume, the cluster
    chains of the file allocation table with their cache, directories with long
    file names, and reading files.  The disk is a parameter: it answers the [k]-th
    request for [n] sectors at [lba] with an error code or with bytes, so that a
    request can fail at one time and succeed at another.  A byte is a [Z], a
    string or a buffer a list of bytes. *)

From S2P Require Import Prelude HashFns CMem LibcString.
Open Scope mach_scope.

(** ** Strings (util/String.cpp) *)

(** [std::string::find_last_not_of]. *)
Fixpoint find_last_not_of (c : Z) (s : list Z) : option nat :=
  match s with
  | [] => None
  | x :: s =>
      match find_last_not_of c s with
      | Some i => Some (S i)
      | None => if x =? c then None else Some 0%nat
      end
  end.
Definition TrimTrailingWhitespace (str : list Z) : list Z :=
  match find_last_not_of 32 str with
  | Some nonSpace => if decide (nonSpace < length str - 1)%nat then take (nonSpace + 1) str else str
  | None => str
  end.

(** The loop of [ConvertUcs2ToUtf8]; an invalid code point makes the result empty. *)
Fixpoint ucs2_loop (l str : list Z) : list Z :=
  match l with
  | [] => str
  | c :: l =>
      if c =? 0 then str
      else if c <? 0x80 then ucs2_loop l (str ++ [c])
      else if c <? 0x800 then ucs2_loop l (str ++ [u8 (192 + c / 64); u8 (128 + c mod 64)])
      else if u32 (c - 0xd800) <? 0x800 then []
      else ucs2_loop l (str ++ [u8 (224 + c / 4096); u8 (128 + (c / 64) mod 64); u8 (128 + c mod 64)])
  end.
Definition ConvertUcs2ToUtf8 (ucs2Str : list Z) : list Z := ucs2_loop ucs2Str [].

(** ** The structures on disk (fs/fat/FAT.h) *)

(** The little-endian field of [n] bytes at [off]; a buffer that does not hold it
    is read outside. *)
Definition fld (data : list Z) (off n : nat) : res Z :=
  if decide (off + n <= length data)%nat then Ok (le_word (take n (drop off data))) else Stuck.

Record Bpb := {
  bytesPerSector : Z; sectorsPerCluster : Z; numReservedSectors : Z; numFats : Z;
  numRootEntries : Z; numSectors16 : Z; tableSize16 : Z; numSectors32 : Z
}.
Definition get_bpb (data : list Z) : res Bpb :=
  bps ← fld data 11 2; spc ← fld data 13 1; rsv ← fld data 14 2; nf ← fld data 16 1;
  nre ← fld data 17 2; n16 ← fld data 19 2; t16 ← fld data 22 2; n32 ← fld data 32 4;
  Ok {| bytesPerSector := bps; sectorsPerCluster := spc; numReservedSectors := rsv; numFats := nf;
        numRootEntries := nre; numSectors16 := n16; tableSize16 := t16; numSectors32 := n32 |}.
Record ExtendedBpb32 := { tableSize32 : Z; rootDirCluster : Z }.
Definition get_bpb32 (data : list Z) : res ExtendedBpb32 :=
  t ← fld data 36 4; r ← fld data 44 4; Ok {| tableSize32 := t; rootDirCluster := r |}.

(** A directory entry is a list of 32 bytes. *)
Definition at8 (e : list Z) (i : nat) : Z := default 0 (e !! i).
Definition at16 (e : list Z) (i : nat) : Z := le_word (take 2 (drop i e)).
Definition ent_name (e : list Z) : list Z := take 8 e.
Definition ent_extension (e : list Z) : list Z := take 3 (drop 8 e).
(** [attributes & Attributes::Mask]. *)
Definition ent_type (e : list Z) : Z := at8 e 11 .& 63.
Definition ReadOnly : Z := 1.
Definition Hidden : Z := 2.
Definition VolumeId : Z := 8.
Definition DirectoryAttr : Z := 16.
Definition LongFileName : Z := 15.
Definition getCluster (e : list Z) : Z := at16 e 26 .| (at16 e 20 << 16).
Definition fileSize (e : list Z) : Z := le_word (take 4 (drop 28 e)).
(** The bit fields of the first byte of an entry for a long name, and its 13
    characters. *)
Definition lfn_order (e : list Z) : Z := at8 e 0 .& 63.
Definition lastLfn (e : list Z) : bool := Z.testbit (at8 e 0) 6.
Definition lfn_checksum (e : list Z) : Z := at8 e 13.
Fixpoint u16s (n : nat) (l : list Z) : list Z :=
  match n with O => [] | S n => le_word (take 2 l) :: u16s n (drop 2 l) end.
Definition chars1 (e : list Z) : list Z := u16s 5 (drop 1 e).
Definition chars2 (e : list Z) : list Z := u16s 6 (drop 14 e).
Definition chars3 (e : list Z) : list Z := u16s 2 (drop 28 e).

(** Error codes. *)
Definition UnsupportedFatType : Z := -66200.
Definition FatSectorOutOfRange : Z := -66201.
Definition InvalidDirectoryEntry : Z := -66202.

(** ** Recognising a volume *)

Definition udiv (a b : Z) : res Z := if b =? 0 then Stuck else Ok (a / b).

Inductive FatType := Unknown | FAT12 | FAT16 | FAT32Type.
Definition DetermineFatSize (data : list Z) : res FatType :=
  bpb ← get_bpb data;
  ext32 ← get_bpb32 data;
  let totalSectors := if numSectors16 bpb =? 0 then numSectors32 bpb else numSectors16 bpb in
  let fatSectors := if tableSize16 bpb =? 0 then tableSize32 ext32 else tableSize16 bpb in
  rootDirSectors ← udiv (numRootEntries bpb * 32 + (bytesPerSector bpb - 1)) (bytesPerSector bpb);
  let numDataSectors := u64 (totalSectors - (numReservedSectors bpb + numFats bpb * fatSectors + rootDirSectors)) in
  totalClusters ← udiv numDataSectors (sectorsPerCluster bpb);
  Ok (if totalClusters <? 4085 then FAT12
      else if totalClusters <? 65525 then FAT16
      else if totalClusters <? 268435445 then FAT32Type
      else Unknown).

(** The checksum of a short name. *)
Definition checksum_step (sum b : Z) : Z := u8 ((if Z.testbit sum 0 then 0x80 else 0) + (sum >> 1) + b).
Definition CalculateShortNameChecksum (e : list Z) : Z := foldl checksum_step 0 (take 11 e).

(** ** The volume

    What does not change after the construction, and what does: the cache of
    sectors of the allocation table and the label.  [requests] counts the requests
    to the disk. *)
Record FAT := {
  startLba : Z; numSectors : Z; numClusters : Z; firstDataSector : Z;
  bpb : Bpb; bpb32 : ExtendedBpb32
}.
Record fs := Fs { fatPageCache : gmap Z (list Z); volumeLabel : option (list Z); requests : nat }.

(** Calls that return an error code other than 0, or 0 and their result. *)
Notation io A := (st fs (Z + A)).
Definition io_bind {A B} (m : io A) (f : A -> io B) : io B :=
  r ← m; match r with inl err => mret (inl err) | inr x => f x end.
Definition io_ok {A} (x : A) : io A := mret (inr x).
Definition io_err {A} (e : Z) : io A := mret (inl e).
Notation "x ←? y ; z" := (io_bind y (fun x => z)) (at level 20, y at level 100, z at level 200, only parsing) : mach_scope.

Section Driver.
Context (Read : nat -> Z -> Z -> Z + list Z).

Definition disk_read (lba n : Z) : io (list Z) :=
  fun w => Ok (Read (requests w) lba n, Fs (fatPageCache w) (volumeLabel w) (S (requests w))).

Definition clusterToLba (v : FAT) (cluster : Z) : Z :=
  u64 (startLba v + firstDataSector v + u32 (u32 (cluster - 2) * sectorsPerCluster (bpb v))).
Definition readCluster (v : FAT) (cluster num : Z) : io (list Z) :=
  let spc := sectorsPerCluster (bpb v) in
  disk_read (clusterToLba v cluster) (if num =? 0 then spc else Z.min spc num).

Definition readFat (v : FAT) (n : Z) : io (list Z) :=
  if tableSize32 (bpb32 v) <=? n then io_err FatSectorOutOfRange
  else disk_read (u64 (startLba v + numReservedSectors (bpb v) + n)) 1.

(** The sector of the table, from the cache or from the disk. *)
Definition fat_sector (v : FAT) (n : Z) : io (list Z) :=
  w ← sget;
  match fatPageCache w !! n with
  | Some sector => io_ok sector
  | None =>
      sector ←? readFat v n;
      _ ← smod (fun w => Fs (<[n := sector]> (fatPageCache w)) (volumeLabel w) (requests w));
      io_ok sector
  end.
(** The next cluster and whether there is none; the callers pass the variable of
    the cluster for the next one, so it keeps its value at the end of the chain. *)
Definition getNextCluster (v : FAT) (_cluster : Z) : io (Z * bool) :=
  let cluster := _cluster .& 0x0FFFFFFF in
  let fatByteOff := u32 (cluster * 4) in
  fatSector ← slift (udiv fatByteOff (bytesPerSector (bpb v)));
  let byteOff := fatByteOff mod bytesPerSector (bpb v) in
  sector ←? fat_sector v fatSector;
  entry ← slift (fld sector (Z.to_nat byteOff) 4);
  io_ok (if entry <? 0x0FFFFFF8 then (entry .& 0x0FFFFFFF, false) else (_cluster, true)).

(** ** Directories (FAT.cpp, Directory.cpp) *)

Record LfnInfo := Lfn { totalEntries : Z; shortNameChecksum : Z; readEntries : Z; charBuf : list Z }.
Record DirectoryEntry := Dirent {
  de_name : list Z; hasLfn : bool; isDirectory : bool; de_size : Z; firstCluster : Z; de_attributes : Z
}.
(** The constructor of [DirectoryEntry]. *)
Definition new_entry (e name : list Z) (lfn : bool) : DirectoryEntry :=
  let type := ent_type e in
  {| de_name := name; hasLfn := lfn; isDirectory := negb (type .& DirectoryAttr =? 0); de_size := fileSize e; firstCluster := getCluster e;
     de_attributes := (if type .& ReadOnly =? 0 then 0 else 1) .| (if type .& Hidden =? 0 then 0 else 2) |}.

(** The local variables of the loop over the entries, and the label. *)
Record scan := Scan { lfn : option LfnInfo; entries : list DirectoryEntry; label : option (list Z) }.

(** [std::copy] to [off] of the buffer of characters. *)
Definition copy_chars (buf : list Z) (off : Z) (cs : list Z) : res (list Z) :=
  if (0 <=? off) && (off + Z.of_nat (length cs) <=? Z.of_nat (length buf)) then Ok (list_inserts (Z.to_nat off) cs buf) else Stuck.
Definition add_chars (e : list Z) (l : LfnInfo) : res LfnInfo :=
  let stringOff := (lfn_order e - 1) * 13 in
  buf ← copy_chars (charBuf l) stringOff (chars1 e);
  buf ← copy_chars buf (stringOff + 5) (chars2 e);
  buf ← copy_chars buf (stringOff + 11) (chars3 e);
  Ok (Lfn (totalEntries l) (shortNameChecksum l) (u8 (readEntries l + 1)) buf).
(** An entry of a long name. *)
Definition lfn_entry (e : list Z) (s : scan) : res scan :=
  if lastLfn e then
    let l := Lfn (lfn_order e) (lfn_checksum e) 0 (replicate (Z.to_nat (13 * lfn_order e)) 0x20) in
    l ← add_chars e l; Ok (Scan (Some l) (entries s) (label s))
  else
    l ← res_of (lfn s);
    if negb (lfn_checksum e =? shortNameChecksum l) then Ok (Scan None (entries s) (label s))
    else l ← add_chars e l; Ok (Scan (Some l) (entries s) (label s)).
(** A volume label; [true] is a [break]. *)
Definition volume_entry (isRoot : bool) (e : list Z) (s : scan) : scan * bool :=
  let temp := TrimTrailingWhitespace (ent_name e ++ take 2 (ent_extension e)) in
  if isRoot then (Scan (lfn s) (entries s) (Some temp), false) else (s, true).
(** The long name of a file, if it is complete; none if its checksum is wrong. *)
Definition long_name (e : list Z) (s : scan) : option (list Z * bool) :=
  match lfn s with
  | Some l =>
      if totalEntries l =? readEntries l then
        if negb (CalculateShortNameChecksum e =? shortNameChecksum l) then None
        else Some (TrimTrailingWhitespace (ConvertUcs2ToUtf8 (charBuf l)), true)
      else Some ([], false)
  | None => Some ([], false)
  end.
Definition short_name (e : list Z) : list Z :=
  let name := ent_name e in
  let name :=
    if decide (ent_extension e = [32; 32; 32]) then name
    else (if at8 e 0 =? 46 then name else TrimTrailingWhitespace name ++ [46]) ++ ent_extension e in
  TrimTrailingWhitespace name.
Definition file_entry (e : list Z) (s : scan) : scan * bool :=
  match long_name e s with
  | None => (s, true)
  | Some (name, hasLfn) =>
      let name := match name with [] => short_name e | _ => name end in
      (Scan None (entries s ++ [new_entry e name hasLfn]) (label s), false)
  end.
Definition dir_entry (isRoot : bool) (e : list Z) (s : scan) : res (scan * bool) :=
  if (at8 e 0 =? 0) || (at8 e 0 =? 0xE5) then Ok (s, false)
  else if ent_type e =? LongFileName then s ← lfn_entry e s; Ok (s, false)
  else if negb (ent_type e .& VolumeId =? 0) then Ok (volume_entry isRoot e s)
  else Ok (file_entry e s).
(** The loop over the entries of one cluster. *)
Fixpoint for_entries (isRoot : bool) (es : list (list Z)) (s : scan) : res scan :=
  match es with
  | [] => Ok s
  | e :: es =>
      r ← dir_entry isRoot e s;
      let '(s, brk) := (r : scan * bool) in
      if brk then Ok s else for_entries isRoot es s
  end.
Fixpoint chunks (n : nat) (data : list Z) : list (list Z) :=
  match n with O => [] | S n => take 32 data :: chunks n (drop 32 data) end.
Definition dirents (data : list Z) : list (list Z) := chunks (length data / 32) data.

(** The loop over the clusters of a directory. *)
Fixpoint dir_loop (fuel : nat) (v : FAT) (isRoot : bool) (cluster : Z) (l : option LfnInfo) (es : list DirectoryEntry) : io (list DirectoryEntry) :=
  match fuel with
  | O => sstuck
  | S fuel =>
      data ←? readCluster v cluster 0;
      w ← sget;
      s ← slift (for_entries isRoot (dirents data) (Scan l es (volumeLabel w)));
      _ ← smod (fun w => Fs (fatPageCache w) (label s) (requests w));
      n ←? getNextCluster v cluster;
      let '(cluster, isLast) := (n : Z * bool) in
      if isLast then io_ok (entries s) else dir_loop fuel v isRoot cluster (lfn s) (entries s)
  end.
(** The number of entries of the allocation table: a chain that visits more
    clusters is a cycle, which the loop never leaves. *)
Definition chain_fuel (v : FAT) : nat := S (Z.to_nat (tableSize32 (bpb32 v) * bytesPerSector (bpb v) / 4)).
Definition readDirectory (v : FAT) (isRoot : bool) (start : Z) : io (list DirectoryEntry) :=
  dir_loop (chain_fuel v) v isRoot start None [].
(** [readDirectory] of an entry. *)
Definition read_subdirectory (v : FAT) (dent : DirectoryEntry) : io (list DirectoryEntry) :=
  if negb (isDirectory dent) then io_err InvalidDirectoryEntry else readDirectory v false (firstCluster dent).

(** [compareName]: [strncasecmp] on strings of the same length. *)
Fixpoint same_letters (l1 l2 : list Z) : bool :=
  match l1, l2 with
  | b1 :: l1, b2 :: l2 =>
      if bool_decide (charmap !! Z.to_nat b1 = charmap !! Z.to_nat b2) then (if b1 =? 0 then true else same_letters l1 l2) else false
  | _, _ => true
  end.
Definition compareName (dent : DirectoryEntry) (name : list Z) : bool :=
  if decide (length name = length (de_name dent)) then same_letters name (de_name dent) else false.
Definition getEntry (es : list DirectoryEntry) (name : list Z) : option DirectoryEntry :=
  head (filter (fun d => compareName d name) es).

(** ** Mounting a volume (FAT.cpp, FAT32.cpp) *)

(** The constructors of [FAT] and [FAT32] up to the root directory. *)
Definition new_FAT32 (start length : Z) (data : list Z) : res FAT :=
  b ← get_bpb data;
  b32 ← get_bpb32 data;
  let sec := bytesPerSector b in
  rootDirSectors ← udiv (numRootEntries b * 32 + (sec - 1)) sec;
  let first := u64 (u32 (numReservedSectors b + u32 (numFats b * tableSize32 b32)) + rootDirSectors) in
  let numDataSectors := u64 (numSectors32 b - first) in
  n ← udiv numDataSectors (sectorsPerCluster b);
  Ok {| startLba := start; numSectors := length; numClusters := n; firstDataSector := first; bpb := b; bpb32 := b32 |}.
(** [Alloc]: the volume with its root directory, or the error of reading it. *)
Definition Alloc (start length : Z) (data : list Z) : io (FAT * list DirectoryEntry) :=
  v ← slift (new_FAT32 start length data);
  root ←? readDirectory v true (rootDirCluster (bpb32 v));
  io_ok (v, root).

Definition kBDPId : list Z := [0xEB; 0xD0; 0xA0; 0xA2; 0xB9; 0xE5; 0x44; 0x33; 0x87; 0xC0; 0x68; 0xB6; 0xB7; 0x26; 0x99; 0xC7].
(** [TryStart]: none if the partition is of another type. *)
Definition TryStart (id : list Z) (start length : Z) : st fs (option (Z + FAT * list DirectoryEntry)) :=
  if decide (id <> kBDPId) then mret None
  else
    r ← disk_read start 1;
    match r with
    | inl err => mret (Some (inl err))
    | inr data =>
        type ← slift (DetermineFatSize data);
        match type with
        | FAT32Type => r ← Alloc start length data; mret (Some r)
        | _ => mret (Some (inl UnsupportedFatType))
        end
    end.

(** ** Files (File.cpp) *)

Record File := NewFile { f_size : Z; f_cluster : Z }.
Definition openFile (dent : DirectoryEntry) : Z + File :=
  if isDirectory dent then inl InvalidDirectoryEntry else inr (NewFile (de_size dent) (firstCluster dent)).

Definition bytesPerCluster (v : FAT) : Z := bytesPerSector (bpb v) * sectorsPerCluster (bpb v).
(** The loop that looks for the first cluster. *)
Fixpoint skip_clusters (n : nat) (v : FAT) (cluster : Z) (isLast : bool) : io Z :=
  match n with
  | O => io_ok cluster
  | S n =>
      if isLast then sabort
      else r ←? getNextCluster v cluster; let '(cluster, isLast) := (r : Z * bool) in skip_clusters n v cluster isLast
  end.
(** The bytes of [temp] from [off] on. *)
Definition sub_range (temp : list Z) (off n : Z) : res (list Z) :=
  if off + n <=? Z.of_nat (length temp) then Ok (take (Z.to_nat n) (drop (Z.to_nat off) temp)) else Stuck.
(** The loop over the clusters; the error code and what [readBuf] holds. *)
Fixpoint read_loop (fuel : nat) (v : FAT) (cluster currentOff bytesLeft : Z) (readBuf : list Z) : st fs (Z * list Z) :=
  match fuel with
  | O => sstuck
  | S fuel =>
      if bytesLeft =? 0 then mret (0, readBuf)
      else
        let clusterOff := currentOff mod bytesPerCluster v in
        let clusterBytes := Z.min bytesLeft (u64 (bytesPerCluster v - clusterOff)) in
        r ← readCluster v cluster 0;
        match r with
        | inl err => mret (err, readBuf)
        | inr temp =>
            piece ← slift (sub_range temp clusterOff clusterBytes);
            let readBuf := readBuf ++ piece in
            let bytesLeft := u64 (bytesLeft - clusterBytes) in
            let currentOff := u64 (currentOff + clusterBytes) in
            if bytesLeft =? 0 then mret (0, readBuf)
            else
              r ← getNextCluster v cluster;
              match (r : Z + Z * bool) with
              | inl err => mret (err, readBuf)
              | inr (cluster, isLast) => read_loop fuel v cluster currentOff (if isLast then 0 else bytesLeft) readBuf
              end
        end
  end.
Definition read (v : FAT) (f : File) (offset numBytes : Z) : st fs (Z * list Z) :=
  if numBytes =? 0 then mret (0, [])
  else if f_size f <=? offset then mret (0, [])
  else
    startingCluster ← slift (udiv offset (bytesPerCluster v));
    r ← skip_clusters (Z.to_nat startingCluster) v (f_cluster f) false;
    match r with
    | inl err => mret (err, [])
    | inr cluster =>
        let numBytesToRead := Z.min (f_size f - offset) numBytes in
        read_loop (S (Z.to_nat numBytesToRead)) v cluster offset numBytesToRead []
    end.
End Driver.

(** ** What is on the disk

    [sector] gives the bytes of every sector of the disk.  The disk answers every
    request with these bytes or with an error. *)
Definition sectors (sector : Z -> list Z) (lba n : Z) : list Z := mjoin (sector <$> seqZ lba n).
Definition serves (Read : nat -> Z -> Z -> Z + list Z) (sector : Z -> list Z) : Prop :=
  forall k lba n, Read k lba n = inr (sectors sector lba n) \/ exists e, e <> 0 /\ Read k lba n = inl e.

(** A volume as a formatter makes it: the clusters and their entries in the table
    exist, and directory entries do not cross sectors. *)
Record geometry (sector : Z -> list Z) (v : FAT) : Prop := {
  g_bps : 0 < bytesPerSector (bpb v) < 2 ^ 16;
  g_entries : bytesPerSector (bpb v) mod 32 = 0;
  g_spc : 0 < sectorsPerCluster (bpb v) < 2 ^ 8;
  g_lba : 0 <= startLba v /\ 0 <= firstDataSector v /\ startLba v + firstDataSector v + 2 ^ 32 <= 2 ^ 64;
  g_table : 0 <= numReservedSectors (bpb v) /\ 0 <= tableSize32 (bpb32 v) /\
    numReservedSectors (bpb v) + tableSize32 (bpb32 v) <= firstDataSector v;
  g_clusters : numClusters v * sectorsPerCluster (bpb v) < 2 ^ 32 /\ numClusters v + 2 <= 0x0FFFFFF0 /\
    (numClusters v + 2) * 4 <= tableSize32 (bpb32 v) * bytesPerSector (bpb v);
  g_sector : forall lba, length (sector lba) = Z.to_nat (bytesPerSector (bpb v))
}.

Section Volume.
Context (Read : nat -> Z -> Z -> Z + list Z) (sector : Z -> list Z) (v : FAT).
Context (HR : serves Read sector) (G : geometry sector v).
Local Notation bps := (bytesPerSector (bpb v)).
Local Notation per_cluster := (sectorsPerCluster (bpb v)).
Local Notation reserved := (numReservedSectors (bpb v)).

Definition valid (c : Z) : Prop := 2 <= c < 2 + numClusters v.
Definition cluster_data (c : Z) : list Z := sectors sector (startLba v + firstDataSector v + (c - 2) * per_cluster) per_cluster.
Definition fat_entry (c : Z) : Z :=
  le_word (take 4 (drop (Z.to_nat (c * 4 mod bps)) (sector (startLba v + reserved + c * 4 / bps)))).
(** [chain c cs]: the allocation table links the clusters [cs], of which [c] is the
    first. *)
Inductive chain : Z -> list Z -> Prop :=
| chain_last c : valid c -> 0x0FFFFFF8 <= fat_entry c -> chain c [c]
| chain_next c d cs : valid c -> fat_entry c = d -> chain d cs -> chain c (c :: cs).
Definition content (cs : list Z) : list Z := mjoin (cluster_data <$> cs).

(** The sectors in the cache are those of the disk. *)
Definition sane (w : fs) : Prop := forall n s, fatPageCache w !! n = Some s -> s = sector (startLba v + reserved + n).
Definition disk_error (e : Z) : Prop := e <> 0 /\ exists k lba n, Read k lba n = inl e.
(** The call ends with the result [x] and the label [lab], or with an error of the
    disk. *)
Definition gives {A} (m : io A) (w : fs) (x : A) (lab : option (list Z)) : Prop :=
  exists r w', m w = Ok (r, w') /\ sane w' /\ ((r = inr x /\ volumeLabel w' = lab) \/ exists e, r = inl e /\ disk_error e).

Lemma gives_bind {A B} (m : io A) (f : A -> io B) w x y lab lab' :
  gives m w x lab -> (forall w', sane w' -> volumeLabel w' = lab -> gives (f x) w' y lab') -> gives (io_bind m f) w y lab'.
Proof.
  intros (r & w' & E & S & H) Hf. unfold gives, io_bind, mbind, st_bind. rewrite E. destruct H as [[-> L]|(e & -> & D)]; [by apply Hf|].
  exists (inl e), w'. split; [done|]. split; [done|]. right. by exists e.
Qed.
(** A step that cannot fail. *)
Lemma gives_step {A B} (m : st fs A) (f : A -> io B) w w' a y lab : m w = Ok (a, w') -> gives (f a) w' y lab -> gives (m ≫= f) w y lab.
Proof. intros E H. unfold gives, mbind, st_bind. by rewrite E. Qed.
Lemma gives_ok {A} (x : A) w : sane w -> gives (io_ok x) w x (volumeLabel w).
Proof. intros S. exists (inr x), w. split; [done|]. split; [done|]. by left. Qed.
Lemma disk_read_gives lba n w : sane w -> gives (disk_read Read lba n) w (sectors sector lba n) (volumeLabel w).
Proof.
  intros S. eexists _, _. split; [reflexivity|]. split; [exact S|]. destruct (HR (requests w) lba n) as [->|(e & He & Er)]; [by left|].
  right. exists e. split; [done|]. split; [done|]. by exists (requests w), lba, n.
Qed.

Lemma valid_lba c : valid c -> clusterToLba v c = startLba v + firstDataSector v + (c - 2) * per_cluster.
Proof.
  intros [H1 H2]. destruct G as [? _ Hs Hl _ Hc _]. unfold clusterToLba.
  assert (0 <= (c - 2) * per_cluster < 2 ^ 32) by nia.
  assert (is_u 32 (c - 2)) by (unfold is_u; nia). unfold u32, u64. rewrite (wrap_small 32 (c - 2)), (wrap_small 32) by (done || mlia). apply wrap_small. mlia.
Qed.
Lemma readCluster_gives c w : valid c -> sane w -> gives (readCluster Read v c 0) w (cluster_data c) (volumeLabel w).
Proof. intros Hc S. unfold readCluster. cbn. rewrite valid_lba by done. by apply disk_read_gives. Qed.
Lemma fat_sector_gives n w : 0 <= n < tableSize32 (bpb32 v) -> sane w -> gives (fat_sector Read v n) w (sector (startLba v + reserved + n)) (volumeLabel w).
Proof.
  intros Hn S. unfold fat_sector. eapply gives_step; [reflexivity|]. destruct (fatPageCache w !! n) as [s|] eqn:E; [rewrite <- (S _ _ E); by apply gives_ok|].
  eapply gives_bind.
  - unfold readFat. rewrite (proj2 (Z.leb_gt _ n)) by lia. apply disk_read_gives. exact S.
  - intros w' S' L. destruct G as [? _ _ Hl Ht _ _]. assert (u64 (startLba v + reserved + n) = startLba v + reserved + n) as -> by (apply wrap_small; mlia).
    assert (forall lba, sectors sector lba 1 = sector lba) as -> by (intros; unfold sectors; change (sector (0 + lba) ++ [] = sector lba); by rewrite app_nil_r).
    eapply gives_step; [reflexivity|]. eexists _, _. split; [reflexivity|]. split; [|by left].
    intros m s. cbn. destruct (decide (m = n)) as [->|Hne]; [rewrite lookup_insert_eq; congruence|rewrite lookup_insert_ne by done; apply S'].
Qed.
Definition next_of (c : Z) (cs : list Z) : Z * bool := match cs with d :: _ => (d, false) | [] => (c, true) end.
Lemma chain_head c cs : chain c cs -> exists cs', cs = c :: cs' /\ valid c.
Proof. intros H. inversion H; subst; eauto. Qed.
Lemma getNextCluster_gives c cs w : chain c (c :: cs) -> sane w -> gives (getNextCluster Read v c) w (next_of c cs) (volumeLabel w).
Proof.
  intros Hc S. destruct (chain_head _ _ Hc) as (? & _ & Hv). pose proof Hv as [Hv1 Hv2]. destruct G as [Gb Ge Gs Gl Gt Gc Gn].
  assert (c .& 0x0FFFFFFF = c) as Ec. { change 0x0FFFFFFF with (Z.ones 28). rewrite Z.land_ones by lia. apply Z.mod_small. mlia. }
  unfold getNextCluster. rewrite Ec. assert (u32 (c * 4) = c * 4) as -> by (apply wrap_small; mlia).
  assert (bps mod 4 = 0) as G4 by (Z.div_mod_to_equations; lia).
  eapply gives_step; [unfold slift, udiv; by rewrite (proj2 (Z.eqb_neq bps 0)) by lia|].
  eapply gives_bind; [apply fat_sector_gives; [Z.div_mod_to_equations; nia|done]|]. intros w' S' L.
  assert (0 <= c * 4 mod bps /\ c * 4 mod bps + 4 <= bps) as Ho.
  { split; [apply Z.mod_pos_bound; lia|]. pose proof (Z.mod_pos_bound (c * 4) bps ltac:(lia)).
    assert (bps = bps / 4 * 4) as E4 by (Z.div_mod_to_equations; lia). assert (c * 4 mod bps = c mod (bps / 4) * 4) as E; [|lia].
    rewrite E4 at 1. apply Z.mul_mod_distr_r; lia. }
  eapply gives_step; [unfold slift, fld; by rewrite decide_True by (rewrite Gn; lia)|]. fold (fat_entry c).
  rewrite <- L. inversion Hc as [? Hv' He|? d ? Hv' He Hd]; subst.
  - rewrite (proj2 (Z.ltb_ge (fat_entry c) _)) by lia. by apply gives_ok.
  - destruct (chain_head _ _ Hd) as (cs' & -> & Hdv). destruct Hdv. rewrite (proj2 (Z.ltb_lt (fat_entry c) _)) by lia.
    assert (fat_entry c .& 0x0FFFFFFF = fat_entry c) as ->. { change 0x0FFFFFFF with (Z.ones 28). rewrite Z.land_ones by lia. apply Z.mod_small. mlia. }
    by apply gives_ok.
Qed.

(** ** Reading files *)

Local Notation bpc := (bytesPerCluster v).
Lemma sectors_length lba n : 0 <= n -> Z.of_nat (length (sectors sector lba n)) = n * bps.
Proof.
  intros Hn. unfold sectors. assert (forall l, Z.of_nat (length (mjoin (sector <$> l))) = Z.of_nat (length l) * bps) as ->; [|by rewrite length_seqZ, Z2Nat.id].
  destruct G as [Gb _ _ _ _ _ Gn]. intros l. induction l as [|x l IH]; [done|]. change (mjoin (sector <$> x :: l)) with (sector x ++ mjoin (sector <$> l)).
  rewrite length_app, Gn, Nat2Z.inj_add, IH. cbn [length]. lia.
Qed.
Lemma cluster_length c : Z.of_nat (length (cluster_data c)) = bpc.
Proof. unfold cluster_data, bytesPerCluster. destruct G. rewrite sectors_length; lia. Qed.
Lemma content_length cs : Z.of_nat (length (content cs)) = Z.of_nat (length cs) * bpc.
Proof.
  induction cs as [|c cs IH]; [done|]. change (content (c :: cs)) with (cluster_data c ++ content cs).
  rewrite length_app, Nat2Z.inj_add, IH, cluster_length. cbn [length]. lia.
Qed.
Lemma bpc_range : 0 < bpc < 2 ^ 24.
Proof. unfold bytesPerCluster. destruct G. nia. Qed.

Lemma chain_drop n : forall c cs d, chain c cs -> cs !! n = Some d -> chain d (drop n cs).
Proof.
  induction n as [|n IH]; intros c cs d Hc Hd; inversion Hc as [? Hv He|? d' cs' Hv He Hd']; subst; cbn in *; simplify_eq; try done.
  by apply (IH _ _ _ Hd').
Qed.
Lemma skip_gives n : forall c cs d w, chain c cs -> cs !! n = Some d -> sane w -> gives (skip_clusters Read n v c false) w d (volumeLabel w).
Proof.
  induction n as [|n IH]; intros c cs d w Hc Hd S; destruct (chain_head _ _ Hc) as (cs' & -> & _); cbn in Hd.
  - simplify_eq. by apply gives_ok.
  - cbn [skip_clusters]. eapply gives_bind; [by apply getNextCluster_gives|]. intros w' S' L. inversion Hc as [? Hv He|? d' ? Hv He Hd']; subst; [done|].
    destruct (chain_head _ _ Hd') as (cs'' & -> & _). cbn. rewrite <- L. by eapply IH.
Qed.

(** The call ends with the bytes [x] or with an error of the disk. *)
Definition reads (m : st fs (Z * list Z)) (w : fs) (x : list Z) : Prop :=
  exists err buf w', m w = Ok ((err, buf), w') /\ sane w' /\ ((err = 0 /\ buf = x) \/ disk_error err).
Lemma reads_bind {A} (m : io A) (f : A -> st fs (Z * list Z)) buf w x y lab :
  gives m w x lab -> (forall w', sane w' -> reads (f x) w' y) ->
  reads (r ← m; match r with inl err => mret (err, buf) | inr a => f a end) w y.
Proof.
  intros (r & w' & E & S & H) Hf. unfold reads, mbind, st_bind. rewrite E. destruct H as [[-> L]|(e & -> & D)]; [by apply Hf|].
  exists e, buf, w'. split; [done|]. split; [done|]. by right.
Qed.
Lemma reads_step {A} (m : st fs A) (f : A -> st fs (Z * list Z)) w a y : m w = Ok (a, w) -> reads (f a) w y -> reads (m ≫= f) w y.
Proof. intros E H. unfold reads, mbind, st_bind. by rewrite E. Qed.
Lemma reads_ok buf w : sane w -> reads (mret (0, buf)) w buf.
Proof. intros S. exists 0, buf, w. split; [done|]. split; [done|]. by left. Qed.

Lemma read_loop_reads fuel : forall c cs off left buf w,
  chain c cs -> sane w -> 0 <= off -> 0 <= left -> off + left < 2 ^ 64 -> (Z.to_nat left < fuel)%nat ->
  off mod bpc + left <= Z.of_nat (length (content cs)) ->
  reads (read_loop Read fuel v c off left buf) w (buf ++ take (Z.to_nat left) (drop (Z.to_nat (off mod bpc)) (content cs))).
Proof.
  pose proof bpc_range as Hb. induction fuel as [|fuel IH]; intros c cs off left buf w Hc S Ho Hl Hw Hf Hlen; [lia|]. cbn [read_loop].
  destruct (Z.eqb_spec left 0) as [->|Hne]; [rewrite app_nil_r; by apply reads_ok|].
  destruct (chain_head _ _ Hc) as (cs' & -> & Hv). pose proof (Z.mod_pos_bound off bpc ltac:(lia)) as Hm. set (o := off mod bpc) in *.
  change (content (c :: cs')) with (cluster_data c ++ content cs') in *. pose proof (cluster_length c) as Lc.
  assert (u64 (bpc - o) = bpc - o) as -> by (apply wrap_small; mlia). set (n := Z.min left (bpc - o)). assert (0 < n <= left /\ n <= bpc - o) as Hn by lia.
  eapply reads_bind; [by apply readCluster_gives|]. intros w1 S1.
  eapply reads_step; [unfold slift, sub_range; by rewrite (proj2 (Z.leb_le (o + n) _)) by lia|].
  assert (u64 (left - n) = left - n) as -> by (apply wrap_small; mlia). assert (u64 (off + n) = off + n) as -> by (apply wrap_small; mlia).
  assert (take (Z.to_nat n) (drop (Z.to_nat o) (cluster_data c)) = take (Z.to_nat n) (drop (Z.to_nat o) (cluster_data c ++ content cs'))) as Ep.
  { rewrite drop_app_le, take_app_le by (rewrite ?length_drop; lia). done. }
  rewrite Ep. destruct (Z.eqb_spec (left - n) 0) as [E0|E0]; [assert (n = left) as -> by lia; by apply reads_ok|].
  assert (n = bpc - o) as En by lia. assert ((off + n) mod bpc = 0) as Eo.
  { rewrite En. replace (off + (bpc - o)) with ((off / bpc + 1) * bpc) by (unfold o; rewrite (Z.mod_eq off bpc) by lia; lia). apply Z.mod_mul. lia. }
  rewrite length_app in Hlen. inversion Hc as [? Hv' He|? d ? Hv' He Hd]; subst; [cbn in Hlen; lia|]. destruct (chain_head _ _ Hd) as (cs'' & -> & _).
  eapply reads_bind; [by apply getNextCluster_gives|]. intros w2 S2. cbn [next_of].
  match goal with |- reads (read_loop _ _ _ _ _ ?l ?b) _ (?b0 ++ ?t) => assert (b0 ++ t = b ++ take (Z.to_nat l) (drop (Z.to_nat ((off + n) mod bpc)) (content (fat_entry c :: cs'')))) as -> end.
  { rewrite <- app_assoc. f_equal. rewrite Eo, drop_0. rewrite drop_app_le by lia. set (x := drop (Z.to_nat o) (cluster_data c)).
    assert (length x = Z.to_nat n) as Lx by (unfold x; rewrite length_drop; lia).
    rewrite !take_app, Lx, (take_ge x), (take_ge x) by lia. replace (Z.to_nat n - Z.to_nat n)%nat with 0%nat by lia. rewrite take_0, app_nil_r. do 2 f_equal. lia. }
  apply IH; [done|done|lia|lia|lia|lia|lia].
Qed.

(** The clusters [cs] hold a file of the size in [f]; an empty file has none. *)
Definition file_on (f : File) (cs : list Z) : Prop :=
  0 <= f_size f < 2 ^ 32 /\ f_size f <= Z.of_nat (length (content cs)) /\ (f_size f <> 0 -> chain (f_cluster f) cs).
Definition file_bytes (f : File) (cs : list Z) : list Z := take (Z.to_nat (f_size f)) (content cs).
Lemma content_drop n cs : drop (n * Z.to_nat bpc) (content cs) = content (drop n cs).
Proof.
  pose proof bpc_range. revert cs. induction n as [|n IH]; intros cs; [done|]. destruct cs as [|c cs]; [apply drop_nil|].
  change (content (c :: cs)) with (cluster_data c ++ content cs). pose proof (cluster_length c).
  cbn [drop]. rewrite <- IH. replace (S n * Z.to_nat bpc)%nat with (length (cluster_data c) + n * Z.to_nat bpc)%nat by lia. by rewrite drop_app_add.
Qed.
Lemma read_reads f cs offset numBytes w : file_on f cs -> sane w -> 0 <= offset < 2 ^ 64 -> 0 <= numBytes < 2 ^ 64 ->
  reads (read Read v f offset numBytes) w (take (Z.to_nat numBytes) (drop (Z.to_nat offset) (file_bytes f cs))).
Proof.
  intros (Hs & Hl & Hc) S Ho Hn. unfold read. pose proof bpc_range as Hb.
  destruct (Z.eqb_spec numBytes 0) as [->|Hn0]; [by apply reads_ok|].
  destruct (Z.leb_spec (f_size f) offset) as [Hge|Hlt].
  { rewrite drop_ge by (unfold file_bytes; rewrite length_take; lia). rewrite take_nil. by apply reads_ok. }
  specialize (Hc ltac:(lia)). eapply reads_step; [unfold slift, udiv; by rewrite (proj2 (Z.eqb_neq bpc 0)) by lia|].
  pose proof (Z.mod_pos_bound offset bpc ltac:(lia)) as Hm. pose proof (Z.div_mod offset bpc ltac:(lia)) as Hd. rewrite content_length in Hl.
  assert (0 <= offset / bpc) by (apply Z.div_pos; lia).
  set (q := Z.to_nat (offset / bpc)). assert (q < length cs)%nat as Hq by nia. destruct (lookup_lt_is_Some_2 _ _ Hq) as [d Hd'].
  eapply reads_bind; [by eapply skip_gives|]. intros w' S'. set (n := Z.min (f_size f - offset) numBytes).
  assert (take (Z.to_nat numBytes) (drop (Z.to_nat offset) (file_bytes f cs)) = [] ++ take (Z.to_nat n) (drop (Z.to_nat (offset mod bpc)) (content (drop q cs)))) as ->.
  { unfold file_bytes. rewrite <- content_drop, drop_drop.
    replace (q * Z.to_nat bpc + Z.to_nat (offset mod bpc))%nat with (Z.to_nat offset)
      by (unfold q; rewrite <- Z2Nat.inj_mul, <- Z2Nat.inj_add by (lia || nia); f_equal; lia).
    replace (Z.to_nat (f_size f)) with (Z.to_nat offset + Z.to_nat (f_size f - offset))%nat by lia. rewrite <- take_drop_commute, take_take. cbn [app]. f_equal. lia. }
  apply read_loop_reads; [by eapply chain_drop|done|lia|lia|lia|lia|]. rewrite content_length, length_drop. nia.
Qed.

(** C22: reading an open file.  For a file whose size is covered by its chain of
    clusters, a read of [numBytes] bytes at [offset] ends, never reads outside a
    buffer and never stops the server; it returns exactly those bytes of the file
    that there are, whether they lie in one cluster or in many and whether the
    allocation table is in the cache or not, or the error code of a request that
    the disk has refused.  The cache still agrees with the disk. *)
Theorem file_read_spec f cs offset numBytes w :
  file_on f cs -> sane w -> 0 <= offset < 2 ^ 64 -> 0 <= numBytes < 2 ^ 64 ->
  exists err buf w', read Read v f offset numBytes w = Ok ((err, buf), w') /\ sane w' /\
    (err = 0 /\ buf = take (Z.to_nat numBytes) (drop (Z.to_nat offset) (file_bytes f cs)) \/
     err <> 0 /\ exists k lba n, Read k lba n = inl err).
Proof. intros Hf Hw Ho Hn. destruct (read_reads f cs offset numBytes w Hf Hw Ho Hn) as (err & buf & w' & E & S & H). by exists err, buf, w'. Qed.
End Volume.

(** ** Names *)

(** A string without the spaces at its end. *)
Fixpoint rstrip (l : list Z) : list Z :=
  match l with
  | [] => []
  | x :: l => match rstrip l with [] => if x =? 32 then [] else [x] | r => x :: r end
  end.
Lemma find_last_rstrip l : find_last_not_of 32 l = match rstrip l with [] => None | _ :: r => Some (length r) end.
Proof. induction l as [|x l IH]; [done|]. cbn. rewrite IH. destruct (rstrip l) as [|y r]; [by destruct (x =? 32)|done]. Qed.
Lemma rstrip_prefix l : take (length (rstrip l)) l = rstrip l.
Proof. induction l as [|x l IH]; [done|]. cbn. destruct (rstrip l) as [|y r]; [by destruct (x =? 32)|]. cbn in *. by rewrite IH. Qed.
Lemma trim_rstrip l : rstrip l <> [] -> TrimTrailingWhitespace l = rstrip l.
Proof.
  intros Hne. unfold TrimTrailingWhitespace. rewrite find_last_rstrip. pose proof (rstrip_prefix l) as Hp.
  destruct (rstrip l) as [|x r] eqn:E; [done|]. cbn [length] in Hp. case_decide; [by rewrite Nat.add_1_r|]. by rewrite take_ge in Hp by lia.
Qed.
Lemma rstrip_app a b : rstrip b <> [] -> rstrip (a ++ b) = a ++ rstrip b.
Proof. intros Hb. induction a as [|x a IH]; [done|]. cbn. rewrite IH. by destruct a; destruct (rstrip b). Qed.
Lemma rstrip_last l x : x <> 32 -> rstrip (l ++ [x]) = l ++ [x].
Proof. intros Hx. assert (rstrip [x] = [x]) as E by (cbn; by rewrite (proj2 (Z.eqb_neq x 32))). rewrite rstrip_app; rewrite E; done. Qed.
Lemma rstrip_cons x l : x <> 32 -> rstrip (x :: l) = x :: rstrip l.
Proof. intros Hx. cbn. destruct (rstrip l); [|done]. by rewrite (proj2 (Z.eqb_neq x 32)). Qed.

(** The name of an entry without a long name: the base, and a dot and the extension
    if there is one. *)
Definition name83 (e : list Z) : list Z :=
  rstrip (ent_name e) ++ (if decide (ent_extension e = [32; 32; 32]) then [] else 46 :: rstrip (ent_extension e)).
Lemma short_name_83 e : at8 e 0 <> 32 -> (at8 e 0 = 46 -> ent_extension e = [32; 32; 32]) -> (0 < length e)%nat -> short_name e = name83 e.
Proof.
  intros Hs Hd He. destruct e as [|x e]; [cbn in He; lia|]. assert (at8 (x :: e) 0 = x) as E0 by done. rewrite E0 in *.
  assert (rstrip (ent_name (x :: e)) <> []) as Hb by (unfold ent_name; cbn [take]; by rewrite rstrip_cons). unfold short_name, name83. rewrite E0. case_decide as Hx.
  - by rewrite app_nil_r, trim_rstrip.
  - rewrite (proj2 (Z.eqb_neq x 46)) by tauto. rewrite (trim_rstrip (ent_name _)), <- app_assoc by done.
    assert (rstrip ([46] ++ ent_extension (x :: e)) = 46 :: rstrip (ent_extension (x :: e))) as Er by (apply rstrip_cons; lia).
    rewrite trim_rstrip; rewrite rstrip_app; rewrite Er; try done. by destruct (rstrip (ent_name (x :: e))).
Qed.

Definition utf8 (c : Z) : list Z :=
  if c <? 0x80 then [c] else if c <? 0x800 then [192 + c / 64; 128 + c mod 64]
  else [224 + c / 4096; 128 + (c / 64) mod 64; 128 + c mod 64].
(** A character of the basic plane. *)
Definition bmp (c : Z) : Prop := 0 < c < 0x10000 /\ (c < 0xD800 \/ 0xE000 <= c).
Lemma ucs2_utf8 l rest str : Forall bmp l -> rest = [] \/ head rest = Some 0 -> ucs2_loop (l ++ rest) str = str ++ mjoin (utf8 <$> l).
Proof.
  intros Hl Hr. revert str. induction Hl as [|c l [Hc Hs] _ IH]; intros str.
  - rewrite app_nil_r. destruct Hr as [->|Hr]; [done|]. destruct rest as [|x rest]; [done|]. cbn in Hr. by simplify_eq.
  - cbn [app ucs2_loop]. change (mjoin (utf8 <$> c :: l)) with (utf8 c ++ mjoin (utf8 <$> l)). rewrite (proj2 (Z.eqb_neq c 0)) by lia. unfold utf8 at 1.
    destruct (Z.ltb_spec c 0x80); [by rewrite IH, <- app_assoc|].
    destruct (Z.ltb_spec c 0x800).
    { rewrite IH, <- app_assoc. do 2 f_equal. unfold u8. rewrite !wrap_small by (pow_norm; unfold is_u; Z.div_mod_to_equations; lia). done. }
    assert (u32 (c - 0xd800) <? 0x800 = false) as ->.
    { apply Z.ltb_ge. unfold u32, wrap. pow_norm. Z.div_mod_to_equations. lia. }
    rewrite IH, <- app_assoc. do 2 f_equal. unfold u8. rewrite !wrap_small by (pow_norm; unfold is_u; Z.div_mod_to_equations; lia). done.
Qed.

(** The checksum of the specification: rotate right, add. *)
Definition name_checksum (e : list Z) : Z := foldl (fun s b => (s / 2 + 128 * (s mod 2) + b) mod 256) 0 (take 11 e).
Lemma checksum_spec e : CalculateShortNameChecksum e = name_checksum e.
Proof.
  unfold CalculateShortNameChecksum, name_checksum. generalize 0. induction (take 11 e) as [|b l IH]; intros s; [done|]. cbn [foldl]. rewrite <- IH. f_equal.
  unfold checksum_step, u8, wrap. change (2 ^ 8) with 256. rewrite Z.bit0_odd, Zmod_odd, Z.shiftr_div_pow2 by lia. change (2 ^ 1) with 2. f_equal. destruct (Z.odd s); lia.
Qed.

(** ** Directories on the disk

    A long name is stored in pieces of 13 characters in entries before the one of
    the file, the last piece first. *)
Definition pad (name : list Z) : list Z :=
  name ++ (if decide (length name mod 13 = 0)%nat then [] else 0 :: replicate (12 - length name mod 13) 0xFFFF).
Definition piece (name : list Z) (i : nat) : list Z := take 13 (drop (13 * i) (pad name)).
Definition num_pieces (name : list Z) : nat := (length (pad name) / 13)%nat.
Definition le2 (c : Z) : list Z := [c mod 256; c / 256].
Definition lfn_slot (ck order : Z) (cs : list Z) : list Z :=
  [order] ++ mjoin (le2 <$> take 5 cs) ++ [15; 0; ck] ++ mjoin (le2 <$> take 6 (drop 5 cs)) ++ [0; 0] ++ mjoin (le2 <$> drop 11 cs).
(** The pieces [i - 1] to 0. *)
Fixpoint lfn_below (name : list Z) (ck : Z) (i : nat) : list (list Z) :=
  match i with O => [] | S i => lfn_slot ck (Z.of_nat (S i)) (piece name i) :: lfn_below name ck i end.
Definition lfn_slots (name : list Z) (ck : Z) : list (list Z) :=
  match num_pieces name with
  | O => []
  | S i => lfn_slot ck (64 + Z.of_nat (S i)) (piece name i) :: lfn_below name ck i
  end.

(** The parts of a directory: free entries, the label of the volume, files and
    directories with a short or a long name. *)
Inductive item := IFree (e : list Z) | ILabel (e : list Z) | IShort (e : list Z) | ILong (name e : list Z).
Definition slots (it : item) : list (list Z) :=
  match it with
  | IFree e | ILabel e | IShort e => [e]
  | ILong name e => lfn_slots name (name_checksum e) ++ [e]
  end.
Definition free (e : list Z) : Prop := at8 e 0 = 0 \/ at8 e 0 = 0xE5.
Definition good_name (name : list Z) : Prop :=
  name <> [] /\ (length name <= 255)%nat /\ Forall bmp name /\ last name <> Some 32.
Definition item_ok (isRoot : bool) (it : item) : Prop :=
  match it with
  | IFree e => length e = 32%nat /\ free e
  | ILabel e => length e = 32%nat /\ ~ free e /\ ent_type e <> LongFileName /\ ent_type e .& VolumeId <> 0 /\ isRoot = true
  | IShort e => length e = 32%nat /\ ~ free e /\ ent_type e .& VolumeId = 0 /\ at8 e 0 <> 32 /\ (at8 e 0 = 46 -> ent_extension e = [32; 32; 32])
  | ILong name e => length e = 32%nat /\ ~ free e /\ ent_type e .& VolumeId = 0 /\ good_name name
  end.
Definition item_entry (it : item) : list DirectoryEntry :=
  match it with
  | IFree _ | ILabel _ => []
  | IShort e => [new_entry e (name83 e) false]
  | ILong name e => [new_entry e (mjoin (utf8 <$> name)) true]
  end.
Definition item_label (it : item) (l : option (list Z)) : option (list Z) :=
  match it with ILabel e => Some (TrimTrailingWhitespace (ent_name e ++ take 2 (ent_extension e))) | _ => l end.

(** The loop goes over the entries to their end. *)
Inductive walk (isRoot : bool) : list (list Z) -> scan -> scan -> Prop :=
| walk_nil s : walk isRoot [] s s
| walk_cons e es s s1 s2 : dir_entry isRoot e s = Ok (s1, false) -> walk isRoot es s1 s2 -> walk isRoot (e :: es) s s2.
Lemma walk_for isRoot es s s' : walk isRoot es s s' -> for_entries isRoot es s = Ok s'.
Proof. induction 1 as [|e es s s1 s2 E _ IH]; [done|]. cbn. by rewrite E. Qed.
Lemma walk_app isRoot es1 es2 s1 s2 s3 : walk isRoot es1 s1 s2 -> walk isRoot es2 s2 s3 -> walk isRoot (es1 ++ es2) s1 s3.
Proof. induction 1 as [|e es s s' s'' E _ IH]; intros H2; [done|]. econstructor; [done|]. by apply IH. Qed.
Lemma walk_split isRoot es1 es2 s1 s3 : walk isRoot (es1 ++ es2) s1 s3 -> exists s2, walk isRoot es1 s1 s2 /\ walk isRoot es2 s2 s3.
Proof.
  revert s1. induction es1 as [|e es1 IH]; intros s1 H; [exists s1; split; [constructor|done]|]. inversion H as [|? ? ? s' ? E H']; subst.
  destruct (IH _ H') as (s2 & H1 & H2). exists s2. split; [by econstructor|done].
Qed.

(** *** Long names *)
Lemma le2_word c : 0 <= c < 0x10000 -> le_word (le2 c) = c.
Proof. intros Hc. unfold le2. rewrite !le_word_cons by (unfold byte; Z.div_mod_to_equations; lia). cbn. Z.div_mod_to_equations. lia. Qed.
Lemma length_13 (l : list Z) : length l = 13%nat -> exists a b c d e f g h i j k m n, l = [a; b; c; d; e; f; g; h; i; j; k; m; n].
Proof. intros H. do 13 (destruct l as [|? l]; [discriminate H|]). destruct l; [|discriminate H]. by do 13 eexists. Qed.
Lemma lfn_slot_fields ck order cs : length cs = 13%nat -> Forall (fun c => 0 <= c < 0x10000) cs ->
  let e := lfn_slot ck order cs in
  at8 e 0 = order /\ ent_type e = LongFileName /\ lfn_checksum e = ck /\ chars1 e = take 5 cs /\ chars2 e = take 6 (drop 5 cs) /\ chars3 e = drop 11 cs.
Proof.
  intros Hl Hc e. apply length_13 in Hl as (a & b & c & d & f & g & h & i & j & k & m & n & o & ->). repeat apply Forall_cons in Hc as [? Hc].
  split; [done|]. split; [done|]. split; [done|]. unfold e, chars1, chars2, chars3, lfn_slot. cbn -[le_word Z.modulo Z.div].
  repeat match goal with |- context [le_word [?x mod 256; ?x / 256]] => change (le_word [x mod 256; x / 256]) with (le_word (le2 x)); rewrite (le2_word x) by done end. by repeat split.
Qed.
Lemma copy_mid A B C off cs : off = Z.of_nat (length A) -> length cs = length B -> copy_chars (A ++ B ++ C) off cs = Ok (A ++ cs ++ C).
Proof.
  intros -> Hl. unfold copy_chars. rewrite (proj2 (Z.leb_le 0 _)) by lia. cbn [andb]. rewrite (proj2 (Z.leb_le (_ + _) _)) by (rewrite !length_app; lia). rewrite Nat2Z.id. f_equal.
  by rewrite <- (Nat.add_0_r (length A)), list_inserts_app_r, list_inserts_0_r.
Qed.
(** A piece goes to its place in the buffer. *)
Lemma add_chars_ok e i cs A B C t ck n :
  lfn_order e = Z.of_nat (S i) -> chars1 e = take 5 cs -> chars2 e = take 6 (drop 5 cs) -> chars3 e = drop 11 cs ->
  length cs = 13%nat -> length A = (13 * i)%nat -> length B = 13%nat ->
  add_chars e (Lfn t ck n (A ++ B ++ C)) = Ok (Lfn t ck (u8 (n + 1)) (A ++ cs ++ C)).
Proof.
  intros Ho E1 E2 E3 Hl HA HB. unfold add_chars. rewrite Ho, E1, E2, E3. cbn [charBuf totalEntries shortNameChecksum readEntries].
  rewrite <- (take_drop 5 B), <- (take_drop 6 (drop 5 B)), drop_drop. change (5 + 6)%nat with 11%nat.
  replace ((Z.of_nat (S i) - 1) * 13) with (Z.of_nat (length A)) by lia.
  rewrite <- !app_assoc, copy_mid by (rewrite ?length_take, ?length_drop; lia). cbn [mbind res_bind].
  rewrite (app_assoc A), copy_mid by (rewrite ?length_app, ?length_take, ?length_drop; lia). cbn [mbind res_bind].
  rewrite (app_assoc _ (take 6 (drop 5 cs))), copy_mid by (rewrite ?length_app, ?length_take, ?length_drop; lia). cbn [mbind res_bind].
  do 2 f_equal. rewrite <- !app_assoc. f_equal. rewrite !app_assoc. f_equal. rewrite <- app_assoc.
  rewrite <- (take_drop 5 cs) at 4. f_equal. rewrite <- (take_drop 6 (drop 5 cs)) at 2. by rewrite drop_drop.
Qed.
Lemma pad_length name : length (pad name) = (13 * num_pieces name)%nat.
Proof.
  unfold num_pieces. assert (length (pad name) mod 13 = 0)%nat as H; [|pose proof (Nat.div_mod_eq (length (pad name)) 13); lia].
  unfold pad. rewrite length_app. case_decide as H; [cbn; by rewrite Nat.add_0_r|]. cbn [length]. rewrite length_replicate.
  pose proof (Nat.div_mod_eq (length name) 13) as E. pose proof (Nat.mod_upper_bound (length name) 13 ltac:(lia)).
  replace (length name + S (12 - length name mod 13))%nat with ((length name / 13 + 1) * 13)%nat by lia. apply Nat.Div0.mod_mul.
Qed.
Lemma num_pieces_range name : good_name name -> (1 <= num_pieces name <= 20)%nat.
Proof.
  intros (Hne & Hl & _). pose proof (pad_length name) as E. unfold pad in E. rewrite length_app in E.
  pose proof (Nat.mod_upper_bound (length name) 13 ltac:(lia)). destruct name as [|c name]; [done|]. cbn [length] in *. case_decide; cbn [length] in E; rewrite ?length_replicate in E; lia.
Qed.
Lemma piece_length name i : (i < num_pieces name)%nat -> length (piece name i) = 13%nat.
Proof. intros H. unfold piece. rewrite length_take, length_drop, pad_length. lia. Qed.
Lemma pad_chars name : good_name name -> Forall (fun c => 0 <= c < 0x10000) (pad name).
Proof.
  intros (_ & _ & Hb & _). unfold pad. apply Forall_app. split; [eapply Forall_impl; [exact Hb|]; intros c [? _]; lia|].
  case_decide; [constructor|]. constructor; [lia|]. apply Forall_replicate. lia.
Qed.
Lemma pad_split name i : (i < num_pieces name)%nat -> drop (13 * i) (pad name) = piece name i ++ drop (13 * S i) (pad name).
Proof. intros H. unfold piece. rewrite <- (take_drop 13 (drop (13 * i) (pad name))) at 1. rewrite drop_drop. do 2 f_equal. lia. Qed.

(** What the loop has collected of a long name whose first [i] pieces are missing. *)
Definition partial (name : list Z) (ck : Z) (i : nat) : LfnInfo :=
  Lfn (Z.of_nat (num_pieces name)) ck (Z.of_nat (num_pieces name - i)) (replicate (13 * i) 0x20 ++ drop (13 * i) (pad name)).
Lemma slot_entry isRoot ck order cs s s' : length cs = 13%nat -> Forall (fun c => 0 <= c < 0x10000) cs -> 0 < order < 128 ->
  lfn_entry (lfn_slot ck order cs) s = Ok s' -> dir_entry isRoot (lfn_slot ck order cs) s = Ok (s', false).
Proof.
  intros Hl Hc Ho E. destruct (lfn_slot_fields ck order cs Hl Hc) as (E0 & Et & _). unfold dir_entry. rewrite E0, Et, E.
  rewrite (proj2 (Z.eqb_neq order 0)), (proj2 (Z.eqb_neq order 0xE5)) by lia. done.
Qed.
Lemma order_bits i : (1 <= i <= 20)%nat -> Z.of_nat i .& 63 = Z.of_nat i /\ Z.testbit (Z.of_nat i) 6 = false /\
  (64 + Z.of_nat i) .& 63 = Z.of_nat i /\ Z.testbit (64 + Z.of_nat i) 6 = true.
Proof. intros H. do 21 (destruct i as [|i]; [first [lia|done]|]). lia. Qed.
Lemma partial_step name ck i e n : good_name name -> (i < num_pieces name)%nat ->
  lfn_order e = Z.of_nat (S i) -> chars1 e = take 5 (piece name i) -> chars2 e = take 6 (drop 5 (piece name i)) -> chars3 e = drop 11 (piece name i) ->
  n = Z.of_nat (num_pieces name - S i) ->
  add_chars e (Lfn (Z.of_nat (num_pieces name)) ck n (replicate (13 * S i) 0x20 ++ drop (13 * S i) (pad name))) = Ok (partial name ck i).
Proof.
  intros Hg Hi Ho E1 E2 E3 ->. pose proof (num_pieces_range _ Hg) as Hk. replace (13 * S i)%nat with (13 * i + 13)%nat at 1 by lia. rewrite replicate_add, <- app_assoc.
  rewrite (add_chars_ok e i (piece name i)) by (rewrite ?length_replicate; try done; by apply piece_length). unfold partial. rewrite (pad_split name i) by done. do 2 f_equal.
  unfold u8. rewrite wrap_small by mlia. lia.
Qed.
Lemma walk_below isRoot name ck i es lab : good_name name -> (i < num_pieces name)%nat ->
  walk isRoot (lfn_below name ck i) (Scan (Some (partial name ck i)) es lab) (Scan (Some (partial name ck 0)) es lab).
Proof.
  intros Hg. pose proof (num_pieces_range _ Hg) as Hk. induction i as [|i IH]; intros Hi; [constructor|]. cbn [lfn_below]. econstructor; [|apply IH; lia].
  assert (length (piece name i) = 13%nat) as Hl by (apply piece_length; lia).
  assert (Forall (fun c => 0 <= c < 0x10000) (piece name i)) as Hc by (apply Forall_take, Forall_drop, pad_chars; done).
  apply slot_entry; [done|done|lia|]. destruct (lfn_slot_fields ck (Z.of_nat (S i)) _ Hl Hc) as (E0 & _ & Ec & E1 & E2 & E3). destruct (order_bits (S i) ltac:(lia)) as (O1 & O2 & _).
  unfold lfn_entry, lastLfn. rewrite E0, O2. cbn [lfn res_of mbind res_bind]. change (shortNameChecksum (partial name ck (S i))) with ck. rewrite Ec, Z.eqb_refl. cbn [negb].
  assert (add_chars (lfn_slot ck (Z.of_nat (S i)) (piece name i)) (partial name ck (S i)) = Ok (partial name ck i)) as ->; [|done].
  apply partial_step; [done|lia|unfold lfn_order; by rewrite E0|done|done|done|done].
Qed.
Lemma walk_lfn isRoot name ck l0 es lab : good_name name -> walk isRoot (lfn_slots name ck) (Scan l0 es lab) (Scan (Some (partial name ck 0)) es lab).
Proof.
  intros Hg. pose proof (num_pieces_range _ Hg) as Hk. unfold lfn_slots. destruct (num_pieces name) as [|i] eqn:En; [lia|].
  assert (length (piece name i) = 13%nat) as Hl by (apply piece_length; lia).
  assert (Forall (fun c => 0 <= c < 0x10000) (piece name i)) as Hc by (apply Forall_take, Forall_drop, pad_chars; done).
  econstructor; [|apply walk_below; [done|lia]]. apply slot_entry; [done|done|lia|].
  destruct (lfn_slot_fields ck (64 + Z.of_nat (S i)) _ Hl Hc) as (E0 & _ & Ec & E1 & E2 & E3). destruct (order_bits (S i) ltac:(lia)) as (_ & _ & O1 & O2).
  unfold lfn_entry, lastLfn. rewrite E0, O2. assert (lfn_order (lfn_slot ck (64 + Z.of_nat (S i)) (piece name i)) = Z.of_nat (S i)) as Eo by (unfold lfn_order; by rewrite E0).
  rewrite Eo, Ec. pose proof (partial_step name ck i _ 0 Hg ltac:(lia) Eo E1 E2 E3 ltac:(lia)) as P. rewrite En in P.
  rewrite (drop_ge (pad name)), app_nil_r in P by (rewrite pad_length; lia). replace (Z.to_nat (13 * Z.of_nat (S i))) with (13 * S i)%nat by lia. by rewrite P.
Qed.

(** *** All parts of a directory *)
Lemma long_name_found e name ck es lab : good_name name -> ck = CalculateShortNameChecksum e ->
  long_name e (Scan (Some (partial name ck 0)) es lab) = Some (mjoin (utf8 <$> name), true) /\ mjoin (utf8 <$> name) <> [].
Proof.
  intros Hg ->. unfold long_name. cbn [lfn partial totalEntries readEntries shortNameChecksum charBuf]. rewrite Nat.sub_0_r, !Z.eqb_refl. cbn [negb].
  rewrite Nat.mul_0_r, drop_0. cbn [replicate app]. destruct Hg as (Hne & _ & Hb & Hlast).
  assert (ConvertUcs2ToUtf8 (pad name) = mjoin (utf8 <$> name)) as ->.
  { unfold ConvertUcs2ToUtf8, pad. rewrite ucs2_utf8; [done|done|]. case_decide; [by left|by right]. }
  destruct name as [|c name] using rev_ind; [done|]. clear IHname. rewrite last_snoc in Hlast. apply Forall_app in Hb as [_ Hc]. apply Forall_cons in Hc as [[Hc _] _].
  assert (exists b l, mjoin (utf8 <$> name ++ [c]) = l ++ [b] /\ b <> 32) as (b & l & -> & Hb').
  { rewrite fmap_app, join_app. change (mjoin (utf8 <$> [c])) with (utf8 c ++ []). rewrite app_nil_r. unfold utf8 at 2. repeat case_if.
    - exists c. eexists. split; [done|]. congruence.
    - exists (128 + c mod 64), (mjoin (utf8 <$> name) ++ [192 + c / 64]). split; [by rewrite <- app_assoc|]. Z.div_mod_to_equations; lia.
    - exists (128 + c mod 64), (mjoin (utf8 <$> name) ++ [224 + c / 4096; 128 + (c / 64) mod 64]). split; [by rewrite <- app_assoc|]. Z.div_mod_to_equations; lia. }
  rewrite trim_rstrip; rewrite rstrip_last by done; [split; [done|]|]; by destruct l.
Qed.
Lemma plain_entry isRoot e s : ~ free e -> ent_type e .& VolumeId = 0 -> dir_entry isRoot e s = Ok (file_entry e s).
Proof.
  intros Hf Ht. unfold dir_entry, free in *. rewrite (proj2 (Z.eqb_neq (at8 e 0) 0)), (proj2 (Z.eqb_neq (at8 e 0) 0xE5)) by tauto. cbn [orb].
  destruct (Z.eqb_spec (ent_type e) LongFileName) as [E|_]; [by rewrite E in Ht|]. by rewrite Ht.
Qed.
Lemma walk_item isRoot it es lab : item_ok isRoot it ->
  walk isRoot (slots it) (Scan None es lab) (Scan None (es ++ item_entry it) (item_label it lab)).
Proof.
  intros H. destruct it as [e|e|e|name e]; cbn [slots item_entry item_label item_ok] in *.
  - rewrite app_nil_r. econstructor; [|constructor]. destruct H as [_ H]. unfold dir_entry. by destruct H as [-> | ->].
  - rewrite app_nil_r. econstructor; [|constructor]. destruct H as (_ & Hf & Ht & Hv & ->). unfold dir_entry, free in *.
    rewrite (proj2 (Z.eqb_neq (at8 e 0) 0)), (proj2 (Z.eqb_neq (at8 e 0) 0xE5)), (proj2 (Z.eqb_neq (ent_type e) LongFileName)), (proj2 (Z.eqb_neq (ent_type e .& VolumeId) 0)) by tauto. done.
  - destruct H as (Hl & Hf & Ht & Hs & Hd). econstructor; [|constructor]. rewrite plain_entry by done. unfold file_entry. cbn. by rewrite short_name_83 by (done || lia).
  - destruct H as (Hl & Hf & Ht & Hg). eapply walk_app; [by apply walk_lfn|]. econstructor; [|constructor]. rewrite plain_entry by done. unfold file_entry.
    destruct (long_name_found e name (name_checksum e) es lab Hg) as [-> Hne]; [by rewrite checksum_spec|]. cbn. by destruct (mjoin (utf8 <$> name)).
Qed.
Definition dir_entries (its : list item) : list DirectoryEntry := mjoin (item_entry <$> its).
Definition dir_label (its : list item) (l : option (list Z)) : option (list Z) := foldl (fun l it => item_label it l) l its.
Lemma walk_items isRoot its es lab : Forall (item_ok isRoot) its ->
  walk isRoot (mjoin (slots <$> its)) (Scan None es lab) (Scan None (es ++ dir_entries its) (dir_label its lab)).
Proof.
  intros H. revert es lab. induction H as [|it its Hi _ IH]; intros es lab; [rewrite app_nil_r; constructor|].
  change (mjoin (slots <$> it :: its)) with (slots it ++ mjoin (slots <$> its)). eapply walk_app; [by apply walk_item|].
  change (dir_entries (it :: its)) with (item_entry it ++ dir_entries its). rewrite app_assoc. apply IH.
Qed.

(** The 32-byte entries of a buffer. *)
Lemma chunks_app n m a b : length a = (32 * n)%nat -> chunks (n + m) (a ++ b) = chunks n a ++ chunks m b.
Proof.
  revert a. induction n as [|n IH]; intros a Hl; [by destruct a|]. cbn [chunks Nat.add app].
  rewrite take_app_le, drop_app_le by lia. f_equal. apply IH. rewrite length_drop. lia.
Qed.
Lemma dirents_app a b : (length a mod 32 = 0)%nat -> dirents (a ++ b) = dirents a ++ dirents b.
Proof.
  intros Ha. unfold dirents. pose proof (Nat.div_mod_eq (length a) 32) as E. rewrite length_app. replace ((length a + length b) / 32)%nat with (length a / 32 + length b / 32)%nat.
  - apply chunks_app. lia.
  - replace (length a) with (length a / 32 * 32)%nat at 2 by lia. rewrite Nat.add_comm, (Nat.add_comm (_ * _)), Nat.div_add by lia. lia.
Qed.
Lemma dirents_slots es : Forall (fun e => length e = 32%nat) es -> dirents (mjoin es) = es.
Proof.
  induction 1 as [|e es He _ IH]; [done|]. change (mjoin (e :: es)) with (e ++ mjoin es). rewrite dirents_app by (by rewrite He). rewrite IH. unfold dirents. rewrite He. cbn.
  by rewrite take_ge by lia.
Qed.
Lemma slots_length isRoot it : item_ok isRoot it -> Forall (fun e => length e = 32%nat) (slots it).
Proof.
  destruct it as [e|e|e|name e]; cbn; intros H; [apply Forall_singleton; tauto..|]. destruct H as (Hl & _ & _ & Hg). apply Forall_app. split; [|by apply Forall_singleton].
  assert (forall ck o i, (i < num_pieces name)%nat -> length (lfn_slot ck o (piece name i)) = 32%nat) as Hs.
  { intros ck o i Hi. destruct (length_13 _ (piece_length name i Hi)) as (? & ? & ? & ? & ? & ? & ? & ? & ? & ? & ? & ? & ? & ->). done. }
  assert (forall ck i, (i <= num_pieces name)%nat -> Forall (fun e => length e = 32%nat) (lfn_below name ck i)) as Hb.
  { intros ck i. induction i as [|i IH]; intros Hi; constructor; [apply Hs; lia|apply IH; lia]. }
  unfold lfn_slots. destruct (num_pieces name) as [|i]; constructor; [apply Hs; lia|apply Hb; lia].
Qed.

(** ** Reading directories *)

Section Directories.
Context (Read : nat -> Z -> Z -> Z + list Z) (sector : Z -> list Z) (v : FAT).
Context (HR : serves Read sector) (G : geometry sector v).
Local Notation chain := (chain sector v).
Local Notation content := (content sector v).
Local Notation sane := (sane sector v).
Local Notation gives := (gives Read sector v).

(** A chain visits no cluster twice, so it is not longer than the table. *)
Lemma chain_det c cs cs' : chain c cs -> chain c cs' -> cs = cs'.
Proof.
  intros H. revert cs'. induction H as [c Hv He|c d cs Hv He Hd IH]; intros cs' H'; inversion H' as [? ? ?|? ? ? ? ? Hd']; subst; try done.
  - destruct (chain_head _ _ _ _ Hd') as (? & _ & [? ?]). destruct G as [_ _ _ _ _ Gc _]. lia.
  - destruct (chain_head _ _ _ _ Hd) as (? & _ & [? ?]). destruct G as [_ _ _ _ _ Gc _]. lia.
  - f_equal. by apply IH.
Qed.
Lemma chain_nodup c cs : chain c cs -> NoDup cs.
Proof.
  induction 1 as [c Hv He|c d cs Hv He Hd IH]; [apply NoDup_singleton|]. apply NoDup_cons. split; [|done]. intros Hin.
  apply list_elem_of_lookup in Hin as [n Hn]. pose proof (chain_drop _ _ _ _ _ _ Hd Hn) as H1. pose proof (chain_next _ _ _ _ _ Hv He Hd) as H2.
  pose proof (chain_det _ _ _ H1 H2) as E. apply (f_equal length) in E. rewrite length_drop in E. cbn in E. lia.
Qed.
Lemma chain_valid c cs : chain c cs -> Forall (valid v) cs.
Proof. induction 1; by constructor. Qed.
Lemma chain_short c cs : chain c cs -> (length cs <= chain_fuel v)%nat.
Proof.
  intros H. pose proof (chain_nodup _ _ H) as Hn. pose proof (chain_valid _ _ H) as Hv. destruct (chain_head _ _ _ _ H) as (cs' & -> & Hc).
  assert (c :: cs' ⊆+ seqZ 2 (numClusters v)) as Hs.
  { apply NoDup_submseteq; [done|]. intros x Hx. rewrite Forall_forall in Hv. apply Hv in Hx. apply elem_of_seqZ. unfold valid in Hx. lia. }
  apply submseteq_length in Hs. rewrite length_seqZ in Hs. destruct Hc, G as [Gb _ _ _ _ Gc _]. unfold chain_fuel.
  assert (numClusters v <= tableSize32 (bpb32 v) * bytesPerSector (bpb v) / 4) by (apply Z.div_le_lower_bound; lia). lia.
Qed.

Lemma cluster_entries c rest : dirents (cluster_data sector v c ++ rest) = dirents (cluster_data sector v c) ++ dirents rest.
Proof.
  apply dirents_app. pose proof (cluster_length sector v G c) as L. unfold bytesPerCluster in L. destruct G as [Gb Ge Gs _ _ _ _].
  assert (exists k, bytesPerSector (bpb v) = 32 * k /\ 0 <= k) as (k & Ek & Hk) by (exists (bytesPerSector (bpb v) / 32); Z.div_mod_to_equations; lia).
  rewrite Ek in L. replace (length (cluster_data sector v c)) with (Z.to_nat (k * sectorsPerCluster (bpb v)) * 32)%nat by lia. apply Nat.Div0.mod_mul.
Qed.
Lemma dir_loop_gives isRoot fuel : forall c cs s s' w, chain c cs -> (length cs <= fuel)%nat -> sane w -> volumeLabel w = label s ->
  walk isRoot (dirents (content cs)) s s' -> gives (dir_loop Read fuel v isRoot c (lfn s) (entries s)) w (entries s') (label s').
Proof.
  induction fuel as [|fuel IH]; intros c cs s s' w Hc Hf S L Hw; destruct (chain_head _ _ _ _ Hc) as (cs' & -> & Hv); [cbn in Hf; lia|]. cbn [dir_loop].
  change (content (c :: cs')) with (cluster_data sector v c ++ content cs') in Hw. rewrite cluster_entries in Hw. apply walk_split in Hw as (s1 & W1 & W2).
  eapply gives_bind; [by apply (readCluster_gives _ _ _ HR G)|]. intros w1 S1 L1. eapply gives_step; [reflexivity|].
  eapply gives_step; [unfold slift; rewrite L1, L; destruct s; cbn [lfn entries label]; by erewrite (walk_for _ _ _ _ W1)|]. eapply gives_step; [reflexivity|].
  eapply gives_bind; [by apply (getNextCluster_gives _ _ _ HR G c cs')|]. intros w2 S2 L2. cbn [volumeLabel] in L2.
  inversion Hc as [? Hv' He|? d ? Hv' He Hd]; subst; cbn [next_of].
  - assert (s1 = s') as -> by (by inversion W2). rewrite <- L2. by apply gives_ok.
  - destruct (chain_head _ _ _ _ Hd) as (cs'' & -> & _). eapply IH; [done|cbn in Hf |- *; lia|done|done|done].
Qed.

(** The clusters [cs] hold a directory with the parts [its]. *)
Definition dir_on (isRoot : bool) (its : list item) (c : Z) (cs : list Z) : Prop :=
  chain c cs /\ Forall (item_ok isRoot) its /\ content cs = mjoin (mjoin (slots <$> its)).
Lemma readDirectory_gives isRoot its c cs w : dir_on isRoot its c cs -> sane w ->
  gives (readDirectory Read v isRoot c) w (dir_entries its) (dir_label its (volumeLabel w)).
Proof.
  intros (Hc & Hi & E) S. unfold readDirectory.
  apply (dir_loop_gives isRoot (chain_fuel v) c cs (Scan None [] (volumeLabel w)) (Scan None (dir_entries its) (dir_label its (volumeLabel w)))); [done|by eapply chain_short|done|done|].
  rewrite E, dirents_slots; [by apply (walk_items isRoot its [])|]. apply Forall_join, Forall_fmap. eapply Forall_impl; [exact Hi|]. intros it. apply slots_length.
Qed.

End Directories.

(** ** Comparing names

    The comparison of two names of the same length is the [strncasecmp] of the
    libc. *)
Lemma charmap_byte b : byte b -> exists c, aget charmap b = Ok c /\ charmap !! Z.to_nat b = Some c.
Proof.
  intros [H1 H2]. destruct (lookup_lt_is_Some_2 charmap (Z.to_nat b)) as [c Hc]; [change (length charmap) with 256%nat; lia|]. exists c. split; [|done].
  unfold aget. rewrite (proj2 (Z.leb_le 0 b)) by lia. by rewrite Hc.
Qed.
Lemma strncasecmp_letters fuel m : forall l1 l2 a b, bytes_at m a l1 -> bytes_at m b l2 -> Forall byte l1 -> Forall byte l2 ->
  length l1 = length l2 -> (0 < length l1)%nat -> (length l1 <= fuel)%nat -> Z.of_nat (length l1) < 2 ^ 64 ->
  exists r, strncasecmp_loop fuel m a b (Z.of_nat (length l1)) = Ok r /\ (r =? 0) = same_letters l1 l2.
Proof.
  induction fuel as [|fuel IH]; intros l1 l2 a b H1 H2 B1 B2 Hl H0 Hf Hn; [lia|]. destruct l1 as [|x l1], l2 as [|y l2]; cbn in Hl, H0; try lia.
  apply bytes_at_cons in H1 as [Hx H1]. apply bytes_at_cons in H2 as [Hy H2]. apply Forall_cons in B1 as [Bx B1]. apply Forall_cons in B2 as [By B2].
  destruct (charmap_byte x Bx) as (c & E1 & L1). destruct (charmap_byte y By) as (d & E2 & L2).
  cbn [strncasecmp_loop same_letters]. unfold ld. rewrite Hx, Hy. cbn [res_of mbind res_bind]. rewrite E1, E2. cbn [mbind res_bind]. rewrite L1, L2.
  destruct (Z.eqb_spec c d) as [->|Hne]; cbn [negb].
  - rewrite bool_decide_true by done. destruct (Z.eqb_spec x 0) as [->|Hx0]; [by exists 0|].
    assert (u64 (Z.of_nat (length (x :: l1)) - 1) = Z.of_nat (length l1)) as -> by (cbn [length] in *; unfold u64; rewrite wrap_small by mlia; lia).
    destruct l1 as [|x1 l1]; [by exists 0|]. destruct (Z.eqb_spec (Z.of_nat (length (x1 :: l1))) 0) as [E|E]; [cbn in E; lia|]. cbn [negb].
    apply IH; try done; cbn [length] in *; lia.
  - rewrite bool_decide_false by congruence. exists (c - d). split; [done|]. apply Z.eqb_neq. lia.
Qed.
Lemma compareName_strncasecmp m a b name dent :
  bytes_at m a name -> bytes_at m b (de_name dent) -> Forall byte name -> Forall byte (de_name dent) ->
  length name = length (de_name dent) -> Z.of_nat (length name) < 2 ^ 64 ->
  exists r, strncasecmp m a b (Z.of_nat (length name)) = Ok r /\ (r =? 0) = compareName dent name.
Proof.
  intros H1 H2 B1 B2 Hl Hn. unfold compareName, strncasecmp. rewrite decide_True by done. destruct name as [|x name'] eqn:E; [by exists 0|]. rewrite <- E in *.
  rewrite (proj2 (Z.eqb_neq _ 0)) by (rewrite E; cbn; lia). cbn [negb]. pose proof (bytes_at_fuel _ _ _ H1).
  apply strncasecmp_letters; try done; [rewrite E; cbn; lia|lia].
Qed.

(** ** A small volume *)

Definition le4 (x : Z) : list Z := le2 (x mod 65536) ++ le2 (x / 65536).
(** A directory entry: name and extension, attributes, first cluster and size. *)
Definition demo_entry (name : list Z) (attr cluster size : Z) : list Z :=
  name ++ [attr; 0; 0; 0; 0; 0; 0; 0; 0] ++ le2 (cluster / 65536) ++ [0; 0; 0; 0] ++ le2 (cluster mod 65536) ++ le4 size.
(** [AB~1    TXT] *)
Definition demo_file : list Z := demo_entry [65; 66; 126; 49; 32; 32; 32; 32; 84; 88; 84] 32 4 40.
(** Sectors of 32 bytes: the allocation table with the chains 2, 3 and 4, 5, a
    directory with one file whose long name is [a b], and the file. *)
Definition demo_sector (lba : Z) : list Z :=
  if lba =? 101 then mjoin (le4 <$> [0x0FFFFFF8; 0x0FFFFFFF; 3; 0x0FFFFFFF; 5; 0x0FFFFFFF; 0; 0])
  else if lba =? 102 then lfn_slot (name_checksum demo_file) 65 (piece [97; 32; 98] 0)
  else if lba =? 103 then demo_file
  else if lba =? 104 then replicate 32 7
  else if lba =? 105 then replicate 32 8
  else replicate 32 0.
Definition demo_bpb : Bpb := Build_Bpb 32 1 1 1 0 0 0 8.
Definition demo_fat : FAT := Build_FAT 100 8 6 2 demo_bpb (Build_ExtendedBpb32 1 2).
Definition demo_read (k : nat) (lba n : Z) : Z + list Z := if decide (k = 5%nat) then inl (-7) else inr (sectors demo_sector lba n).
Definition demo_fs : fs := Fs ∅ None 0.
Lemma demo_serves : serves demo_read demo_sector.
Proof. intros k lba n. unfold demo_read. case_decide; [right; by exists (-7)|by left]. Qed.
Lemma demo_geometry : geometry demo_sector demo_fat.
Proof. split; [cbn; mlia|reflexivity|cbn; mlia|cbn; mlia|cbn; mlia|cbn; mlia|]. intros lba. unfold demo_sector. repeat case_if; reflexivity. Qed.
Lemma demo_sane : sane demo_sector demo_fat demo_fs.
Proof. intros n s H. cbn in H. by rewrite lookup_empty in H. Qed.
Lemma demo_chain c d : valid demo_fat c -> valid demo_fat d -> fat_entry demo_sector demo_fat c = d -> 0x0FFFFFF8 <= fat_entry demo_sector demo_fat d -> chain demo_sector demo_fat c [c; d].
Proof. intros Hc Hd Ec Ed. apply (chain_next _ _ c d [d] Hc Ec). by apply chain_last. Qed.

Lemma file_read_spec_witness :
  exists err buf w', read demo_read demo_fat (NewFile 40 4) 30 20 demo_fs = Ok ((err, buf), w') /\ err = 0 /\ buf = [7; 7; 8; 8; 8; 8; 8; 8; 8; 8].
Proof.
  destruct (file_read_spec demo_read demo_sector demo_fat demo_serves demo_geometry (NewFile 40 4) [4; 5] 30 20 demo_fs) as (err & buf & w' & E & _ & H).
  - split; [cbn; lia|]. split; [by vm_compute|]. intros _. apply demo_chain; [done|done|reflexivity|by vm_compute].
  - exact demo_sane.
  - lia.
  - lia.
  - exists err, buf, w'. split; [exact E|]. vm_compute in E. injection E as <- <- _. done.
Defined.

(** ** Malformed volumes *)

(** An entry whose reserved upper bits are set ends the chain. *)
Example reserved_bits_end_chain :
  let sector lba := if lba =? 101 then mjoin (le4 <$> [0x0FFFFFF8; 0x0FFFFFFF; 3 + 2 ^ 28; 0x0FFFFFFF; 0; 0; 0; 0]) else replicate 32 0 in
  exists w', getNextCluster (fun _ lba n => inr (sectors sector lba n)) demo_fat 2 demo_fs = Ok (inr (2, true), w').
Proof. cbn zeta. eexists. vm_compute. reflexivity. Qed.
(** If the chain of a file ends one cluster too early, its last cluster is read
    once more and taken for the missing one; if it ends earlier still, the server
    is stopped. *)
Example short_chain_repeats : exists w', read demo_read demo_fat (NewFile 96 4) 64 3 demo_fs = Ok ((0, [8; 8; 8]), w').
Proof. eexists. vm_compute. reflexivity. Qed.
Example shorter_chain_aborts : read demo_read demo_fat (NewFile 128 4) 96 3 demo_fs = Panic.
Proof. reflexivity. Qed.
(** A piece of a long name without the one that starts the name, and a piece with a
    number outside the name, are written outside the buffer. *)
Example stray_piece : for_entries false [lfn_slot 0 1 (piece [97] 0)] (Scan None [] None) = Stuck.
Proof. reflexivity. Qed.
Example bad_piece_number : for_entries false [lfn_slot 0 64 (piece [97] 0)] (Scan None [] None) = Stuck /\
  for_entries false [lfn_slot 0 65 (piece [97] 0); lfn_slot 0 2 (piece [97] 0)] (Scan None [] None) = Stuck.
Proof. by split. Qed.
(** A wrong checksum hides the rest of the cluster. *)
Example bad_checksum_hides : for_entries false (lfn_slots [97] 1 ++ [demo_file; demo_file]) (Scan None [] None) = Ok (Scan (Some (partial [97] 1 0)) [] None).
Proof. reflexivity. Qed.
(** A cluster that is its own successor keeps the loop running. *)
Lemma cycle_never_ends fuel : forall isRoot l es k m lab,
  let sector lba := if lba =? 101 then mjoin (le4 <$> [0x0FFFFFF8; 0x0FFFFFFF; 2; 0; 0; 0; 0; 0]) else replicate 32 0 in
  (m = ∅ \/ m = {[ 0 := sector 101 ]}) ->
  dir_loop (fun _ lba n => inr (sectors sector lba n)) fuel demo_fat isRoot 2 l es (Fs m lab k) = Stuck.
Proof.
  induction fuel as [|fuel IH]; intros isRoot l es k m lab sector Hm; [done|]. cbn [dir_loop].
  destruct Hm as [->| ->].
  - transitivity (dir_loop (fun _ lba n => inr (sectors sector lba n)) fuel demo_fat isRoot 2 l es (Fs {[ 0 := sector 101 ]} lab (S (S k)))); [reflexivity|].
    apply IH. by right.
  - transitivity (dir_loop (fun _ lba n => inr (sectors sector lba n)) fuel demo_fat isRoot 2 l es (Fs {[ 0 := sector 101 ]} lab (S k))); [reflexivity|].
    apply IH. by right.
Qed.
(** The parent of a directory of the first level has the cluster number 0, which is
    taken for a cluster almost 2^32 clusters behind the data. *)
Example parent_of_first_level : clusterToLba demo_fat 0 = 102 + (2 ^ 32 - 2).
Proof. reflexivity. Qed.
(** The label of a volume loses its last character. *)
Example label_cut : dir_label [ILabel (demo_entry [68; 65; 84; 65; 86; 79; 76; 85; 77; 69; 49] 8 0 0)] None = Some [68; 65; 84; 65; 86; 79; 76; 85; 77; 69].
Proof. reflexivity. Qed.
