(* ===== verification/Gpt.v ===== *)
(** * The partition table (user/drivers/filesystem/src/partition/GPT.cpp)

    Reading the GUID partition table of a disk.  The disk is the parameter of
    Fat.v; the checksum function, which is in a library that is not part of the
    repository, is an argument. *)

From S2P Require Import Prelude HashFns CMem StrTo Fat.
Open Scope mach_scope.

(** ** The code *)

Definition InvalidMagic : Z := -65000.
Definition InvalidHeader : Z := -65001.
Definition HeaderChecksumMismatch : Z := -65002.
Definition UnsupportedVersion : Z := -65003.
Definition TableChecksumMismatch : Z := -65004.
Definition InvalidTableSize : Z := -65005.

(** [EFI PART] *)
Definition kMagic : list Z := [69; 70; 73; 32; 80; 65; 82; 84].
Definition kMinRevision : Z := 0x00010000.
Record GptHeader := {
  revision : Z; headerSize : Z; headerChecksum : Z; partitionTableLba : Z;
  numPartitionEntries : Z; partitionEntrySize : Z; partitionEntryChecksum : Z
}.
(** [sizeof(GptHeader)] is 92. *)
Definition get_header (data : list Z) : res GptHeader :=
  _ ← fld data 0 92;
  rv ← fld data 8 4; hs ← fld data 12 4; hc ← fld data 16 4; lba ← fld data 72 8; n ← fld data 80 4; sz ← fld data 84 4; ck ← fld data 88 4;
  Ok {| revision := rv; headerSize := hs; headerChecksum := hc; partitionTableLba := lba;
        numPartitionEntries := n; partitionEntrySize := sz; partitionEntryChecksum := ck |}.

(** The 16 bytes of a GUID on disk in the order in which they are written. *)
Definition guid_array (g : list Z) : list Z := reverse (take 4 g) ++ reverse (take 2 (drop 4 g)) ++ reverse (take 2 (drop 6 g)) ++ drop 8 g.
Definition isNil (g : list Z) : bool := forallb (fun b => b =? 0) g.

Record Partition := MkPartition {
  index : Z; typeId : list Z; p_startLba : Z; p_size : Z; partitionGuid : list Z; p_name : list Z
}.
(** One entry of the table, at [off]; [sizeof(GptPartition)] is 128. *)
Definition read_entry (data : list Z) (off i : Z) : res (option Partition) :=
  e ← sub_range data off 128;
  if isNil (take 16 e) then Ok None
  else
    Ok (Some {| index := i; typeId := guid_array (take 16 e); p_startLba := le_word (take 8 (drop 32 e));
                p_size := u64 (le_word (take 8 (drop 40 e)) - le_word (take 8 (drop 32 e)));
                partitionGuid := guid_array (take 16 (drop 16 e)); p_name := ConvertUcs2ToUtf8 (u16s 32 (drop 56 e)) |}).
Fixpoint entry_loop (n : nat) (data : list Z) (size i : Z) (ps : list Partition) : res (list Partition) :=
  match n with
  | O => Ok ps
  | S n =>
      r ← read_entry data (i * size) i;
      entry_loop n data size (i + 1) (match r with Some p => ps ++ [p] | None => ps end)
  end.

Section Probe.
Context (Read : nat -> Z -> Z -> Z + list Z) (crc_32 : list Z -> Z) (sectorSize : Z).

Definition read_disk (lba n : Z) : st nat (Z + list Z) := fun k => Ok (Read k lba n, S k).
Definition readPartitionTable (header : GptHeader) : st nat (Z + list Partition) :=
  if partitionEntrySize header <? 128 then mret (inl InvalidTableSize)
  else
    let tableBytes := u32 (numPartitionEntries header * partitionEntrySize header) in
    tableSectors ← slift (udiv (tableBytes + sectorSize - 1) sectorSize);
    r ← read_disk (partitionTableLba header) tableSectors;
    match r with
    | inl err => mret (inl err)
    | inr tableData =>
        d ← slift (sub_range tableData 0 tableBytes);
        if negb (crc_32 d =? partitionEntryChecksum header) then mret (inl TableChecksumMismatch)
        else ps ← slift (entry_loop (Z.to_nat (numPartitionEntries header)) tableData (partitionEntrySize header) 0 []); mret (inr ps)
    end.
(** The constructor of [GPT], on the buffer that holds the header. *)
Definition new_GPT (data : list Z) : st nat (Z + list Partition) :=
  header ← slift (get_header data);
  if headerSize header <? 92 then mret (inl InvalidHeader)
  else
    d ← slift (sub_range data 0 (headerSize header));
    let checksumCopy := list_inserts 16 [0; 0; 0; 0] d in
    if negb (crc_32 checksumCopy =? headerChecksum header) then mret (inl HeaderChecksumMismatch)
    else if revision header <? kMinRevision then mret (inl UnsupportedVersion)
    else readPartitionTable header.
Definition Probe : st nat (Z + list Partition) :=
  r ← read_disk 1 1;
  match r with
  | inl err => mret (inl err)
  | inr data =>
      if decide ((length data < 8)%nat \/ take 8 data <> kMagic) then mret (inl InvalidMagic)
      else new_GPT data
  end.
End Probe.

(** ** Partition tables on the disk

    An entry of the table: unused, or a partition with its identifiers in the order
    in which they are written, its first and last sector, its attributes and its
    name of at most 36 characters; [rest] is what follows up to the size of an
    entry. *)
Inductive gpt_entry :=
| Unused (body : list Z)
| Used (type unique : list Z) (first last attributes : Z) (name rest : list Z).
(** The first three fields of a GUID are little-endian on the disk. *)
Definition guid_disk (g : list Z) : list Z := reverse (take 4 g) ++ reverse (take 2 (drop 4 g)) ++ reverse (take 2 (drop 6 g)) ++ drop 8 g.
Definition name_field (name : list Z) : list Z := mjoin (le2 <$> name ++ replicate (36 - length name) 0).
Definition entry_bytes (e : gpt_entry) : list Z :=
  match e with
  | Unused body => replicate 16 0 ++ body
  | Used type unique first last attrs name rest =>
      guid_disk type ++ guid_disk unique ++ le_bytes 8 first ++ le_bytes 8 last ++ le_bytes 8 attrs ++ name_field name ++ rest
  end.
Definition entry_ok (size : nat) (e : gpt_entry) : Prop :=
  length (entry_bytes e) = size /\
  match e with
  | Unused _ => True
  | Used type unique first last attrs name rest =>
      length type = 16%nat /\ length unique = 16%nat /\ ~ Forall (fun b => b = 0) type /\ 0 <= first <= last /\ last < 2 ^ 64 /\ 0 <= attrs < 2 ^ 64 /\
      (length name <= 36)%nat /\ Forall bmp name
  end.
(** What the server makes of it: the size is one less than the number of sectors,
    and four characters of the longest names are missing. *)
Definition entry_partition (i : Z) (e : gpt_entry) : list Partition :=
  match e with
  | Unused _ => []
  | Used type unique first last attrs name rest => [MkPartition i type first (last - first) unique (mjoin (utf8 <$> take 32 name))]
  end.
Fixpoint table_partitions (i : Z) (es : list gpt_entry) : list Partition :=
  match es with [] => [] | e :: es => entry_partition i e ++ table_partitions (i + 1) es end.
Record table_on (crc_32 : list Z -> Z) (sector : Z -> list Z) (sectorSize : Z) (hdr : GptHeader) (es : list gpt_entry) : Prop := {
  to_size : 92 <= sectorSize < 2 ^ 32 /\ forall lba, length (sector lba) = Z.to_nat sectorSize;
  to_magic : take 8 (sector 1) = kMagic;
  to_header : get_header (sector 1) = Ok hdr;
  to_header_size : 92 <= headerSize hdr <= sectorSize;
  to_header_crc : crc_32 (list_inserts 16 [0; 0; 0; 0] (take (Z.to_nat (headerSize hdr)) (sector 1))) = headerChecksum hdr;
  to_revision : kMinRevision <= revision hdr;
  to_entries : Forall (entry_ok (Z.to_nat (partitionEntrySize hdr))) es /\ Z.of_nat (length es) = numPartitionEntries hdr /\ 128 <= partitionEntrySize hdr;
  to_fits : numPartitionEntries hdr * partitionEntrySize hdr < 2 ^ 32;
  to_table : exists n rest, n = (numPartitionEntries hdr * partitionEntrySize hdr + sectorSize - 1) / sectorSize /\
    sectors sector (partitionTableLba hdr) n = mjoin (entry_bytes <$> es) ++ rest;
  to_table_crc : crc_32 (mjoin (entry_bytes <$> es)) = partitionEntryChecksum hdr
}.

(** ** Reading a table that was written *)

Lemma length_16 (g : list Z) : length g = 16%nat ->
  exists a b c d e f h i j k l m n o p q, g = [a; b; c; d; e; f; h; i; j; k; l; m; n; o; p; q].
Proof. intros H. do 16 (destruct g as [|? g]; [discriminate H|]). destruct g; [|discriminate H]. by do 16 eexists. Qed.
Lemma guid_round_trip g : length g = 16%nat -> guid_array (guid_disk g) = g /\ length (guid_disk g) = 16%nat /\ (isNil (guid_disk g) = true -> Forall (fun b => b = 0) g).
Proof.
  intros Hg. apply length_16 in Hg as (a & b & c & d & e & f & h & i & j & k & l & m & n & o & p & q & ->). split; [done|]. split; [done|]. unfold isNil. intros H.
  rewrite forallb_forall in H. apply Forall_forall. intros x Hx. specialize (H x). rewrite Z.eqb_eq in H. apply H, list_elem_of_In.
  change (x ∈ [d; c; b; a; f; e; i; h; j; k; l; m; n; o; p; q]). set_solver.
Qed.
Lemma u16s_le2 n l rest : (n <= length l)%nat -> Forall (fun c => 0 <= c < 0x10000) l -> u16s n (mjoin (le2 <$> l) ++ rest) = take n l.
Proof.
  revert l. induction n as [|n IH]; intros l Hn Hl; [done|]. destruct l as [|c l]; [cbn in Hn; lia|]. apply Forall_cons in Hl as [Hc Hl].
  change (le_word (le2 c) :: u16s n (mjoin (le2 <$> l) ++ rest) = c :: take n l). rewrite le2_word by done. f_equal. apply IH; [cbn in Hn; lia|done].
Qed.
Lemma name_round_trip name rest : (length name <= 36)%nat -> Forall bmp name -> ConvertUcs2ToUtf8 (u16s 32 (name_field name ++ rest)) = mjoin (utf8 <$> take 32 name).
Proof.
  intros Hl Hb. unfold name_field. rewrite u16s_le2.
  - rewrite take_app. unfold ConvertUcs2ToUtf8. rewrite ucs2_utf8; [done|by apply Forall_take|]. destruct (36 - length name)%nat eqn:E; [left; apply take_nil|].
    destruct (32 - length name)%nat; [by left|by right].
  - rewrite length_app, length_replicate. lia.
  - apply Forall_app. split; [eapply Forall_impl; [exact Hb|]; intros c [? _]; lia|]. apply Forall_replicate. lia.
Qed.
(** A list by its parts of known lengths. *)
Lemma drop_parts (A B : list Z) n : length A = n -> drop n (A ++ B) = B.
Proof. intros <-. apply drop_app_length. Qed.
Lemma take_parts (A B : list Z) n : length A = n -> take n (A ++ B) = A.
Proof. intros <-. apply take_app_length. Qed.
Lemma name_field_length name : (length name <= 36)%nat -> length (name_field name) = 72%nat.
Proof.
  intros H. unfold name_field. assert (forall l, length (mjoin (le2 <$> l)) = (2 * length l)%nat) as ->.
  { intros l. induction l as [|c l IH]; [done|]. change (mjoin (le2 <$> c :: l)) with (le2 c ++ mjoin (le2 <$> l)). rewrite length_app, IH. cbn. lia. }
  rewrite length_app, length_replicate. lia.
Qed.

Lemma read_entry_ok size e A B i off : entry_ok size e -> (128 <= size)%nat -> off = Z.of_nat (length A) ->
  exists r, read_entry (A ++ entry_bytes e ++ B) off i = Ok r /\ entry_partition i e = option_list r.
Proof.
  intros [Hl He] Hs ->. unfold read_entry, sub_range. rewrite (proj2 (Z.leb_le _ _)) by (rewrite !length_app; lia). rewrite Nat2Z.id, drop_app_length. cbn [mbind res_bind].
  change (Z.to_nat 128) with 128%nat. rewrite take_app_le by lia. destruct e as [body|type unique first last attrs name rest]; cbn [entry_bytes] in *.
  - rewrite take_take. change (16 `min` 128)%nat with 16%nat. rewrite (take_parts (replicate 16 0)) by done. by exists None.
  - destruct He as (Ht & Hu & Hz & Hf & Hla & Ha & Hn & Hb). destruct (guid_round_trip type Ht) as (Et & Lt & Zt). destruct (guid_round_trip unique Hu) as (Eu & Lu & _).
    set (body := guid_disk type ++ _) in *. assert (exists rest', take 128 body = guid_disk type ++ guid_disk unique ++ le_bytes 8 first ++ le_bytes 8 last ++ le_bytes 8 attrs ++ name_field name ++ rest') as (rest' & ->).
    { exists []. pose proof (name_field_length name Hn) as Ln. unfold body. rewrite app_nil_r. rewrite !app_assoc. apply take_parts. rewrite !length_app, !le_bytes_length, Lt, Lu, Ln. done. }
    rewrite (take_parts (guid_disk type)) by done. destruct (isNil (guid_disk type)) eqn:En; [by destruct Hz; apply Zt|]. eexists. split; [reflexivity|]. cbn [entry_partition option_list].
    rewrite Et, (drop_parts (guid_disk type) _ 16), (take_parts (guid_disk unique) _ 16), Eu by done.
    rewrite (app_assoc (guid_disk type)), (drop_parts (_ ++ _) _ 32), (take_parts (le_bytes 8 first)) by (rewrite ?length_app, ?Lt, ?Lu, ?le_bytes_length; done).
    rewrite (app_assoc (guid_disk type ++ _)), (drop_parts (_ ++ _) _ 40), (take_parts (le_bytes 8 last)) by (rewrite ?length_app, ?Lt, ?Lu, ?le_bytes_length; done).
    rewrite (app_assoc (_ ++ le_bytes 8 first)), (app_assoc (_ ++ le_bytes 8 last)), (drop_parts (_ ++ _) _ 56) by (rewrite ?length_app, ?Lt, ?Lu, ?le_bytes_length; done).
    rewrite !le_word_bytes, name_round_trip by (done || (change (2 ^ (8 * Z.of_nat 8)) with (2 ^ 64); lia)). do 2 f_equal. unfold u64. rewrite wrap_small by mlia. done.
Qed.
Lemma entry_loop_ok size es : forall A i ps B, Forall (entry_ok size) es -> (128 <= size)%nat -> Z.of_nat (length A) = i * Z.of_nat size ->
  entry_loop (length es) (A ++ mjoin (entry_bytes <$> es) ++ B) (Z.of_nat size) i ps = Ok (ps ++ table_partitions i es).
Proof.
  induction es as [|e es IH]; intros A i ps B He Hs HA; [by rewrite app_nil_r|]. apply Forall_cons in He as [He Hes]. cbn [length entry_loop].
  change (mjoin (entry_bytes <$> e :: es)) with (entry_bytes e ++ mjoin (entry_bytes <$> es)). rewrite <- app_assoc.
  destruct (read_entry_ok size e A (mjoin (entry_bytes <$> es) ++ B) i (i * Z.of_nat size) He Hs) as (r & E & Er); [done|]. rewrite E. cbn [mbind res_bind].
  rewrite app_assoc, IH; [|done|done|rewrite length_app; destruct He as [-> _]; lia]. cbn [table_partitions]. rewrite Er, app_assoc. do 2 f_equal. destruct r; [done|]. by rewrite app_nil_r.
Qed.

(** C24: the partition table of a disk is read as it was written.  On a disk whose
    first sector holds a header with the right checksum and whose table, with its
    own checksum, has the entries [es], [Probe] ends without an access outside a
    buffer and returns the partitions in their order, with their identifiers
    brought into the written order, their first sectors and their names in UTF-8;
    or it returns the error code of a request that the disk has refused.  The size
    of a partition is returned one too small and its name is cut after 32
    characters. *)
Theorem gpt_round_trip Read crc_32 sector sectorSize hdr es k :
  serves Read sector -> table_on crc_32 sector sectorSize hdr es ->
  exists r k', Probe Read crc_32 sectorSize k = Ok (r, k') /\
    (r = inr (table_partitions 0 es) \/ exists e, r = inl e /\ e <> 0 /\ exists k lba n, Read k lba n = inl e).
Proof.
  intros HR [[Hs Hsec] Hm Hh Hhs Hhc Hrev (He & Hn & Hps) Hfit (n & rest & En & Hdata) Htc]. unfold Probe, read_disk, mbind at 1, st_bind at 1.
  assert (sectors sector 1 1 = sector 1) as E1 by (apply app_nil_r). pose proof (Hsec 1) as L1.
  destruct (HR k 1 1) as [->|(e & He0 & Er)]; [rewrite E1|rewrite Er; eexists _, _; split; [reflexivity|]; right; exists e; split; [done|]; split; [done|]; by exists k, 1, 1].
  rewrite decide_False by (intros [H|H]; [rewrite L1 in H; lia|done]). unfold new_GPT, slift. unfold mbind at 1, st_bind at 1. rewrite Hh. cbn [mbind res_bind].
  rewrite (proj2 (Z.ltb_ge (headerSize hdr) 92)) by lia. unfold sub_range at 1. rewrite (proj2 (Z.leb_le (0 + headerSize hdr) _)) by lia. unfold mbind at 1, st_bind at 1. cbn [mbind res_bind].
  change (Z.to_nat 0) with 0%nat. rewrite drop_0, Hhc, Z.eqb_refl. cbn [negb]. rewrite (proj2 (Z.ltb_ge _ kMinRevision)) by lia.
  unfold readPartitionTable. rewrite (proj2 (Z.ltb_ge _ 128)) by lia. set (tb := numPartitionEntries hdr * partitionEntrySize hdr) in *.
  assert (u32 tb = tb) as -> by (apply wrap_small; unfold is_u; nia). unfold slift, udiv. rewrite (proj2 (Z.eqb_neq sectorSize 0)) by lia. unfold mbind at 1, st_bind at 1. cbn [mbind res_bind].
  rewrite <- En. unfold read_disk, mbind at 1, st_bind at 1.
  destruct (HR (S k) (partitionTableLba hdr) n) as [->|(e & He0 & Er)]; [|rewrite Er; eexists _, _; split; [reflexivity|]; right; exists e; split; [done|]; split; [done|]; by exists (S k), (partitionTableLba hdr), n].
  assert (Z.of_nat (length (mjoin (entry_bytes <$> es))) = tb) as Lt.
  { unfold tb. rewrite <- Hn. clear -He Hps. induction He as [|e es [He _] _ IH]; [done|]. change (mjoin (entry_bytes <$> e :: es)) with (entry_bytes e ++ mjoin (entry_bytes <$> es)).
    rewrite length_app, Nat2Z.inj_add, IH, He. cbn [length]. lia. }
  rewrite Hdata. unfold sub_range. rewrite (proj2 (Z.leb_le (0 + tb) _)) by (rewrite length_app; lia). unfold mbind at 1, st_bind at 1. cbn [mbind res_bind].
  change (Z.to_nat 0) with 0%nat. rewrite drop_0, (take_parts (mjoin _)) by lia. rewrite Htc, Z.eqb_refl. cbn [negb]. unfold mbind, st_bind.
  pose proof (entry_loop_ok (Z.to_nat (partitionEntrySize hdr)) es [] 0 [] rest He ltac:(lia) eq_refl) as El. rewrite Z2Nat.id in El by lia. rewrite <- Hn, Nat2Z.id. cbn [app] in El. rewrite El.
  eexists _, _. split; [reflexivity|]. by left.
Qed.

(** ** A small disk *)

Definition crc_bit (c : Z) : Z := if Z.testbit c 0 then (c >> 1) .^ 0xEDB88320 else c >> 1.
Definition demo_crc (l : list Z) : Z := foldl (fun c b => Nat.iter 8 crc_bit (c .^ b)) 0xFFFFFFFF l .^ 0xFFFFFFFF.
Definition demo_gpt_entry : gpt_entry := Used kBDPId (seqZ 1 16) 100 107 0 [100; 233] [].
Definition demo_table : list gpt_entry := [Unused (replicate 112 0); demo_gpt_entry].
Definition demo_header (size n ck tck : Z) : list Z :=
  kMagic ++ le_bytes 4 0x10000 ++ le_bytes 4 size ++ le_bytes 4 ck ++ replicate 52 0 ++ le_bytes 8 2 ++ le_bytes 4 n ++ le_bytes 4 128 ++ le_bytes 4 tck ++ replicate 36 0.
Definition demo_disk (header : list Z) (lba : Z) : list Z :=
  if lba =? 1 then header
  else if lba =? 2 then entry_bytes (Unused (replicate 112 0))
  else if lba =? 3 then entry_bytes demo_gpt_entry
  else replicate 128 0.
Definition table_crc : Z := Eval vm_compute in demo_crc (mjoin (entry_bytes <$> demo_table)).
Definition header_crc : Z := Eval vm_compute in demo_crc (take 92 (demo_header 92 2 0 table_crc)).
Definition good_header : list Z := demo_header 92 2 header_crc table_crc.
Lemma gpt_round_trip_witness :
  exists r k', Probe (fun _ lba n => inr (sectors (demo_disk good_header) lba n)) demo_crc 128 0%nat = Ok (r, k') /\
    r = inr [MkPartition 1 kBDPId 100 7 (seqZ 1 16) [100; 195; 169]].
Proof.
  destruct (gpt_round_trip (fun _ lba n => inr (sectors (demo_disk good_header) lba n)) demo_crc (demo_disk good_header) 128
    (Build_GptHeader 0x10000 92 header_crc 2 2 128 table_crc) demo_table 0%nat) as (r & k' & E & H).
  - intros k lba n. by left.
  - split; [split; [lia|]; intros lba; unfold demo_disk; repeat case_if; reflexivity|reflexivity|reflexivity|cbn; lia|vm_compute; reflexivity|cbn; unfold kMinRevision; lia| | |exists 2, []; by split|vm_compute; reflexivity].
    + split; [|by split]. apply Forall_cons. split; [by split|]. apply Forall_singleton. split; [reflexivity|]. split; [reflexivity|]. split; [reflexivity|].
      split; [intros H; apply Forall_cons in H as [H _]; discriminate H|]. split; [lia|]. split; [lia|]. split; [lia|]. split; [cbn; lia|]. repeat constructor; lia.
    + cbn. lia.
  - exists r, k'. split; [exact E|]. vm_compute in E. vm_compute. congruence.
Defined.

(** A header that is longer than a sector, and a table whose size does not fit into
    32 bits, make the server read outside its buffers. *)
Definition long_header : list Z := demo_header 0x1000 2 0 table_crc.
Example long_header_overrun : Probe (fun _ lba n => inr (sectors (demo_disk long_header) lba n)) demo_crc 128 0%nat = Stuck.
Proof. reflexivity. Qed.
Lemma entry_loop_empty n size ps : (0 < n)%nat -> entry_loop n [] size 0 ps = Stuck.
Proof. intros Hn. destruct n; [lia|reflexivity]. Qed.
Example huge_table_overrun sector rev ck k :
  readPartitionTable (fun _ lba n => inr (sectors sector lba n)) demo_crc 128 (Build_GptHeader rev 92 ck 2 (2 ^ 25) 128 0) k = Stuck.
Proof.
  unfold readPartitionTable. cbn [partitionEntrySize numPartitionEntries partitionTableLba partitionEntryChecksum]. change (128 <? 128) with false. cbn [negb].
  change (u32 (2 ^ 25 * 128)) with 0. unfold mbind, st_bind, slift, read_disk. change (udiv (0 + 128 - 1) 128) with (Ok 0). cbn [mbind res_bind].
  change (sectors sector 2 0) with (@nil Z). change (sub_range [] 0 0) with (Ok (@nil Z)). cbn [mbind res_bind]. change (demo_crc [] =? 0) with true. cbn [negb].
  by rewrite entry_loop_empty by lia.
Qed.
