(* ===== verification/FsServer.v ===== *)
(** * The file system server (user/drivers/filesystem/src: rpc, util/Path.cpp, auto, FilesystemRegistry.cpp)

    Open, read and close requests of clients over a mounted FAT volume (Fat.v): the
    path is split, the directories on the way are read, a handle is given out; the
    message handlers of the interface for early clients check the requests and
    make the replies.  One request is served at a time; the lock around the table
    of handles is not represented. *)

From S2P Require Import Prelude HashFns CMem LibcString StrTo Fat Gpt.
Open Scope mach_scope.

(** ** Paths (util/Path.cpp) *)

(** [find_first_not_of] and [find] of a string from a position on. *)
Definition find_not (c : Z) (s : list Z) (from : nat) : option nat :=
  (fun p => from + p.1)%nat <$> list_find (fun x => x <> c) (drop from s).
Definition find_char (c : Z) (s : list Z) (from : nat) : option nat :=
  (fun p => from + p.1)%nat <$> list_find (fun x => x = c) (drop from s).
Definition kPathSeparator : Z := 47.
Fixpoint split_loop (fuel : nat) (path : list Z) (pos : nat) (comps : list (list Z)) : list (list Z) :=
  match fuel with
  | O => comps
  | S fuel =>
      match find_not kPathSeparator path pos with
      | None => comps
      | Some start =>
          match find_char kPathSeparator path start with
          | Some pos => split_loop fuel path pos (comps ++ [take (pos - start) (drop start path)])
          | None => comps ++ [drop start path]
          end
      end
  end.
Definition SplitPath (path : list Z) : list (list Z) := split_loop (S (length path)) path 0 [].

(** ** The server (rpc/MessageLoop.cpp) *)

Definition ENOENT : Z := 2.
Definition ENOTDIR : Z := 20.
Definition EROFS : Z := 30.
Definition InvalidFileHandle : Z := -66050.
Definition InternalError : Z := -66051.

(** A mounted volume: what does not change of it, its root directory and its cache. *)
Record mounted := Mounted { vol : FAT; root : list DirectoryEntry; vfs : fs }.
(** The file system that only tests the disk has no directories. *)
Inductive filesystem := FatFs (m : mounted) | TestFs.
Record server := Server { rootfs : option filesystem; nextFileHandle : Z; openFiles : gmap Z File }.
Record open_reply := OpenReply { o_status : Z; o_handle : Z; o_fileSize : Z }.
Definition open_error (e : Z) : open_reply := OpenReply e 0 0.

Section Server.
Context (Read : nat -> Z -> Z -> Z + list Z).

(** The root file system; a null pointer is used if nothing is mounted. *)
Definition getFsFor : st server filesystem := fun w => match rootfs w with Some f => Ok (f, w) | None => Stuck end.
(** A call of the volume. *)
Definition on_vol {A} (f : FAT -> st fs A) : st server A := fun w =>
  match rootfs w with
  | Some (FatFs m) => '(a, x) ← f (vol m) (vfs m); Ok (a, Server (Some (FatFs (Mounted (vol m) (root m) x))) (nextFileHandle w) (openFiles w))
  | _ => Stuck
  end.

(** The directories on the way: the last directory, or an error. *)
Fixpoint open_walk (dir : list DirectoryEntry) (comps : list (list Z)) : st server (Z + list DirectoryEntry) :=
  match comps with
  | [] => mret (inr dir)
  | dirName :: comps =>
      match getEntry dir dirName with
      | None => mret (inl ENOENT)
      | Some entry =>
          if negb (isDirectory entry) then mret (inl ENOTDIR)
          else
            r ← on_vol (fun v => read_subdirectory Read v entry);
            match r with inl err => mret (inl err) | inr dir => open_walk dir comps end
      end
  end.
(** Without components the loop runs to [SIZE_MAX] and reads outside the vector. *)
Definition implOpenFile (path : list Z) : st server open_reply :=
  f ← getFsFor;
  let components := SplitPath path in
  match (f : filesystem), last components with
  | TestFs, _ => mret (open_error InternalError)
  | FatFs _, None => sstuck
  | FatFs m, Some fileName =>
      r ← open_walk (root m) (take (length components - 1) components);
      match r with
      | inl err => mret (open_error err)
      | inr dir =>
          match getEntry dir fileName with
          | None => mret (open_error ENOENT)
          | Some fileDent =>
              match openFile fileDent with
              | inl err => mret (open_error err)
              | inr file =>
                  w ← sget;
                  let handle := nextFileHandle w in
                  _ ← sput (Server (rootfs w) (u64 (handle + 1))
                              (match openFiles w !! handle with Some _ => openFiles w | None => <[handle := file]> (openFiles w) end));
                  mret (OpenReply 0 handle (f_size file))
              end
          end
      end
  end.
Definition implCloseFile (handle : Z) : st server Z :=
  w ← sget;
  match openFiles w !! handle with
  | None => mret InvalidFileHandle
  | Some _ => _ ← sput (Server (rootfs w) (nextFileHandle w) (delete handle (openFiles w))); mret 0
  end.
Definition implSlowRead (handle offset numBytes : Z) : st server (Z * list Z) :=
  w ← sget;
  match openFiles w !! handle with
  | None => mret (InvalidFileHandle, [])
  | Some file =>
      r ← on_vol (fun v => read Read v file offset numBytes);
      let '(err, temp) := (r : Z * list Z) in
      mret (if negb (err =? 0) then (err, []) else (0, temp))
  end.

(** ** Mounting (FilesystemRegistry.cpp, auto/Automount.cpp, main.cpp) *)

Definition UnknownFs : Z := -66000.
Definition kTypeId : list Z := [0xEC; 0xEE; 0xD8; 0x56; 0x9B; 0x5B; 0x46; 0x06; 0xA5; 0x7C; 0xBA; 0x1F; 0x3B; 0x96; 0x61; 0xCB].
(** [FilesystemRegistry::start]: the two supported file systems, one after the
    other; the state is the number of requests to the disk. *)
Definition registry_start (p : Partition) : st nat (Z + filesystem) := fun k =>
  '(r, x) ← TryStart Read (typeId p) (p_startLba p) (p_size p) (Fs ∅ None k);
  Ok (match r with
      | Some (inl err) => inl err
      | Some (inr (v, root)) => inr (FatFs (Mounted v root x))
      | None => if decide (typeId p = kTypeId) then inr TestFs else inl UnknownFs
      end, requests x).

Record AutoInfo := { diskForestPath : list Z; diskPartition : Z }.
(** [match]: [*] stands for any disk. *)
Definition info_match (info : AutoInfo) (disk : list Z) (p : Partition) : bool :=
  if decide (diskForestPath info <> [42] /\ disk <> diskForestPath info) then false else index p =? diskPartition info.
(** [startedFs]; [emplace] keeps what is there. *)
Definition startedFs (autos : list (list Z * AutoInfo)) (disk : list Z) (p : Partition) (f : filesystem) (m : gmap (list Z) filesystem) : gmap (list Z) filesystem :=
  foldl (fun m '(vfsPath, info) =>
    if info_match info disk p then (match m !! vfsPath with Some _ => m | None => <[vfsPath := f]> m end) else m) m autos.
(** The loop of [main] over the partitions of a disk. *)
Fixpoint start_partitions (autos : list (list Z * AutoInfo)) (disk : list Z) (ps : list Partition) (m : gmap (list Z) filesystem) : st nat (gmap (list Z) filesystem) :=
  match ps with
  | [] => mret m
  | p :: ps =>
      r ← registry_start p;
      start_partitions autos disk ps (match r with inr f => startedFs autos disk p f m | inl _ => m end)
  end.
Definition start_disk (crc_32 : list Z -> Z) (sectorSize : Z) (autos : list (list Z * AutoInfo)) (disk : list Z) (m : gmap (list Z) filesystem) : st nat (gmap (list Z) filesystem) :=
  r ← Probe Read crc_32 sectorSize;
  match r with inl _ => mret m | inr tabs => start_partitions autos disk tabs m end.
(** The server at the start of its message loop. *)
Definition new_server (m : gmap (list Z) filesystem) : server := Server (m !! [kPathSeparator]) 1 ∅.

(** ** The interface for early clients (rpc/LegacyIo.cpp)

    A packet has a type, a port for the reply and a payload; what is behind the
    payload in the buffer is zero. *)
Definition kMaxBlockSize : Z := 32768.
Inductive packet_type := GetCapabilities | OpenFileType | CloseFileType | ReadFileDirect | OtherType.
Record packet := Packet { p_type : packet_type; replyPort : Z; payload : list Z }.
Inductive reply :=
| CapsReply (version capabilities maxReadBlockSize : Z)
| OpenFileReply (status flags fileHandle len : Z)
| CloseFileReply (status : Z)
| ReadReply (file status : Z) (data : list Z).
Definition field (p : list Z) (off n : nat) : Z := le_word (take n (drop off (p ++ replicate 32 0))).

Definition handleGetCaps : reply := CapsReply 1 1 kMaxBlockSize.
(** [FileIoOpen] has 8 bytes, of which the last two already belong to the path. *)
Definition handleOpen (p : list Z) : st server reply :=
  let size := Z.of_nat (length p) in
  if size <? 8 then mret (OpenFileReply EINVAL 0 0 0)
  else if size - 8 <? field p 4 2 then mret (OpenFileReply EINVAL 0 0 0)
  else if negb (field p 0 4 .& 2 =? 0) then mret (OpenFileReply EROFS 0 0 0)
  else
    ret ← implOpenFile (take (Z.to_nat (field p 4 2)) (drop 6 p));
    mret (OpenFileReply (o_status ret) (field p 0 4) (o_handle ret) (o_fileSize ret)).
(** The size of the reply is checked, not that of the request. *)
Definition handleClose (p : list Z) : st server reply :=
  if Z.of_nat (length p) <? 4 then mret (CloseFileReply EINVAL)
  else s ← implCloseFile (field p 0 8); mret (CloseFileReply s).
Definition handleReadDirect (p : list Z) : st server reply :=
  if Z.of_nat (length p) <? 24 then mret (ReadReply 0 EINVAL [])
  else if kMaxBlockSize <? field p 16 8 then mret (ReadReply (field p 0 8) EINVAL [])
  else
    ret ← implSlowRead (field p 0 8) (field p 8 8) (u16 (field p 16 8));
    let '(status, data) := (ret : Z * list Z) in
    mret (if negb (status =? 0) then ReadReply (field p 0 8) status [] else ReadReply (field p 0 8) 0 data).
(** One round of the loop of [main]: the reply, if there is one. *)
Definition serve (pk : packet) : st server (option reply) :=
  if replyPort pk =? 0 then mret None
  else
    match p_type pk with
    | GetCapabilities => mret (Some handleGetCaps)
    | OpenFileType => r ← handleOpen (payload pk); mret (Some r)
    | CloseFileType => r ← handleClose (payload pk); mret (Some r)
    | ReadFileDirect => r ← handleReadDirect (payload pk); mret (Some r)
    | OtherType => mret None
    end.
End Server.

(** ** Paths *)

(** The parts of a path between slashes; the empty ones do not count. *)
Fixpoint split_on (c : Z) (l : list Z) : list (list Z) :=
  match l with
  | [] => [[]]
  | x :: l => if x =? c then [] :: split_on c l else match split_on c l with [] => [[x]] | w :: ws => (x :: w) :: ws end
  end.
Definition words (l : list Z) : list (list Z) := filter (fun w => w <> []) (split_on kPathSeparator l).
Lemma split_on_cons c l : exists w ws, split_on c l = w :: ws.
Proof. destruct l as [|x l]; cbn; [eauto|]. destruct (x =? c); [eauto|]. destruct (split_on c l); eauto. Qed.
Lemma words_slash l : words (kPathSeparator :: l) = words l.
Proof. unfold words. cbn [split_on]. rewrite Z.eqb_refl. by rewrite filter_cons_False by tauto. Qed.
Lemma words_skip l : match list_find (fun x => x <> kPathSeparator) l with None => words l = [] | Some (i, _) => words l = words (drop i l) end.
Proof.
  induction l as [|x l IH]; [done|]. cbn [list_find]. case_decide as Hx; [done|]. subst x. rewrite words_slash.
  destruct (list_find _ l) as [[i y]|]; cbn; exact IH.
Qed.
Lemma split_on_word l : match list_find (fun x => x = kPathSeparator) l with
  | None => split_on kPathSeparator l = [l]
  | Some (j, _) => split_on kPathSeparator l = take j l :: split_on kPathSeparator (drop (S j) l) /\ exists r, drop j l = kPathSeparator :: r end.
Proof.
  induction l as [|x l IH]; [done|]. cbn [list_find]. case_decide as Hx; [subst; cbn; split; [done|eauto]|]. cbn [split_on]. rewrite (proj2 (Z.eqb_neq x kPathSeparator)) by done.
  destruct (list_find _ l) as [[j y]|]; cbn in IH |- *; [destruct IH as [-> Hr]; by split|by rewrite IH].
Qed.
Lemma words_first x l : x <> kPathSeparator -> words (x :: l) =
  match list_find (fun x => x = kPathSeparator) l with None => [x :: l] | Some (j, _) => (x :: take j l) :: words (drop j l) end.
Proof.
  intros Hx. pose proof (split_on_word (x :: l)) as H. cbn [list_find] in H. rewrite decide_False in H by done. unfold words at 1.
  destruct (list_find _ l) as [[j y]|]; cbn [fmap option_fmap option_map prod_map] in H.
  - destruct H as [H (r & Hr)]. cbn [prod_map take drop fst snd] in H, Hr. rewrite H, filter_cons_True by done. rewrite Hr, words_slash. rewrite <- Nat.add_1_r, <- drop_drop, Hr. done.
  - rewrite H, filter_cons_True by done. done.
Qed.
Lemma split_loop_words fuel path : forall pos comps, (length path < pos + fuel)%nat -> split_loop fuel path pos comps = comps ++ words (drop pos path).
Proof.
  induction fuel as [|fuel IH]; intros pos comps Hf; [rewrite drop_ge by lia; by rewrite app_nil_r|]. cbn [split_loop]. unfold find_not, find_char.
  pose proof (words_skip (drop pos path)) as Hs. destruct (list_find _ (drop pos path)) as [[i x]|] eqn:Ei; cbn [fmap option_fmap option_map fst]; [|by rewrite Hs, app_nil_r].
  apply list_find_Some in Ei as (Hi & Hx & _). rewrite Hs, drop_drop. clear Hs. rewrite lookup_drop in Hi. pose proof (lookup_lt_Some _ _ _ Hi) as Hlt.
  rewrite (drop_S _ _ _ Hi), words_first by done. cbn [list_find]. rewrite decide_False by done.
  destruct (list_find _ (drop (S (pos + i)) path)) as [[j y]|]; cbn [fmap option_fmap option_map fst prod_map].
  - rewrite IH by lia. rewrite <- app_assoc. f_equal. replace (pos + i + S j - (pos + i))%nat with (S j) by lia. cbn [take app]. f_equal.
    rewrite drop_drop. do 2 f_equal. lia.
  - done.
Qed.
(** [SplitPath] returns the parts of the path that are not empty. *)
Lemma SplitPath_words path : SplitPath path = words path.
Proof. unfold SplitPath. rewrite split_loop_words by lia. done. Qed.

(** ** What clients see

    The description [t] of a volume: its root directory, the directories by their
    first clusters and the bytes of the files, as far as they are described. *)
Record tree := Tree {
  t_root : list DirectoryEntry; t_dirs : gmap Z (list DirectoryEntry); t_bytes : DirectoryEntry -> option (list Z)
}.
(** The first entry with this name, whatever the case of its letters. *)
Definition same_name (d : DirectoryEntry) (name : list Z) : Prop := tolower <$> de_name d = tolower <$> name.
#[export] Instance same_name_dec d name : Decision (same_name d name).
Proof. unfold same_name. apply _. Defined.
Definition find_name (es : list DirectoryEntry) (name : list Z) : option DirectoryEntry := head (filter (fun d => same_name d name) es).
(** The file at a path, or the error for a path without one; none if the path leads
    to a directory that is not described. *)
Fixpoint find_path (t : tree) (es : list DirectoryEntry) (comps : list (list Z)) : option (Z + DirectoryEntry) :=
  match comps with
  | [] => None
  | name :: rest =>
      match find_name es name with
      | None => Some (inl ENOENT)
      | Some d =>
          match rest with
          | [] => Some (if isDirectory d then inl InvalidDirectoryEntry else inr d)
          | _ =>
              if isDirectory d then es ← t_dirs t !! firstCluster d; find_path t es rest
              else Some (inl ENOTDIR)
          end
      end
  end.

Record describes (sector : Z -> list Z) (v : FAT) (t : tree) : Prop := {
  d_dirs c es : t_dirs t !! c = Some es -> exists its cs, dir_on sector v false its c cs /\ es = dir_entries its;
  d_files d b : t_bytes t d = Some b -> exists cs,
    file_on sector v (NewFile (de_size d) (firstCluster d)) cs /\ b = file_bytes sector v (NewFile (de_size d) (firstCluster d)) cs
}.

(** Requests of a client and the packets it sends. *)
Inductive request := ROpen (mode : Z) (path : list Z) | RClose (handle : Z) | RRead (handle offset len : Z).
Definition encode (port : Z) (q : request) : packet :=
  match q with
  | ROpen mode path => Packet OpenFileType port (le_bytes 4 mode ++ le_bytes 2 (Z.of_nat (length path)) ++ path ++ [0; 0])
  | RClose h => Packet CloseFileType port (le_bytes 8 h)
  | RRead h off n => Packet ReadFileDirect port (le_bytes 8 h ++ le_bytes 8 off ++ le_bytes 8 n)
  end.

(** The table of handles as a client sees it: the bytes of the open files. *)
Record handles := Handles { a_next : Z; a_files : gmap Z (list Z) }.
(** What a request does; [err] is what the disk may answer. *)
Inductive answer (err : Z -> Prop) (t : tree) (a : handles) : request -> reply -> handles -> Prop :=
| ans_open mode path d b :
    mode .& 2 = 0 -> find_path t (t_root t) (words path) = Some (inr d) -> t_bytes t d = Some b ->
    answer err t a (ROpen mode path) (OpenFileReply 0 mode (a_next a) (Z.of_nat (length b)))
      (Handles (a_next a + 1) (<[a_next a := b]> (a_files a)))
| ans_no_file mode path e :
    mode .& 2 = 0 -> find_path t (t_root t) (words path) = Some (inl e) -> answer err t a (ROpen mode path) (OpenFileReply e mode 0 0) a
| ans_read_only mode path : mode .& 2 <> 0 -> answer err t a (ROpen mode path) (OpenFileReply EROFS 0 0 0) a
| ans_open_disk mode path e : mode .& 2 = 0 -> err e -> answer err t a (ROpen mode path) (OpenFileReply e mode 0 0) a
| ans_close h b : a_files a !! h = Some b -> answer err t a (RClose h) (CloseFileReply 0) (Handles (a_next a) (delete h (a_files a)))
| ans_not_open h : a_files a !! h = None -> answer err t a (RClose h) (CloseFileReply InvalidFileHandle) a
| ans_read h off n b :
    n <= kMaxBlockSize -> a_files a !! h = Some b -> answer err t a (RRead h off n) (ReadReply h 0 (take (Z.to_nat n) (drop (Z.to_nat off) b))) a
| ans_read_closed h off n : n <= kMaxBlockSize -> a_files a !! h = None -> answer err t a (RRead h off n) (ReadReply h InvalidFileHandle []) a
| ans_too_long h off n : kMaxBlockSize < n -> answer err t a (RRead h off n) (ReadReply h EINVAL []) a
| ans_read_disk h off n e : n <= kMaxBlockSize -> err e -> answer err t a (RRead h off n) (ReadReply h e []) a.
Inductive answers (err : Z -> Prop) (t : tree) : handles -> list request -> list reply -> Prop :=
| answers_nil a : answers err t a [] []
| answers_cons a q r a' qs rs : answer err t a q r a' -> answers err t a' qs rs -> answers err t a (q :: qs) (r :: rs).

(** Requests with values of the right widths, for paths inside the description. *)
Definition covered (t : tree) (q : request) : Prop :=
  match q with
  | ROpen mode path => 0 <= mode < 2 ^ 32 /\ Z.of_nat (length path) < 2 ^ 16 /\ Forall (fun b => 0 < b < 256) path /\
      exists r, find_path t (t_root t) (words path) = Some r /\ forall d, r = inr d -> is_Some (t_bytes t d)
  | RClose h => 0 <= h < 2 ^ 64
  | RRead h off n => 0 <= h < 2 ^ 64 /\ 0 <= off < 2 ^ 64 /\ 0 <= n < 2 ^ 64
  end.
Fixpoint serve_all (Read : nat -> Z -> Z -> Z + list Z) (pks : list packet) : st server (list reply) :=
  match pks with
  | [] => mret []
  | pk :: pks => r ← serve Read pk; rs ← serve_all Read pks; mret (match r with Some r => r :: rs | None => rs end)
  end.

(** *** Names *)
Lemma charmap_tolower b : 0 <= b < 256 -> charmap !! Z.to_nat b = Some (tolower b).
Proof.
  intros Hb. assert (forallb (fun n => bool_decide (charmap !! n = Some (tolower (Z.of_nat n)))) (seq 0 256) = true) as H by reflexivity.
  rewrite forallb_forall in H. specialize (H (Z.to_nat b)). rewrite bool_decide_eq_true in H. rewrite H; [f_equal; f_equal; lia|]. apply in_seq. lia.
Qed.
Lemma tolower_range b : 0 < b < 256 -> 0 < tolower b < 256.
Proof. unfold tolower, isupper. intros. case_if; [|lia]. apply andb_true_iff in E as [E1 E2]. apply Z.leb_le in E1, E2. lia. Qed.
Lemma letters_tolower b c : 0 < b < 256 -> charmap !! Z.to_nat b = charmap !! Z.to_nat c <-> tolower b = tolower c.
Proof.
  intros Hb. pose proof (tolower_range b Hb) as Hr. rewrite charmap_tolower by lia. destruct (decide (0 <= c < 256)) as [Hc|Hc].
  - rewrite charmap_tolower by done. split; congruence.
  - assert (tolower c = c) as ->. { unfold tolower, isupper. case_if; [|done]. apply andb_true_iff in E as [E1 E2]. apply Z.leb_le in E1, E2. lia. }
    destruct (decide (c < 0)).
    + replace (Z.to_nat c) with 0%nat by lia. change (charmap !! 0%nat) with (Some 0). split; intros E; simplify_eq; lia.
    + rewrite (lookup_ge_None_2 charmap) by (change (length charmap) with 256%nat; lia). split; intros E; [done|lia].
Qed.
Lemma same_letters_tolower l1 l2 : Forall (fun b => 0 < b < 256) l1 -> length l1 = length l2 -> same_letters l1 l2 = true <-> tolower <$> l2 = tolower <$> l1.
Proof.
  intros H. revert l2. induction H as [|b l1 Hb _ IH]; intros [|c l2] Hl; try done. cbn [same_letters fmap list_fmap]. injection Hl as Hl. case_bool_decide as E.
  - apply letters_tolower in E; [|done]. rewrite (proj2 (Z.eqb_neq b 0)) by lia. rewrite IH by done. rewrite E. split; intros H; [by rewrite H|by injection H].
  - split; [done|]. intros H. injection H as H _. destruct E. by apply letters_tolower.
Qed.
Lemma getEntry_find es name : Forall (fun b => 0 < b < 256) name -> getEntry es name = find_name es name.
Proof.
  intros Hn. unfold getEntry, find_name. f_equal. induction es as [|d es IH]; [done|].
  assert (compareName d name <-> same_name d name) as Hd.
  { unfold compareName, same_name. case_decide as Hl; [rewrite Is_true_true; by apply same_letters_tolower|]. split; [done|]. intros E. apply (f_equal length) in E. rewrite !length_fmap in E. congruence. }
  destruct (decide (same_name d name)) as [H|H].
  - rewrite !filter_cons_True by tauto. by rewrite IH.
  - rewrite !filter_cons_False by tauto. done.
Qed.
Lemma words_bytes (P : Z -> Prop) path : Forall P path -> Forall (Forall P) (words path).
Proof.
  intros H. unfold words. apply Forall_forall. intros w Hw. apply list_elem_of_filter in Hw as [_ Hw]. revert w Hw. apply Forall_forall.
  induction H as [|x l Hx _ IH]; [by repeat constructor|]. cbn. destruct (x =? kPathSeparator); [by constructor|].
  destruct (split_on kPathSeparator l) as [|w ws]; [by repeat constructor|]. apply Forall_cons in IH as [? ?]. by repeat constructor.
Qed.

(** *** The server keeps its promise *)
Section Refinement.
Context (Read : nat -> Z -> Z -> Z + list Z) (sector : Z -> list Z) (v : FAT) (t : tree).
Context (HR : serves Read sector) (G : geometry sector v) (D : describes sector v t).
Local Notation sane := (sane sector v).
Local Notation derr := (disk_error Read).

Definition holds_file (f : File) (b : list Z) : Prop := exists cs, file_on sector v f cs /\ b = file_bytes sector v f cs.
Record sim (w : server) (a : handles) : Prop := {
  s_root : exists x, rootfs w = Some (FatFs (Mounted v (t_root t) x)) /\ sane x;
  s_next : nextFileHandle w = a_next a;
  s_files : forall h, option_Forall2 holds_file (openFiles w !! h) (a_files a !! h);
  s_below : forall h, is_Some (openFiles w !! h) -> h < a_next a
}.
Lemma sim_on_vol {A} (f : FAT -> io A) w a y lab :
  sim w a -> (forall x, sane x -> gives Read sector v (f v) x y (lab x)) ->
  exists r w', on_vol f w = Ok (r, w') /\ sim w' a /\ (r = inr y \/ exists e, r = inl e /\ derr e).
Proof.
  intros [(x & Er & Hx) N F B] Hf. destruct (Hf x Hx) as (r & x' & E & S & H). unfold on_vol. rewrite Er. cbn [vol vfs root]. rewrite E.
  exists r. eexists. split; [reflexivity|]. split; [split; cbn; try done; by exists x'|]. destruct H as [[-> _]|H]; [by left|by right].
Qed.

Lemma open_walk_ok fileName pre : forall es w a r, sim w a -> Forall (Forall (fun b => 0 < b < 256)) pre -> find_path t es (pre ++ [fileName]) = Some r ->
  exists res w', open_walk Read es pre w = Ok (res, w') /\ sim w' a /\
    ((exists e, res = inl e /\ derr e) \/ match res with inl e => r = inl e | inr dir => find_path t dir [fileName] = Some r end).
Proof.
  induction pre as [|name pre IH]; intros es w a r S Hn Hp; [exists (inr es), w; split; [done|]; split; [done|]; by right|].
  apply Forall_cons in Hn as [Hname Hn]. cbn [open_walk app find_path] in Hp |- *. rewrite getEntry_find by done.
  destruct (find_name es name) as [d|]; [|simplify_eq; exists (inl ENOENT), w; split; [done|]; split; [done|]; by right].
  assert ((if isDirectory d then es ← t_dirs t !! firstCluster d; find_path t es (pre ++ [fileName]) else Some (inl ENOTDIR)) = Some r) as Hp' by (by destruct (pre ++ [fileName]) as [|] eqn:E; [destruct pre|]).
  destruct (isDirectory d) eqn:Ed; cbn [negb]; [|simplify_eq; exists (inl ENOTDIR), w; split; [done|]; split; [done|]; by right].
  destruct (t_dirs t !! firstCluster d) as [es'|] eqn:Et; [|done]. cbn in Hp'. destruct (d_dirs _ _ _ D _ _ Et) as (its & cs & Hd & ->).
  destruct (sim_on_vol (fun v => read_subdirectory Read v d) w a (dir_entries its) (fun x => dir_label its (volumeLabel x)) S) as (res & w1 & E & S1 & H).
  { intros x Hx. unfold read_subdirectory. rewrite Ed. cbn [negb]. by apply (readDirectory_gives _ _ _ HR G false its _ cs). }
  unfold mbind, st_bind. rewrite E. destruct H as [-> |(e & -> & He)].
  - by apply IH.
  - exists (inl e), w1. split; [done|]. split; [done|]. left. by exists e.
Qed.
Lemma file_bytes_length f cs : file_on sector v f cs -> Z.of_nat (length (file_bytes sector v f cs)) = f_size f.
Proof. intros (H1 & H2 & _). unfold file_bytes. rewrite length_take. lia. Qed.

Lemma implOpenFile_ok path w a r : sim w a -> Forall (fun b => 0 < b < 256) path -> 0 <= a_next a < 2 ^ 64 - 1 ->
  find_path t (t_root t) (words path) = Some r -> (forall d, r = inr d -> is_Some (t_bytes t d)) ->
  exists rep w' a', implOpenFile Read path w = Ok (rep, w') /\ sim w' a' /\
    ((exists e, rep = open_error e /\ a' = a /\ (derr e \/ r = inl e)) \/
     exists d b, r = inr d /\ t_bytes t d = Some b /\ rep = OpenReply 0 (a_next a) (Z.of_nat (length b)) /\ a' = Handles (a_next a + 1) (<[a_next a := b]> (a_files a))).
Proof.
  intros S Hb Hn Hp Hd. unfold implOpenFile. pose proof S as [(x & Er & _) _ _ _]. unfold mbind at 1, st_bind at 1, getFsFor. rewrite Er. cbn [root].
  rewrite SplitPath_words. pose proof (words_bytes _ _ Hb) as Hw. destruct (exists_last (l := words path)) as (pre & fileName & Ew); [by intros E; rewrite E in Hp|].
  rewrite Ew in *. apply Forall_app in Hw as [Hpre Hfn]. rewrite Forall_singleton in Hfn. rewrite last_snoc, length_app. cbn [length]. rewrite Nat.add_sub, take_app_length.
  destruct (open_walk_ok fileName pre (t_root t) w a r S Hpre Hp) as (res & w1 & E & S1 & H). unfold mbind at 1, st_bind at 1. rewrite E.
  destruct res as [e|dir]; [exists (open_error e), w1, a; split; [done|]; split; [done|]; left; exists e; split; [done|]; split; [done|]; destruct H as [(e' & [= ->] & He)|H]; tauto|].
  destruct H as [(? & ? & _)|H]; [done|]. cbn [find_path] in H. rewrite getEntry_find by done.
  destruct (find_name dir fileName) as [d|]; [|injection H as <-; exists (open_error ENOENT), w1, a; split; [done|]; split; [done|]; left; exists ENOENT; split; [done|]; split; [done|]; by right].
  unfold openFile. destruct (isDirectory d); injection H as <-.
  { exists (open_error InvalidDirectoryEntry), w1, a. split; [done|]. split; [done|]. left. exists InvalidDirectoryEntry. split; [done|]. split; [done|]. by right. }
  destruct (Hd d eq_refl) as [b Eb]. destruct (d_files _ _ _ D _ _ Eb) as (cs & Hf & Ebs). pose proof (file_bytes_length _ _ Hf) as Lb.
  destruct S1 as [R1 N1 F1 B1]. assert (openFiles w1 !! a_next a = None) as En by (destruct (openFiles w1 !! a_next a) eqn:Ef; [|done]; pose proof (B1 (a_next a) ltac:(by rewrite Ef)); lia).
  cbn [mbind st_bind sget sput]. unfold mbind, st_bind, sget, sput, mret, st_ret. rewrite N1, En. eexists _, _, _. split; [reflexivity|]. split; cycle 1.
  { right. exists d, b. split; [done|]. split; [done|]. split; [|reflexivity]. cbn [f_size]. rewrite Ebs, Lb. done. }
  split; cbn [rootfs nextFileHandle openFiles a_next a_files].
  - exact R1.
  - unfold u64. apply wrap_small. mlia.
  - intros h. destruct (decide (h = a_next a)) as [->|Hne]; [|rewrite !lookup_insert_ne by done; apply F1]. rewrite !lookup_insert_eq. constructor. by exists cs.
  - intros h Hh. destruct (decide (h = a_next a)) as [->|Hne]; [lia|]. rewrite lookup_insert_ne in Hh by done. apply B1 in Hh. lia.
Qed.
Lemma implCloseFile_ok h w a : sim w a ->
  exists w', implCloseFile h w = Ok (match a_files a !! h with Some _ => 0 | None => InvalidFileHandle end, w') /\
    sim w' (match a_files a !! h with Some _ => Handles (a_next a) (delete h (a_files a)) | None => a end).
Proof.
  intros S. pose proof S as [R N F B]. unfold implCloseFile, mbind, st_bind, sget, sput, mret, st_ret. pose proof (F h) as Fh.
  destruct (openFiles w !! h) as [f|], (a_files a !! h) as [b|]; [|by inversion Fh|by inversion Fh|by exists w].
  eexists. split; [reflexivity|]. split; cbn; [done|done| |].
  - intros k. destruct (decide (k = h)) as [->|Hne]; [rewrite !lookup_delete_eq; constructor|rewrite !lookup_delete_ne by done; apply F].
  - intros k Hk. apply B. destruct (decide (k = h)) as [->|Hne]; [by rewrite lookup_delete_eq in Hk; destruct Hk|by rewrite lookup_delete_ne in Hk by done].
Qed.
Lemma implSlowRead_ok h off n w a : sim w a -> 0 <= off < 2 ^ 64 -> 0 <= n < 2 ^ 64 ->
  exists r w', implSlowRead Read h off n w = Ok (r, w') /\ sim w' a /\
    match a_files a !! h with
    | None => r = (InvalidFileHandle, [])
    | Some b => r = (0, take (Z.to_nat n) (drop (Z.to_nat off) b)) \/ exists e, r = (e, []) /\ derr e
    end.
Proof.
  intros S Ho Hn. pose proof S as [(x & Er & Hx) N F B]. unfold implSlowRead, mbind at 1, st_bind at 1, sget. pose proof (F h) as Fh.
  destruct (openFiles w !! h) as [f|], (a_files a !! h) as [b|]; [|by inversion Fh|by inversion Fh|by exists (InvalidFileHandle, []), w].
  inversion Fh as [? ? (cs & Hf & ->)|]; subst. destruct (read_reads Read sector v HR G f cs off n x Hf Hx Ho Hn) as (err & buf & x' & E & S' & H).
  unfold mbind, st_bind, on_vol. rewrite Er. cbn [vol vfs root]. rewrite E. cbn [mbind res_bind]. eexists _, _. split; [reflexivity|]. split; [split; cbn; try done; by exists x'|].
  destruct H as [[-> ->]|He]; [by left|]. right. exists err. destruct He as [He ?]. by rewrite (proj2 (Z.eqb_neq err 0)).
Qed.

(** *** The packets *)
Lemma field_bytes A B p off n z : p = A ++ le_bytes n z ++ B -> off = length A -> 0 <= z < 2 ^ (8 * Z.of_nat n) -> field p off n = z.
Proof.
  intros -> -> Hz. unfold field. rewrite <- !app_assoc, drop_app_length, take_app_le by (rewrite le_bytes_length; lia).
  rewrite take_ge by (rewrite le_bytes_length; lia). by apply le_word_bytes.
Qed.
(** A request as the server sees it. *)
Lemma serve_open port mode path w : port <> 0 -> 0 <= mode < 2 ^ 32 -> Z.of_nat (length path) < 2 ^ 16 ->
  serve Read (encode port (ROpen mode path)) w =
    if decide (mode .& 2 = 0) then (ret ← implOpenFile Read path; mret (Some (OpenFileReply (o_status ret) mode (o_handle ret) (o_fileSize ret)))) w
    else Ok (Some (OpenFileReply EROFS 0 0 0), w).
Proof.
  intros Hp Hm Hl. unfold serve. cbn [encode replyPort p_type payload]. rewrite (proj2 (Z.eqb_neq port 0)) by done. unfold handleOpen.
  set (p := le_bytes 4 mode ++ le_bytes 2 (Z.of_nat (length path)) ++ path ++ [0; 0]).
  assert (length p = (8 + length path)%nat) as Lp by (unfold p; rewrite !length_app, !le_bytes_length; cbn [length]; lia).
  assert (field p 0 4 = mode) as -> by (apply (field_bytes [] (le_bytes 2 (Z.of_nat (length path)) ++ path ++ [0; 0])); [done|done|exact Hm]).
  assert (field p 4 2 = Z.of_nat (length path)) as ->.
  { apply (field_bytes (le_bytes 4 mode) (path ++ [0; 0])); [done|by rewrite le_bytes_length|]. change (2 ^ (8 * Z.of_nat 2)) with (2 ^ 16). lia. }
  rewrite (proj2 (Z.ltb_ge _ 8)) by lia. rewrite (proj2 (Z.ltb_ge (Z.of_nat (length p) - 8) _)) by lia.
  case_decide as Hd; [|by rewrite (proj2 (Z.eqb_neq _ 0))]. rewrite Hd. cbn [Z.eqb negb].
  assert (take (Z.to_nat (Z.of_nat (length path))) (drop 6 p) = path) as ->.
  { rewrite Nat2Z.id. unfold p. rewrite app_assoc, drop_app_ge by (rewrite length_app, !le_bytes_length; lia). rewrite length_app, !le_bytes_length.
    change (drop (6 - (4 + 2))) with (@drop Z 0). by rewrite drop_0, take_app_length. }
  unfold mbind, st_bind. by destruct (implOpenFile Read path w) as [[r w']| |].
Qed.
Lemma serve_close port h w : port <> 0 -> 0 <= h < 2 ^ 64 ->
  serve Read (encode port (RClose h)) w = (s ← implCloseFile h; mret (Some (CloseFileReply s))) w.
Proof.
  intros Hp Hh. unfold serve. cbn [encode replyPort p_type payload]. rewrite (proj2 (Z.eqb_neq port 0)) by done. unfold handleClose. rewrite le_bytes_length.
  change (Z.of_nat 8 <? 4) with false. rewrite (field_bytes [] [] (le_bytes 8 h) 0 8 h) by (rewrite ?app_nil_r; done).
  unfold mbind, st_bind. by destruct (implCloseFile h w) as [[r w']| |].
Qed.
Lemma serve_read port h off n w : port <> 0 -> 0 <= h < 2 ^ 64 -> 0 <= off < 2 ^ 64 -> 0 <= n < 2 ^ 64 ->
  serve Read (encode port (RRead h off n)) w =
    if decide (kMaxBlockSize < n) then Ok (Some (ReadReply h EINVAL []), w)
    else (ret ← implSlowRead Read h off n; mret (Some (if negb (ret.1 =? 0) then ReadReply h ret.1 [] else ReadReply h 0 ret.2))) w.
Proof.
  intros Hp Hh Ho Hn. unfold serve. cbn [encode replyPort p_type payload]. rewrite (proj2 (Z.eqb_neq port 0)) by done. unfold handleReadDirect.
  set (p := le_bytes 8 h ++ le_bytes 8 off ++ le_bytes 8 n).
  assert (length p = 24%nat) as -> by (unfold p; by rewrite !length_app, !le_bytes_length). change (Z.of_nat 24 <? 24) with false.
  assert (field p 0 8 = h) as -> by (by apply (field_bytes [] (le_bytes 8 off ++ le_bytes 8 n))).
  assert (field p 8 8 = off) as -> by (apply (field_bytes (le_bytes 8 h) (le_bytes 8 n)); [done|by rewrite le_bytes_length|done]).
  assert (field p 16 8 = n) as -> by (apply (field_bytes (le_bytes 8 h ++ le_bytes 8 off) []); [by rewrite app_nil_r, <- app_assoc|by rewrite length_app, !le_bytes_length|done]).
  case_decide as Hk; [by rewrite (proj2 (Z.ltb_lt _ _) Hk)|]. unfold kMaxBlockSize in *. rewrite (proj2 (Z.ltb_ge 32768 n)) by lia.
  assert (u16 n = n) as -> by (apply wrap_small; mlia). unfold mbind, st_bind. destruct (implSlowRead Read h off n w) as [[[s b] w']| |]; [|done|done].
  unfold mret, st_ret. cbn [fst snd]. by destruct (negb (s =? 0)).
Qed.

Lemma serve_ok port q w a : port <> 0 -> sim w a -> covered t q -> 0 <= a_next a < 2 ^ 64 - 1 ->
  exists r w' a', serve Read (encode port q) w = Ok (Some r, w') /\ sim w' a' /\ answer derr t a q r a' /\ 0 <= a_next a' <= a_next a + 1.
Proof.
  intros Hp S Hq Ha. destruct q as [mode path|h|h off n]; cbn [covered] in Hq.
  - destruct Hq as (Hm & Hl & Hb & r & Hr & Hd). rewrite serve_open by done. case_decide as Hmode.
    + destruct (implOpenFile_ok path w a r S Hb Ha Hr Hd) as (rep & w' & a' & E & S' & H). unfold mbind, st_bind. rewrite E.
      destruct H as [(e & -> & -> & He)|(d & b & -> & Hb' & -> & ->)]; eexists _, w', _; (split; [reflexivity|]); (split; [exact S'|]); cbn [o_status o_handle o_fileSize open_error a_next].
      * split; [|lia]. destruct He as [He| ->]; [by apply ans_open_disk|by apply ans_no_file].
      * split; [|lia]. by eapply ans_open.
    + eexists _, w, a. split; [reflexivity|]. split; [done|]. split; [by apply ans_read_only|lia].
  - rewrite serve_close by done. destruct (implCloseFile_ok h w a S) as (w' & E & S'). unfold mbind, st_bind. rewrite E. eexists _, w', _. split; [reflexivity|]. split; [exact S'|].
    destruct (a_files a !! h) as [b|] eqn:Eh; (split; [|cbn; lia]); [by eapply ans_close|by apply ans_not_open].
  - destruct Hq as (Hh & Ho & Hn). rewrite serve_read by done. case_decide as Hk; [eexists _, w, a; split; [reflexivity|]; split; [done|]; split; [by apply ans_too_long|lia]|].
    destruct (implSlowRead_ok h off n w a S Ho Hn) as (r & w' & E & S' & H). unfold mbind, st_bind. rewrite E. eexists _, w', a. split; [reflexivity|]. split; [exact S'|]. split; [|lia].
    apply Z.nlt_ge in Hk. destruct (a_files a !! h) as [b|] eqn:Eh; [|subst r; by apply ans_read_closed]. destruct H as [-> |(e & -> & He)]; [by apply ans_read|].
    cbn [fst snd]. rewrite (proj2 (Z.eqb_neq e 0)) by apply He. by apply ans_read_disk.
Qed.
Lemma serve_all_ok port qs : forall w a, port <> 0 -> sim w a -> Forall (covered t) qs -> 0 <= a_next a -> a_next a + Z.of_nat (length qs) < 2 ^ 64 ->
  exists rs w', serve_all Read (encode port <$> qs) w = Ok (rs, w') /\ answers derr t a qs rs.
Proof.
  induction qs as [|q qs IH]; intros w a Hp S Hq Ha Hl; [exists [], w; split; [done|constructor]|]. apply Forall_cons in Hq as [Hq Hqs]. cbn [length] in Hl.
  destruct (serve_ok port q w a Hp S Hq) as (r & w1 & a1 & E & S1 & A1 & N1); [lia|]. destruct (IH w1 a1 Hp S1 Hqs) as (rs & w2 & E2 & A2); [lia|lia|].
  exists (r :: rs), w2. split; [|by econstructor]. change (encode port <$> q :: qs) with (encode port q :: (encode port <$> qs)). cbn [serve_all]. unfold mbind, st_bind. rewrite E.
  by rewrite E2.
Qed.
End Refinement.

(** *** From the disk to the replies *)

(** The partition [p] holds a FAT32 volume that [t] describes. *)
Record volume_on (sector : Z -> list Z) (p : Partition) (v : FAT) (t : tree) : Prop := {
  vo_type : typeId p = kBDPId;
  vo_size : DetermineFatSize (sector (p_startLba p)) = Ok FAT32Type;
  vo_fat : new_FAT32 (p_startLba p) (p_size p) (sector (p_startLba p)) = Ok v;
  vo_geometry : geometry sector v;
  vo_root : exists its cs, dir_on sector v true its (rootDirCluster (bpb32 v)) cs /\ t_root t = dir_entries its;
  vo_tree : describes sector v t
}.
Lemma mount_ok Read sector p v t k : serves Read sector -> volume_on sector p v t ->
  exists r k', registry_start Read p k = Ok (r, k') /\
    ((exists e, r = inl e /\ disk_error Read e) \/ exists f, r = inr f /\ sim sector v t (Server (Some f) 1 ∅) (Handles 1 ∅)).
Proof.
  intros HR [Ht Hs Hf G (its & cs & Hd & Hr) D]. unfold registry_start, TryStart. rewrite (decide_False (P := typeId p <> kBDPId)) by (intros H; by apply H).
  assert (sane sector v (Fs ∅ None k)) as S0 by (intros n s H; cbn in H; by rewrite lookup_empty in H).
  destruct (disk_read_gives Read sector v HR (p_startLba p) 1 (Fs ∅ None k) S0) as (r & w & E & S & H).
  unfold mbind at 2, st_bind at 1. rewrite E. destruct H as [[-> L]|(e & -> & He)]; [|eexists _, _; split; [reflexivity|]; left; by exists e].
  assert (sectors sector (p_startLba p) 1 = sector (p_startLba p)) as -> by (apply app_nil_r).
  unfold slift, mbind at 2, st_bind at 1. rewrite Hs. cbn [mbind res_bind]. unfold mbind at 2, st_bind at 1, Alloc, slift, mbind at 2, st_bind at 1. rewrite Hf. cbn [mbind res_bind].
  destruct (readDirectory_gives Read sector v HR G true its _ cs w Hd S) as (r & w' & E' & S' & H'). unfold io_bind, mbind at 2, st_bind at 1. rewrite E'.
  destruct H' as [[-> _]|(e & -> & He)]; [|eexists _, _; split; [reflexivity|]; left; by exists e].
  eexists _, _. split; [reflexivity|]. right. eexists. split; [reflexivity|]. split; cbn; [exists w'; by rewrite Hr|done| |].
  - intros h. rewrite !lookup_empty. constructor.
  - intros h [x Hx]. by rewrite lookup_empty in Hx.
Qed.


(** Opening the root directory itself, or a file before a volume is mounted, stops
    the server. *)
Example open_root_crashes Read m n files : implOpenFile Read [kPathSeparator] (Server (Some (FatFs m)) n files) = Stuck.
Proof. reflexivity. Qed.
Example open_unmounted_crashes Read path : implOpenFile Read path (new_server ∅) = Stuck.
Proof. reflexivity. Qed.

(** ** A small volume with a directory and a file *)

Definition fill (n : nat) (l : list Z) : list Z := l ++ replicate (n - length l) 0.
Definition disk_boot : list Z :=
  fill 512 (replicate 11 0 ++ le2 512 ++ [1] ++ le2 1 ++ [1] ++ replicate 15 0 ++ le4 66114 ++ le4 513 ++ [0; 0; 0; 0] ++ le4 2).
Definition free_slots (n : nat) : list item := replicate n (IFree (replicate 32 0)).
(** [SUB], and in it [.], [..] and [A b.txt]. *)
Definition sub_entry : list Z := demo_entry [83; 85; 66; 32; 32; 32; 32; 32; 32; 32; 32] 16 3 0.
Definition root_items : list item := IShort sub_entry :: free_slots 15.
Definition txt_entry : list Z := demo_entry [65; 66; 126; 49; 32; 32; 32; 32; 84; 88; 84] 32 4 40.
Definition txt_name : list Z := [65; 32; 98; 46; 116; 120; 116].
Definition sub_items : list item :=
  IShort (demo_entry [46; 32; 32; 32; 32; 32; 32; 32; 32; 32; 32] 16 3 0) :: IShort (demo_entry [46; 46; 32; 32; 32; 32; 32; 32; 32; 32; 32] 16 0 0) ::
  ILong txt_name txt_entry :: free_slots 12.
Definition disk_sector (lba : Z) : list Z :=
  if lba =? 100 then disk_boot
  else if lba =? 101 then fill 512 (mjoin (le4 <$> [0x0FFFFFF8; 0x0FFFFFFF; 0x0FFFFFFF; 0x0FFFFFFF; 0x0FFFFFFF]))
  else if lba =? 614 then mjoin (mjoin (slots <$> root_items))
  else if lba =? 615 then mjoin (mjoin (slots <$> sub_items))
  else if lba =? 616 then replicate 512 7
  else replicate 512 0.
Definition disk_part : Partition := MkPartition 0 kBDPId 100 66114 [] [].
Definition disk_vol : FAT := Build_FAT 100 66114 65600 514 (Build_Bpb 512 1 1 1 0 0 0 66114) (Build_ExtendedBpb32 513 2).
Definition disk_read_all (k : nat) (lba n : Z) : Z + list Z := inr (sectors disk_sector lba n).
Definition disk_tree : tree :=
  Tree (dir_entries root_items) {[ 3 := dir_entries sub_items ]} (fun d => if decide (firstCluster d = 4 /\ de_size d = 40) then Some (replicate 40 7) else None).
Lemma one_cluster c : valid disk_vol c -> 0x0FFFFFF8 <= fat_entry disk_sector disk_vol c -> chain disk_sector disk_vol c [c].
Proof. intros Hc He. by apply chain_last. Qed.
Lemma disk_volume : volume_on disk_sector disk_part disk_vol disk_tree.
Proof.
  assert (forall isRoot n, Forall (item_ok isRoot) (free_slots n)) as Hf by (intros isRoot n; apply Forall_replicate; by split; [|left]).
  assert (forall e, length e = 32%nat -> at8 e 0 <> 0 -> at8 e 0 <> 0xE5 -> ent_type e .& VolumeId = 0 -> at8 e 0 <> 32 -> (at8 e 0 = 46 -> ent_extension e = [32; 32; 32]) -> forall isRoot, item_ok isRoot (IShort e)) as Hs.
  { intros e H1 H2 H3 H4 H5 H6 isRoot. split; [done|]. split; [intros [?|?]; congruence|done]. }
  split.
  - reflexivity.
  - vm_compute. reflexivity.
  - vm_compute. reflexivity.
  - split; [cbn; mlia|reflexivity|cbn; mlia|cbn; mlia|cbn; mlia|cbn; mlia|]. intros lba. unfold disk_sector. repeat case_if; vm_compute; reflexivity.
  - exists root_items, [2]. split; [|reflexivity]. split; [by apply one_cluster; [split; cbn; lia|vm_compute]|]. split; [|vm_compute; reflexivity].
    apply Forall_cons. split; [by apply Hs|apply Hf].
  - split.
    + intros c es H. cbn [t_dirs disk_tree] in H. apply lookup_singleton_Some in H as [<- <-]. exists sub_items, [3]. split; [|done].
      split; [by apply one_cluster; [split; cbn; lia|vm_compute]|]. split; [|vm_compute; reflexivity].
      apply Forall_cons. split; [by apply Hs|]. apply Forall_cons. split; [by apply Hs|]. apply Forall_cons. split; [|apply Hf].
      split; [reflexivity|]. split; [intros [H|H]; discriminate H|]. split; [reflexivity|]. split; [done|]. split; [cbn; lia|]. split; [repeat constructor; unfold bmp; lia|done].
    + intros d b H. cbn [t_bytes disk_tree] in H. case_decide as Hd; [|done]. injection H as <-. destruct Hd as [-> ->]. exists [4]. split; [|vm_compute; reflexivity].
      split; [cbn; lia|]. split; [by vm_compute|]. intros _. by apply one_cluster; [split; cbn; lia|vm_compute].
Qed.
(** [/sub//a B.TXT] *)
Definition demo_path : list Z := [47; 115; 117; 98; 47; 47; 97; 32; 66; 46; 84; 88; 84].
Definition demo_requests : list request := [ROpen 1 demo_path; RRead 1 37 100; RClose 1; RRead 1 0 1].
Lemma demo_covered : Forall (covered disk_tree) demo_requests.
Proof.
  apply Forall_cons. split; [|repeat constructor; cbn; lia]. split; [lia|]. split; [cbn; lia|]. split; [repeat constructor; lia|].
  eexists. split; [vm_compute; reflexivity|]. intros d Hd. injection Hd as <-. vm_compute. by eexists.
Qed.
(** The replies. *)
Definition demo_run : option (list reply) :=
  match registry_start disk_read_all disk_part 0%nat with
  | Ok (inr f, _) => match serve_all disk_read_all (encode 9 <$> demo_requests) (Server (Some f) 1 ∅) with Ok (rs, _) => Some rs | _ => None end
  | _ => None
  end.
Example demo_replies : demo_run = Some [OpenFileReply 0 1 1 40; ReadReply 1 0 [7; 7; 7]; CloseFileReply 0; ReadReply 1 InvalidFileHandle []].
Proof. vm_compute. reflexivity. Qed.
