(* ===== verification/LockFreeQueue.v ===== *)
(** * The lock-free queue of the kernel (kernel/src/runtime/LockFreeQueue.h)

    A ring of a power of two many cells for any number of producers and
    consumers.  Every access of a thread to the shared counters and cells is one
    step; the steps of all threads interleave.  Accesses are sequentially
    consistent here, which is stronger than the orders the code asks for. *)

From S2P Require Import Prelude.
Open Scope mach_scope.

Section Queue.
Context {A : Type}.

(** ** State *)

(** The caller's flags: [single] is kSingleProducer or kSingleConsumer, [part]
    is kPartialPush or kPartialPop. *)
Record flags := Flags { single : bool; part : bool }.

(** Where a thread is.  [old] is the head it has read, [n] the number of
    entries it takes, [avail] the number it found free or ready. *)
Inductive pc :=
| Idle
| ITail (data : list A) (fl : flags) (old : Z)
| ICas (data : list A) (fl : flags) (old n avail : Z)
| ICheck (data : list A) (old n avail : Z)
| IStore (data : list A) (old n i : Z)
| IWait (data : list A) (old n : Z)
| IPublish (data : list A) (old n : Z)
| DTail (count : Z) (fl : flags) (old : Z)
| DCas (count : Z) (fl : flags) (old n avail : Z)
| DCheck (count old n avail : Z)
| DRead (old n i : Z) (got : list A)
| DWait (old n : Z) (got : list A)
| DPublish (old n : Z) (got : list A).

Inductive out :=
| OInsert (t : Z) (n : Z)
| OPop (t : Z) (old : Z) (got : list A).

(** A cell holds an object or raw memory.  [pushed] and [taken] record the
    entries reserved by producers and consumers, [outs] what the calls have
    returned. *)
Record queue := Queue {
  prodHead : Z; prodTail : Z; prodMask : Z;
  consHead : Z; consTail : Z; consMask : Z;
  storage : list (option A);
  allocatedCapacity : Z;
  threads : gmap Z pc;
  pushed : list A;
  taken : list (Z * Z);
  outs : list out
}.

Definition ispow2 (v : Z) : bool := negb (v =? 0) && (v .& (v - 1) =? 0).

(** [resize] of a queue, which drops what it holds. *)
Definition resize (newSize : Z) (q : queue) : res queue :=
  _ ← REQUIRE (ispow2 newSize);
  Ok (Queue 0 0 (newSize - 1) 0 0 (newSize - 1) (replicate (Z.to_nat newSize) None) newSize (threads q) [] [] []).
Definition newQueue (size : Z) : res queue :=
  resize size (Queue 0 0 0 0 0 0 [] 0 ∅ [] [] []).

Definition capacity (q : queue) : Z := allocatedCapacity q.
Definition qsize (q : queue) : Z := u64 (prodTail q - consHead q).
Definition empty (q : queue) : bool := qsize q =? 0.
Definition capacityFree (q : queue) : Z := u64 (prodMask q - consTail q - prodHead q).

Definition set_prod (h t : Z) (p : list A) (q : queue) : queue :=
  Queue h t (prodMask q) (consHead q) (consTail q) (consMask q) (storage q) (allocatedCapacity q) (threads q) p (taken q) (outs q).
Definition set_cons (h t : Z) (k : list (Z * Z)) (q : queue) : queue :=
  Queue (prodHead q) (prodTail q) (prodMask q) h t (consMask q) (storage q) (allocatedCapacity q) (threads q) (pushed q) k (outs q).
Definition set_cell (i : Z) (c : option A) (q : queue) : res queue :=
  s ← aset (storage q) i c;
  Ok (Queue (prodHead q) (prodTail q) (prodMask q) (consHead q) (consTail q) (consMask q) s (allocatedCapacity q) (threads q)
        (pushed q) (taken q) (outs q)).
Definition set_thread (t : Z) (p : pc) (q : queue) : queue :=
  Queue (prodHead q) (prodTail q) (prodMask q) (consHead q) (consTail q) (consMask q) (storage q) (allocatedCapacity q)
    (<[t := p]> (threads q)) (pushed q) (taken q) (outs q).
Definition return_ (t : Z) (o : out) (q : queue) : queue :=
  Queue (prodHead q) (prodTail q) (prodMask q) (consHead q) (consTail q) (consMask q) (storage q) (allocatedCapacity q)
    (<[t := Idle]> (threads q)) (pushed q) (taken q) (outs q ++ [o]).

(** ** [insert] *)

Definition count_of (data : list A) : Z := Z.of_nat (length data).

Definition start_insert (t : Z) (data : list A) (fl : flags) (q : queue) : res queue :=
  Ok (set_thread t (ITail data fl (prodHead q)) q).

(** One step of a thread inside [insert]. *)
Definition insert_step (t : Z) (p : pc) (q : queue) : res queue :=
  let mask := prodMask q in
  match p with
  | ITail data fl old =>
      let count := count_of data in
      let freeEntries := u64 (mask + consTail q - old) in
      let n := if (freeEntries <? count) && part fl then freeEntries else count in
      if (freeEntries =? 0) || (n =? 0) || (freeEntries <? n) then Ok (return_ t (OInsert t 0) q)
      else Ok (set_thread t (ICas data fl old n freeEntries) q)
  | ICas data fl old n avail =>
      let newProdHead := u64 (old + n) in
      let q' := set_prod newProdHead (prodTail q) (pushed q ++ take (Z.to_nat n) data) q in
      if single fl then Ok (set_thread t (ICheck data old n avail) q')
      else if prodHead q =? old then Ok (set_thread t (ICheck data old n avail) q')
      else Ok (set_thread t (ITail data fl (prodHead q)) q)
  | ICheck data old n avail =>
      _ ← REQUIRE (n <=? u64 (mask + consTail q - old));
      _ ← REQUIRE ((0 <? n) && (n <=? count_of data));
      _ ← REQUIRE (n <=? avail);
      Ok (set_thread t (IStore data old n 0) q)
  | IStore data old n i =>
      if i <? n then
        x ← res_of (data !! Z.to_nat i);
        q ← set_cell (u64 (old + i) .& mask) (Some x) q;
        Ok (set_thread t (IStore data old n (i + 1)) q)
      else Ok (set_thread t (IWait data old n) q)
  | IWait data old n => if negb (prodTail q =? old) then Ok q else Ok (set_thread t (IPublish data old n) q)
  | IPublish data old n => Ok (return_ t (OInsert t n) (set_prod (prodHead q) (u64 (old + n)) (pushed q) q))
  | _ => Ok q
  end.

(** ** [pop] *)

Definition start_pop (t count : Z) (fl : flags) (q : queue) : res queue :=
  Ok (set_thread t (DTail count fl (consHead q)) q).

Definition pop_step (t : Z) (p : pc) (q : queue) : res queue :=
  let mask := prodMask q in
  match p with
  | DTail count fl old =>
      let readyEntries := u64 (prodTail q - old) in
      _ ← REQUIRE (readyEntries <? u64 (mask + 1));
      let n := if (readyEntries <? count) && part fl then readyEntries else count in
      if (readyEntries =? 0) || (n =? 0) || (readyEntries <? n) then Ok (return_ t (OPop t old []) q)
      else Ok (set_thread t (DCas count fl old n readyEntries) q)
  | DCas count fl old n avail =>
      let newConsHead := u64 (old + n) in
      let q' := set_cons newConsHead (consTail q) (taken q ++ [(old, n)]) q in
      if single fl then Ok (set_thread t (DCheck count old n avail) q')
      else if consHead q =? old then Ok (set_thread t (DCheck count old n avail) q')
      else Ok (set_thread t (DTail count fl (consHead q)) q)
  | DCheck count old n avail =>
      _ ← REQUIRE (n <=? u64 (prodTail q - old));
      _ ← REQUIRE ((0 <? n) && (n <=? count));
      _ ← REQUIRE (n <=? avail);
      Ok (set_thread t (DRead old n 0 []) q)
  | DRead old n i got =>
      if i <? n then
        c ← aget (storage q) (u64 (old + i) .& mask);
        x ← res_of c;
        q ← set_cell (u64 (old + i) .& mask) None q;
        Ok (set_thread t (DRead old n (i + 1) (got ++ [x])) q)
      else Ok (set_thread t (DWait old n got) q)
  | DWait old n got => if negb (consTail q =? old) then Ok q else Ok (set_thread t (DPublish old n got) q)
  | DPublish old n got => Ok (return_ t (OPop t old got) (set_cons (consHead q) (u64 (old + n)) (taken q) q))
  | _ => Ok q
  end.

(** The calls for one item, which allow no partial transfer. *)
Definition insert_one (t : Z) (x : A) (fl : flags) : queue -> res queue := start_insert t [x] (Flags (single fl) false).
Definition pop_one (t : Z) (fl : flags) : queue -> res queue := start_pop t 1 (Flags (single fl) false).

(** ** Runs *)

Inductive event :=
| EInsert (t : Z) (data : list A) (fl : flags)
| EPop (t count : Z) (fl : flags)
| EStep (t : Z).
(** A thread starts a call when it has none under way. *)
Definition qstep (e : event) (q : queue) : res queue :=
  match e with
  | EInsert t data fl => match default Idle (threads q !! t) with Idle => start_insert t data fl q | _ => Ok q end
  | EPop t count fl => match default Idle (threads q !! t) with Idle => start_pop t count fl q | _ => Ok q end
  | EStep t =>
      let p := default Idle (threads q !! t) in
      match p with
      | Idle => Ok q
      | ITail _ _ _ | ICas _ _ _ _ _ | ICheck _ _ _ _ | IStore _ _ _ _ | IWait _ _ _ | IPublish _ _ _ => insert_step t p q
      | _ => pop_step t p q
      end
  end.
Fixpoint qrun (es : list event) (q : queue) : res queue :=
  match es with [] => Ok q | e :: es => q ← qstep e q; qrun es q end.

(** ** The invariant *)

(** The entries a thread has reserved: their start, their number and how many it
    has copied. *)
Definition prange (p : pc) : option (Z * Z * Z) :=
  match p with
  | ICheck _ old n _ => Some (old, n, 0)
  | IStore _ old n i => Some (old, n, i)
  | IWait _ old n | IPublish _ old n => Some (old, n, n)
  | _ => None
  end.
Definition crange (p : pc) : option (Z * Z * Z) :=
  match p with
  | DCheck _ old n _ => Some (old, n, 0)
  | DRead old n i _ => Some (old, n, i)
  | DWait old n _ | DPublish old n _ => Some (old, n, n)
  | _ => None
  end.

(** [data] is the part of [l] from [old] on, for [n] items. *)
Definition matches (data l : list A) (old n : Z) : Prop :=
  forall i, 0 <= i < n -> exists v, data !! Z.to_nat i = Some v /\ l !! Z.to_nat (old + i) = Some v.

Definition pc_ok (q : queue) (p : pc) : Prop :=
  match p with
  | Idle => True
  | ITail data fl old => single fl = false /\ 0 <= old <= prodHead q
  | ICas data fl old n avail =>
      single fl = false /\ 0 <= old <= prodHead q /\ 0 < n <= count_of data /\ n <= avail /\ n <= prodMask q + consTail q - old
  | ICheck data old n avail => n <= count_of data /\ n <= avail /\ matches data (pushed q) old n
  | IStore data old n i => matches data (pushed q) old n
  | IWait data old n => True
  | IPublish data old n => True
  | DTail count fl old => single fl = false /\ 0 <= old <= consHead q /\ 0 <= count
  | DCas count fl old n avail => single fl = false /\ 0 <= old <= consHead q /\ 0 < n <= count /\ n <= avail /\ old + n <= prodTail q
  | DCheck count old n avail => n <= count /\ n <= avail
  | DRead old n i got => Z.of_nat (length got) = i /\ matches got (pushed q) old i
  | DWait old n got | DPublish old n got => Z.of_nat (length got) = n /\ matches got (pushed q) old n
  end.
Definition turn_ok (q : queue) (p : pc) : Prop :=
  match p with IPublish _ old _ => prodTail q = old | DPublish old _ _ => consTail q = old | _ => True end.

Definition pc_at (q : queue) (t : Z) : pc := default Idle (threads q !! t).

Definition stored (q : queue) (x : Z) : Prop :=
  x < prodTail q \/ exists t o n c, prange (pc_at q t) = Some (o, n, c) /\ o <= x < o + c.
Definition unread (q : queue) (x : Z) : Prop :=
  consHead q <= x \/ exists t o n c, crange (pc_at q t) = Some (o, n, c) /\ o + c <= x < o + n.

(** Reservations that follow one another from [lo] to [hi]. *)
Fixpoint tiled (lo : Z) (l : list (Z * Z)) (hi : Z) : Prop :=
  match l with
  | [] => lo = hi
  | (o, n) :: l => o = lo /\ 0 < n /\ tiled (lo + n) l hi
  end.

Variable size : Z.
Hypothesis size_pow : exists k, 0 <= k < 63 /\ size = 2 ^ k.

Record qinv (q : queue) : Prop := {
  qi_mask : prodMask q = size - 1;
  qi_len : Z.of_nat (length (storage q)) = size;
  qi_order : 0 <= consTail q <= consHead q /\ consHead q <= prodTail q <= prodHead q /\ prodHead q <= consTail q + (size - 1);
  qi_pushed : Z.of_nat (length (pushed q)) = prodHead q;
  qi_pc : forall t, pc_ok q (pc_at q t) /\ turn_ok q (pc_at q t);
  qi_prange : forall t o n c, prange (pc_at q t) = Some (o, n, c) -> prodTail q <= o /\ o + n <= prodHead q /\ 0 <= c <= n /\ 0 < n;
  qi_crange : forall t o n c, crange (pc_at q t) = Some (o, n, c) -> consTail q <= o /\ o + n <= consHead q /\ 0 <= c <= n /\ 0 < n;
  qi_papart : forall t t' o n c o' n' c', t <> t' ->
    prange (pc_at q t) = Some (o, n, c) -> prange (pc_at q t') = Some (o', n', c') -> o + n <= o' \/ o' + n' <= o;
  qi_capart : forall t t' o n c o' n' c', t <> t' ->
    crange (pc_at q t) = Some (o, n, c) -> crange (pc_at q t') = Some (o', n', c') -> o + n <= o' \/ o' + n' <= o;
  qi_cells : forall x v, consTail q <= x < prodHead q -> pushed q !! Z.to_nat x = Some v -> stored q x -> unread q x ->
    storage q !! Z.to_nat (x mod size) = Some (Some v);
  qi_taken : tiled 0 (taken q) (consHead q);
  qi_claims : forall o n, (o, n) ∈ taken q ->
    (exists t got, OPop t o got ∈ outs q /\ Z.of_nat (length got) = n) \/ (exists t c, crange (pc_at q t) = Some (o, n, c));
  qi_running : forall t o n c, crange (pc_at q t) = Some (o, n, c) ->
    (o, n) ∈ taken q /\ forall t' got, OPop t' o got ∈ outs q -> got = [];
  qi_outs : forall t o got, OPop t o got ∈ outs q -> got <> [] ->
    (o, Z.of_nat (length got)) ∈ taken q /\ matches got (pushed q) o (Z.of_nat (length got));
  qi_once : forall i j t t' o got got', outs q !! i = Some (OPop t o got) -> outs q !! j = Some (OPop t' o got') ->
    got <> [] -> got' <> [] -> i = j
}.

(** ** Facts on positions *)

Lemma size_pos : 0 < size < 2 ^ 63.
Proof.
  destruct size_pow as (k & Hk & ->). split; [apply Z.pow_pos_nonneg; lia|]. apply Z.pow_lt_mono_r; lia.
Qed.
Lemma mask_mod x : 0 <= x < 2 ^ 64 -> u64 x .& (size - 1) = x mod size.
Proof.
  intros Hx. unfold u64. rewrite wrap_small by done. destruct size_pow as (k & Hk & ->). apply land_mask. lia.
Qed.
(** Positions less than a round apart lie in different cells. *)
Lemma cell_inj x y lo : lo <= x < lo + size -> lo <= y < lo + size -> x mod size = y mod size -> x = y.
Proof.
  intros Hx Hy E. pose proof size_pos as Hs. pose proof (Z.div_mod x size ltac:(lia)). pose proof (Z.div_mod y size ltac:(lia)).
  assert (x / size = y / size); [|lia].
  assert (- size < x - y < size) by lia. assert (x - y = size * (x / size - y / size)) as E2 by lia. nia.
Qed.
Lemma matches_app data l l' old n : matches data l old n -> matches data (l ++ l') old n.
Proof. intros H i Hi. destruct (H i Hi) as (v & H1 & H2). exists v. split; [done|]. by apply lookup_app_l_Some. Qed.

Lemma pc_at_set q t p t' : pc_at (set_thread t p q) t' = if decide (t = t') then p else pc_at q t'.
Proof. unfold pc_at. cbn. destruct (decide (t = t')) as [->|]; [by rewrite lookup_insert_eq|by rewrite lookup_insert_ne]. Qed.
Lemma pc_at_return q t o t' : pc_at (return_ t o q) t' = if decide (t = t') then Idle else pc_at q t'.
Proof. unfold pc_at. cbn. destruct (decide (t = t')) as [->|]; [by rewrite lookup_insert_eq|by rewrite lookup_insert_ne]. Qed.

(** What a thread has reserved stays reserved when its step changes nothing
    else: the ranges of all threads are those of before. *)
Lemma same_ranges q q' :
  qinv q -> prodHead q' = prodHead q -> prodTail q' = prodTail q -> consHead q' = consHead q -> consTail q' = consTail q ->
  prodMask q' = prodMask q -> storage q' = storage q -> pushed q' = pushed q -> taken q' = taken q ->
  (forall t, prange (pc_at q' t) = prange (pc_at q t)) -> (forall t, crange (pc_at q' t) = crange (pc_at q t)) ->
  (forall t, pc_ok q' (pc_at q' t) /\ turn_ok q' (pc_at q' t)) ->
  (outs q' = outs q \/ exists t n, outs q' = outs q ++ [OInsert t n] \/ outs q' = outs q ++ [OPop t n []]) ->
  qinv q'.
Proof.
  intros I E1 E2 E3 E4 E5 E6 E7 E8 Hp Hc Hpc Hout.
  assert (forall i t o got, outs q' !! i = Some (OPop t o got) -> got <> [] -> outs q !! i = Some (OPop t o got)) as Hidx.
  { intros i t o got H Hg. destruct Hout as [E|(t0 & n0 & [E|E])]; rewrite E in H; [done| |];
      (apply lookup_app_Some in H as [H|[_ H]]; [done|]); apply list_lookup_singleton_Some in H as [_ H]; by simplify_eq. }
  assert (forall t o got, OPop t o got ∈ outs q' -> got <> [] -> OPop t o got ∈ outs q) as Hin.
  { intros t o got [i H]%list_elem_of_lookup Hg. apply (Hidx i) in H; [|done]. by eapply list_elem_of_lookup_2. }
  assert (forall o, o ∈ outs q -> o ∈ outs q') as Hsub.
  { intros o H. destruct Hout as [E|(t0 & n0 & [E|E])]; rewrite E; [done|apply elem_of_app; by left..]. }
  destruct I as [I1 I2 I3 I4 I5 I6 I7 I8 I9 I10 I11 I12 I13 I14 I15].
  split; rewrite ?E1, ?E2, ?E3, ?E4, ?E5, ?E6, ?E7, ?E8; try done.
  - intros t. rewrite Hp. apply I6.
  - intros t. rewrite Hc. apply I7.
  - intros t t' o n c o' n' c'. rewrite !Hp. apply I8.
  - intros t t' o n c o' n' c'. rewrite !Hc. apply I9.
  - intros x v Hx Hv Hst Hun. apply I10; try done.
    + destruct Hst as [H|(t & o & n & c & H & Hr)]; [left; lia|right]. exists t, o, n, c. by rewrite <- Hp.
    + destruct Hun as [H|(t & o & n & c & H & Hr)]; [left; lia|right]. exists t, o, n, c. by rewrite <- Hc.
  - intros o n H. destruct (I12 o n H) as [(t & got & H1 & H2)|(t & c & H1)]; [left; eauto|right]. exists t, c. by rewrite Hc.
  - intros t o n c. rewrite Hc. intros H. destruct (I13 t o n c H) as [H1 H2]. split; [done|].
    intros t' got H'. destruct (decide (got = [])) as [|Hg]; [done|]. by eapply H2, Hin.
  - intros t o got H Hg. by apply (I14 t); [apply Hin|].
  - intros i j t t' o got got' H H' Hg Hg'. by eapply I15; eauto.
Qed.

Lemma same_pc q t p :
  qinv q -> prange p = prange (pc_at q t) -> crange p = crange (pc_at q t) -> pc_ok q p -> turn_ok q p -> qinv (set_thread t p q).
Proof.
  intros I Hp Hc Hok Ht. apply (same_ranges q); try done; [..|by left]; intros t'; rewrite pc_at_set; destruct (decide (t = t')) as [<-|];
    try done; by apply I.
Qed.
Lemma same_return q t o :
  qinv q -> prange (pc_at q t) = None -> crange (pc_at q t) = None -> (exists t n, o = OInsert t n \/ o = OPop t n []) ->
  qinv (return_ t o q).
Proof.
  intros I Hp Hc (t0 & n0 & Ho). apply (same_ranges q); try done.
  4: { right. exists t0, n0. cbn. destruct Ho as [-> | ->]; [by left|by right]. }
  all: intros t'; rewrite pc_at_return; destruct (decide (t = t')) as [<-|]; try done; by apply I.
Qed.

Ltac at_thread t t' := rewrite ?pc_at_set, ?pc_at_return; destruct (decide (t = t')) as [<-|].

(** A producer reserves entries. *)
Lemma reserve_ok q t data fl old n avail :
  qinv q -> pc_at q t = ICas data fl old n avail -> prodHead q = old -> old + n < 2 ^ 64 ->
  qinv (set_thread t (ICheck data old n avail) (set_prod (u64 (old + n)) (prodTail q) (pushed q ++ take (Z.to_nat n) data) q)).
Proof.
  intros I Ep Eh Hb. destruct I as [I1 I2 I3 I4 I5 I6 I7 I8 I9 I10 I11 I12 I13 I14 I15].
  pose proof (proj1 (I5 t)) as Hok. rewrite Ep in Hok. destruct Hok as (_ & Hold & Hn & Hav & Hfree).
  unfold count_of in Hn. assert (u64 (old + n) = old + n) as -> by (unfold u64; apply wrap_small; unfold is_u; lia).
  set (q1 := set_prod _ _ _ q). set (q' := set_thread _ _ q1).
  assert (forall t', pc_at q1 t' = pc_at q t') as Eq1 by done.
  assert (forall p, pc_ok q p -> pc_ok q1 p) as Hmono.
  { intros p Hp. destruct p; cbn in *; try done; repeat split; try tauto; try lia; try (by apply matches_app); naive_solver (auto using matches_app). }
  assert (forall t', prange (pc_at q' t') = if decide (t = t') then Some (old, n, 0) else prange (pc_at q t')) as Hp.
  { intros t'. unfold q'. at_thread t t'; [done|by rewrite Eq1]. }
  assert (forall t', crange (pc_at q' t') = crange (pc_at q t')) as Hc.
  { intros t'. unfold q'. at_thread t t'; [by rewrite Ep|by rewrite Eq1]. }
  split; try done; cbn [prodHead prodTail consHead consTail pushed q' q1 set_prod set_thread storage taken outs prodMask].
  - lia.
  - rewrite length_app, length_take. lia.
  - intros t'. unfold q'. at_thread t t'.
    + split; [|done]. cbn. split; [unfold count_of; lia|]. split; [done|]. intros i Hi.
      destruct (lookup_lt_is_Some_2 data (Z.to_nat i)) as [v Hv]; [lia|]. exists v. split; [done|].
      rewrite lookup_app_r by lia. replace (Z.to_nat (old + i) - length (pushed q))%nat with (Z.to_nat i) by lia.
      by rewrite lookup_take_lt by lia.
    + rewrite Eq1. destruct (I5 t') as [H1 H2]. split; [by apply Hmono|]. by destruct (pc_at q t').
  - intros t' o m c. rewrite Hp. destruct (decide (t = t')); [intros [= <- <- <-]; lia|]. intros H. pose proof (I6 _ _ _ _ H). lia.
  - intros t'. rewrite Hc. apply I7.
  - intros t1 t2 o m c o' m' c' Hne. rewrite !Hp. destruct (decide (t = t1)) as [<-|], (decide (t = t2)) as [<-|]; try done.
    + intros [= <- <- <-] H. pose proof (I6 _ _ _ _ H). lia.
    + intros H [= <- <- <-]. pose proof (I6 _ _ _ _ H). lia.
    + by apply I8.
  - intros t1 t2 o m c o' m' c'. rewrite !Hc. apply I9.
  - intros x v Hx Hv Hst Hun.
    assert (x < prodHead q /\ stored q x) as [Hx' Hst'].
    { destruct Hst as [H|(t' & o & m & c & H & Hr)]; [cbn in H; split; [lia|by left]|]. rewrite Hp in H.
      destruct (decide (t = t')); [injection H as <- <- <-; lia|]. pose proof (I6 _ _ _ _ H). split; [lia|]. right. by exists t', o, m, c. }
    apply I10; [lia| |done|].
    + by rewrite lookup_app_l in Hv by lia.
    + destruct Hun as [H|(t' & o & m & c & H & Hr)]; [by left|right]. exists t', o, m, c. by rewrite <- Hc.
  - intros o m H. destruct (I12 o m H) as [|(t' & c & H')]; [by left|right]. exists t', c. by rewrite Hc.
  - intros t' o m c. rewrite Hc. apply I13.
  - intros t' o got H Hg. destruct (I14 t' o got H Hg). split; [done|by apply matches_app].
Qed.

Definition put_cell (c : Z) (v : option A) (q : queue) : queue :=
  Queue (prodHead q) (prodTail q) (prodMask q) (consHead q) (consTail q) (consMask q) (<[Z.to_nat c := v]> (storage q))
    (allocatedCapacity q) (threads q) (pushed q) (taken q) (outs q).
Lemma set_cell_ok q x v : qinv q -> 0 <= x -> set_cell (x mod size) v q = Ok (put_cell (x mod size) v q).
Proof.
  intros I Hx. pose proof size_pos. pose proof (Z.mod_pos_bound x size ltac:(lia)). unfold set_cell.
  rewrite aset_ok by (rewrite (qi_len _ I); lia). done.
Qed.
(** The cell of another position within the round. *)
Lemma other_cell q x y v lo :
  qinv q -> lo <= x < lo + size -> lo <= y < lo + size -> x <> y -> <[Z.to_nat (x mod size) := v]> (storage q) !! Z.to_nat (y mod size) =
    storage q !! Z.to_nat (y mod size).
Proof.
  intros I Hx Hy Hne. pose proof size_pos. pose proof (Z.mod_pos_bound x size ltac:(lia)). pose proof (Z.mod_pos_bound y size ltac:(lia)).
  apply list_lookup_insert_ne. intros E. apply Hne, (cell_inj x y lo); [done|done|lia].
Qed.

(** A producer copies an item into its cell. *)
Lemma store_ok q t data old n i x :
  qinv q -> pc_at q t = IStore data old n i -> i < n -> data !! Z.to_nat i = Some x ->
  qinv (set_thread t (IStore data old n (i + 1)) (put_cell ((old + i) mod size) (Some x) q)).
Proof.
  intros I Ep Hi Hx. pose proof I as [I1 I2 I3 I4 I5 I6 I7 I8 I9 I10 I11 I12 I13 I14 I15].
  pose proof (proj1 (I5 t)) as Hok. rewrite Ep in Hok. cbn in Hok.
  pose proof (I6 t old n i ltac:(by rewrite Ep)) as Hr. pose proof size_pos as Hs.
  set (q1 := put_cell _ _ q). set (q' := set_thread _ _ q1). assert (forall t', pc_at q1 t' = pc_at q t') as Eq1 by done.
  assert (forall t', prange (pc_at q' t') = if decide (t = t') then Some (old, n, i + 1) else prange (pc_at q t')) as Hp.
  { intros t'. unfold q'. at_thread t t'; [done|by rewrite Eq1]. }
  assert (forall t', crange (pc_at q' t') = crange (pc_at q t')) as Hc.
  { intros t'. unfold q'. at_thread t t'; [by rewrite Ep|by rewrite Eq1]. }
  split; try done; cbn [prodHead prodTail consHead consTail pushed q' q1 put_cell set_thread storage taken outs prodMask].
  - by rewrite length_insert.
  - intros t'. unfold q'. at_thread t t'; [split; [|done]; exact Hok|]. rewrite Eq1. apply (I5 t').
  - intros t' o m c. rewrite Hp. destruct (decide (t = t')); [intros [= <- <- <-]; lia|apply I6].
  - intros t'. rewrite Hc. apply I7.
  - intros t1 t2 o m c o' m' c' Hne. rewrite !Hp. destruct (decide (t = t1)) as [<-|], (decide (t = t2)) as [<-|]; try done.
    + intros [= <- <- <-] H. apply (I8 t t2 old n i o' m' c' Hne); [by rewrite Ep|done].
    + intros H [= <- <- <-]. apply (I8 t1 t o m c old n i Hne); [done|by rewrite Ep].
    + by apply I8.
  - intros t1 t2 o m c o' m' c'. rewrite !Hc. apply I9.
  - intros y v Hy Hv Hst Hun. destruct (decide (old + i = y)) as [<-|Hne].
    + destruct (Hok i ltac:(lia)) as (v' & H1 & H2). assert (v' = x) as -> by congruence. assert (v = x) as -> by congruence.
      rewrite list_lookup_insert_eq; [done|]. pose proof (Z.mod_pos_bound (old + i) size ltac:(lia)). lia.
    + rewrite (other_cell q (old + i) y _ (consTail q)) by (done || lia). apply I10; try done.
      * destruct Hst as [H|(t' & o & m & c & H & Hrg)]; [by left|right]. rewrite Hp in H. destruct (decide (t = t')) as [<-|].
        -- injection H as <- <- <-. exists t, old, n, i. rewrite Ep. split; [done|lia].
        -- by exists t', o, m, c.
      * destruct Hun as [H|(t' & o & m & c & H & Hrg)]; [by left|right]. exists t', o, m, c. by rewrite <- Hc.
  - intros o m H. destruct (I12 o m H) as [|(t' & c & H')]; [by left|right]. exists t', c. by rewrite Hc.
  - intros t' o m c. rewrite Hc. apply I13.
Qed.

(** A producer publishes its entries, in its turn. *)
Lemma publish_ok q t data old n :
  qinv q -> pc_at q t = IPublish data old n -> prodHead q < 2 ^ 64 ->
  qinv (return_ t (OInsert t n) (set_prod (prodHead q) (u64 (old + n)) (pushed q) q)).
Proof.
  intros I Ep Hb. pose proof I as [I1 I2 I3 I4 I5 I6 I7 I8 I9 I10 I11 I12 I13 I14 I15].
  pose proof (proj2 (I5 t)) as Ht. rewrite Ep in Ht. cbn in Ht. pose proof (I6 t old n n ltac:(by rewrite Ep)) as Hr.
  assert (u64 (old + n) = old + n) as -> by (unfold u64; apply wrap_small; unfold is_u; lia).
  set (q1 := set_prod _ _ _ q). set (q' := return_ _ _ q1). assert (forall t', pc_at q1 t' = pc_at q t') as Eq1 by done.
  assert (forall t', prange (pc_at q' t') = if decide (t = t') then None else prange (pc_at q t')) as Hp.
  { intros t'. unfold q'. at_thread t t'; [done|by rewrite Eq1]. }
  assert (forall t', crange (pc_at q' t') = crange (pc_at q t')) as Hc.
  { intros t'. unfold q'. at_thread t t'; [by rewrite Ep|by rewrite Eq1]. }
  assert (forall t' o m c, t <> t' -> prange (pc_at q t') = Some (o, m, c) -> old + n <= o) as Hafter.
  { intros t' o m c Hne H. pose proof (I6 _ _ _ _ H). destruct (I8 t t' old n n o m c Hne ltac:(by rewrite Ep) H); lia. }
  assert (forall i t' o got, outs q' !! i = Some (OPop t' o got) -> outs q !! i = Some (OPop t' o got)) as Hidx.
  { intros i t' o got. cbn. intros [H|[_ H]]%lookup_app_Some; [done|]. by apply list_lookup_singleton_Some in H as [_ H]. }
  assert (forall t' o got, OPop t' o got ∈ outs q' <-> OPop t' o got ∈ outs q) as Hin.
  { intros t' o got. cbn. rewrite elem_of_app, list_elem_of_singleton. naive_solver. }
  split; try done; cbn [prodHead prodTail consHead consTail pushed q' q1 set_prod return_ storage taken prodMask].
  - lia.
  - intros t'. unfold q'. at_thread t t'; [done|]. rewrite Eq1. destruct (I5 t') as [H1 H2]. split.
    + destruct (pc_at q t'); cbn in *; try done. destruct H1 as (? & ? & ? & ? & ?). split_and!; try done; lia.
    + destruct (pc_at q t') as [| | | | | |data' o m| | | | | |] eqn:E; try done. cbn in H2.
      pose proof (Hafter t' o m m ltac:(done) ltac:(by rewrite E)). lia.
  - intros t' o m c. rewrite Hp. destruct (decide (t = t')) as [|Hne]; [done|]. intros H. pose proof (I6 _ _ _ _ H).
    pose proof (Hafter _ _ _ _ Hne H). lia.
  - intros t'. rewrite Hc. apply I7.
  - intros t1 t2 o m c o' m' c' Hne. rewrite !Hp. destruct (decide (t = t1)), (decide (t = t2)); try done. by apply I8.
  - intros t1 t2 o m c o' m' c'. rewrite !Hc. apply I9.
  - intros x v Hx Hv Hst Hun. apply I10; try done.
    + destruct Hst as [H|(t' & o & m & c & H & Hrg)].
      * cbn in H. destruct (decide (x < prodTail q)); [by left|right]. exists t, old, n, n. rewrite Ep. split; [done|lia].
      * right. rewrite Hp in H. destruct (decide (t = t')); [done|]. by exists t', o, m, c.
    + destruct Hun as [H|(t' & o & m & c & H & Hrg)]; [by left|right]. exists t', o, m, c. by rewrite <- Hc.
  - intros o m H. destruct (I12 o m H) as [(t' & got & H1 & H2)|(t' & c & H')]; [left|right].
    + exists t', got. by rewrite Hin.
    + exists t', c. by rewrite Hc.
  - intros t' o m c. rewrite Hc. intros H. destruct (I13 _ _ _ _ H) as [H1 H2]. split; [done|]. intros t2 got. rewrite Hin. apply H2.
  - intros t' o got. rewrite Hin. apply I14.
  - intros i j t1 t2 o got got' H1%Hidx H2%Hidx. by eapply I15.
Qed.

Lemma tiled_in lo l hi o n : tiled lo l hi -> (o, n) ∈ l -> lo <= o /\ o + n <= hi /\ 0 < n.
Proof.
  revert lo. induction l as [|[o' n'] l IH]; intros lo Ht Hin; [by apply elem_of_nil in Hin|]. destruct Ht as (-> & Hn & Ht).
  assert (forall lo, tiled lo l hi -> lo <= hi) as Hle.
  { clear. induction l as [|[o n] l IH]; intros lo Ht; cbn in Ht; [lia|]. destruct Ht as (-> & ? & Ht). apply IH in Ht. lia. }
  apply elem_of_cons in Hin as [[= -> ->]|Hin]; [apply Hle in Ht; lia|]. apply (IH _ Ht) in Hin. lia.
Qed.
Lemma tiled_app lo l hi n : tiled lo l hi -> 0 < n -> tiled lo (l ++ [(hi, n)]) (hi + n).
Proof.
  revert lo. induction l as [|[o' n'] l IH]; intros lo Ht Hn; cbn in *; [by subst|]. destruct Ht as (-> & ? & Ht). split_and!; try done. by apply IH.
Qed.

(** A consumer reserves entries. *)
Lemma claim_ok q t count fl old n avail :
  qinv q -> pc_at q t = DCas count fl old n avail -> consHead q = old -> prodHead q < 2 ^ 64 ->
  qinv (set_thread t (DCheck count old n avail) (set_cons (u64 (old + n)) (consTail q) (taken q ++ [(old, n)]) q)).
Proof.
  intros I Ep Eh Hb. pose proof I as [I1 I2 I3 I4 I5 I6 I7 I8 I9 I10 I11 I12 I13 I14 I15].
  pose proof (proj1 (I5 t)) as Hok. rewrite Ep in Hok. destruct Hok as (_ & Hold & Hn & Hav & Hle).
  assert (u64 (old + n) = old + n) as -> by (unfold u64; apply wrap_small; unfold is_u; lia).
  set (q1 := set_cons _ _ _ q). set (q' := set_thread _ _ q1). assert (forall t', pc_at q1 t' = pc_at q t') as Eq1 by done.
  assert (forall t', crange (pc_at q' t') = if decide (t = t') then Some (old, n, 0) else crange (pc_at q t')) as Hc.
  { intros t'. unfold q'. at_thread t t'; [done|by rewrite Eq1]. }
  assert (forall t', prange (pc_at q' t') = prange (pc_at q t')) as Hp.
  { intros t'. unfold q'. at_thread t t'; [by rewrite Ep|by rewrite Eq1]. }
  split; try done; cbn [prodHead prodTail consHead consTail pushed q' q1 set_cons set_thread storage taken outs prodMask].
  - lia.
  - intros t'. unfold q'. at_thread t t'; [split; [|done]; cbn; lia|]. rewrite Eq1. destruct (I5 t') as [H1 H2].
    split; [|by destruct (pc_at q t')]. destruct (pc_at q t'); cbn in *; try done; [split; [tauto|lia]|].
    destruct H1 as (? & ? & ? & ? & ?). split_and!; try done; lia.
  - intros t'. rewrite Hp. apply I6.
  - intros t' o m c. rewrite Hc. destruct (decide (t = t')); [intros [= <- <- <-]; lia|]. intros H. pose proof (I7 _ _ _ _ H). lia.
  - intros t1 t2 o m c o' m' c'. rewrite !Hp. apply I8.
  - intros t1 t2 o m c o' m' c' Hne. rewrite !Hc. destruct (decide (t = t1)) as [<-|], (decide (t = t2)) as [<-|]; try done.
    + intros [= <- <- <-] H. pose proof (I7 _ _ _ _ H). lia.
    + intros H [= <- <- <-]. pose proof (I7 _ _ _ _ H). lia.
    + by apply I9.
  - intros x v Hx Hv Hst Hun. apply I10; try done.
    + destruct Hst as [H|(t' & o & m & c & H & Hrg)]; [by left|right]. exists t', o, m, c. by rewrite <- Hp.
    + destruct Hun as [H|(t' & o & m & c & H & Hrg)]; [left; cbn in H; lia|]. rewrite Hc in H.
      destruct (decide (t = t')); [injection H as <- <- <-; left; lia|right; by exists t', o, m, c].
  - rewrite <- Eh. apply tiled_app; [done|lia].
  - intros o m [H|H%list_elem_of_singleton]%elem_of_app.
    + destruct (I12 o m H) as [|(t' & c & H')]; [by left|right]. exists t', c. rewrite Hc. destruct (decide (t = t')) as [<-|]; [|done].
      by rewrite Ep in H'.
    + injection H as -> ->. right. exists t, 0. rewrite Hc. by rewrite decide_True.
  - intros t' o m c. rewrite Hc. destruct (decide (t = t')) as [<-|].
    + intros [= <- <- <-]. split; [apply elem_of_app; right; by apply list_elem_of_singleton|].
      intros t' got H. destruct (decide (got = [])) as [|Hg]; [done|]. destruct (I14 _ _ _ H Hg) as [H1 _].
      apply (tiled_in _ _ _ _ _ I11) in H1. lia.
    + intros H. destruct (I13 _ _ _ _ H) as [H1 H2]. split; [apply elem_of_app; by left|done].
  - intros t' o got H Hg. destruct (I14 _ _ _ H Hg). split; [apply elem_of_app; by left|done].
Qed.

(** A consumer reads an item: its cell holds it. *)
Lemma take_ok q t old n i got :
  qinv q -> pc_at q t = DRead old n i got -> i < n ->
  exists x, storage q !! Z.to_nat ((old + i) mod size) = Some (Some x) /\
    qinv (set_thread t (DRead old n (i + 1) (got ++ [x])) (put_cell ((old + i) mod size) None q)).
Proof.
  intros I Ep Hi. pose proof I as [I1 I2 I3 I4 I5 I6 I7 I8 I9 I10 I11 I12 I13 I14 I15].
  pose proof (proj1 (I5 t)) as Hok. rewrite Ep in Hok. destruct Hok as [Hlen Hgot].
  pose proof (I7 t old n i ltac:(by rewrite Ep)) as Hr. pose proof size_pos as Hs.
  destruct (lookup_lt_is_Some_2 (pushed q) (Z.to_nat (old + i))) as [x Hx]; [lia|]. exists x. split.
  { apply I10; [lia|done|left; lia|right]. exists t, old, n, i. rewrite Ep. split; [done|lia]. }
  set (q1 := put_cell _ _ q). set (q' := set_thread _ _ q1). assert (forall t', pc_at q1 t' = pc_at q t') as Eq1 by done.
  assert (forall t', crange (pc_at q' t') = if decide (t = t') then Some (old, n, i + 1) else crange (pc_at q t')) as Hc.
  { intros t'. unfold q'. at_thread t t'; [done|by rewrite Eq1]. }
  assert (forall t', prange (pc_at q' t') = prange (pc_at q t')) as Hp.
  { intros t'. unfold q'. at_thread t t'; [by rewrite Ep|by rewrite Eq1]. }
  split; try done; cbn [prodHead prodTail consHead consTail pushed q' q1 put_cell set_thread storage taken outs prodMask].
  - by rewrite length_insert.
  - intros t'. unfold q'. at_thread t t'; [|rewrite Eq1; apply (I5 t')]. split; [|done]. cbn.
    split; [rewrite length_app; cbn; lia|]. intros j Hj. destruct (decide (j = i)) as [->|].
    + exists x. split; [|done]. rewrite lookup_app_r by lia. by replace (Z.to_nat i - length got)%nat with 0%nat by lia.
    + destruct (Hgot j ltac:(lia)) as (v & H1 & H2). exists v. split; [|done]. by apply lookup_app_l_Some.
  - intros t'. rewrite Hp. apply I6.
  - intros t' o m c. rewrite Hc. destruct (decide (t = t')); [intros [= <- <- <-]; lia|apply I7].
  - intros t1 t2 o m c o' m' c'. rewrite !Hp. apply I8.
  - intros t1 t2 o m c o' m' c' Hne. rewrite !Hc. destruct (decide (t = t1)) as [<-|], (decide (t = t2)) as [<-|]; try done.
    + intros [= <- <- <-] H. apply (I9 t t2 old n i o' m' c' Hne); [by rewrite Ep|done].
    + intros H [= <- <- <-]. apply (I9 t1 t o m c old n i Hne); [done|by rewrite Ep].
    + by apply I9.
  - intros y v Hy Hv Hst Hun.
    assert (unread q y /\ old + i <> y) as [Hun' Hne].
    { destruct Hun as [H|(t' & o & m & c & H & Hrg)]; [cbn in H; split; [by left|lia]|]. rewrite Hc in H.
      destruct (decide (t = t')) as [<-|Hne].
      - injection H as <- <- <-. split; [|lia]. right. exists t, old, n, i. rewrite Ep. split; [done|lia].
      - split; [right; by exists t', o, m, c|]. pose proof (I9 t t' old n i o m c Hne ltac:(by rewrite Ep) H).
        pose proof (I7 _ _ _ _ H). lia. }
    rewrite (other_cell q (old + i) y _ (consTail q)) by (done || lia). apply I10; try done.
    destruct Hst as [H|(t' & o & m & c & H & Hrg)]; [by left|right]. exists t', o, m, c. by rewrite <- Hp.
  - intros o m H. destruct (I12 o m H) as [|(t' & c & H')]; [by left|right]. destruct (decide (t = t')) as [<-|].
    + exists t, (i + 1). rewrite Hc, decide_True by done. rewrite Ep in H'. by injection H' as <- <- <-.
    + exists t', c. by rewrite Hc, decide_False.
  - intros t' o m c. rewrite Hc. destruct (decide (t = t')) as [<-|]; [|apply I13]. intros [= <- <- <-].
    apply (I13 t old n i). by rewrite Ep.
Qed.

(** A consumer gives its cells back, in its turn. *)
Lemma deliver_ok q t old n got :
  qinv q -> pc_at q t = DPublish old n got -> prodHead q < 2 ^ 64 ->
  qinv (return_ t (OPop t old got) (set_cons (consHead q) (u64 (old + n)) (taken q) q)).
Proof.
  intros I Ep Hb. pose proof I as [I1 I2 I3 I4 I5 I6 I7 I8 I9 I10 I11 I12 I13 I14 I15].
  pose proof (I5 t) as [Hok Ht]. rewrite Ep in Hok, Ht. destruct Hok as [Hlen Hgot]. cbn in Ht.
  pose proof (I7 t old n n ltac:(by rewrite Ep)) as Hr. destruct (I13 t old n n ltac:(by rewrite Ep)) as [Hin Hfresh].
  assert (u64 (old + n) = old + n) as -> by (unfold u64; apply wrap_small; unfold is_u; lia).
  set (q1 := set_cons _ _ _ q). set (q' := return_ _ _ q1). assert (forall t', pc_at q1 t' = pc_at q t') as Eq1 by done.
  assert (forall t', crange (pc_at q' t') = if decide (t = t') then None else crange (pc_at q t')) as Hc.
  { intros t'. unfold q'. at_thread t t'; [done|by rewrite Eq1]. }
  assert (forall t', prange (pc_at q' t') = prange (pc_at q t')) as Hp.
  { intros t'. unfold q'. at_thread t t'; [by rewrite Ep|by rewrite Eq1]. }
  assert (forall t' o m c, t <> t' -> crange (pc_at q t') = Some (o, m, c) -> old + n <= o) as Hafter.
  { intros t' o m c Hne H. pose proof (I7 _ _ _ _ H). destruct (I9 t t' old n n o m c Hne ltac:(by rewrite Ep) H); lia. }
  assert (forall i t' o g, outs q' !! i = Some (OPop t' o g) ->
            outs q !! i = Some (OPop t' o g) \/ (i = length (outs q) /\ t' = t /\ o = old /\ g = got)) as Hidx.
  { intros i t' o g. cbn. intros [H|[Hi H]]%lookup_app_Some; [by left|right]. apply list_lookup_singleton_Some in H as [Hz H].
    simplify_eq. split; [lia|done]. }
  assert (forall t' o g, OPop t' o g ∈ outs q' -> OPop t' o g ∈ outs q \/ (o = old /\ g = got)) as Hout.
  { intros t' o g. cbn. rewrite elem_of_app, list_elem_of_singleton. naive_solver. }
  split; try done; cbn [prodHead prodTail consHead consTail pushed q' q1 set_cons return_ storage taken prodMask].
  - lia.
  - intros t'. unfold q'. at_thread t t'; [done|]. rewrite Eq1. destruct (I5 t') as [H1 H2]. split.
    + destruct (pc_at q t'); cbn in *; try done. destruct H1 as (? & ? & ? & ? & ?). split_and!; try done; lia.
    + destruct (pc_at q t') as [| | | | | | | | | | | |o m g] eqn:E; try done. cbn in H2.
      pose proof (Hafter t' o m m ltac:(done) ltac:(by rewrite E)). lia.
  - intros t'. rewrite Hp. apply I6.
  - intros t' o m c. rewrite Hc. destruct (decide (t = t')) as [|Hne]; [done|]. intros H. pose proof (I7 _ _ _ _ H).
    pose proof (Hafter _ _ _ _ Hne H). lia.
  - intros t1 t2 o m c o' m' c'. rewrite !Hp. apply I8.
  - intros t1 t2 o m c o' m' c' Hne. rewrite !Hc. destruct (decide (t = t1)), (decide (t = t2)); try done. by apply I9.
  - intros x v Hx Hv Hst Hun. apply I10; [lia|done|..].
    + destruct Hst as [H|(t' & o & m & c & H & Hrg)]; [by left|right]. exists t', o, m, c. by rewrite <- Hp.
    + destruct Hun as [H|(t' & o & m & c & H & Hrg)]; [by left|right]. rewrite Hc in H. destruct (decide (t = t')); [done|].
      by exists t', o, m, c.
  - intros o m H. destruct (I12 o m H) as [(t' & g & H1 & H2)|(t' & c & H')].
    + left. exists t', g. split; [cbn; apply elem_of_app; by left|done].
    + destruct (decide (t = t')) as [<-|Hne].
      * rewrite Ep in H'. injection H' as <- <- <-. left. exists t, got. split; [|done].
        cbn. apply elem_of_app. right. by apply list_elem_of_singleton.
      * right. exists t', c. by rewrite Hc, decide_False.
  - intros t' o m c. rewrite Hc. destruct (decide (t = t')) as [|Hne]; [done|]. intros H. destruct (I13 _ _ _ _ H) as [H1 H2].
    split; [done|]. intros t2 g [Hg|[-> _]]%Hout; [by eapply H2|]. pose proof (Hafter _ _ _ _ Hne H). lia.
  - intros t' o g [H|[-> ->]]%Hout Hg; [by eapply I14|]. by rewrite Hlen.
  - intros i j t1 t2 o g g' [H1|(-> & -> & -> & ->)]%Hidx [H2|(-> & -> & Eo & ->)]%Hidx Hg Hg'; [by eapply I15| | |done].
    + subst o. apply list_elem_of_lookup_2 in H1. by apply Hfresh in H1.
    + apply list_elem_of_lookup_2 in H2. by apply Hfresh in H2.
Qed.

(** ** Every step keeps the invariant *)

(** No caller claims to be alone, and counts are unsigned. *)
Definition event_ok (e : event) : Prop :=
  match e with
  | EInsert _ _ fl => single fl = false
  | EPop _ count fl => single fl = false /\ 0 <= count
  | EStep _ => True
  end.

(** What a step may do: a panic needs a consumer whose copy of the head lies a
    whole round behind the producers. *)
Definition step_spec (q : queue) (e : event) (r : res queue) : Prop :=
  match r with
  | Ok q' => qinv q' /\ prodHead q <= prodHead q' < prodHead q + size
  | Panic => exists t count fl old, e = EStep t /\ pc_at q t = DTail count fl old /\ size <= prodTail q - old
  | Stuck => False
  end.

Lemma u64_small x : 0 <= x < 2 ^ 64 -> u64 x = x.
Proof. intros. unfold u64. by apply wrap_small. Qed.

Lemma part_count free count (b : bool) :
  let n := if (free <? count) && b then free else count in n = count \/ (n = free /\ free < count).
Proof. cbv zeta. destruct (Z.ltb_spec free count), b; cbn; lia. Qed.

Lemma insert_step_ok q t :
  qinv q -> prodHead q + size <= 2 ^ 64 -> crange (pc_at q t) = None ->
  match pc_at q t with DTail _ _ _ | DCas _ _ _ _ _ => True | p => step_spec q (EStep t) (insert_step t p q) end.
Proof.
  intros I Hb Hc. pose proof size_pos as Hs. pose proof (qi_order _ I) as Ho. pose proof (qi_mask _ I) as Hm.
  pose proof (qi_pc _ I t) as [Hok Ht]. destruct (pc_at q t) as [|data fl old|data fl old n avail|data old n avail|data old n i|data old n|data old n| | | | | |] eqn:Ep;
    try done; unfold insert_step; cbv zeta.
  - cbn. split; [done|lia].
  - destruct Hok as [Hf Hold]. rewrite Hm, u64_small by lia. set (free := size - 1 + consTail q - old) in *.
    pose proof (part_count free (count_of data) (part fl)) as Hn. cbv zeta in Hn. set (n := if _ && _ then _ else _) in *. destruct (_ || _ || _) eqn:E.
    + split; [|cbn; lia]. apply same_return; rewrite ?Ep; try done. exists t, 0. by left.
    + apply orb_false_iff in E as [[E1 E2]%orb_false_iff E3]. apply Z.eqb_neq in E1, E2. apply Z.ltb_ge in E3.
      split; [|cbn; lia]. apply same_pc; rewrite ?Ep; try done. cbn. rewrite Hm. fold free.
      assert (0 <= count_of data) by (unfold count_of; lia). split_and!; try done; lia.
  - destruct Hok as (Hf & Hold & Hn & Hav & Hfree). rewrite Hf. destruct (Z.eqb_spec (prodHead q) old) as [Eh|].
    + split; [apply (reserve_ok q t data fl old n avail); try done; lia|]. cbn. rewrite u64_small by lia. lia.
    + split; [|cbn; lia]. apply same_pc; rewrite ?Ep; try done. cbn. split; [done|lia].
  - destruct Hok as (Hn & Hav & Hmt). pose proof (qi_prange _ I t old n 0 ltac:(by rewrite Ep)) as Hr.
    rewrite Hm, u64_small by lia. unfold REQUIRE. rewrite !(proj2 (Z.leb_le _ _)), (proj2 (Z.ltb_lt 0 n)) by lia. cbn.
    split; [|cbn; lia]. by apply same_pc; rewrite ?Ep.
  - pose proof (qi_prange _ I t old n i ltac:(by rewrite Ep)) as Hr. destruct (Z.ltb_spec i n) as [Hi|].
    + destruct (Hok i ltac:(lia)) as (x & Hx & _). rewrite Hx. cbn. rewrite Hm, mask_mod by lia. rewrite set_cell_ok by (done || lia).
      cbn. split; [by apply store_ok|lia].
    + split; [|cbn; lia]. apply same_pc; rewrite ?Ep; try done. cbn. by replace i with n by lia.
  - destruct (Z.eqb_spec (prodTail q) old); cbn; [|by split; [|lia]]. split; [|lia]. by apply same_pc; rewrite ?Ep.
  - split; [|cbn; lia]. apply (publish_ok q t data); try done. lia.
Qed.

Lemma pop_step_ok q t :
  qinv q -> prodHead q + size <= 2 ^ 64 -> prange (pc_at q t) = None ->
  match pc_at q t with ITail _ _ _ | ICas _ _ _ _ _ => True | p => step_spec q (EStep t) (pop_step t p q) end.
Proof.
  intros I Hb Hp. pose proof size_pos as Hs. pose proof (qi_order _ I) as Ho. pose proof (qi_mask _ I) as Hm.
  pose proof (qi_pc _ I t) as [Hok Ht]. destruct (pc_at q t) as [| | | | | | |count fl old|count fl old n avail|count old n avail|old n i got|old n got|old n got] eqn:Ep;
    try done; unfold pop_step; cbv zeta.
  - cbn. split; [done|lia].
  - destruct Hok as (Hf & Hold & Hcnt). rewrite Hm, !u64_small by lia. set (ready := prodTail q - old) in *. unfold REQUIRE.
    destruct (Z.ltb_spec ready (size - 1 + 1)) as [Hlt|Hge].
    2: { exists t, count, fl, old. split_and!; try done. lia. }
    cbn [mbind res_bind]. pose proof (part_count ready count (part fl)) as Hn. cbv zeta in Hn.
    set (n := if _ && _ then _ else _) in *. destruct (_ || _ || _) eqn:E.
    + split; [|cbn; lia]. apply same_return; rewrite ?Ep; try done. exists t, old. by right.
    + apply orb_false_iff in E as [[E1 E2]%orb_false_iff E3]. apply Z.eqb_neq in E1, E2. apply Z.ltb_ge in E3.
      split; [|cbn; lia]. apply same_pc; rewrite ?Ep; try done. cbn. split_and!; try done; lia.
  - destruct Hok as (Hf & Hold & Hn & Hav & Hle). rewrite Hf. destruct (Z.eqb_spec (consHead q) old) as [Eh|].
    + split; [|cbn; lia]. apply (claim_ok q t count fl old n avail); try done; lia.
    + split; [|cbn; lia]. apply same_pc; rewrite ?Ep; try done. cbn. split; [done|lia].
  - destruct Hok as (Hn & Hav). pose proof (qi_crange _ I t old n 0 ltac:(by rewrite Ep)) as Hr.
    rewrite u64_small by lia. unfold REQUIRE. rewrite !(proj2 (Z.leb_le _ _)), (proj2 (Z.ltb_lt 0 n)) by lia. cbn.
    split; [|lia]. apply same_pc; rewrite ?Ep; try done. cbn. split; [done|]. intros i Hi. lia.
  - pose proof (qi_crange _ I t old n i ltac:(by rewrite Ep)) as Hr. destruct (Z.ltb_spec i n) as [Hi|].
    + destruct (take_ok q t old n i got I Ep Hi) as (x & Hx & I'). rewrite Hm, mask_mod by lia.
      pose proof (Z.mod_pos_bound (old + i) size ltac:(lia)). unfold aget. rewrite (proj2 (Z.leb_le 0 _)), Hx by lia. cbn.
      rewrite set_cell_ok by (done || lia). cbn. split; [done|lia].
    + split; [|cbn; lia]. apply same_pc; rewrite ?Ep; try done; cbn; by replace n with i by lia.
  - destruct (Z.eqb_spec (consTail q) old); cbn; [|by split; [|lia]]. split; [|lia]. by apply same_pc; rewrite ?Ep.
  - split; [|cbn; lia]. apply (deliver_ok q t old n got); try done. lia.
Qed.

Lemma qstep_ok q e : qinv q -> prodHead q + size <= 2 ^ 64 -> event_ok e -> step_spec q e (qstep e q).
Proof.
  intros I Hb He. pose proof size_pos as Hs. pose proof (qi_order _ I) as Ho.
  destruct e as [t data fl|t count fl|t]; cbn [qstep]; fold (pc_at q t).
  - destruct (pc_at q t) eqn:Ep; try (split; [done|lia]). split; [|cbn; lia].
    apply same_pc; rewrite ?Ep; try done. cbn. split; [done|lia].
  - destruct (pc_at q t) eqn:Ep; try (split; [done|lia]). split; [|cbn; lia].
    apply same_pc; rewrite ?Ep; try done. cbn. destruct He. split_and!; try done; lia.
  - pose proof (insert_step_ok q t I Hb) as Hi. pose proof (pop_step_ok q t I Hb) as Hp.
    destruct (pc_at q t); (by apply Hi) || (by apply Hp).
Qed.

Lemma qrun_ok es q q' :
  qinv q -> Forall event_ok es -> prodHead q + Z.of_nat (length es) * size + size <= 2 ^ 64 -> qrun es q = Ok q' -> qinv q'.
Proof.
  pose proof size_pos as Hs. revert q. induction es as [|e es IH]; intros q I He Hb; cbn; [by intros [= <-]|].
  apply Forall_cons in He as [He Hes]. cbn [length] in Hb. pose proof (qstep_ok q e I ltac:(lia) He) as Hstep.
  destruct (qstep e q) as [q1| |]; try done. destruct Hstep as [I1 Hh]. apply IH; try done. lia.
Qed.

Lemma newQueue_ok : exists q, newQueue size = Ok q /\ qinv q /\ prodHead q = 0 /\ threads q = ∅.
Proof.
  pose proof size_pos as Hs. unfold newQueue, resize. assert (ispow2 size = true) as ->.
  { unfold ispow2. rewrite (proj2 (Z.eqb_neq _ _)) by lia. cbn. destruct size_pow as (k & Hk & ->).
    rewrite land_mask by lia. by rewrite Z.mod_same by lia. }
  eexists. split; [done|]. split; [|done]. split; cbn; try done; try lia.
  - rewrite length_replicate. lia.
  - intros o n H. by apply elem_of_nil in H.
  - intros t o got H. by apply elem_of_nil in H.
Qed.

(** ** Nothing is lost *)

Ltac requires := repeat match goal with |- context [REQUIRE ?b] => destruct b; cbn; [|done] end.

(** Every entry between a tail and its head belongs to a call under way. *)
Definition covered (q : queue) : Prop :=
  (forall x, prodTail q <= x < prodHead q -> exists t o n c, prange (pc_at q t) = Some (o, n, c) /\ o <= x < o + n) /\
  (forall x, consTail q <= x < consHead q -> exists t o n c, crange (pc_at q t) = Some (o, n, c) /\ o <= x < o + n).

Lemma covered_same q q' :
  covered q -> prodHead q' = prodHead q -> prodTail q' = prodTail q -> consHead q' = consHead q -> consTail q' = consTail q ->
  (forall t o n c, prange (pc_at q t) = Some (o, n, c) -> exists c', prange (pc_at q' t) = Some (o, n, c')) ->
  (forall t o n c, crange (pc_at q t) = Some (o, n, c) -> exists c', crange (pc_at q' t) = Some (o, n, c')) -> covered q'.
Proof.
  intros [C1 C2] E1 E2 E3 E4 Hp Hc. split; [rewrite E1, E2|rewrite E3, E4]; intros x Hx.
  - destruct (C1 x Hx) as (t & o & n & c & H & Hr). apply Hp in H as [c' H]. by exists t, o, n, c'.
  - destruct (C2 x Hx) as (t & o & n & c & H & Hr). apply Hc in H as [c' H]. by exists t, o, n, c'.
Qed.
Lemma covered_set q t p :
  covered q -> (forall o n c, prange (pc_at q t) = Some (o, n, c) -> exists c', prange p = Some (o, n, c')) ->
  (forall o n c, crange (pc_at q t) = Some (o, n, c) -> exists c', crange p = Some (o, n, c')) -> covered (set_thread t p q).
Proof.
  intros C Hp Hc. apply (covered_same q); try done; intros t' o n c H; at_thread t t'; eauto.
Qed.
Lemma covered_return q t o :
  covered q -> prange (pc_at q t) = None -> crange (pc_at q t) = None -> covered (return_ t o q).
Proof.
  intros C Hp Hc. apply (covered_same q); try done; intros t' o' n c H; at_thread t t'; eauto; congruence.
Qed.
Lemma covered_step q e q' :
  qinv q -> covered q -> prodHead q + size <= 2 ^ 64 -> event_ok e -> qstep e q = Ok q' -> covered q'.
Proof.
  intros I C Hb He. pose proof size_pos as Hs. pose proof (qi_order _ I) as Ho. pose proof (qi_mask _ I) as Hm.
  destruct e as [t data fl|t count fl|t]; cbn [qstep]; fold (pc_at q t).
  1, 2: destruct (pc_at q t) eqn:Ep; intros [= <-]; try done; by apply covered_set; rewrite ?Ep.
  pose proof (proj1 (qi_pc _ I t)) as Hok. pose proof (qi_prange _ I t) as HP. pose proof (qi_crange _ I t) as HC.
  destruct (pc_at q t) as [|data fl old|data fl old n avail|data old n avail|data old n i|data old n|data old n
    |count fl old|count fl old n avail|count old n avail|old n i got|old n got|old n got] eqn:Ep; unfold insert_step, pop_step; cbv zeta.
  - by intros [= <-].
  - destruct (_ || _ || _); intros [= <-]; [apply covered_return; by rewrite ?Ep|by apply covered_set; rewrite ?Ep].
  - destruct Hok as (Hf & Hold & Hn & Hav & Hfree). rewrite Hf, u64_small by lia.
    destruct (Z.eqb_spec (prodHead q) old) as [Eh|]; intros [= <-]; [|by apply covered_set; rewrite ?Ep].
    destruct C as [C1 C2]. split; cbn; intros x Hx.
    + destruct (decide (x < old)).
      * destruct (C1 x ltac:(lia)) as (t' & o & m & c & H & Hr). exists t', o, m, c. at_thread t t'; [by rewrite Ep in H|done].
      * exists t, old, n, 0. rewrite pc_at_set, decide_True by done. split; [done|lia].
    + destruct (C2 x Hx) as (t' & o & m & c & H & Hr). exists t', o, m, c. at_thread t t'; [by rewrite Ep in H|done].
  - requires. intros [= <-].
    apply covered_set; rewrite ?Ep; try done. cbn. intros ? ? ? [= <- <- <-]. eauto.
  - destruct (i <? n); [|intros [= <-]; apply covered_set; rewrite ?Ep; try done; cbn; intros ? ? ? [= <- <- <-]; eauto].
    destruct (data !! _); cbn; [|done]. unfold set_cell. destruct (aset _ _ _) as [s| |]; cbn; [|done..]. intros [= <-].
    apply (covered_same q); try done; intros t' o m c H; at_thread t t'; eauto; rewrite Ep in H; [|done]. cbn in *. simplify_eq. eauto.
  - destruct (negb _); intros [= <-]; [done|]. apply covered_set; rewrite ?Ep; try done. cbn. intros ? ? ? [= <- <- <-]. eauto.
  - intros [= <-]. pose proof (HP _ _ _ eq_refl) as Hr. rewrite u64_small by lia. destruct C as [C1 C2]. split; cbn; intros x Hx.
    + destruct (C1 x ltac:(lia)) as (t' & o & m & c & H & Hr'). exists t', o, m, c. at_thread t t'; [|done].
      rewrite Ep in H. cbn in H. simplify_eq. lia.
    + destruct (C2 x Hx) as (t' & o & m & c & H & Hr'). exists t', o, m, c. at_thread t t'; [by rewrite Ep in H|done].
  - requires.
    destruct (_ || _ || _); intros [= <-]; [apply covered_return; by rewrite ?Ep|by apply covered_set; rewrite ?Ep].
  - destruct Hok as (Hf & Hold & Hn & Hav & Hfree). rewrite Hf, u64_small by lia.
    destruct (Z.eqb_spec (consHead q) old) as [Eh|]; intros [= <-]; [|by apply covered_set; rewrite ?Ep].
    destruct C as [C1 C2]. split; cbn; intros x Hx.
    + destruct (C1 x Hx) as (t' & o & m & c & H & Hr). exists t', o, m, c. at_thread t t'; [by rewrite Ep in H|done].
    + destruct (decide (x < old)).
      * destruct (C2 x ltac:(lia)) as (t' & o & m & c & H & Hr). exists t', o, m, c. at_thread t t'; [by rewrite Ep in H|done].
      * exists t, old, n, 0. rewrite pc_at_set, decide_True by done. split; [done|lia].
  - requires. intros [= <-].
    apply covered_set; rewrite ?Ep; try done. cbn. intros ? ? ? [= <- <- <-]. eauto.
  - destruct (i <? n); [|intros [= <-]; apply covered_set; rewrite ?Ep; try done; cbn; intros ? ? ? [= <- <- <-]; eauto].
    destruct (aget _ _) as [[x|]| |]; cbn; [|done..]. unfold set_cell. destruct (aset _ _ _) as [s| |]; cbn; [|done..]. intros [= <-].
    apply (covered_same q); try done; intros t' o m c H; at_thread t t'; eauto; rewrite Ep in H; [done|]. cbn in *. simplify_eq. eauto.
  - destruct (negb _); intros [= <-]; [done|]. apply covered_set; rewrite ?Ep; try done. cbn. intros ? ? ? [= <- <- <-]. eauto.
  - intros [= <-]. pose proof (HC _ _ _ eq_refl) as Hr. rewrite u64_small by lia. destruct C as [C1 C2]. split; cbn; intros x Hx.
    + destruct (C1 x Hx) as (t' & o & m & c & H & Hr'). exists t', o, m, c. at_thread t t'; [by rewrite Ep in H|done].
    + destruct (C2 x ltac:(lia)) as (t' & o & m & c & H & Hr'). exists t', o, m, c. at_thread t t'; [|done].
      rewrite Ep in H. cbn in H. simplify_eq. lia.
Qed.
Lemma qrun_covered es q q' :
  qinv q -> covered q -> Forall event_ok es -> prodHead q + Z.of_nat (length es) * size + size <= 2 ^ 64 -> qrun es q = Ok q' -> covered q'.
Proof.
  pose proof size_pos as Hs. revert q. induction es as [|e es IH]; intros q I C He Hb; cbn; [by intros [= <-]|].
  apply Forall_cons in He as [He Hes]. cbn [length] in Hb. pose proof (qstep_ok q e I ltac:(lia) He) as Hstep.
  destruct (qstep e q) as [q1| |] eqn:E; try done. destruct Hstep as [I1 Hh].
  pose proof (covered_step q e q1 I C ltac:(lia) He E). apply IH; try done. lia.
Qed.

Lemma matches_slice got l o : matches got l o (Z.of_nat (length got)) -> 0 <= o -> take (length got) (drop (Z.to_nat o) l) = got.
Proof.
  intros H Ho. apply list_eq. intros i. destruct (decide (i < length got)%nat) as [Hi|].
  - destruct (H (Z.of_nat i) ltac:(lia)) as (v & H1 & H2). rewrite Nat2Z.id in H1. rewrite lookup_take_lt, lookup_drop, H1 by lia.
    rewrite <- H2. f_equal. lia.
  - rewrite (lookup_ge_None_2 got i) by lia. apply lookup_ge_None. rewrite length_take. lia.
Qed.

(** A waiting thread waits for the thread whose entries come first, and that
    one does not wait. *)
Lemma turn_taker q t p (H : pc_at q t = p) : qinv q -> covered q ->
  match p with
  | IWait _ old _ => prodTail q <> old -> exists t' d n', prange (pc_at q t') = Some (prodTail q, n', d) /\ t' <> t
  | DWait old _ _ => consTail q <> old -> exists t' d n', crange (pc_at q t') = Some (consTail q, n', d) /\ t' <> t
  | _ => True
  end.
Proof.
  intros I [C1 C2]. destruct p as [| | | | |data old n| | | | | |old n got|]; try done; intros Hne.
  - pose proof (qi_prange _ I t old n n ltac:(by rewrite H)) as Hr.
    destruct (C1 (prodTail q) ltac:(lia)) as (t' & o & m & c & Hp & Hx). pose proof (qi_prange _ I _ _ _ _ Hp).
    replace o with (prodTail q) in Hp by lia. exists t', c, m. split; [done|]. intros ->. rewrite H in Hp. by simplify_eq/=.
  - pose proof (qi_crange _ I t old n n ltac:(by rewrite H)) as Hr.
    destruct (C2 (consTail q) ltac:(lia)) as (t' & o & m & c & Hp & Hx). pose proof (qi_crange _ I _ _ _ _ Hp).
    replace o with (consTail q) in Hp by lia. exists t', c, m. split; [done|]. intros ->. rewrite H in Hp. by simplify_eq/=.
Qed.

(** A thread spins when its step leaves it where it is. *)
Definition spins (q : queue) (t : Z) : Prop :=
  match pc_at q t with
  | Idle => True
  | IWait _ old _ => prodTail q <> old
  | DWait old _ _ => consTail q <> old
  | _ => False
  end.
Lemma set_thread_moves q q1 t p : pc_at q t <> p -> Ok (set_thread t p q1) <> Ok q.
Proof. intros Hne [= E]. apply Hne. rewrite <- E, pc_at_set. by rewrite decide_True. Qed.
Lemma return_moves q q1 t o : pc_at q t <> Idle -> Ok (return_ t o q1) <> Ok q.
Proof. intros Hne [= E]. apply Hne. rewrite <- E, pc_at_return. by rewrite decide_True. Qed.

Lemma not_spinning q t : ~ spins q t -> qstep (EStep t) q <> Ok q.
Proof.
  unfold spins. intros Hs. cbn [qstep]. fold (pc_at q t).
  destruct (pc_at q t) as [|data fl old|data fl old n avail|data old n avail|data old n i|data old n|data old n
    |count fl old|count fl old n avail|count old n avail|old n i got|old n got|old n got] eqn:Ep; unfold insert_step, pop_step; cbv zeta;
    [by destruct Hs|..]; requires;
    try (destruct (_ || _ || _)); try (by apply return_moves; rewrite Ep); try (by apply set_thread_moves; rewrite Ep).
  - destruct (single fl); [|destruct (_ =? _)]; by apply set_thread_moves; rewrite Ep.
  - destruct (i <? n); [|by apply set_thread_moves; rewrite Ep]. destruct (data !! _); cbn; [|done].
    destruct (set_cell _ _ _) as [q1| |]; cbn; [|done..]. apply set_thread_moves. rewrite Ep. intros [=]. lia.
  - destruct (Z.eqb_spec (prodTail q) old); cbn; [|done]. by apply set_thread_moves; rewrite Ep.
  - destruct (single fl); [|destruct (_ =? _)]; by apply set_thread_moves; rewrite Ep.
  - destruct (i <? n); [|by apply set_thread_moves; rewrite Ep]. destruct (aget _ _) as [[x|]| |]; cbn; [|done..].
    destruct (set_cell _ _ _) as [q1| |]; cbn; [|done..]. apply set_thread_moves. rewrite Ep. intros [=]. lia.
  - destruct (Z.eqb_spec (consTail q) old); cbn; [|done]. by apply set_thread_moves; rewrite Ep.
Qed.

(** The thread whose entries come first does not spin. *)
Lemma first_moves q t n c :
  qinv q -> 0 < n -> prange (pc_at q t) = Some (prodTail q, n, c) \/ crange (pc_at q t) = Some (consTail q, n, c) -> ~ spins q t.
Proof.
  unfold spins. intros I Hn [H|H]; destruct (pc_at q t); try done; cbn in H; simplify_eq; tauto.
Qed.
Lemma some_moves q t : qinv q -> covered q -> pc_at q t <> Idle -> exists t', ~ spins q t'.
Proof.
  intros I C Hne. pose proof (turn_taker q t _ eq_refl I C) as Ht.
  destruct (pc_at q t) as [| | | | |data old n| | | | | |old n got|] eqn:Ep; try (exists t; unfold spins; rewrite Ep; tauto).
  - destruct (decide (prodTail q = old)); [exists t; unfold spins; rewrite Ep; tauto|]. destruct (Ht ltac:(done)) as (t' & c & m & H & _).
    exists t'. pose proof (qi_prange _ I _ _ _ _ H). eapply (first_moves q t' m c); [done|lia|by left].
  - destruct (decide (consTail q = old)); [exists t; unfold spins; rewrite Ep; tauto|]. destruct (Ht ltac:(done)) as (t' & c & m & H & _).
    exists t'. pose proof (qi_crange _ I _ _ _ _ H). eapply (first_moves q t' m c); [done|lia|by right].
Qed.

Definition is_idle (p : pc) : bool := match p with Idle => true | _ => false end.

(** ** A single consumer *)

Definition is_pop (p : pc) : bool :=
  match p with DTail _ _ _ | DCas _ _ _ _ _ | DCheck _ _ _ _ | DRead _ _ _ _ | DWait _ _ _ | DPublish _ _ _ => true | _ => false end.
Definition pops_by (c : Z) (e : event) : Prop := match e with EPop t _ _ => t = c | _ => True end.
(** Only [c] is in [pop], and the head it works with is the current one. *)
Definition sole (c : Z) (q : queue) : Prop :=
  (forall t, is_pop (pc_at q t) = true -> t = c) /\
  match pc_at q c with DTail _ _ old | DCas _ _ old _ _ => old = consHead q | _ => True end.

Lemma sole_frame c t q q' :
  sole c q -> (forall t', t <> t' -> pc_at q' t' = pc_at q t') -> (is_pop (pc_at q' t) = true -> t = c) ->
  (t <> c -> consHead q' = consHead q) ->
  match pc_at q' t with DTail _ _ old | DCas _ _ old _ _ => old = consHead q' | _ => True end -> sole c q'.
Proof.
  intros [S1 S2] Ht Hp Hh Hcur. split.
  - intros t'. destruct (decide (t = t')) as [<-|]; [done|]. rewrite Ht by done. apply S1.
  - destruct (decide (t = c)) as [<-|]; [done|]. rewrite Ht by done. by rewrite Hh.
Qed.
Ltac sole_case t :=
  cbn; intros [= <-]; first [done|eapply (sole_frame _ t); [done
    |intros t' Hne; rewrite ?pc_at_set, ?pc_at_return, ?decide_False by done; done
    |rewrite ?pc_at_set, ?pc_at_return, ?decide_True by done; done
    |done
    |rewrite ?pc_at_set, ?pc_at_return, ?decide_True by done; done]].
Lemma sole_step c q e q' : sole c q -> event_ok e -> pops_by c e -> qstep e q = Ok q' -> sole c q'.
Proof.
  intros S He Hby. destruct e as [t data fl|t count fl|t]; cbn [qstep]; fold (pc_at q t).
  1, 2: unfold start_insert, start_pop; destruct (pc_at q t) eqn:Ep; sole_case t.
  pose proof (proj1 S t) as St. pose proof (proj2 S) as Sc.
  destruct (pc_at q t) as [|data fl old|data fl old n avail|data old n avail|data old n i|data old n|data old n
    |count fl old|count fl old n avail|count old n avail|old n i got|old n got|old n got] eqn:Ep; unfold insert_step, pop_step; cbv zeta;
    try (specialize (St eq_refl); subst t; rewrite Ep in Sc); requires; try (destruct (_ || _ || _)); try (sole_case t); try (sole_case c).
  - destruct (single fl); [|destruct (_ =? _)]; sole_case t.
  - destruct (i <? n); [|sole_case t]. destruct (data !! _); cbn; [|done]. unfold set_cell. destruct (aset _ _ _); sole_case t.
  - destruct (negb _); sole_case t.
  - destruct (single fl); [|destruct (_ =? _)]; sole_case c.
  - destruct (i <? n); [|sole_case c]. destruct (aget _ _) as [[x|]| |]; cbn; [|done..]. unfold set_cell. destruct (aset _ _ _); sole_case c.
  - destruct (negb _); sole_case c.
Qed.
Lemma sole_run c es q :
  qinv q -> sole c q -> Forall event_ok es -> Forall (pops_by c) es -> prodHead q + Z.of_nat (length es) * size + size <= 2 ^ 64 ->
  exists q', qrun es q = Ok q'.
Proof.
  pose proof size_pos as Hs. revert q. induction es as [|e es IH]; intros q I S He Hby Hb; cbn; [eauto|].
  apply Forall_cons in He as [He Hes]. apply Forall_cons in Hby as [Hby Hbys]. cbn [length] in Hb.
  pose proof (qstep_ok q e I ltac:(lia) He) as Hstep. destruct (qstep e q) as [q1| |] eqn:E; try done.
  - destruct Hstep as [I1 Hh]. apply IH; try done; [by eapply sole_step|lia].
  - destruct Hstep as (t & count & fl & old & -> & Ep & Hfar). pose proof (qi_order _ I). destruct S as [S1 S2].
    assert (t = c) as -> by (apply S1; by rewrite Ep). rewrite Ep in S2. lia.
Qed.

(** ** Theorems *)

(** Runs that keep the 64-bit counters from wrapping. *)
Definition short_run (es : list event) : Prop := (Z.of_nat (length es) + 1) * size <= 2 ^ 64.

Lemma run_inv es q0 q :
  newQueue size = Ok q0 -> Forall event_ok es -> short_run es -> qrun es q0 = Ok q -> qinv q /\ covered q.
Proof.
  intros H0 He Hs Hq. destruct newQueue_ok as (q0' & E & I & Hh & Ht). assert (q0' = q0) as -> by congruence.
  unfold short_run in Hs. assert (covered q0) as C.
  { unfold newQueue, resize in H0. destruct (REQUIRE _); try done. injection H0 as <-. split; cbn; lia. }
  split; [eapply qrun_ok|eapply qrun_covered]; try done; lia.
Qed.

(** C9: the queue is first in, first out for any number of producers and
    consumers and any interleaving of their accesses: the reservations of the
    consumers follow one another without gap or overlap from the first entry to
    [consHead]; what a completed [pop] returned is the run of items that were
    reserved for insertion at those positions, in their order; a reservation has
    been returned by a [pop] or belongs to one still under way, and none is
    returned twice; and at most [size - 1] entries are reserved and not yet
    given back. *)
Theorem queue_fifo es q0 q :
  newQueue size = Ok q0 -> Forall event_ok es -> short_run es -> qrun es q0 = Ok q ->
  tiled 0 (taken q) (consHead q) /\
  consHead q <= prodTail q <= prodHead q /\ prodHead q = Z.of_nat (length (pushed q)) /\ prodHead q - consTail q <= size - 1 /\
  (forall t o got, OPop t o got ∈ outs q -> got <> [] ->
     (o, Z.of_nat (length got)) ∈ taken q /\ got = take (length got) (drop (Z.to_nat o) (pushed q))) /\
  (forall o n, (o, n) ∈ taken q ->
     (exists t got, OPop t o got ∈ outs q /\ Z.of_nat (length got) = n) \/ (exists t c, crange (pc_at q t) = Some (o, n, c))) /\
  (forall i j t t' o got got', outs q !! i = Some (OPop t o got) -> outs q !! j = Some (OPop t' o got') ->
     got <> [] -> got' <> [] -> i = j).
Proof.
  intros H0 He Hs Hq. destruct (run_inv _ _ _ H0 He Hs Hq) as [I _]. pose proof (qi_order _ I).
  split; [apply I|]. split; [lia|]. split; [by rewrite (qi_pushed _ I)|]. split; [lia|]. split; [|split; apply I].
  intros t o got Hin Hg. destruct (qi_outs _ I t o got Hin Hg) as [H1 H2]. split; [done|]. symmetry. apply matches_slice; [done|].
  apply (tiled_in _ _ _ _ _ (qi_taken _ I)) in H1. lia.
Qed.

(** C10: no access waits for ever on a thread that is itself waiting: after any
    run, either no call is under way, and then every reserved entry has been
    published, every claimed one given back and the cells from [consHead] on hold
    the items that are left; or some thread's next step does something. *)
Theorem queue_progress es q0 q :
  newQueue size = Ok q0 -> Forall event_ok es -> short_run es -> qrun es q0 = Ok q ->
  (forall t, pc_at q t = Idle) /\ prodTail q = prodHead q /\ consTail q = consHead q /\
    (forall x, consHead q <= x < prodHead q -> storage q !! Z.to_nat (x mod size) = Some <$> (pushed q !! Z.to_nat x)) \/
  exists t, qstep (EStep t) q <> Ok q.
Proof.
  intros H0 He Hs Hq. destruct (run_inv _ _ _ H0 He Hs Hq) as [I C]. pose proof (qi_order _ I) as Ho.
  destruct (decide (map_Forall (fun _ p => is_idle p = true) (threads q))) as [Hall|Hnot].
  - left. assert (forall t, pc_at q t = Idle) as Hidle.
    { intros t. unfold pc_at. destruct (threads q !! t) as [p|] eqn:E; [|done]. apply Hall in E. by destruct p. }
    destruct C as [C1 C2]. split_and!; [done|..].
    + destruct (decide (prodTail q < prodHead q)); [|lia]. destruct (C1 (prodTail q)) as (t & ? & ? & ? & H & _); [lia|]. by rewrite Hidle in H.
    + destruct (decide (consTail q < consHead q)); [|lia]. destruct (C2 (consTail q)) as (t & ? & ? & ? & H & _); [lia|]. by rewrite Hidle in H.
    + intros x Hx. pose proof (qi_pushed _ I). destruct (lookup_lt_is_Some_2 (pushed q) (Z.to_nat x)) as [v Hv]; [lia|]. rewrite Hv. cbn.
      apply (qi_cells _ I); [lia|done|left|left; lia].
      destruct (decide (prodTail q < prodHead q)); [|lia]. destruct (C1 (prodTail q)) as (t & ? & ? & ? & H' & _); [lia|]. by rewrite Hidle in H'.
  - right. apply map_not_Forall in Hnot as (t & p & Hp & Hni); [|solve_decision]. assert (pc_at q t <> Idle) as Hne.
    { unfold pc_at. rewrite Hp. by intros E; cbn in E; subst. }
    destruct (some_moves q t I C Hne) as [t' Hm]. exists t'. by apply not_spinning.
Qed.

(** With a single consumer, and any number of producers, no [REQUIRE] of the
    queue fails and no access leaves the storage or reads an empty cell, in any
    interleaving. *)
Theorem single_consumer_safe c es q0 :
  newQueue size = Ok q0 -> Forall event_ok es -> Forall (pops_by c) es -> short_run es -> exists q, qrun es q0 = Ok q.
Proof.
  intros H0 He Hby Hs. destruct newQueue_ok as (q0' & E & I & Hh & Ht). assert (q0' = q0) as -> by congruence.
  unfold short_run in Hs. apply (sole_run c); try done; [|lia]. split; unfold pc_at; rewrite Ht; [done|by rewrite lookup_empty].
Qed.

(** ** Calls that do not overlap *)

(** No call is under way and nothing is reserved. *)
Record quiet (q : queue) : Prop := {
  qu_inv : qinv q; qu_covered : covered q; qu_idle : forall t, pc_at q t = Idle;
  qu_prod : prodTail q = prodHead q; qu_cons : consTail q = consHead q
}.
(** The items in the queue, first to last. *)
Definition contents (q : queue) : list A := drop (Z.to_nat (consHead q)) (pushed q).

Lemma quiet_len q : quiet q -> Z.of_nat (length (contents q)) = prodHead q - consHead q.
Proof.
  intros [I _ _ _ _]. pose proof (qi_order _ I). unfold contents. rewrite length_drop, Nat2Z.inj_sub by (pose proof (qi_pushed _ I); lia).
  rewrite (qi_pushed _ I). lia.
Qed.

Lemma step_at q t p : pc_at q t = p ->
  qstep (EStep t) q = match p with
                      | Idle => Ok q
                      | ITail _ _ _ | ICas _ _ _ _ _ | ICheck _ _ _ _ | IStore _ _ _ _ | IWait _ _ _ | IPublish _ _ _ => insert_step t p q
                      | _ => pop_step t p q
                      end.
Proof. intros <-. done. Qed.
Lemma idle_steps q t n : pc_at q t = Idle -> qrun (replicate n (EStep t)) q = Ok q.
Proof. intros H. induction n as [|n IH]; [done|]. cbn [replicate qrun]. rewrite (step_at _ _ _ H). exact IH. Qed.
Lemma pc_set q t p : pc_at (set_thread t p q) t = p.
Proof. rewrite pc_at_set. by rewrite decide_True. Qed.

(** The calls for one item, run to their end. *)
Inductive call := CInsert (t : Z) (x : A) | CPop (t : Z).
Definition one : flags := Flags false false.
Definition call_events (k : call) : list event :=
  match k with CInsert t x => EInsert t [x] one :: replicate 7 (EStep t) | CPop t => EPop t 1 one :: replicate 7 (EStep t) end.

Lemma start_at q t data fl : pc_at q t = Idle -> qstep (EInsert t data fl) q = Ok (set_thread t (ITail data fl (prodHead q)) q).
Proof. unfold pc_at. cbn [qstep]. by intros ->. Qed.
Lemma start_pop_at q t n fl : pc_at q t = Idle -> qstep (EPop t n fl) q = Ok (set_thread t (DTail n fl (consHead q)) q).
Proof. unfold pc_at. cbn [qstep]. by intros ->. Qed.
Lemma qrun_cons e es q q' : qstep e q = Ok q' -> qrun (e :: es) q = qrun es q'.
Proof. cbn [qrun]. by intros ->. Qed.

(** An item goes in when there is room, and nothing happens when there is not. *)
Lemma solo_insert q t x :
  quiet q -> prodHead q + size <= 2 ^ 64 -> exists q', qrun (call_events (CInsert t x)) q = Ok q' /\
    (forall s, pc_at q' s = Idle) /\ prodTail q' = prodHead q' /\ consTail q' = consHead q' /\ consHead q' = consHead q /\
    if prodHead q - consHead q <? size - 1 then pushed q' = pushed q ++ [x] /\ outs q' = outs q ++ [OInsert t 1]
    else pushed q' = pushed q /\ outs q' = outs q ++ [OInsert t 0].
Proof.
  intros [I _ Hid Hp Hc] Hb. pose proof size_pos as Hs. pose proof (qi_order _ I) as Ho. pose proof (qi_mask _ I) as Hm. pose proof (qi_len _ I) as Hlen.
  unfold call_events. rewrite (qrun_cons _ _ _ _ (start_at q t [x] one (Hid t))). set (q1 := set_thread t _ q). cbn [replicate].
  assert (forall q0 s, (forall u, u <> t -> pc_at q0 u = Idle) -> pc_at q0 t = Idle -> pc_at q0 s = Idle) as Hall.
  { intros q0 s H1 H2. destruct (decide (s = t)) as [->|]; auto. }
  assert (u64 (prodMask q1 + consTail q1 - prodHead q) = size - 1 + consHead q - prodHead q) as Ef.
  { cbn. rewrite Hm, Hc. apply u64_small. lia. }
  destruct (Z.ltb_spec (prodHead q - consHead q) (size - 1)) as [Hroom|Hfull].
  - assert (qstep (EStep t) q1 = Ok (set_thread t (ICas [x] one (prodHead q) 1 (size - 1 + consHead q - prodHead q)) q1)) as E1.
    { rewrite (step_at q1 t _ (pc_set _ _ _)). unfold insert_step. cbv zeta. rewrite Ef. change (count_of [x]) with 1. rewrite andb_false_r.
      rewrite (proj2 (Z.eqb_neq _ 0)) by lia. rewrite (proj2 (Z.ltb_ge _ 1)) by lia. done. }
    rewrite (qrun_cons _ _ _ _ E1). set (q2 := set_thread t (ICas _ _ _ _ _) q1).
    set (q3 := set_thread t (ICheck [x] (prodHead q) 1 (size - 1 + consHead q - prodHead q)) (set_prod (prodHead q + 1) (prodTail q) (pushed q ++ [x]) q2)).
    assert (qstep (EStep t) q2 = Ok q3) as E2.
    { rewrite (step_at q2 t _ (pc_set _ _ _)). unfold insert_step. cbv zeta. cbn [single one]. change (prodHead q2) with (prodHead q).
      rewrite Z.eqb_refl, u64_small by lia. done. }
    rewrite (qrun_cons _ _ _ _ E2). set (q4 := set_thread t (IStore [x] (prodHead q) 1 0) q3).
    assert (qstep (EStep t) q3 = Ok q4) as E3.
    { rewrite (step_at q3 t _ (pc_set _ _ _)). unfold insert_step. cbv zeta. change (prodMask q3) with (prodMask q). change (consTail q3) with (consTail q).
      rewrite Hm, Hc, u64_small by lia. unfold REQUIRE. change (count_of [x]) with 1. rewrite !(proj2 (Z.leb_le 1 _)) by lia. done. }
    rewrite (qrun_cons _ _ _ _ E3). set (cell := prodHead q mod size). pose proof (Z.mod_pos_bound (prodHead q) size ltac:(lia)) as Hcell. fold cell in Hcell.
    set (q5 := set_thread t (IStore [x] (prodHead q) 1 1) (put_cell cell (Some x) q4)).
    assert (qstep (EStep t) q4 = Ok q5) as E4.
    { rewrite (step_at q4 t _ (pc_set _ _ _)). unfold insert_step. cbv zeta. change (prodMask q4) with (prodMask q). rewrite Hm, Z.add_0_r, mask_mod by lia. fold cell.
      cbn [Z.ltb Z.compare]. change ([x] !! Z.to_nat 0) with (Some x). cbn [res_of mbind res_bind]. unfold set_cell. change (storage q4) with (storage q).
      rewrite aset_ok by lia. done. }
    rewrite (qrun_cons _ _ _ _ E4). set (q6 := set_thread t (IWait [x] (prodHead q) 1) q5).
    assert (qstep (EStep t) q5 = Ok q6) as E5 by (by rewrite (step_at q5 t _ (pc_set _ _ _))).
    rewrite (qrun_cons _ _ _ _ E5). set (q7 := set_thread t (IPublish [x] (prodHead q) 1) q6).
    assert (qstep (EStep t) q6 = Ok q7) as E6.
    { rewrite (step_at q6 t _ (pc_set _ _ _)). unfold insert_step. cbv zeta. change (prodTail q6) with (prodTail q). by rewrite Hp, Z.eqb_refl. }
    rewrite (qrun_cons _ _ _ _ E6).
    assert (qstep (EStep t) q7 = Ok (return_ t (OInsert t 1) (set_prod (prodHead q7) (prodHead q + 1) (pushed q7) q7))) as E7.
    { rewrite (step_at q7 t _ (pc_set _ _ _)). unfold insert_step. cbv zeta. by rewrite u64_small by lia. }
    rewrite (qrun_cons _ _ _ _ E7). eexists. split; [done|]. split_and!; try done.
    intros s. apply Hall; [|rewrite pc_at_return; by rewrite decide_True]. intros u Hu. unfold pc_at. cbn.
    rewrite !lookup_insert_ne by done. apply Hid.
  - assert (qstep (EStep t) q1 = Ok (return_ t (OInsert t 0) q1)) as E1.
    { rewrite (step_at q1 t _ (pc_set _ _ _)). unfold insert_step. cbv zeta. rewrite Ef. rewrite (proj2 (Z.eqb_eq _ 0)) by lia. done. }
    rewrite (qrun_cons _ _ _ _ E1), (idle_steps _ t 6) by (rewrite pc_at_return; by rewrite decide_True). eexists. split; [done|]. split_and!; try done.
    intros s. apply Hall; [|rewrite pc_at_return; by rewrite decide_True]. intros u Hu. rewrite pc_at_return, decide_False by done.
    unfold q1. rewrite pc_at_set, decide_False by done. apply Hid.
Qed.

(** The first item comes out, if there is one. *)
Lemma solo_pop q t :
  quiet q -> prodHead q + size <= 2 ^ 64 -> exists q', qrun (call_events (CPop t)) q = Ok q' /\
    (forall s, pc_at q' s = Idle) /\ prodTail q' = prodHead q' /\ consTail q' = consHead q' /\ pushed q' = pushed q /\
    match contents q with
    | y :: _ => consHead q' = consHead q + 1 /\ outs q' = outs q ++ [OPop t (consHead q) [y]]
    | [] => consHead q' = consHead q /\ outs q' = outs q ++ [OPop t (consHead q) []]
    end.
Proof.
  intros Q Hb. pose proof (quiet_len q Q) as Hlc. destruct Q as [I _ Hid Hp Hc]. pose proof size_pos as Hs. pose proof (qi_order _ I) as Ho.
  pose proof (qi_mask _ I) as Hm. pose proof (qi_len _ I) as Hlen.
  unfold call_events. rewrite (qrun_cons _ _ _ _ (start_pop_at q t 1 one (Hid t))). set (q1 := set_thread t _ q). cbn [replicate].
  assert (forall q0 s, (forall u, u <> t -> pc_at q0 u = Idle) -> pc_at q0 t = Idle -> pc_at q0 s = Idle) as Hall.
  { intros q0 s H1 H2. destruct (decide (s = t)) as [->|]; auto. }
  set (n := prodHead q - consHead q) in *. assert (u64 (prodTail q1 - consHead q) = n) as Er by (cbn; rewrite Hp; apply u64_small; lia).
  assert (forall k : res queue, (_ ← REQUIRE (n <? u64 (prodMask q1 + 1)); k) = k) as Hreq.
  { intros k. change (prodMask q1) with (prodMask q). rewrite Hm, u64_small by lia. unfold REQUIRE. by rewrite (proj2 (Z.ltb_lt _ _)) by lia. }
  destruct (contents q) as [|y rest] eqn:Ec.
  - assert (qstep (EStep t) q1 = Ok (return_ t (OPop t (consHead q) []) q1)) as E1.
    { rewrite (step_at q1 t _ (pc_set _ _ _)). unfold pop_step. cbv zeta. rewrite Er, Hreq. cbn in Hlc. by rewrite <- Hlc. }
    rewrite (qrun_cons _ _ _ _ E1), (idle_steps _ t 6) by (rewrite pc_at_return; by rewrite decide_True). eexists. split; [done|]. split_and!; try done.
    intros s. apply Hall; [|rewrite pc_at_return; by rewrite decide_True]. intros u Hu. unfold pc_at. cbn. rewrite !lookup_insert_ne by done. apply Hid.
  - cbn [length] in Hlc. assert (pushed q !! Z.to_nat (consHead q) = Some y) as Hy.
    { unfold contents in Ec. rewrite <- (Nat.add_0_r (Z.to_nat (consHead q))), <- lookup_drop, Ec. done. }
    assert (qstep (EStep t) q1 = Ok (set_thread t (DCas 1 one (consHead q) 1 n) q1)) as E1.
    { rewrite (step_at q1 t _ (pc_set _ _ _)). unfold pop_step. cbv zeta. rewrite Er, Hreq. rewrite andb_false_r.
      rewrite (proj2 (Z.eqb_neq n 0)) by lia. by rewrite (proj2 (Z.ltb_ge n 1)) by lia. }
    rewrite (qrun_cons _ _ _ _ E1). set (q2 := set_thread t (DCas _ _ _ _ _) q1).
    set (q3 := set_thread t (DCheck 1 (consHead q) 1 n) (set_cons (consHead q + 1) (consTail q) (taken q ++ [(consHead q, 1)]) q2)).
    assert (qstep (EStep t) q2 = Ok q3) as E2.
    { rewrite (step_at q2 t _ (pc_set _ _ _)). unfold pop_step. cbv zeta. cbn [single one]. change (consHead q2) with (consHead q).
      rewrite Z.eqb_refl, u64_small by lia. done. }
    rewrite (qrun_cons _ _ _ _ E2). set (q4 := set_thread t (DRead (consHead q) 1 0 []) q3).
    assert (qstep (EStep t) q3 = Ok q4) as E3.
    { rewrite (step_at q3 t _ (pc_set _ _ _)). unfold pop_step. cbv zeta. change (prodTail q3) with (prodTail q).
      rewrite Hp, u64_small by lia. fold n. unfold REQUIRE. rewrite !(proj2 (Z.leb_le 1 _)) by lia. done. }
    rewrite (qrun_cons _ _ _ _ E3). set (cell := consHead q mod size). pose proof (Z.mod_pos_bound (consHead q) size ltac:(lia)) as Hcell. fold cell in Hcell.
    assert (storage q !! Z.to_nat cell = Some (Some y)) as Hst by (apply (qi_cells _ I); [lia|done|left; lia|left; lia]).
    set (q5 := set_thread t (DRead (consHead q) 1 1 [y]) (put_cell cell None q4)).
    assert (qstep (EStep t) q4 = Ok q5) as E4.
    { rewrite (step_at q4 t _ (pc_set _ _ _)). unfold pop_step. cbv zeta. change (prodMask q4) with (prodMask q). rewrite Hm, Z.add_0_r, mask_mod by lia. fold cell.
      cbn [Z.ltb Z.compare]. unfold set_cell, aget. change (storage q4) with (storage q). rewrite (proj2 (Z.leb_le 0 cell)), Hst by lia. cbn [res_of mbind res_bind].
      rewrite aset_ok by lia. done. }
    rewrite (qrun_cons _ _ _ _ E4). set (q6 := set_thread t (DWait (consHead q) 1 [y]) q5).
    assert (qstep (EStep t) q5 = Ok q6) as E5 by (by rewrite (step_at q5 t _ (pc_set _ _ _))).
    rewrite (qrun_cons _ _ _ _ E5). set (q7 := set_thread t (DPublish (consHead q) 1 [y]) q6).
    assert (qstep (EStep t) q6 = Ok q7) as E6.
    { rewrite (step_at q6 t _ (pc_set _ _ _)). unfold pop_step. cbv zeta. change (consTail q6) with (consTail q). by rewrite Hc, Z.eqb_refl. }
    rewrite (qrun_cons _ _ _ _ E6).
    assert (qstep (EStep t) q7 = Ok (return_ t (OPop t (consHead q) [y]) (set_cons (consHead q7) (consHead q + 1) (taken q7) q7))) as E7.
    { rewrite (step_at q7 t _ (pc_set _ _ _)). unfold pop_step. cbv zeta. by rewrite u64_small by lia. }
    rewrite (qrun_cons _ _ _ _ E7). eexists. split; [done|]. split_and!; try done.
    intros s. apply Hall; [|rewrite pc_at_return; by rewrite decide_True]. intros u Hu. unfold pc_at. cbn. rewrite !lookup_insert_ne by done. apply Hid.
Qed.

(** The bounded sequence that the calls work on: the new contents and the items
    that the call hands over. *)
Definition list_call (k : call) (l : list A) : list A * (bool * list A) :=
  match k with
  | CInsert _ x => if Z.of_nat (length l) <? size - 1 then (l ++ [x], (true, [])) else (l, (false, []))
  | CPop _ => match l with y :: l => (l, (true, [y])) | [] => ([], (false, [])) end
  end.
Fixpoint list_calls (ks : list call) (l : list A) : list A * list (bool * list A) :=
  match ks with
  | [] => (l, [])
  | k :: ks => let '(l, o) := list_call k l in let '(l, os) := list_calls ks l in (l, o :: os)
  end.
Definition out_value (o : out) : bool * list A :=
  match o with OInsert _ n => (negb (n =? 0), []) | OPop _ _ got => (negb (bool_decide (length got = 0%nat)), got) end.

Lemma call_ok k q :
  quiet q -> prodHead q + 8 * size + size <= 2 ^ 64 -> exists q' o, qrun (call_events k) q = Ok q' /\ quiet q' /\
    prodHead q <= prodHead q' <= prodHead q + 1 /\ outs q' = outs q ++ [o] /\ list_call k (contents q) = (contents q', out_value o).
Proof.
  intros Q Hb. pose proof size_pos as Hs. pose proof (quiet_len q Q) as Hlc. pose proof Q as [I C Hid Hp Hc]. pose proof (qi_order _ I) as Ho.
  assert (Forall event_ok (call_events k)) as He by (destruct k; cbn; repeat constructor; done || lia).
  assert (length (call_events k) = 8%nat) as Hl by (by destruct k).
  assert (forall q', qrun (call_events k) q = Ok q' -> qinv q' /\ covered q') as Hk.
  { intros q' E. split; [eapply (qrun_ok (call_events k) q)|eapply (qrun_covered (call_events k) q)]; try done; rewrite Hl; lia. }
  assert (forall q', qinv q' -> prodHead q' = Z.of_nat (length (pushed q'))) as Hph by (intros q' I'; by rewrite (qi_pushed _ I')).
  destruct k as [t x|t].
  - destruct (solo_insert q t x Q ltac:(lia)) as (q' & E & H1 & H2 & H3 & H4 & H5). destruct (Hk q' E) as [I' C'].
    rewrite <- Hlc in H5. exists q'. pose proof (Hph q I) as P1. pose proof (Hph q' I') as P2. unfold list_call, contents in *. rewrite H4.
    destruct (_ <? size - 1); destruct H5 as [H5 H6]; rewrite H5 in *; eexists; (split; [done|]); (split; [by split|]); (split; [rewrite ?length_app in P2; cbn in P2; lia|]);
      (split; [done|]); [|done].
    rewrite drop_app_le; [done|]. lia.
  - destruct (solo_pop q t Q ltac:(lia)) as (q' & E & H1 & H2 & H3 & H4 & H5). destruct (Hk q' E) as [I' C'].
    exists q'. pose proof (Hph q I) as P1. pose proof (Hph q' I') as P2. unfold list_call. rewrite H4 in P2. unfold contents at 2. rewrite H4.
    destruct (contents q) as [|y l] eqn:Ec; destruct H5 as [H5 H6]; rewrite H5; eexists; (split; [done|]); (split; [by split|]); (split; [lia|]); (split; [done|]).
    + unfold contents in Ec. by rewrite Ec.
    + unfold contents in Ec. replace (Z.to_nat (consHead q + 1)) with (Z.to_nat (consHead q) + 1)%nat by lia. by rewrite <- drop_drop, Ec.
Qed.

Lemma qrun_app es es' q q' : qrun es q = Ok q' -> qrun (es ++ es') q = qrun es' q'.
Proof.
  revert q. induction es as [|e es IH]; intros q; cbn; [by intros [= ->]|]. destruct (qstep e q) as [q1| |]; cbn; [apply IH|done..].
Qed.
Lemma calls_ok ks : forall q,
  quiet q -> prodHead q + Z.of_nat (length ks) + 9 * size <= 2 ^ 64 -> exists q' os, qrun (concat (call_events <$> ks)) q = Ok q' /\
    outs q' = outs q ++ os /\ list_calls ks (contents q) = (contents q', out_value <$> os).
Proof.
  induction ks as [|k ks IH]; intros q Q Hb; [by exists q, []; rewrite app_nil_r|].
  cbn [length] in Hb. destruct (call_ok k q Q ltac:(lia)) as (q1 & o & E1 & Q1 & Hh & Ho & El).
  destruct (IH q1 Q1 ltac:(lia)) as (q2 & os & E2 & Hos & El2). exists q2, (o :: os). cbn [fmap list_fmap concat].
  split; [by rewrite (qrun_app _ _ _ _ E1)|]. split; [by rewrite Hos, Ho, <- app_assoc|]. cbn [list_calls]. by rewrite El, El2.
Qed.
(** Calls for one item that do not overlap behave as on a first-in, first-out
    sequence of at most [size - 1] items: they never fail, an insertion succeeds
    exactly when there is room, and a removal hands over the first item exactly when
    there is one. *)
Theorem queue_calls_refine ks q0 :
  newQueue size = Ok q0 -> Z.of_nat (length ks) + 9 * size <= 2 ^ 64 ->
  exists q, qrun (concat (call_events <$> ks)) q0 = Ok q /\ contents q = (list_calls ks []).1 /\ out_value <$> outs q = (list_calls ks []).2.
Proof.
  intros H0 Hb. destruct newQueue_ok as (q & E & I & Hh & Ht). assert (q = q0) as -> by congruence.
  unfold newQueue, resize in H0. destruct (REQUIRE _); try done. cbn in H0.
  assert (quiet q0) as Q. { injection H0 as <-. split; try done. split; cbn; lia. }
  destruct (calls_ok ks q0 Q ltac:(lia)) as (q & os & E1 & Ho & El). exists q. split; [done|].
  assert (contents q0 = [] /\ outs q0 = []) as [E2 E3] by (by injection H0 as <-). rewrite E2 in El. rewrite El, Ho, E3. done.
Qed.
End Queue.

(** ** Witnesses and examples *)

Definition fl0 : flags := Flags false false.
Definition flp : flags := Flags false true.
Definition steps (t : Z) (n : nat) : list (@event Z) := replicate n (EStep t).

(** Two producers whose reservations and copies interleave, and a consumer. *)
Definition demo : list event :=
  [EInsert 1 [10; 11] fl0; EInsert 2 [20] fl0] ++ steps 1 2 ++ steps 2 6 ++ steps 1 10 ++ steps 2 4 ++ [EPop 3 3 flp] ++ steps 3 12.
Definition start4 : @queue Z := Queue 0 0 3 0 0 3 (replicate 4 None) 4 ∅ [] [] [].
Definition after_demo : @queue Z := match qrun demo start4 with Ok q => q | _ => start4 end.

Lemma size4 : exists k, 0 <= k < 63 /\ 4 = 2 ^ k.
Proof. exists 2. lia. Qed.
Lemma demo_runs : qrun demo start4 = Ok after_demo.
Proof. unfold after_demo. destruct (qrun demo start4) eqn:E; [done|vm_compute in E; congruence..]. Qed.
Lemma demo_events : Forall event_ok demo.
Proof. repeat (constructor; [done || (split; [done|lia])|]). constructor. Qed.
(** Producer 2 reserves after producer 1, copies first and waits for it. *)
Example demo_outs : outs after_demo = [OInsert 1 2; OInsert 2 1; OPop 3 0 [10; 11; 20]].
Proof. by vm_compute. Qed.

Lemma queue_fifo_witness : tiled 0 (taken after_demo) (consHead after_demo).
Proof. refine (proj1 (queue_fifo 4 size4 demo start4 after_demo eq_refl demo_events _ demo_runs)). unfold short_run. vm_compute. congruence. Defined.
Lemma queue_progress_witness : prodTail after_demo = prodHead after_demo \/ exists t, qstep (EStep t) after_demo <> Ok after_demo.
Proof.
  destruct (queue_progress 4 size4 demo start4 after_demo eq_refl demo_events) as [H|H]; [vm_compute; congruence|exact demo_runs|left; apply H|by right].
Defined.
Lemma single_consumer_safe_witness : exists q, qrun demo start4 = Ok q.
Proof.
  apply (single_consumer_safe 4 size4 3 demo start4 eq_refl demo_events); [|vm_compute; congruence].
  repeat (constructor; [done|]). constructor.
Defined.

Lemma queue_calls_refine_witness : exists q, qrun (concat (call_events <$> [CInsert 1 7; CInsert 2 8; CPop 3; CInsert 1 9; CInsert 1 10; CInsert 2 11])) start4 = Ok q /\
  contents q = [8; 9; 10].
Proof.
  destruct (queue_calls_refine 4 size4 [CInsert 1 7; CInsert 2 8; CPop 3; CInsert 1 9; CInsert 1 10; CInsert 2 11] start4 eq_refl) as (q & E & Hc & _);
    [cbn; lia|]. exists q. split; [exact E|exact Hc].
Defined.

(** With two consumers the check on the number of ready entries can fail: one
    reads [consHead], the other takes three entries, and three more arrive before
    the first reads [prodTail]. *)
Definition stale_run : list event :=
  [EInsert 1 [1; 2; 3] fl0] ++ steps 1 9 ++ [EPop 3 1 fl0; EPop 2 3 fl0] ++ steps 2 9 ++ [EInsert 1 [4; 5; 6] fl0] ++ steps 1 9.
Example stale_consumer_panics :
  match qrun stale_run start4 with Ok q => qstep (EStep 3) q = Panic | _ => False end.
Proof. by vm_compute. Qed.

(** [capacityFree] subtracts the consumer's tail: after three entries have passed
    through an empty queue of four cells it gives -3, where three are free. *)
Example capacityFree_wraps : capacityFree after_demo = 2 ^ 64 - 3 /\ empty after_demo = true.
Proof. by vm_compute. Qed.
