(* ===== verification/Scheduler.v ===== *)
(** * The scheduler of one core (kernel/src/sched/Scheduler.cpp, Scheduler.h,
      SchedulerData.h, Oclock.cpp, Thread.cpp, SleepDeadline.h, IdleWorker.h and
      arch/x86_64/src/sched/Thread.cpp)

    The run queues, the accounting of time, the choice of the next thread, the
    context switch, and how threads sleep, block, wait for notifications, are woken
    and end.  The queues are bounded sequences: LockFreeQueue.v shows that its
    calls, when none overlap, behave so.  A scheduler is only called on its own
    core; the calls here run one after the other, but the timer interrupt may also
    come while a thread is searched for, and a thread may be interrupted between
    marking itself as waiting and yielding. *)

From S2P Require Import Prelude Vector MinHeap Deadlines.
Open Scope mach_scope.

(** ** Data *)

(** [Thread::State] and [BlockState]. *)
Inductive State := Paused | Runnable | Blocked | Sleeping | NotifyWait | Zombie.
Inductive BlockState := BNone | Blocking | Unblocked | Timeout | Aborted.
#[export] Instance State_eq_dec : EqDecision State.
Proof. solve_decision. Defined.
#[export] Instance BlockState_eq_dec : EqDecision BlockState.
Proof. solve_decision. Defined.

(** [SchedulerThreadDataFlags]. *)
Definition DoNotSchedule : Z := 1 << 15.
Definition Idle : Z := 1 << 16.
Definition TestFlags (f : Z) : bool := negb (f =? 0).

Record SchedulerThreadData := ThreadData {
  level : Z; maxLevel : Z; lastLevel : Z; cpuTime : Z; quantumTotal : Z; quantumUsed : Z;
  queuePushed : Z; queuePopped : Z; flags : Z; preempted : bool; unblockRequested : bool
}.
Definition newThreadData : SchedulerThreadData := ThreadData 0 0 UINTPTR_MAX 0 0 0 0 0 0 false false.

(** What a thread does next: it executes, is about to yield, or is back from
    yielding.  [After] is the call it is in. *)
Inductive After := KNone | KBlock (d : DeadlineWrapper) | KNotify (d : DeadlineWrapper) (mask : Z).
Inductive Cont := Run | ToYield (k : After) | Back (k : After).

(** [cont] stands for the stack of the thread. *)
Record Thread := Thr {
  state : State; kernelMode : bool; isActive : bool; needsToDie : bool; attachedToTask : bool; sched : SchedulerThreadData;
  notifications : Z; notificationMask : Z; notified : bool; blockingOn : list Z; blockState : BlockState; cont : Cont
}.

(** [Oclock]: the stopwatches of a core. *)
Record Oclock := Clock { accumulator : list Z; startTimes : list Z; active : option Z }.
Definition ThreadKernel : Z := 0.

(** A scheduler with the threads it knows, the interrupt level of its core, the
    requested scheduler interrupt, the programmed timer and the two clocks.
    [calls] gives the thread of a deadline object and whether it is a
    [SleepDeadline] or a [BlockWait]; [work] is the queue of the idle worker. *)
Record core := Core {
  threads : gmap Z Thread; running : option Z; timer : Oclock; levels : list (list Z); unblocked : list Z;
  levelEpoch : Z; currentLevel : Z; maxScheduledLevel : Z; deadlines : Vector DeadlineWrapper; calls : gmap Z (Z * bool);
  idle : Z; work : list Z; irql : Z; ipi : bool; localTimer : Z; tsc : Z; now : Z
}.

Definition set_level x (d : SchedulerThreadData) : SchedulerThreadData := ThreadData x (maxLevel d) (lastLevel d) (cpuTime d) (quantumTotal d) (quantumUsed d) (queuePushed d) (queuePopped d) (flags d) (preempted d) (unblockRequested d).
Definition set_maxLevel x (d : SchedulerThreadData) : SchedulerThreadData := ThreadData (level d) x (lastLevel d) (cpuTime d) (quantumTotal d) (quantumUsed d) (queuePushed d) (queuePopped d) (flags d) (preempted d) (unblockRequested d).
Definition set_lastLevel x (d : SchedulerThreadData) : SchedulerThreadData := ThreadData (level d) (maxLevel d) x (cpuTime d) (quantumTotal d) (quantumUsed d) (queuePushed d) (queuePopped d) (flags d) (preempted d) (unblockRequested d).
Definition set_cpuTime x (d : SchedulerThreadData) : SchedulerThreadData := ThreadData (level d) (maxLevel d) (lastLevel d) x (quantumTotal d) (quantumUsed d) (queuePushed d) (queuePopped d) (flags d) (preempted d) (unblockRequested d).
Definition set_quantumTotal x (d : SchedulerThreadData) : SchedulerThreadData := ThreadData (level d) (maxLevel d) (lastLevel d) (cpuTime d) x (quantumUsed d) (queuePushed d) (queuePopped d) (flags d) (preempted d) (unblockRequested d).
Definition set_quantumUsed x (d : SchedulerThreadData) : SchedulerThreadData := ThreadData (level d) (maxLevel d) (lastLevel d) (cpuTime d) (quantumTotal d) x (queuePushed d) (queuePopped d) (flags d) (preempted d) (unblockRequested d).
Definition set_queuePushed x (d : SchedulerThreadData) : SchedulerThreadData := ThreadData (level d) (maxLevel d) (lastLevel d) (cpuTime d) (quantumTotal d) (quantumUsed d) x (queuePopped d) (flags d) (preempted d) (unblockRequested d).
Definition set_queuePopped x (d : SchedulerThreadData) : SchedulerThreadData := ThreadData (level d) (maxLevel d) (lastLevel d) (cpuTime d) (quantumTotal d) (quantumUsed d) (queuePushed d) x (flags d) (preempted d) (unblockRequested d).
Definition set_flags x (d : SchedulerThreadData) : SchedulerThreadData := ThreadData (level d) (maxLevel d) (lastLevel d) (cpuTime d) (quantumTotal d) (quantumUsed d) (queuePushed d) (queuePopped d) x (preempted d) (unblockRequested d).
Definition set_preempted x (d : SchedulerThreadData) : SchedulerThreadData := ThreadData (level d) (maxLevel d) (lastLevel d) (cpuTime d) (quantumTotal d) (quantumUsed d) (queuePushed d) (queuePopped d) (flags d) x (unblockRequested d).
Definition set_unblockRequested x (d : SchedulerThreadData) : SchedulerThreadData := ThreadData (level d) (maxLevel d) (lastLevel d) (cpuTime d) (quantumTotal d) (quantumUsed d) (queuePushed d) (queuePopped d) (flags d) (preempted d) x.

Definition set_state x (t : Thread) : Thread := Thr x (kernelMode t) (isActive t) (needsToDie t) (attachedToTask t) (sched t) (notifications t) (notificationMask t) (notified t) (blockingOn t) (blockState t) (cont t).
Definition set_kernelMode x (t : Thread) : Thread := Thr (state t) x (isActive t) (needsToDie t) (attachedToTask t) (sched t) (notifications t) (notificationMask t) (notified t) (blockingOn t) (blockState t) (cont t).
Definition set_isActive x (t : Thread) : Thread := Thr (state t) (kernelMode t) x (needsToDie t) (attachedToTask t) (sched t) (notifications t) (notificationMask t) (notified t) (blockingOn t) (blockState t) (cont t).
Definition set_needsToDie x (t : Thread) : Thread := Thr (state t) (kernelMode t) (isActive t) x (attachedToTask t) (sched t) (notifications t) (notificationMask t) (notified t) (blockingOn t) (blockState t) (cont t).
Definition set_attachedToTask x (t : Thread) : Thread := Thr (state t) (kernelMode t) (isActive t) (needsToDie t) x (sched t) (notifications t) (notificationMask t) (notified t) (blockingOn t) (blockState t) (cont t).
Definition set_sched x (t : Thread) : Thread := Thr (state t) (kernelMode t) (isActive t) (needsToDie t) (attachedToTask t) x (notifications t) (notificationMask t) (notified t) (blockingOn t) (blockState t) (cont t).
Definition set_notifications x (t : Thread) : Thread := Thr (state t) (kernelMode t) (isActive t) (needsToDie t) (attachedToTask t) (sched t) x (notificationMask t) (notified t) (blockingOn t) (blockState t) (cont t).
Definition set_notificationMask x (t : Thread) : Thread := Thr (state t) (kernelMode t) (isActive t) (needsToDie t) (attachedToTask t) (sched t) (notifications t) x (notified t) (blockingOn t) (blockState t) (cont t).
Definition set_notified x (t : Thread) : Thread := Thr (state t) (kernelMode t) (isActive t) (needsToDie t) (attachedToTask t) (sched t) (notifications t) (notificationMask t) x (blockingOn t) (blockState t) (cont t).
Definition set_blockingOn x (t : Thread) : Thread := Thr (state t) (kernelMode t) (isActive t) (needsToDie t) (attachedToTask t) (sched t) (notifications t) (notificationMask t) (notified t) x (blockState t) (cont t).
Definition set_blockState x (t : Thread) : Thread := Thr (state t) (kernelMode t) (isActive t) (needsToDie t) (attachedToTask t) (sched t) (notifications t) (notificationMask t) (notified t) (blockingOn t) x (cont t).
Definition set_cont x (t : Thread) : Thread := Thr (state t) (kernelMode t) (isActive t) (needsToDie t) (attachedToTask t) (sched t) (notifications t) (notificationMask t) (notified t) (blockingOn t) (blockState t) x.

Definition set_threads x (c : core) : core := Core x (running c) (timer c) (levels c) (unblocked c) (levelEpoch c) (currentLevel c) (maxScheduledLevel c) (deadlines c) (calls c) (idle c) (work c) (irql c) (ipi c) (localTimer c) (tsc c) (now c).
Definition set_running x (c : core) : core := Core (threads c) x (timer c) (levels c) (unblocked c) (levelEpoch c) (currentLevel c) (maxScheduledLevel c) (deadlines c) (calls c) (idle c) (work c) (irql c) (ipi c) (localTimer c) (tsc c) (now c).
Definition set_timer x (c : core) : core := Core (threads c) (running c) x (levels c) (unblocked c) (levelEpoch c) (currentLevel c) (maxScheduledLevel c) (deadlines c) (calls c) (idle c) (work c) (irql c) (ipi c) (localTimer c) (tsc c) (now c).
Definition set_levels x (c : core) : core := Core (threads c) (running c) (timer c) x (unblocked c) (levelEpoch c) (currentLevel c) (maxScheduledLevel c) (deadlines c) (calls c) (idle c) (work c) (irql c) (ipi c) (localTimer c) (tsc c) (now c).
Definition set_unblocked x (c : core) : core := Core (threads c) (running c) (timer c) (levels c) x (levelEpoch c) (currentLevel c) (maxScheduledLevel c) (deadlines c) (calls c) (idle c) (work c) (irql c) (ipi c) (localTimer c) (tsc c) (now c).
Definition set_levelEpoch x (c : core) : core := Core (threads c) (running c) (timer c) (levels c) (unblocked c) x (currentLevel c) (maxScheduledLevel c) (deadlines c) (calls c) (idle c) (work c) (irql c) (ipi c) (localTimer c) (tsc c) (now c).
Definition set_currentLevel x (c : core) : core := Core (threads c) (running c) (timer c) (levels c) (unblocked c) (levelEpoch c) x (maxScheduledLevel c) (deadlines c) (calls c) (idle c) (work c) (irql c) (ipi c) (localTimer c) (tsc c) (now c).
Definition set_maxScheduledLevel x (c : core) : core := Core (threads c) (running c) (timer c) (levels c) (unblocked c) (levelEpoch c) (currentLevel c) x (deadlines c) (calls c) (idle c) (work c) (irql c) (ipi c) (localTimer c) (tsc c) (now c).
Definition set_deadlines x (c : core) : core := Core (threads c) (running c) (timer c) (levels c) (unblocked c) (levelEpoch c) (currentLevel c) (maxScheduledLevel c) x (calls c) (idle c) (work c) (irql c) (ipi c) (localTimer c) (tsc c) (now c).
Definition set_calls x (c : core) : core := Core (threads c) (running c) (timer c) (levels c) (unblocked c) (levelEpoch c) (currentLevel c) (maxScheduledLevel c) (deadlines c) x (idle c) (work c) (irql c) (ipi c) (localTimer c) (tsc c) (now c).
Definition set_idle x (c : core) : core := Core (threads c) (running c) (timer c) (levels c) (unblocked c) (levelEpoch c) (currentLevel c) (maxScheduledLevel c) (deadlines c) (calls c) x (work c) (irql c) (ipi c) (localTimer c) (tsc c) (now c).
Definition set_work x (c : core) : core := Core (threads c) (running c) (timer c) (levels c) (unblocked c) (levelEpoch c) (currentLevel c) (maxScheduledLevel c) (deadlines c) (calls c) (idle c) x (irql c) (ipi c) (localTimer c) (tsc c) (now c).
Definition set_irql x (c : core) : core := Core (threads c) (running c) (timer c) (levels c) (unblocked c) (levelEpoch c) (currentLevel c) (maxScheduledLevel c) (deadlines c) (calls c) (idle c) (work c) x (ipi c) (localTimer c) (tsc c) (now c).
Definition set_ipi x (c : core) : core := Core (threads c) (running c) (timer c) (levels c) (unblocked c) (levelEpoch c) (currentLevel c) (maxScheduledLevel c) (deadlines c) (calls c) (idle c) (work c) (irql c) x (localTimer c) (tsc c) (now c).
Definition set_localTimer x (c : core) : core := Core (threads c) (running c) (timer c) (levels c) (unblocked c) (levelEpoch c) (currentLevel c) (maxScheduledLevel c) (deadlines c) (calls c) (idle c) (work c) (irql c) (ipi c) x (tsc c) (now c).
Definition set_tsc x (c : core) : core := Core (threads c) (running c) (timer c) (levels c) (unblocked c) (levelEpoch c) (currentLevel c) (maxScheduledLevel c) (deadlines c) (calls c) (idle c) (work c) (irql c) (ipi c) (localTimer c) x (now c).
Definition set_now x (c : core) : core := Core (threads c) (running c) (timer c) (levels c) (unblocked c) (levelEpoch c) (currentLevel c) (maxScheduledLevel c) (deadlines c) (calls c) (idle c) (work c) (irql c) (ipi c) (localTimer c) (tsc c) x.

Definition thr (t : Z) : st core Thread := fun c => th ← res_of (threads c !! t); Ok (th, c).
Definition upd (t : Z) (f : Thread -> Thread) : st core () :=
  fun c => th ← res_of (threads c !! t); Ok ((), set_threads (<[t := f th]> (threads c)) c).
Definition upd_sched (t : Z) (f : SchedulerThreadData -> SchedulerThreadData) : st core () :=
  upd t (fun th => set_sched (f (sched th)) th).
Definition require (b : bool) : st core () := slift (REQUIRE b).
Definition get {A} (f : core -> A) : st core A := fun c => Ok (f c, c).
Definition when (b : bool) (m : st core ()) : st core () := if b then m else mret ().

(** ** Interrupt level (platform/pc64/src/irq/Irql.cpp) *)

Definition Passive : Z := 0.
Definition SchedulerIrql : Z := 3.
Definition raise_irql (l : Z) : st core Z :=
  old ← get irql; _ ← require (old <=? l); _ ← smod (set_irql l); mret old.
Definition lower_irql (l : Z) : st core () :=
  old ← get irql; _ ← require (l <=? old); smod (set_irql l).
Definition sendIpi : st core () := smod (set_ipi true).

(** ** Stopwatches *)

Definition Oclock_stop_type (t : Z) (ts : Z) (o : Oclock) : res Oclock :=
  start ← aget (startTimes o) t;
  a ← aget (accumulator o) t;
  acc ← aset (accumulator o) t (u64 (a + u64 (ts - start)));
  Ok (Clock acc (startTimes o) None).
Definition Oclock_stop (ts : Z) (o : Oclock) : res Oclock :=
  match active o with None => Ok o | Some t => Oclock_stop_type t ts o end.
Definition Oclock_start (t : Z) (ts : Z) (o : Oclock) : res Oclock :=
  o ← Oclock_stop ts o;
  s ← aset (startTimes o) t ts;
  Ok (Clock (accumulator o) s (Some t)).
Definition Oclock_reset (t : Z) (o : Oclock) : res (Z * Oclock) :=
  a ← aget (accumulator o) t;
  acc ← aset (accumulator o) t 0;
  Ok (a, Clock acc (startTimes o) (active o)).
Definition timer_start : st core () :=
  c ← sget; o ← slift (Oclock_start ThreadKernel (tsc c) (timer c)); smod (set_timer o).

(** ** Levels and quantum *)

Definition kNumLevels : Z := 32.
Definition kUserPriorityLevel : Z := 4.
Definition levelChangeMaxLoops : nat := 5.
Definition deadlineSlack : Z := 500.
Definition timerMinInterval : Z := 50000.
Definition gLevelInfo : list Z :=
  (fun m => 1000000 * m) <$>
  [3; 6; 12; 20; 5; 10; 15; 20; 25; 30; 35; 40; 45; 50; 55; 60; 70; 80; 90; 100; 110; 120; 130; 140; 150; 175; 200; 225; 250; 300; 400; 500].

Definition threadWasCreated (t : Thread) : Thread :=
  let m := if kernelMode t then 0 else kUserPriorityLevel in
  set_sched (set_level m (set_maxLevel m (sched t))) t.

Definition getLevelFor (d : SchedulerThreadData) : Z :=
  let l := if kNumLevels <=? level d then kNumLevels - 1 else level d in
  if l <? maxLevel d then maxLevel d else l.

Definition updateQuantumLength (t : Z) : st core () :=
  th ← thr t;
  total ← slift (aget gLevelInfo (getLevelFor (sched th)));
  upd_sched t (set_quantumTotal total).

Definition updateQuantumUsed (t : Z) : st core bool :=
  c ← sget;
  o ← slift (Oclock_stop (tsc c) (timer c));
  '(nsec, o) ← slift (Oclock_reset ThreadKernel o);
  _ ← smod (set_timer o);
  th ← thr t;
  let d := sched th in
  let used := u64 (quantumUsed d + nsec) in
  _ ← upd_sched t (set_cpuTime (u64 (cpuTime d + nsec)));
  if quantumTotal d <? used then
    let l := u64 (level d + 1) in
    _ ← upd_sched t (fun d => set_lastLevel (level d) d);
    _ ← upd_sched t (set_level (if kNumLevels <=? l then kNumLevels - 1 else l));
    _ ← upd_sched t (set_quantumUsed (u64 (used - quantumTotal d)));
    _ ← updateQuantumLength t;
    mret true
  else
    _ ← upd_sched t (set_quantumUsed used);
    mret false.

(** ** Run queues *)

(** [LockFreeQueue] of the default size, for one item. *)
Definition queueRoom : Z := 63.
Definition qpush (x : Z) (q : list Z) : option (list Z) := if Z.of_nat (length q) <? queueRoom then Some (q ++ [x]) else None.

(** The calling code of [schedule] does not look at a negative result: it panics
    before. *)
Definition schedule (t : Z) : st core Z :=
  th ← thr t;
  let levelNum := getLevelFor (sched th) in
  _ ← when (negb (levelNum =? lastLevel (sched th)) || (quantumTotal (sched th) =? 0))
        (_ ← updateQuantumLength t; upd_sched t (set_lastLevel levelNum));
  if TestFlags (flags (sched th) .& Idle) then mret 1
  else if TestFlags (flags (sched th) .& DoNotSchedule) then mret 1
  else
    c ← sget;
    q ← slift (aget (levels c) levelNum);
    _ ← upd_sched t (fun d => set_queuePushed (u64 (queuePushed d + 1)) d);
    match qpush t q with
    | None => sabort
    | Some q =>
        ls ← slift (aset (levels c) levelNum q);
        _ ← smod (set_levels ls);
        _ ← smod (set_levelEpoch (u64 (levelEpoch c + 1)));
        _ ← when (levelNum <? maxScheduledLevel c) (smod (set_maxScheduledLevel levelNum));
        mret 0
    end.

Definition markThreadAsRunnable (t : Z) (shouldSwitch : bool) : st core Z :=
  oldIrql ← raise_irql SchedulerIrql;
  err ← schedule t;
  if negb (err =? 0) then sabort
  else
    th ← thr t;
    cur ← get currentLevel;
    _ ← when (shouldSwitch && (getLevelFor (sched th) <=? cur)) sendIpi;
    _ ← lower_irql oldIrql;
    mret err.

(** ** Thread state *)

(** [setState], with its check. *)
Definition setState (t : Z) (s : State) : st core () :=
  th ← thr t;
  _ ← when (bool_decide (state th = Blocked) && bool_decide (s = Runnable)) (require (bool_decide (blockingOn th = [])));
  upd t (set_state s).

Definition queueDestroyThread (t : Z) : st core () :=
  w ← get work;
  match qpush t w with None => sabort | Some w => smod (set_work w) end.
Definition deferredTerminate (t : Z) : st core () :=
  _ ← setState t Zombie; queueDestroyThread t.

Definition threadUnblocked (t : Z) : st core () :=
  th ← thr t;
  if unblockRequested (sched th) then mret ()
  else
    _ ← upd_sched t (set_unblockRequested true);
    match state th with
    | Zombie => mret ()
    | Paused | Runnable => sabort
    | Sleeping | Blocked | NotifyWait =>
        u ← get unblocked;
        match qpush t u with
        | None => sabort
        | Some u =>
            _ ← smod (set_unblocked u);
            cur ← get currentLevel;
            when (getLevelFor (sched th) <=? cur) sendIpi
        end
    end.
Definition unblock (t : Z) : st core () := _ ← upd t (set_blockState Unblocked); threadUnblocked t.
Definition blockExpired (t : Z) : st core () := _ ← upd t (set_blockState Timeout); threadUnblocked t.

Definition schedTestUnblock (t : Z) : st core () :=
  th ← thr t;
  match blockState th with
  | Unblocked | Timeout | Aborted => upd t (set_state Runnable)
  | Blocking => mret ()
  | BNone => sabort
  end.

Definition one_unblocked (t : Z) : st core () :=
  _ ← schedTestUnblock t;
  th ← thr t;
  _ ← (if bool_decide (state th = Runnable) then schedule t else mret 0);
  upd_sched t (set_unblockRequested false).
(** The loop of [processUnblockedThreads] over the queue; [fuel] is its length. *)
Fixpoint unblocked_loop (fuel : nat) : st core () :=
  u ← get unblocked;
  match u, fuel with
  | [], _ => mret ()
  | _, O => sstuck
  | t :: u, S fuel =>
      _ ← smod (set_unblocked u);
      th ← thr t;
      match state th with
      | Zombie => unblocked_loop fuel
      | Paused | Runnable => sabort
      | Sleeping | Blocked | NotifyWait =>
          _ ← one_unblocked t; unblocked_loop fuel
      end
  end.
Definition processUnblockedThreads : st core () := u ← get unblocked; unblocked_loop (length u).

(** ** Deadlines and the timer *)

Section Scheduler.
(** The bytes of the deadline vector before they are written. *)
Context (raw : nat -> DeadlineWrapper).

Definition running_info (c : core) : option Running :=
  t ← running c; th ← threads c !! t;
  Some {| Deadlines.idle := TestFlags (flags (sched th) .& Idle); Deadlines.quantumTotal := quantumTotal (sched th);
          Deadlines.quantumUsed := quantumUsed (sched th) |}.
Definition timerUpdate : st core () :=
  c ← sget;
  i ← slift (Deadlines.timerUpdate (running_info c) (now c) timerMinInterval (deadlines c));
  smod (set_localTimer i).
Definition addDeadline (d : DeadlineWrapper) : st core () :=
  c ← sget;
  '(h, i) ← slift (Deadlines.addDeadline raw (running_info c) (now c) timerMinInterval d (deadlines c));
  _ ← smod (set_deadlines h);
  match i with Some i => smod (set_localTimer i) | None => mret () end.
Definition removeDeadline (d : DeadlineWrapper) : st core bool :=
  c ← sget;
  '(found, h, i) ← slift (Deadlines.removeDeadline (running_info c) (now c) timerMinInterval d (deadlines c));
  _ ← smod (set_deadlines h);
  _ ← (match i with Some i => smod (set_localTimer i) | None => mret () end);
  mret found.

(** The call operators of [SleepDeadline] and [BlockWait]. *)
Definition call_deadline (d : Deadline) : st core () :=
  c ← sget;
  '(t, sleep) ← slift (res_of (calls c !! d_addr d));
  if (sleep : bool) then _ ← setState t Runnable; _ ← schedule t; mret ()
  else blockExpired t.
Fixpoint call_all (ds : list Deadline) : st core () :=
  match ds with [] => mret () | d :: ds => _ ← call_deadline d; call_all ds end.
(** The calls do not touch the heap, so they come after the loop here. *)
Definition processDeadlines : st core bool :=
  c ← sget;
  '(expired, called, h) ← slift (Deadlines.processDeadlines (now c) deadlineSlack (deadlines c));
  _ ← smod (set_deadlines h);
  _ ← call_all called;
  mret expired.

Definition timerFired : st core () :=
  _ ← smod (set_maxScheduledLevel kNumLevels);
  c ← sget;
  r ← slift (res_of (running c));
  preempt ← updateQuantumUsed r;
  _ ← when preempt (upd_sched r (set_preempted true));
  _ ← processDeadlines;
  c ← sget;
  if (preempt : bool) || (maxScheduledLevel c <=? currentLevel c) then sendIpi else timerUpdate.

(** ** Choosing a thread *)

(** The queue of one level: entries of dying threads and of threads that cannot
    run are taken out on the way. *)
Fixpoint scan_level (fuel : nat) (i : Z) : st core (option Z) :=
  c ← sget;
  q ← slift (aget (levels c) i);
  match q, fuel with
  | [], _ => mret None
  | _, O => sstuck
  | t :: q, S fuel =>
      ls ← slift (aset (levels c) i q);
      _ ← smod (set_levels ls);
      _ ← upd_sched t (fun d => set_queuePopped (u64 (queuePopped d + 1)) d);
      th ← thr t;
      if needsToDie th then _ ← deferredTerminate t; scan_level fuel i
      else if negb (bool_decide (state th = Runnable)) then scan_level fuel i
      else _ ← smod (set_currentLevel i); mret (Some t)
  end.
Fixpoint scan_levels (n : nat) (i : Z) : st core (option Z) :=
  match n with
  | O => mret None
  | S n =>
      r ← scan_level (Z.to_nat queueRoom) i;
      match r with Some t => mret (Some t) | None => scan_levels n (i + 1) end
  end.

(** [irqs] says after which scans the timer interrupt comes. *)
Fixpoint find_loop (tries : nat) (irqs : list bool) : st core (option Z) :=
  epoch ← get levelEpoch;
  let newEpoch := u64 (epoch + 1) in
  r ← scan_levels (Z.to_nat kNumLevels) 0;
  match r with
  | Some t => mret (Some t)
  | None =>
      _ ← when (default false (head irqs)) timerFired;
      e ← get levelEpoch;
      let epochChanged := negb (e =? epoch) in
      _ ← when (negb epochChanged) (smod (set_levelEpoch newEpoch));
      match epochChanged, tries with
      | true, S tries => find_loop tries (tail irqs)
      | _, _ => _ ← smod (set_currentLevel kNumLevels); mret None
      end
  end.
Definition findRunnableThread (irqs : list bool) : st core (option Z) := find_loop levelChangeMaxLoops irqs.

(** ** Switching *)

Definition switchFrom (t : Z) : st core () := th ← thr t; when (needsToDie th) (deferredTerminate t).
Definition willSwitchFrom (t : Z) : st core () :=
  _ ← upd_sched t (set_preempted false); _ ← updateQuantumUsed t; mret ().
(** [arch::RestoreThreadState], without page tables and registers. *)
Definition RestoreThreadState (from : option Z) (to : Z) : st core () :=
  _ ← lower_irql Passive;
  _ ← require (negb (bool_decide (from = Some to)));
  match from with
  | Some f =>
      _ ← willSwitchFrom f;
      _ ← upd f (set_isActive false);
      _ ← upd to (set_isActive true);
      timer_start
  | None => _ ← upd to (set_isActive true); timer_start
  end.
Definition switchTo (to : Z) : st core () :=
  current ← get running;
  _ ← (match current with Some t => switchFrom t | None => mret () end);
  _ ← smod (set_running (Some to));
  RestoreThreadState current to.

Definition run (irqs : list bool) : st core () :=
  _ ← raise_irql SchedulerIrql;
  _ ← timerUpdate;
  t ← findRunnableThread irqs;
  i ← get idle;
  switchTo (default i t).

(** A level from 0 to [n - 1] has an entry. *)
Fixpoint any_queued (n : nat) (i : Z) : st core bool :=
  match n with
  | O => mret false
  | S n => c ← sget; q ← slift (aget (levels c) i); if bool_decide (q = []) then any_queued n (i + 1) else mret true
  end.

Definition yield_pick (r : Z) (irqs : list bool) : st core () :=
  to ← findRunnableThread irqs;
  i ← get idle;
  let to := default i to in
  when (negb (to =? r)) (switchTo to).
Definition yield (irqs : list bool) : st core () :=
  oldIrql ← raise_irql SchedulerIrql;
  c ← sget;
  r ← slift (res_of (running c));
  expired ← updateQuantumUsed r;
  th ← thr r;
  if bool_decide (state th = Runnable) && negb (needsToDie th) then
    cur ← get currentLevel;
    let m := if (expired : bool) then getLevelFor (sched th) else cur in
    let m := if kNumLevels <=? m then kNumLevels - 1 else m in
    any ← any_queued (Z.to_nat (m + 1)) 0;
    if (any : bool) then
      err ← schedule r;
      if negb (err =? 0) then sabort else yield_pick r irqs
    else _ ← timer_start; lower_irql oldIrql
  else yield_pick r irqs.

(** The end of [handleIpi]: stay with the running thread, or switch. *)
Definition ipi_switch (next : option Z) : st core () :=
  c ← sget;
  match next with
  | Some n =>
      if bool_decide (running c = Some n) then _ ← timerUpdate; timer_start
      else _ ← timerUpdate; switchTo n
  | None =>
      match running c with
      | None => _ ← timerUpdate; timer_start
      | Some r => if r =? idle c then _ ← timerUpdate; timer_start else _ ← timerUpdate; switchTo (idle c)
      end
  end.
Definition handleIpi (irqs : list bool) : st core () :=
  _ ← smod (set_ipi false);
  _ ← smod (set_maxScheduledLevel kNumLevels);
  _ ← processUnblockedThreads;
  c ← sget;
  _ ← (match running c with
       | Some r => th ← thr r; (if bool_decide (state th = Runnable) then schedule r else mret 0)
       | None => mret 0
       end);
  next ← findRunnableThread irqs;
  ipi_switch next.

(** ** Threads *)

(** [Thread::Thread] with [Task::addThread]. *)
Definition newThread (kernel : bool) : Thread :=
  threadWasCreated (Thr Paused kernel false false true newThreadData 0 0 false [] BNone Run).
Definition createThread (t : Z) (kernel : bool) : st core () :=
  c ← sget;
  match threads c !! t with
  | Some _ => mret ()
  | None => smod (set_threads (<[t := newThread kernel]> (threads c)))
  end.
(** [ThreadResume]: whether the thread was paused. *)
Definition resumeThread (t : Z) : st core bool :=
  th ← thr t;
  if negb (bool_decide (state th = Paused)) then mret false
  else _ ← setState t Runnable; _ ← markThreadAsRunnable t false; mret true.

Definition mark_dying (t : Z) (zombie : bool) : st core () :=
  _ ← upd t (set_needsToDie true); when zombie (setState t Zombie).
(** [terminate]; when it ends itself, the calling thread still has to yield. *)
Definition terminate (t : Z) (release inIsr : bool) : st core () :=
  th ← thr t;
  if needsToDie th then mret ()
  else
    let isRunning := isActive th in
    _ ← mark_dying t (negb isRunning);
    if isRunning && negb inIsr then
      c ← sget; r ← slift (res_of (running c)); upd r (set_cont (ToYield KNone))
    else if isRunning && inIsr then _ ← sendIpi; when release (queueDestroyThread t)
    else when release (queueDestroyThread t).

(** A new deadline object; its address is chosen by the allocator. *)
Definition newDeadline (a when_ t : Z) (sleep : bool) : st core DeadlineWrapper :=
  c ← sget;
  _ ← smod (set_calls (<[a := (t, sleep)]> (calls c)));
  mret (Some {| d_addr := a; d_expires := when_ |}).

Definition sleep (nanos a : Z) : st core () :=
  if nanos =? 0 then mret ()
  else
    c ← sget;
    r ← slift (res_of (running c));
    d ← newDeadline a (u64 (now c + nanos + 10000)) r true;
    _ ← raise_irql SchedulerIrql;
    _ ← setState r Sleeping;
    oldIrql ← raise_irql SchedulerIrql;
    _ ← addDeadline d;
    _ ← lower_irql oldIrql;
    upd r (set_cont (ToYield KNone)).

(** The first part of [blockOn], up to its [yield]; [aborts] is what
    [willBlockOn] of the object returns. *)
Definition blockOn (b : Z) (aborts : bool) (until a : Z) : st core () :=
  c ← sget;
  r ← slift (res_of (running c));
  d ← (if negb (until =? 0) then newDeadline a until r false else mret None);
  if aborts then
    _ ← upd r (set_blockState Aborted);
    upd r (set_cont (Back (KBlock d)))
  else
    _ ← upd r (fun th => set_blockingOn (blockingOn th ++ [b]) th);
    _ ← setState r Blocked;
    _ ← upd r (set_blockState Blocking);
    _ ← when (negb (bool_decide (d = None))) (addDeadline d);
    upd r (set_cont (ToYield (KBlock d))).
(** Its last part.  The result is [BlockOnReturn]. *)
Definition blockOn_finish (r : Z) (d : DeadlineWrapper) : st core Z :=
  _ ← when (negb (bool_decide (d = None))) (_ ← removeDeadline d; mret ());
  _ ← upd r (set_blockingOn []);
  th ← thr r;
  match blockState th with
  | Unblocked => mret 0
  | Timeout => mret 1
  | Aborted => mret 2
  | _ => sabort
  end.

Definition notify (t bits : Z) : st core () :=
  _ ← upd t (fun th => set_notifications (notifications th .| bits) th);
  th ← thr t;
  if TestFlags (notifications th .& notificationMask th) then
    if bool_decide (state th = NotifyWait) then
      _ ← upd t (set_notified true);
      if notified th then mret ()
      else _ ← upd t (set_blockState Unblocked); threadUnblocked t
    else mret ()
  else mret ().

Definition not64 (x : Z) : Z := u64 (Z.lnot x).
Definition take_notes (t mask : Z) : st core Z :=
  th ← thr t;
  _ ← upd t (fun th => set_notifications (notifications th .& not64 mask) th);
  mret (notifications th .& mask).
(** The first part of [blockNotify]: the bits it returns, or none when it goes on
    to yield. *)
Definition blockNotify (mask_ timeout a : Z) : st core (option Z) :=
  c ← sget;
  r ← slift (res_of (running c));
  d ← (if negb (timeout =? 0) && negb (timeout =? UINTPTR_MAX) then newDeadline a (u64 (now c + timeout)) r false else mret None);
  _ ← when (negb (mask_ =? 0)) (upd r (set_notificationMask mask_));
  th ← thr r;
  let mask := notificationMask th in
  old ← take_notes r mask;
  if TestFlags old then mret (Some old)
  else if timeout =? 0 then new ← take_notes r mask; mret (Some new)
  else
    _ ← setState r NotifyWait;
    _ ← upd r (set_blockState Blocking);
    _ ← when (negb (bool_decide (d = None))) (addDeadline d);
    _ ← upd r (set_cont (ToYield (KNotify d mask)));
    mret None.
Definition blockNotify_finish (r : Z) (d : DeadlineWrapper) (mask : Z) : st core Z :=
  _ ← upd r (set_notified false);
  _ ← when (negb (bool_decide (d = None))) (_ ← removeDeadline d; mret ());
  th ← thr r;
  if bool_decide (blockState th = Timeout) then mret 0 else take_notes r mask.

(** The idle worker: [detachThread] and the rest of [DeleteThreadItem]. *)
Definition deleteThread (t : Z) : st core () :=
  th ← thr t;
  if negb (attachedToTask th) then mret ()
  else
    _ ← require (bool_decide (state th = Paused) || bool_decide (state th = Zombie));
    upd t (set_attachedToTask false).
Fixpoint work_loop (fuel : nat) : st core () :=
  w ← get work;
  match w, fuel with
  | [], _ => mret ()
  | _, O => sstuck
  | t :: w, S fuel => _ ← smod (set_work w); _ ← deleteThread t; work_loop fuel
  end.
Definition checkWork : st core () := w ← get work; work_loop (length w).

(** ** Runs of a core *)

Inductive event :=
| Elapse (dtsc dnow : Z)
| Create (t : Z) (kernel : bool)
| Resume (t : Z)
| Boot
| Yield (irqs : list bool)
| TimerIrq
| Ipi (irqs : list bool)
| Sleep (nanos a : Z)
| BlockOn (b : Z) (aborts : bool) (until a : Z)
| BlockNotify (mask timeout a : Z)
| Continue (irqs : list bool)
| Unblock (t : Z)
| Notify (t bits : Z)
| Terminate (t : Z) (release inIsr : bool)
| IdleWork.

(** A call that the running thread, which is not the idle thread, makes when it is
    not inside another one. *)
Definition by_running (m : Z -> st core ()) : st core () :=
  c ← sget;
  match running c with
  | None => mret ()
  | Some r =>
      if r =? idle c then mret ()
      else th ← thr r; match cont th with Run => m r | _ => mret () end
  end.
(** The loop of the idle thread. *)
Definition by_idle (m : st core ()) : st core () :=
  c ← sget; when (bool_decide (running c = Some (idle c))) m.
(** The running thread goes on inside [blockOn], [blockNotify], [sleep] or
    [terminate]. *)
Definition continue (irqs : list bool) : st core () :=
  c ← sget;
  match running c with
  | None => mret ()
  | Some r =>
      th ← thr r;
      match cont th with
      | Run => mret ()
      | ToYield k => _ ← upd r (set_cont (match k with KNone => Run | _ => Back k end)); yield irqs
      | Back KNone => upd r (set_cont Run)
      | Back (KBlock d) => _ ← blockOn_finish r d; upd r (set_cont Run)
      | Back (KNotify d mask) => _ ← blockNotify_finish r d mask; upd r (set_cont Run)
      end
  end.
(** A call for the thread of a handle, if there is one. *)
Definition known (t : Z) (m : st core ()) : st core () :=
  c ← sget; match threads c !! t with Some _ => m | None => mret () end.
Definition sstep (e : event) : st core () :=
  match e with
  | Elapse a b => c ← sget; _ ← smod (set_tsc (u64 (tsc c + a))); smod (set_now (u64 (now c + b)))
  | Create t k => createThread t k
  | Resume t => known t (_ ← resumeThread t; mret ())
  | Boot => c ← sget; match running c with None => run [] | Some _ => mret () end
  | Yield irqs => by_running (fun _ => yield irqs)
  | TimerIrq => c ← sget; match running c with None => mret () | Some _ => timerFired end
  | Ipi irqs => c ← sget; match running c with None => mret () | Some _ => handleIpi irqs end
  | Sleep n a => by_running (fun _ => sleep n a)
  | BlockOn b ab until a => by_running (fun _ => blockOn b ab until a)
  | BlockNotify m to a => by_running (fun _ => _ ← blockNotify m to a; mret ())
  | Continue irqs => continue irqs
  | Unblock t => known t (unblock t)
  | Notify t bits => known t (notify t bits)
  | Terminate t rel isr => known t (if isr then terminate t rel true else by_running (fun _ => terminate t rel false))
  | IdleWork => by_idle checkWork
  end.
Fixpoint srun (es : list event) : st core () :=
  match es with [] => mret () | e :: es => _ ← sstep e; srun es end.

(** A core after its scheduler and idle worker have been made.  The stopwatches
    have no initial values; [noise] is what the memory held. *)
Definition idleThread : Thread :=
  (set_state Runnable (set_sched (set_flags (DoNotSchedule .| Idle) (sched (newThread true))) (newThread true))).
Definition startCore (noise : Z -> Z) (i : Z) : core :=
  Core {[i := idleThread]} None (Clock [noise 0; noise 1; noise 2] [noise 3; noise 4; noise 5] None) (replicate (Z.to_nat kNumLevels) []) [] 0 kNumLevels kNumLevels
    newVector ∅ i [] 0 false 0 0 0.

(** ** The invariant *)

Definition waiting (s : State) : bool := match s with Blocked | NotifyWait => true | _ => false end.
Definition ended (b : BlockState) : bool := match b with Unblocked | Timeout | Aborted => true | _ => false end.

Record sched_ok (d : SchedulerThreadData) : Prop := {
  so_level : 0 <= maxLevel d <= level d /\ level d < kNumLevels;
  so_quantum : quantumTotal d = 0 \/ gLevelInfo !! Z.to_nat (level d) = Some (quantumTotal d)
}.
Record thread_ok (i t : Z) (th : Thread) : Prop := {
  to_sched : sched_ok (sched th);
  to_flags : t <> i -> flags (sched th) = 0;
  to_idle : t = i -> state th = Runnable /\ needsToDie th = false /\ flags (sched th) = DoNotSchedule .| Idle;
  to_zombie : state th = Zombie -> needsToDie th = true
}.
(** A thread whose wait is over is in the list of unblocked threads; so is one
    with the mark of a request.  [X] are threads in the hands of the code. *)
Definition wake_ok (X : Z -> Thread -> Prop) (u : list Z) (t : Z) (th : Thread) : Prop :=
  X t th \/ needsToDie th = true \/ t ∈ u \/
  (unblockRequested (sched th) = false /\ (waiting (state th) = true -> ended (blockState th) = false)).
Definition queued (ls : list (list Z)) (t : Z) : Prop := exists q, q ∈ ls /\ t ∈ q.
(** A thread that can run is in a queue; [Y] are threads in the hands of the
    code. *)
Definition keep_ok (i : Z) (Y : Z -> Prop) (ls : list (list Z)) (t : Z) (th : Thread) : Prop :=
  state th = Runnable -> t = i \/ Y t \/ queued ls t \/ needsToDie th = true.

Record core_ok (R : option Z) (i : Z) (X : Z -> Thread -> Prop) (Y : Z -> Prop) (c : core) : Prop := {
  co_running : running c = R;
  co_idle : idle c = i;
  co_ids : forall t, R = Some t \/ t = i \/ queued (levels c) t \/ t ∈ unblocked c \/ t ∈ work c -> is_Some (threads c !! t);
  co_levels : length (levels c) = Z.to_nat kNumLevels /\ Forall (fun q => (length q <= Z.to_nat queueRoom)%nat) (levels c);
  co_thread : forall t th, threads c !! t = Some th -> thread_ok i t th /\ wake_ok X (unblocked c) t th /\ keep_ok i Y (levels c) t th;
  co_timer : length (accumulator (timer c)) = 3%nat /\ length (startTimes (timer c)) = 3%nat /\
    match active (timer c) with None => True | Some a => a = ThreadKernel end;
  co_deadlines : deadlines_ok (deadlines c) /\ is_u 64 (now c);
  co_calls : (forall a t s, calls c !! a = Some (t, s) -> is_Some (threads c !! t)) /\
    forall d, Some d ∈ elems (deadlines c) -> is_Some (calls c !! d_addr d)
}.

(** Never stuck, and with a result that satisfies [Q]. *)
Definition ht {A} (P : core -> Prop) (m : st core A) (Q : A -> core -> Prop) : Prop :=
  forall c, P c -> match m c with Ok (a, c') => Q a c' | Panic => True | Stuck => False end.

Lemma ht_bind {A B} P (m : st core A) (f : A -> st core B) R Q :
  ht P m R -> (forall a, ht (R a) (f a) Q) -> ht P (m ≫= f) Q.
Proof. intros Hm Hf c Hc. specialize (Hm c Hc). unfold mbind, st_bind. destruct (m c) as [[a c']| |]; try done. by apply Hf. Qed.
Lemma ht_ret {A} (P : core -> Prop) (a : A) (Q : A -> core -> Prop) : (forall c, P c -> Q a c) -> ht P (mret a) Q.
Proof. intros H c Hc. by apply H. Qed.
Lemma ht_get {A} (P : core -> Prop) (f : core -> A) (Q : A -> core -> Prop) : (forall c, P c -> Q (f c) c) -> ht P (get f) Q.
Proof. intros H c Hc. by apply H. Qed.
Lemma ht_sget (P : core -> Prop) : ht P sget (fun a c => a = c /\ P c).
Proof. by intros c Hc. Qed.
Lemma ht_smod (P : core -> Prop) (f : core -> core) (Q : () -> core -> Prop) : (forall c, P c -> Q () (f c)) -> ht P (smod f) Q.
Proof. intros H c Hc. by apply H. Qed.
Lemma ht_when (P : core -> Prop) (b : bool) m (Q : () -> core -> Prop) :
  (b = true -> ht P m Q) -> (b = false -> forall c, P c -> Q () c) -> ht P (when b m) Q.
Proof. intros H1 H2. destruct b; [by apply H1|]. intros c Hc. by apply H2. Qed.
Lemma ht_pre {A} (P P' : core -> Prop) (m : st core A) Q : (forall c, P c -> P' c) -> ht P' m Q -> ht P m Q.
Proof. intros H Hm c Hc. by apply Hm, H. Qed.
Lemma ht_post {A} P (m : st core A) (Q Q' : A -> core -> Prop) : (forall a c, Q a c -> Q' a c) -> ht P m Q -> ht P m Q'.
Proof. intros H Hm c Hc. specialize (Hm c Hc). destruct (m c) as [[]| |]; auto. Qed.
Lemma ht_fact {A} (P : core -> Prop) (F : Prop) (m : st core A) Q : (forall c, P c -> F) -> (F -> ht P m Q) -> ht P m Q.
Proof. intros H Hm c Hc. by apply (Hm (H c Hc)). Qed.
Lemma ht_abort {A} P (Q : A -> core -> Prop) : ht P sabort Q.
Proof. by intros c Hc. Qed.
Lemma ht_require P b (Q : () -> core -> Prop) : (b = true -> forall c, P c -> Q () c) -> ht P (require b) Q.
Proof. intros H c Hc. unfold require, slift, REQUIRE. destruct b; cbn; [by apply H|done]. Qed.

(** ** Running the operations *)

#[local] Arguments gLevelInfo : simpl never.

(** A core with another value of one thread. *)
Definition putt (t : Z) (th : Thread) (c : core) : core := set_threads (<[t := th]> (threads c)) c.
Lemma putt_at t th c : threads (putt t th c) !! t = Some th.
Proof. apply lookup_insert_eq. Qed.
Lemma putt_putt t a b c : putt t b (putt t a c) = putt t b c.
Proof. unfold putt, set_threads. cbn. by rewrite insert_insert_eq. Qed.

Lemma upd_eq t f c th : threads c !! t = Some th -> upd t f c = Ok ((), putt t (f th) c).
Proof. intros H. unfold upd. by rewrite H. Qed.
Lemma upd_bind {B} t f (k : () -> st core B) c th : threads c !! t = Some th -> (upd t f ≫= k) c = k () (putt t (f th) c).
Proof. intros H. unfold mbind, st_bind. by rewrite (upd_eq _ _ _ th). Qed.
Lemma upds_eq t f c th : threads c !! t = Some th -> upd_sched t f c = Ok ((), putt t (set_sched (f (sched th)) th) c).
Proof. intros H. unfold upd_sched. by rewrite (upd_eq _ _ _ th). Qed.
Lemma upds_bind {B} t f (k : () -> st core B) c th :
  threads c !! t = Some th -> (upd_sched t f ≫= k) c = k () (putt t (set_sched (f (sched th)) th) c).
Proof. intros H. unfold upd_sched. by rewrite (upd_bind _ _ _ _ th). Qed.
Lemma thr_bind {B} t (k : Thread -> st core B) c th : threads c !! t = Some th -> (thr t ≫= k) c = k th c.
Proof. intros H. unfold mbind, st_bind, thr. by rewrite H. Qed.
Lemma sget_bind {B} (k : core -> st core B) c : (sget ≫= k) c = k c c.
Proof. done. Qed.
Lemma get_bind {A B} (f : core -> A) (k : A -> st core B) c : (get f ≫= k) c = k (f c) c.
Proof. done. Qed.
Lemma smod_bind {B} f (k : () -> st core B) c : (smod f ≫= k) c = k () (f c).
Proof. done. Qed.
Lemma slift_bind {A B} (r : res A) a (k : A -> st core B) c : r = Ok a -> (slift r ≫= k) c = k a c.
Proof. by intros ->. Qed.
Lemma ok_bind {A B} (m : st core A) a (k : A -> st core B) c c' : m c = Ok (a, c') -> (m ≫= k) c = k a c'.
Proof. unfold mbind, st_bind. by intros ->. Qed.

(** ** Levels *)

Definition level_ok (d : SchedulerThreadData) : Prop := 0 <= maxLevel d <= level d /\ level d < kNumLevels.
Lemma level_info d : level_ok d -> getLevelFor d = level d /\ exists q, gLevelInfo !! Z.to_nat (level d) = Some q.
Proof.
  intros [H1 H2]. unfold getLevelFor, kNumLevels in *. rewrite (proj2 (Z.leb_gt 32 (level d))) by lia.
  rewrite (proj2 (Z.ltb_ge _ _)) by lia. split; [done|]. apply lookup_lt_is_Some_2. change (length gLevelInfo) with 32%nat. lia.
Qed.
Lemma new_thread_ok k i t : t <> i -> thread_ok i t (newThread k).
Proof. intros Hne. split; try done. destruct k; (split; [cbn; unfold kNumLevels, kUserPriorityLevel; lia|by left]). Qed.

Lemma updateQuantumLength_eq c t th :
  threads c !! t = Some th -> level_ok (sched th) -> exists q, gLevelInfo !! Z.to_nat (level (sched th)) = Some q /\
    updateQuantumLength t c = Ok ((), putt t (set_sched (set_quantumTotal q (sched th)) th) c).
Proof.
  intros Ht Hs. destruct (level_info _ Hs) as [El [q Hq]]. exists q. split; [done|]. destruct Hs.
  unfold updateQuantumLength. rewrite (thr_bind _ _ _ th) by done.
  rewrite (slift_bind _ q); [|unfold aget; by rewrite El, (proj2 (Z.leb_le 0 _)), Hq by lia]. by apply upds_eq.
Qed.

(** What a change of its scheduling data may do to a thread. *)
Definition same_marks (d d' : SchedulerThreadData) : Prop := flags d' = flags d /\ unblockRequested d' = unblockRequested d.
Definition stable (X : Z -> Thread -> Prop) : Prop := forall t th d, X t th -> X t (set_sched d th).

Lemma with_new R i X Y X' Y' t th' c :
  core_ok R i X Y c -> thread_ok i t th' -> wake_ok X' (unblocked c) t th' -> keep_ok i Y' (levels c) t th' ->
  (forall s th, s <> t -> X s th -> X' s th) -> (forall s, s <> t -> Y s -> Y' s) ->
  core_ok R i X' Y' (putt t th' c).
Proof.
  intros C H1 H2 H3 HX HY. destruct C as [C1 C2 C3 C4 C5 C6 C7 C8].
  assert (forall s, is_Some (threads c !! s) -> is_Some (<[t := th']> (threads c) !! s)) as Hs.
  { intros s H. destruct (decide (t = s)) as [<-|]; [rewrite lookup_insert_eq; eauto|by rewrite lookup_insert_ne]. }
  split; try done; cbn.
  - intros s H. by apply Hs, C3.
  - intros s th0 H. destruct (decide (t = s)) as [<-|Hne].
    + rewrite lookup_insert_eq in H. by injection H as <-.
    + rewrite lookup_insert_ne in H by done. destruct (C5 s th0 H) as (? & Hw & Hk). split_and!; [done|..].
      * destruct Hw as [|]; [left; apply HX; [congruence|done]|by right].
      * intros Hr. destruct (Hk Hr) as [|[|]]; [by left|right; left; apply HY; [congruence|done]|by right; right].
  - split; [|apply C8]. intros a s b H. by apply Hs, (proj1 C8 a s b).
Qed.
Lemma with_thread R i X Y X' Y' t th' c :
  core_ok R i X Y c -> is_Some (threads c !! t) -> thread_ok i t th' -> wake_ok X' (unblocked c) t th' -> keep_ok i Y' (levels c) t th' ->
  (forall s th, s <> t -> X s th -> X' s th) -> (forall s, s <> t -> Y s -> Y' s) ->
  core_ok R i X' Y' (putt t th' c).
Proof. intros C _. by apply with_new. Qed.
Lemma with_sched R i X Y t th d c :
  core_ok R i X Y c -> threads c !! t = Some th -> sched_ok d -> same_marks (sched th) d -> stable X ->
  core_ok R i X Y (putt t (set_sched d th) c).
Proof.
  intros C Ht Hd [E1 E2] HX. destruct (co_thread _ _ _ _ _ C t th Ht) as ([T1 T2 T3 T4] & Hw & Hk).
  eapply with_thread; [done|eauto|..]; try done.
  - split; try done; cbn; rewrite E1; auto.
  - destruct Hw as [H|[H|[H|[H1 H2]]]]; [left; by apply HX|by right; left|by right; right; left|]. right; right; right. cbn. by rewrite E2.
Qed.
(** Fields that the invariant does not look at. *)
Lemma other_fields R i X Y c e l m p o z w :
  core_ok R i X Y c -> core_ok R i X Y (set_levelEpoch e (set_currentLevel l (set_maxScheduledLevel m (set_ipi p (set_localTimer o (set_irql z (set_tsc w c))))))).
Proof. intros [C1 C2 C3 C4 C5 C6 C7 C8]. by split. Qed.

(** ** Accounting *)

Definition timer_ok (o : Oclock) : Prop :=
  length (accumulator o) = 3%nat /\ length (startTimes o) = 3%nat /\ match active o with None => True | Some a => a = ThreadKernel end.

(** The time on the clock of threads: what has been summed up and, if it runs,
    the time since it was started. *)
Definition elapsed (ts : Z) (o : Oclock) : Z :=
  let a := default 0 (accumulator o !! 0%nat) in
  match active o with None => a | Some _ => u64 (a + u64 (ts - default 0 (startTimes o !! 0%nat))) end.

Lemma clock_stop ts o : timer_ok o -> exists o1 o2,
  Oclock_stop ts o = Ok o1 /\ Oclock_reset ThreadKernel o1 = Ok (elapsed ts o, o2) /\ timer_ok o1 /\ timer_ok o2 /\ active o2 = None /\
  accumulator o2 !! 0%nat = Some 0.
Proof.
  intros (H1 & H2 & H3). unfold elapsed.
  destruct (accumulator o) as [|a [|a1 [|a2 [|]]]] eqn:Ea; try done. destruct (startTimes o) as [|s [|s1 [|s2 [|]]]] eqn:Es; try done.
  destruct (active o) as [x|] eqn:Ex; [subst x|].
  - unfold Oclock_stop. rewrite Ex. unfold Oclock_stop_type. rewrite Es, Ea. cbn. eexists _, _. split; [done|]. cbn. split; [done|]. by unfold timer_ok; cbn.
  - unfold Oclock_stop. rewrite Ex. exists o. eexists. split; [done|]. unfold Oclock_reset. rewrite Ea. cbn. split; [done|].
    unfold timer_ok; cbn. by rewrite Ea, Es, Ex.
Qed.
Lemma clock_start ts o : timer_ok o -> exists o', Oclock_start ThreadKernel ts o = Ok o' /\ timer_ok o'.
Proof.
  intros Ho. destruct (clock_stop ts o Ho) as (o1 & _ & E1 & _ & (H1 & H2 & H3) & _). unfold Oclock_start. rewrite E1. cbn.
  destruct (startTimes o1) as [|s [|s1 [|s2 [|]]]] eqn:Es; try done. cbn. eexists. split; [done|]. by unfold timer_ok; cbn.
Qed.

(** The scheduling data after [ns] nanoseconds have been accounted for. *)
Definition account (ns : Z) (d : SchedulerThreadData) : bool * SchedulerThreadData :=
  let used := u64 (quantumUsed d + ns) in
  let d1 := set_cpuTime (u64 (cpuTime d + ns)) d in
  if quantumTotal d <? used then
    let l := if kNumLevels <=? u64 (level d + 1) then kNumLevels - 1 else u64 (level d + 1) in
    (true, set_quantumTotal (default 0 (gLevelInfo !! Z.to_nat l))
             (set_quantumUsed (u64 (used - quantumTotal d)) (set_level l (set_lastLevel (level d) d1))))
  else (false, set_quantumUsed used d1).

Lemma account_ok ns d : sched_ok d -> sched_ok (account ns d).2 /\ same_marks d (account ns d).2.
Proof.
  intros [[H1 H2] H3]. unfold account. destruct (_ <? _); [|by split; [split|]]. split; [|done].
  assert (u64 (level d + 1) = level d + 1) as -> by (unfold u64, kNumLevels in *; apply wrap_small; mlia).
  assert (exists l, (if kNumLevels <=? level d + 1 then kNumLevels - 1 else level d + 1) = l /\ maxLevel d <= l < kNumLevels) as (l & -> & Hl).
  { eexists. split; [done|]. unfold kNumLevels in *. destruct (Z.leb_spec 32 (level d + 1)); lia. }
  split; [cbn; lia|right]. change (gLevelInfo !! Z.to_nat l = Some (default 0 (gLevelInfo !! Z.to_nat l))).
  destruct (lookup_lt_is_Some_2 gLevelInfo (Z.to_nat l)) as [q Hq].
  { change (length gLevelInfo) with 32%nat. unfold kNumLevels in *. lia. }
  by rewrite Hq.
Qed.

Lemma updateQuantumUsed_eq c t th :
  threads c !! t = Some th -> sched_ok (sched th) -> timer_ok (timer c) -> exists o,
    timer_ok o /\
    updateQuantumUsed t c =
      Ok ((account (elapsed (tsc c) (timer c)) (sched th)).1,
          putt t (set_sched (account (elapsed (tsc c) (timer c)) (sched th)).2 th) (set_timer o c)).
Proof.
  intros Ht Hs Ho. destruct (clock_stop (tsc c) (timer c) Ho) as (o1 & o & E1 & E2 & _ & Hok & _). exists o. split; [done|].
  pose proof (account_ok (elapsed (tsc c) (timer c)) _ Hs) as [Hd _]. set (ns := elapsed _ _) in *.
  unfold updateQuantumUsed. rewrite sget_bind, (slift_bind _ o1) by done. rewrite (slift_bind _ (ns, o)) by done.
  rewrite smod_bind, (thr_bind _ _ _ th), (upds_bind _ _ _ _ th) by done. unfold account in *. destruct (_ <? _).
  - do 3 (erewrite upds_bind by apply putt_at; rewrite putt_putt).
    match goal with |- mbind _ _ (putt t ?th' ?c') = _ => destruct (updateQuantumLength_eq (putt t th' c') t th') as (q & Hq & E) end;
      [apply putt_at|exact (so_level _ Hd)|].
    rewrite (ok_bind _ _ _ _ _ E), putt_putt. cbn in Hq. cbn [fst snd]. by rewrite Hq.
  - by erewrite upds_bind, putt_putt by apply putt_at.
Qed.

(** ** Scheduling a thread *)

Definition unschedulable (d : SchedulerThreadData) : bool := TestFlags (flags d .& Idle) || TestFlags (flags d .& DoNotSchedule).
(** The core with [t] at the end of the queue of level [l]. *)
Definition pushed_at (t : Z) (th : Thread) (d : SchedulerThreadData) (q : list Z) (c : core) : core :=
  let l := level (sched th) in
  set_maxScheduledLevel (Z.min l (maxScheduledLevel c))
    (set_levelEpoch (u64 (levelEpoch c + 1)) (set_levels (<[Z.to_nat l := q ++ [t]]> (levels c)) (putt t (set_sched d th) c))).

Lemma schedule_quantum c t th :
  threads c !! t = Some th -> sched_ok (sched th) -> exists d, sched_ok d /\ same_marks (sched th) d /\ level d = level (sched th) /\
    when (negb (getLevelFor (sched th) =? lastLevel (sched th)) || (quantumTotal (sched th) =? 0))
      (_ ← updateQuantumLength t; upd_sched t (set_lastLevel (getLevelFor (sched th)))) c = Ok ((), putt t (set_sched d th) c).
Proof.
  intros Ht Hs. destruct (_ || _); cbn [when].
  - destruct (updateQuantumLength_eq c t th Ht (so_level _ Hs)) as (q & Hq & E). eexists. split; [|split; [|split]].
    4: { rewrite (ok_bind _ _ _ _ _ E). erewrite upds_eq by apply putt_at. by rewrite putt_putt. }
    + split; [exact (so_level _ Hs)|by right].
    + done.
    + done.
  - exists (sched th). split_and!; try done. unfold mret, st_ret, putt. do 2 f_equal. destruct th, c as [ths]. cbn in *. unfold set_threads. cbn.
    f_equal. unfold set_sched. cbn. by rewrite insert_id.
Qed.

Lemma schedule_cases c t th :
  threads c !! t = Some th -> sched_ok (sched th) -> length (levels c) = Z.to_nat kNumLevels ->
  exists d, sched_ok d /\ same_marks (sched th) d /\
  if unschedulable (sched th) then schedule t c = Ok (1, putt t (set_sched d th) c)
  else exists q, levels c !! Z.to_nat (level (sched th)) = Some q /\
    schedule t c = if (length q <? Z.to_nat queueRoom)%nat then Ok (0, pushed_at t th d q c) else Panic.
Proof.
  intros Ht Hs Hl. destruct (level_info _ (so_level _ Hs)) as [El _]. pose proof (so_level _ Hs) as [Hlv1 Hlv2].
  destruct (schedule_quantum c t th Ht Hs) as (d & Hd & Hm & Hld & E). unfold unschedulable.
  unfold schedule. rewrite (thr_bind _ _ _ th), (ok_bind _ _ _ _ _ E) by done. rewrite El. clear E.
  destruct (TestFlags (flags (sched th) .& Idle)); [exists d; by split_and!|].
  destruct (TestFlags (flags (sched th) .& DoNotSchedule)); [exists d; by split_and!|]. cbn [orb].
  destruct (lookup_lt_is_Some_2 (levels c) (Z.to_nat (level (sched th)))) as [q Hq]; [rewrite Hl; unfold kNumLevels in *; lia|].
  exists (set_queuePushed (u64 (queuePushed d + 1)) d). split; [by destruct Hd|]. split; [done|]. exists q. split; [done|].
  rewrite sget_bind, (slift_bind _ q). 2: { unfold aget. cbn. by rewrite (proj2 (Z.leb_le 0 _)), Hq by lia. }
  erewrite upds_bind by apply putt_at. rewrite putt_putt. unfold qpush, queueRoom.
  destruct (Nat.ltb_spec (length q) (Z.to_nat 63)) as [Hlt|Hge].
  - rewrite (proj2 (Z.ltb_lt _ _)) by lia. rewrite (slift_bind _ (<[Z.to_nat (level (sched th)) := q ++ [t]]> (levels c))).
    2: { cbn. rewrite aset_ok; [done|]. rewrite Hl. unfold kNumLevels in *. lia. }
    rewrite !smod_bind. unfold pushed_at. cbn [maxScheduledLevel putt set_threads levelEpoch].
    destruct (Z.ltb_spec (level (sched th)) (maxScheduledLevel c)); cbn [when].
    + rewrite smod_bind. by rewrite Z.min_l by lia.
    + rewrite Z.min_r by lia. done.
  - by rewrite (proj2 (Z.ltb_ge _ _)) by lia.
Qed.

Lemma queued_push ls l q t s : ls !! l = Some q -> queued (<[l := q ++ [t]]> ls) s <-> s = t \/ queued ls s.
Proof.
  clear raw. intros Hq. pose proof (lookup_lt_Some _ _ _ Hq) as Hl. unfold queued. split.
  - intros (q' & Hin & Hs). apply list_elem_of_lookup in Hin as [j Hj]. destruct (decide (j = l)) as [->|Hne].
    + rewrite list_lookup_insert_eq in Hj by done. injection Hj as <-. apply elem_of_app in Hs as [Hs|Hs%list_elem_of_singleton].
      * right. exists q. split; [by eapply list_elem_of_lookup_2|done].
      * by left.
    + rewrite list_lookup_insert_ne in Hj by done. right. exists q'. split; [by eapply list_elem_of_lookup_2|done].
  - intros [->|(q' & Hin & Hs)].
    + exists (q ++ [t]). split; [|set_solver]. apply (list_elem_of_lookup_2 _ l). by apply list_lookup_insert_eq.
    + apply list_elem_of_lookup in Hin as [j Hj]. destruct (decide (j = l)) as [->|Hne].
      * assert (q' = q) as -> by congruence. exists (q ++ [t]). split; [|set_solver]. apply (list_elem_of_lookup_2 _ l). by apply list_lookup_insert_eq.
      * exists q'. split; [|done]. apply (list_elem_of_lookup_2 _ j). by rewrite list_lookup_insert_ne.
Qed.

(** Less in the hands of the code. *)
Lemma core_weaken R i X X' Y Y' c :
  core_ok R i X Y c -> (forall t th, threads c !! t = Some th -> X t th -> wake_ok X' (unblocked c) t th) ->
  (forall t th, threads c !! t = Some th -> Y t -> keep_ok i Y' (levels c) t th) -> core_ok R i X' Y' c.
Proof.
  intros [C1 C2 C3 C4 C5 C6 C7 C8] HX HY. split; try done. intros t th Ht. destruct (C5 t th Ht) as (T & Hw & Hk). split_and!; [done|..].
  - destruct Hw as [H|H]; [by apply HX|by right].
  - intros Hr. destruct (Hk Hr) as [|[H|]]; [by left|by apply (HY t th Ht H)|by right; right].
Qed.

Lemma schedule_ok R i X Y Y' t th c :
  core_ok R i X Y c -> threads c !! t = Some th -> stable X -> (forall s, Y s -> s = t \/ Y' s) ->
  match schedule t c with
  | Ok (r, c') => core_ok R i X Y' c' /\ (t <> i -> r = 0) /\ (exists d, threads c' = <[t := set_sched d th]> (threads c)) /\
      unblocked c' = unblocked c /\ calls c' = calls c
  | Panic => True
  | Stuck => False
  end.
Proof.
  clear raw. intros C Ht HX HY. destruct (co_thread _ _ _ _ _ C t th Ht) as (T & Hw & Hk). pose proof (to_sched _ _ _ T) as Hs.
  destruct (schedule_cases c t th Ht Hs (proj1 (co_levels _ _ _ _ _ C))) as (d & Hd & Hm & Hcase).
  pose proof (with_sched R i X Y t th d c C Ht Hd Hm HX) as C'.
  destruct (unschedulable (sched th)) eqn:Eu.
  - rewrite Hcase. assert (t = i) as ->.
    { destruct (decide (t = i)) as [|Hne]; [done|]. unfold unschedulable in Eu. by rewrite (to_flags _ _ _ T Hne) in Eu. }
    split; [|split; [done|split; [by exists d|done]]]. apply (core_weaken R i X X Y Y' _ C'); [by left|]. intros s th' Hs' Hy Hr.
    destruct (HY s Hy) as [->|]; [by left|by right; left].
  - destruct Hcase as (q & Hq & ->). destruct (Nat.ltb_spec (length q) (Z.to_nat queueRoom)); [|done].
    pose proof (fun s => queued_push (levels c) _ q t s Hq) as Hqu. split; [|split; [done|split; [by exists d|done]]].
    destruct C' as [C1 C2 C3 [C4 C4'] C5 C6 C7 C8]. split; try done.
    + intros s H'. cbn in H'. rewrite Hqu in H'. destruct (decide (s = t)) as [->|]; [exists (set_sched d th); apply putt_at|].
      apply C3. cbn. tauto.
    + split; [cbn; by rewrite length_insert|]. cbn. apply Forall_insert; [done|]. rewrite length_app. cbn. lia.
    + intros s th' Hth'. destruct (C5 s th' Hth') as (T' & Hw' & Hk'). split_and!; [done..|]. intros Hr. unfold pushed_at. cbn. rewrite Hqu.
      destruct (Hk' Hr) as [|[Hy|[|]]]; [tauto| |tauto|tauto]. destruct (HY s Hy); tauto.
Qed.

(** ** States of threads *)

Definition nobody : Z -> Thread -> Prop := fun _ _ => False.
Lemma stable_nobody : stable nobody.
Proof. by intros t th d H. Qed.
#[local] Hint Resolve stable_nobody : core.

Lemma setState_cases c t th s :
  threads c !! t = Some th -> setState t s c = Ok ((), putt t (set_state s th) c) \/ setState t s c = Panic.
Proof.
  intros Ht. unfold setState. rewrite (thr_bind _ _ _ th) by done. destruct (_ && _); cbn [when].
  - unfold require, slift, REQUIRE. destruct (bool_decide _); [left|by right]. unfold mbind, st_bind. cbn. by rewrite (upd_eq _ _ _ th).
  - left. unfold mbind, st_bind, mret, st_ret. by rewrite (upd_eq _ _ _ th).
Qed.

(** The list of work grows. *)
Lemma work_ok R i X Y t c w :
  core_ok R i X Y c -> is_Some (threads c !! t) -> w = work c ++ [t] -> core_ok R i X Y (set_work w c).
Proof.
  intros [C1 C2 C3 C4 C5 C6 C7 C8] Ht ->. split; try done. cbn. intros s Hs. rewrite elem_of_app, list_elem_of_singleton in Hs.
  destruct (decide (s = t)) as [->|]; [done|]. apply C3. tauto.
Qed.
Lemma queueDestroy_ok R i X Y t c :
  core_ok R i X Y c -> is_Some (threads c !! t) ->
  match queueDestroyThread t c with Ok (_, c') => core_ok R i X Y c' /\ c' = set_work (work c ++ [t]) c | Panic => True | Stuck => False end.
Proof.
  intros C Ht. unfold queueDestroyThread. rewrite get_bind. unfold qpush. destruct (_ <? _); [|done].
  cbn. split; [|done]. by eapply work_ok.
Qed.
(** A dying thread becomes a zombie. *)
Lemma zombie_ok R i X Y t th c :
  core_ok R i X Y c -> threads c !! t = Some th -> needsToDie th = true -> core_ok R i X Y (putt t (set_state Zombie th) c).
Proof.
  intros C Ht Hd. destruct (co_thread _ _ _ _ _ C t th Ht) as ([T1 T2 T3 T4] & Hw & Hk).
  eapply with_thread; [done|eauto|..]; try done.
  - split; try done. intros ->. destruct (T3 eq_refl) as (? & ? & ?). congruence.
  - right. left. done.
Qed.
Lemma deferredTerminate_ok R i X Y t th c :
  core_ok R i X Y c -> threads c !! t = Some th -> needsToDie th = true ->
  match deferredTerminate t c with
  | Ok (_, c') => core_ok R i X Y c' /\ c' = set_work (work c ++ [t]) (putt t (set_state Zombie th) c)
  | Panic => True | Stuck => False
  end.
Proof.
  intros C Ht Hd. unfold deferredTerminate. destruct (setState_cases c t th Zombie Ht) as [E|E].
  - rewrite (ok_bind _ _ _ _ _ E).
    exact (queueDestroy_ok R i X Y t _ (zombie_ok R i X Y t th c C Ht Hd) (ex_intro _ _ (putt_at t (set_state Zombie th) c))).
  - unfold mbind, st_bind. by rewrite E.
Qed.

Lemma unblocked_ok R i X Y t c u :
  core_ok R i X Y c -> is_Some (threads c !! t) -> u = unblocked c ++ [t] -> core_ok R i X Y (set_unblocked u c).
Proof.
  intros [C1 C2 C3 C4 C5 C6 C7 C8] Ht ->. split; try done; cbn.
  - intros s Hs. rewrite elem_of_app, list_elem_of_singleton in Hs. destruct (decide (s = t)) as [->|]; [done|]. apply C3. tauto.
  - intros s th Hs. destruct (C5 s th Hs) as (T & Hw & Hk). split_and!; try done. unfold wake_ok in *. rewrite elem_of_app. tauto.
Qed.

(** [threadUnblocked], after the thread's wait has been marked as over. *)
Lemma threadUnblocked_ok R i Y t th th' c :
  core_ok R i nobody Y c -> threads c !! t = Some th -> thread_ok i t th' ->
  state th' = state th -> needsToDie th' = needsToDie th -> sched th' = sched th ->
  match threadUnblocked t (putt t th' c) with
  | Ok (_, c') => core_ok R i nobody Y c' /\ calls c' = calls c
  | Panic => True | Stuck => False
  end.
Proof.
  clear raw. intros C Ht T' Es En Ed. destruct (co_thread _ _ _ _ _ C t th Ht) as (T & Hw & Hk).
  unfold threadUnblocked. rewrite (thr_bind _ _ _ th') by apply putt_at. rewrite Ed.
  assert (keep_ok i Y (levels c) t th') as Hk'. { unfold keep_ok in *. by rewrite Es, En. }
  destruct (unblockRequested (sched th)) eqn:Er.
  - cbn. split; [|done]. eapply with_thread; [done|eauto|done| |done|done|done]. destruct Hw as [[]|[H|[H|[H _]]]]; [|by right; right; left|congruence].
    right. left. by rewrite En.
  - erewrite upds_bind by apply putt_at. rewrite putt_putt. set (th2 := set_sched _ th'). rewrite Es.
    assert (thread_ok i t th2) as T2.
    { destruct T'. split; try done. cbn. rewrite Ed. split; [apply T|apply T]. }
    assert (forall X', wake_ok X' (unblocked c) t th2 -> core_ok R i X' Y (putt t th2 c)) as Hput.
    { intros X' Hx. eapply with_thread; [done|eauto|done|done|done| |done]. intros ? ? ? []. }
    assert (forall q, qpush t (unblocked c) = Some q ->
              core_ok R i nobody Y (set_unblocked q (putt t th2 c))) as Hin.
    { intros q Hq. unfold qpush in Hq. destruct (_ <? _); [|done]. injection Hq as <-.
      pose proof (Hput (fun s _ => s = t) ltac:(by left)) as C2.
      pose proof (unblocked_ok _ _ _ _ t (putt t th2 c) _ C2 ltac:(rewrite putt_at; eauto) eq_refl) as C3.
      apply (core_weaken _ _ _ nobody _ Y _ C3); [|by right; left]. intros s th0 _ ->. right; right; left. cbn. set_solver. }
    destruct (state th) eqn:Est; try done; try (rewrite get_bind; cbn [unblocked putt set_threads]; destruct (qpush t (unblocked c)) as [q|] eqn:Eq;
      [rewrite smod_bind, get_bind; specialize (Hin q eq_refl); destruct (_ <=? _); cbn; (split; [|done]); [by destruct Hin|done]|done]).
    cbn. split; [|done]. apply Hput. right. left. cbn. rewrite En. by apply (to_zombie _ _ _ T).
Qed.

(** ** Threads whose wait is over *)

Definition in_hand (t : Z) : Z -> Thread -> Prop := fun s th => s = t /\ (waiting (state th) = true -> ended (blockState th) = false).
Lemma stable_in_hand t : stable (in_hand t).
Proof. by intros s th d [-> H]. Qed.

(** The mark of the request goes when the thread has been dealt with. *)
Lemma request_done R i Y t th c :
  core_ok R i (in_hand t) Y c -> threads c !! t = Some th -> (waiting (state th) = true -> ended (blockState th) = false) ->
  core_ok R i nobody Y (putt t (set_sched (set_unblockRequested false (sched th)) th) c).
Proof.
  intros C Ht Hw. destruct (co_thread _ _ _ _ _ C t th Ht) as ([T1 T2 T3 T4] & _ & Hk).
  eapply with_thread; [done|eauto|..]; try done.
  - split; try done. by destruct T1.
  - right; right; right. done.
  - by intros s th0 Hne [-> _].
Qed.

Lemma one_unblocked_ok R i Y t th c :
  core_ok R i (fun s _ => s = t) Y c -> threads c !! t = Some th -> state th <> Runnable ->
  match one_unblocked t c with
  | Ok (_, c') => core_ok R i nobody Y c' /\ unblocked c' = unblocked c | Panic => True | Stuck => False
  end.
Proof.
  intros C Ht Hnr. destruct (co_thread _ _ _ _ _ C t th Ht) as ([T1 T2 T3 T4] & _ & Hk).
  unfold one_unblocked, schedTestUnblock. assert (t <> i) as Hti. { intros ->. by destruct (T3 eq_refl). }
  assert (ended (blockState th) = true -> forall k : () -> st core (), (upd t (set_state Runnable) ≫= k) c = k () (putt t (set_state Runnable th) c)) as Hup.
  { intros _ k. by apply upd_bind. }
  destruct (ended (blockState th)) eqn:Ee.
  - assert (forall k : () -> st core (), ((th ← thr t; match blockState th with Unblocked | Timeout | Aborted => upd t (set_state Runnable)
      | Blocking => mret () | BNone => sabort end) ≫= k) c = k () (putt t (set_state Runnable th) c)) as ->.
    { intros k. unfold mbind at 1, st_bind. rewrite (thr_bind _ _ _ th) by done. by destruct (blockState th); try done; rewrite (upd_eq _ _ _ th). }
    set (th1 := set_state Runnable th). assert (core_ok R i (in_hand t) (fun s => s = t \/ Y s) (putt t th1 c)) as C1.
    { eapply with_thread; [done|eauto|..]; try done.
      - left. by split.
      - intros _. right; left. by left.
      - by right. }
    rewrite (thr_bind _ _ _ th1) by apply putt_at. rewrite bool_decide_eq_true_2 by done.
    pose proof (schedule_ok R i (in_hand t) _ Y t th1 _ C1 (putt_at _ _ _) (stable_in_hand t) ltac:(by intros s [|]; [left|right])) as Hsch.
    unfold mbind, st_bind. destruct (schedule t (putt t th1 c)) as [[r c2]| |]; try done. destruct Hsch as (C2 & _ & [d Ed] & Eu & _).
    assert (threads c2 !! t = Some (set_sched d th1)) as Ht2 by (rewrite Ed; apply lookup_insert_eq).
    rewrite (upds_eq _ _ _ _ Ht2). split; [|done]. by apply request_done.
  - unfold mbind at 1, st_bind. rewrite (thr_bind _ _ _ th) by done. destruct (blockState th) eqn:Eb; try done. cbn [mret st_ret].
    rewrite (thr_bind _ _ _ th) by done. rewrite bool_decide_eq_false_2 by done. unfold mbind, st_bind, mret, st_ret.
    rewrite (upds_eq _ _ _ _ Ht). split; [|done]. apply request_done; [|done|by rewrite Eb].
    apply (core_weaken _ _ _ (in_hand t) _ Y _ C); [|by right; left]. intros s th0 Hs ->. left. split; [done|].
    assert (th0 = th) as -> by congruence. by rewrite Eb.
Qed.

Lemma unblocked_loop_ok R i Y fuel c :
  core_ok R i nobody Y c -> fuel = length (unblocked c) ->
  match unblocked_loop fuel c with Ok (_, c') => core_ok R i nobody Y c' /\ unblocked c' = [] | Panic => True | Stuck => False end.
Proof.
  clear raw. revert c. induction fuel as [|fuel IH]; intros c C Hf; cbn [unblocked_loop]; rewrite get_bind.
  { destruct (unblocked c) eqn:Eu; [|done]. by cbn. }
  destruct (unblocked c) as [|t u] eqn:Eu; [done|]. rewrite smod_bind. set (c1 := set_unblocked u c).
  destruct (co_ids _ _ _ _ _ C t) as [th Ht]; [rewrite Eu; set_solver|]. cbn in Hf. injection Hf as Hf.
  assert (core_ok R i (fun s _ => s = t) Y c1) as C1.
  { destruct C as [C1 C2 C3 C4 C5 C6 C7 C8]. split; try done; cbn.
    - intros s Hs. apply C3. rewrite Eu. set_solver.
    - intros s th0 Hs. destruct (C5 s th0 Hs) as (T & Hw & Hk). split_and!; try done. unfold wake_ok in *. rewrite Eu, elem_of_cons in Hw.
      destruct Hw as [[]|[|[[|]|]]]; tauto. }
  rewrite (thr_bind _ _ _ th) by done.
  assert (state th <> Runnable -> match one_unblocked t c1 with
    | Ok (_, c') => match unblocked_loop fuel c' with Ok (_, c') => core_ok R i nobody Y c' /\ unblocked c' = [] | Panic => True | Stuck => False end
    | Panic => True | Stuck => False end) as Hone.
  { intros Hs. pose proof (one_unblocked_ok R i Y t th c1 C1 Ht Hs) as H1. destruct (one_unblocked t c1) as [[[] c2]| |]; try done.
    destruct H1 as [C2 E2]. apply IH; [done|by rewrite E2]. }
  destruct (state th) eqn:Es; try done.
  4: { apply IH; [|done]. apply (core_weaken _ _ _ nobody _ Y _ C1); [|by right; left]. intros s th0 Hs ->. cbn in Hs.
       assert (th0 = th) as -> by congruence. right. left.
       by apply (to_zombie i t th), Es; apply (co_thread _ _ _ _ _ C t th Ht). }
  all: specialize (Hone ltac:(done)); unfold mbind, st_bind; by destruct (one_unblocked t c1) as [[[] c2]| |].
Qed.

(** ** The timer *)

Lemma timerUpdate_keeps R i X Y : ht (core_ok R i X Y) timerUpdate (fun _ => core_ok R i X Y).
Proof.
  intros c C. destruct (co_deadlines _ _ _ _ _ C) as [Hd Hn]. unfold timerUpdate. rewrite sget_bind.
  destruct (timerUpdate_ok (running_info c) (now c) timerMinInterval (deadlines c) Hn Hd) as (n & E & _).
  rewrite (slift_bind _ n) by done. cbn. by destruct C.
Qed.
Lemma sendIpi_keeps R i X Y : ht (core_ok R i X Y) sendIpi (fun _ => core_ok R i X Y).
Proof. intros c C. cbn. by destruct C. Qed.

(** A thread becomes runnable and goes into its queue. *)
Lemma wake_sleeper R i Y t th c :
  core_ok R i nobody Y c -> threads c !! t = Some th -> core_ok R i nobody (fun s => s = t \/ Y s) (putt t (set_state Runnable th) c).
Proof.
  intros C Ht. destruct (co_thread _ _ _ _ _ C t th Ht) as ([T1 T2 T3 T4] & Hw & Hk).
  eapply with_thread; [done|eauto|..]; try done.
  - split; try done. intros ->. by destruct (T3 eq_refl).
  - destruct Hw as [[]|[H|[H|[H _]]]]; [by right; left|by right; right; left|]. right; right; right. by split.
  - intros _. right; left. by left.
  - by right.
Qed.
Lemma call_deadline_ok R i Y d c :
  core_ok R i nobody Y c -> is_Some (calls c !! d_addr d) ->
  match call_deadline d c with Ok (_, c') => core_ok R i nobody Y c' /\ calls c' = calls c | Panic => True | Stuck => False end.
Proof.
  intros C [[t b] Hd]. destruct (proj1 (co_calls _ _ _ _ _ C) _ _ _ Hd) as [th Ht].
  unfold call_deadline. rewrite sget_bind, Hd, (slift_bind _ (t, b)) by done. destruct b.
  - destruct (setState_cases c t th Runnable Ht) as [E|E]; [|unfold mbind, st_bind; by rewrite E]. rewrite (ok_bind _ _ _ _ _ E).
    pose proof (schedule_ok R i nobody _ Y t _ _ (wake_sleeper R i Y t th c C Ht) (putt_at _ _ _) stable_nobody
      ltac:(by intros s [|]; [left|right])) as Hsch.
    unfold mbind, st_bind. destruct (schedule t _) as [[r c2]| |]; try done. by destruct Hsch as (C2 & _ & _ & _ & Ec).
  - unfold blockExpired. rewrite (upd_bind _ _ _ _ th) by done.
    destruct (co_thread _ _ _ _ _ C t th Ht) as ([T1 T2 T3 T4] & _).
    apply (threadUnblocked_ok R i Y t th); done.
Qed.
Lemma call_all_ok R i Y ds : forall c,
  core_ok R i nobody Y c -> Forall (fun d => is_Some (calls c !! d_addr d)) ds ->
  match call_all ds c with Ok (_, c') => core_ok R i nobody Y c' | Panic => True | Stuck => False end.
Proof.
  induction ds as [|d ds IH]; intros c C Hds; [done|]. apply Forall_cons in Hds as [Hd Hds]. cbn [call_all].
  pose proof (call_deadline_ok R i Y d c C Hd) as H1. unfold mbind, st_bind. destruct (call_deadline d c) as [[[] c1]| |]; try done.
  destruct H1 as [C1 E1]. apply IH; [done|]. by rewrite E1.
Qed.
Lemma processDeadlines_keeps R i Y : ht (core_ok R i nobody Y) processDeadlines (fun _ => core_ok R i nobody Y).
Proof.
  clear raw. intros c C. destruct (co_deadlines _ _ _ _ _ C) as [Hd Hn]. unfold processDeadlines. rewrite sget_bind.
  destruct (process_loop_ok (now c) deadlineSlack (S (length (elems (deadlines c)))) (deadlines c) Hn Hd) as (called & v & E & Hv & Hp & _); [lia|].
  assert (Deadlines.processDeadlines (now c) deadlineSlack (deadlines c) = Ok (negb (bool_decide (called = [])), called, v)) as E'.
  { unfold Deadlines.processDeadlines. change (vsize (deadlines c)) with (numAllocated (deadlines c)).
    rewrite <- length_elems by apply Hd. by rewrite E. }
  rewrite (slift_bind _ _ _ _ E'), smod_bind. pose proof (proj2 (co_calls _ _ _ _ _ C)) as Hk.
  assert (core_ok R i nobody Y (set_deadlines v c)) as C1.
  { destruct C as [C1 C2 C3 C4 C5 C6 C7 C8]. split; try done; cbn. split; [apply C8|]. intros d Hdv. apply Hk. rewrite Hp. set_solver. }
  pose proof (call_all_ok R i Y called _ C1) as H1. unfold mbind, st_bind. destruct (call_all called (set_deadlines v c)) as [[[] c2]| |]; cbn;
    [apply H1|done|apply H1]; (apply Forall_forall; intros d Hin; apply Hk; rewrite Hp; apply elem_of_app; left; by apply list_elem_of_fmap_2).
Qed.
Lemma updateQuantumUsed_keeps R i X Y t c :
  core_ok R i X Y c -> stable X -> is_Some (threads c !! t) ->
  match updateQuantumUsed t c with
  | Ok (b, c') => core_ok R i X Y c' /\ (exists d th, threads c !! t = Some th /\ threads c' = <[t := set_sched d th]> (threads c))
  | _ => False
  end.
Proof.
  intros C HX [th Ht]. destruct (co_thread _ _ _ _ _ C t th Ht) as (T & _). pose proof (to_sched _ _ _ T) as Hs.
  destruct (updateQuantumUsed_eq c t th Ht Hs (co_timer _ _ _ _ _ C)) as (o & Ho & ->). split; [|eauto].
  destruct (account_ok (elapsed (tsc c) (timer c)) (sched th) Hs) as [Hd Hm]. apply with_sched; try done. destruct C. by split.
Qed.
Lemma timerFired_ok r i Y : ht (core_ok (Some r) i nobody Y) timerFired (fun _ => core_ok (Some r) i nobody Y).
Proof.
  intros c C. unfold timerFired. rewrite smod_bind, sget_bind. set (c0 := set_maxScheduledLevel _ c).
  assert (core_ok (Some r) i nobody Y c0) as C0 by (by destruct C). rewrite (co_running _ _ _ _ _ C0), (slift_bind _ r) by done.
  pose proof (updateQuantumUsed_keeps _ _ _ _ r c0 C0 stable_nobody ltac:(apply (co_ids _ _ _ _ _ C0); by left)) as H1.
  unfold mbind at 1, st_bind. destruct (updateQuantumUsed r c0) as [[b c1]| |]; try done. destruct H1 as (C1 & d & th & Ht & E1).
  assert (exists c2, when b (upd_sched r (set_preempted true)) c1 = Ok ((), c2) /\ core_ok (Some r) i nobody Y c2) as (c2 & E2 & C2).
  { destruct b; cbn [when]; [|by exists c1]. destruct (co_ids _ _ _ _ _ C1 r ltac:(by left)) as [th1 Ht1]. eexists. split; [by apply upds_eq|].
    apply with_sched; try done. destruct (co_thread _ _ _ _ _ C1 r th1 Ht1) as ([[] ? ? ?] & _). by split. }
  rewrite (ok_bind _ _ _ _ _ E2). pose proof (processDeadlines_keeps _ _ _ c2 C2) as H3. unfold mbind at 1, st_bind.
  destruct (processDeadlines c2) as [[e c3]| |]; try done. rewrite sget_bind. destruct (_ || _); [by apply sendIpi_keeps|by apply timerUpdate_keeps].
Qed.

(** ** Choosing a thread *)

(** A queue entry that is not run: its thread is dying or cannot run. *)
Definition stale (c : core) (t : Z) : Prop := exists th, threads c !! t = Some th /\ (needsToDie th = true \/ state th <> Runnable).

Lemma pop_ok R i Y c l t q :
  core_ok R i nobody Y c -> levels c !! l = Some (t :: q) ->
  core_ok R i nobody (fun s => s = t \/ Y s) (set_levels (<[l := q]> (levels c)) c).
Proof.
  clear raw. intros [C1 C2 C3 [C4 C4'] C5 C6 C7 C8] Hq. pose proof (lookup_lt_Some _ _ _ Hq) as Hl.
  assert (forall s, queued (<[l := q]> (levels c)) s -> queued (levels c) s) as Hsub.
  { intros s (q' & [j Hj]%list_elem_of_lookup & Hs). destruct (decide (j = l)) as [->|].
    - rewrite list_lookup_insert_eq in Hj by done. injection Hj as <-. exists (t :: q). split; [by eapply list_elem_of_lookup_2|by right].
    - rewrite list_lookup_insert_ne in Hj by done. exists q'. split; [by eapply list_elem_of_lookup_2|done]. }
  assert (forall s, queued (levels c) s -> s = t \/ queued (<[l := q]> (levels c)) s) as Hsup.
  { intros s (q' & [j Hj]%list_elem_of_lookup & Hs). destruct (decide (j = l)) as [->|].
    - assert (q' = t :: q) as -> by congruence. apply elem_of_cons in Hs as [|Hs]; [by left|right]. exists q. split; [|done].
      apply (list_elem_of_lookup_2 _ l). by apply list_lookup_insert_eq.
    - right. exists q'. split; [|done]. apply (list_elem_of_lookup_2 _ j). by rewrite list_lookup_insert_ne. }
  split; try done; cbn.
  - intros s Hs. apply C3. destruct Hs as [|[|[H|[|]]]]; auto.
  - split; [by rewrite length_insert|]. apply Forall_insert; [done|]. rewrite Forall_lookup in C4'. specialize (C4' _ _ Hq). cbn in C4'. lia.
  - intros s th Hs. destruct (C5 s th Hs) as (T & Hw & Hk). split_and!; try done. intros Hr.
    destruct (Hk Hr) as [|[|[H|]]]; [tauto|tauto| |tauto]. destruct (Hsup s H); tauto.
Qed.

Definition taken (r : option Z) (Y : Z -> Prop) : Z -> Prop := fun s => r = Some s \/ Y s.

(** What the scan of one queue does: it takes out stale entries and then, if there
    is one, the first thread that can run. *)
Record scan_post R i Y (l : Z) (c : core) (q : list Z) (r : option Z) (c' : core) : Prop := {
  sp_ok : core_ok R i nobody (taken r Y) c';
  sp_queue : exists skipped rest, q = skipped ++ from_option (fun t => t :: rest) [] r /\ Forall (stale c) skipped /\
    levels c' = <[Z.to_nat l := rest]> (levels c) /\ (r = None -> rest = []);
  sp_taken : forall t, r = Some t ->
    currentLevel c' = l /\ exists th, threads c' !! t = Some th /\ state th = Runnable /\ needsToDie th = false;
  sp_stale : forall t, stale c' t -> stale c t;
  sp_epoch : levelEpoch c' = levelEpoch c
}.
Lemma scan_empty R i Y l c : core_ok R i nobody Y c -> levels c !! Z.to_nat l = Some [] -> scan_post R i Y l c [] None c.
Proof.
  intros C Hq. split; try done.
  - apply (core_weaken _ _ _ _ _ _ _ C); [by left|]. intros s th _ Hy _. right; left. by right.
  - exists [], []. split_and!; try done. by rewrite list_insert_id.
Qed.
(** A stale entry at the front, taken out in the step from [c] to [c3]. *)
Lemma scan_skip R i Y l c c3 t th q r c' :
  threads c !! t = Some th -> (needsToDie th = true \/ state th <> Runnable) -> levels c3 = <[Z.to_nat l := q]> (levels c) ->
  (forall s, s <> t -> threads c3 !! s = threads c !! s) -> levelEpoch c3 = levelEpoch c -> scan_post R i Y l c3 q r c' -> scan_post R i Y l c (t :: q) r c'.
Proof.
  intros Ht Hbad El Hne Ee [S1 (sk & rest & Eq & Hsk & El' & Hn) S3 S4 S5].
  assert (forall s, stale c3 s -> stale c s) as Hst.
  { intros s (th' & Hs & Hb). destruct (decide (s = t)) as [->|Hd]; [by exists th|]. rewrite Hne in Hs by done. by exists th'. }
  split; try done; [|by intros s Hs; apply Hst, S4|congruence]. exists (t :: sk), rest. split_and!; try done; [by rewrite Eq| |].
  - constructor; [by exists th|]. by eapply Forall_impl.
  - by rewrite El', El, list_insert_insert_eq.
Qed.

Lemma scan_level_ok R i Y fuel l : forall c q,
  core_ok R i nobody Y c -> 0 <= l -> levels c !! Z.to_nat l = Some q -> (length q <= fuel)%nat ->
  match scan_level fuel l c with Ok (r, c') => scan_post R i Y l c q r c' | Panic => True | Stuck => False end.
Proof.
  induction fuel as [|fuel IH]; intros c q C Hl Hq Hf; cbn [scan_level]; rewrite sget_bind;
    (rewrite (slift_bind _ q); [|unfold aget; by rewrite (proj2 (Z.leb_le 0 l)), Hq by lia]).
  { destruct q; [|cbn in Hf; lia]. by apply scan_empty. }
  destruct q as [|t q]; [by apply scan_empty|].
  pose proof (lookup_lt_Some _ _ _ Hq) as Hlt. rewrite (slift_bind _ (<[Z.to_nat l := q]> (levels c))); [|by rewrite aset_ok by lia].
  rewrite smod_bind. pose proof (pop_ok R i Y c _ t q C Hq) as C1. set (c1 := set_levels _ c) in *.
  destruct (co_ids _ _ _ _ _ C t) as [th Ht]. { right; right; left. exists (t :: q). split; [by eapply list_elem_of_lookup_2|by left]. }
  erewrite upds_bind by exact Ht. set (d := set_queuePopped _ (sched th)). set (th1 := set_sched d th).
  assert (core_ok R i nobody (fun s => s = t \/ Y s) (putt t th1 c1)) as C2.
  { apply with_sched; try done. by destruct (co_thread _ _ _ _ _ C t th Ht) as ([[] ? ? ?] & _). }
  rewrite (thr_bind _ _ _ th1) by apply putt_at. change (needsToDie th1) with (needsToDie th). change (state th1) with (state th).
  assert (forall c3, core_ok R i nobody Y c3 -> levels c3 = levels c1 -> (forall s, s <> t -> threads c3 !! s = threads c !! s) ->
    (needsToDie th = true \/ state th <> Runnable) -> levelEpoch c3 = levelEpoch c ->
    match scan_level fuel l c3 with Ok (r, c') => scan_post R i Y l c (t :: q) r c' | Panic => True | Stuck => False end) as Hrec.
  { intros c3 C3 El Hne Hbad Ee. pose proof (IH c3 q C3 Hl) as H3. rewrite El in H3. specialize (H3 (list_lookup_insert_eq _ _ _ Hlt) ltac:(cbn in Hf; lia)).
    destruct (scan_level fuel l c3) as [[r c']| |]; try done. by eapply scan_skip. }
  destruct (needsToDie th) eqn:End; [|destruct (decide (state th = Runnable)) as [Er|Er]].
  - pose proof (deferredTerminate_ok R i nobody _ t th1 _ C2 (putt_at _ _ _) End) as H3. unfold mbind, st_bind.
    destruct (deferredTerminate t (putt t th1 c1)) as [[[] c3]| |]; try done. destruct H3 as [C3 E3].
    apply Hrec; [|by rewrite E3| |by left|by rewrite E3].
    + apply (core_weaken _ _ _ nobody _ Y _ C3); [by left|]. intros s th' Hs [->|Hy]; [|by right; left]. rewrite E3 in Hs. cbn in Hs.
      rewrite lookup_insert_eq in Hs. injection Hs as <-. by intros Hr.
    + intros s Hs. rewrite E3. cbn. by rewrite !lookup_insert_ne.
  - rewrite bool_decide_eq_true_2 by done. cbn [negb]. rewrite smod_bind. split; cbn.
    + destruct C2 as [D1 D2 D3 D4 D5 D6 D7 D8]. split; try done. intros s th' Hs. destruct (D5 s th' Hs) as (T & Hw & Hk). split_and!; try done.
      intros Hr. destruct (Hk Hr) as [|[[->|]|]]; [by left|right; left; by left|right; left; by right|by right; right].
    + exists [], q. split_and!; try done.
    + intros s [= <-]. split; [done|]. exists th1. split; [apply putt_at|done].
    + intros s (th' & Hs & Hb). cbn in Hs. destruct (decide (s = t)) as [->|Hd].
      * rewrite lookup_insert_eq in Hs. injection Hs as <-. by exists th.
      * rewrite lookup_insert_ne in Hs by done. by exists th'.
    + done.
  - rewrite bool_decide_eq_false_2 by done. cbn [negb]. apply Hrec; [|done| |by right|done].
    + apply (core_weaken _ _ _ nobody _ Y _ C2); [by left|]. intros s th' Hs [->|Hy]; [|by right; left].
      rewrite putt_at in Hs. injection Hs as <-. by intros Hr.
    + intros s Hs. cbn. by rewrite lookup_insert_ne.
Qed.

(** The scan of all queues from level [l] on: those before the one a thread is
    taken from are left empty. *)
Record scan_all R i Y (l : Z) (c : core) (r : option Z) (c' : core) : Prop := {
  sa_ok : core_ok R i nobody (taken r Y) c';
  sa_before : forall j, (j < Z.to_nat l)%nat -> levels c' !! j = levels c !! j;
  sa_none : r = None -> forall j q, (Z.to_nat l <= j)%nat -> levels c !! j = Some q -> levels c' !! j = Some [] /\ Forall (stale c) q;
  sa_some : forall t, r = Some t -> exists k q skipped rest, l <= k /\ currentLevel c' = k /\ levels c !! Z.to_nat k = Some q /\
    q = skipped ++ t :: rest /\ Forall (stale c) skipped /\ levels c' !! Z.to_nat k = Some rest /\
    (forall j q, (Z.to_nat l <= j < Z.to_nat k)%nat -> levels c !! j = Some q -> levels c' !! j = Some [] /\ Forall (stale c) q) /\
    (forall j, (Z.to_nat k < j)%nat -> levels c' !! j = levels c !! j) /\
    exists th, threads c' !! t = Some th /\ state th = Runnable /\ needsToDie th = false;
  sa_stale : forall t, stale c' t -> stale c t;
  sa_epoch : levelEpoch c' = levelEpoch c
}.
Lemma scan_levels_ok R i Y n : forall l c,
  core_ok R i nobody Y c -> 0 <= l -> (Z.to_nat l + n = Z.to_nat kNumLevels)%nat ->
  match scan_levels n l c with Ok (r, c') => scan_all R i Y l c r c' | Panic => True | Stuck => False end.
Proof.
  induction n as [|n IH]; intros l c C Hl Hn; cbn [scan_levels].
  { split; try done.
    - apply (core_weaken _ _ _ _ _ _ _ C); [by left|]. intros s th _ Hy _. right; left. by right.
    - intros _ j q Hj Hq. apply lookup_lt_Some in Hq. rewrite (proj1 (co_levels _ _ _ _ _ C)) in Hq. lia. }
  destruct (co_levels _ _ _ _ _ C) as [Hlen Hroom].
  destruct (lookup_lt_is_Some_2 (levels c) (Z.to_nat l)) as [q Hq]; [lia|]. rewrite Forall_lookup in Hroom.
  pose proof (scan_level_ok R i Y (Z.to_nat queueRoom) l c q C Hl Hq (Hroom _ _ Hq)) as H1. unfold mbind, st_bind.
  destruct (scan_level _ l c) as [[[t|] c1]| |]; try done; destruct H1 as [S1 (sk & rest & Eq & Hsk & El & Hnn) S3 S4 S5]; cbn in Eq.
  - split; cbn; [done| |done| |done|done].
    + intros j Hj. rewrite El. by rewrite list_lookup_insert_ne by lia.
    + intros s [= <-]. destruct (S3 t eq_refl) as [Ec Hth]. exists l, q, sk, rest. split_and!; try done; [by rewrite El, list_lookup_insert_eq by lia|lia|].
      intros j Hj. by rewrite El, list_lookup_insert_ne by lia.
  - rewrite (Hnn eq_refl) in El. rewrite app_nil_r in Eq. subst sk.
    assert (core_ok R i nobody Y c1) as C1.
    { apply (core_weaken _ _ _ nobody _ Y _ S1); [by left|]. intros s th _ [|Hy]; [done|by right; left]. }
    pose proof (IH (l + 1) c1 C1 ltac:(lia) ltac:(lia)) as H2. destruct (scan_levels n (l + 1) c1) as [[r c2]| |]; try done.
    destruct H2 as [A1 A2 A3 A4 A5 A6].
    assert (forall j, (j <= Z.to_nat l)%nat -> levels c2 !! j = levels c1 !! j) as Hb by (intros; apply A2; lia).
    assert (forall j, (Z.to_nat l < j)%nat -> levels c1 !! j = levels c !! j) as Hab.
    { intros j Hj. by rewrite El, list_lookup_insert_ne by lia. }
    assert (forall q, Forall (stale c1) q -> Forall (stale c) q) as Hst. { intros q0 H0. by eapply Forall_impl. }
    assert (levels c2 !! Z.to_nat l = Some []) as Hme by (by rewrite Hb, El, list_lookup_insert_eq by lia).
    split; [done|..].
    + intros j Hj. rewrite Hb, El, list_lookup_insert_ne by lia. done.
    + intros -> j q0 Hj Hq0. destruct (decide (j = Z.to_nat l)) as [->|]; [assert (q0 = q) as -> by congruence; done|].
      destruct (A3 eq_refl j q0 ltac:(lia) ltac:(by rewrite Hab by lia)). auto.
    + intros t ->. destruct (A4 t eq_refl) as (k & q0 & sk & rest0 & Hk & Hcl & Hq0 & Eq0 & Hsk0 & Hrest & Hbetween & Hbeyond & Hth).
      exists k, q0, sk, rest0. split_and!; try done; [lia|by rewrite <- Hab by lia|by apply Hst| |].
      * intros j q1 Hj Hq1. destruct (decide (j = Z.to_nat l)) as [->|]; [assert (q1 = q) as -> by congruence; done|].
        destruct (Hbetween j q1 ltac:(lia) ltac:(by rewrite Hab by lia)). auto.
      * intros j Hj. rewrite Hbeyond by done. apply Hab. lia.
    + intros t Ht. by apply S4, A5.
    + congruence.
Qed.

Lemma search_ok R i Y tries : forall irqs c,
  core_ok R i nobody Y c -> (R = None -> irqs = []) ->
  match find_loop tries irqs c with
  | Ok (r, c') => core_ok R i nobody (taken r Y) c' /\
      match r with
      | Some t => exists th, threads c' !! t = Some th /\ state th = Runnable /\ needsToDie th = false
      | None => currentLevel c' = kNumLevels
      end
  | Panic => True
  | Stuck => False
  end.
Proof.
  induction tries as [|tries IH]; intros irqs c C Hirq; cbn [find_loop]; rewrite get_bind;
    pose proof (scan_levels_ok R i Y (Z.to_nat kNumLevels) 0 c C ltac:(lia) eq_refl) as H1; unfold mbind at 1, st_bind;
    (destruct (scan_levels _ 0 c) as [[[t|] c1]| |]; try done; destruct H1 as [S1 _ _ S4 _ _];
      [cbn; split; [done|]; destruct (S4 t eq_refl) as (? & ? & ? & ? & _ & _ & _ & _ & _ & _ & _ & _ & Hth); done|]);
    (assert (match when (default false (head irqs)) timerFired c1 with Ok (_, c2) => core_ok R i nobody (taken None Y) c2 | Panic => True | Stuck => False end) as H2;
      [destruct (head irqs) as [[]|] eqn:Eh; cbn; [|done|done]; destruct R as [r|]; [by apply timerFired_ok|];
       specialize (Hirq eq_refl); by subst irqs|]);
    unfold mbind at 1, st_bind; destruct (when _ timerFired c1) as [[[] c2]| |]; try done; rewrite get_bind; cbv zeta;
    destruct (levelEpoch c2 =? levelEpoch c); cbn [negb when].
  - rewrite !smod_bind. cbn. split; [|done]. by destruct H2.
  - unfold mbind, st_bind, mret, st_ret. cbn. split; [|done]. by destruct H2.
  - rewrite !smod_bind. cbn. split; [|done]. by destruct H2.
  - unfold mbind at 1, st_bind, mret, st_ret.
    pose proof (IH (tail irqs) c2) as H3. assert (core_ok R i nobody Y c2) as C2.
    { apply (core_weaken _ _ _ nobody _ Y _ H2); [by left|]. intros s th _ [|Hy]; [done|by right; left]. }
    specialize (H3 C2 ltac:(intros E; by rewrite (Hirq E))). exact H3.
Qed.

(** ** Switching *)

Lemma ht_raise R i X Y l : ht (core_ok R i X Y) (raise_irql l) (fun _ => core_ok R i X Y).
Proof.
  intros c C. unfold raise_irql. rewrite get_bind. unfold require, slift, REQUIRE. destruct (_ <=? _); [|done]. unfold mbind, st_bind. cbn. by destruct C.
Qed.
Lemma ht_lower R i X Y l : ht (core_ok R i X Y) (lower_irql l) (fun _ => core_ok R i X Y).
Proof.
  intros c C. unfold lower_irql. rewrite get_bind. unfold require, slift, REQUIRE. destruct (_ <=? _); [|done]. unfold mbind, st_bind. cbn. by destruct C.
Qed.
Lemma timer_start_ok R i X Y : ht (core_ok R i X Y) timer_start (fun _ => core_ok R i X Y).
Proof.
  intros c C. unfold timer_start. rewrite sget_bind. destruct (clock_start (tsc c) (timer c) (co_timer _ _ _ _ _ C)) as (o & E & Ho).
  rewrite (slift_bind _ o) by done. cbn. destruct C. by split.
Qed.
(** The invariant, with threads that are known to exist. *)
Definition okd (D : Z -> Prop) R i Y (c : core) : Prop := core_ok R i nobody Y c /\ forall s, D s -> is_Some (threads c !! s).
Lemma putt_has D t th c : (forall s : Z, D s -> is_Some (threads c !! s)) -> forall s, D s -> is_Some (threads (putt t th c) !! s).
Proof. intros H s Hs. cbn. destruct (decide (t = s)) as [<-|]; [rewrite lookup_insert_eq; eauto|rewrite lookup_insert_ne by done; auto]. Qed.
(** Operations that leave the threads alone. *)
Lemma ht_okd {A} D R R' i Y Y' (m : st core A) :
  ht (core_ok R i nobody Y) m (fun _ => core_ok R' i nobody Y') ->
  (forall c a c', m c = Ok (a, c') -> threads c' = threads c) -> ht (okd D R i Y) m (fun _ => okd D R' i Y').
Proof.
  intros H Hf c [C Hd]. specialize (H c C). destruct (m c) as [[a c']| |] eqn:E; try done. split; [done|]. by rewrite (Hf _ _ _ E).
Qed.
(** Changes that the invariant does not see. *)
Lemma upd_minor D R i Y t f :
  D t ->
  (forall th, state (f th) = state th /\ needsToDie (f th) = needsToDie th /\ sched (f th) = sched th /\
     (waiting (state th) = true -> blockState (f th) = blockState th)) ->
  ht (okd D R i Y) (upd t f) (fun _ => okd D R i Y).
Proof.
  intros HD Hf c [C Hd]. destruct (Hd t HD) as [th Ht]. rewrite (upd_eq _ _ _ th) by done. destruct (Hf th) as (E1 & E2 & E3 & E4).
  split; [|by apply putt_has]. destruct (co_thread _ _ _ _ _ C t th Ht) as ([T1 T2 T3 T4] & Hw & Hk). eapply with_thread; [done|eauto|..]; try done.
  - split; rewrite ?E1, ?E2, ?E3; done.
  - unfold wake_ok in *. rewrite E1, E2, E3. destruct Hw as [[]|[|[|[H1 H2]]]]; [tauto|tauto|]. right; right; right. split; [done|].
    intros Hwt. rewrite E4 by done. by apply H2.
  - unfold keep_ok in *. by rewrite E1, E2.
Qed.
Lemma upd_sched_minor D R i Y t f :
  D t -> (forall d, sched_ok d -> sched_ok (f d) /\ same_marks d (f d)) -> ht (okd D R i Y) (upd_sched t f) (fun _ => okd D R i Y).
Proof.
  intros HD Hf c [C Hd]. destruct (Hd t HD) as [th Ht]. rewrite (upds_eq _ _ _ th) by done. split; [|by apply putt_has].
  destruct (co_thread _ _ _ _ _ C t th Ht) as ([T1 T2 T3 T4] & _). destruct (Hf _ T1). by apply with_sched.
Qed.
Lemma used_okd D R i Y t : D t -> ht (okd D R i Y) (updateQuantumUsed t) (fun _ => okd D R i Y).
Proof.
  intros HD c [C Hd]. pose proof (updateQuantumUsed_keeps R i nobody Y t c C stable_nobody (Hd t HD)) as H.
  destruct (updateQuantumUsed t c) as [[b c']| |]; try done. destruct H as (C' & d & th & Ht & E). split; [done|].
  intros s Hs. rewrite E. by apply (putt_has D t _ c).
Qed.
Lemma raise_okd D R i Y l : ht (okd D R i Y) (raise_irql l) (fun _ => okd D R i Y).
Proof.
  apply ht_okd; [apply ht_raise|]. intros c a c'. unfold raise_irql, require, slift, REQUIRE, mbind, st_bind, get, smod, mret, st_ret.
  destruct (_ <=? _); [|done]. cbn. by intros [= _ <-].
Qed.
Lemma lower_okd D R i Y l : ht (okd D R i Y) (lower_irql l) (fun _ => okd D R i Y).
Proof.
  apply ht_okd; [apply ht_lower|]. intros c a c'. unfold lower_irql, require, slift, REQUIRE, mbind, st_bind, get, smod, mret, st_ret.
  destruct (_ <=? _); [|done]. cbn. by intros [= _ <-].
Qed.
Lemma core_of D R i Y c : okd D R i Y c -> core_ok R i nobody Y c.
Proof. by intros [C _]. Qed.

Lemma keep_require P b : ht P (require b) (fun _ => P).
Proof. apply ht_require. auto. Qed.
Lemma keep_ret {A} P (a : A) : ht P (mret a) (fun _ => P).
Proof. by intros c Hc. Qed.

Lemma Restore_ok from to i (Y : Z -> Prop) :
  ht (okd (fun s => from = Some s \/ s = to) (Some to) i Y) (RestoreThreadState from to) (fun _ => core_ok (Some to) i nobody Y).
Proof.
  unfold RestoreThreadState. eapply ht_bind; [apply lower_okd|intros ?]. eapply ht_bind; [apply keep_require|intros ?].
  assert (ht (okd (fun s => from = Some s \/ s = to) (Some to) i Y) timer_start (fun _ => core_ok (Some to) i nobody Y)) as Hts.
  { eapply ht_pre; [apply core_of|apply timer_start_ok]. }
  destruct from as [f|].
  - eapply ht_bind.
    { unfold willSwitchFrom. eapply ht_bind; [apply upd_sched_minor; [by left|by intros d []]|intros ?].
      eapply ht_bind; [apply used_okd; by left|intros ?]. apply keep_ret. }
    intros ?. eapply ht_bind; [apply upd_minor; [by left|done]|intros ?]. eapply ht_bind; [apply upd_minor; [by right|done]|intros ?]. done.
  - eapply ht_bind; [apply upd_minor; [by right|done]|intros ?]. done.
Qed.
Lemma switchTo_ok R i to (Y : Z -> Prop) :
  ht (okd (fun s => s = to) R i Y) (switchTo to) (fun _ => core_ok (Some to) i nobody Y).
Proof.
  intros c [C Hto]. unfold switchTo. rewrite get_bind, (co_running _ _ _ _ _ C).
  assert (match (match R with Some t => switchFrom t | None => mret () end) c with
    | Ok (_, c1) => okd (fun s => R = Some s \/ s = to) R i Y c1 | Panic => True | Stuck => False end) as H1.
  { assert (forall s, R = Some s \/ s = to -> is_Some (threads c !! s)) as Hd.
    { intros s [Hr|Hs]; [apply (co_ids _ _ _ _ _ C); by left|by apply Hto]. }
    destruct R as [r|]; [|by split]. unfold switchFrom. destruct (Hd r (or_introl eq_refl)) as [th Ht]. rewrite (thr_bind _ _ _ th) by done.
    destruct (needsToDie th) eqn:E; [|by split]. cbn [when]. pose proof (deferredTerminate_ok _ _ _ _ r th c C Ht E) as H2.
    destruct (deferredTerminate r c) as [[[] c1]| |]; try done. destruct H2 as [C1 E1]. split; [done|]. rewrite E1. by apply putt_has. }
  unfold mbind, st_bind. destruct ((match R with Some t => switchFrom t | None => mret () end) c) as [[[] c1]| |]; try done. cbn.
  apply (Restore_ok R to i Y). destruct H1 as [[C1 C2 C3 C4 C5 C6 C7 C8] Hd]. split; [|done]. split; try done. cbn.
  intros t Ht. destruct Ht as [E|Ht]; [injection E as E; subst t; apply Hd; by right|]. apply C3. by right.
Qed.

Definition none : Z -> Prop := fun _ => False.
Lemma core_Y R i Y Y' c : core_ok R i nobody Y c -> (forall s, Y s -> Y' s) -> core_ok R i nobody Y' c.
Proof. intros C H. apply (core_weaken _ _ _ nobody _ Y' _ C); [by left|]. intros t th _ Hy _. right; left. auto. Qed.
(** Nobody is in the hands of the code, but the running thread need not be queued. *)
Definition inv R i : core -> Prop := core_ok R i nobody (fun s => R = Some s).

(** The thread that is found is switched to, or idle. *)
Lemma found_has R i t c : core_ok R i nobody (taken t none) c ->
  match t with Some t => is_Some (threads c !! t) | None => True end -> okd (fun s => s = default i t) R i (fun s => default i t = s) c.
Proof.
  intros C Ht. split.
  - destruct t as [t|].
    + apply (core_Y _ _ _ _ _ C). by intros s [[= ->]|[]].
    + apply (core_Y _ _ _ _ _ C). by intros s [|[]].
  - intros s ->. destruct t; [done|]. apply (co_ids _ _ _ _ _ C). by right; left.
Qed.
Lemma switch_found R i t c : core_ok R i nobody (taken t none) c ->
  match t with Some t => is_Some (threads c !! t) | None => True end ->
  match switchTo (default i t) c with Ok (_, c') => inv (Some (default i t)) i c' | Panic => True | Stuck => False end.
Proof.
  intros C Ht. pose proof (switchTo_ok R i (default i t) _ c (found_has R i t c C Ht)) as H. destruct (switchTo _ c) as [[[] c']| |]; try done.
  apply (core_Y _ _ _ _ _ H). by intros s ->.
Qed.

(** Before a search the running thread goes back into its queue if it can run. *)
Lemma put_back R i r th c : inv R i c -> R = Some r -> threads c !! r = Some th ->
  match (if bool_decide (state th = Runnable) then schedule r else mret 0) c with
  | Ok (e, c') => core_ok R i nobody none c' | Panic => True | Stuck => False
  end.
Proof.
  intros C -> Ht. case_bool_decide as Es.
  - pose proof (schedule_ok _ _ _ _ none r th c C Ht stable_nobody ltac:(intros s [= ->]; by left)) as H.
    destruct (schedule r c) as [[e c']| |]; try done. by destruct H.
  - cbn. apply (core_weaken _ _ _ nobody _ none _ C); [by left|]. intros s th' Hs [= <-] Hr. congruence.
Qed.

(** ** How a thread may change under its feet *)

Definition evolves (th th' : Thread) : Prop :=
  (cont th' = cont th \/ exists k, cont th' = ToYield k) /\ (state th' = state th \/ state th' = Runnable \/ needsToDie th' = true) /\ (needsToDie th = true -> needsToDie th' = true).
#[local] Instance evolves_refl : Reflexive evolves.
Proof. intros th. split_and!; auto. Qed.
#[local] Instance evolves_trans : Transitive evolves.
Proof.
  intros a b c (A1 & A2 & A3) (B1 & B2 & B3). split_and!; [destruct B1 as [->|]; [done|by right]| |auto].
  destruct B2 as [E|[|]]; [|tauto|tauto]. destruct A2 as [|[|]]; [left; congruence|right; left; congruence|right; right; auto].
Qed.
Definition frame {A} (m : st core A) : Prop :=
  forall c a c', m c = Ok (a, c') -> forall t th, threads c !! t = Some th -> exists th', threads c' !! t = Some th' /\ evolves th th'.

Lemma frame_bind {A B} (m : st core A) (f : A -> st core B) : frame m -> (forall a, frame (f a)) -> frame (m ≫= f).
Proof.
  intros Hm Hf c b c' E t th Ht. unfold mbind, st_bind in E. destruct (m c) as [[a c1]| |] eqn:E1; try done.
  destruct (Hm _ _ _ E1 t th Ht) as (th1 & H1 & V1). destruct (Hf a _ _ _ E t th1 H1) as (th2 & H2 & V2). exists th2. split; [done|by etrans].
Qed.
(** Operations that leave the threads alone. *)
Lemma frame_same {A} (m : st core A) : (forall c a c', m c = Ok (a, c') -> threads c' = threads c) -> frame m.
Proof. intros H c a c' E t th Ht. exists th. rewrite (H _ _ _ E). done. Qed.
Lemma frame_ret {A} (a : A) : frame (mret a).
Proof. apply frame_same. by intros c b c' [= _ <-]. Qed.
Lemma frame_get {A} (f : core -> A) : frame (get f).
Proof. apply frame_same. by intros c b c' [= _ <-]. Qed.
Lemma frame_sget : frame sget.
Proof. apply frame_same. by intros c b c' [= _ <-]. Qed.
Lemma frame_thr t : frame (thr t).
Proof. apply frame_same. intros c b c'. unfold thr. destruct (threads c !! t); cbn; [by intros [= _ <-]|done]. Qed.
Lemma frame_slift {A} (r : res A) : frame (slift r).
Proof. apply frame_same. intros c b c'. unfold slift. destruct r; cbn; [by intros [= _ <-]|done..]. Qed.
Lemma frame_abort {A} : frame (@sabort core A).
Proof. by intros c a c'. Qed.
Lemma frame_stuck {A} : frame (@sstuck core A).
Proof. by intros c a c'. Qed.
Lemma frame_smod f : (forall c, threads (f c) = threads c) -> frame (smod f).
Proof. intros H. apply frame_same. intros c b c' [= _ <-]. apply H. Qed.
Lemma frame_upd t f : (forall th, evolves th (f th)) -> frame (upd t f).
Proof.
  intros Hf c a c' E s th Hs. unfold upd in E. destruct (threads c !! t) as [th0|] eqn:Ht; [|done]. cbn in E. injection E as _ <-. cbn.
  destruct (decide (t = s)) as [<-|]; [|rewrite lookup_insert_ne by done; by exists th]. rewrite lookup_insert_eq. exists (f th0). split; [done|].
  assert (th = th0) as -> by congruence. apply Hf.
Qed.
Lemma frame_upds t f : frame (upd_sched t f).
Proof. apply frame_upd. intros th. split_and!; auto. Qed.
Lemma frame_when b m : frame m -> frame (when b m).
Proof. destruct b; [done|]. intros _. apply frame_ret. Qed.
Create HintDb frames.
#[local] Hint Resolve frame_ret frame_get frame_sget frame_thr frame_slift frame_abort frame_stuck frame_upds frame_when : frames.

(** Splits an operation into its parts. *)
Ltac framed :=
  repeat first
    [ solve [eauto 2 with frames]
    | apply frame_bind; [|intros ?]
    | apply frame_when
    | apply frame_smod; intros ?; reflexivity
    | apply frame_upd; intros ?; split_and!; cbn; eauto
    | match goal with |- frame (match ?x with _ => _ end) => destruct x end ].
Lemma frame_length t : frame (updateQuantumLength t).
Proof. unfold updateQuantumLength. framed. Qed.
Lemma frame_used t : frame (updateQuantumUsed t).
Proof. unfold updateQuantumUsed. pose proof frame_length. framed. Qed.
Lemma frame_schedule t : frame (schedule t).
Proof. unfold schedule. pose proof frame_length. framed. Qed.
#[local] Hint Resolve frame_length frame_used frame_schedule : frames.
Lemma frame_runnable t : frame (setState t Runnable).
Proof. unfold setState, require. framed. Qed.
Lemma frame_unblocked t : frame (threadUnblocked t).
Proof. unfold threadUnblocked, sendIpi. framed. Qed.
#[local] Hint Resolve frame_runnable frame_unblocked : frames.
Lemma frame_timerUpdate : frame timerUpdate.
Proof. unfold timerUpdate. framed. Qed.
Lemma frame_call d : frame (call_deadline d).
Proof. unfold call_deadline, blockExpired. framed. Qed.
#[local] Hint Resolve frame_timerUpdate frame_call : frames.
Lemma frame_calls ds : frame (call_all ds).
Proof. induction ds; cbn [call_all]; framed. Qed.
#[local] Hint Resolve frame_calls : frames.
Lemma frame_timerFired : frame timerFired.
Proof. unfold timerFired, processDeadlines, sendIpi. framed. Qed.
#[local] Hint Resolve frame_timerFired : frames.
Lemma frame_restore from to : frame (RestoreThreadState from to).
Proof. unfold RestoreThreadState, lower_irql, require, willSwitchFrom, timer_start. framed. Qed.
Lemma frame_switchFrom t : frame (switchFrom t).
Proof.
  intros c a c' E s th Hs. unfold switchFrom in E. destruct (threads c !! t) as [th0|] eqn:Ht; [|unfold mbind, st_bind, thr in E; by rewrite Ht in E].
  rewrite (thr_bind _ _ _ th0) in E by done. destruct (needsToDie th0) eqn:Ed; cbn [when] in E; [|injection E as _ <-; by exists th].
  unfold deferredTerminate in E. destruct (setState_cases c t th0 Zombie Ht) as [E1|E1].
  - rewrite (ok_bind _ _ _ _ _ E1) in E. unfold queueDestroyThread in E. rewrite get_bind in E. destruct (qpush t _); [|done].
    injection E as _ <-. cbn. destruct (decide (t = s)) as [<-|]; [|rewrite lookup_insert_ne by done; by exists th].
    rewrite lookup_insert_eq. exists (set_state Zombie th0). split; [done|]. assert (th = th0) as -> by congruence. split_and!; cbn; auto.
  - unfold mbind, st_bind in E. by rewrite E1 in E.
Qed.
Lemma frame_switchTo t : frame (switchTo t).
Proof. unfold switchTo. pose proof frame_restore. pose proof frame_switchFrom. framed. Qed.
#[local] Hint Resolve frame_switchTo : frames.
Lemma frame_timer_start : frame timer_start.
Proof. unfold timer_start. framed. Qed.
Lemma frame_lower l : frame (lower_irql l).
Proof. unfold lower_irql, require. framed. Qed.
Lemma frame_raise l : frame (raise_irql l).
Proof. unfold raise_irql, require. framed. Qed.
#[local] Hint Resolve frame_timer_start frame_lower frame_raise : frames.

(** The running thread can run, unless it is dying or about to yield. *)
Definition runs_ok (th : Thread) : Prop := (exists k, cont th = ToYield k) \/ state th = Runnable \/ needsToDie th = true.
Definition good R i (c : core) : Prop := inv R i c /\ forall r th, R = Some r -> threads c !! r = Some th -> runs_ok th.

Lemma idle_runs R i X Y c th : core_ok R i X Y c -> threads c !! i = Some th -> runs_ok th.
Proof. intros C Ht. right; left. destruct (co_thread _ _ _ _ _ C i th Ht) as ([_ _ H _] & _). by apply H. Qed.
Lemma evolves_runs th th' : runs_ok th -> evolves th th' -> runs_ok th'.
Proof.
  intros H (E1 & E2 & E3). destruct H as [[k Hk]|[H|H]]; [left; destruct E1 as [E1|E1]; [exists k; congruence|done]| |right; right; auto].
  destruct E2 as [|[|]]; [right; left; congruence|right; left; done|right; right; done].
Qed.
(** After an operation that ends with [r] running. *)
Lemma good_after {A} r i (m : st core A) c a c' th :
  m c = Ok (a, c') -> frame m -> threads c !! r = Some th -> runs_ok th -> inv (Some r) i c' -> good (Some r) i c'.
Proof.
  intros E Hm Ht Hr C. split; [done|]. intros s th' [= <-] Hs. destruct (Hm _ _ _ E r th Ht) as (th2 & H2 & V). simplify_eq.
  by eapply evolves_runs.
Qed.
Lemma good_frame {A} R i (m : st core A) : frame m -> ht (inv R i) m (fun _ => inv R i) -> ht (good R i) m (fun _ => good R i).
Proof.
  intros Hm Hi c [C Hr]. specialize (Hi c C). destruct (m c) as [[a c']| |] eqn:E; try done. split; [done|]. intros r th -> Ht.
  destruct (co_ids _ _ _ _ _ C r ltac:(by left)) as [th0 Ht0]. destruct (Hm _ _ _ E r th0 Ht0) as (th2 & H2 & V). simplify_eq.
  eapply evolves_runs; [|done]. by eapply Hr.
Qed.

Ltac outcome H := match type of H with match ?m with Ok _ => _ | Panic => _ | Stuck => _ end => destruct (m : res (() * core)) as [[[] ?]| |] eqn:?; try done end.

(** [handleIpi] up to its search: all threads that can run are in their queues. *)
Lemma handleIpi_start r i irqs c :
  inv (Some r) i c ->
  handleIpi irqs c = Panic \/
  exists c2, core_ok (Some r) i nobody none c2 /\ handleIpi irqs c = (next ← findRunnableThread irqs; ipi_switch next) c2.
Proof.
  intros C. remember (handleIpi irqs c) as k eqn:Hk. unfold handleIpi in Hk. rewrite !smod_bind in Hk.
  set (c0 := set_maxScheduledLevel _ _) in Hk. assert (inv (Some r) i c0) as C0 by (by destruct C).
  pose proof (unblocked_loop_ok _ _ _ (length (unblocked c0)) c0 C0 eq_refl) as H1. unfold processUnblockedThreads in Hk.
  unfold mbind at 1, st_bind at 1 in Hk. rewrite get_bind in Hk. destruct (unblocked_loop _ c0) as [[[] c1]| |]; [|by left|done]. destruct H1 as [C1 _].
  rewrite sget_bind, (co_running _ _ _ _ _ C1) in Hk. destruct (co_ids _ _ _ _ _ C1 r ltac:(by left)) as [th Ht].
  unfold mbind at 1, st_bind at 1 in Hk. rewrite (thr_bind _ _ _ th) in Hk by done. pose proof (put_back _ _ r th c1 C1 eq_refl Ht) as H2.
  destruct ((if bool_decide (state th = Runnable) then schedule r else mret 0) c1) as [[e c2]| |]; [|by left|done]. right. exists c2. by split.
Qed.
Lemma handleIpi_ok r i irqs : ht (inv (Some r) i) (handleIpi irqs) (fun _ c => exists r', good (Some r') i c).
Proof.
  intros c C. destruct (handleIpi_start r i irqs c C) as [->|(c2 & H2 & ->)]; [done|].
  pose proof (search_ok (Some r) i none levelChangeMaxLoops irqs c2 H2 ltac:(done)) as H3. unfold findRunnableThread, mbind at 1, st_bind at 1.
  destruct (find_loop _ irqs c2) as [[n c3]| |]; try done. destruct H3 as [C3 Hn]. unfold ipi_switch. rewrite sget_bind, (co_running _ _ _ _ _ C3), (co_idle _ _ _ _ _ C3).
  assert (forall Y, (forall s, taken n none s -> Y s) ->
    match (_ ← timerUpdate; timer_start) c3 with Ok (_, c') => core_ok (Some r) i nobody Y c' | Panic => True | Stuck => False end) as Hstay.
  { intros Y HY. pose proof (ht_bind _ _ _ _ _ (timerUpdate_keeps (Some r) i nobody Y) (fun _ => timer_start_ok (Some r) i nobody Y) c3) as H.
    apply H. by apply (core_Y _ _ _ _ _ C3). }
  assert (match (_ ← timerUpdate; switchTo (default i n)) c3 with Ok (_, c') => inv (Some (default i n)) i c' | Panic => True | Stuck => False end) as Hgo.
  { assert (forall c, timerUpdate c3 = Ok ((), c) -> threads c = threads c3) as Hth.
    { intros c4. unfold timerUpdate, mbind, st_bind, sget, slift, smod. cbn. destruct (Deadlines.timerUpdate _ _ _ _); cbn; [|done..]. by intros [= <-]. }
    pose proof (timerUpdate_keeps _ _ _ _ c3 C3) as H4. unfold mbind, st_bind.
    destruct (timerUpdate c3) as [[[] c4]| |]; try done. apply (switch_found (Some r)); [done|]. destruct n as [n|]; [|done].
    rewrite (Hth c4 eq_refl). destruct Hn as (thn & ? & _). eauto. }
  destruct n as [n|].
  - case_bool_decide as Er.
    + injection Er as ->. specialize (Hstay (fun s => Some n = Some s) ltac:(by intros s [|[]])). outcome Hstay. exists n. destruct Hn as (thn & Htn & Hrn & _). eapply good_after; [eassumption|framed|done|by right; left|done].
    + cbn [default id] in Hgo. outcome Hgo. exists n. destruct Hn as (thn & Htn & Hrn & _). eapply good_after; [eassumption|framed|done|by right; left|done].
  - destruct (Z.eqb_spec r i) as [->|].
    + specialize (Hstay (fun s => Some i = Some s) ltac:(by intros s [|[]])). outcome Hstay. exists i. destruct (co_ids _ _ _ _ _ C3 i ltac:(by right; left)) as [thi Hti]. eapply good_after; [eassumption|framed|exact Hti|exact (idle_runs _ _ _ _ _ _ C3 Hti)|done].
    + cbn [default id] in Hgo. outcome Hgo. exists i. destruct (co_ids _ _ _ _ _ C3 i ltac:(by right; left)) as [thi Hti]. eapply good_after; [eassumption|framed|exact Hti|exact (idle_runs _ _ _ _ _ _ C3 Hti)|done].
Qed.

(** What a search gives. *)
Definition found (c : core) (n : option Z) : Prop :=
  match n with
  | Some t => exists th, threads c !! t = Some th /\ state th = Runnable /\ needsToDie th = false
  | None => currentLevel c = kNumLevels
  end.
Lemma found_runs R i n c th : core_ok R i nobody (taken n none) c -> found c n -> threads c !! default i n = Some th -> runs_ok th.
Proof.
  intros C Hn Ht. destruct n as [n|]; cbn in *; [|exact (idle_runs _ _ _ _ _ _ C Ht)]. destruct Hn as (th' & H1 & H2 & _). simplify_eq. by right; left.
Qed.
Lemma found_exists R i n c : core_ok R i nobody (taken n none) c -> found c n ->
  exists th, threads c !! default i n = Some th /\ match n with Some t => is_Some (threads c !! t) | None => True end.
Proof.
  intros C Hn. destruct n as [n|]; cbn in *.
  - destruct Hn as (th & H & _). exists th. eauto.
  - destruct (co_ids _ _ _ _ _ C i ltac:(by right; left)) as [th Ht]. by exists th.
Qed.

Lemma yield_pick_ok r i irqs : ht (core_ok (Some r) i nobody none) (yield_pick r irqs) (fun _ c => exists r', good (Some r') i c).
Proof.
  intros c C. unfold yield_pick, findRunnableThread. pose proof (search_ok (Some r) i none levelChangeMaxLoops irqs c C ltac:(done)) as H1.
  unfold mbind at 1, st_bind at 1. destruct (find_loop _ irqs c) as [[n c1]| |]; try done. destruct H1 as [C1 Hn].
  rewrite get_bind, (co_idle _ _ _ _ _ C1). cbv zeta. destruct (Z.eqb_spec (default i n) r) as [<-|]; cbn [negb when].
  - cbn. exists (default i n). split; [apply (core_Y _ _ _ _ _ C1); by intros s [->|[]]|]. intros s th0 [= <-] Hs. exact (found_runs _ _ _ _ _ C1 Hn Hs).
  - pose proof (switch_found (Some r) i n c1 C1) as H2. destruct (found_exists _ _ _ _ C1 Hn) as (th & Hth & Hh).
    specialize (H2 Hh). outcome H2. exists (default i n). eapply good_after; [eassumption|framed|exact Hth|exact (found_runs _ _ _ _ _ C1 Hn Hth)|done].
Qed.
Lemma any_queued_ok R i X Y c : core_ok R i X Y c -> forall n l, 0 <= l -> (n + Z.to_nat l <= Z.to_nat kNumLevels)%nat ->
  exists b, any_queued n l c = Ok (b, c).
Proof.
  intros C. induction n as [|n IH]; intros l Hl Hn; cbn [any_queued]; [by eexists|]. rewrite sget_bind.
  destruct (lookup_lt_is_Some_2 (levels c) (Z.to_nat l)) as [q Hq]; [rewrite (proj1 (co_levels _ _ _ _ _ C)); lia|].
  rewrite (slift_bind _ q); [|unfold aget; by rewrite (proj2 (Z.leb_le 0 l)), Hq by lia]. case_bool_decide; [apply IH; lia|by eexists].
Qed.
Lemma yield_ok r i irqs : ht (inv (Some r) i) (yield irqs) (fun _ c => exists r', good (Some r') i c).
Proof.
  unfold yield. eapply ht_bind; [apply ht_raise|]. intros old c C. rewrite sget_bind, (co_running _ _ _ _ _ C), (slift_bind _ r) by done.
  pose proof (updateQuantumUsed_keeps _ _ _ _ r c C stable_nobody ltac:(apply (co_ids _ _ _ _ _ C); by left)) as H1.
  unfold mbind at 1, st_bind at 1. destruct (updateQuantumUsed r c) as [[b c1]| |]; try done. destruct H1 as (C1 & _).
  destruct (co_ids _ _ _ _ _ C1 r ltac:(by left)) as [th Ht]. rewrite (thr_bind _ _ _ th) by done.
  destruct (bool_decide_reflect (state th = Runnable)) as [Er|Er]; [destruct (needsToDie th) eqn:Ed|]; cbn [andb negb].
  - apply yield_pick_ok. apply (core_weaken _ _ _ nobody _ none _ C1); [by left|]. intros s th' Hs [= <-] _.
    assert (th' = th) as -> by congruence. by right; right; right.
  - rewrite get_bind. cbv zeta. set (m := if b then _ else _). set (m' := if kNumLevels <=? m then _ else _).
    destruct (any_queued_ok _ _ _ _ _ C1 (Z.to_nat (m' + 1)) 0) as [a Ea]; [lia|unfold m', kNumLevels; destruct (Z.leb_spec 32 m); lia|].
    rewrite (ok_bind _ _ _ _ _ Ea). destruct a.
    + pose proof (schedule_ok _ _ _ _ none r th c1 C1 Ht stable_nobody ltac:(intros s [= ->]; by left)) as H2. unfold mbind, st_bind.
      destruct (schedule r c1) as [[e c2]| |]; try done. destruct (negb (e =? 0)); [done|]. by apply yield_pick_ok; destruct H2.
    + pose proof (ht_bind (inv (Some r) i) timer_start (fun _ => lower_irql old) (fun _ => inv (Some r) i) (fun _ => inv (Some r) i)
        ltac:(apply timer_start_ok) ltac:(intros; apply ht_lower) c1 C1) as H2. outcome H2. exists r.
      eapply good_after; [eassumption|framed|exact Ht|by right; left|done].
  - apply yield_pick_ok. apply (core_weaken _ _ _ nobody _ none _ C1); [by left|]. intros s th' Hs [= <-] Hr. congruence.
Qed.
Lemma run_starts i : ht (inv None i) (run []) (fun _ c => exists r', good (Some r') i c).
Proof.
  unfold run. eapply ht_bind; [apply ht_raise|intros ?]. eapply ht_bind; [apply timerUpdate_keeps|]. intros _ c C.
  assert (core_ok None i nobody none c) as C' by (by apply (core_Y _ _ _ _ _ C)). unfold findRunnableThread.
  pose proof (search_ok None i none levelChangeMaxLoops [] c C' ltac:(done)) as H1. unfold mbind at 1, st_bind at 1.
  destruct (find_loop _ [] c) as [[n c1]| |]; try done. destruct H1 as [C1 Hn]. rewrite get_bind, (co_idle _ _ _ _ _ C1).
  pose proof (switch_found None i n c1 C1) as H2. destruct (found_exists _ _ _ _ C1 Hn) as (th & Hth & Hh).
  specialize (H2 Hh). outcome H2. exists (default i n). eapply good_after; [eassumption|framed|exact Hth|exact (found_runs _ _ _ _ _ C1 Hn Hth)|done].
Qed.


(** ** Threads *)

Lemma create_ok R i t k : ht (good R i) (createThread t k) (fun _ => good R i).
Proof.
  intros c [C Hr]. unfold createThread. rewrite sget_bind. destruct (threads c !! t) eqn:Ht; [done|]. change (good R i (putt t (newThread k) c)).
  assert (t <> i) as Hne. { intros ->. destruct (co_ids _ _ _ _ _ C i ltac:(by right; left)). congruence. }
  split.
  - apply (with_new _ _ nobody (fun s => R = Some s)); try done; [by apply new_thread_ok|]. right; right; right. by destruct k.
  - intros r th -> Hs. cbn in Hs. destruct (decide (t = r)) as [->|]; [|rewrite lookup_insert_ne in Hs by done; by apply (Hr r)].
    destruct (co_ids _ _ _ _ _ C r ltac:(by left)). congruence.
Qed.

Lemma mark_ok R i Y t c sw :
  core_ok R i nobody (fun s => s = t \/ Y s) c -> is_Some (threads c !! t) ->
  match markThreadAsRunnable t sw c with Ok (_, c') => core_ok R i nobody Y c' | Panic => True | Stuck => False end.
Proof.
  intros C [th Ht]. unfold markThreadAsRunnable. pose proof (raise_okd (fun s => s = t) R i _ SchedulerIrql c (conj C (fun s E => eq_ind_r (fun s => is_Some (threads c !! s)) (ex_intro _ th Ht) E))) as H1.
  unfold mbind at 1, st_bind at 1. destruct (raise_irql SchedulerIrql c) as [[old c1]| |]; try done. destruct H1 as [C1 Hd].
  destruct (Hd t eq_refl) as [th1 Ht1]. pose proof (schedule_ok _ _ _ _ Y t th1 c1 C1 Ht1 stable_nobody ltac:(by intros s [|]; [left|right])) as H2.
  unfold mbind at 1, st_bind at 1. destruct (schedule t c1) as [[e c2]| |]; try done. destruct H2 as (C2 & _ & [d E] & _).
  destruct (negb (e =? 0)); [done|]. rewrite (thr_bind _ _ _ (set_sched d th1)) by (rewrite E; apply lookup_insert_eq). rewrite get_bind.
  apply (ht_bind (core_ok R i nobody Y) (when _ sendIpi) _ (fun _ => core_ok R i nobody Y)); [|intros ?|done].
  - apply ht_when; [intros _; apply sendIpi_keeps|done].
  - eapply ht_bind; [apply ht_lower|intros ?]. apply keep_ret.
Qed.
(** Preservation of the invariant by calls on a thread that exists. *)
Definition keeps {A} R i (t : Z) (m : st core A) : Prop := ht (fun c => good R i c /\ is_Some (threads c !! t)) m (fun _ => good R i).
Lemma keeps_frame {A} R i t (m : st core A) :
  frame m -> (forall c, inv R i c -> is_Some (threads c !! t) -> match m c with Ok (_, c') => inv R i c' | Panic => True | Stuck => False end) ->
  keeps R i t m.
Proof.
  intros Hf Hm c [[C Hr] Ht]. specialize (Hm c C Ht). destruct (m c) as [[a c']| |] eqn:E; try done. split; [done|]. intros r th -> Hth.
  destruct (co_ids _ _ _ _ _ C r ltac:(by left)) as [th0 Ht0]. destruct (Hf _ _ _ E r th0 Ht0) as (th2 & H2 & V). simplify_eq.
  eapply evolves_runs; [|done]. by eapply Hr.
Qed.

Lemma resume_ok R i t : keeps R i t (resumeThread t).
Proof.
  apply keeps_frame.
  { unfold resumeThread, markThreadAsRunnable, sendIpi. framed. }
  intros c C [th Ht]. unfold resumeThread. rewrite (thr_bind _ _ _ th) by done. case_bool_decide; cbn [negb]; [|done].
  destruct (setState_cases c t th Runnable Ht) as [E|E]; [|unfold mbind, st_bind; by rewrite E]. rewrite (ok_bind _ _ _ _ _ E).
  pose proof (mark_ok R i _ t _ false (wake_sleeper R i _ t th c C Ht) (ex_intro _ _ (putt_at _ _ _))) as H1. unfold mbind, st_bind.
  destruct (markThreadAsRunnable t false _) as [[e c']| |]; done.
Qed.
(** A thread is woken after changes that keep its state, its mark and its data. *)
Lemma wake_keeps R i t th th' c :
  inv R i c -> threads c !! t = Some th -> state th' = state th -> needsToDie th' = needsToDie th -> sched th' = sched th ->
  match threadUnblocked t (putt t th' c) with Ok (_, c') => inv R i c' | Panic => True | Stuck => False end.
Proof.
  intros C Ht E1 E2 E3. destruct (co_thread _ _ _ _ _ C t th Ht) as ([T1 T2 T3 T4] & _).
  assert (thread_ok i t th') as T' by (split; rewrite ?E1, ?E2, ?E3; done).
  pose proof (threadUnblocked_ok R i _ t th th' c C Ht T' E1 E2 E3) as H. destruct (threadUnblocked t (putt t th' c)) as [[[] c']| |]; try done.
  by destruct H.
Qed.
Lemma unblock_keeps R i t : keeps R i t (unblock t).
Proof.
  apply keeps_frame; [unfold unblock; framed|]. intros c C [th Ht]. unfold unblock. rewrite (upd_bind _ _ _ _ th) by done.
  by apply (wake_keeps R i t th).
Qed.
Lemma notify_good R i t bits : keeps R i t (notify t bits).
Proof.
  apply keeps_frame; [unfold notify; framed|]. intros c C [th Ht]. unfold notify. rewrite (upd_bind _ _ _ _ th) by done.
  set (th1 := set_notifications _ th). rewrite (thr_bind _ _ _ th1) by apply putt_at.
  assert (forall th2, state th2 = state th -> needsToDie th2 = needsToDie th -> sched th2 = sched th -> blockState th2 = blockState th -> inv R i (putt t th2 c)) as Hp.
  { intros th2 E1 E2 E3 E4. destruct (co_thread _ _ _ _ _ C t th Ht) as ([T1 T2 T3 T4] & Hw & Hk). eapply with_thread; [done|eauto|..]; try done.
    - split; rewrite ?E1, ?E2, ?E3; done.
    - unfold wake_ok in *. by rewrite E1, E2, E3, E4.
    - unfold keep_ok in *. by rewrite E1, E2. }
  destruct (TestFlags _); [|by apply Hp]. case_bool_decide; [|by apply Hp].
  erewrite upd_bind by apply putt_at. rewrite putt_putt. destruct (notified th1); [by apply Hp|].
  erewrite upd_bind by apply putt_at. rewrite putt_putt. by apply (wake_keeps R i t th).
Qed.

Lemma frame_dying t b : frame (mark_dying t b).
Proof.
  intros c a c' E s th Hs. unfold mark_dying in E. destruct (threads c !! t) as [th0|] eqn:Ht; [|unfold mbind, st_bind, upd in E; by rewrite Ht in E].
  rewrite (upd_bind _ _ _ _ th0) in E by done. set (th1 := set_needsToDie true th0) in *.
  assert (c' = putt t th1 c \/ c' = putt t (set_state Zombie th1) c) as Hc.
  { destruct b; cbn [when] in E; [|injection E as _ <-; by left]. destruct (setState_cases (putt t th1 c) t th1 Zombie (putt_at _ _ _)) as [E1|E1];
      rewrite E1 in E; [|done]. injection E as _ <-. rewrite putt_putt. by right. }
  destruct (decide (t = s)) as [<-|Hne].
  - assert (th = th0) as -> by congruence. destruct Hc as [-> | ->]; rewrite putt_at; eexists; (split; [done|]); split_and!; cbn; auto.
  - exists th. split; [|done]. destruct Hc as [-> | ->]; cbn; by rewrite lookup_insert_ne.
Qed.
Lemma dying_ok D R i Y t b : t <> i -> D t -> ht (okd D R i Y) (mark_dying t b) (fun _ => okd D R i Y).
Proof.
  intros Hne HD c [C Hd]. destruct (Hd t HD) as [th Ht]. unfold mark_dying. rewrite (upd_bind _ _ _ _ th) by done. set (th1 := set_needsToDie true th).
  assert (okd D R i Y (putt t th1 c)) as [C1 Hd1].
  { split; [|by apply putt_has]. destruct (co_thread _ _ _ _ _ C t th Ht) as ([T1 T2 T3 T4] & _). eapply with_thread; [done|eauto|..]; try done.
    - by right; left.
    - intros _. by right; right; right. }
  destruct b; [|done]. cbn [when]. destruct (setState_cases (putt t th1 c) t th1 Zombie (putt_at _ _ _)) as [E|E]; rewrite E; [|done].
  split; [by apply zombie_ok; [|apply putt_at|]|by apply putt_has].
Qed.
Lemma destroy_okd D R i Y t : D t -> ht (okd D R i Y) (queueDestroyThread t) (fun _ => okd D R i Y).
Proof.
  intros HD c [C Hd]. pose proof (queueDestroy_ok R i nobody Y t c C (Hd t HD)) as H. destruct (queueDestroyThread t c) as [[[] c']| |]; try done.
  destruct H as [C' ->]. by split.
Qed.
Lemma terminate_keeps R i t rel isr : t <> i -> R <> None \/ isr = true -> keeps R i t (terminate t rel isr).
Proof.
  intros Hne HR. apply keeps_frame.
  { unfold terminate, queueDestroyThread, sendIpi. pose proof frame_dying. framed. }
  intros c C [th Ht]. unfold terminate. rewrite (thr_bind _ _ _ th) by done. destruct (needsToDie th); [done|]. cbv zeta.
  assert (okd (fun s => s = t \/ R = Some s) R i (fun s => R = Some s) c) as Ho.
  { split; [done|]. intros s [->|E]; [eauto|]. apply (co_ids _ _ _ _ _ C). by left. }
  pose proof (dying_ok (fun s => s = t \/ R = Some s) R i _ t (negb (isActive th)) Hne ltac:(by left) c Ho) as H1. unfold mbind at 1, st_bind at 1.
  destruct (mark_dying t (negb (isActive th)) c) as [[[] c1]| |]; try done.
  assert (match when rel (queueDestroyThread t) c1 with Ok (_, c') => inv R i c' | Panic => True | Stuck => False end) as Hq.
  { destruct rel; cbn [when]; [|by destruct H1]. pose proof (destroy_okd (fun s => s = t \/ R = Some s) R i _ t ltac:(by left) c1 H1) as H2. outcome H2. by destruct H2. }
  destruct (isActive th), isr; cbn [andb negb]; try done.
  - unfold sendIpi. rewrite smod_bind. assert (okd (fun s => s = t \/ R = Some s) R i (fun s => R = Some s) (set_ipi true c1)) as H1'.
    { destruct H1 as [[] Hd]. by split. }
    destruct rel; cbn [when]; [|by destruct H1']. pose proof (destroy_okd (fun s => s = t \/ R = Some s) R i _ t ltac:(by left) _ H1') as H2. outcome H2. by destruct H2.
  - rewrite sget_bind. destruct H1 as [C1 Hd1]. rewrite (co_running _ _ _ _ _ C1). destruct R as [r|]; [|by destruct HR].
    rewrite (slift_bind _ r) by done. pose proof (upd_minor (fun s => s = t \/ Some r = Some s) (Some r) i _ r (set_cont (ToYield KNone)) ltac:(by right) ltac:(done) c1 (conj C1 Hd1)) as H2.
    outcome H2. by destruct H2.
Qed.

(** ** Waiting with a time limit *)

Definition known_deadline (d : DeadlineWrapper) (c : core) : Prop :=
  match d with None => True | Some x => is_u 64 (d_expires x) /\ is_Some (calls c !! d_addr x) end.

Lemma newDeadline_ok D R i Y a w t b :
  D t -> is_u 64 w -> ht (okd D R i Y) (newDeadline a w t b) (fun d c => okd D R i Y c /\ known_deadline d c /\ d <> None).
Proof.
  intros HD Hw c [C Hd]. unfold newDeadline. rewrite sget_bind, smod_bind. cbn. split_and!; try done.
  - split; [|done]. destruct C as [C1 C2 C3 C4 C5 C6 C7 [C8 C9]]. split; try done. cbn. split.
    + intros a' t' s' H. destruct (decide (a = a')) as [<-|]; [rewrite lookup_insert_eq in H; injection H as <- _; by apply Hd|].
      rewrite lookup_insert_ne in H by done. by eapply C8.
    + intros x Hx. destruct (decide (a = d_addr x)) as [->|]; [rewrite lookup_insert_eq; eauto|rewrite lookup_insert_ne by done; by apply C9].
  - rewrite lookup_insert_eq. eauto.
Qed.
Lemma optional_deadline D R i Y (b : bool) a w t s :
  D t -> is_u 64 w -> ht (okd D R i Y) (if b then newDeadline a w t s else mret None) (fun d c => okd D R i Y c /\ known_deadline d c).
Proof.
  intros HD Hw. destruct b; [|by intros c H]. eapply ht_post; [|by apply newDeadline_ok]. intros d c (? & ? & _). done.
Qed.
Lemma addDeadline_keeps D R i Y d :
  ht (fun c => okd D R i Y c /\ known_deadline d c /\ d <> None) (addDeadline d) (fun _ => okd D R i Y).
Proof.
  intros c ([C Hd] & Hk & Hn). destruct d as [x|]; [|done]. destruct Hk as [Hx Hin]. destruct (co_deadlines _ _ _ _ _ C) as [Hdl Hnow].
  unfold addDeadline. rewrite sget_bind.
  destruct (addDeadline_ok raw (running_info c) (now c) timerMinInterval x (deadlines c) Hnow Hx Hdl) as (v & tm & E & Hv & Hp & _).
  rewrite (slift_bind _ _ _ _ E), smod_bind.
  assert (okd D R i Y (set_deadlines v c)) as [C1 Hd1].
  { split; [|done]. destruct C as [C1 C2 C3 C4 C5 C6 C7 [C8 C9]]. split; try done. cbn. split; [done|]. intros y Hy. rewrite Hp in Hy.
    apply elem_of_cons in Hy as [[= ->]|Hy]; [done|by apply C9]. }
  destruct tm as [n|]; [|done]. cbn. split; [|done]. by destruct C1.
Qed.
Lemma removeDeadline_keeps D R i Y d : d <> None -> ht (okd D R i Y) (removeDeadline d) (fun _ => okd D R i Y).
Proof.
  intros Hn c [C Hd]. destruct d as [x|]; [|done]. destruct (co_deadlines _ _ _ _ _ C) as [Hdl Hnow]. unfold removeDeadline. rewrite sget_bind.
  pose proof (removeDeadline_ok (running_info c) (now c) timerMinInterval x (deadlines c) Hnow Hdl) as H.
  destruct (Deadlines.removeDeadline _ _ _ _ _) as [[[b v] tm]| |] eqn:E; [|done..]. destruct H as [Hv Hsub].
  cbn. unfold mbind, st_bind, slift, smod. cbn.
  assert (okd D R i Y (set_deadlines v c)) as [C1 Hd1].
  { split; [|done]. destruct C as [C1 C2 C3 C4 C5 C6 C7 [C8 C9]]. split; try done. cbn. split; [done|]. intros y Hy. by apply C9, Hsub. }
  destruct tm as [n|]; cbn; [|done]. split; [|done]. by destruct C1.
Qed.
Lemma when_remove D R i Y d : ht (okd D R i Y) (when (negb (bool_decide (d = None))) (_ ← removeDeadline d; mret ())) (fun _ => okd D R i Y).
Proof.
  apply ht_when; [|done]. intros Hd. apply negb_true_iff, bool_decide_eq_false in Hd. eapply ht_bind; [by apply removeDeadline_keeps|intros ?]. apply keep_ret.
Qed.
Lemma when_add D R i Y d :
  ht (fun c => okd D R i Y c /\ known_deadline d c) (when (negb (bool_decide (d = None))) (addDeadline d)) (fun _ => okd D R i Y).
Proof.
  apply ht_when; [|by intros _ c [H _]]. intros Hd. apply negb_true_iff, bool_decide_eq_false in Hd.
  eapply ht_pre; [|apply addDeadline_keeps]. intros c [H1 H2]. split_and!; try done; by destruct H1.
Qed.

(** The running thread is about to yield. *)
Lemma to_yield r i k (D : Z -> Prop) Y :
  D r -> (forall s, Y s -> r = s) -> ht (okd D (Some r) i Y) (upd r (set_cont (ToYield k))) (fun _ => good (Some r) i).
Proof.
  intros HD HY c Ho. pose proof (upd_minor D (Some r) i Y r (set_cont (ToYield k)) HD ltac:(done) c Ho) as H. destruct Ho as [C Hd].
  destruct (Hd r HD) as [th Ht]. rewrite (upd_eq _ _ _ th) in * by done. destruct H as [C' _]. split.
  - apply (core_Y _ _ _ _ _ C'). intros s Hs. f_equal. by apply HY.
  - intros r' th' [= <-] Hs. rewrite putt_at in Hs. injection Hs as <-. left. by exists k.
Qed.

(** The running thread marks itself as waiting. *)
Lemma waits_ok D R i Y r th th' c :
  okd D R i Y c -> D r -> r <> i -> threads c !! r = Some th -> sched th' = sched th -> needsToDie th' = needsToDie th ->
  state th' = Sleeping \/ (waiting (state th') = true /\ blockState th' = Blocking) -> okd D R i Y (putt r th' c).
Proof.
  intros [C Hd] HD Hne Ht E1 E2 Hw. split; [|by apply putt_has]. destruct (co_thread _ _ _ _ _ C r th Ht) as ([T1 T2 T3 T4] & Hwk & _).
  assert (state th' <> Runnable /\ state th' <> Zombie) as [Hs1 Hs2] by (destruct Hw as [->|[Hw _]]; [done|by destruct (state th')]).
  eapply with_thread; [done|eauto|..]; try done.
  - split; rewrite ?E1, ?E2; try done.
  - unfold wake_ok in *. rewrite E1, E2. destruct Hwk as [[]|[|[|[H1 H2]]]]; [tauto|tauto|]. right; right; right. split; [done|].
    destruct Hw as [->|[_ ->]]; done.
  - by intros Hr.
Qed.

Definition D1 (r : Z) : Z -> Prop := fun s => s = r.
Lemma inv_okd r i c : inv (Some r) i c -> okd (D1 r) (Some r) i (fun s => Some r = Some s) c.
Proof. intros C. split; [done|]. intros s ->. apply (co_ids _ _ _ _ _ C). by left. Qed.
Lemma good_okd r i c : good (Some r) i c -> okd (D1 r) (Some r) i (fun s => Some r = Some s) c.
Proof. intros [C _]. by apply inv_okd. Qed.

(** The running thread [r] and a deadline for it. *)
Definition ready r i d (c : core) : Prop := okd (D1 r) (Some r) i (fun s => Some r = Some s) c /\ known_deadline d c.
Lemma ready_raise r i d l : ht (ready r i d) (raise_irql l) (fun _ => ready r i d).
Proof.
  intros c [H1 H2]. pose proof (raise_okd (D1 r) (Some r) i _ l c H1) as H3. unfold raise_irql in *. rewrite get_bind in *.
  unfold require, slift, REQUIRE, mbind, st_bind in *. by destruct (_ <=? _).
Qed.
Lemma ready_sleeping r i d : r <> i -> ht (ready r i d) (setState r Sleeping) (fun _ => ready r i d).
Proof.
  intros Hne c [H1 H2]. destruct (proj2 H1 r eq_refl) as [th Ht]. destruct (setState_cases c r th Sleeping Ht) as [E|E]; rewrite E; [|done].
  split; [|done]. by eapply waits_ok; [done..|left].
Qed.
Lemma sleep_ok r i n a : r <> i -> ht (good (Some r) i) (sleep n a) (fun _ => good (Some r) i).
Proof.
  intros Hne. unfold sleep. destruct (n =? 0); [apply keep_ret|]. intros c G. rewrite sget_bind, (co_running _ _ _ _ _ (proj1 G)), (slift_bind _ r) by done.
  set (w := u64 _). assert (is_u 64 w) as Hw by (unfold w, u64; apply wrap_range; lia). clearbody w.
  pose proof (newDeadline_ok (D1 r) _ i _ a w r true eq_refl Hw c (good_okd r i c G)) as H1. unfold mbind at 1, st_bind at 1.
  destruct (newDeadline a w r true c) as [[d c1]| |]; try done. destruct H1 as (H1 & H2 & H3). pose proof (conj H1 H2 : ready r i d c1) as Hr.
  clear H1 H2 c G. revert c1 Hr.
  apply (ht_bind (ready r i d) (raise_irql SchedulerIrql) _ (fun _ => ready r i d)); [apply ready_raise|intros o1].
  eapply ht_bind; [by apply ready_sleeping|intros ?]. eapply ht_bind; [apply ready_raise|intros o2].
  eapply ht_bind; [eapply ht_pre; [|apply addDeadline_keeps]; intros c [? ?]; done|intros ?]. eapply ht_bind; [apply lower_okd|intros ?].
  apply to_yield; [done|]. by intros s [= ->].
Qed.

Lemma blockOn_ok r i b ab u a c th :
  r <> i -> is_u 64 u -> good (Some r) i c -> threads c !! r = Some th -> cont th = Run ->
  match blockOn b ab u a c with Ok (_, c') => good (Some r) i c' | Panic => True | Stuck => False end.
Proof.
  intros Hne Hu G Ht Hc. unfold blockOn. rewrite sget_bind, (co_running _ _ _ _ _ (proj1 G)), (slift_bind _ r) by done.
  pose proof (optional_deadline (D1 r) _ i _ (negb (u =? 0)) a u r false eq_refl Hu c (good_okd r i c G)) as H1.
  assert (exists d c1, (if negb (u =? 0) then newDeadline a u r false else mret None) c = Ok (d, c1) /\ threads c1 = threads c) as (d & c1 & E1 & Et).
  { destruct (negb _); [|by exists None, c]. by eexists _, _. }
  rewrite E1 in H1. rewrite (ok_bind _ _ _ _ _ E1). rewrite <- Et in Ht. assert (runs_ok th) as Hrun by (eapply (proj2 G); [done|by rewrite <- Et]).
  destruct ab.
  - rewrite (upd_bind _ _ _ _ th) by done. erewrite upd_eq by apply putt_at. rewrite putt_putt. destruct H1 as [[C1 Hd1] _].
    assert (state th = Runnable \/ needsToDie th = true) as Hs by (destruct Hrun as [[k Hk]|]; [congruence|done]).
    set (th' := set_cont _ _). split; [|intros s th2 [= <-] H2; rewrite putt_at in H2; injection H2 as <-; by right].
    destruct (co_thread _ _ _ _ _ C1 r th Ht) as ([T1 T2 T3 T4] & Hw & Hk). eapply with_thread; [done|eauto|..]; try done.
    destruct Hs as [Hs|Hs]; [|by right; left]. destruct Hw as [[]|[Hw|[Hw|[Hw _]]]]; [by right; left|by right; right; left|].
    right; right; right. cbn. by rewrite Hs.
  - rewrite (upd_bind _ _ _ _ th) by done. set (th1 := set_blockingOn _ th).
    destruct (setState_cases (putt r th1 c1) r th1 Blocked (putt_at _ _ _)) as [E2|E2]; [|unfold mbind at 1, st_bind at 1; by rewrite E2].
    rewrite (ok_bind _ _ _ _ _ E2), putt_putt. erewrite upd_bind by apply putt_at. rewrite putt_putt. set (th2 := set_blockState Blocking _).
    assert (ready r i d (putt r th2 c1)) as Hr.
    { destruct H1 as [H1 H1']. split; [|done]. eapply waits_ok; [done..|]. by right. }
    revert Hr. generalize (putt r th2 c1). apply (ht_bind (ready r i d) _ _ (fun _ => okd (D1 r) (Some r) i (fun s => Some r = Some s))).
    + apply when_add.
    + intros ?. apply to_yield; [done|]. by intros s [= ->].
Qed.

(** Changes of a thread that matter to nobody else. *)
Record same_thread (th th' : Thread) : Prop := {
  st_state : state th' = state th; st_die : needsToDie th' = needsToDie th; st_sched : sched th' = sched th;
  st_block : blockState th' = blockState th; st_cont : cont th' = cont th
}.
Lemma putt_id t th c : threads c !! t = Some th -> putt t th c = c.
Proof. intros H. destruct c as [ths]. unfold putt, set_threads. cbn in *. by rewrite insert_id. Qed.
Lemma same_okd D R i Y t th th' c : okd D R i Y c -> threads c !! t = Some th -> same_thread th th' -> okd D R i Y (putt t th' c).
Proof.
  intros [C Hd] Ht [E1 E2 E3 E4 E5]. split; [|by apply putt_has]. destruct (co_thread _ _ _ _ _ C t th Ht) as ([T1 T2 T3 T4] & Hw & Hk).
  eapply with_thread; [done|eauto|..]; try done.
  - split; rewrite ?E1, ?E2, ?E3; done.
  - unfold wake_ok in *. by rewrite E1, E2, E3, E4.
  - unfold keep_ok in *. by rewrite E1, E2.
Qed.
Lemma take_notes_eq r mask c th : threads c !! r = Some th ->
  exists th', same_thread th th' /\ take_notes r mask c = Ok (notifications th .& mask, putt r th' c).
Proof.
  intros Ht. unfold take_notes. rewrite (thr_bind _ _ _ th), (upd_bind _ _ _ _ th) by done. eexists. split; [|done]. by split.
Qed.
Lemma blockNotify_ok r i m u a c th :
  r <> i -> good (Some r) i c -> threads c !! r = Some th -> cont th = Run ->
  match blockNotify m u a c with Ok (_, c') => good (Some r) i c' | Panic => True | Stuck => False end.
Proof.
  intros Hne G Ht Hc. unfold blockNotify. rewrite sget_bind, (co_running _ _ _ _ _ (proj1 G)), (slift_bind _ r) by done.
  set (w := u64 _). assert (is_u 64 w) as Hw by (unfold w, u64; apply wrap_range; lia). clearbody w. set (b := negb _ && _). clearbody b.
  pose proof (optional_deadline (D1 r) _ i _ b a w r false eq_refl Hw c (good_okd r i c G)) as H1.
  assert (exists d c1, (if b then newDeadline a w r false else mret None) c = Ok (d, c1) /\ threads c1 = threads c) as (d & c1 & E1 & Et).
  { destruct b; [|by exists None, c]. by eexists _, _. }
  rewrite E1 in H1. rewrite (ok_bind _ _ _ _ _ E1). rewrite <- Et in Ht. assert (runs_ok th) as Hrun by (eapply (proj2 G); [done|by rewrite <- Et]).
  assert (exists th1, same_thread th th1 /\ when (negb (m =? 0)) (upd r (set_notificationMask m)) c1 = Ok ((), putt r th1 c1)) as (th1 & S1 & E2).
  { destruct (negb (m =? 0)); cbn [when]; [rewrite (upd_eq _ _ _ th) by done; exists (set_notificationMask m th); by split|]. exists th. by rewrite putt_id. }
  rewrite (ok_bind _ _ _ _ _ E2), (thr_bind _ _ _ th1) by apply putt_at. cbv zeta.
  destruct (take_notes_eq r (notificationMask th1) (putt r th1 c1) th1 (putt_at _ _ _)) as (th2 & S2 & E3).
  rewrite (ok_bind _ _ _ _ _ E3), putt_putt. assert (same_thread th th2) as S12 by (destruct S1, S2; split; congruence).
  assert (forall th', same_thread th th' -> good (Some r) i (putt r th' c1)) as Hgood.
  { intros th' S. destruct H1 as [H1 _]. split; [by apply (same_okd _ _ _ _ _ _ _ _ H1 Ht S)|]. intros s th3 [= <-] H3. rewrite putt_at in H3.
    injection H3 as <-. destruct S as [S3 S4 _ _ S5]. unfold runs_ok in *. by rewrite S3, S4, S5. }
  destruct (TestFlags _); [by apply Hgood|]. destruct (u =? 0).
  - destruct (take_notes_eq r (notificationMask th1) (putt r th2 c1) th2 (putt_at _ _ _)) as (th3 & S3 & E4).
    rewrite (ok_bind _ _ _ _ _ E4), putt_putt. apply Hgood. destruct S12, S3; split; congruence.
  - destruct (setState_cases (putt r th2 c1) r th2 NotifyWait (putt_at _ _ _)) as [E4|E4]; [|unfold mbind at 1, st_bind at 1; by rewrite E4].
    rewrite (ok_bind _ _ _ _ _ E4), putt_putt. erewrite upd_bind by apply putt_at. rewrite putt_putt. set (th3 := set_blockState Blocking _).
    assert (ready r i d (putt r th3 c1)) as Hr.
    { destruct H1 as [H1 H1']. split; [|done]. destruct S12 as [Z1 Z2 Z3 _ _]. apply (waits_ok _ _ _ _ _ th); try done. right. by split. }
    revert Hr. generalize (putt r th3 c1). apply (ht_bind (ready r i d) _ _ (fun _ => okd (D1 r) (Some r) i (fun s => Some r = Some s))).
    + apply when_add.
    + intros ?. eapply ht_bind; [apply to_yield; [done|by intros s [= ->]]|intros ?]. apply keep_ret.
Qed.

(** ** Going on after a wait *)

Lemma frame_remove d : frame (removeDeadline d).
Proof. unfold removeDeadline. framed. Qed.
#[local] Hint Resolve frame_remove : frames.
Lemma blockOn_finish_ok r i d : ht (good (Some r) i) (blockOn_finish r d) (fun _ => good (Some r) i).
Proof.
  apply good_frame; [unfold blockOn_finish; framed|]. eapply ht_pre; [apply inv_okd|].
  unfold blockOn_finish. eapply ht_bind; [apply when_remove|intros ?]. eapply ht_bind; [apply upd_minor; done|intros ?].
  intros c [C Hd]. destruct (Hd r eq_refl) as [th Ht]. rewrite (thr_bind _ _ _ th) by done. by destruct (blockState th).
Qed.
Lemma blockNotify_finish_ok r i d m : ht (good (Some r) i) (blockNotify_finish r d m) (fun _ => good (Some r) i).
Proof.
  apply good_frame; [unfold blockNotify_finish, take_notes; framed|]. eapply ht_pre; [apply inv_okd|].
  unfold blockNotify_finish. eapply ht_bind; [apply upd_minor; done|intros ?]. eapply ht_bind; [apply when_remove|intros ?].
  intros c [C Hd]. destruct (Hd r eq_refl) as [th Ht]. rewrite (thr_bind _ _ _ th) by done. case_bool_decide; [done|].
  destruct (take_notes_eq r m c th Ht) as (th' & S & ->). by apply (same_okd (D1 r) _ _ _ _ th).
Qed.

(** ** Every event keeps the invariant *)

Definition Good i (c : core) : Prop := exists R, good R i c.

Lemma set_cont_inv r i k : ht (inv (Some r) i) (upd r (set_cont k)) (fun _ => inv (Some r) i).
Proof. eapply ht_pre; [apply inv_okd|]. eapply ht_post; [|by apply upd_minor]. by intros a c [C _]. Qed.
(** A thread that can run, or is dying, leaves the call it was in. *)
Lemma finish_ok {A} r i (m : st core A) th c :
  good (Some r) i c -> threads c !! r = Some th -> (exists k, cont th = Back k) -> frame m ->
  ht (good (Some r) i) m (fun _ => good (Some r) i) ->
  match (_ ← m; upd r (set_cont Run)) c with Ok (_, c') => good (Some r) i c' | Panic => True | Stuck => False end.
Proof.
  intros G Ht [k Hk] Hf Hm. specialize (Hm c G). unfold mbind, st_bind. destruct (m c) as [[a c1]| |] eqn:E; try done.
  destruct (Hf _ _ _ E r th Ht) as (th1 & Ht1 & _ & V2 & V3). pose proof (set_cont_inv r i Run c1 (proj1 Hm)) as H1.
  rewrite (upd_eq _ _ _ th1) in * by done. split; [done|]. intros s th' [= <-] Hs. rewrite putt_at in Hs. injection Hs as <-. right. cbn.
  destruct (proj2 G r th eq_refl Ht) as [[k2 Hk2]|[Hs|Hs]]; [congruence| |right; auto]. destruct V2 as [V2|[V2|V2]]; [left; congruence|by left|by right].
Qed.
Lemma continue_ok R i irqs : ht (good R i) (continue irqs) (fun _ => Good i).
Proof.
  intros c G. unfold continue. rewrite sget_bind, (co_running _ _ _ _ _ (proj1 G)). destruct R as [r|]; [|by exists None].
  destruct (co_ids _ _ _ _ _ (proj1 G) r ltac:(by left)) as [th Ht]. rewrite (thr_bind _ _ _ th) by done.
  destruct (cont th) as [|k|[|d|d m]] eqn:Ec; [by exists (Some r)|..].
  - pose proof (ht_bind (inv (Some r) i) (upd r (set_cont (match k with KNone => Run | _ => Back k end))) (fun _ => yield irqs) (fun _ => inv (Some r) i) _
      (set_cont_inv r i _) (fun _ => yield_ok r i irqs) c (proj1 G)) as H. outcome H. destruct H as [r' G']. by exists (Some r').
  - pose proof (finish_ok r i (mret ()) th c G Ht ltac:(eauto) (frame_ret ()) (keep_ret _ _)) as H. change ((_ ← mret (); upd r (set_cont Run)) c) with (upd r (set_cont Run) c) in H.
    outcome H. by exists (Some r).
  - assert (frame (blockOn_finish r d)) as Hf by (unfold blockOn_finish; framed).
    pose proof (finish_ok r i _ th c G Ht ltac:(eauto) Hf (blockOn_finish_ok r i d)) as H. outcome H. by exists (Some r).
  - assert (frame (blockNotify_finish r d m)) as Hf by (unfold blockNotify_finish, take_notes; framed).
    pose proof (finish_ok r i _ th c G Ht ltac:(eauto) Hf (blockNotify_finish_ok r i d m)) as H. outcome H. by exists (Some r).
Qed.

Lemma work_loop_ok R i : forall fuel c, inv R i c -> fuel = length (work c) ->
  match work_loop fuel c with Ok (_, c') => inv R i c' | Panic => True | Stuck => False end.
Proof.
  induction fuel as [|fuel IH]; intros c C Hf; cbn [work_loop]; rewrite get_bind; destruct (work c) as [|t w] eqn:Ew; try done.
  rewrite smod_bind. destruct (co_ids _ _ _ _ _ C t) as [th Ht]; [rewrite Ew; set_solver|].
  assert (inv R i (set_work w c)) as C1. { destruct C as [C1 C2 C3 C4 C5 C6 C7 C8]. split; try done. cbn. intros s Hs. apply C3. rewrite Ew. set_solver. }
  assert (deleteThread t (set_work w c) = Ok ((), set_work w c) \/ deleteThread t (set_work w c) = Panic \/
    deleteThread t (set_work w c) = Ok ((), putt t (set_attachedToTask false th) (set_work w c))) as [E|[E|E]].
  { unfold deleteThread. rewrite (thr_bind _ _ _ th) by done. destruct (negb _); [by left|]. unfold require, slift, REQUIRE, mbind, st_bind.
    destruct (_ || _); cbn [res_bind]; [|by right; left]. rewrite (upd_eq _ _ _ th) by done. by right; right. }
  - rewrite (ok_bind _ _ _ _ _ E). apply IH; [done|]. cbn in *. lia.
  - unfold mbind, st_bind. by rewrite E.
  - rewrite (ok_bind _ _ _ _ _ E). apply IH; [|cbn in *; lia].
    assert (okd none R i (fun s => R = Some s) (set_work w c)) as Ho by (split; [done|by intros s []]).
    destruct (same_okd none R i _ t th (set_attachedToTask false th) (set_work w c) Ho Ht) as [C2 _]; [by split|done].
Qed.
Lemma frame_work fuel : frame (work_loop fuel).
Proof. induction fuel; cbn [work_loop]; unfold deleteThread, require; framed. Qed.
Lemma checkWork_ok R i : ht (good R i) checkWork (fun _ => good R i).
Proof.
  apply good_frame; [unfold checkWork; pose proof frame_work; framed|]. intros c C. unfold checkWork. rewrite get_bind. by apply work_loop_ok.
Qed.

(** The idle thread is not ended, and times are 64-bit. *)
Definition event_ok (i : Z) (e : event) : Prop :=
  match e with Terminate t _ _ => t <> i | BlockOn _ _ until _ => is_u 64 until | _ => True end.

Lemma by_running_ok R i m :
  (forall r c th, r <> i -> good (Some r) i c -> threads c !! r = Some th -> cont th = Run ->
     match m r c with Ok (_, c') => Good i c' | Panic => True | Stuck => False end) ->
  ht (good R i) (by_running m) (fun _ => Good i).
Proof.
  intros Hm c G. unfold by_running. rewrite sget_bind, (co_running _ _ _ _ _ (proj1 G)), (co_idle _ _ _ _ _ (proj1 G)).
  destruct R as [r|]; [|by exists None]. destruct (Z.eqb_spec r i) as [->|Hne]; [by exists (Some i)|].
  destruct (co_ids _ _ _ _ _ (proj1 G) r ltac:(by left)) as [th Ht]. rewrite (thr_bind _ _ _ th) by done.
  destruct (cont th) eqn:Ec; [by apply (Hm r c th)|by exists (Some r)..].
Qed.
Lemma known_ok R i t m : keeps R i t m -> ht (good R i) (known t m) (fun _ => Good i).
Proof.
  intros Hm c G. unfold known. rewrite sget_bind. destruct (threads c !! t) as [th|] eqn:Ht; [|by exists R].
  specialize (Hm c (conj G (ex_intro _ th Ht))). outcome Hm. by exists R.
Qed.
Lemma sstep_ok i e : event_ok i e -> ht (Good i) (sstep e) (fun _ => Good i).
Proof.
  intros He c [R G]. destruct e as [a b|t k|t| |irqs| |irqs|n a|b ab u a|m u a|irqs|t|t bits|t rel isr|]; cbn [sstep event_ok] in *.
  - rewrite sget_bind, smod_bind. cbn. exists R. destruct G as [[C1 C2 C3 C4 C5 C6 [C7 _] C8] Hr]. split; [|done]. split; try done. cbn.
    split; [done|]. apply wrap_range. lia.
  - pose proof (create_ok R i t k c G) as H. outcome H. by exists R.
  - apply (known_ok R); [|done]. pose proof (resume_ok R i t) as H. intros c1 H1. specialize (H c1 H1). unfold mbind, st_bind.
    by destruct (resumeThread t c1) as [[e c']| |].
  - rewrite sget_bind, (co_running _ _ _ _ _ (proj1 G)). destruct R as [r|]; [by exists (Some r)|]. pose proof (run_starts i c (proj1 G)) as H. outcome H.
    destruct H as [r' G']. by exists (Some r').
  - apply (by_running_ok R); [|done]. intros r c1 th Hne G1 Ht Hc. pose proof (yield_ok r i irqs c1 (proj1 G1)) as H. outcome H.
    destruct H as [r' G']. by exists (Some r').
  - rewrite sget_bind, (co_running _ _ _ _ _ (proj1 G)). destruct R as [r|]; [|by exists None].
    pose proof (good_frame (Some r) i timerFired frame_timerFired (timerFired_ok r i _) c G) as H. outcome H. by exists (Some r).
  - rewrite sget_bind, (co_running _ _ _ _ _ (proj1 G)). destruct R as [r|]; [|by exists None]. pose proof (handleIpi_ok r i irqs c (proj1 G)) as H.
    outcome H. destruct H as [r' G']. by exists (Some r').
  - apply (by_running_ok R); [|done]. intros r c1 th Hne G1 _ _. pose proof (sleep_ok r i n a Hne c1 G1) as H. outcome H. by exists (Some r).
  - apply (by_running_ok R); [|done]. intros r c1 th Hne G1 Ht Hc. pose proof (blockOn_ok r i b ab u a c1 th Hne He G1 Ht Hc) as H. outcome H. by exists (Some r).
  - apply (by_running_ok R); [|done]. intros r c1 th Hne G1 Ht Hc. pose proof (blockNotify_ok r i m u a c1 th Hne G1 Ht Hc) as H.
    unfold mbind, st_bind. destruct (blockNotify m u a c1) as [[x c']| |]; try done. by exists (Some r).
  - by apply (continue_ok R).
  - apply (known_ok R); [apply unblock_keeps|done].
  - apply (known_ok R); [apply notify_good|done].
  - unfold known. rewrite sget_bind. destruct (threads c !! t) as [th|] eqn:Ht; [|by exists R]. destruct isr.
    + pose proof (terminate_keeps R i t rel true He ltac:(by right) c (conj G (ex_intro _ th Ht))) as H. outcome H. by exists R.
    + revert c G th Ht. intros c G th Ht. unfold by_running. rewrite sget_bind, (co_running _ _ _ _ _ (proj1 G)), (co_idle _ _ _ _ _ (proj1 G)).
      destruct R as [r|]; [|by exists None]. destruct (r =? i); [by exists (Some r)|]. destruct (co_ids _ _ _ _ _ (proj1 G) r ltac:(by left)) as [thr' Htr].
      rewrite (thr_bind _ _ _ thr') by done. destruct (cont thr'); [|by exists (Some r)..].
      pose proof (terminate_keeps (Some r) i t rel false He ltac:(by left) c (conj G (ex_intro _ th Ht))) as H. outcome H. by exists (Some r).
  - unfold by_idle. rewrite sget_bind. pose proof (checkWork_ok R i c G) as H. destruct (bool_decide _); cbn [when]; [|by exists R]. outcome H. by exists R.
Qed.
Lemma srun_ok i es : Forall (event_ok i) es -> ht (Good i) (srun es) (fun _ => Good i).
Proof.
  induction es as [|e es IH]; intros He; cbn [srun]; [apply keep_ret|]. apply Forall_cons in He as [He Hes].
  eapply ht_bind; [by apply sstep_ok|intros ?; by apply IH].
Qed.
Lemma start_good noise i : Good i (startCore noise i).
Proof.
  exists None. split; [|done]. split; try done; cbn [startCore running idle levels unblocked work threads timer deadlines calls now].
  - intros t [H|[->|[H|[H|H]]]]; [done|rewrite lookup_singleton_eq; eauto| |by apply elem_of_nil in H..].
    destruct H as (q & Hq & Ht). apply elem_of_replicate in Hq as [-> _]. by apply elem_of_nil in Ht.
  - split; [done|]. apply Forall_replicate. cbn. lia.
  - intros t th Ht. apply lookup_singleton_Some in Ht as [<- <-]. split_and!.
    + split; try done. split; [cbn; unfold kNumLevels; lia|by left].
    + right; right; right. done.
    + intros _. by left.
  - split; [|by unfold is_u]. split; [unfold vector_ok; cbn; lia|by intros j _ a b Ha|constructor].
  - split; [done|]. intros d Hd. by apply elem_of_nil in Hd.
Qed.

(** ** Theorems *)

(** C3: no thread is lost, whatever threads, interrupts and deadlines do and in
    whatever order: in every state a core gets to, a thread that can run and is not
    dying is running or in a run queue (or is the idle thread); a thread that waits
    although its wait is over is in the list that the next scheduler interrupt
    works off; the running thread can run, or is dying, or is about to yield; the
    run queues keep to their room; and no step runs into undefined behaviour. *)
Theorem no_thread_lost noise i es :
  Forall (event_ok i) es ->
  match srun es (startCore noise i) with
  | Ok (_, c) =>
      (forall t th, threads c !! t = Some th -> needsToDie th = false ->
         (state th = Runnable -> t = i \/ running c = Some t \/ queued (levels c) t) /\
         (waiting (state th) = true -> ended (blockState th) = true -> t ∈ unblocked c)) /\
      (forall r th, running c = Some r -> threads c !! r = Some th -> runs_ok th) /\
      length (levels c) = 32%nat /\ Forall (fun q => (length q <= 63)%nat) (levels c)
  | Panic => True
  | Stuck => False
  end.
Proof.
  intros He. pose proof (srun_ok i es He (startCore noise i) (start_good noise i)) as H. destruct (srun es (startCore noise i)) as [[[] c]| |]; try done.
  destruct H as (R & C & Hr). split_and!.
  - intros t th Ht Hd. destruct (co_thread _ _ _ _ _ C t th Ht) as (_ & Hw & Hk). split.
    + intros Hs. rewrite (co_running _ _ _ _ _ C). destruct (Hk Hs) as [|[|[|]]]; try tauto. congruence.
    + intros Hwt Hen. destruct Hw as [[]|[|[|[_ H]]]]; [congruence|done|]. rewrite (H Hwt) in Hen. done.
  - intros r th Hrun Ht. apply (Hr r th); [|done]. by rewrite <- (co_running _ _ _ _ _ C).
  - apply (co_levels _ _ _ _ _ C).
  - apply (co_levels _ _ _ _ _ C).
Qed.

(** In every state a core gets to, threads stay within the levels: a thread's
    level lies between its highest level and the last one, and the quantum it has
    been given, if any, is that of its level. *)
Theorem levels_in_bounds noise i es :
  Forall (event_ok i) es ->
  match srun es (startCore noise i) with
  | Ok (_, c) => forall t th, threads c !! t = Some th ->
      0 <= maxLevel (sched th) <= level (sched th) /\ level (sched th) < 32 /\ getLevelFor (sched th) = level (sched th) /\
      (quantumTotal (sched th) = 0 \/ gLevelInfo !! Z.to_nat (level (sched th)) = Some (quantumTotal (sched th)))
  | Panic => True
  | Stuck => False
  end.
Proof.
  intros He. pose proof (srun_ok i es He (startCore noise i) (start_good noise i)) as H. destruct (srun es (startCore noise i)) as [[[] c]| |]; try done.
  destruct H as (R & C & Hr). intros t th Ht. destruct (co_thread _ _ _ _ _ C t th Ht) as ([T1 _ _ _] & _).
  destruct (level_info _ (so_level _ T1)) as [E _]. destruct T1 as [[H1 H2] H3]. unfold kNumLevels in *. split_and!; try done; lia.
Qed.

(** The search takes the first thread of the highest level that can run.  The
    entries before it in its queue and all entries of higher levels are of threads
    that are dying or cannot run, and are taken out; the rest of its queue and the
    lower levels are left as they are.  If nothing is found, every entry was of
    that kind and all queues are empty. *)
Theorem find_picks_first i c :
  Good i c ->
  match findRunnableThread [] c with
  | Ok (Some t, c') =>
      exists k skipped rest, currentLevel c' = k /\ 0 <= k < 32 /\ levels c !! Z.to_nat k = Some (skipped ++ t :: rest) /\ Forall (stale c) skipped /\
        levels c' !! Z.to_nat k = Some rest /\
        (forall j q, (j < Z.to_nat k)%nat -> levels c !! j = Some q -> levels c' !! j = Some [] /\ Forall (stale c) q) /\
        (forall j, (Z.to_nat k < j)%nat -> levels c' !! j = levels c !! j) /\
        exists th, threads c' !! t = Some th /\ state th = Runnable /\ needsToDie th = false
  | Ok (None, c') => currentLevel c' = 32 /\ forall j q, levels c !! j = Some q -> levels c' !! j = Some [] /\ Forall (stale c) q
  | Panic => True
  | Stuck => False
  end.
Proof.
  intros (R & C & _). unfold findRunnableThread, levelChangeMaxLoops. cbn [find_loop]. rewrite get_bind.
  pose proof (scan_levels_ok R i _ (Z.to_nat kNumLevels) 0 c C ltac:(lia) eq_refl) as H1. unfold mbind at 1, st_bind at 1.
  destruct (scan_levels _ 0 c) as [[[t|] c1]| |] eqn:E; try done; destruct H1 as [S1 S2 S3 S4 S5 S6].
  - cbn. destruct (S4 t eq_refl) as (k & q & sk & rest & Hk & Hcl & Hq & -> & Hsk & Hrest & Hbetween & Hbeyond & Hth).
    exists k, sk, rest. pose proof (lookup_lt_Some _ _ _ Hq) as Hlt. rewrite (proj1 (co_levels _ _ _ _ _ C)) in Hlt. unfold kNumLevels in Hlt.
    split_and!; try done; try lia. intros j q0 Hj Hq0. apply Hbetween; [lia|done].
  - change (when (default false (head [])) timerFired) with (mret () : st core ()). unfold mbind at 1, st_bind at 1, mret at 1, st_ret at 1.
    rewrite get_bind. cbv zeta. rewrite S6, Z.eqb_refl. cbn [negb when]. rewrite !smod_bind. cbn. split; [done|]. intros j q Hq.
    apply (S3 eq_refl j q); [lia|done].
Qed.

(** The queues and the level of the running thread, which most operations leave
    alone. *)
Definition lview (c : core) : list (list Z) * Z := (levels c, currentLevel c).
Definition lframe {A} (m : st core A) : Prop := forall c a c', m c = Ok (a, c') -> lview c' = lview c.
Lemma lframe_bind {A B} (m : st core A) (f : A -> st core B) : lframe m -> (forall a, lframe (f a)) -> lframe (m ≫= f).
Proof.
  intros Hm Hf c b c' E. unfold mbind, st_bind in E. destruct (m c) as [[a c1]| |] eqn:E1; try done.
  by rewrite (Hf _ _ _ _ E), (Hm _ _ _ E1).
Qed.
Lemma lframe_ret {A} (a : A) : lframe (mret a).
Proof. by intros c b c' [= _ <-]. Qed.
Lemma lframe_get {A} (f : core -> A) : lframe (get f).
Proof. by intros c b c' [= _ <-]. Qed.
Lemma lframe_sget : lframe sget.
Proof. by intros c b c' [= _ <-]. Qed.
Lemma lframe_thr t : lframe (thr t).
Proof. intros c b c'. unfold thr. destruct (threads c !! t); cbn; [by intros [= _ <-]|done]. Qed.
Lemma lframe_slift {A} (r : res A) : lframe (slift r).
Proof. intros c b c'. unfold slift. destruct r; cbn; [by intros [= _ <-]|done..]. Qed.
Lemma lframe_abort {A} : lframe (@sabort core A).
Proof. by intros c a c'. Qed.
Lemma lframe_smod f : (forall c, lview (f c) = lview c) -> lframe (smod f).
Proof. intros H c b c' [= _ <-]. apply H. Qed.
Lemma lframe_upd t f : lframe (upd t f).
Proof. intros c a c' E. unfold upd in E. destruct (threads c !! t); [|done]. cbn in E. by injection E as _ <-. Qed.
Lemma lframe_when b m : lframe m -> lframe (when b m).
Proof. destruct b; [done|]. intros _. apply lframe_ret. Qed.
#[local] Hint Resolve lframe_ret lframe_get lframe_sget lframe_thr lframe_slift lframe_abort lframe_upd lframe_when : frames.
Ltac lframed :=
  repeat first
    [ solve [eauto 2 with frames] | apply lframe_bind; [|intros ?] | apply lframe_when | apply lframe_smod; intros ?; reflexivity
    | match goal with |- lframe (match ?x with _ => _ end) => destruct x end ].
Lemma lframe_switch t : lframe (_ ← timerUpdate; switchTo t).
Proof.
  unfold timerUpdate, switchTo, switchFrom, deferredTerminate, setState, queueDestroyThread, RestoreThreadState, lower_irql, require, willSwitchFrom,
    updateQuantumUsed, updateQuantumLength, upd_sched, timer_start. lframed.
Qed.
Lemma lframe_stay : lframe (_ ← timerUpdate; timer_start).
Proof. unfold timerUpdate, timer_start. lframed. Qed.

(** What the search leaves: nothing above the level it stopped at. *)
Lemma find_drains R i Y c :
  core_ok R i nobody Y c ->
  match findRunnableThread [] c with
  | Ok (r, c') => (forall j, (j < Z.to_nat (currentLevel c'))%nat -> (j < 32)%nat -> levels c' !! j = Some []) /\
      0 <= currentLevel c' <= 32 /\ (r = None <-> currentLevel c' = 32)
  | Panic => True
  | Stuck => False
  end.
Proof.
  intros C. pose proof (co_levels _ _ _ _ _ C) as [Hlen _]. unfold findRunnableThread, levelChangeMaxLoops. cbn [find_loop]. rewrite get_bind.
  pose proof (scan_levels_ok R i _ (Z.to_nat kNumLevels) 0 c C ltac:(lia) eq_refl) as H1. unfold mbind at 1, st_bind at 1.
  assert (forall j, (j < 32)%nat -> is_Some (levels c !! j)) as Hex. { intros j Hj. apply lookup_lt_is_Some_2. rewrite Hlen. unfold kNumLevels. lia. }
  destruct (scan_levels _ 0 c) as [[[t|] c1]| |] eqn:E; try done; destruct H1 as [S1 S2 S3 S4 S5 S6].
  - cbn. destruct (S4 t eq_refl) as (k & q & sk & rest & Hk & Hcl & Hq & -> & Hsk & Hrest & Hbetween & Hbeyond & Hth).
    pose proof (lookup_lt_Some _ _ _ Hq) as Hlt. rewrite Hlen in Hlt. unfold kNumLevels in Hlt. rewrite Hcl. split_and!; try done; try lia; [|split; [done|lia]].
    intros j Hj Hj2. destruct (Hex j Hj2) as [q0 Hq0]. by apply (Hbetween j q0); [lia|].
  - change (when (default false (head [])) timerFired) with (mret () : st core ()). unfold mbind at 1, st_bind at 1, mret at 1, st_ret at 1.
    rewrite get_bind. cbv zeta. rewrite S6, Z.eqb_refl. cbn [negb when]. rewrite !smod_bind. cbn. unfold kNumLevels. split_and!; try done; try lia.
    intros j _ Hj. destruct (Hex j Hj) as [q Hq]. by apply (S3 eq_refl j q); [lia|].
Qed.


Lemma level_quantum_pos k q : gLevelInfo !! k = Some q -> 0 < q.
Proof.
  assert (forallb (Z.ltb 0) gLevelInfo = true) as H by (by vm_compute). rewrite forallb_forall in H. intros Hq.
  apply Z.ltb_lt, H. apply list_elem_of_In. by eapply list_elem_of_lookup_2.
Qed.
Lemma account_spec ns d :
  sched_ok d ->
  let used := u64 (quantumUsed d + ns) in
  let expired := quantumTotal d <? used in
  let d' := (account ns d).2 in
  (account ns d).1 = expired /\ cpuTime d' = u64 (cpuTime d + ns) /\ maxLevel d' = maxLevel d /\
  (expired = false -> level d' = level d /\ quantumTotal d' = quantumTotal d /\ quantumUsed d' = used) /\
  (expired = true -> level d' = Z.min (level d + 1) 31 /\ quantumUsed d' = used - quantumTotal d /\
     gLevelInfo !! Z.to_nat (level d') = Some (quantumTotal d')).
Proof.
  intros Hs used expired d'. pose proof (account_ok ns d Hs) as [Hd _]. fold d' in Hd. revert Hd. unfold d', account. fold used. fold expired.
  destruct Hs as [[H1 H2] H3]. pose proof (wrap_range 64 (quantumUsed d + ns) ltac:(lia)) as Hu. fold used in Hu.
  assert (0 <= quantumTotal d) as Hq0 by (destruct H3 as [->|H3]; [lia|]; apply level_quantum_pos in H3; lia).
  assert (u64 (level d + 1) = level d + 1) as El by (unfold u64, kNumLevels in *; apply wrap_small; mlia). rewrite El.
  assert ((if kNumLevels <=? level d + 1 then kNumLevels - 1 else level d + 1) = Z.min (level d + 1) 31) as ->.
  { unfold kNumLevels in *. destruct (Z.leb_spec 32 (level d + 1)); lia. }
  destruct expired eqn:Ee; cbn [fst snd]; intros Hd; [|by split_and!]. split_and!; try done. intros _. apply Z.ltb_lt in Ee. split_and!; [done| |].
  - cbn. unfold u64. apply wrap_small. unfold used, u64 in *. unfold is_u in *. lia.
  - destruct (level_info _ (so_level _ Hd)) as [_ [q Hq]]. cbn in Hq |- *. by rewrite Hq.
Qed.

End Scheduler.

(** ** Witnesses and examples *)

Definition noRaw : nat -> DeadlineWrapper := fun _ => None.
Definition zeros : Z -> Z := fun _ => 0.
(** The core that a run of events leads to. *)
Definition after (es : list event) : core := match srun noRaw es (startCore zeros 0) with Ok (_, c) => c | _ => startCore zeros 0 end.

(** Two threads of a user; the first uses up its quantum and is preempted, the
    second waits for an object and is woken. *)
Definition boot2 : list event := [Create 1 false; Create 2 false; Resume 1; Resume 2; Boot].
Definition demo : list event :=
  boot2 ++ [Elapse 6000000 6000000; TimerIrq; Ipi []; BlockOn 7 false 0 50; Continue []; Unblock 2].

Lemma sched_demo_events : Forall (event_ok 0) demo.
Proof. repeat (constructor; [try done; cbn; mlia|]). constructor. Qed.
Lemma sched_demo_runs : srun noRaw demo (startCore zeros 0) = Ok ((), after demo).
Proof. unfold after. destruct (srun noRaw demo (startCore zeros 0)) as [[[] c]| |] eqn:E; [done|vm_compute in E; congruence..]. Qed.
Lemma demo_good : Good 0 (after demo).
Proof. pose proof (srun_ok noRaw 0 demo sched_demo_events (startCore zeros 0) (start_good zeros 0)) as H. by rewrite sched_demo_runs in H. Qed.
Lemma no_thread_lost_witness : 2 ∈ unblocked (after demo) /\ length (levels (after demo)) = 32%nat.
Proof.
  pose proof (no_thread_lost noRaw zeros 0 demo sched_demo_events) as H. rewrite sched_demo_runs in H. destruct H as (H & _ & Hl & _). split; [|exact Hl].
  destruct (threads (after demo) !! 2) as [th|] eqn:Ht; [|vm_compute in Ht; congruence].
  assert (th = default idleThread (threads (after demo) !! 2)) as Eth by (by rewrite Ht). vm_compute in Eth. subst th.
  by apply (H 2 _ Ht).
Defined.
Lemma levels_in_bounds_witness : exists th, threads (after demo) !! 1 = Some th /\ level (sched th) = 5 /\ getLevelFor (sched th) = 5.
Proof.
  pose proof (levels_in_bounds noRaw zeros 0 demo sched_demo_events) as H. rewrite sched_demo_runs in H.
  destruct (threads (after demo) !! 1) as [th|] eqn:Ht; [|vm_compute in Ht; congruence].
  assert (th = default idleThread (threads (after demo) !! 1)) as Eth by (by rewrite Ht). vm_compute in Eth. subst th.
  eexists. split; [done|]. split; [done|]. apply (H 1 _ Ht).
Defined.
Lemma find_picks_first_witness : exists c', findRunnableThread [] (after demo) = Ok (None, c') /\ levels c' !! 5%nat = Some [].
Proof.
  pose proof (find_picks_first 0 (after demo) demo_good) as H.
  destruct (findRunnableThread [] (after demo)) as [[[t|] c']| |] eqn:E; [vm_compute in E; congruence| |vm_compute in E; congruence..].
  exists c'. split; [done|]. destruct H as [_ H]. by destruct (H 5%nat [] ltac:(by vm_compute)).
Defined.

(** A thread that waits with a time limit is woken by its object, and the limit
    passes before it gets to run: [threadUnblocked] finds it runnable and panics. *)
Example timed_block_panics :
  srun noRaw (boot2 ++ [BlockOn 7 false 100000 50; Continue []; Unblock 1; Elapse 1 200000; Ipi []; TimerIrq]) (startCore zeros 0) = Panic.
Proof. by vm_compute. Qed.

(** A thread that is woken between marking itself as blocked and yielding is put
    into its run queue twice by the next scheduler interrupt. *)
Definition woken_early : list event := boot2 ++ [BlockOn 7 false 0 50; Unblock 1; Ipi []].
Example queued_twice : levels (after woken_early) !! 4%nat = Some [1; 1].
Proof. by vm_compute. Qed.
(** When it runs again and yields, the search finds it itself; [yield] then
    returns at the interrupt level of the scheduler. *)
Example yield_keeps_irql : irql (after (woken_early ++ [Ipi []; Continue []])) = SchedulerIrql /\ running (after (woken_early ++ [Ipi []; Continue []])) = Some 1.
Proof. by vm_compute. Qed.

(** The timer is set for the thread that is switched out: thread 1 has gone down
    to a quantum of 10 ms, of which 1 ms is used; thread 2, which runs now, has
    5 ms. *)
Example timer_of_outgoing :
  let c := after (boot2 ++ [Elapse 6000000 6000000; TimerIrq; Ipi []]) in running c = Some 2 /\ localTimer c = 9000000 /\
  quantumTotal (sched (default idleThread (threads c !! 2))) = 5000000.
Proof. by vm_compute. Qed.

(** Time used beyond the quantum of the next level too makes the rest of the
    quantum wrap: the timer is set to more than five centuries. *)
Example quantum_wraps :
  2 ^ 63 < localTimer (after ([Create 1 false; Resume 1; Boot; Elapse 40000000 40000000; TimerIrq; Ipi []])).
Proof. by vm_compute. Qed.

(** A thread that is ended while it sleeps is queued for destruction, made
    runnable by its deadline and queued for destruction again. *)
Example sleeper_destroyed_twice :
  work (after (boot2 ++ [Sleep 1000 50; Continue []; Terminate 1 true false; Elapse 1000 200000; TimerIrq; Ipi []])) = [1; 1].
Proof. by vm_compute. Qed.
