(* ===== verification/VmMap.v ===== *)
(** * Address spaces and VM objects (kernel/src/vm/Map.cpp, MapEntry.cpp)

    An address space is the tree of its regions (file MapTree) and a page table;
    a VM object holds physical pages of the allocator (file PhysMem) and the list
    of its views.  The page table is an interface, [PTEHandler], that states what
    kernel/src/vm/IPTEHandler.h promises.  A task and its address space go by the
    same number, an object by its address.  Left out: handles and owners of
    objects, locks, the invalidation of the TLB, and the colours of the tree of
    pages, which is a finite map here. *)

From stdpp Require Import sorting.
From S2P Require Import Prelude SmartPtr PhysMem BST MapTree.

(** ** The page table *)

Record Mapping := Translation {
  t_phys : Z; t_write : bool; t_execute : bool; t_global : bool; t_user : bool; t_nocache : bool
}.

Class PTEHandler := {
  table : Type;
  mapPage : Z -> Z -> bool -> bool -> bool -> bool -> bool -> table -> Z * table;
  unmapPage : Z -> table -> Z * table;
  getMapping : Z -> table -> Z * option Mapping
}.

(** Flags of objects and of translations (MapEntry.h, Map.h). *)
Definition Read : Z := 1.
Definition Write : Z := 2.
Definition Execute : Z := 4.
Definition MMIO : Z := 2 ^ 8.
Definition WriteCombine : Z := 2 ^ 9.
Definition PermissionsMask : Z := 7.
Definition CacheabilityMask : Z := 2 ^ 8 + 2 ^ 9.

Definition READ : Z := 1.
Definition WRITE : Z := 2.
Definition EXECUTE : Z := 4.
Definition ACCESS_USER : Z := 2 ^ 8.
Definition GLOBAL : Z := 2 ^ 12.
Definition CACHE_DISABLE : Z := 2 ^ 13.

Definition TestFlags (f : Z) : bool := negb (f =? 0).
(** [~mask] of a 32-bit enumeration. *)
Definition clear_flags (f mask : Z) : Z := Z.ldiff f mask.

(** ** Objects *)

Inductive SequenceDetectorState := Idle | Detect1 | Detect2.
Record ViewInfo := View { v_task : Z; v_base : Z; v_flags : Z }.

Record MapEntry := {
  length_ : Z;
  eflags : Z;
  isKernel : bool;
  isAnon : bool;
  physBase : Z;
  seqState : SequenceDetectorState;
  lastFaultOffset : Z;
  lastFaultStride : Z;
  numSeqFaults : Z;
  pages : gmap Z Z;
  mappedIn : list ViewInfo
}.
Definition kMaxSequentialPrefault : Z := 64.

Definition set_length (n : Z) (e : MapEntry) : MapEntry :=
  Build_MapEntry n (eflags e) (isKernel e) (isAnon e) (physBase e) (seqState e) (lastFaultOffset e)
    (lastFaultStride e) (numSeqFaults e) (pages e) (mappedIn e).
Definition set_flags (f : Z) (e : MapEntry) : MapEntry :=
  Build_MapEntry (length_ e) f (isKernel e) (isAnon e) (physBase e) (seqState e) (lastFaultOffset e)
    (lastFaultStride e) (numSeqFaults e) (pages e) (mappedIn e).
Definition set_detector (s : SequenceDetectorState) (off stride n : Z) (e : MapEntry) : MapEntry :=
  Build_MapEntry (length_ e) (eflags e) (isKernel e) (isAnon e) (physBase e) s off stride n
    (pages e) (mappedIn e).
Definition set_pages (p : gmap Z Z) (e : MapEntry) : MapEntry :=
  Build_MapEntry (length_ e) (eflags e) (isKernel e) (isAnon e) (physBase e) (seqState e)
    (lastFaultOffset e) (lastFaultStride e) (numSeqFaults e) p (mappedIn e).
Definition set_views (v : list ViewInfo) (e : MapEntry) : MapEntry :=
  Build_MapEntry (length_ e) (eflags e) (isKernel e) (isAnon e) (physBase e) (seqState e)
    (lastFaultOffset e) (lastFaultStride e) (numSeqFaults e) (pages e) v.

Definition ConvertVmMode (fl : Z) (isUser : bool) : Z :=
  let mode := if isUser then ACCESS_USER else 0 in
  let mode := if TestFlags (Z.land fl Read) then Z.lor mode READ else mode in
  let mode := if TestFlags (Z.land fl Write) then Z.lor mode WRITE else mode in
  let mode := if TestFlags (Z.land fl Execute) then Z.lor mode EXECUTE else mode in
  if TestFlags (Z.land fl MMIO) then Z.lor mode CACHE_DISABLE else mode.

(** The flags of a view with a mask, as [mapAnonPages] and [mapPhysMem] compute
    them. *)
Definition view_flags (fl mask : Z) : Z :=
  if negb (mask =? 0) then
    let flg := clear_flags fl PermissionsMask in
    Z.lor flg (Z.land flg mask)
  else fl.

(** The order of the nodes of the tree of pages. *)
Definition page_le (a b : Z * Z) : Prop := a.1 <= b.1.
#[export] Instance page_le_dec : RelDecision page_le := fun a b => decide (a.1 <= b.1).
#[export] Instance page_le_total : Total page_le.
Proof. intros a b. unfold page_le. lia. Qed.

Section VmMap.
Context {P : PTEHandler} {Al : Alloc}.

Record VMap := { entries : MapTree; tbl : table }.
Record vm := Vm {
  maps : gmap Z VMap;
  objs : gmap Z MapEntry;
  phys : PhysicalAllocator;
  physPagesOwned : gmap Z Z
}.

Definition the_map (m : Z) : st vm VMap := fun w => x ← res_of (maps w !! m); Ok (x, w).
Definition put_map (m : Z) (x : VMap) : st vm () := fun w =>
  Ok ((), Vm (<[m := x]> (maps w)) (objs w) (phys w) (physPagesOwned w)).
Definition the_obj (e : Z) : st vm MapEntry := fun w => x ← res_of (objs w !! e); Ok (x, w).
Definition put_obj (e : Z) (x : MapEntry) : st vm () := fun w =>
  Ok ((), Vm (maps w) (<[e := x]> (objs w)) (phys w) (physPagesOwned w)).
Definition alloc_phys : st vm Z := fun w =>
  r ← allocPage (phys w); let '(page, a) := r in Ok (page, Vm (maps w) (objs w) a (physPagesOwned w)).
Definition free_phys (page : Z) : st vm () := fun w =>
  a ← freePage (phys w) page; Ok ((), Vm (maps w) (objs w) a (physPagesOwned w)).
(** [task->physPagesOwned], counted for the current task, if there is one. *)
Definition count_page (d : Z) (current : option Z) : st vm () := fun w =>
  match current with
  | Some t => Ok ((), Vm (maps w) (objs w) (phys w) (<[t := u64 (default 0 (physPagesOwned w !! t) + d)]> (physPagesOwned w)))
  | None => Ok ((), w)
  end.

(** ** Translations *)

Definition round_up (len : Z) : Z :=
  if negb (len mod arch_page_size =? 0) then u64 (len + (arch_page_size - len mod arch_page_size)) else len.

Fixpoint map_loop (fuel : nat) (physAddr vmAddr len mode off : Z) (t : table) : res (Z * table) :=
  match fuel with
  | O => Stuck
  | S fuel =>
      if off <? len then
        let '(err, t) := mapPage (u64 (physAddr + off)) (u64 (vmAddr + off))
          (TestFlags (Z.land mode WRITE)) (TestFlags (Z.land mode EXECUTE)) (TestFlags (Z.land mode GLOBAL))
          (TestFlags (Z.land mode ACCESS_USER)) (TestFlags (Z.land mode CACHE_DISABLE)) t in
        if negb (err =? 0) then Ok (err, t)
        else map_loop fuel physAddr vmAddr len mode (u64 (off + arch_page_size)) t
      else Ok (0, t)
  end.
Definition loop_fuel (len : Z) : nat := S (Z.to_nat (len / arch_page_size)).

(** [Map::add(physAddr, length, vmAddr, mode)]. *)
Definition add_translation (m physAddr len vmAddr mode : Z) : st vm Z :=
  x ← the_map m;
  let len := round_up len in
  r ← slift (map_loop (loop_fuel len) physAddr vmAddr len mode 0 (tbl x));
  let '(err, t) := (r : Z * table) in
  _ ← put_map m {| entries := entries x; tbl := t |};
  mret err.

Fixpoint unmap_loop (fuel : nat) (vmAddr len off : Z) (t : table) : res table :=
  match fuel with
  | O => Stuck
  | S fuel =>
      if off <? len then unmap_loop fuel vmAddr len (u64 (off + arch_page_size)) (unmapPage (u64 (vmAddr + off)) t).2
      else Ok t
  end.
(** [Map::remove(vmAddr, length)]: the results of [unmapPage] are ignored. *)
Definition remove_translation (m vmAddr len : Z) : st vm Z :=
  x ← the_map m;
  let len := round_up len in
  t ← slift (unmap_loop (loop_fuel len) vmAddr len 0 (tbl x));
  _ ← put_map m {| entries := entries x; tbl := t |};
  mret 0.

(** [Map::get]: the code of the page table and, on success, address and mode. *)
Definition get_translation (m virtAddr : Z) : st vm (Z * option (Z * Z)) :=
  x ← the_map m;
  let '(err, r) := getMapping virtAddr (tbl x) in
  mret (err, match r with
    | Some t =>
        if err =? 0 then
          let mode := READ in
          let mode := if t_write t then Z.lor mode WRITE else mode in
          let mode := if t_execute t then Z.lor mode EXECUTE else mode in
          let mode := if t_global t then Z.lor mode GLOBAL else mode in
          let mode := if t_user t then Z.lor mode ACCESS_USER else mode in
          let mode := if t_nocache t then Z.lor mode CACHE_DISABLE else mode in
          Some (t_phys t, mode)
        else None
    | None => None
    end).

(** ** Views of objects *)

(** The pages of an object in the order of the tree. *)
Definition page_list (e : MapEntry) : list (Z * Z) := merge_sort page_le (map_to_list (pages e)).

Fixpoint map_pages (m base mode : Z) (l : list (Z * Z)) : st vm () :=
  match l with
  | [] => mret ()
  | (pageOff, pa) :: l =>
      err ← add_translation m pa arch_page_size (u64 (base + pageOff * arch_page_size)) mode;
      _ ← slift (REQUIRE (err =? 0));
      map_pages m base mode l
  end.
Definition mapAnonPages (this m base mask : Z) : st vm () :=
  e ← the_obj this;
  map_pages m base (ConvertVmMode (view_flags (eflags e) mask) (negb (isKernel e))) (page_list e).
Definition mapPhysMem (this m base mask : Z) : st vm () :=
  e ← the_obj this;
  err ← add_translation m (physBase e) (length_ e) base
          (ConvertVmMode (view_flags (eflags e) mask) (negb (isKernel e)));
  slift (REQUIRE (err =? 0)).
Definition map_view (this m base mask : Z) : st vm () :=
  e ← the_obj this;
  if isAnon e then mapAnonPages this m base mask else mapPhysMem this m base mask.

Definition addedToMap (this m task base mask : Z) : st vm () :=
  _ ← slift (REQUIRE (negb (base =? 0)));
  e ← the_obj this;
  _ ← put_obj this (set_views (mappedIn e ++ [View task base mask]) e);
  map_view this m base mask.

Definition removedFromMap (this m task base len : Z) : st vm () :=
  err ← remove_translation m base len;
  _ ← slift (REQUIRE (err =? 0));
  e ← the_obj this;
  put_obj this (set_views (filter (fun v => v_task v <> task) (mappedIn e)) e).

Fixpoint update_views (this : Z) (l : list ViewInfo) : st vm () :=
  match l with
  | [] => mret ()
  | v :: l => _ ← map_view this (v_task v) (v_base v) (v_flags v); update_views this l
  end.
Definition updateFlags (this newFlags : Z) : st vm Z :=
  e ← the_obj this;
  let oldFlags := eflags e in
  let fl := clear_flags (clear_flags oldFlags PermissionsMask) CacheabilityMask in
  let fl := Z.lor fl newFlags in
  _ ← put_obj this (set_flags fl e);
  if negb (oldFlags =? fl) then _ ← update_views this (mappedIn e); mret 0 else mret 0.

Definition resize (this newSize : Z) : st vm Z :=
  if negb (newSize mod arch_page_size =? 0) then mret (-1)
  else if newSize =? 0 then mret (-1)
  else e ← the_obj this; _ ← put_obj this (set_length newSize e); mret 0.

(** ** Page faults *)

(** [pages.insert]: the tree panics on a key that is present. *)
Definition insert_page (this pageOff page : Z) : st vm () :=
  e ← the_obj this;
  match pages e !! pageOff with
  | Some _ => sabort
  | None => put_obj this (set_pages (<[pageOff := page]> (pages e)) e)
  end.

Definition map_page (this m base pageOff page : Z) : st vm () :=
  e ← the_obj this;
  err ← add_translation m page arch_page_size (u64 (base + pageOff * arch_page_size))
          (ConvertVmMode (eflags e) (negb (isKernel e)));
  slift (REQUIRE (err =? 0)).

(** [faultInPage] around the part that runs the sequence detector. *)
Definition fault_with (detector : st vm ()) (current : option Z) (this base offset m : Z) : st vm () :=
  let pageOff := offset / arch_page_size in
  e ← the_obj this;
  match pages e !! pageOff with
  | Some page => map_page this m base pageOff page
  | None =>
      page ← alloc_phys;
      _ ← slift (REQUIRE (negb (page =? 0)));
      _ ← count_page 1 current;
      _ ← detector;
      _ ← insert_page this pageOff page;
      map_page this m base pageOff page
  end.

(** The loop that faults in the next pages: [true] when all were in bounds. *)
Fixpoint prefault (n : nat) (i : Z) (current : option Z) (this base offset m : Z) : st vm bool :=
  match n with
  | O => mret true
  | S n =>
      e ← the_obj this;
      let byteOff := u64 ((i + 1) * arch_page_size) in
      if length_ e <=? u64 (offset + byteOff) then mret false
      else
        _ ← fault_with (mret ()) current this base (u64 (offset + byteOff)) m;
        prefault n (i + 1) current this base offset m
  end.

Definition detectFaultSequence (current : option Z) (this base offset m pageOff : Z) : st vm () :=
  e ← the_obj this;
  match seqState e with
  | Idle => put_obj this (set_detector Detect1 pageOff 0 (numSeqFaults e) e)
  | Detect1 =>
      if pageOff <=? lastFaultOffset e then
        put_obj this (set_detector Idle (lastFaultOffset e) (lastFaultStride e) (numSeqFaults e) e)
      else
        put_obj this (set_detector Detect2 pageOff (u64 (pageOff - lastFaultOffset e)) (numSeqFaults e) e)
  | Detect2 =>
      if pageOff <=? lastFaultOffset e then
        put_obj this (set_detector Idle (lastFaultOffset e) (lastFaultStride e) (numSeqFaults e) e)
      else if negb (u64 (pageOff - lastFaultOffset e) =? lastFaultStride e) then
        put_obj this (set_detector Idle (lastFaultOffset e) (lastFaultStride e) 0 e)
      else
        let n := u64 (numSeqFaults e + 1) in
        let numFault := if n <? kMaxSequentialPrefault then n else kMaxSequentialPrefault in
        _ ← put_obj this (set_detector Detect2 pageOff (lastFaultStride e) n e);
        all ← prefault (Z.to_nat numFault) 0 current this base offset m;
        e ← the_obj this;
        if (all : bool) then
          put_obj this (set_detector Detect2 (u64 (lastFaultOffset e + numFault)) (lastFaultStride e) (numSeqFaults e) e)
        else put_obj this (set_detector Idle (lastFaultOffset e) (lastFaultStride e) 0 e)
  end.

Definition faultInPage (current : option Z) (this base offset m : Z) (runDetector : bool) : st vm () :=
  fault_with (if runDetector then detectFaultSequence current this base offset m (offset / arch_page_size)
              else mret ()) current this base offset m.

Definition handlePagefault (current : option Z) (this m base offset : Z) (present write : bool) : st vm bool :=
  e ← the_obj this;
  if negb (isAnon e) then mret false
  else if present then mret false
  else if length_ e <=? offset then mret false
  else _ ← faultInPage current this base offset m true; mret true.

Fixpoint fault_all (n : nat) (pageOff : Z) (this : Z) : st vm Z :=
  match n with
  | O => mret 0
  | S n =>
      page ← alloc_phys;
      if page =? 0 then mret (-1)
      else _ ← insert_page this pageOff page; fault_all n (pageOff + 1) this
  end.
Definition faultInAllPages (this : Z) : st vm Z :=
  e ← the_obj this;
  _ ← slift (REQUIRE (isAnon e));
  _ ← slift (REQUIRE (bool_decide (pages e = ∅)));
  fault_all (Z.to_nat (length_ e / arch_page_size)) 0 this.

Fixpoint free_pages (current : option Z) (l : list (Z * Z)) : st vm () :=
  match l with
  | [] => mret ()
  | (_, page) :: l => _ ← free_phys page; _ ← count_page (-1) current; free_pages current l
  end.
(** The destructor of an object. *)
Definition delete_entry (current : option Z) (this : Z) : st vm () :=
  e ← the_obj this;
  _ ← free_pages current (page_list e);
  smod (fun w => Vm (maps w) (delete this (objs w)) (phys w) (physPagesOwned w)).

(** [makeAnon] and [makePhys]: the state of the detector is not initialised. *)
Definition newEntry (len fl : Z) (kernel anon : bool) (pb : Z) (s : SequenceDetectorState) : MapEntry :=
  Build_MapEntry len fl kernel anon pb s 0 0 0 ∅ [].
Definition make_entry (e : MapEntry) : st vm Z := fun w =>
  let a := alloc (dom (objs w)) in Ok (a, Vm (maps w) (<[a := e]> (objs w)) (phys w) (physPagesOwned w)).
Definition makeAnon (len fl : Z) (kernel : bool) (s : SequenceDetectorState) : st vm Z :=
  make_entry (newEntry len fl kernel true 0 s).
Definition makePhys (physAddr len fl : Z) (kernel : bool) (s : SequenceDetectorState) : st vm Z :=
  make_entry (newEntry len fl kernel false physAddr s).

(** ** Address spaces *)

Definition kVmSearchBase : Z := 0x400000000000.
Definition kVmMaxAddr : Z := 0x7E0000000000.

(** [Map::add] of an object: the new node carries no flags. *)
Definition Map_add (this e task requestedBase flagsMask size_ searchStart searchEnd : Z) : st vm Z :=
  o ← the_obj e;
  x ← the_map this;
  let sz := if negb (size_ =? 0) then size_ else length_ o in
  b ← slift (choose_base requestedBase sz searchStart searchEnd (entries x));
  match b with
  | Some base =>
      t ← slift (tree_insert (alloc (list_to_set (ids (entries x)))) base sz e 0 (entries x));
      _ ← put_map this {| entries := t; tbl := tbl x |};
      _ ← addedToMap e this task base flagsMask;
      mret 0
  | None => mret (-1)
  end.

Definition Map_remove (this e task : Z) : st vm Z :=
  x ← the_map this;
  let '(base, len, _) := baseAddressFor e (entries x) in
  if base =? 0 then mret (-1)
  else
    r ← slift (tree_remove base (entries x));
    let '(_, t) := (r : bool * MapTree) in
    _ ← put_map this {| entries := t; tbl := tbl x |};
    _ ← removedFromMap e this task base len;
    mret 0.

Definition findRegion (this virtAddr : Z) : st vm (option (Z * Z)) :=
  x ← the_map this;
  mret ((fun r => (r.1.1, r.1.2)) <$> find_offset virtAddr (entries x)).
Definition getRegionBase (this e : Z) : st vm Z :=
  x ← the_map this; mret (baseAddressFor e (entries x)).1.1.
Definition Map_contains (this e : Z) : st vm bool :=
  x ← the_map this; mret (negb ((baseAddressFor e (entries x)).1.1 =? 0)).
Definition getRegionInfo (this e : Z) : st vm (Z * option (Z * Z * Z)) :=
  x ← the_map this;
  let '(base, len, fl) := baseAddressFor e (entries x) in
  if base =? 0 then mret (-1, None)
  else
    o ← the_obj e;
    mret (0, Some (base, len, if negb (fl =? 0) then fl else eflags o)).

Definition Map_handlePagefault (current : option Z) (this virtAddr : Z) (present write : bool) : st vm bool :=
  x ← the_map this;
  match find_offset virtAddr (entries x) with
  | None => mret false
  | Some (e, offset, base) => handlePagefault current e this base offset present write
  end.

(** ** Regions stay apart *)

Definition vm_ok (w : vm) : Prop := forall m x, maps w !! m = Some x -> tree_inv (entries x).

(** What a step does to the region trees: nothing. *)
Definition same_regions (w w' : vm) : Prop :=
  (entries <$> maps w') = (entries <$> maps w).

Lemma same_regions_refl w : same_regions w w.
Proof. done. Qed.
Lemma same_regions_trans w1 w2 w3 : same_regions w1 w2 -> same_regions w2 w3 -> same_regions w1 w3.
Proof. unfold same_regions. congruence. Qed.
Lemma same_regions_ok w w' : same_regions w w' -> vm_ok w -> vm_ok w'.
Proof.
  intros E H m x Hx. assert ((entries <$> maps w') !! m = Some (entries x)) as H'
    by (by rewrite lookup_fmap, Hx). rewrite E, lookup_fmap in H'.
  destruct (maps w !! m) as [y|] eqn:Ey; [|done]. injection H' as <-. by apply (H m).
Qed.

(** A computation that leaves the region trees alone. *)
Definition tree_safe {B} (f : st vm B) : Prop := forall w b w', f w = Ok (b, w') -> same_regions w w'.

Lemma tree_safe_ret {B} (b : B) : tree_safe (mret b).
Proof. intros w b' w' [= <- <-]. done. Qed.
Lemma tree_safe_bind {B C} (f : st vm B) (g : B -> st vm C) :
  tree_safe f -> (forall b, tree_safe (g b)) -> tree_safe (f ≫= g).
Proof.
  intros Hf Hg w c w'. unfold mbind, st_bind. destruct (f w) as [[b w1]| |] eqn:E; [|done..].
  intros H. eapply same_regions_trans; [by eapply Hf|by eapply Hg].
Qed.
Lemma tree_safe_lift {B} (r : res B) : tree_safe (slift r).
Proof. intros w b w'. unfold slift, mbind, res_bind. destruct r; [|done..]. by intros [= <- <-]. Qed.
Lemma tree_safe_abort {B} : tree_safe (@sabort vm B).
Proof. done. Qed.
Lemma tree_safe_map m : tree_safe (the_map m).
Proof. intros w b w'. unfold the_map, mbind, res_bind. destruct (res_of _); [|done..]. by intros [= <- <-]. Qed.
Lemma tree_safe_obj e : tree_safe (the_obj e).
Proof. intros w b w'. unfold the_obj, mbind, res_bind. destruct (res_of _); [|done..]. by intros [= <- <-]. Qed.
Lemma tree_safe_put e x : tree_safe (put_obj e x).
Proof. intros w b w' [= <- <-]. done. Qed.
Lemma tree_safe_alloc : tree_safe alloc_phys.
Proof.
  intros w b w'. unfold alloc_phys, mbind, res_bind. destruct (allocPage _) as [[? ?]| |]; [|done..].
  by intros [= <- <-].
Qed.
Lemma tree_safe_count d c : tree_safe (count_page d c).
Proof. intros w b w'. unfold count_page. destruct c; by intros [= <- <-]. Qed.

(** Replacing the page table of a map keeps its regions. *)
Lemma tree_safe_table {B} m (f : VMap -> st vm B) :
  (forall x w b w', maps w !! m = Some x -> f x w = Ok (b, w') -> same_regions w w') ->
  tree_safe (the_map m ≫= f).
Proof.
  intros H w b w'. unfold mbind, st_bind, the_map, mbind, res_bind.
  destruct (maps w !! m) as [x|] eqn:E; [|done]. cbn. intros Hf. by eapply H.
Qed.
Lemma put_table_same w m x t :
  maps w !! m = Some x -> same_regions w (Vm (<[m := {| entries := entries x; tbl := t |}]> (maps w)) (objs w) (phys w) (physPagesOwned w)).
Proof. intros E. unfold same_regions. cbn. rewrite fmap_insert. cbn. rewrite insert_id; [done|]. by rewrite lookup_fmap, E. Qed.

Lemma add_translation_safe m pa len va mode : tree_safe (add_translation m pa len va mode).
Proof.
  apply tree_safe_table. intros x w b w' E. unfold slift, mbind, st_bind, mbind, res_bind.
  destruct (map_loop _ _ _ _ _ _ _) as [[err t]| |]; [|done..]. intros [= <- <-]. by apply put_table_same.
Qed.
Lemma remove_translation_safe m va len : tree_safe (remove_translation m va len).
Proof.
  apply tree_safe_table. intros x w b w' E. unfold slift, mbind, st_bind, mbind, res_bind.
  destruct (unmap_loop _ _ _ _ _) as [t| |]; [|done..]. intros [= <- <-]. by apply put_table_same.
Qed.

End VmMap.

Create HintDb vmtree.
#[export] Hint Resolve tree_safe_ret tree_safe_lift tree_safe_abort tree_safe_map tree_safe_obj
  tree_safe_put tree_safe_alloc tree_safe_count add_translation_safe remove_translation_safe : vmtree.
Ltac vmtree := repeat first
  [ progress intros
  | solve [auto with vmtree]
  | match goal with |- tree_safe (match ?x with _ => _ end) => destruct x end
  | apply tree_safe_bind ].

Section Regions.
Context {P : PTEHandler} {Al : Alloc}.

Lemma map_pages_safe m base mode l : tree_safe (map_pages m base mode l).
Proof. induction l as [|[off pa] l IH]; cbn [map_pages]; vmtree. Qed.
Lemma map_view_safe this m base mask : tree_safe (map_view this m base mask).
Proof. unfold map_view, mapAnonPages, mapPhysMem. pose proof map_pages_safe. vmtree. Qed.
Lemma addedToMap_safe this m task base mask : tree_safe (addedToMap this m task base mask).
Proof. unfold addedToMap. pose proof map_view_safe. vmtree. Qed.
Lemma removedFromMap_safe this m task base len : tree_safe (removedFromMap this m task base len).
Proof. unfold removedFromMap. vmtree. Qed.

Lemma insert_page_safe this off page : tree_safe (insert_page this off page).
Proof. unfold insert_page. vmtree. Qed.
Lemma map_page_safe this m base off page : tree_safe (map_page this m base off page).
Proof. unfold map_page. vmtree. Qed.
Lemma fault_with_safe d c this base off m : tree_safe d -> tree_safe (fault_with d c this base off m).
Proof. unfold fault_with. pose proof insert_page_safe. pose proof map_page_safe. vmtree. Qed.
Lemma prefault_safe n : forall i c this base off m, tree_safe (prefault n i c this base off m).
Proof.
  induction n as [|n IH]; intros; cbn [prefault]; [vmtree|]. pose proof fault_with_safe. vmtree.
Qed.
Lemma detect_safe c this base off m po : tree_safe (detectFaultSequence c this base off m po).
Proof. unfold detectFaultSequence. pose proof prefault_safe. vmtree. Qed.
Lemma handlePagefault_safe c this m base off p w : tree_safe (handlePagefault c this m base off p w).
Proof.
  unfold handlePagefault, faultInPage. pose proof detect_safe.
  assert (forall b, tree_safe (if b : bool then detectFaultSequence c this base off m (off / arch_page_size) else mret ()))
    by (intros []; vmtree).
  pose proof fault_with_safe. vmtree.
Qed.
Lemma Map_handlePagefault_safe c this a p w : tree_safe (Map_handlePagefault c this a p w).
Proof. unfold Map_handlePagefault. pose proof handlePagefault_safe. vmtree. Qed.
Lemma update_views_safe this l : tree_safe (update_views this l).
Proof. pose proof map_view_safe. induction l; cbn [update_views]; vmtree. Qed.
Lemma updateFlags_safe this f : tree_safe (updateFlags this f).
Proof. unfold updateFlags. pose proof update_views_safe. vmtree. Qed.
Lemma resize_safe this n : tree_safe (resize this n).
Proof. unfold resize. vmtree. Qed.

(** ** Calls on address spaces *)

Inductive vop :=
| VAdd (this e task requestedBase flagsMask size_ searchStart searchEnd : Z)
| VRemove (this e task : Z)
| VFault (current : option Z) (this virtAddr : Z) (present write : bool)
| VFlags (e newFlags : Z)
| VResize (e newSize : Z).
Definition vstep (o : vop) : st vm () :=
  match o with
  | VAdd this e task rb fm sz ss se => _ ← Map_add this e task rb fm sz ss se; mret ()
  | VRemove this e task => _ ← Map_remove this e task; mret ()
  | VFault c this a p w => _ ← Map_handlePagefault c this a p w; mret ()
  | VFlags e f => _ ← updateFlags e f; mret ()
  | VResize e n => _ ← resize e n; mret ()
  end.

(** A request whose range lies in the address space. *)
Definition request_ok (w : vm) (o : vop) : Prop :=
  match o with
  | VAdd this e task rb fm size_ ss se =>
      forall x, objs w !! e = Some x ->
      let sz := if negb (size_ =? 0) then size_ else length_ x in
      0 < sz <= se /\ se < 2 ^ 64 /\ 0 <= ss /\ 0 <= rb /\ rb + sz < 2 ^ 64
  | _ => True
  end.
Fixpoint vrun (ops : list vop) (w : vm) : res vm :=
  match ops with
  | [] => Ok w
  | o :: ops => r ← vstep o w; vrun ops r.2
  end.
Fixpoint requests_ok (ops : list vop) (w : vm) : Prop :=
  match ops with
  | [] => True
  | o :: ops => request_ok w o /\ forall r, vstep o w = Ok r -> requests_ok ops r.2
  end.

(** What [Map_add] does to the regions. *)
Lemma Map_add_regions this e task rb fm size_ ss se w r w' :
  vm_ok w -> request_ok w (VAdd this e task rb fm size_ ss se) ->
  Map_add this e task rb fm size_ ss se w = Ok (r, w') ->
  exists o x, objs w !! e = Some o /\ maps w !! this = Some x /\
  let sz := if negb (size_ =? 0) then size_ else length_ o in
  if r =? 0 then
    exists base x', maps w' !! this = Some x' /\ vm_ok w' /\ free_range (entries x) base sz /\
      contents (entries x') ≡ₚ Leaf base sz 0 e :: contents (entries x) /\
      (forall m, m <> this -> (entries <$> maps w' !! m) = (entries <$> maps w !! m))
  else r = -1 /\ w' = w.
Proof.
  intros Hok Hreq. unfold Map_add, mbind, st_bind, the_obj, mbind, res_bind.
  destruct (objs w !! e) as [o|] eqn:Eo; [|done]. cbn. unfold the_map, mbind, res_bind.
  destruct (maps w !! this) as [x|] eqn:Ex; [|done]. cbn. specialize (Hreq o Eo). cbn zeta in Hreq.
  set (sz := if negb (size_ =? 0) then size_ else length_ o) in *. destruct Hreq as (H1 & H2 & H3 & H4 & H5).
  pose proof (choose_base_ok (entries x) rb sz ss se (Hok _ _ Ex) H1 H2 H3 H4 ltac:(lia)) as Hc.
  unfold slift at 1, mbind, res_bind. destruct (choose_base _ _ _ _ _) as [[base|]| |]; [| |done..].
  2:{ intros [= <- <-]. by exists o, x. }
  destruct Hc as (B1 & B2 & Hf).
  destruct (tree_insert_ok (entries x) (alloc (list_to_set (ids (entries x)))) base sz e 0 (Hok _ _ Ex))
    as (t & Et & It & Ct & _); try done; try lia.
  { intros Hin. apply (alloc_fresh (list_to_set (ids (entries x)))). set_solver. }
  unfold slift, mbind, res_bind. rewrite Et. cbn.
  destruct (addedToMap _ _ _ _ _ _) as [[[] w1]| |] eqn:Ea; [|done..]. intros [= <- <-].
  apply addedToMap_safe in Ea. exists o, x. split; [done|]. split; [done|]. cbn.
  set (w0 := Vm (<[this := {| entries := t; tbl := tbl x |}]> (maps w)) (objs w) (phys w) (physPagesOwned w)) in *.
  assert (vm_ok w0) as Hok0.
  { intros m y. cbn. destruct (decide (m = this)) as [->|Hm].
    - rewrite lookup_insert_eq. by intros [= <-].
    - rewrite lookup_insert_ne by done. apply Hok. }
  assert (forall m, entries <$> maps w1 !! m = entries <$> maps w0 !! m) as Hs.
  { intros m. rewrite <- !lookup_fmap. by rewrite Ea. }
  pose proof (Hs this) as Ht. cbn in Ht. rewrite lookup_insert_eq in Ht.
  destruct (maps w1 !! this) as [x'|] eqn:Ex'; [|done]. injection Ht as Ht.
  exists base, x'. split; [done|]. split; [by eapply same_regions_ok|]. split; [done|].
  split; [by rewrite Ht|]. intros m Hm. rewrite Hs. cbn. by rewrite lookup_insert_ne.
Qed.

Lemma Map_remove_regions this e task w r w' :
  vm_ok w -> Map_remove this e task w = Ok (r, w') ->
  vm_ok w' /\ exists x x', maps w !! this = Some x /\ maps w' !! this = Some x' /\
    let '(base, _, _) := baseAddressFor e (entries x) in
    if base =? 0 then r = -1 /\ w' = w
    else r = 0 /\ contents (entries x') = others address base (contents (entries x)).
Proof.
  intros Hok. unfold Map_remove, mbind, st_bind, the_map, mbind, res_bind.
  destruct (maps w !! this) as [x|] eqn:Ex; [|done]. cbn.
  destruct (baseAddressFor e (entries x)) as [[base len] fl] eqn:Eb.
  destruct (Z.eqb_spec base 0) as [->|Hb].
  { intros [= <- <-]. split; [done|]. exists x, x. rewrite Eb. done. }
  unfold slift, mbind, res_bind. destruct (tree_remove base (entries x)) as [[b t]| |] eqn:Et; [|done..].
  assert (root_key address (entries x) <> Some base \/ one_child (entries x) = false) as Ho.
  { destruct (one_child (entries x)) eqn:E1; [left|by right]. intros Hr.
    unfold tree_remove in Et. by rewrite (remove_root_stuck _ _ _ Hr E1) in Et. }
  destruct (tree_remove_ok (entries x) base (Hok _ _ Ex) Ho) as (b' & t' & E' & It & Ct & _).
  rewrite E' in Et. injection Et as -> ->. cbn.
  destruct (removedFromMap _ _ _ _ _ _) as [[[] w1]| |] eqn:Er; [|done..]. intros [= <- <-].
  apply removedFromMap_safe in Er.
  set (w0 := Vm (<[this := {| entries := t; tbl := tbl x |}]> (maps w)) (objs w) (phys w) (physPagesOwned w)) in *.
  assert (vm_ok w0) as Hok0.
  { intros m y. cbn. destruct (decide (m = this)) as [->|Hm].
    - rewrite lookup_insert_eq. by intros [= <-].
    - rewrite lookup_insert_ne by done. apply Hok. }
  split; [by eapply same_regions_ok|].
  assert (entries <$> maps w1 !! this = Some t) as Ht.
  { rewrite <- lookup_fmap, Er, lookup_fmap. cbn. by rewrite lookup_insert_eq. }
  destruct (maps w1 !! this) as [x'|] eqn:Ex'; [|done]. injection Ht as Ht.
  exists x, x'. rewrite Eb. rewrite (proj2 (Z.eqb_neq base 0) Hb). split_and!; try done. by rewrite Ht.
Qed.

Lemma vstep_ok o w r : vm_ok w -> request_ok w o -> vstep o w = Ok r -> vm_ok r.2.
Proof.
  intros Hok Hr. destruct o as [this e task rb fm sz ss se|this e task|c this a p wr|e f|e n]; cbn [vstep];
    unfold mbind, st_bind.
  - destruct (Map_add _ _ _ _ _ _ _ _ w) as [[c w1]| |] eqn:E; [|done..]. intros [= <-].
    destruct (Map_add_regions _ _ _ _ _ _ _ _ _ _ _ Hok Hr E) as (o & x & _ & _ & H). cbn zeta in H.
    destruct (c =? 0); [|by destruct H as [_ ->]]. by destruct H as (? & ? & _ & ? & _).
  - destruct (Map_remove _ _ _ w) as [[c w1]| |] eqn:E; [|done..]. intros [= <-].
    by apply Map_remove_regions in E as [? _].
  - destruct (Map_handlePagefault _ _ _ _ _ w) as [[b w1]| |] eqn:E; [|done..]. intros [= <-].
    apply Map_handlePagefault_safe in E. by eapply same_regions_ok.
  - destruct (updateFlags _ _ w) as [[b w1]| |] eqn:E; [|done..]. intros [= <-].
    apply updateFlags_safe in E. by eapply same_regions_ok.
  - destruct (resize _ _ w) as [[b w1]| |] eqn:E; [|done..]. intros [= <-].
    apply resize_safe in E. by eapply same_regions_ok.
Qed.

Lemma vrun_ok ops : forall w w', vm_ok w -> requests_ok ops w -> vrun ops w = Ok w' -> vm_ok w'.
Proof.
  induction ops as [|o ops IH]; intros w w' Hok Hr; cbn [vrun]; [by intros [= <-]|].
  destruct Hr as [H1 H2]. destruct (vstep o w) as [r| |] eqn:E; [|done..]. cbn [mbind res_bind].
  apply IH; [by eapply vstep_ok|by apply H2].
Qed.


(** C40: Removing an object from an address space.  If the region found for it is
    the root of the tree and the root has exactly one child, the kernel follows
    a null pointer.  In every other case of a call that returns, an object
    without a region gives -1 and changes nothing, and otherwise exactly the
    region at its base disappears and the rest stays as it was. *)
Theorem map_remove_root_crash this e task w x :
  vm_ok w -> maps w !! this = Some x ->
  let '(base, _, _) := baseAddressFor e (entries x) in
  (base <> 0 -> root_key address (entries x) = Some base -> one_child (entries x) = true ->
   Map_remove this e task w = Stuck) /\
  (forall r w', Map_remove this e task w = Ok (r, w') ->
   vm_ok w' /\ exists x', maps w' !! this = Some x' /\
   if base =? 0 then r = -1 /\ w' = w
   else r = 0 /\ contents (entries x') = others address base (contents (entries x))).
Proof.
  intros Hok Ex. destruct (baseAddressFor e (entries x)) as [[base len] fl] eqn:Eb. split.
  - intros Hb Hr Ho. unfold Map_remove, mbind, st_bind, the_map, mbind, res_bind. rewrite Ex. cbn.
    rewrite Eb. rewrite (proj2 (Z.eqb_neq base 0) Hb). unfold slift, tree_remove.
    by rewrite (remove_root_stuck _ _ _ Hr Ho).
  - intros r w' E. destruct (Map_remove_regions _ _ _ _ _ _ Hok E) as (H & y & x' & Ey & Ex' & Hm).
    rewrite Ex in Ey. injection Ey as <-. rewrite Eb in Hm. split; [done|]. by exists x'.
Qed.

(** A view with a mask has no access at all: whatever the flags of the
    object and a mask other than 0, the translations made for the view are
    neither readable nor writable nor executable, since the permission bits are
    cleared before the mask is applied to them. *)
Theorem masked_view_has_no_access fl mask isUser :
  mask <> 0 ->
  Z.land (ConvertVmMode (view_flags fl mask) isUser) (READ + WRITE + EXECUTE) = 0.
Proof.
  intros Hm. unfold view_flags. rewrite (proj2 (Z.eqb_neq mask 0) Hm). cbn [negb].
  set (g := Z.lor _ _).
  assert (forall k, Z.testbit PermissionsMask k = true -> 0 <= k -> Z.testbit g k = false) as Hg.
  { intros k Hk H0. unfold g, clear_flags. rewrite Z.lor_spec, Z.land_spec, Z.ldiff_spec, Hk.
    by rewrite andb_false_r. }
  assert (forall k, 0 <= k -> Z.testbit PermissionsMask k = true -> Z.land g (2 ^ k) = 0) as Hz.
  { intros k H0 Hk. apply Z.bits_inj'. intros j Hj. rewrite Z.land_spec, Z.testbit_0_l.
    rewrite Z.pow2_bits_eqb by done. destruct (Z.eqb_spec k j) as [<-|]; [by rewrite Hg|apply andb_false_r]. }
  unfold ConvertVmMode. change Read with (2 ^ 0). change Write with (2 ^ 1). change Execute with (2 ^ 2).
  rewrite !Hz by done. cbn [TestFlags Z.eqb negb].
  destruct (TestFlags (Z.land g MMIO)), isUser; reflexivity.
Qed.
End Regions.

(** ** Page faults *)

(** What a page table promises for aligned addresses: a page that was mapped
    translates to its physical page with the access asked for, and mapping it
    changes no other translation. *)
Definition aligned (a : Z) : Prop := is_u 64 a /\ a mod arch_page_size = 0.
Definition translate `{P : PTEHandler} (t : table) (va : Z) : option Mapping :=
  match getMapping va t with (err, Some tr) => if err =? 0 then Some tr else None | _ => None end.

Class PTELaws (P : PTEHandler) := {
  map_here : forall pa va w x g u c t t', aligned pa -> aligned va ->
    mapPage pa va w x g u c t = (0, t') ->
    exists tr, translate t' va = Some tr /\ t_phys tr = pa /\ t_write tr = w /\ t_user tr = u;
  map_others : forall pa va va' w x g u c t, aligned va -> aligned va' -> va' <> va ->
    translate (mapPage pa va w x g u c t).2 va' = translate t va'
}.

Section Faults.
Context {P : PTEHandler} {Al : Alloc} (L : PTELaws P).
(** The pages the physical allocator manages, and a page table that has room. *)
Variable M : Z -> Prop.
Hypothesis managed_aligned : forall x, M x -> aligned x.
Hypothesis room : forall pa va w x g u c t, (mapPage pa va w x g u c t).1 = 0.

Definition owns (w : vm) (e off pg : Z) : Prop := exists x, objs w !! e = Some x /\ pages x !! off = Some pg.

(** The objects hold pages of the allocator, and no page twice. *)
Record vm_inv (held : gset Z) (w : vm) : Prop := {
  vi_phys : phys_inv M (phys w, held);
  vi_held : forall e off pg, owns w e off pg -> pg ∈ held;
  vi_once : forall e off e' off' pg, owns w e off pg -> owns w e' off' pg -> e = e' /\ off = off'
}.

(** The fields of an object that a fault does not change. *)
Definition static (x : MapEntry) : Z * Z * bool * bool * Z * list ViewInfo :=
  (length_ x, eflags x, isKernel x, isAnon x, physBase x, mappedIn x).

(** A step that only adds pages to the object [e]: at most [k] of them, at
    offsets in [Q], taken from the allocator. *)
Record grown (e : Z) (k : nat) (Q : Z -> Prop) (held : gset Z) (w : vm) (held' : gset Z) (w' : vm) : Prop := {
  gr_inv : vm_inv held' w';
  gr_held : held ⊆ held';
  gr_size : (stdpp.base.size held' <= stdpp.base.size held + k)%nat;
  gr_obj : exists x x', objs w !! e = Some x /\ objs w' = <[e := x']> (objs w) /\ static x' = static x /\
    (forall off pg, pages x !! off = Some pg -> pages x' !! off = Some pg) /\
    (forall off pg, pages x' !! off = Some pg -> pages x !! off = None -> Q off /\ pg ∉ held);
  gr_maps : entries <$> maps w' = entries <$> maps w
}.

Definition exhausted (k : nat) (held : gset Z) : Prop :=
  exists held', held ⊆ held' /\ (stdpp.base.size held' <= stdpp.base.size held + k)%nat /\ forall x, M x -> x ∈ held'.

Definition outcome {B} (e : Z) (k : nat) (Q : Z -> Prop) (held : gset Z) (w : vm) (r : res (B * vm)) : Prop :=
  match r with
  | Ok (_, w') => exists held', grown e k Q held w held' w'
  | Panic => exhausted k held
  | Stuck => False
  end.

Lemma grown_trans e k1 k2 (Q : Z -> Prop) h w h1 w1 h2 w2 :
  grown e k1 Q h w h1 w1 -> grown e k2 Q h1 w1 h2 w2 -> grown e (k1 + k2) Q h w h2 w2.
Proof.
  intros [I1 H1 S1 (x & x1 & E1 & O1 & T1 & P1 & N1) M1] [I2 H2 S2 (y & x2 & E2 & O2 & T2 & P2 & N2) M2].
  rewrite O1, lookup_insert_eq in E2. injection E2 as <-. split; [done|set_solver|lia| |congruence].
  exists x, x2. split; [done|]. split; [by rewrite O2, O1, insert_insert_eq|]. split; [congruence|]. split.
  - intros off pg H. by apply P2, P1.
  - intros off pg H Hn. destruct (pages x1 !! off) as [q|] eqn:Eq.
    + rewrite (P2 _ _ Eq) in H. injection H as <-. by apply N1.
    + destruct (N2 off pg H Eq) as [? ?]. split; [done|set_solver].
Qed.

Lemma exhausted_weaken k k' h h' :
  exhausted k h' -> h ⊆ h' -> (stdpp.base.size h' <= stdpp.base.size h + k')%nat -> exhausted (k' + k) h.
Proof. intros (h2 & H1 & H2 & H3) Hs Hl. exists h2. split; [set_solver|]. split; [lia|done]. Qed.

Lemma outcome_bind {B C} e k1 k2 Q h w (f : st vm B) (g : B -> st vm C) :
  outcome e k1 Q h w (f w) ->
  (forall b w1 h1, f w = Ok (b, w1) -> grown e k1 Q h w h1 w1 -> outcome e k2 Q h1 w1 (g b w1)) ->
  outcome e (k1 + k2) Q h w ((f ≫= g) w).
Proof.
  unfold mbind, st_bind. intros Hf Hg. destruct (f w) as [[b w1]| |] eqn:E; cbn in Hf; [| |done].
  - destruct Hf as (h1 & G). specialize (Hg b w1 h1 eq_refl G). destruct (g b w1) as [[c w2]| |]; cbn in *; [| |done].
    + destruct Hg as (h2 & G2). exists h2. by eapply grown_trans.
    + eapply exhausted_weaken; [exact Hg|apply G|apply G].
  - destruct Hf as (h1 & H1 & H2 & H3). exists h1. split; [done|]. split; [lia|done].
Qed.

Lemma grown_weaken e k (Q Q' : Z -> Prop) h w h' w' :
  (forall o, Q o -> Q' o) -> grown e k Q h w h' w' -> grown e k Q' h w h' w'.
Proof.
  intros HQ [I H S (x & x1 & E & O & T & Pm & N) Mm]. split; try done. exists x, x1. split_and!; try done.
  intros off pg H1 H2. destruct (N off pg H1 H2). auto.
Qed.

(** Changing only the state of the detector. *)
Lemma grown_detector e Q h w x s o t n :
  vm_inv h w -> objs w !! e = Some x ->
  grown e 0 Q h w h (Vm (maps w) (<[e := set_detector s o t n x]> (objs w)) (phys w) (physPagesOwned w)).
Proof.
  intros [Ip Ih Io] Ex.
  assert (forall e' off pg, owns (Vm (maps w) (<[e := set_detector s o t n x]> (objs w)) (phys w) (physPagesOwned w)) e' off pg
    -> owns w e' off pg) as Ho.
  { intros e' off pg (y & Ey & Hy). cbn in Ey. destruct (decide (e' = e)) as [->|].
    - rewrite lookup_insert_eq in Ey. injection Ey as <-. by exists x.
    - rewrite lookup_insert_ne in Ey by done. by exists y. }
  split; [|done|lia| |done].
  - split; [done|..]; intros; [by eapply Ih, Ho|by eapply Io; apply Ho].
  - exists x, (set_detector s o t n x). split_and!; try done. cbn. congruence.
Qed.


(** Mapping one page. *)
Lemma add_one m pa va mode w y :
  maps w !! m = Some y ->
  exists t', add_translation m pa arch_page_size va mode w =
      Ok (0, Vm (<[m := {| entries := entries y; tbl := t' |}]> (maps w)) (objs w) (phys w) (physPagesOwned w)) /\
    (aligned pa -> aligned va -> exists tr, translate t' va = Some tr /\ t_phys tr = pa /\
       t_write tr = TestFlags (Z.land mode WRITE) /\ t_user tr = TestFlags (Z.land mode ACCESS_USER)).
Proof.
  intros Ey. unfold add_translation, mbind, st_bind, the_map, mbind, res_bind. rewrite Ey. cbn [res_of].
  change (round_up arch_page_size) with arch_page_size. change (loop_fuel arch_page_size) with 2%nat.
  unfold slift, mbind, res_bind. cbn [map_loop]. change (0 <? arch_page_size) with true.
  match goal with |- context [mapPage ?a ?b ?c ?d ?e ?f ?g ?t] =>
    pose proof (room a b c d e f g t) as Hr; destruct (mapPage a b c d e f g t) as [err t'] eqn:Em end.
  cbn [fst] in Hr. subst err. cbn [Z.eqb negb].
  change (u64 (0 + arch_page_size) <? arch_page_size) with false. exists t'. split; [done|].
  intros Ha Hv. apply map_here in Em; [..|by rewrite Z.add_0_r; unfold u64; rewrite wrap_small by apply Ha
                                         |by rewrite Z.add_0_r; unfold u64; rewrite wrap_small by apply Hv].
  rewrite !Z.add_0_r in Em. unfold u64 in Em. rewrite !wrap_small in Em by (apply Ha || apply Hv). done.
Qed.

(** The translation of the page at an offset, as a page fault leaves it. *)
Definition page_mapped (m base : Z) (x : MapEntry) (off pg : Z) (w : vm) : Prop :=
  exists y tr, maps w !! m = Some y /\ translate (tbl y) (base + off * arch_page_size) = Some tr /\ t_phys tr = pg /\
    t_write tr = TestFlags (Z.land (ConvertVmMode (eflags x) (negb (isKernel x))) WRITE) /\ t_user tr = negb (isKernel x).

Lemma mode_user fl u : TestFlags (Z.land (ConvertVmMode fl u) ACCESS_USER) = u.
Proof. unfold ConvertVmMode. destruct u; repeat case_if; reflexivity. Qed.

Lemma map_page_ok e m base off pg Q h w x y :
  vm_inv h w -> objs w !! e = Some x -> maps w !! m = Some y ->
  exists w', map_page e m base off pg w = Ok ((), w') /\ grown e 0 Q h w h w' /\ objs w' = objs w /\
    (aligned pg -> aligned (base + off * arch_page_size) -> page_mapped m base x off pg w').
Proof.
  intros [Ip Ih Io] Ex Ey. unfold map_page, mbind, st_bind, the_obj, mbind, res_bind. rewrite Ex. cbn [res_of].
  destruct (add_one m pg (u64 (base + off * arch_page_size)) (ConvertVmMode (eflags x) (negb (isKernel x))) w y Ey)
    as (t' & -> & Ht).
  cbn [Z.eqb REQUIRE slift mbind res_bind]. eexists. split; [done|]. split; [|split; [done|]].
  - split; [by split|done|lia| |].
    + exists x, x. cbn. rewrite insert_id by done. split_and!; try done. congruence.
    + cbn. rewrite fmap_insert. cbn. rewrite insert_id; [done|]. by rewrite lookup_fmap, Ey.
  - intros Ha Hv. unfold page_mapped. cbn. rewrite lookup_insert_eq.
    assert (u64 (base + off * arch_page_size) = base + off * arch_page_size) as E
      by (unfold u64; apply wrap_small, Hv).
    rewrite E in Ht. destruct (Ht Ha Hv) as (tr & H1 & H2 & H3 & H4).
    eexists _, tr. split; [done|]. cbn [tbl]. rewrite mode_user in H4. done.
Qed.

(** A new page for an offset that has none. *)
Lemma insert_page_ok e off pg (Q : Z -> Prop) h w x :
  vm_inv h w -> objs w !! e = Some x -> pages x !! off = None -> pg ∈ h ->
  (forall e' off', ~ owns w e' off' pg) -> Q off ->
  exists w', insert_page e off pg w = Ok ((), w') /\ vm_inv h w' /\
    objs w' = <[e := set_pages (<[off := pg]> (pages x)) x]> (objs w) /\ maps w' = maps w.
Proof.
  intros [Ip Ih Io] Ex En Hp Hno HQ. unfold insert_page, mbind, st_bind, the_obj, mbind, res_bind.
  rewrite Ex. cbn [res_of]. rewrite En. eexists. split; [done|]. split; [|done].
  set (w' := Vm _ _ _ _).
  assert (forall e' off' pg', owns w' e' off' pg' -> (e' = e /\ off' = off /\ pg' = pg) \/ owns w e' off' pg') as Ho.
  { intros e' off' pg' (z & Ez & Hz). cbn in Ez. destruct (decide (e' = e)) as [->|].
    - rewrite lookup_insert_eq in Ez. injection Ez as <-. cbn in Hz.
      destruct (decide (off' = off)) as [->|].
      + rewrite lookup_insert_eq in Hz. injection Hz as <-. by left.
      + rewrite lookup_insert_ne in Hz by done. right. by exists x.
    - rewrite lookup_insert_ne in Ez by done. right. by exists z. }
  split; [done|..].
  - intros e' off' pg' [(-> & -> & ->)|H]%Ho; [done|by eapply Ih].
  - intros e1 o1 e2 o2 pg' [(-> & -> & ->)|H1]%Ho [(-> & -> & E)|H2]%Ho; [done|..].
    + by destruct (Hno _ _ H2).
    + subst pg'. by destruct (Hno _ _ H1).
    + by eapply Io.
Qed.

Lemma held_aligned h w pg : vm_inv h w -> pg ∈ h -> aligned pg.
Proof. intros [Ip _ _] Hp. apply managed_aligned, (pi_split _ _ Ip). by right. Qed.

Lemma maps_some (m : Z) (w w' : vm) y :
  entries <$> maps w' = entries <$> maps w -> maps w !! m = Some y -> exists y', maps w' !! m = Some y'.
Proof.
  intros E Hy. assert ((entries <$> maps w') !! m = Some (entries y)) as H by (by rewrite E, lookup_fmap, Hy).
  rewrite lookup_fmap in H. destruct (maps w' !! m) as [y'|]; [by exists y'|done].
Qed.

(** Taking a page from the allocator. *)
Lemma alloc_phys_ok h w :
  vm_inv h w -> exists page w', alloc_phys w = Ok (page, w') /\ objs w' = objs w /\ maps w' = maps w /\
    if page =? 0 then forall x, M x -> x ∈ h else page ∉ h /\ vm_inv ({[page]} ∪ h) w'.
Proof.
  intros [Ip Ih Io]. destruct (allocPage_ok M (phys w, h) Ip) as (page & a & E & H). cbn in E, H.
  unfold alloc_phys, mbind, res_bind. rewrite E. exists page, (Vm (maps w) (objs w) a (physPagesOwned w)).
  split; [done|]. split; [done|]. split; [done|]. destruct (page =? 0); [apply H|].
  destruct H as (_ & Hn & Hi). split; [done|]. split; [done|..].
  - intros e off pg H'. apply elem_of_union_r. by eapply Ih.
  - intros e off e' off' pg H1 H2. by eapply Io.
Qed.

Lemma count_page_ok d c h w :
  vm_inv h w -> exists w', count_page d c w = Ok ((), w') /\ objs w' = objs w /\ maps w' = maps w /\ vm_inv h w'.
Proof.
  intros [Ip Ih Io]. unfold count_page. destruct c; eexists; (split; [done|]); (split; [done|]); (split; [done|]); by split.
Qed.

Lemma size_add_one (page : Z) (h : gset Z) : (stdpp.base.size ({[page]} ∪ h) <= stdpp.base.size h + 1)%nat.
Proof.
  destruct (decide (page ∈ h)); [|rewrite size_union by set_solver; rewrite size_singleton; lia].
  replace ({[page]} ∪ h) with h by set_solver. lia.
Qed.

Definition or_at (Q : Z -> Prop) (o : Z) (off : Z) : Prop := Q off \/ off = o.

Lemma fault_with_ok (d : st vm ()) cur e base offset m k (Q : Z -> Prop) h w x y :
  let off := offset / arch_page_size in
  vm_inv h w -> objs w !! e = Some x -> maps w !! m = Some y -> ~ Q off ->
  (forall w1 h1, vm_inv h1 w1 -> objs w1 = objs w -> maps w1 = maps w -> outcome e k Q h1 w1 (d w1)) ->
  match fault_with d cur e base offset m w with
  | Ok (_, w') => exists h', grown e (k + 1) (or_at Q off) h w h' w' /\
      exists pg, owns w' e off pg /\ (aligned (base + off * arch_page_size) -> page_mapped m base x off pg w')
  | Panic => exhausted (k + 1) h
  | Stuck => False
  end.
Proof.
  intros off Hi Ex Ey HQ Hd. unfold fault_with. fold off. unfold mbind at 1, st_bind at 1, the_obj at 1, mbind, res_bind.
  rewrite Ex. cbn [res_of]. destruct (pages x !! off) as [pg|] eqn:Epg.
  { destruct (map_page_ok e m base off pg (or_at Q off) h w x y Hi Ex Ey) as (w' & -> & G & O & T).
    exists h. split; [destruct G; split; try done; lia|]. exists pg. split; [exists x; by rewrite O|].
    intros Ha. apply T; [|done]. eapply held_aligned; [exact Hi|]. eapply (vi_held _ _ Hi). by exists x. }
  destruct (alloc_phys_ok h w Hi) as (page & w1 & E1 & O1 & Ma1 & H1). unfold mbind, st_bind. rewrite E1.
  unfold slift, REQUIRE, mbind, res_bind. destruct (Z.eqb_spec page 0) as [->|Hp]; cbn [negb].
  { exists h. split; [done|]. split; [lia|done]. }
  destruct H1 as (Hnh & I1). destruct (count_page_ok 1 cur _ w1 I1) as (w2 & -> & O2 & Ma2 & I2).
  pose proof (size_add_one page h) as Hsz.
  specialize (Hd w2 ({[page]} ∪ h) I2 ltac:(congruence) ltac:(congruence)).
  destruct (d w2) as [[[] w3]| |]; cbn in Hd; [| |done].
  2:{ replace (k + 1)%nat with (1 + k)%nat by lia. eapply exhausted_weaken; [exact Hd|set_solver|lia]. }
  destruct Hd as (h3 & [I3 Hh3 Hs3 (x2 & x3 & Ex2 & O3 & T3 & P3 & N3) Ma3]).
  assert (x2 = x) as -> by congruence.
  assert (objs w3 !! e = Some x3) as Ex3 by (by rewrite O3, lookup_insert_eq).
  assert (pages x3 !! off = None) as En3.
  { destruct (pages x3 !! off) as [q|] eqn:Eq; [|done]. by destruct (N3 _ _ Eq Epg). }
  assert (forall e' off', ~ owns w3 e' off' page) as Hno.
  { intros e' off' (z & Ez & Hz). rewrite O3 in Ez. destruct (decide (e' = e)) as [->|].
    - rewrite lookup_insert_eq in Ez. injection Ez as <-. destruct (pages x !! off') as [q|] eqn:Eq.
      + rewrite (P3 _ _ Eq) in Hz. injection Hz as <-. apply Hnh, (vi_held _ _ Hi e off'). by exists x.
      + destruct (N3 _ _ Hz Eq) as [_ Hn]. set_solver.
    - rewrite lookup_insert_ne in Ez by done. apply Hnh, (vi_held _ _ Hi e' off'). exists z. split; [congruence|done]. }
  destruct (insert_page_ok e off page (or_at Q off) h3 w3 x3 I3 Ex3 En3 ltac:(set_solver) Hno ltac:(by right))
    as (w4 & -> & I4 & O4 & Ma4).
  set (x4 := set_pages (<[off := page]> (pages x3)) x3) in *.
  assert (objs w4 !! e = Some x4) as Ex4 by (by rewrite O4, lookup_insert_eq).
  destruct (maps_some m w w4 y) as (y4 & Ey4); [by rewrite Ma4, Ma3, Ma2, Ma1|done|].
  destruct (map_page_ok e m base off page (or_at Q off) h3 w4 x4 y4 I4 Ex4 Ey4) as (w5 & -> & G5 & O5 & T5).
  exists h3. split; [|exists page; split].
  - split; [apply G5|set_solver|lia| |].
    + exists x, x4. split; [done|]. split; [rewrite O5, O4, O3, insert_insert_eq; congruence|].
      split; [exact T3|]. cbn. split.
      * intros o q Hq. rewrite lookup_insert_ne by congruence. by apply P3.
      * intros o q Hq Hn. destruct (decide (o = off)) as [->|].
        -- rewrite lookup_insert_eq in Hq. injection Hq as <-. split; [by right|done].
        -- rewrite lookup_insert_ne in Hq by done. destruct (N3 _ _ Hq Hn). split; [by left|set_solver].
    + rewrite (gr_maps _ _ _ _ _ _ _ G5). by rewrite Ma4, Ma3, Ma2, Ma1.
  - exists x4. split; [by rewrite O5|]. cbn. by rewrite lookup_insert_eq.
  - intros Ha. assert (eflags x3 = eflags x /\ isKernel x3 = isKernel x) as [Hf Hk]
      by (unfold static in T3; injection T3; done).
    assert (page_mapped m base x4 off page w5) as (y5 & tr & H5).
    { apply T5; [|done]. eapply held_aligned; [exact I4|set_solver]. }
    exists y5, tr. cbn in H5. by rewrite Hf, Hk in H5.
Qed.

Lemma grown_refl e k Q h w x : vm_inv h w -> objs w !! e = Some x -> grown e k Q h w h w.
Proof.
  intros I Ex. split; [done|done|lia| |done]. exists x, x. rewrite insert_id by done. split_and!; try done. congruence.
Qed.

(** The offsets a fault at [offset] can fault in ahead: later ones in bounds. *)
Definition ahead (offset len off : Z) : Prop := offset / arch_page_size < off /\ off * arch_page_size < len.

Lemma prefault_ok n : forall i cur e base offset m h w x y,
  vm_inv h w -> objs w !! e = Some x -> maps w !! m = Some y ->
  0 <= offset < length_ x -> length_ x <= 2 ^ 63 -> 0 <= i -> i + Z.of_nat n <= 64 ->
  outcome e n (ahead offset (length_ x)) h w (prefault n i cur e base offset m w).
Proof.
  induction n as [|n IH]; intros i cur e base offset m h w x y Hi Ex Ey Ho Hl Hi0 Hin.
  { exists h. by eapply grown_refl. }
  cbn [prefault]. unfold mbind at 1, st_bind at 1, the_obj at 1, mbind, res_bind. rewrite Ex. cbn [res_of].
  assert (u64 ((i + 1) * arch_page_size) = (i + 1) * arch_page_size) as ->
    by (unfold u64, arch_page_size; apply wrap_small; unfold is_u; lia).
  assert (u64 (offset + (i + 1) * arch_page_size) = offset + (i + 1) * arch_page_size) as ->
    by (unfold u64, arch_page_size; apply wrap_small; unfold is_u; lia).
  destruct (Z.leb_spec (length_ x) (offset + (i + 1) * arch_page_size)) as [Hge|Hlt].
  { exists h. by eapply grown_refl. }
  change (S n) with (1 + n)%nat.
  assert ((offset + (i + 1) * arch_page_size) / arch_page_size = offset / arch_page_size + (i + 1)) as Eoff
    by (unfold arch_page_size; rewrite Z.div_add by lia; lia).
  apply outcome_bind.
  - pose proof (fault_with_ok (mret ()) cur e base (offset + (i + 1) * arch_page_size) m 0 (fun _ => False) h w x y
      Hi Ex Ey ltac:(tauto)) as H. cbn zeta in H.
    assert (forall w1 h1, vm_inv h1 w1 -> objs w1 = objs w -> maps w1 = maps w ->
      outcome e 0 (fun _ => False) h1 w1 (@mret (st vm) _ () () w1)) as Hd.
    { intros w1 h1 I1 O1 _. exists h1. apply (grown_refl e 0 _ h1 w1 x); [done|congruence]. }
    specialize (H Hd). unfold outcome. destruct (fault_with _ _ _ _ _ _ _) as [[[] w1]| |]; [| |done].
    + destruct H as (h' & G & _). exists h'. eapply grown_weaken; [|exact G]. intros o [[]| ->].
      rewrite Eoff. unfold ahead. split; [lia|].
      pose proof (Z.mul_div_le offset arch_page_size ltac:(unfold arch_page_size; lia)). lia.
    + exact H.
  - intros [] w1 h1 _ [I1 _ _ (x0 & x1 & E0 & O1 & T1 & _) M1]. assert (x0 = x) as -> by congruence.
    assert (length_ x1 = length_ x) as El by (unfold static in T1; injection T1; done).
    destruct (maps_some m w w1 y M1 Ey) as (y1 & Ey1). rewrite <- El.
    apply (IH (i + 1) cur e base offset m h1 w1 x1 y1); try done; try lia; rewrite ?El; try lia.
    by rewrite O1, lookup_insert_eq.
Qed.

Lemma outcome_detector e k Q h w x s o t n :
  vm_inv h w -> objs w !! e = Some x -> outcome e k Q h w (put_obj e (set_detector s o t n x) w).
Proof.
  intros I Ex. exists h. destruct (grown_detector e Q h w x s o t n I Ex). split; try done. lia.
Qed.

Lemma detect_ok cur e base offset m h w x y :
  vm_inv h w -> objs w !! e = Some x -> maps w !! m = Some y ->
  0 <= offset < length_ x -> length_ x <= 2 ^ 63 ->
  outcome e 64 (ahead offset (length_ x)) h w
    (detectFaultSequence cur e base offset m (offset / arch_page_size) w).
Proof.
  intros Hi Ex Ey Ho Hl. unfold detectFaultSequence, mbind at 1, st_bind at 1, the_obj at 1, mbind, res_bind.
  rewrite Ex. cbn [res_of]. destruct (seqState x); [by apply outcome_detector|case_if; by apply outcome_detector|].
  case_if; [by apply outcome_detector|]. case_if; [by apply outcome_detector|].
  set (n := u64 (numSeqFaults x + 1)). set (nf := if n <? kMaxSequentialPrefault then n else kMaxSequentialPrefault).
  assert (0 <= nf <= 64) as Hnf.
  { pose proof (wrap_range 64 (numSeqFaults x + 1) ltac:(lia)) as Hr. fold (u64 (numSeqFaults x + 1)) in Hr. fold n in Hr.
    unfold nf, kMaxSequentialPrefault. destruct (Z.ltb_spec n 64); unfold is_u in Hr; lia. }
  change 64%nat with (0 + (64 + 0))%nat at 1. apply outcome_bind; [by apply outcome_detector|].
  intros [] w1 h1 [= <-] G1. pose proof (gr_inv _ _ _ _ _ _ _ G1) as I1.
  set (x1 := set_detector Detect2 (offset / arch_page_size) (lastFaultStride x) n x) in *.
  assert (<[e := x1]> (objs w) !! e = Some x1) as Ex1 by (by rewrite lookup_insert_eq).
  apply outcome_bind.
  - pose proof (prefault_ok (Z.to_nat nf) 0 cur e base offset m h1 _ x1 y I1 Ex1 Ey Ho Hl ltac:(lia) ltac:(lia)) as H.
    unfold outcome in *. destruct (prefault _ _ _ _ _ _ _ _) as [[b w2]| |]; [| |done].
    + destruct H as (h' & G). exists h'. destruct G. split; try done. lia.
    + destruct H as (h' & H1 & H2 & H3). exists h'. split; [done|]. split; [lia|done].
  - intros b w2 h2 _ G2. destruct G2 as [I2 _ _ (x1' & x2 & E1 & O2 & T2 & _) _].
    unfold mbind, st_bind, the_obj, mbind, res_bind. rewrite O2, lookup_insert_eq. cbn [res_of].
    destruct b; apply outcome_detector; try done; by rewrite O2, lookup_insert_eq.
Qed.

End Faults.

(** ** A reference page table *)

Definition page_of (a : Z) : Z := a / arch_page_size * arch_page_size.
#[export] Instance reference_table : PTEHandler := {|
  table := gmap Z Mapping;
  mapPage pa va w x g u c t := (0, <[page_of va := Translation (page_of pa) w x g u c]> t);
  unmapPage va t := (match t !! page_of va with Some _ => 0 | None => 1 end, delete (page_of va) t);
  getMapping va t := match t !! page_of va with Some tr => (0, Some tr) | None => (1, None) end
|}.

Lemma page_of_aligned a : aligned a -> page_of a = a.
Proof. intros [_ H]. unfold page_of. pose proof (Z.div_mod a arch_page_size ltac:(done)). lia. Qed.

#[export] Instance reference_laws : PTELaws reference_table.
Proof.
  split.
  - intros pa va w x g u c t t' Ha Hv [= <-]. unfold translate. cbn. rewrite lookup_insert_eq.
    rewrite (page_of_aligned pa Ha). by eexists.
  - intros pa va va' w x g u c t Hv Hv' Hne. unfold translate. cbn.
    rewrite lookup_insert_ne; [done|]. rewrite !page_of_aligned by done. congruence.
Qed.

(** An object of three pages of device memory and one of one page. *)
Definition two_objects : vm :=
  Vm {[1 := {| entries := Nil; tbl := (∅ : table) |}]}
     {[10 := newEntry 0x3000 (Read + Write) false false 0x100000 Idle;
       20 := newEntry 0x1000 Read false false 0x200000 Idle]}
     {| regions := []; allocatedPages := 0 |} ∅.
Definition translated (w : vm) (va : Z) : option Z :=
  x ← maps w !! 1; t_phys <$> translate (tbl x) va.

Definition end_state {A} (r : res (A * vm)) : vm := match r with Ok (_, w) => w | _ => two_objects end.
Lemma end_state_ok {A} `{EqDecision A} (a : A) (r : res (A * vm)) :
  match r with Ok (b, _) => bool_decide (b = a) | _ => false end = true -> r = Ok (a, end_state r).
Proof. destruct r as [[b w]| |]; [|done..]. by intros ->%bool_decide_eq_true. Qed.
Definition window1 : vm := end_state (Map_add 1 20 1 0x11000 0 0 kVmSearchBase kVmMaxAddr two_objects).
Definition window2 : vm := end_state (Map_add 1 10 1 0x10000 0 0x1000 kVmSearchBase kVmMaxAddr window1).
Definition window3 : vm := end_state (Map_remove 1 10 1 window2).

(** The size of a view does not limit what is mapped.  The one-page object
    is mapped at 0x11000; a view of one page of the three-page object is then
    accepted at 0x10000, since the regions do not meet.  But the whole object is
    mapped: the page of the other object now leads into it, and so does 0x12000,
    which lies in no region.  Removing the view leaves both translations. *)
Theorem view_overruns_window :
  exists w1 w2 w3,
    Map_add 1 20 1 0x11000 0 0 kVmSearchBase kVmMaxAddr two_objects = Ok (0, w1) /\
    translated w1 0x11000 = Some 0x200000 /\
    Map_add 1 10 1 0x10000 0 0x1000 kVmSearchBase kVmMaxAddr w1 = Ok (0, w2) /\
    (fun x => contents (entries x)) <$> maps w2 !! 1 =
      Some [Leaf 0x10000 0x1000 0 10; Leaf 0x11000 0x1000 0 20] /\
    translated w2 0x11000 = Some 0x101000 /\ translated w2 0x12000 = Some 0x102000 /\
    Map_remove 1 10 1 w2 = Ok (0, w3) /\
    translated w3 0x10000 = None /\ translated w3 0x11000 = Some 0x101000 /\ translated w3 0x12000 = Some 0x102000.
Proof.
  exists window1, window2, window3. split; [apply end_state_ok; vm_compute; reflexivity|].
  split; [vm_compute; reflexivity|]. split; [apply end_state_ok; vm_compute; reflexivity|].
  split; [vm_compute; reflexivity|]. split; [vm_compute; reflexivity|]. split; [vm_compute; reflexivity|].
  split; [apply end_state_ok; vm_compute; reflexivity|].
  split; [vm_compute; reflexivity|]. split; vm_compute; reflexivity.
Qed.

Definition demo_ops : list vop :=
  [VAdd 1 20 1 0x11000 0 0x1000 kVmSearchBase kVmMaxAddr; VAdd 1 10 1 0x10000 0 0x1000 kVmSearchBase kVmMaxAddr;
   VFlags 20 (Read + Write)].
Definition demo_end : vm := match vrun demo_ops two_objects with Ok w => w | _ => two_objects end.
Lemma demo_run : vrun demo_ops two_objects = Ok demo_end.
Proof.
  assert (match vrun demo_ops two_objects with Ok _ => true | _ => false end = true) as H by (vm_compute; reflexivity).
  unfold demo_end. by destruct (vrun demo_ops two_objects).
Qed.
Lemma two_objects_ok : vm_ok two_objects.
Proof.
  intros m x. cbn [maps two_objects]. rewrite lookup_singleton_Some. intros [_ <-]. split; [|constructor|].
  - split; [done|done|constructor].
  - intros a b Ha. by apply not_elem_of_nil in Ha.
Qed.
Lemma demo_requests : requests_ok demo_ops two_objects.
Proof.
  cbn [requests_ok demo_ops request_ok]. unfold kVmSearchBase, kVmMaxAddr.
  repeat match goal with
  | |- _ /\ _ => split
  | |- forall _, _ => intro
  | |- True => exact I
  | |- _ => progress cbn
  | |- _ => lia
  end.
Qed.
Definition demo_map : VMap := default {| entries := Nil; tbl := (∅ : table) |} (maps demo_end !! 1).
Lemma demo_map_ok : maps demo_end !! 1 = Some demo_map.
Proof.
  assert (bool_decide (is_Some (maps demo_end !! 1)) = true) as H by (vm_compute; reflexivity).
  apply bool_decide_eq_true in H. destruct H as [x H]. unfold demo_map. by rewrite H.
Qed.


Lemma map_remove_root_crash_witness : Map_remove 1 20 1 demo_end = Stuck.
Proof.
  pose proof (map_remove_root_crash 1 20 1 demo_end demo_map
    (vrun_ok demo_ops two_objects demo_end two_objects_ok demo_requests demo_run) demo_map_ok) as H.
  assert (baseAddressFor 20 (entries demo_map) = (0x11000, 0x1000, 0)) as E by (vm_compute; reflexivity).
  rewrite E in H. destruct H as [H _].
  apply H; [discriminate|vm_compute; reflexivity|vm_compute; reflexivity].
Defined.

Lemma masked_view_has_no_access_witness :
  Z.land (ConvertVmMode (view_flags (Read + Write) (Read + Write)) true) (READ + WRITE + EXECUTE) = 0.
Proof. apply masked_view_has_no_access. discriminate. Defined.

(** An anonymous object of four pages, and ten pages of memory. *)
Definition ten_pages : PhysicalAllocator :=
  match boot [(4096, 40960)] with Ok a => a | _ => {| regions := []; allocatedPages := 0 |} end.
Definition fault_demo : vm :=
  Vm {[1 := {| entries := Nil; tbl := (∅ : table) |}]}
     {[5 := newEntry 0x4000 (Read + Write) false true 0 Idle]} ten_pages ∅.
Lemma ten_pages_ok : phys_inv (phys_managed ten_pages) (ten_pages, ∅) /\ forall x, phys_managed ten_pages x -> aligned x.
Proof.
  destruct (boot_ok [(4096, 40960)]) as (a & E & I & Hin).
  { cbn [map_ok]. split; [unfold entry_ok; cbn [fst snd]; lia|]. split; [constructor|exact Logic.I]. }
  { vm_compute. lia. }
  assert (ten_pages = a) as -> by (unfold ten_pages; by rewrite E). split; [done|].
  intros x Hx. pose proof (Hin x Hx) as (e & He & H1 & H2). apply list_elem_of_singleton in He. subst e. cbn in H1, H2.
  split; [unfold is_u, arch_page_size in *; lia|]. destruct Hx as (r & Hr & p & Hp & ->).
  assert (forallb (fun r => base r mod arch_page_size =? 0) (concat (regions a)) = true) as Hall.
  { assert (a = ten_pages) as -> by (unfold ten_pages; by rewrite E). vm_compute. reflexivity. }
  rewrite forallb_forall in Hall. specialize (Hall r (proj1 (list_elem_of_In _ _) Hr)). apply Z.eqb_eq in Hall.
  by rewrite Z.mod_add by done.
Qed.
Lemma fault_demo_inv : vm_inv (phys_managed ten_pages) ∅ fault_demo.
Proof.
  assert (forall e off pg, ~ owns fault_demo e off pg) as Hno.
  { intros e off pg (x & Hx & Hp). cbn [objs fault_demo] in Hx. apply lookup_singleton_Some in Hx. destruct Hx as [_ <-].
    cbn in Hp. by rewrite lookup_empty in Hp. }
  split; [apply ten_pages_ok|..].
  - intros e off pg H. by destruct (Hno _ _ _ H).
  - intros e off e' off' pg H. by destruct (Hno _ _ _ H).
Qed.

