(* ===== verification/RedBlackTree.v ===== *)
(** * The kernel's red-black tree (kernel/src/runtime/RedBlackTree.h)

    The tree of the pages of a VM object (vm/MapEntry.h), at the level of its
    nodes and their pointers: the search, the insertion of BinarySearchTree.h
    that calls back into the override of the subclass, the rotations and the
    repair of the colours, the iterator that follows parent pointers, and the
    deletion of all nodes.  The removal that RedBlackTree.h overrides is commented
    out in the source, together with the only call of its repair.  The theorems
    show that the tree stays balanced and does what VmMap.v takes it to do. *)

From stdpp Require Import sorting.
From S2P Require Import Prelude BST VmMap.
Open Scope mach_scope.

(** ** Nodes *)

Inductive RBTNodeColor := Uncolored | Red | Black.
#[export] Instance RBTNodeColor_eq_dec : EqDecision RBTNodeColor.
Proof. solve_decision. Defined.

(** The leaves of the tree of pages: [left], [right] and [parent] are addresses of
    nodes. *)
Record AnonInfoLeaf := Leaf {
  pageOff : Z; physAddr : Z; left : option Z; right : option Z; parent : option Z; color : RBTNodeColor
}.
Definition newLeaf (offset phys : Z) : AnonInfoLeaf := Leaf offset phys None None None Uncolored.

(** The tree: its root and the nodes that are allocated. *)
Record rbtree := Tree { root : option Z; nodes : gmap Z AnonInfoLeaf }.
Definition emptyTree : rbtree := Tree None ∅.

(** The two child pointers.  Code that the source has once for each side takes the
    side as an argument. *)
Inductive dir := L | R.
#[export] Instance dir_eq_dec : EqDecision dir.
Proof. solve_decision. Defined.
Definition other (d : dir) : dir := match d with L => R | R => L end.
Definition child (d : dir) (n : AnonInfoLeaf) : option Z := match d with L => left n | R => right n end.
Definition set_child (d : dir) (p : option Z) (n : AnonInfoLeaf) : AnonInfoLeaf :=
  match d with
  | L => Leaf (pageOff n) (physAddr n) p (right n) (parent n) (color n)
  | R => Leaf (pageOff n) (physAddr n) (left n) p (parent n) (color n)
  end.
Definition set_parent (p : option Z) (n : AnonInfoLeaf) : AnonInfoLeaf :=
  Leaf (pageOff n) (physAddr n) (left n) (right n) p (color n).
Definition set_color (c : RBTNodeColor) (n : AnonInfoLeaf) : AnonInfoLeaf :=
  Leaf (pageOff n) (physAddr n) (left n) (right n) (parent n) c.

(** Reading and writing through a pointer: a null pointer and the address of no
    node are undefined behaviour. *)
Definition load (p : option Z) : st rbtree AnonInfoLeaf :=
  fun t => a ← res_of p; n ← res_of (nodes t !! a); Ok (n, t).
Definition get {A} (f : AnonInfoLeaf -> A) (p : option Z) : st rbtree A := n ← load p; mret (f n).
Definition update (f : AnonInfoLeaf -> AnonInfoLeaf) (p : option Z) : st rbtree () :=
  fun t => a ← res_of p; n ← res_of (nodes t !! a); Ok ((), Tree (root t) (<[a := f n]> (nodes t))).
Definition the_root : st rbtree (option Z) := fun t => Ok (root t, t).
Definition set_root (p : option Z) : st rbtree () := smod (fun t => Tree p (nodes t)).

(** ** Balancing *)

Definition Color (leaf : option Z) : st rbtree RBTNodeColor :=
  match leaf with None => mret Black | Some _ => get color leaf end.
Definition setColor (c : RBTNodeColor) : option Z -> st rbtree () := update (set_color c).

(** [leftRotate] is [rotate L] and [rightRotate] is [rotate R]. *)
Definition rotate (d : dir) (x : option Z) : st rbtree () :=
  y ← get (child (other d)) x;
  yd ← get (child d) y;
  _ ← update (set_child (other d) yd) x;
  yd ← get (child d) y;
  _ ← (match yd with None => mret () | Some _ => update (set_parent x) yd end);
  xp ← get parent x;
  _ ← update (set_parent xp) y;
  xp ← get parent x;
  _ ← (match xp with
       | None => set_root y
       | Some _ =>
           pd ← get (child d) xp;
           update (set_child (if bool_decide (x = pd) then d else other d) y) xp
       end);
  _ ← update (set_child d x) y;
  update (set_parent y) x.
Definition leftRotate : option Z -> st rbtree () := rotate L.
Definition rightRotate : option Z -> st rbtree () := rotate R.

(** One round of the loop, for an uncle on side [d]: the leaf it goes on with. *)
Definition repair_side (d : dir) (leaf : option Z) : st rbtree (option Z) :=
  p ← get parent leaf;
  gp ← get parent p;
  temp ← get (child d) gp;
  c ← Color temp;
  if bool_decide (c = Red) then
    _ ← setColor Black temp;
    _ ← setColor Black p;
    _ ← setColor Red gp;
    mret gp
  else
    pd ← get (child d) p;
    leaf ← (if bool_decide (leaf = pd) then _ ← rotate (other d) p; mret p else mret leaf);
    p ← get parent leaf;
    _ ← setColor Black p;
    gp ← get parent p;
    _ ← setColor Red gp;
    _ ← rotate d gp;
    mret leaf.
Fixpoint repair_loop (fuel : nat) (leaf : option Z) : st rbtree () :=
  match fuel with
  | O => sstuck
  | S fuel =>
      p ← get parent leaf;
      c ← Color p;
      if negb (bool_decide (p = None)) && bool_decide (c = Red) then
        gp ← get parent p;
        gr ← get right gp;
        leaf ← repair_side (if bool_decide (p = gr) then L else R) leaf;
        r ← the_root;
        if bool_decide (leaf = r) then mret () else repair_loop fuel leaf
      else mret ()
  end.
Definition repairPostInsert (leaf : option Z) : st rbtree () :=
  t ← sget;
  _ ← repair_loop (size (nodes t)) leaf;
  r ← the_root;
  setColor Black r.

(** ** Insertion *)

(** The reference [Leaf* &root]: the root of the tree or a child pointer. *)
Inductive slot := Root | Child (d : dir) (a : Z).
Definition read_slot (s : slot) : st rbtree (option Z) :=
  match s with Root => the_root | Child d a => get (child d) (Some a) end.
Definition write_slot (s : slot) (p : option Z) : st rbtree () :=
  match s with Root => set_root p | Child d a => update (set_child d p) (Some a) end.

(** [BinarySearchTree::insert]; [again] is the virtual method it calls. *)
Definition bst_insert (again : slot -> option Z -> st rbtree bool) (key : Z) (leaf : option Z) (at_ : slot) (par : option Z)
    : st rbtree bool :=
  r ← read_slot at_;
  match r with
  | None => _ ← update (set_parent par) leaf; _ ← write_slot at_ leaf; mret true
  | Some a =>
      k ← get pageOff r;
      if k =? key then sabort
      else if key <? k then _ ← again (Child L a) r; mret false
      else _ ← again (Child R a) r; mret false
  end.
(** What the override does after the leaf has been put in place. *)
Definition colour_new (leaf : option Z) : st rbtree bool :=
  _ ← setColor Red leaf;
  p ← get parent leaf;
  match p with
  | None => _ ← setColor Black leaf; mret true
  | Some _ =>
      gp ← get parent p;
      match gp with
      | None => mret true
      | Some _ => _ ← repairPostInsert leaf; mret true
      end
  end.
Fixpoint rb_insert (fuel : nat) (key : Z) (leaf : option Z) (at_ : slot) (par : option Z) : st rbtree bool :=
  match fuel with
  | O => sstuck
  | S fuel =>
      b ← bst_insert (rb_insert fuel key leaf) key leaf at_ par;
      if (b : bool) then colour_new leaf else mret false
  end.

(** [pages.insert(new AnonInfoLeaf(offset, phys))], for a node that is allocated at
    [a]. *)
Definition insert_leaf (a offset phys : Z) : st rbtree () :=
  _ ← smod (fun t => Tree (root t) (<[a := newLeaf offset phys]> (nodes t)));
  k ← get pageOff (Some a);
  t ← sget;
  _ ← rb_insert (size (nodes t)) k (Some a) Root None;
  mret ().

(** ** Search, iteration, deletion *)

Fixpoint find_from (fuel : nat) (key : Z) (node : option Z) : st rbtree (option Z) :=
  match fuel with
  | O => sstuck
  | S fuel =>
      match node with
      | None => mret None
      | Some _ =>
          k ← get pageOff node;
          if k =? key then mret node
          else if key <? k then l ← get left node; find_from fuel key l
          else r ← get right node; find_from fuel key r
      end
  end.
(** The search, with at most [fuel] calls; the page of the node that is found. *)
Definition findKey (fuel : nat) (key : Z) : st rbtree (option Z) :=
  r ← the_root;
  n ← find_from fuel key r;
  match n with None => mret None | Some _ => p ← get physAddr n; mret (Some p) end.

(** The iterator. *)
Fixpoint descend (fuel : nat) (node : option Z) : st rbtree (option Z) :=
  match fuel with
  | O => sstuck
  | S fuel =>
      l ← get left node;
      match l with Some _ => descend fuel l | None => mret node end
  end.
Fixpoint climb (fuel : nat) (node y : option Z) : st rbtree (option Z) :=
  match fuel with
  | O => sstuck
  | S fuel =>
      yr ← get right y;
      if bool_decide (node = yr) then
        yp ← get parent y;
        match yp with None => mret None | Some _ => climb fuel y yp end
      else
        nr ← get right node;
        mret (if bool_decide (nr = y) then node else y)
  end.
Definition increment (node : option Z) : st rbtree (option Z) :=
  match node with
  | None => mret None
  | Some _ =>
      t ← sget;
      r ← get right node;
      match r with
      | Some _ => descend (S (size (nodes t))) r
      | None =>
          p ← get parent node;
          match p with None => mret None | Some _ => climb (S (size (nodes t))) node p end
      end
  end.
(** [findMin], for [begin]. *)
Fixpoint findMin (fuel : nat) (node : option Z) : st rbtree (option Z) :=
  match fuel with
  | O => sstuck
  | S fuel =>
      match node with
      | None => mret None
      | Some _ => l ← get left node; match l with Some _ => findMin fuel l | None => mret node end
      end
  end.
Fixpoint for_each (fuel : nat) (it : option Z) : st rbtree (list (Z * Z)) :=
  match it with
  | None => mret []
  | Some _ =>
      match fuel with
      | O => sstuck
      | S fuel =>
          n ← load it;
          it ← increment it;
          ls ← for_each fuel it;
          mret ((pageOff n, physAddr n) :: ls)
      end
  end.
(** The pages that a loop over the tree visits. *)
Definition iterate : st rbtree (list (Z * Z)) :=
  t ← sget;
  b ← findMin (S (size (nodes t))) (root t);
  for_each (size (nodes t)) b.

Definition delete_node (p : option Z) : st rbtree () :=
  fun t => a ← res_of p; _ ← res_of (nodes t !! a); Ok ((), Tree (root t) (delete a (nodes t))).
Fixpoint deleteSubtree (fuel : nat) (node : option Z) : st rbtree () :=
  match fuel with
  | O => sstuck
  | S fuel =>
      match node with
      | None => mret ()
      | Some _ =>
          l ← get left node; _ ← deleteSubtree fuel l;
          r ← get right node; _ ← deleteSubtree fuel r;
          delete_node node
      end
  end.
(** The destructor of the tree. *)
Definition destroyTree : st rbtree () := t ← sget; deleteSubtree (S (size (nodes t))) (root t).

(** ** Trees as values

    A tree without its pointers; [mk d] builds a node from its subtree on side [d]
    and the other one.  A position is a subtree and the way up from it. *)

Inductive shape := E | N (c : RBTNodeColor) (id : Z) (kv : Z * Z) (l r : shape).
Definition mk (d : dir) (c : RBTNodeColor) (id : Z) (kv : Z * Z) (x y : shape) : shape :=
  match d with L => N c id kv x y | R => N c id kv y x end.
Record frame := F { f_dir : dir; f_color : RBTNodeColor; f_id : Z; f_kv : Z * Z; f_other : shape }.
Fixpoint plug (c : list frame) (t : shape) : shape :=
  match c with [] => t | f :: c => plug c (mk (f_dir f) (f_color f) (f_id f) (f_kv f) t (f_other f)) end.

Definition rid (t : shape) : option Z := match t with E => None | N _ i _ _ _ => Some i end.
Definition above (c : list frame) : option Z := match c with [] => None | f :: _ => Some (f_id f) end.
Definition top (c : list frame) (p : option Z) : option Z := default p (Some <$> (f_id <$> last c)).
Fixpoint inorder (t : shape) : list (Z * (Z * Z)) :=
  match t with E => [] | N _ i kv l r => inorder l ++ (i, kv) :: inorder r end.
Definition ids (t : shape) : list Z := (inorder t).*1.
Fixpoint ctx_ids (c : list frame) : list Z := match c with [] => [] | f :: c => f_id f :: ids (f_other f) ++ ctx_ids c end.

(** The node of a tree in memory. *)
Definition cell (d : dir) (c : RBTNodeColor) (kv : Z * Z) (x y p : option Z) : AnonInfoLeaf :=
  match d with L => Leaf kv.1 kv.2 x y p c | R => Leaf kv.1 kv.2 y x p c end.
Fixpoint rep (h : gmap Z AnonInfoLeaf) (p : option Z) (t : shape) : Prop :=
  match t with
  | E => True
  | N c i kv l r => h !! i = Some (cell L c kv (rid l) (rid r) p) /\ rep h (Some i) l /\ rep h (Some i) r
  end.
Fixpoint ctx_rep (h : gmap Z AnonInfoLeaf) (c : list frame) (hole : option Z) : Prop :=
  match c with
  | [] => True
  | F d col i kv s :: c => h !! i = Some (cell d col kv hole (rid s) (above c)) /\ rep h (Some i) s /\ ctx_rep h c (Some i)
  end.
Record holds (T : shape) (t : rbtree) : Prop := {
  ho_root : root t = rid T;
  ho_rep : rep (nodes t) None T;
  ho_ids : NoDup (ids T);
  ho_dom : dom (nodes t) = list_to_set (ids T)
}.

Lemma rid_mk d c i kv x y : rid (mk d c i kv x y) = Some i.
Proof. by destruct d. Qed.
Lemma rep_mk h p d c i kv x y :
  rep h p (mk d c i kv x y) <-> h !! i = Some (cell d c kv (rid x) (rid y) p) /\ rep h (Some i) x /\ rep h (Some i) y.
Proof. destruct d; cbn; tauto. Qed.
Lemma ids_mk d c i kv x y : ids (mk d c i kv x y) ≡ₚ i :: ids x ++ ids y.
Proof. destruct d; unfold ids; cbn; rewrite fmap_app; cbn; [by rewrite Permutation_middle|]. rewrite (Permutation_app_comm _ (_ :: _)). cbn. done. Qed.
Lemma top_cons f c p : top (f :: c) p = top c (Some (f_id f)).
Proof. unfold top. rewrite last_cons. by destruct (last c). Qed.
Lemma rid_plug c : forall t, rid (plug c t) = top c (rid t).
Proof. induction c as [|f c IH]; intros t; [done|]. cbn [plug]. by rewrite IH, rid_mk, top_cons. Qed.
Lemma ids_plug c : forall t, ids (plug c t) ≡ₚ ids t ++ ctx_ids c.
Proof.
  induction c as [|f c IH]; intros t; [by rewrite app_nil_r|]. cbn [plug ctx_ids]. rewrite IH, ids_mk. cbn.
  by rewrite <- Permutation_middle, <- app_assoc.
Qed.
Lemma rep_plug h c : forall t, rep h None (plug c t) <-> rep h (above c) t /\ ctx_rep h c (rid t).
Proof.
  induction c as [|[d col i kv s] c IH]; intros t; [cbn; tauto|]. cbn [plug]. rewrite IH, rep_mk, rid_mk. cbn. tauto.
Qed.
Lemma rep_frame h h' t : forall p, (forall a, a ∈ ids t -> h' !! a = h !! a) -> rep h p t -> rep h' p t.
Proof.
  induction t as [|c i kv l IHl r IHr]; intros p Hh; [done|]. cbn [rep].
  assert (forall a, a = i \/ a ∈ ids l \/ a ∈ ids r -> h' !! a = h !! a) as H.
  { intros a Ha. apply Hh. rewrite (ids_mk L c i kv l r). set_solver. }
  rewrite H by tauto. intros (H1 & H2 & H3). split_and!; [done|apply IHl|apply IHr]; try done; intros a Ha; apply H; tauto.
Qed.
Lemma ctx_frame h h' c : forall p, (forall a, a ∈ ctx_ids c -> h' !! a = h !! a) -> ctx_rep h c p -> ctx_rep h' c p.
Proof.
  induction c as [|[d col i kv s] c IH]; intros p Hh; [done|]. cbn [ctx_rep ctx_ids f_id f_other] in *.
  rewrite Hh by set_solver. intros (H1 & H2 & H3). split_and!; [done|apply (rep_frame h)|apply IH]; try done; set_solver.
Qed.
(** A subtree that gets another parent. *)
Lemma rep_reparent h h' p q t :
  rep h p t -> NoDup (ids t) ->
  (forall i n, rid t = Some i -> h !! i = Some n -> h' !! i = Some (set_parent q n)) ->
  (forall a, a ∈ ids t -> rid t <> Some a -> h' !! a = h !! a) -> rep h' q t.
Proof.
  destruct t as [|c i kv l r]; [done|]. cbn [rep rid]. intros (H1 & H2 & H3) Hn Hi Ha.
  rewrite (ids_mk L c i kv l r) in Hn. apply NoDup_cons in Hn as [Hn _].
  assert (forall a, a ∈ ids l \/ a ∈ ids r -> h' !! a = h !! a) as H.
  { intros a Hl. apply Ha; [rewrite (ids_mk L c i kv l r); set_solver|set_solver]. }
  split_and!; [by rewrite (Hi i _ eq_refl H1)|apply (rep_frame h)|apply (rep_frame h)]; auto.
Qed.

(** *** The primitive steps *)

Lemma field_bind {A B} (f : AnonInfoLeaf -> A) a n (k : A -> st rbtree B) t :
  nodes t !! a = Some n -> (get f (Some a) ≫= k) t = k (f n) t.
Proof. intros H. unfold get, load, mbind, st_bind. cbn. by rewrite H. Qed.
(** A write through a pointer, or none if the pointer is null. *)
Definition alt (f : AnonInfoLeaf -> AnonInfoLeaf) (p : option Z) (h : gmap Z AnonInfoLeaf) : gmap Z AnonInfoLeaf :=
  match p with None => h | Some a => alter f a h end.
Lemma alt_eq f a h : alt f (Some a) h !! a = f <$> h !! a.
Proof. apply lookup_alter_eq. Qed.
Lemma alt_ne f p a h : p <> Some a -> alt f p h !! a = h !! a.
Proof. destruct p; [|done]. intros H. apply lookup_alter_ne. congruence. Qed.
Lemma dom_alt f p h : dom (alt f p h) = dom h.
Proof. destruct p; [|done]. apply dom_alter_L. Qed.
Lemma insert_alter f a n (h : gmap Z AnonInfoLeaf) : h !! a = Some n -> <[a := f n]> h = alter f a h.
Proof.
  intros H. apply map_eq. intros b. destruct (decide (a = b)) as [->|Hb].
  - by rewrite lookup_insert_eq, lookup_alter_eq, H.
  - by rewrite lookup_insert_ne, lookup_alter_ne.
Qed.
Lemma update_eq f a t : is_Some (nodes t !! a) -> update f (Some a) t = Ok ((), Tree (root t) (alt f (Some a) (nodes t))).
Proof. intros [n H]. unfold update. cbn. rewrite H. cbn. by rewrite (insert_alter f a n). Qed.
Lemma update_bind {B} f a (k : () -> st rbtree B) t :
  is_Some (nodes t !! a) -> (update f (Some a) ≫= k) t = k () (Tree (root t) (alt f (Some a) (nodes t))).
Proof. intros H. unfold mbind, st_bind. by rewrite update_eq. Qed.
(** [if(p) p->... = ...]. *)
Lemma update_opt {B} f p (k : () -> st rbtree B) t :
  (forall a, p = Some a -> is_Some (nodes t !! a)) ->
  ((match p with None => mret () | Some _ => update f p end) ≫= k) t = k () (Tree (root t) (alt f p (nodes t))).
Proof. destruct p as [a|]; intros H; [by apply update_bind, H|]. cbn. by destruct t. Qed.
Lemma ret_bind {A B} (a : A) (k : A -> st rbtree B) t : (mret a ≫= k) t = k a t.
Proof. done. Qed.
Lemma root_bind {B} (k : option Z -> st rbtree B) t : (the_root ≫= k) t = k (root t) t.
Proof. done. Qed.
Lemma cell_child d c kv x y p : child d (cell d c kv x y p) = x.
Proof. by destruct d. Qed.
Lemma cell_other d c kv x y p : child (other d) (cell d c kv x y p) = y.
Proof. by destruct d. Qed.
Lemma cell_parent d c kv x y p : parent (cell d c kv x y p) = p.
Proof. by destruct d. Qed.
Lemma cell_color d c kv x y p : color (cell d c kv x y p) = c.
Proof. by destruct d. Qed.
Lemma cell_set_child d c kv x y p q : set_child d q (cell d c kv x y p) = cell d c kv q y p.
Proof. by destruct d. Qed.
Lemma cell_set_other d c kv x y p q : set_child (other d) q (cell d c kv x y p) = cell d c kv x q p.
Proof. by destruct d. Qed.
Lemma cell_set_parent d c kv x y p q : set_parent q (cell d c kv x y p) = cell d c kv x y q.
Proof. by destruct d. Qed.
Lemma cell_set_color d c kv x y p q : set_color q (cell d c kv x y p) = cell d q kv x y p.
Proof. by destruct d. Qed.
Create Rewrite HintDb cells.
#[export] Hint Rewrite cell_child cell_other cell_parent cell_color cell_set_child cell_set_other cell_set_parent cell_set_color rid_mk : cells.

(** A step that changes the fields of nodes of the tree but no address. *)
Lemma holds_step T T' t r h :
  holds T t -> ids T' ≡ₚ ids T -> r = rid T' -> dom h = dom (nodes t) -> rep h None T' -> holds T' (Tree r h).
Proof.
  intros [_ _ Hn Hd] Hi Hr Hdom Hrep. split; [done|done|by rewrite Hi|]. cbn. rewrite Hdom, Hd. by apply list_to_set_perm_L.
Qed.
Lemma rep_root_node h p t i : rep h p t -> rid t = Some i -> exists n, h !! i = Some n.
Proof. destruct t; [done|]. cbn. intros (H & _) [= ->]. eauto. Qed.
Lemma rid_in t i : rid t = Some i -> i ∈ ids t.
Proof. destruct t as [|c j kv l r]; [done|]. intros [= ->]. rewrite (ids_mk L c i kv l r). set_solver. Qed.

(** The child pointer of the parent, whichever side the node is on. *)
Definition relink (d : dir) (x y : option Z) (n : AnonInfoLeaf) : AnonInfoLeaf :=
  set_child (if bool_decide (x = child d n) then d else other d) y n.
Lemma relink_cell d dc col kv x y s p : s <> Some x -> relink d (Some x) y (cell dc col kv (Some x) s p) = cell dc col kv y s p.
Proof. intros H. unfold relink. destruct d, dc; cbn [child cell left right]; case_bool_decide; try done; congruence. Qed.
Lemma alt_ext f p h h' a : h' !! a = h !! a -> alt f p h' !! a = alt f p h !! a.
Proof.
  intros H. destruct (decide (p = Some a)) as [->|Hp]; [by rewrite !alt_eq, H|by rewrite !alt_ne].
Qed.
Lemma ctx_relink h d c x y :
  ctx_rep h c (Some x) -> NoDup (ctx_ids c) -> x ∉ ctx_ids c -> ctx_rep (alt (relink d (Some x) y) (above c) h) c y.
Proof.
  destruct c as [|[dc col i kv s] c]; [done|]. cbn [ctx_rep ctx_ids above f_id f_other]. rewrite NoDup_cons. intros (H1 & H2 & H3) [Hi Hn] Hx.
  rewrite alt_eq, H1. cbn [fmap option_fmap option_map]. split_and!.
  - rewrite relink_cell; [done|]. intros Hs%rid_in. set_solver.
  - apply (rep_frame h); [|done]. intros a Ha. apply alt_ne. set_solver.
  - apply (ctx_frame h); [|done]. intros a Ha. apply alt_ne. set_solver.
Qed.
Lemma link_parent d c x y t (k : () -> st rbtree ()) :
  ctx_rep (nodes t) c (Some x) ->
  ((match above c with
    | None => set_root y
    | Some _ => pd ← get (child d) (above c); update (set_child (if bool_decide (Some x = pd) then d else other d) y) (above c)
    end) ≫= k) t =
  k () (Tree (match c with [] => y | _ => root t end) (alt (relink d (Some x) y) (above c) (nodes t))).
Proof.
  destruct c as [|[dc col i kv s] c]; [done|]. cbn [ctx_rep above f_id]. intros (H & _).
  unfold get, update, load, mbind, st_bind. cbn. rewrite H. cbn. unfold relink. rewrite H. cbn.
  rewrite (insert_alter (relink d (Some x) y) i (cell dc col kv (Some x) (rid s) (above c))) by done. done.
Qed.

Ltac cells := autorewrite with cells; cbn [nodes root].
Ltac find_cell :=
  cbn [nodes root]; repeat (first [rewrite alt_eq|rewrite alt_ne by done]);
  repeat match goal with H : _ !! _ = Some _ |- _ => rewrite H end; cbn [fmap option_fmap option_map]; first [reflexivity|by eexists].
Ltac run_step :=
  lazymatch goal with
  | |- context [(mret _ ≫= _) _] => rewrite ret_bind
  | |- context [(the_root ≫= _) _] => rewrite root_bind
  | |- context [(get _ (Some _) ≫= _) _] => erewrite field_bind; [|find_cell]
  | |- context [(update _ (Some _) ≫= _) _] => rewrite update_bind; [|find_cell]
  | |- context [update _ (Some _) _] => rewrite update_eq; [|find_cell]
  end; cells.

Lemma nodup_apart (x y : Z) (A B C D : list Z) :
  NoDup ((x :: A ++ y :: B ++ C) ++ D) ->
  x <> y /\ (forall z, z ∈ A \/ z ∈ B \/ z ∈ C \/ z ∈ D -> Some x <> Some z /\ Some y <> Some z) /\ NoDup B /\ NoDup D /\
  (forall z, z ∈ B -> z ∉ A /\ z ∉ C /\ z ∉ D) /\ (forall z, z ∈ D -> z ∉ A /\ z ∉ C).
Proof.
  rewrite NoDup_app, NoDup_cons, NoDup_app, NoDup_cons, NoDup_app. intros ((H1 & H2 & H3 & H4 & H5 & H6 & H7) & H8 & H9).
  split_and!; try done; [set_solver| |set_solver|set_solver]. intros z Hz. split; intros [= ->]; set_solver.
Qed.
Lemma above_in c z : above c = Some z -> z ∈ ctx_ids c.
Proof. destruct c; [done|]. intros [= <-]. cbn. left. Qed.

Lemma rotate_ok d c cx x kx a cy y ky b e t :
  holds (plug c (mk d cx x kx a (mk d cy y ky b e))) t ->
  exists t', rotate d (Some x) t = Ok ((), t') /\ holds (plug c (mk d cy y ky (mk d cx x kx a b) e)) t'.
Proof.
  intros H. pose proof (ho_rep _ _ H) as Hp. pose proof (ho_ids _ _ H) as Hn. pose proof (ho_root _ _ H) as Hr.
  rewrite rep_plug, !rep_mk, !rid_mk in Hp. destruct Hp as ((Hx & Ra & Hy & Rb & Re) & Rc).
  rewrite ids_plug, !ids_mk in Hn. apply nodup_apart in Hn as (Hxy & Hne & Nb & Nc & Db & Dc). unfold rotate.
  assert (Some x <> Some y) by congruence. assert (Some y <> Some x) by congruence.
  assert (rid b <> Some x) by (intros Hb%rid_in; destruct (Hne x); tauto). assert (rid b <> Some y) by (intros Hb%rid_in; destruct (Hne y); tauto).
  do 4 run_step. rewrite update_opt; cycle 1.
  { intros z Hz. cbn [nodes]. rewrite alt_ne by congruence. destruct (rep_root_node _ _ _ _ Rb Hz) as [n ->]. eauto. }
  do 3 run_step. rewrite link_parent; cycle 1.
  { cbn [nodes]. apply (ctx_frame (nodes t)); [|done]. intros z Hz. rewrite !alt_ne; [done|..]; [apply Hne; tauto| |apply Hne; tauto].
    intros Hb%rid_in. destruct (Db z Hb). tauto. }
  assert (above c <> Some x) by (intros Hz%above_in; destruct (Hne x); tauto). assert (above c <> Some y) by (intros Hz%above_in; destruct (Hne y); tauto).
  do 2 run_step. eexists. split; [done|]. apply (holds_step (plug c (mk d cx x kx a (mk d cy y ky b e))) _ t); [done|..].
  - rewrite !ids_plug, !ids_mk. apply Permutation_app; [|done]. cbn. by rewrite Permutation_swap, <- app_assoc, Permutation_middle.
  - rewrite rid_plug, rid_mk. rewrite rid_plug, rid_mk in Hr. destruct c; [done|]. by rewrite top_cons in *.
  - by rewrite !dom_alt.
  - assert (forall z, z ∈ ids b -> above c <> Some z) as Hbc by (intros z Hz Hc%above_in; destruct (Db z Hz); tauto).
    set (h' := alt _ _ _). assert (forall z, Some x <> Some z -> Some y <> Some z -> rid b <> Some z -> above c <> Some z -> h' !! z = nodes t !! z) as Hf.
    { intros z ????. unfold h'. by rewrite !alt_ne. }
    rewrite rep_plug, !rep_mk, !rid_mk. split; [split|].
    + unfold h'. rewrite alt_ne by done. rewrite alt_eq, alt_ne by done. rewrite alt_eq, !alt_ne, Hy by done. cbn [fmap option_fmap option_map]. by cells.
    + split; [split_and!|].
      * unfold h'. rewrite alt_eq, !alt_ne, alt_eq, Hx by done. cbn [fmap option_fmap option_map]. by cells.
      * apply (rep_frame (nodes t)); [|done]. intros z Hz. apply Hf; try (apply Hne; tauto); [intros Hb%rid_in; destruct (Db z Hb); tauto|].
        intros Hc%above_in. destruct (Dc z Hc). tauto.
      * apply (rep_reparent (nodes t) h' (Some y)); [done|done|..].
        -- intros i n Hi Hn. pose proof (rid_in _ _ Hi) as Hz. pose proof (Hbc i Hz). destruct (Hne i) as [Nx Ny]; [tauto|].
           unfold h'. rewrite Hi, (alt_ne _ (Some x)), (alt_ne _ (Some y)), (alt_ne _ (above c)), (alt_ne _ (Some y)), alt_eq, (alt_ne _ (Some x)), Hn by done. done.
        -- intros z Hz Hi. apply Hf; try (apply Hne; tauto); [done|by apply Hbc].
      * apply (rep_frame (nodes t)); [|done]. intros z Hz. apply Hf; try (apply Hne; tauto); [intros Hb%rid_in; destruct (Db z Hb); tauto|].
        intros Hc%above_in. destruct (Dc z Hc). tauto.
    + apply (ctx_frame (alt (relink d (Some x) (Some y)) (above c) (nodes t))).
      * intros z Hz. unfold h'. rewrite !(alt_ne _ (Some _) z) by (apply Hne; tauto). apply alt_ext. rewrite !alt_ne; [done|..]; try (apply Hne; tauto).
        intros Hb%rid_in. destruct (Db z Hb). tauto.
      * apply ctx_relink; [done|done|]. intros Hz. destruct (Hne x); tauto.
Qed.

Lemma holds_cell c d col x kv a b t :
  holds (plug c (mk d col x kv a b)) t -> nodes t !! x = Some (cell d col kv (rid a) (rid b) (above c)).
Proof. intros H. pose proof (ho_rep _ _ H) as Hp. rewrite rep_plug, rep_mk in Hp. tauto. Qed.
Lemma setColor_ok col c d c0 x kv a b t :
  holds (plug c (mk d c0 x kv a b)) t ->
  exists t', setColor col (Some x) t = Ok ((), t') /\ holds (plug c (mk d col x kv a b)) t'.
Proof.
  intros H. pose proof (holds_cell _ _ _ _ _ _ _ _ H) as Hx. pose proof (ho_ids _ _ H) as Hn. pose proof (ho_root _ _ H) as Hr.
  pose proof (ho_rep _ _ H) as Hp. rewrite rep_plug, rep_mk in Hp. destruct Hp as ((_ & Ra & Rb) & Rc).
  rewrite ids_plug, ids_mk in Hn. cbn in Hn. apply NoDup_cons in Hn as [Hn _].
  unfold setColor. run_step. eexists. split; [done|]. apply (holds_step (plug c (mk d c0 x kv a b)) _ t); [done|..].
  - by rewrite !ids_plug, !ids_mk.
  - by rewrite Hr, !rid_plug, !rid_mk.
  - apply dom_alt.
  - rewrite rep_plug, rep_mk, rid_mk. rewrite rid_mk in Rc. rewrite alt_eq, Hx. cbn [fmap option_fmap option_map]. cells.
    assert (forall z, z ∈ ids a \/ z ∈ ids b \/ z ∈ ctx_ids c -> alt (set_color col) (Some x) (nodes t) !! z = nodes t !! z) as Hf.
    { intros z Hz. apply alt_ne. intros [= ->]. set_solver. }
    split_and!; [done|apply (rep_frame (nodes t))|apply (rep_frame (nodes t))|apply (ctx_frame (nodes t))]; try done; intros; apply Hf; tauto.
Qed.

Lemma mk_other d c i kv x y : mk (other d) c i kv x y = mk d c i kv y x.
Proof. by destruct d. Qed.
Lemma other_other d : other (other d) = d.
Proof. by destruct d. Qed.
Lemma inorder_plug c : forall t t', inorder t = inorder t' -> inorder (plug c t) = inorder (plug c t').
Proof. induction c as [|[d col i kv s] c IH]; intros t t' H; [done|]. cbn. apply IH. destruct d; cbn; by rewrite H. Qed.
Lemma inorder_ids t t' : inorder t = inorder t' -> ids t = ids t'.
Proof. unfold ids. by intros ->. Qed.
Lemma inorder_mk d c c' i kv x x' y y' : inorder x = inorder x' -> inorder y = inorder y' -> inorder (mk d c i kv x y) = inorder (mk d c' i kv x' y').
Proof. intros Hx Hy. destruct d; cbn; by rewrite Hx, Hy. Qed.
Lemma inorder_rotate d c1 c2 c3 c4 x kx y ky a b e :
  inorder (mk d c1 y ky (mk d c2 x kx a b) e) = inorder (mk d c3 x kx a (mk d c4 y ky b e)).
Proof. destruct d; cbn; by rewrite <- app_assoc. Qed.

(** ** Red-black trees *)

Definition tcolor (t : shape) : RBTNodeColor := match t with E => Black | N c _ _ _ _ => c end.
(** Coloured properly, with [n] black nodes on every way down; the root may be
    red. *)
Fixpoint rbt (t : shape) (n : nat) : Prop :=
  match t with
  | E => n = O
  | N Red _ _ l r => tcolor l = Black /\ tcolor r = Black /\ rbt l n /\ rbt r n
  | N Black _ _ l r => exists m, n = S m /\ rbt l m /\ rbt r m
  | N Uncolored _ _ _ _ => False
  end.
Definition top_black (c : list frame) : Prop := match c with [] => False | f :: _ => f_color f = Black end.
(** A way up to which a subtree with [n] black nodes on every way down belongs. *)
Fixpoint ctx_rb (c : list frame) (n : nat) : Prop :=
  match c with
  | [] => True
  | F _ Red _ _ s :: c => tcolor s = Black /\ rbt s n /\ top_black c /\ ctx_rb c n
  | F _ Black _ _ s :: c => rbt s n /\ ctx_rb c (S n)
  | F _ Uncolored _ _ _ :: _ => False
  end.
Definition red_black (T : shape) : Prop := tcolor T = Black /\ exists n, rbt T n.

Lemma tcolor_mk d c i kv x y : tcolor (mk d c i kv x y) = c.
Proof. by destruct d. Qed.
Lemma rbt_red d i kv x y n : rbt (mk d Red i kv x y) n <-> tcolor x = Black /\ tcolor y = Black /\ rbt x n /\ rbt y n.
Proof. destruct d; cbn; tauto. Qed.
Lemma rbt_black d i kv x y n : rbt (mk d Black i kv x y) (S n) <-> rbt x n /\ rbt y n.
Proof. destruct d; cbn; split; [intros (m & [= ->] & H)|intros H; exists n| intros (m & [= ->] & H)|intros H; exists n]; tauto. Qed.
Lemma plug_rb c : forall t n, rbt t n -> ctx_rb c n -> (tcolor t = Black \/ top_black c \/ c = []) -> exists m, rbt (plug c t) m.
Proof.
  induction c as [|[d col i kv s] c IH]; intros t n Ht Hc Hb; [eauto|]. cbn [plug f_dir f_color f_id f_kv f_other]. cbn [ctx_rb top_black f_color] in Hc, Hb.
  destruct col; [done|..].
  - destruct Hc as (H1 & H2 & H3 & H4). apply (IH _ n); [|done|tauto]. apply rbt_red. destruct Hb as [|[|]]; done.
  - destruct Hc as (H1 & H2). apply (IH _ (S n)); [by apply rbt_black|done|]. left. apply tcolor_mk.
Qed.

(** ** The repair after an insertion *)

Lemma bind_ok {A B} (m : st rbtree A) (k : A -> st rbtree B) t a t' : m t = Ok (a, t') -> (m ≫= k) t = k a t'.
Proof. intros H. unfold mbind, st_bind. by rewrite H. Qed.
Lemma Color_ok c t T : rep (nodes t) c T -> Color (rid T) t = Ok (tcolor T, t).
Proof. destruct T as [|col i kv l r]; [done|]. cbn. intros (H & _). unfold get, load, mbind, st_bind. cbn. by rewrite H. Qed.
Lemma shape_mk d T i : rid T = Some i -> exists kv a b, T = mk d (tcolor T) i kv a b.
Proof. destruct T as [|c j kv l r]; [done|]. intros [= ->]. destruct d; [by exists kv, l, r|by exists kv, r, l]. Qed.
Lemma not_root c d col x kv a b t : holds (plug c (mk d col x kv a b)) t -> (Some x = root t <-> c = []).
Proof.
  intros H. rewrite (ho_root _ _ H), rid_plug, rid_mk. split; [|by intros ->]. intros Ht. pose proof (ho_ids _ _ H) as Hn.
  rewrite ids_plug, ids_mk in Hn. cbn in Hn. apply NoDup_cons in Hn as [Hn _]. destruct c as [|f c]; [done|]. exfalso. apply Hn, elem_of_app. right.
  clear Hn H. revert f Ht. induction c as [|g c IH]; intros f Ht; rewrite top_cons in Ht; [injection Ht as ->; left|].
  cbn [ctx_ids]. right. apply elem_of_app. right. apply IH. rewrite top_cons in *. done.
Qed.
Lemma sibling_ne c d col x kv y a b t : holds (plug c (mk d col x kv a b)) t -> rid a = Some y -> rid b <> Some y.
Proof.
  intros H Ha%rid_in Hb%rid_in. pose proof (ho_ids _ _ H) as Hn. rewrite ids_plug, ids_mk in Hn.
  apply NoDup_app in Hn as (Hn & _). apply NoDup_cons in Hn as (_ & Hn). apply NoDup_app in Hn as (_ & Hn & _). by apply (Hn y).
Qed.

(** A red node on the outer side: one rotation. *)
Lemma outer_ok d cp p kp s cg g kg u c Z z t :
  rid Z = Some z -> holds (plug (F d cp p kp s :: F d cg g kg u :: c) Z) t ->
  exists t', (p ← get parent (Some z); _ ← setColor Black p; gp ← get parent p; _ ← setColor Red gp; _ ← rotate (other d) gp; mret (Some z)) t =
      Ok (Some z, t') /\ holds (plug c (mk d Black p kp Z (mk d Red g kg s u))) t'.
Proof.
  intros Hz H. destruct (shape_mk d Z z Hz) as (kz & a & b & EZ). rewrite EZ in H. pose proof (holds_cell _ _ _ _ _ _ _ _ H) as Hc. rewrite <- EZ in *.
  run_step. destruct (setColor_ok Black (F d cg g kg u :: c) d cp p kp Z s t H) as (t1 & E1 & H1). cbn [above f_id]. rewrite (bind_ok _ _ _ _ _ E1).
  pose proof (holds_cell _ _ _ _ _ _ _ _ H1) as Hc1. run_step.
  destruct (setColor_ok Red c d cg g kg (mk d Black p kp Z s) u t1 H1) as (t2 & E2 & H2). cbn [above f_id]. rewrite (bind_ok _ _ _ _ _ E2).
  rewrite <- (mk_other d Red), <- (mk_other d Black) in H2. destruct (rotate_ok _ _ _ _ _ _ _ _ _ _ _ _ H2) as (t3 & E3 & H3).
  rewrite (bind_ok _ _ _ _ _ E3). exists t3. split; [done|]. by rewrite !mk_other in H3.
Qed.

Lemma rbt_black_root t n : rbt t n -> tcolor t <> Red -> tcolor t = Black.
Proof. destruct t as [|[] i kv l r]; done. Qed.
Lemma repair_side_ok d1 d2 dz z kz a b p kp s g kg u c t n :
  let X := mk dz Red z kz a b in
  let c2 := F d1 Red p kp s :: F d2 Black g kg u :: c in
  holds (plug c2 X) t -> rbt X n -> ctx_rb c2 n ->
  exists t', (exists G, repair_side (other d2) (Some z) t = Ok (Some g, t') /\ holds (plug c G) t' /\
      (exists x y, G = mk d2 Red g kg x y) /\ rbt G (S n) /\ inorder (plug c G) = inorder (plug c2 X)) \/
    (exists w W q kq s', repair_side (other d2) (Some z) t = Ok (Some w, t') /\ rid W = Some w /\ holds (plug (F d2 Black q kq s' :: c) W) t' /\
      rbt W n /\ rbt s' n /\ inorder (plug (F d2 Black q kq s' :: c) W) = inorder (plug c2 X)).
Proof.
  intros X c2 H HX Hrb. cbn in Hrb. destruct Hrb as (Hs & Rs & _ & Ru & Hc).
  pose proof (holds_cell _ _ _ _ _ _ _ _ H) as Cz. pose proof (holds_cell (F d2 Black g kg u :: c) d1 Red p kp X s t H) as Cp.
  pose proof (holds_cell c d2 Black g kg (mk d1 Red p kp X s) u t H) as Cg. pose proof (ho_rep _ _ H) as Hr. unfold c2 in Hr. rewrite rep_plug in Hr.
  destruct Hr as (_ & _ & _ & _ & Hu & _). unfold repair_side. do 2 (run_step; cbn [c2 above f_id]).
  run_step. rewrite (bind_ok _ _ _ _ _ (Color_ok _ _ _ Hu)). case_bool_decide as Hcu.
  - destruct u as [|cu j ku u1 u2]; [done|]. cbn in Hcu. subst cu. cbn [rid].
    destruct (setColor_ok Black (F (other d2) Black g kg (mk d1 Red p kp X s) :: c) L Red j ku u1 u2 t) as (t1 & E1 & H1).
    { cbn [plug f_dir f_color f_id f_kv f_other]. rewrite mk_other. exact H. }
    rewrite (bind_ok _ _ _ _ _ E1). cbn [plug f_dir f_color f_id f_kv f_other] in H1. rewrite mk_other in H1.
    destruct (setColor_ok Black (F d2 Black g kg (mk L Black j ku u1 u2) :: c) d1 Red p kp X s t1 H1) as (t2 & E2 & H2). rewrite (bind_ok _ _ _ _ _ E2).
    destruct (setColor_ok Red c d2 Black g kg (mk d1 Black p kp X s) (mk L Black j ku u1 u2) t2 H2) as (t3 & E3 & H3). rewrite (bind_ok _ _ _ _ _ E3).
    exists t3. left. eexists. split; [done|]. split; [exact H3|]. split; [eauto|]. split.
    + apply rbt_red. rewrite !tcolor_mk, !rbt_black. cbn in Ru. tauto.
    + unfold c2. cbn [plug f_dir f_color f_id f_kv f_other]. apply inorder_plug, inorder_mk; by apply inorder_mk.
  - run_step. destruct (decide (d1 = other d2)) as [->|Hd].
    + autorewrite with cells. rewrite bool_decide_eq_true_2 by (unfold X; by rewrite rid_mk).
      destruct (shape_mk d2 X z) as (kz' & a' & b' & EX); [apply rid_mk|]. unfold X in EX at 2. rewrite tcolor_mk in EX.
      cbn [plug c2 f_dir f_color f_id f_kv f_other] in H. rewrite (mk_other d2 Red), EX in H.
      destruct (rotate_ok d2 (F d2 Black g kg u :: c) Red p kp s Red z kz' a' b' t H) as (t1 & E1 & H1).
      assert ((rotate (other (other d2)) (Some p) ≫= fun _ => mret (Some p)) t = Ok (Some p, t1)) as E1' by (by rewrite other_other, (bind_ok _ _ _ _ _ E1)).
      rewrite (bind_ok _ _ _ _ _ E1').
      destruct (outer_ok d2 Red z kz' b' Black g kg u c (mk d2 Red p kp s a') p t1) as (t2 & E2 & H2); [apply rid_mk|exact H1|]. rewrite E2.
      rewrite EX, rbt_red in HX. destruct HX as (? & ? & ? & ?). exists t2. right. exists p, (mk d2 Red p kp s a'), z, kz', (mk d2 Red g kg b' u).
      rewrite rid_mk, !rbt_red. split_and!; try done; [by apply (rbt_black_root _ n)|]. cbn [plug c2 f_dir f_color f_id f_kv f_other]. apply inorder_plug.
      rewrite mk_other, EX. etrans; [symmetry; eapply (inorder_rotate d2 Black Black)|]. apply inorder_mk; [|done]. apply inorder_rotate.
    + assert (d1 = d2) as -> by (by destruct d1, d2). autorewrite with cells. rewrite bool_decide_eq_false_2; cycle 1.
      { intros Hs'. apply (sibling_ne (F d2 Black g kg u :: c) d2 Red p kp z X s t H); [apply rid_mk|done]. }
      rewrite ret_bind. destruct (outer_ok d2 Red p kp s Black g kg u c X z t) as (t2 & E2 & H2); [apply rid_mk|exact H|]. rewrite E2.
      exists t2. right. exists z, X, p, kp, (mk d2 Red g kg s u). rewrite rbt_red. split_and!; try done; [apply rid_mk|by apply (rbt_black_root _ n)|].
      cbn [plug c2 f_dir f_color f_id f_kv f_other]. apply inorder_plug. symmetry. eapply inorder_rotate.
Qed.

Lemma color_above d col p kp s c X t : holds (plug (F d col p kp s :: c) X) t -> Color (Some p) t = Ok (col, t).
Proof.
  intros H. pose proof (holds_cell c d col p kp X s t H) as Cp. unfold Color, get, load, mbind, st_bind. cbn. rewrite Cp. cbn. by rewrite cell_color.
Qed.
(** The loop ends after one round for each two levels, and one more. *)
Lemma repair_loop_ok : forall fuel c dz z kz a b t n,
  holds (plug c (mk dz Red z kz a b)) t -> rbt (mk dz Red z kz a b) n -> ctx_rb c n -> (1 <= fuel)%nat -> (length c <= fuel)%nat ->
  exists T t', repair_loop fuel (Some z) t = Ok ((), t') /\ holds T t' /\ inorder T = inorder (plug c (mk dz Red z kz a b)) /\ exists m, rbt T m.
Proof.
  induction fuel as [|fuel IH]; [lia|]. intros c dz z kz a b t n H HX Hc _ Hf. pose proof (holds_cell _ _ _ _ _ _ _ _ H) as Cz. cbn [repair_loop]. run_step.
  destruct c as [|[d1 col p kp s] c].
  { cbn [above]. eexists _, t. split; [done|]. split; [exact H|]. split; [done|]. by exists n. }
  cbn [above f_id]. pose proof (holds_cell c d1 col p kp (mk dz Red z kz a b) s t H) as Cp.
  rewrite (bind_ok _ _ _ _ _ (color_above _ _ _ _ _ _ _ _ H)). destruct col; [done| |].
  2: { eexists _, t. split; [done|]. split; [exact H|]. split; [done|]. apply (plug_rb _ _ n); [done|done|]. right. by left. }
  destruct c as [|[d2 col g kg u] c]; [cbn in Hc; tauto|]. cbn in Hc. destruct Hc as (Hs & Rs & -> & Ru & Hc).
  rewrite bool_decide_eq_false_2, bool_decide_eq_true_2 by done. cbn [negb andb]. run_step. cbn [above f_id].
  pose proof (holds_cell c d2 Black g kg (mk d1 Red p kp (mk dz Red z kz a b) s) u t H) as Cg. run_step.
  assert ((if bool_decide (Some p = right (cell d2 Black kg (Some p) (rid u) (above c))) then L else R) = other d2) as ->.
  { destruct d2; cbn; [rewrite bool_decide_eq_false_2|by rewrite bool_decide_eq_true_2]; [done|]. intros Hu. symmetry in Hu. revert Hu.
    apply (sibling_ne c L Black g kg p _ u t H). apply rid_mk. }
  destruct (repair_side_ok d1 d2 dz z kz a b p kp s g kg u c t n H HX) as (t1 & [(G & E1 & H1 & (x & y & ->) & HG & Ei)|(w & W & q & kq & s' & E1 & Hw & H1 & HW & Hs' & Ei)]).
  { cbn. by split_and!. }
  - rewrite (bind_ok _ _ _ _ _ E1), root_bind. pose proof (not_root _ _ _ _ _ _ _ _ H1) as Hroot. case_bool_decide as Hg.
    + apply Hroot in Hg. subst c. eexists _, t1. split; [done|]. split; [exact H1|]. split; [exact Ei|]. by exists (S n).
    + assert (c <> []) as Hne by (intros ->; tauto). cbn in Hf. destruct c as [|f c]; [done|]. cbn in Hf.
      destruct (IH (f :: c) d2 g kg x y t1 (S n) H1 HG Hc) as (T & t2 & E2 & H2 & Ei2 & Hm); [lia|cbn; lia|]. exists T, t2. by rewrite Ei2.
  - rewrite (bind_ok _ _ _ _ _ E1), root_bind. destruct (shape_mk d2 W w Hw) as (kw & wa & wb & EW). pose proof H1 as H1'. rewrite EW in H1'.
    pose proof (not_root _ _ _ _ _ _ _ _ H1') as Hroot. rewrite bool_decide_eq_false_2 by (rewrite Hroot; done).
    pose proof (holds_cell _ _ _ _ _ _ _ _ H1') as Cw. cbn in Hf. destruct fuel as [|fuel]; [lia|]. cbn [repair_loop]. run_step. cbn [above f_id].
    rewrite (bind_ok _ _ _ _ _ (color_above _ _ _ _ _ _ _ _ H1)). rewrite andb_false_r. eexists _, t1. split; [done|]. split; [exact H1|]. split; [exact Ei|].
    apply (plug_rb _ _ n); [done|by split|]. right. by left.
Qed.

Lemma holds_size T t : holds T t -> size (nodes t) = length (inorder T).
Proof.
  intros [_ _ Hn Hd]. rewrite <- size_dom, Hd, size_list_to_set by done. unfold ids. by rewrite length_fmap.
Qed.
Lemma ctx_length c : (length c <= length (ctx_ids c))%nat.
Proof. induction c; cbn; [done|]. rewrite length_app. lia. Qed.
Lemma repairPostInsert_ok c dz z kz a b t n :
  holds (plug c (mk dz Red z kz a b)) t -> rbt (mk dz Red z kz a b) n -> ctx_rb c n ->
  exists T t', repairPostInsert (Some z) t = Ok ((), t') /\ holds T t' /\ inorder T = inorder (plug c (mk dz Red z kz a b)) /\ red_black T.
Proof.
  intros H HX Hc. unfold repairPostInsert. unfold mbind at 1, st_bind at 1. cbn [sget].
  assert (length (ids (plug c (mk dz Red z kz a b))) = size (nodes t)) as Hl by (rewrite (holds_size _ _ H); unfold ids; by rewrite length_fmap).
  rewrite ids_plug, ids_mk, length_app in Hl. cbn in Hl. pose proof (ctx_length c).
  destruct (repair_loop_ok (size (nodes t)) c dz z kz a b t n H HX Hc) as (T & t1 & E1 & H1 & Ei & m & Hm); [lia..|].
  rewrite (bind_ok _ _ _ _ _ E1), root_bind. rewrite (ho_root _ _ H1).
  destruct T as [|col i kv l r].
  { exfalso. assert (length (inorder (plug c (mk dz Red z kz a b))) = 0%nat) as Hz by (by rewrite <- Ei). rewrite <- (holds_size _ _ H) in Hz. lia. }
  destruct (setColor_ok Black [] L col i kv l r t1 H1) as (t2 & E2 & H2). cbn [rid]. exists (N Black i kv l r), t2. split; [done|]. split; [exact H2|].
  split; [done|]. split; [done|]. destruct col; [done|exists (S m); cbn in Hm|by exists m]. apply (rbt_black L). tauto.
Qed.

(** ** Putting the leaf in place *)

Fixpoint before (c : list frame) : list (Z * (Z * Z)) :=
  match c with [] => [] | F L _ _ _ _ :: c => before c | F R _ i kv s :: c => before c ++ inorder s ++ [(i, kv)] end.
Fixpoint behind (c : list frame) : list (Z * (Z * Z)) :=
  match c with [] => [] | F L _ i kv s :: c => (i, kv) :: inorder s ++ behind c | F R _ _ _ _ :: c => behind c end.
Lemma inorder_split c : forall t, inorder (plug c t) = before c ++ inorder t ++ behind c.
Proof.
  induction c as [|[d col i kv s] c IH]; intros t; [cbn; by rewrite app_nil_r|]. cbn [plug]. rewrite IH.
  destruct d; cbn; by rewrite <- !app_assoc.
Qed.
Lemma plug_inv c : forall t m, rbt (plug c t) m -> tcolor (plug c t) = Black ->
  exists n, rbt t n /\ ctx_rb c n /\ (tcolor t = Red -> top_black c).
Proof.
  induction c as [|[d col i kv s] c IH]; intros t m H Hb; [exists m; split_and!; [done..|]; cbn in Hb; congruence|].
  destruct (IH _ _ H Hb) as (n & H1 & H2 & H3). cbn [f_dir f_color f_id f_kv f_other] in *. rewrite tcolor_mk in H3. destruct col.
  - by destruct d.
  - apply rbt_red in H1. exists n. cbn. split_and!; try tauto. intros E1. destruct H1. congruence.
  - assert (exists k, n = S k) as [k ->] by (destruct d; cbn in H1; destruct H1 as (k & -> & _); eauto). apply rbt_black in H1. exists k. cbn. tauto.
Qed.

Lemma colour_new_ok c col z kz t :
  holds (plug c (N col z kz E E)) t -> red_black (plug c E) ->
  exists T t', colour_new (Some z) t = Ok (true, t') /\ holds T t' /\ inorder T = inorder (plug c (N col z kz E E)) /\ red_black T.
Proof.
  intros H [Hb (m & Hm)]. destruct (plug_inv c E m Hm Hb) as (n & -> & Hc & _). unfold colour_new.
  destruct (setColor_ok Red c L col z kz E E t H) as (t1 & E1 & H1). rewrite (bind_ok _ _ _ _ _ E1). pose proof (holds_cell _ _ _ _ _ _ _ _ H1) as Cz. run_step.
  assert (inorder (plug c (mk L Red z kz E E)) = inorder (plug c (N col z kz E E))) as Ei by (by apply inorder_plug).
  destruct c as [|[d1 cp p kp s] c].
  { cbn [above]. destruct (setColor_ok Black [] L Red z kz E E t1 H1) as (t2 & E2 & H2). rewrite (bind_ok _ _ _ _ _ E2). exists (N Black z kz E E), t2.
    split; [done|]. split; [exact H2|]. split; [done|]. split; [done|]. exists 1%nat. by apply (rbt_black L). }
  cbn [above f_id]. pose proof (holds_cell c d1 cp p kp _ s t1 H1) as Cp. run_step. destruct c as [|f c].
  - cbn [above]. exists (plug [F d1 cp p kp s] (mk L Red z kz E E)), t1. split; [done|]. split; [exact H1|]. split; [exact Ei|]. cbn in Hc.
    destruct cp; [done|tauto|]. split; [apply tcolor_mk|]. exists 1%nat. apply rbt_black. by split; [|apply Hc].
  - cbn [above f_id]. destruct (repairPostInsert_ok _ _ _ _ _ _ _ 0%nat H1) as (T & t2 & E2 & H2 & Ei2 & Hrb); [by cbn|done|].
    rewrite (bind_ok _ _ _ _ _ E2). exists T, t2. rewrite Ei2, Ei. done.
Qed.

(** A tree next to a new node [z] that is not part of it yet. *)
Record ready (T : shape) (z : Z) (kv : Z * Z) (t : rbtree) : Prop := {
  re_root : root t = rid T;
  re_rep : rep (nodes t) None T;
  re_ids : NoDup (z :: ids T);
  re_dom : dom (nodes t) = list_to_set (z :: ids T);
  re_new : nodes t !! z = Some (newLeaf kv.1 kv.2)
}.
Definition slot_of (c : list frame) : slot := match c with [] => Root | f :: _ => Child (f_dir f) (f_id f) end.

Lemma read_slot_ok c S t {B} (k : option Z -> st rbtree B) :
  root t = rid (plug c S) -> rep (nodes t) None (plug c S) -> (read_slot (slot_of c) ≫= k) t = k (rid S) t.
Proof.
  intros Hr Hp. destruct c as [|[d col i kv s] c]; cbn [slot_of read_slot f_dir f_id]; [by rewrite root_bind, Hr|].
  rewrite rep_plug in Hp. destruct Hp as (_ & Hi & _). erewrite field_bind by exact Hi. by rewrite cell_child.
Qed.
Lemma write_slot_ok c z t :
  ctx_rep (nodes t) c None ->
  exists t', write_slot (slot_of c) (Some z) t = Ok ((), t') /\ root t' = match c with [] => Some z | _ => root t end /\ dom (nodes t') = dom (nodes t) /\
    (forall a, above c <> Some a -> nodes t' !! a = nodes t !! a) /\
    (NoDup (ctx_ids c) -> ctx_rep (nodes t') c (Some z)).
Proof.
  destruct c as [|[d col i kv s] c]; cbn [slot_of write_slot f_dir f_id]; [intros _; eexists; by split_and!|]. intros (Hi & Hs & Hc). run_step.
  eexists. split; [done|]. cbn [root nodes above f_id]. split; [done|]. split; [apply dom_alt|]. split; [intros a Ha; by apply alt_ne|].
  cbn [ctx_ids f_id f_other ctx_rep]. rewrite NoDup_cons. intros [Hn _]. rewrite alt_eq, Hi. cbn [fmap option_fmap option_map]. cells.
  split_and!; [done|apply (rep_frame (nodes t))|apply (ctx_frame (nodes t))]; try done; intros a Ha; apply alt_ne; set_solver.
Qed.
Lemma place_ok c z kv t :
  ready (plug c E) z kv t ->
  exists t', (_ ← update (set_parent (above c)) (Some z); _ ← write_slot (slot_of c) (Some z); mret true) t = Ok (true, t') /\
    holds (plug c (N Uncolored z kv E E)) t'.
Proof.
  intros [Hr Hp Hn Hd Hz]. rewrite rep_plug in Hp. destruct Hp as [_ Hc]. apply NoDup_cons in Hn as [Hn Hi]. rewrite ids_plug in Hn, Hi. cbn in Hn, Hi.
  run_step. set (t1 := Tree _ _). assert (forall a, a <> z -> nodes t1 !! a = nodes t !! a) as Ho by (intros a Ha; apply alt_ne; congruence).
  destruct (write_slot_ok c z t1) as (t2 & E2 & R2 & D2 & O2 & C2).
  { apply (ctx_frame (nodes t)); [|done]. intros a Ha. apply Ho. by intros ->. }
  rewrite (bind_ok _ _ _ _ _ E2). exists t2. split; [done|].
  assert (ids (plug c (N Uncolored z kv E E)) ≡ₚ z :: ids (plug c E)) as Hids by (by rewrite !ids_plug).
  split.
  - rewrite R2, rid_plug. cbn [t1 root]. rewrite Hr, rid_plug. destruct c; [done|]. by rewrite !top_cons.
  - rewrite rep_plug. split; [|by apply C2]. cbn [rep]. split; [|done]. rewrite O2 by (intros Ha%above_in; done). unfold t1. cbn [nodes].
    rewrite alt_eq, Hz. done.
  - rewrite Hids, ids_plug. cbn. by apply NoDup_cons.
  - rewrite D2. unfold t1. cbn [nodes]. rewrite dom_alt, Hd. by apply list_to_set_perm_L.
Qed.

Fixpoint height (t : shape) : nat := match t with E => 0 | N _ _ _ l r => S (Nat.max (height l) (height r)) end.
Definition keys_lt (k : Z) (xs : list (Z * (Z * Z))) : Prop := Forall (fun x => x.2.1 < k) xs.
Definition keys_gt (k : Z) (xs : list (Z * (Z * Z))) : Prop := Forall (fun x => k < x.2.1) xs.
Definition sorted (xs : list (Z * (Z * Z))) : Prop := StronglySorted (fun x y => x.2.1 < y.2.1) xs.
Lemma sorted_node c i kv l r : sorted (inorder (N c i kv l r)) -> sorted (inorder l) /\ sorted (inorder r) /\ keys_lt kv.1 (inorder l) /\ keys_gt kv.1 (inorder r).
Proof.
  cbn. unfold sorted. rewrite StronglySorted_app. intros (H1 & H2 & H3). inversion H3 as [|? ? H4 H5]; subst. split_and!; [done|done| |done].
  apply Forall_forall. intros x Hx. apply (H1 x (i, kv)); [done|]. left.
Qed.

Lemma rb_insert_ok S : forall fuel c z kv t,
  ready (plug c S) z kv t -> red_black (plug c S) -> sorted (inorder S) -> keys_lt kv.1 (before c) -> keys_gt kv.1 (behind c) -> (height S < fuel)%nat ->
  match rb_insert fuel kv.1 (Some z) (slot_of c) (above c) t with
  | Ok (_, t') => exists T xs ys, holds T t' /\ red_black T /\ inorder T = xs ++ (z, kv) :: ys /\ inorder (plug c S) = xs ++ ys /\
      keys_lt kv.1 xs /\ keys_gt kv.1 ys
  | Panic => exists x, x ∈ inorder S /\ x.2.1 = kv.1
  | Stuck => False
  end.
Proof.
  induction S as [|col i ki l IHl r IHr]; intros [|fuel] c z kv t Hr Hrb Hs Hb Ha Hf; [lia| |lia|]; cbn [rb_insert]; cbn [height] in Hf.
  - destruct (place_ok c z kv t Hr) as (t1 & E1 & H1).
    assert (bst_insert (rb_insert fuel kv.1 (Some z)) kv.1 (Some z) (slot_of c) (above c) t = Ok (true, t1)) as E.
    { unfold bst_insert. rewrite (read_slot_ok c E) by apply Hr. exact E1. }
    rewrite (bind_ok _ _ _ _ _ E). destruct (colour_new_ok c Uncolored z kv t1 H1 Hrb) as (T & t2 & E2 & H2 & Ei & Hrb2). rewrite E2.
    exists T, (before c), (behind c). rewrite Ei, !inorder_split. done.
  - apply sorted_node in Hs as (Sl & Sr & Kl & Kr).
    assert (nodes t !! i = Some (cell L col ki (rid l) (rid r) (above c))) as Ci.
    { pose proof (re_rep _ _ _ _ Hr) as Hp. rewrite rep_plug in Hp. apply Hp. }
    unfold bst_insert. unfold mbind at 1, st_bind at 1. rewrite (read_slot_ok c (N col i ki l r)) by apply Hr. cbn [rid]. erewrite field_bind by exact Ci. cbn [cell pageOff].
    destruct (Z.eqb_spec ki.1 kv.1) as [Ek|Ek]; [exists (i, ki); split; [cbn; set_solver|done]|].
    destruct (Z.ltb_spec kv.1 ki.1) as [Hlt|Hlt].
    + assert (keys_gt kv.1 (behind (F L col i ki r :: c))) as Ha'.
      { apply Forall_cons. split; [done|]. apply Forall_app. split; [|done]. eapply Forall_impl; [exact Kr|]. cbn. lia. }
      specialize (IHl fuel (F L col i ki r :: c) z kv t Hr Hrb Sl Hb Ha' ltac:(lia)). cbn [slot_of above f_dir f_id] in IHl. unfold mbind at 1, st_bind at 1.
      destruct (rb_insert fuel kv.1 (Some z) (Child L i) (Some i) t) as [[b t']| |]; [exact IHl| |done].
      destruct IHl as (x & Hx & Ex). exists x. split; [|done]. cbn. set_solver.
    + assert (keys_lt kv.1 (before (F R col i ki l :: c))) as Hb'.
      { apply Forall_app. split; [done|]. apply Forall_app. split; [|apply Forall_singleton; cbn; lia]. eapply Forall_impl; [exact Kl|]. cbn. lia. }
      specialize (IHr fuel (F R col i ki l :: c) z kv t Hr Hrb Sr Hb' Ha ltac:(lia)). cbn [slot_of above f_dir f_id] in IHr. unfold mbind at 1, st_bind at 1.
      destruct (rb_insert fuel kv.1 (Some z) (Child R i) (Some i) t) as [[b t']| |]; [exact IHr| |done].
      destruct IHr as (x & Hx & Ex). exists x. split; [|done]. cbn. set_solver.
Qed.

(** ** Search *)

Lemma find_from_ok S : forall fuel key p t,
  rep (nodes t) p S -> sorted (inorder S) -> (height S < fuel)%nat ->
  exists r, find_from fuel key (rid S) t = Ok (r, t) /\
    match r with
    | Some i => exists kv, (i, kv) ∈ inorder S /\ kv.1 = key /\ exists n, nodes t !! i = Some n /\ physAddr n = kv.2
    | None => Forall (fun x => x.2.1 <> key) (inorder S)
    end.
Proof.
  induction S as [|col i ki l IHl r IHr]; intros [|fuel] key p t Hp Hs Hf; [lia| |lia|]; cbn [height] in Hf; [exists None; by split|].
  apply sorted_node in Hs as (Sl & Sr & Kl & Kr). destruct Hp as (Hi & Pl & Pr). cbn [find_from rid]. run_step. cbn [cell pageOff].
  destruct (Z.eqb_spec ki.1 key) as [Ek|Ek].
  { exists (Some i). split; [done|]. exists ki. split; [cbn; set_solver|]. eauto. }
  destruct (Z.ltb_spec key ki.1) as [Hlt|Hlt]; run_step; cbn [cell left right].
  - destruct (IHl fuel key (Some i) t Pl Sl ltac:(lia)) as (x & E1 & H1). rewrite E1. exists x. split; [done|]. destruct x as [j|].
    + destruct H1 as (kv & H1 & H2). exists kv. split; [cbn; set_solver|done].
    + cbn. apply Forall_app. split; [done|]. apply Forall_cons. split; [done|]. eapply Forall_impl; [exact Kr|]. cbn. lia.
  - destruct (IHr fuel key (Some i) t Pr Sr ltac:(lia)) as (x & E1 & H1). rewrite E1. exists x. split; [done|]. destruct x as [j|].
    + destruct H1 as (kv & H1 & H2). exists kv. split; [cbn; set_solver|done].
    + cbn. apply Forall_app. split; [eapply Forall_impl; [exact Kl|]; cbn; lia|]. by apply Forall_cons.
Qed.

(** A red-black tree of [n] nodes is at most [2 log (n + 1)] high. *)
Lemma rbt_height T : forall n, rbt T n -> (2 ^ n <= S (length (inorder T)))%nat /\ (height T <= 2 * n + match tcolor T with Red => 1 | _ => 0 end)%nat.
Proof.
  induction T as [|c i kv l IHl r IHr]; intros n H; [cbn in H; subst; cbn; lia|]. cbn [inorder height tcolor]. rewrite length_app. cbn [length].
  destruct c; [done|..].
  - destruct H as (Cl & Cr & Hl & Hr). destruct (IHl n Hl) as [A1 A2], (IHr n Hr) as [B1 B2]. rewrite Cl in A2. rewrite Cr in B2. cbn in *. lia.
  - destruct H as (m & -> & Hl & Hr). destruct (IHl m Hl) as [A1 A2], (IHr m Hr) as [B1 B2]. cbn [Nat.pow]. destruct (tcolor l), (tcolor r); lia.
Qed.
Lemma red_black_height T : red_black T -> (height T <= 2 * Nat.log2 (S (length (inorder T))))%nat.
Proof.
  intros [Hb (n & Hn)]. destruct (rbt_height T n Hn) as [H1 H2]. rewrite Hb in H2. cbn in H2.
  assert (n <= Nat.log2 (S (length (inorder T))))%nat as H3; [|lia]. rewrite <- (Nat.log2_pow2 n) by lia. by apply Nat.log2_le_mono.
Qed.
Lemma height_size T : (height T <= length (inorder T))%nat.
Proof. induction T; cbn; [lia|]. rewrite length_app. cbn. lia. Qed.

(** ** Iteration

    The tree as one of BST.v, whose iterator goes through the contents in order;
    reading a node there and here gives the same. *)

Fixpoint bst_of (p : option Z) (t : shape) : BST.tree :=
  match t with E => Nil | N _ i kv l r => Node i p kv (bst_of (Some i) l) (bst_of (Some i) r) end.
Lemma bst_of_inorder t : forall p, iterateInOrder (bst_of p t) = inorder t.
Proof. induction t as [|c i kv l IHl r IHr]; intros p; [done|]. cbn. by rewrite IHl, IHr. Qed.
Lemma bst_of_parents t : forall p, parents_ok p (bst_of p t).
Proof. induction t as [|c i kv l IHl r IHr]; intros p; cbn; auto. Qed.
Lemma bst_of_root t p : root_id (bst_of p t) = rid t.
Proof. by destruct t. Qed.

Definition same_node (nd : @BST.tree (Z * Z)) (n : AnonInfoLeaf) : Prop :=
  left_of nd = left n /\ right_of nd = right n /\ parent_of nd = parent n /\
  match nd with Node _ _ kv _ _ => kv = (pageOff n, physAddr n) | Nil => False end.
Lemma node_at_same h S : forall p a nd, rep h p S -> node_at a (bst_of p S) = Some nd -> exists n, h !! a = Some n /\ same_node nd n.
Proof.
  induction S as [|c i kv l IHl r IHr]; intros p a nd Hp; [done|]. cbn [bst_of node_at]. destruct Hp as (Hi & Pl & Pr).
  destruct (Z.eqb_spec i a) as [->|]; [intros [= <-]; eexists; split; [done|]; unfold same_node; cbn; rewrite !bst_of_root; by destruct kv|].
  destruct (node_at a (bst_of (Some i) l)) eqn:El; [intros [= <-]; by apply (IHl _ _ _ Pl)|apply (IHr _ _ _ Pr)].
Qed.
Section Iterate.
Context (T : shape) (t : rbtree) (H : holds T t).
Let B := bst_of None T.
Lemma get_same {A C} (f : AnonInfoLeaf -> A) p nd (k : A -> st rbtree C) :
  deref B p = Ok nd -> exists n, (get f p ≫= k) t = k (f n) t /\ (load p) t = Ok (n, t) /\ same_node nd n.
Proof.
  unfold deref. destruct p as [a|]; [|done]. cbn. destruct (node_at a B) as [nd'|] eqn:E1; [|done]. cbn. intros [= ->].
  destruct (node_at_same _ _ _ _ _ (ho_rep _ _ H) E1) as (n & Hn & Hs). exists n. rewrite (field_bind f a n) by done. unfold load. cbn. by rewrite Hn.
Qed.
Lemma descend_same : forall fuel p q, BST.descend B fuel p = Ok q -> descend fuel p t = Ok (q, t).
Proof.
  induction fuel as [|fuel IH]; intros p q; [done|]. cbn [BST.descend descend]. destruct (deref B p) as [nd| |] eqn:E1; try done.
  cbn [mbind res_bind]. destruct (get_same left p nd (fun l => match l with Some _ => descend fuel l | None => mret p end) E1) as (n & -> & _ & Hs & _).
  rewrite <- Hs. destruct (left_of nd); [apply IH|by intros [= ->]].
Qed.
Lemma climb_same : forall fuel p y q, BST.climb B fuel p y = Ok q -> climb fuel p y t = Ok (q, t).
Proof.
  induction fuel as [|fuel IH]; intros p y q; [done|]. cbn [BST.climb climb]. destruct (deref B y) as [nd| |] eqn:E1; try done. cbn [mbind res_bind].
  match goal with |- _ -> (get right y ≫= ?k) t = _ => destruct (get_same right y nd k E1) as (n & -> & _ & _ & Hr & _) end. rewrite <- Hr.
  case_bool_decide.
  - match goal with |- _ -> (get parent y ≫= ?k) t = _ => destruct (get_same parent y nd k E1) as (n' & -> & _ & _ & _ & Hp & _) end. rewrite <- Hp.
    destruct (parent_of nd); [apply IH|by intros [= <-]].
  - destruct (deref B p) as [np| |] eqn:E2; try done. cbn [mbind res_bind].
    match goal with |- _ -> (get right p ≫= ?k) t = _ => destruct (get_same right p np k E2) as (n' & -> & _ & _ & Hr' & _) end. rewrite <- Hr'. by intros [= <-].
Qed.
Lemma increment_same p q : BST.increment B p = Ok q -> increment p t = Ok (q, t).
Proof.
  unfold BST.increment, increment. destruct p as [a|]; [|by intros [= <-]]. destruct (deref B (Some a)) as [nd| |] eqn:E1; try done. cbn [mbind res_bind].
  unfold mbind at 1, st_bind at 1. cbn [sget]. match goal with |- _ -> (get right _ ≫= ?k) t = _ => destruct (get_same right _ nd k E1) as (n & -> & _ & _ & Hr & _) end.
  assert (Z.to_nat (countNodes B) = size (nodes t)) as <- by (rewrite (proj1 (count_length _)); unfold B; by rewrite bst_of_inorder, (holds_size _ _ H)).
  rewrite <- Hr. destruct (right_of nd); [apply descend_same|].
  match goal with |- _ -> (get parent _ ≫= ?k) t = _ => destruct (get_same parent _ nd k E1) as (n' & -> & _ & _ & _ & Hp & _) end. rewrite <- Hp.
  destruct (parent_of nd); [apply climb_same|by intros [= <-]].
Qed.
Lemma for_each_same : forall fuel p xs, BST.for_each B fuel p = Ok xs -> for_each fuel p t = Ok (xs, t).
Proof.
  induction fuel as [|fuel IH]; intros [a|] xs; cbn [BST.for_each for_each]; [done|by intros [= <-]| |by intros [= <-]].
  destruct (deref B (Some a)) as [nd| |] eqn:E1; try done. cbn [mbind res_bind]. destruct (get_same (fun n => n) _ nd (fun _ => mret ()) E1) as (n & _ & El & _ & _ & _ & Hkv).
  destruct nd as [|i p' kv l r]; [done|]. destruct (BST.increment B (Some a)) as [q| |] eqn:E2; try done. cbn [mbind res_bind].
  destruct (BST.for_each B fuel q) as [ys| |] eqn:E3; try done. cbn [mbind res_bind]. intros [= <-].
  rewrite (bind_ok _ _ _ _ _ El), (bind_ok _ _ _ _ _ (increment_same _ _ E2)), (bind_ok _ _ _ _ _ (IH _ _ E3)). by rewrite Hkv.
Qed.
Lemma findMin_ok S : forall fuel p, rep (nodes t) p S -> (height S < fuel)%nat -> findMin fuel (rid S) t = Ok (fst <$> head (inorder S), t).
Proof.
  induction S as [|c i kv l IHl r IHr]; intros [|fuel] p Hp Hf; [lia|done|lia|]. destruct Hp as (Hi & Pl & Pr). cbn [findMin rid]. run_step. cbn [cell left].
  cbn [height] in Hf. specialize (IHl fuel (Some i) Pl ltac:(lia)). destruct l as [|cl j kl l1 l2]; [done|]. cbn [rid]. cbn [rid] in IHl. rewrite IHl.
  cbn [inorder]. by destruct (inorder l1).
Qed.
Lemma iterate_ok : iterate t = Ok ((inorder T).*2, t).
Proof.
  unfold iterate. unfold mbind at 1, st_bind at 1. cbn [sget]. rewrite (ho_root _ _ H).
  assert (findMin (S (size (nodes t))) (rid T) t = Ok (fst <$> head (inorder T), t)) as E1.
  { apply (findMin_ok T _ None); [apply (ho_rep _ _ H)|]. rewrite (holds_size _ _ H). pose proof (height_size T). lia. }
  rewrite (bind_ok _ _ _ _ _ E1). apply for_each_same. rewrite <- (bst_of_inorder T None). apply (for_each_ok fst (bst_of None T) (iterateInOrder (bst_of None T)) []).
  - unfold BST.ids. rewrite bst_of_inorder. apply (ho_ids _ _ H).
  - apply bst_of_parents.
  - done.
  - rewrite bst_of_inorder, (holds_size _ _ H). done.
Qed.
End Iterate.

(** ** Deletion of all nodes *)

Lemma deleteSubtree_ok S : forall fuel p t,
  rep (nodes t) p S -> NoDup (ids S) -> (height S < fuel)%nat ->
  exists t', deleteSubtree fuel (rid S) t = Ok ((), t') /\
    (forall a, a ∈ ids S -> nodes t' !! a = None) /\ (forall a, a ∉ ids S -> nodes t' !! a = nodes t !! a).
Proof.
  induction S as [|c i kv l IHl r IHr]; intros [|fuel] p t Hp Hn Hf; [lia| |lia|]; cbn [height] in Hf.
  { exists t. split; [done|]. split; [intros a Ha; unfold ids in Ha; cbn in Ha; set_solver|done]. }
  destruct Hp as (Hi & Pl & Pr). cbn [deleteSubtree rid]. run_step. cbn [cell left].
  assert (forall a, a ∈ ids (N c i kv l r) <-> a = i \/ a ∈ ids l \/ a ∈ ids r) as Hin by (intros a; rewrite (ids_mk L c i kv l r); set_solver).
  rewrite (ids_mk L c i kv l r) in Hn. apply NoDup_cons in Hn as [Hni Hn]. apply NoDup_app in Hn as (Nl & Hd & Nr).
  destruct (IHl fuel (Some i) t Pl Nl ltac:(lia)) as (t1 & E1 & D1 & K1). rewrite (bind_ok _ _ _ _ _ E1).
  assert (nodes t1 !! i = Some (cell L c kv (rid l) (rid r) p)) as Hi1 by (rewrite K1; [done|set_solver]).
  run_step. cbn [cell right].
  destruct (IHr fuel (Some i) t1) as (t2 & E2 & D2 & K2); [apply (rep_frame (nodes t)); [|done]; intros a Ha; apply K1; set_solver|done|lia|].
  rewrite (bind_ok _ _ _ _ _ E2). unfold delete_node. cbn [mbind res_bind res_of].
  assert (nodes t2 !! i = Some (cell L c kv (rid l) (rid r) p)) as -> by (rewrite K2; [done|set_solver]). cbn [mbind res_bind res_of].
  eexists. split; [done|]. cbn [nodes]. split; intros a; rewrite Hin; intros Ha; (destruct (decide (a = i)) as [->|Hai]; [try (rewrite lookup_delete_eq; done)|]).
  - rewrite lookup_delete_ne by congruence. destruct (decide (a ∈ ids r)) as [Hr|Hr]; [by apply D2|]. rewrite K2 by done. apply D1. tauto.
  - tauto.
  - rewrite lookup_delete_ne by congruence. rewrite K2, K1; [done|tauto|tauto].
Qed.
Lemma destroyTree_ok T t : holds T t -> exists t', destroyTree t = Ok ((), t') /\ nodes t' = ∅.
Proof.
  intros H. unfold destroyTree. unfold mbind, st_bind. cbn [sget]. rewrite (ho_root _ _ H).
  destruct (deleteSubtree_ok T (S (size (nodes t))) None t) as (t' & E1 & D & K); [apply H|apply H|rewrite (holds_size _ _ H); pose proof (height_size T); lia|].
  rewrite E1. exists t'. split; [done|]. apply map_eq. intros a. rewrite lookup_empty. destruct (decide (a ∈ ids T)) as [Ha|Ha]; [by apply D|].
  rewrite K by done. apply not_elem_of_dom. rewrite (ho_dom _ _ H). by rewrite elem_of_list_to_set.
Qed.

(** ** The pages of a VM object

    What MapEntry.cpp does with the tree, on the tree and on the finite map that
    VmMap.v has in its place.  A search may take one call more than twice the
    logarithm of the number of pages. *)

Inductive page_op := PInsert (a offset phys : Z) | PFind (offset : Z) | PIterate.
Inductive answer := ADone | AFound (page : option Z) | APages (pages : list (Z * Z)).
Definition find_calls (t : rbtree) : nat := S (2 * Nat.log2 (S (size (nodes t)))).
Definition rb_op (o : page_op) : st rbtree answer :=
  match o with
  | PInsert a offset phys => _ ← insert_leaf a offset phys; mret ADone
  | PFind offset => t ← sget; r ← findKey (find_calls t) offset; mret (AFound r)
  | PIterate => l ← iterate; mret (APages l)
  end.
Section Pages.
Context {P : PTEHandler} (this : Z).
Definition map_op (o : page_op) : st vm answer :=
  match o with
  | PInsert _ offset phys => _ ← insert_page this offset phys; mret ADone
  | PFind offset => e ← the_obj this; mret (AFound (pages e !! offset))
  | PIterate => e ← the_obj this; mret (APages (page_list e))
  end.
Definition answers {W} (step : page_op -> st W answer) : list page_op -> st W (list answer) :=
  fix go os := match os with [] => mret [] | o :: os => a ← step o; l ← go os; mret (a :: l) end.
Definition allocated (os : list page_op) : list Z := omap (fun o => match o with PInsert a _ _ => Some a | _ => None end) os.

Record represents (t : rbtree) (m : gmap Z Z) (T : shape) : Prop := {
  rp_holds : holds T t;
  rp_rb : red_black T;
  rp_sorted : sorted (inorder T);
  rp_map : m = list_to_map (inorder T).*2
}.
Lemma sorted_keys xs : sorted xs -> NoDup xs.*2.*1.
Proof.
  induction 1 as [|x xs _ IH Hx]; cbn; [constructor|]. constructor; [|done]. rewrite <- list_fmap_compose. intros ((i & kv) & E1 & Hy)%list_elem_of_fmap.
  rewrite Forall_forall in Hx. specialize (Hx _ Hy). cbn in *. lia.
Qed.
Lemma sorted_insert xs ys z kv : sorted (xs ++ ys) -> keys_lt kv.1 xs -> keys_gt kv.1 ys -> sorted (xs ++ (z, kv) :: ys).
Proof.
  unfold sorted. rewrite !StronglySorted_app. intros (H1 & H2 & H3) Hx Hy. unfold keys_lt, keys_gt in *. rewrite Forall_forall in Hx, Hy. split_and!; [|done|].
  - intros a b Ha Hb. apply elem_of_cons in Hb as [->|Hb]; [by apply Hx|by apply H1].
  - constructor; [done|]. by apply Forall_forall.
Qed.
Lemma insert_leaf_ok t m T a offset phys :
  represents t m T -> a ∉ ids T ->
  match insert_leaf a offset phys t with
  | Ok (_, t') => m !! offset = None /\ exists T', represents t' (<[offset := phys]> m) T' /\ ids T' ≡ₚ a :: ids T
  | Panic => is_Some (m !! offset)
  | Stuck => False
  end.
Proof.
  intros [H Hrb Hs ->] Ha. unfold insert_leaf. unfold mbind at 1, st_bind at 1. cbn [smod]. set (t1 := Tree _ _).
  assert (ready T a (offset, phys) t1) as Hr.
  { assert (forall z, z ∈ ids T -> nodes t1 !! z = nodes t !! z) as Ho by (intros z Hz; apply lookup_insert_ne; by intros ->).
    split; [apply H|apply (rep_frame (nodes t)); [done|apply H]|constructor; [done|apply H]| |apply lookup_insert_eq].
    cbn [t1 nodes]. rewrite dom_insert_L, (ho_dom _ _ H). set_solver. }
  erewrite field_bind by apply (re_new _ _ _ _ Hr). cbn [newLeaf pageOff fst]. unfold mbind at 1, st_bind at 1. cbn [sget].
  assert (height T < size (nodes t1))%nat as Hf.
  { pose proof (height_size T). cbn [t1 nodes]. rewrite map_size_insert_None; [rewrite (holds_size _ _ H); lia|].
    apply not_elem_of_dom. rewrite (ho_dom _ _ H). by rewrite elem_of_list_to_set. }
  pose proof (rb_insert_ok T (size (nodes t1)) [] a (offset, phys) t1 Hr Hrb Hs (Forall_nil_2 _) (Forall_nil_2 _) Hf) as H1. cbn [fst slot_of above plug] in H1.
  unfold mbind at 1, st_bind at 1. destruct (rb_insert _ offset (Some a) Root None t1) as [[b t2]| |]; [| |done].
  - destruct H1 as (T' & xs & ys & H' & Hrb' & Ei & Ei0 & Kx & Ky). cbn [fst] in *.
    assert (offset ∉ ((xs ++ ys).*2).*1) as Hn.
    { rewrite <- list_fmap_compose. intros (x & E1 & Hx)%list_elem_of_fmap. apply elem_of_app in Hx. unfold keys_lt, keys_gt in *. rewrite Forall_forall in Kx, Ky.
      destruct Hx as [Hx|Hx]; [specialize (Kx _ Hx)|specialize (Ky _ Hx)]; cbn in *; lia. }
    split; [rewrite Ei0; by apply not_elem_of_list_to_map_1|]. exists T'. split.
    + split; [done|done|rewrite Ei; apply sorted_insert; rewrite <- ?Ei0; done|]. rewrite Ei, Ei0, !fmap_app. cbn.
      change (<[offset := phys]> (list_to_map (xs.*2 ++ ys.*2)) =@{gmap Z Z} _) with (list_to_map ((offset, phys) :: xs.*2 ++ ys.*2) =@{gmap Z Z} list_to_map (xs.*2 ++ (offset, phys) :: ys.*2)).
      apply list_to_map_proper; [|apply Permutation_middle]. cbn. rewrite <- !fmap_app. constructor; [done|]. apply sorted_keys. by rewrite <- Ei0.
    + unfold ids. rewrite Ei, Ei0, !fmap_app. cbn. by rewrite Permutation_middle.
  - destruct H1 as (x & Hx & Ex). cbn [fst] in Ex. exists (x.2.2). apply elem_of_list_to_map_1; [by apply sorted_keys|].
    apply list_elem_of_fmap. exists x. split; [|done]. destruct x as [i [k v]]. cbn in *. by subst.
Qed.
Lemma findKey_ok t m T offset : represents t m T -> findKey (find_calls t) offset t = Ok (m !! offset, t).
Proof.
  intros [H Hrb Hs ->]. unfold findKey. rewrite root_bind, (ho_root _ _ H).
  destruct (find_from_ok T (find_calls t) offset None t (ho_rep _ _ H) Hs) as (r & E1 & H1).
  { unfold find_calls. rewrite (holds_size _ _ H). pose proof (red_black_height T Hrb). lia. }
  rewrite (bind_ok _ _ _ _ _ E1). destruct r as [i|].
  - destruct H1 as ([k v] & Hi & Ek & n & Hn & Ev). cbn in Ek, Ev. subst k. erewrite field_bind by exact Hn. rewrite Ev. symmetry. do 2 f_equal. unfold mret.
    assert (list_to_map (inorder T).*2 !! offset = Some v) as ->; [|done]. apply elem_of_list_to_map_1; [by apply sorted_keys|].
    apply list_elem_of_fmap. by exists (i, (offset, v)).
  - assert (list_to_map (inorder T).*2 !! offset = None) as ->; [|done]. apply not_elem_of_list_to_map_1. rewrite <- list_fmap_compose.
    intros (x & -> & Hx)%list_elem_of_fmap. rewrite Forall_forall in H1. by apply (H1 x Hx).
Qed.
Lemma inorder_pages t m T : represents t m T -> (inorder T).*2 = merge_sort page_le (map_to_list m).
Proof.
  intros [H Hrb Hs ->]. set (l := (inorder T).*2). assert (NoDup l.*1) as Hn by (by apply sorted_keys).
  assert (map_to_list (list_to_map l : gmap Z Z) ≡ₚ l) as Hp by (by apply map_to_list_to_map).
  apply (StronglySorted_unique_strong page_le).
  - intros [k v] [k' v'] H1 H2 L1 L2. rewrite merge_sort_Permutation, Hp in H2. unfold page_le in *. cbn in *. assert (k = k') as <- by lia.
    apply elem_of_list_to_map_1 in H1, H2; [|done..]. congruence.
  - unfold l. clear -Hs. induction Hs as [|x xs _ IH Hx]; cbn; constructor; [done|]. apply Forall_fmap. eapply Forall_impl; [exact Hx|]. unfold page_le. cbn. lia.
  - apply StronglySorted_merge_sort; [|apply _]. intros a b c. unfold page_le. lia.
  - by rewrite merge_sort_Permutation, Hp.
Qed.

(** The operations on a finite map; [None] is a panic. *)
Definition abs_op (o : page_op) (m : gmap Z Z) : option (answer * gmap Z Z) :=
  match o with
  | PInsert _ offset phys => match m !! offset with Some _ => None | None => Some (ADone, <[offset := phys]> m) end
  | PFind offset => Some (AFound (m !! offset), m)
  | PIterate => Some (APages (merge_sort page_le (map_to_list m)), m)
  end.
Lemma rb_op_ok o t m T :
  represents t m T -> (forall a, a ∈ allocated [o] -> a ∉ ids T) ->
  match rb_op o t with
  | Ok (x, t') => exists m' T', abs_op o m = Some (x, m') /\ represents t' m' T' /\ ids T' ≡ₚ allocated [o] ++ ids T
  | Panic => abs_op o m = None
  | Stuck => False
  end.
Proof.
  intros H Ha. destruct o as [a offset phys|offset|]; cbn [rb_op abs_op].
  - pose proof (insert_leaf_ok t m T a offset phys H (Ha a ltac:(cbn; set_solver))) as H1. unfold mbind at 1, st_bind at 1.
    destruct (insert_leaf a offset phys t) as [[[] t']| |]; [|by destruct H1 as [v ->]|done]. destruct H1 as (-> & T' & H' & Hi). cbn. eauto.
  - unfold mbind at 1, st_bind at 1. cbn [sget]. rewrite (bind_ok _ _ _ _ _ (findKey_ok _ _ _ offset H)). exists m, T. done.
  - rewrite (bind_ok _ _ _ _ _ (iterate_ok T t (rp_holds _ _ _ H))). exists m, T. rewrite (inorder_pages _ _ _ H). done.
Qed.
Lemma map_op_abs o (w : vm) e :
  objs w !! this = Some e ->
  match abs_op o (pages e), map_op o w with
  | Some (x, m'), Ok (y, w') => x = y /\ exists e', objs w' !! this = Some e' /\ pages e' = m'
  | None, Panic => True
  | _, _ => False
  end.
Proof.
  intros He. destruct o as [a offset phys|offset|]; cbn [abs_op map_op]; unfold insert_page, the_obj, put_obj, mbind, st_bind; cbn; rewrite He; cbn.
  - destruct (pages e !! offset); cbn; [done|]. split; [done|]. eexists. split; [apply lookup_insert_eq|done].
  - split; [done|]. eauto.
  - split; [done|]. eauto.
Qed.
Lemma represents_empty : represents emptyTree ∅ E.
Proof. split; [split; by try constructor|split; [done|by exists 0%nat]|constructor|done]. Qed.

Lemma answers_ok os : forall t m T, represents t m T -> NoDup (allocated os) -> (forall a, a ∈ allocated os -> a ∉ ids T) ->
  match answers rb_op os t with
  | Ok (xs, t') => exists m' T', represents t' m' T' /\
      forall (w : vm) e, objs w !! this = Some e -> pages e = m -> exists w', answers map_op os w = Ok (xs, w')
  | Panic => forall (w : vm) e, objs w !! this = Some e -> pages e = m -> answers map_op os w = Panic
  | Stuck => False
  end.
Proof.
  induction os as [|o os IH]; intros t m T H Hn Ha; cbn [answers]; [exists m, T; split; [done|]; intros w e _ _; by exists w|].
  assert (allocated (o :: os) = allocated [o] ++ allocated os) as Eal by (destruct o; done). rewrite Eal in Hn, Ha. apply NoDup_app in Hn as (N1 & N2 & N3).
  pose proof (rb_op_ok o t m T H ltac:(intros a Hx; apply Ha; set_solver)) as H1. unfold mbind at 1, st_bind at 1.
  destruct (rb_op o t) as [[x t1]| |]; [| |done].
  - destruct H1 as (m1 & T1 & E1 & H1 & Hi). specialize (IH t1 m1 T1 H1 N3).
    assert (forall a, a ∈ allocated os -> a ∉ ids T1) as Ha1 by (intros a Hx; rewrite Hi; set_solver). specialize (IH Ha1).
    unfold mbind at 1, st_bind at 1. destruct (answers rb_op os t1) as [[xs t2]| |]; [| |done].
    + destruct IH as (m2 & T2 & H2 & IH). exists m2, T2. split; [done|]. intros w e He Hm. subst m. pose proof (map_op_abs o w e He) as H3. rewrite E1 in H3.
      unfold mbind at 1, st_bind at 1. destruct (map_op o w) as [[y w1]| |]; try done. destruct H3 as (<- & e1 & He1 & Hm1). destruct (IH w1 e1 He1 Hm1) as (w2 & E2).
      exists w2. unfold mbind at 1, st_bind at 1. by rewrite E2.
    + intros w e He Hm. subst m. pose proof (map_op_abs o w e He) as H3. rewrite E1 in H3.
      unfold mbind at 1, st_bind at 1. destruct (map_op o w) as [[y w1]| |]; try done. destruct H3 as (<- & e1 & He1 & Hm1).
      unfold mbind at 1, st_bind at 1. by rewrite (IH w1 e1 He1 Hm1).
  - intros w e He Hm. subst m. pose proof (map_op_abs o w e He) as H3. rewrite H1 in H3. unfold mbind at 1, st_bind at 1. by destruct (map_op o w) as [[y w1]| |].
Qed.

(** C12: the red-black tree is the finite map that VmMap.v has for the pages of an
    object.  Any sequence of insertions, searches and loops over the tree, on
    nodes at fresh addresses, gives the answers of the map, in the order of the
    offsets for a loop, and panics where the map does, on an offset that is
    present; it follows no null or dead pointer, no search looks at more than
    twice the logarithm of the number of pages, and the destructor frees every
    node. *)
Theorem page_tree_refines os (w : vm) e :
  objs w !! this = Some e -> pages e = ∅ -> NoDup (allocated os) ->
  match answers rb_op os emptyTree, answers map_op os w with
  | Ok (xs, t), Ok (ys, _) => xs = ys /\ exists t', destroyTree t = Ok ((), t') /\ nodes t' = ∅
  | Panic, Panic => True
  | _, _ => False
  end.
Proof.
  intros He Hm Hn. pose proof (answers_ok os emptyTree ∅ E represents_empty Hn ltac:(intros a _; unfold ids; cbn; set_solver)) as H.
  destruct (answers rb_op os emptyTree) as [[xs t]| |]; [| |done].
  - destruct H as (m & T & H & Hw). destruct (Hw w e He Hm) as (w' & ->). split; [done|]. apply (destroyTree_ok T), H.
  - by rewrite (H w e He Hm).
Qed.
End Pages.

(** C13: the tree stays a balanced search tree.  After any sequence of operations
    the nodes in memory form a tree with correct parent pointers, ordered by
    offset, with a black root, no red node with a red child, and the same number
    of black nodes on every way down; so it is at most twice the logarithm of the
    number of nodes high. *)
Theorem tree_stays_balanced os :
  NoDup (allocated os) ->
  match answers rb_op os emptyTree with
  | Ok (_, t) => exists T, holds T t /\ red_black T /\ sorted (inorder T) /\ (height T <= 2 * Nat.log2 (S (size (nodes t))))%nat
  | Panic => True
  | Stuck => False
  end.
Proof.
  intros Hn. pose proof (answers_ok (P := reference_table) 0 os emptyTree ∅ E represents_empty Hn ltac:(intros a _; unfold ids; cbn; set_solver)) as H.
  destruct (answers rb_op os emptyTree) as [[xs t]| |]; [|done|done]. destruct H as (m & T & [H1 H2 H3 _] & _). exists T. split_and!; try done.
  rewrite (holds_size _ _ H1). by apply red_black_height.
Qed.

(** ** Witnesses *)

Definition demo_ops : list page_op :=
  [PInsert 100 1 0x1000; PInsert 101 2 0x2000; PInsert 102 3 0x3000; PInsert 103 6 0x6000; PInsert 104 4 0x4000; PInsert 105 5 0x5000; PFind 4; PFind 7; PIterate].
Definition demo_answers : list answer :=
  [ADone; ADone; ADone; ADone; ADone; ADone; AFound (Some 0x4000); AFound None;
   APages [(1, 0x1000); (2, 0x2000); (3, 0x3000); (4, 0x4000); (5, 0x5000); (6, 0x6000)]].
Definition demo_vm : vm := Vm ∅ {[5 := newEntry 0x4000 (Read + Write) false true 0 Idle]} ten_pages ∅.
Lemma page_tree_refines_witness : exists t t', answers rb_op demo_ops emptyTree = Ok (demo_answers, t) /\ destroyTree t = Ok ((), t') /\ nodes t' = ∅.
Proof.
  pose proof (page_tree_refines 5 demo_ops demo_vm (newEntry 0x4000 (Read + Write) false true 0 Idle) eq_refl eq_refl ltac:(by apply (bool_decide_unpack _))) as H.
  destruct (answers rb_op demo_ops emptyTree) as [[xs t]| |] eqn:E1; [|vm_compute in E1; congruence..].
  assert (xs = demo_answers) as -> by (vm_compute in E1; injection E1 as <- _; reflexivity).
  destruct (answers (map_op 5) demo_ops demo_vm) as [[ys w]| |]; [|destruct H..]. destruct H as (_ & t' & H). exists t, t'. split; [reflexivity|exact H].
Defined.
Lemma tree_stays_balanced_witness : exists t T, answers rb_op demo_ops emptyTree = Ok (demo_answers, t) /\ holds T t /\ red_black T /\ (height T <= 4)%nat.
Proof.
  pose proof (tree_stays_balanced demo_ops ltac:(by apply (bool_decide_unpack _))) as H.
  destruct (answers rb_op demo_ops emptyTree) as [[xs t]| |] eqn:E1; [|vm_compute in E1; congruence..].
  assert (xs = demo_answers) as -> by (vm_compute in E1; injection E1 as <- _; reflexivity). destruct H as (T & H1 & H2 & _ & H3). exists t, T. split; [reflexivity|]. split; [exact H1|]. split; [exact H2|].
  assert (size (nodes t) = 6%nat) as Es by (vm_compute in E1; injection E1 as <-; reflexivity). rewrite Es in H3. exact H3.
Defined.
